(* ===== verification/_CoqProject ===== *)
-Q . S2P
Prelude.v
DequeMap.v
Skeens.v
SkeensInv.v
SkeensOrder.v
SkeensReplica.v
RangeMap.v
ClientRangeTree.v
PerColor.v
UtilRangeTree.v
PacketCodec.v
Packets.v
Trie.v
ByteTrie.v
OrderingThread.v
OrderingInv.v
OrderingSafety.v
WorkerThread.v
WorkerSafety.v
ClientLog.v
ClientOrder.v
ClientStore.v
ClientSkeens.v
ClientHandle.v
ClientSync.v
ClientAppend.v
OrderingHistory.v
Cluster.v
Replicator.v
ReplicatorSafety.v
DoubleBuffer.v
Reactor.v
ReactorSafety.v
ReactorWake.v
Transport.v
ServerTcp.v
ServerTcpSafety.v
ServerHop.v
ServerDemo.v
Acceptor.v
AcceptorSafety.v
ServerRound.v
AcceptorDemo.v
ZooFiles.v
ZooClient.v
ZooRename.v
ZooThread.v
ZooService.v
ZooDemo.v
