(* ===== verification/Prelude.v ===== *)
(** * FuzzyLog: a verification development

    FuzzyLog is a shared log that is split into chains.  Clients append entries to one or several
    chains atomically, and read the chains back in an order that respects what happened before
    what.  This development models the Rust code of the server, of the client and of what they
    share, function by function, and proves what makes it correct.

    ** The program and the files that model it

    _Packets._  Every message is an entry of one of a few kinds, laid out by the macro
    [define_packet!] (packet-macro2).  [PacketCodec] models the code the macro generates as
    functions of a description, [Packets] the description and the accessors of
    [fuzzy_log_packets/src/lib.rs].

    _Server_ ([fuzzy_log_server]).  One _ordering thread_ owns the chains.  It gives every append
    its place, at once if the append goes to one chain and nothing is pending, through the
    _Skeens state_ of the chain if the append spans servers; it does not write the entry, but
    tells a _worker_ where to.  The index of a chain is a _trie_ of slots, its bytes come from a
    _byte allocator_.
    - [DequeMap]: the sparse deques of [fuzzy_log_util] (hash_deque_map.rs, tree_deque_map.rs)
      that the Skeens state uses as its queue.
    - [Skeens]: [skeens.rs], every operation of [SkeensState]; [SkeensInv] its invariant,
      [SkeensOrder] what a primary guarantees, [SkeensReplica] replicas and recovery.
    - [Trie]: [trie.rs]; the segments live in a heap, a slot is an address and an index.  The
      allocator is an interface there ([Class ByteTrie] with [ByteTrieLaws]).
    - [ByteTrie]: [byte_trie.rs], the allocator that implements the interface.
    - [OrderingThread]: [ordering_thread.rs] and the state and messages of [lib.rs], every handler
      as a function of [ServerLog] in a state-and-panic monad; [OrderingInv] and [OrderingSafety]
      its invariant and what it guarantees for any allocator that satisfies the laws.
    - [OrderingHistory]: what each chain of a server has delivered, through every handler.
    - [WorkerThread]: [worker_thread.rs] on the memory shared with the ordering thread;
      [WorkerSafety]: the two composed.

    _Connections._  Workers and client stores run the same event loop on sockets.
    - [DoubleBuffer]: the write buffer of a connection ([fuzzy_log_packets/src/double_buffer.rs]).
    - [Reactor]: connections and the loop ([reactor/src/lib.rs]); [ReactorSafety], [ReactorWake]:
      what a connection and the loop guarantee, for any reader and handler that satisfy an interface.
    - [Transport]: the readers that cut the bytes of a socket into messages, on both sides, and the
      names of clients ([socket_addr.rs]).
    - [ServerTcp]: the workers of a server with their connections ([tcp/worker.rs],
      [tcp/per_socket.rs]); [ServerTcpSafety], [ServerHop], [ServerRound]: what they guarantee, also
      composed with the ordering thread; [ServerDemo]: runs.
    - [Acceptor]: how connections join a server ([tcp/socket_negotiate.rs], [tcp/mod.rs]) and the
      client's side of it; [AcceptorSafety]: what it guarantees; [AcceptorDemo]: runs.

    _Client_ ([fuzzy_log_client]).  A thread per client turns what the servers send into the order
    the application sees.
    - [RangeMap], [ClientRangeTree]: the ranges and the read status of a chain
      ([fuzzy_log/range_tree.rs]); [UtilRangeTree] is the generic tree of
      [fuzzy_log_util/src/range_tree.rs] on the same ranges.
    - [PerColor]: what the client knows of one chain ([fuzzy_log/per_color.rs]).
    - [ClientLog]: the thread itself ([fuzzy_log/mod.rs]), every message and method of
      [ThreadLog]; [ClientOrder]: what it guarantees.
    - [ClientStore]: the client's connection to the servers ([store.rs]), requests, answers and the
      client's half of Skeens' algorithm; [ClientSkeens]: what it guarantees.
    - [ClientHandle]: the calls of the application ([fuzzy_log/log_handle.rs]), in a monad where a
      call returns, sleeps on a channel or panics; [ClientSync]: the handle, the thread and the
      store composed; [ClientAppend]: the packets that appends send.
    - [Replicator]: the copying of one log into another ([replicator.rs]), with its own nodes of
      waiting entries; [ReplicatorSafety]: the replicator with its two logs.

    _Together_: [Cluster] composes the stores of several clients with the ordering threads of
    several servers.

    _A service on the log_ ([examples/zookeeper]): a tree of files in the manner of ZooKeeper, whose
    parts are with different processes.  Each process appends what it is asked to the chain of its
    part, reads the chain back and gives every mutation to the threads that have its files; a rename
    between two files is decided by messages that their threads append.
    - [ZooFiles]: the files of a thread and the messages ([files.rs], [message.rs]).
    - [ZooClient]: the client, the materializer and the threads of a process, and processes on one log
      ([lib.rs]).  The log is the list of entries of each chain; [bincode] ([Class Bincode]) and the
      hasher that chooses a thread are parameters.
    - [ZooRename]: what is kept of the renames a thread has a part in; [ZooThread]: every call keeps it;
      [ZooService]: every run of the whole service; [ZooDemo]: runs.

    This file holds what they share: build profiles, the panic monad, machine integers, sorted
    lists, identifiers, places.

    ** How the code is modelled

    Every [panic!], failed assertion, [unwrap] of [None] and arithmetic overflow of a dev build is
    the value [Panic] of [outcome]; definitions are generic in the build profile ([Build]).  Integers
    are [Z] kept at their width by [add64], [sub64], [add32] and the casts.  Maps are [gmap]s, a
    [BTreeMap] keyed by ranges is the list of its entries in order.  Memory the code shares is
    shared in the model: tries and storages by address or handle, the [Rc]s of the client by a
    store with counts.  Threads take turns at the granularity of one message.  A socket is a script of
    the answers its calls give, any sequence that a non-blocking socket may give; the theorems hold for
    all scripts.  How a [Vec] grows is an argument ([VecGrowth]): at least to what is asked for.

    ** What is proved

    - The log: the messages by which chains deliver multi-appends (and snapshots) through the Skeens
      state are each about one request, and two that two chains have in common, on whatever servers,
      are in one order in both ([Cluster.multi_appends_ordered]); this joins the client's half of
      Skeens' algorithm with the servers', for any requests the servers have handled.
    - Order: a chain of a primary delivers in the order of final timestamps and ids
      ([SkeensOrder.delivery_sorted]); two chains that deliver the same two appends agree on their
      order ([chains_agree]); nothing is lost, delivered twice or left over ([skeens_conservation],
      [skeens_drained]); replicas deliver in the primary's order ([SkeensReplica]).
    - The server: places given to the appends of a chain strictly increase ([places_increase]);
      requests that respect the protocol never make the thread panic ([server_no_panic]); the
      first round hands out the timestamps the packet asks for ([round1_hands_out]).  An append
      that a worker finished is read back byte for byte, whatever is interleaved
      ([append_then_read]); a fast multi-append is one entry in all its chains
      ([fast_path_same_entry]); a worker touches only what its message points to
      ([worker_footprint]).
    - Memory: the trie with its shortcuts is, for every reader, the list of appended pointers
      ([trie_refines_log]); the allocator with shortcuts finds the same memory as a walk from the
      root, and never hands out bytes twice ([byte_trie_locations], [Alloc] as an instance of the
      laws).
    - The client: the range tree keeps the invariant the code asserts, and its updates are
      pointwise ([ClientRangeTree]); what is picked to be read can be asked for ([fetch_within_snapshot]);
      in any run of the client that returns, a rewind apart, every chain is returned in order,
      without gaps or duplicates, within the snapshot, and the application is sent every entry that
      was returned and that it is interested in, once ([client_returns_in_order]).  Every second round of an append that spans servers
      carries the largest of the timestamps that all its chains gave it, the same to every server
      ([client_skeens_agreement]), which is what [chains_agree] asks for.
    - The application: in any run of handle, thread and store, "everything was read" is said only
      when every snapshot has ended, and no call sleeps without something to wait for
      ([done_means_all_snapshots_ended], [appends_accounted]); [sync] hands over every entry once, in
      order ([sync_gives_every_entry]); an append names the chains it was asked to, sorted, each
      once ([append_packets]).
    - The replicator: no entry is lost or repeated, one is passed on only when places at or after
      those it depends on were acknowledged, and waits only for a place that was not
      ([replicator_conserves]); it never idles, and panics only on entries it refuses
      ([replicator_no_panic]).
    - Connections: as long as socket, messages and handler behave, a connection hands on the messages on
      its socket, each once, in order, in whatever pieces they come ([connection_delivers]); the loop never sleeps on work ([no_lost_wakeup]); what a
      server passes on is what the next one replicates ([replication_hop]); a request comes to the
      ordering thread with exactly the storage it needs ([request_ready]); a single append that nothing
      holds back goes from the client's bytes to its place and back as the answer ([append_answered]);
      clients and the servers that come for them, if they greet as they should, are paired and given to
      one worker each ([acceptor_pairs]).
    - The service: a rename ends at both of its files in the same way, each once, with the data the old
      file had, in any interleaving of any number of processes ([rename_atomic]); and it has ended when
      nothing is left to do, unless it had to wait for another rename ([rename_ends]; one that waits may
      never end, [ZooDemo.waiting_rename_never_ends]).  How it ended is read off the files before and
      after ([ZooThread.verdicts_of]).
    - Packets: writing and reading are inverse; reading a prefix asks for more bytes, never for
      more than the packet has.
    - What does not hold is shown by evaluated runs: an append after a write at an index lands in
      another slot ([append_after_write_at_misplaced]), rewinding breaks the counters of the read
      status ([rewind_breaks_invariant]), the client returns an entry before one it happens after
      ([client_breaks_dependency]), a strong snapshot that spans servers comes back as a sentinel
      ([strong_snapshot_becomes_sentinel]), the first error of a client is never reported
      ([first_error_is_dropped]), and some panics and losses named where they are found ([ServerDemo], [AcceptorDemo],
      [ZooDemo]).

    ** Bounds and fuel

    Server theorems assume that a chain has fewer than [Trie.LIMIT] = 2^62 entries and
    [BYTES_LIMIT] = 2^62 bytes: below them no counter overflows ([u64]) and the byte allocator's
    locations, the locations of shared slices (from [rc_base] = 2^63) and null stay apart; a server
    cannot come near them.  Loops that are not structural take fuel: the queue and heap loops of
    [Skeens] run on the length of the queue or heap, [remove_above] on that of the map,
    [wrap_bytes] on the size of the packet, each shown to be enough where a theorem says that the
    code returns.  The client's loop over unblocked places ([unblock_rest]) may have no bound when
    entries disagree about their places; its theorem holds for every fuel.  [apply_mutation] of the
    service calls itself for what waited, which never makes it call itself again: fuel 2 is enough
    ([ZooThread.fuel_enough]).  Runs of the service are those in which no counter of identifiers comes
    around (2^64).  [OrderingHistory] and
    [Cluster] are about dev builds, where a handler that returns has not overflowed and its
    assertions have held; the other theorems are about both profiles.

    ** Not modelled

    Opening sockets, registering them with mio and starting threads; the old servers (udp.rs,
    buffer_stream.rs, tokio_server).  The queues between threads (spsc.rs, spmc.rs) and packet buffers
    (buffer.rs, buffer2.rs): wrappers; a queue is a list in order of sending, a buffer the packet in
    it.  The reference counts of [RcSlice].  The parts of trie.rs and skeens.rs that only tests or
    nothing calls.  Statistics, caches of buffers and [Debug] output.  The C interface, views, benchmarks
    and the examples other than zookeeper, which call the client. *)

From stdpp Require Import base gmap list sorting fin_maps.
From Stdlib Require Import ZArith Lia.

#[export] Set Default Goal Selector "!".
#[export] Set Warnings "-clear-no-such-hyp".
Open Scope Z_scope.

(** ** Build profiles

    The crate is compiled in two profiles ([Cargo.toml]): the dev profile, where
    [debug_assert!] and the overflow checks of integer arithmetic are on, and the release
    profile ([debug-assertions = false]), where [debug_assert!] is skipped and arithmetic
    wraps.  Every definition is generic in the profile. *)

Class Build := { debug_assertions : bool }.

Definition dev : Build := {| debug_assertions := true |}.
Definition release : Build := {| debug_assertions := false |}.

(** ** The panic monad

    [panic!], [assert!], [unwrap] on [None], [unreachable!], [unimplemented!] and an
    out-of-range index all abort ([panic = 'abort'] in both profiles): they are the value
    [Panic]. *)

Inductive outcome (A : Type) :=
| Done (a : A)
| Panic.
Arguments Done {A} a.
Arguments Panic {A}.

#[export] Instance outcome_eq_dec `{EqDecision A} : EqDecision (outcome A).
Proof. solve_decision. Defined.

#[export] Instance outcome_ret : MRet outcome := fun A a => Done a.
#[export] Instance outcome_bind : MBind outcome := fun A B k m =>
  match m with Done a => k a | Panic => Panic end.
#[export] Instance outcome_fmap : FMap outcome := fun A B f m =>
  match m with Done a => Done (f a) | Panic => Panic end.

(** [assert!(b)] *)
Definition assert_ (b : bool) : outcome unit := if b then Done tt else Panic.

(** [debug_assert!(b)] *)
Definition debug_assert `{Build} (b : bool) : outcome unit :=
  if debug_assertions then assert_ b else Done tt.

(** [opt.unwrap()] / [opt.expect(..)] *)
Definition unwrap {A} (o : option A) : outcome A :=
  match o with Some a => Done a | None => Panic end.

(** ** Machine integers: [u64] (and [usize], 64 bits on the targets) as [Z] in range *)

Definition u64_max : Z := 18446744073709551615.
Definition in_u64 (z : Z) : Prop := 0 <= z <= u64_max.
Definition in_u64b (z : Z) : bool := (0 <=? z) && (z <=? u64_max).

(** The exact result when it fits; otherwise the dev profile panics and release wraps. *)
Definition norm64 `{Build} (z : Z) : outcome Z :=
  if in_u64b z then Done z
  else if debug_assertions then Panic else Done (z mod (u64_max + 1)).

Definition add64 `{Build} (a b : Z) : outcome Z := norm64 (a + b).
Definition sub64 `{Build} (a b : Z) : outcome Z := norm64 (a - b).

Lemma in_u64b_spec z : in_u64b z = true <-> in_u64 z.
Proof. unfold in_u64b, in_u64. rewrite andb_true_iff, !Z.leb_le. lia. Qed.

Lemma norm64_ok `{Build} z : in_u64 z -> norm64 z = Done z.
Proof. intros Hz. unfold norm64. by rewrite (proj2 (in_u64b_spec z) Hz). Qed.

Lemma add64_ok `{Build} a b : in_u64 (a + b) -> add64 a b = Done (a + b).
Proof. apply norm64_ok. Qed.

Lemma sub64_ok `{Build} a b : in_u64 (a - b) -> sub64 a b = Done (a - b).
Proof. apply norm64_ok. Qed.

Lemma norm64_dev z r : norm64 (H := dev) z = Done r -> r = z /\ in_u64 z.
Proof.
  unfold norm64. destruct (in_u64b z) eqn:E; simpl; [|done].
  intros [= <-]. by apply in_u64b_spec in E.
Qed.

(** [u32] arithmetic, and the truncating cast [as u32]. *)
Definition u32_max : Z := 4294967295.

Definition norm32 `{Build} (z : Z) : outcome Z :=
  if (0 <=? z) && (z <=? u32_max) then Done z
  else if debug_assertions then Panic else Done (z mod (u32_max + 1)).

Definition add32 `{Build} (a b : Z) : outcome Z := norm32 (a + b).
Definition sub32 `{Build} (a b : Z) : outcome Z := norm32 (a - b).
Definition as_u32 (z : Z) : Z := z mod (u32_max + 1).

Lemma norm32_ok `{Build} z : 0 <= z <= u32_max -> norm32 z = Done z.
Proof. intros Hz. unfold norm32. by rewrite !(proj2 (Z.leb_le _ _)) by lia. Qed.

(** ** Inversion and rewriting for the monad *)

Lemma bind_done {A B} (m : outcome A) (k : A -> outcome B) r :
  (m ≫= k) = Done r <-> exists a, m = Done a /\ k a = Done r.
Proof.
  split.
  - destruct m as [a|]; simpl; [|done]. intros Hk. by exists a.
  - by intros (a & -> & ?).
Qed.

Lemma done_bind {A B} (a : A) (k : A -> outcome B) : (Done a ≫= k) = k a.
Proof. done. Qed.

Lemma assert_done b r : assert_ b = Done r <-> b = true.
Proof. destruct b, r; simpl; naive_solver. Qed.

Lemma debug_assert_true `{Build} b : b = true -> debug_assert b = Done tt.
Proof. intros ->. unfold debug_assert. by destruct debug_assertions. Qed.

Lemma unwrap_done {A} (o : option A) a : unwrap o = Done a <-> o = Some a.
Proof. destruct o; simpl; naive_solver. Qed.

(** [inv_done] takes a hypothesis [m1 >>= ... = Done r] apart into its steps. *)
Ltac inv_done :=
  repeat match goal with
  | H : Done _ = Done _ |- _ => injection H as H; subst
  | H : Panic = Done _ |- _ => discriminate H
  | H : Done _ = Panic |- _ => discriminate H
  | H : (_ ≫= _) = Done _ |- _ => apply bind_done in H as (? & ? & H); simpl in H
  | H : mret _ = Done _ |- _ => injection H as H; subst
  | H : assert_ _ = Done _ |- _ => apply assert_done in H
  | H : unwrap _ = Done _ |- _ => apply unwrap_done in H
  end.

(** [step_done] runs the first step of the goal's computation when it is known to return. *)
Ltac step_done :=
  first [ rewrite add64_ok by (unfold in_u64, u64_max in *; lia)
        | rewrite sub64_ok by (unfold in_u64, u64_max in *; lia)
        | rewrite debug_assert_true by (first [done | lia]) ]; simpl.

(** ** Generic lemmas on lists *)

(** [List.last] of the cells of a sorted list, and sortedness of appended lists. *)
Lemma StronglySorted_app_iff {A} (R : relation A) (l1 l2 : list A) :
  StronglySorted R (l1 ++ l2) <->
  StronglySorted R l1 /\ StronglySorted R l2 /\
  (forall x y, x ∈ l1 -> y ∈ l2 -> R x y).
Proof.
  induction l1 as [|a l1 IH]; simpl.
  - split; [intros ?|naive_solver].
    split_and!; [constructor|done|]. intros x y Hx. inversion Hx.
  - split.
    + intros [Hs Ha]%StronglySorted_inv. apply IH in Hs as (H1 & H2 & H12).
      rewrite Forall_app in Ha. destruct Ha as [Ha1 Ha2].
      split_and!; [by constructor|done|].
      intros x y Hx Hy. apply elem_of_cons in Hx as [->|Hx]; [|by apply H12].
      rewrite Forall_forall in Ha2. by apply Ha2.
    + intros ([H1 Ha]%StronglySorted_inv & H2 & H12). constructor.
      * apply IH. split_and!; [done..|]. intros x y ??. apply H12; [by right|done].
      * apply Forall_app. split; [done|].
        apply Forall_forall. intros y Hy. apply H12; [by left|done].
Qed.

Lemma StronglySorted_snoc {A} (R : relation A) l x :
  StronglySorted R l -> (forall y, y ∈ l -> R y x) -> StronglySorted R (l ++ [x]).
Proof.
  intros Hl Hx. apply StronglySorted_app_iff. split_and!; [done|by repeat constructor|].
  intros y z Hy ->%list_elem_of_singleton. by apply Hx.
Qed.

(** ** Identifiers

    [Uuid] comes from the [uuid] crate; the code uses its equality, its hash (as a key of
    maps), its [Ord] and [Uuid::nil()].  The laws are those of Rust's [Ord]. *)

Class UuidOps (U : Type) := {
  uuid_eq_dec :: EqDecision U;
  uuid_countable :: Countable U;
  uuid_cmp : U -> U -> comparison;
  uuid_nil : U;
}.

Class UuidLaws (U : Type) `{UuidOps U} : Prop := {
  uuid_cmp_eq : forall a b, uuid_cmp a b = Eq <-> a = b;
  uuid_cmp_antisym : forall a b, uuid_cmp b a = CompOpp (uuid_cmp a b);
  uuid_cmp_trans : forall a b c, uuid_cmp a b = Lt -> uuid_cmp b c = Lt -> uuid_cmp a c = Lt;
}.

(** A 128-bit identifier read as a big-endian number. *)
#[export] Instance Z_uuid : UuidOps Z := {| uuid_cmp := Z.compare; uuid_nil := 0 |}.

#[export] Instance Z_uuid_laws : UuidLaws Z.
Proof.
  constructor; simpl.
  - apply Z.compare_eq_iff.
  - intros a b. apply Z.compare_antisym.
  - intros a b c. rewrite !Z.compare_lt_iff. lia.
Qed.

(** ** Chains and positions ([fuzzy_log_packets/src/lib.rs]): [order] names a chain, [entry]
    an index in it; both are [u64] newtypes. *)

Record OrderIndex := mkOI { oi_order : Z; oi_entry : Z }.

#[export] Instance OrderIndex_eq_dec : EqDecision OrderIndex.
Proof. solve_decision. Defined.

Create HintDb fuzzy discriminated.
#[export] Hint Resolve norm64_ok add64_ok sub64_ok debug_assert_true : fuzzy.
