(* ===== verification/DequeMap.v ===== *)
(** * The sparse deques of [fuzzy_log_util]

    [hash_deque_map.rs] (re-exported as [vec_deque_map], the queue the Skeens state uses) and
    [tree_deque_map.rs] (the same structure over a [BTreeMap], without the [min] guard): a map
    from absolute [u64] indices to values together with the index of its front and the next
    index to push at.  Module [Hash] and Module [Tree] hold the two implementations, one
    definition per method; [Hash.rep] is the list a densely filled queue stands for, and the
    lemmas about it are what [Skeens] relies on. *)

From S2P Require Import Prelude.
From stdpp Require Import base gmap list fin_maps.
From Stdlib Require Import ZArith Lia.

Open Scope Z_scope.

Module Hash.

Record VecDequeMap (V : Type) := mkDeque {
  data : gmap Z V;
  start : Z;
  next : Z;
  min : Z;
}.
Arguments mkDeque {V} _ _ _ _.
Arguments data {V} _.
Arguments start {V} _.
Arguments next {V} _.
Arguments min {V} _.

Section Ops.
Context `{Build} {V : Type}.

Definition new : VecDequeMap V := mkDeque ∅ 0 0 0.

Definition push_back (m : VecDequeMap V) (val : V) : outcome (Z * VecDequeMap V) :=
  let key := next m in
  n ← add64 (next m) 1;
  Done (key, mkDeque (<[key := val]> (data m)) (start m) n (min m)).

Definition is_empty (m : VecDequeMap V) : bool := bool_decide (data m = ∅).

Definition pop_front (m : VecDequeMap V) : outcome (option V * VecDequeMap V) :=
  if is_empty m then Done (None, m)
  else
    let val := data m !! start m in
    s ← add64 (start m) 1;
    Done (val, mkDeque (delete (start m) (data m)) s (next m) s).

Definition insert (m : VecDequeMap V) (key : Z) (val : V) : outcome (option V * VecDequeMap V) :=
  if key <? min m then Panic
  else
    let s := if key <? start m then key else start m in
    n ← (if next m <=? key then add64 key 1 else Done (next m));
    Done (data m !! key, mkDeque (<[key := val]> (data m)) s n (min m)).

(** The assertion shared by [get] and [get_mut]. *)
Definition get (m : VecDequeMap V) (key : Z) : outcome (option V) :=
  let val := data m !! key in
  _ ← (if (key <? start m) || (next m <=? key)
       then assert_ (bool_decide (val = None)) else Done tt);
  Done val.

(** [get_mut] and the write through the reference it returns: [f] is what the caller does
    with the entry. *)
Definition get_mut (m : VecDequeMap V) (key : Z) (f : V -> outcome V)
    : outcome (option V * VecDequeMap V) :=
  val ← get m key;
  match val with
  | None => Done (None, m)
  | Some v => v' ← f v;
      Done (Some v', mkDeque (<[key := v']> (data m)) (start m) (next m) (min m))
  end.

Definition front (m : VecDequeMap V) : option V := data m !! start m.

Definition start_index (m : VecDequeMap V) : Z := start m.

Definition push_index (m : VecDequeMap V) : Z := next m.

Definition increment_start (m : VecDequeMap V) : outcome (VecDequeMap V) :=
  _ ← assert_ (bool_decide (front m = None));
  s ← add64 (start m) 1;
  Done (mkDeque (data m) s (next m) (min m)).

(** [impl Index<u64>]: [m[key]]. *)
Definition index (m : VecDequeMap V) (key : Z) : outcome V :=
  val ← get m key; unwrap val.

(** [impl IndexMut<u64>]: the update of [m[key]] by [f]. *)
Definition index_mut (m : VecDequeMap V) (key : Z) (f : V -> outcome V)
    : outcome (VecDequeMap V) :=
  r ← get_mut m key f;
  match r with (Some _, m') => Done m' | (None, _) => Panic end.

End Ops.

(** ** Well-formedness: every stored index lies in [start, next) *)

Definition wf {V} (m : VecDequeMap V) : Prop :=
  0 <= start m <= next m /\ next m <= u64_max /\
  0 <= min m <= start m /\
  forall k v, data m !! k = Some v -> start m <= k < next m.

(** ** The list a dense queue stands for *)

Definition rep {V} (m : VecDequeMap V) (l : list V) : Prop :=
  0 <= start m /\ next m = start m + Z.of_nat (length l) /\ next m <= u64_max /\
  0 <= min m <= start m /\
  forall k, data m !! k = if decide (start m <= k) then l !! Z.to_nat (k - start m) else None.

End Hash.

(** ** [tree_deque_map.rs]: the same structure over a [BTreeMap], with no [min] field *)

Module Tree.

Record VecDequeMap (V : Type) := mkDeque {
  data : gmap Z V;
  start : Z;
  next : Z;
}.
Arguments mkDeque {V} _ _ _.
Arguments data {V} _.
Arguments start {V} _.
Arguments next {V} _.

Section Ops.
Context `{Build} {V : Type}.

Definition new : VecDequeMap V := mkDeque ∅ 0 0.

Definition push_back (m : VecDequeMap V) (val : V) : outcome (Z * VecDequeMap V) :=
  let key := next m in
  n ← add64 (next m) 1;
  Done (key, mkDeque (<[key := val]> (data m)) (start m) n).

Definition is_empty (m : VecDequeMap V) : bool := bool_decide (data m = ∅).

Definition pop_front (m : VecDequeMap V) : outcome (option V * VecDequeMap V) :=
  if is_empty m then Done (None, m)
  else
    let val := data m !! start m in
    s ← add64 (start m) 1;
    Done (val, mkDeque (delete (start m) (data m)) s (next m)).

Definition insert (m : VecDequeMap V) (key : Z) (val : V) : outcome (option V * VecDequeMap V) :=
  let s := if key <? start m then key else start m in
  n ← (if next m <=? key then add64 key 1 else Done (next m));
  Done (data m !! key, mkDeque (<[key := val]> (data m)) s n).

Definition get (m : VecDequeMap V) (key : Z) : outcome (option V) :=
  let val := data m !! key in
  _ ← (if (key <? start m) || (next m <=? key)
       then assert_ (bool_decide (val = None)) else Done tt);
  Done val.

Definition front (m : VecDequeMap V) : option V := data m !! start m.

Definition increment_start (m : VecDequeMap V) : outcome (VecDequeMap V) :=
  _ ← assert_ (bool_decide (front m = None));
  s ← add64 (start m) 1;
  Done (mkDeque (data m) s (next m)).

End Ops.
End Tree.

(** ** Operation sequences over both implementations *)

Inductive dq_op (V : Type) :=
| DqPush (v : V)
| DqPop
| DqInsert (k : Z) (v : V)
| DqGet (k : Z)
| DqIncr.
Arguments DqPush {V} v.
Arguments DqPop {V}.
Arguments DqInsert {V} k v.
Arguments DqGet {V} k.
Arguments DqIncr {V}.

(** What a call returns to its caller. *)
Inductive dq_ret (V : Type) :=
| RIdx (k : Z)
| RVal (o : option V)
| RUnit.
Arguments RIdx {V} k.
Arguments RVal {V} o.
Arguments RUnit {V}.

Definition hash_call `{Build} {V} (op : dq_op V) (m : Hash.VecDequeMap V)
    : outcome (dq_ret V * Hash.VecDequeMap V) :=
  match op with
  | DqPush v => r ← Hash.push_back m v; Done (RIdx r.1, r.2)
  | DqPop => r ← Hash.pop_front m; Done (RVal r.1, r.2)
  | DqInsert k v => r ← Hash.insert m k v; Done (RVal r.1, r.2)
  | DqGet k => r ← Hash.get m k; Done (RVal r, m)
  | DqIncr => m' ← Hash.increment_start m; Done (RUnit, m')
  end.

Definition tree_call `{Build} {V} (op : dq_op V) (m : Tree.VecDequeMap V)
    : outcome (dq_ret V * Tree.VecDequeMap V) :=
  match op with
  | DqPush v => r ← Tree.push_back m v; Done (RIdx r.1, r.2)
  | DqPop => r ← Tree.pop_front m; Done (RVal r.1, r.2)
  | DqInsert k v => r ← Tree.insert m k v; Done (RVal r.1, r.2)
  | DqGet k => r ← Tree.get m k; Done (RVal r, m)
  | DqIncr => m' ← Tree.increment_start m; Done (RUnit, m')
  end.

Fixpoint hash_run `{Build} {V} (ops : list (dq_op V)) (m : Hash.VecDequeMap V)
    : outcome (list (dq_ret V) * Hash.VecDequeMap V) :=
  match ops with
  | [] => Done ([], m)
  | op :: ops => r ← hash_call op m; rs ← hash_run ops r.2; Done (r.1 :: rs.1, rs.2)
  end.

Fixpoint tree_run `{Build} {V} (ops : list (dq_op V)) (m : Tree.VecDequeMap V)
    : outcome (list (dq_ret V) * Tree.VecDequeMap V) :=
  match ops with
  | [] => Done ([], m)
  | op :: ops => r ← tree_call op m; rs ← tree_run ops r.2; Done (r.1 :: rs.1, rs.2)
  end.

(** The tree deque that has the same contents as a hash deque. *)
Definition forget_min {V} (m : Hash.VecDequeMap V) : Tree.VecDequeMap V :=
  Tree.mkDeque (Hash.data m) (Hash.start m) (Hash.next m).

(** ** Lemmas *)

Section Rep.
Context `{Build} {V : Type}.
Implicit Types (m : Hash.VecDequeMap V) (l : list V) (v : V).

Lemma rep_new : Hash.rep (Hash.new (V := V)) [].
Proof.
  unfold Hash.rep, Hash.new, u64_max; simpl. split_and!; try lia.
  intros k. rewrite lookup_empty. by case_decide.
Qed.

Lemma rep_front m l : Hash.rep m l -> Hash.front m = head l.
Proof.
  intros (? & ? & ? & ? & Hd). unfold Hash.front. rewrite Hd, decide_True by lia.
  rewrite Z.sub_diag. by destruct l.
Qed.

Lemma rep_is_empty m l : Hash.rep m l -> Hash.is_empty m = bool_decide (l = []).
Proof.
  intros Hr. pose proof (rep_front m l Hr) as Hf. unfold Hash.front in Hf.
  destruct Hr as (? & ? & ? & ? & Hd). unfold Hash.is_empty.
  apply bool_decide_ext. split.
  - intros He. rewrite He, lookup_empty in Hf. by destruct l.
  - intros ->. apply map_eq. intros k. rewrite Hd, lookup_empty. by case_decide.
Qed.

Lemma rep_push_back m l v :
  Hash.rep m l -> Hash.next m < u64_max ->
  exists m', Hash.push_back m v = Done (Hash.next m, m') /\
    Hash.rep m' (l ++ [v]) /\ Hash.start m' = Hash.start m.
Proof.
  intros (H0 & Hn & Hmax & Hmin & Hd) Hroom. unfold Hash.push_back.
  rewrite add64_ok by (unfold in_u64; lia). simpl.
  eexists; split_and!; [done| |done]. unfold Hash.rep; simpl.
  rewrite length_app; simpl. split_and!; try lia.
  intros k. destruct (decide (k = Hash.next m)) as [->|Hk].
  - rewrite lookup_insert_eq, decide_True by lia.
    rewrite lookup_app_r by lia.
    by replace (Z.to_nat _ - length l)%nat with O by lia.
  - rewrite lookup_insert_ne by done. rewrite Hd. case_decide; [|done].
    destruct (decide (k < Hash.next m)).
    + by rewrite lookup_app_l by lia.
    + rewrite (lookup_ge_None_2 l) by lia. symmetry. apply lookup_ge_None_2.
      rewrite length_app; simpl. lia.
Qed.

Lemma rep_pop_front m l v :
  Hash.rep m (v :: l) ->
  exists m', Hash.pop_front m = Done (Some v, m') /\ Hash.rep m' l /\
    Hash.start m' = Hash.start m + 1 /\ Hash.next m' = Hash.next m.
Proof.
  intros Hr. unfold Hash.pop_front. rewrite (rep_is_empty m _ Hr).
  rewrite bool_decide_eq_false_2 by done.
  pose proof (rep_front m _ Hr) as Hf. unfold Hash.front in Hf. rewrite Hf.
  destruct Hr as (H0 & Hn & Hmax & Hmin & Hd). simpl in Hn.
  rewrite add64_ok by (unfold in_u64; lia). simpl.
  eexists; split_and!; [done| |done..]. unfold Hash.rep; simpl. split_and!; try lia.
  intros k. destruct (decide (k = Hash.start m)) as [->|Hk].
  - by rewrite lookup_delete_eq, decide_False by lia.
  - rewrite lookup_delete_ne by done. rewrite Hd.
    repeat case_decide; try lia; [|done].
    by replace (Z.to_nat (k - Hash.start m)) with (S (Z.to_nat (k - (Hash.start m + 1)))) by lia.
Qed.

Lemma rep_lookup m l i v :
  Hash.rep m l -> Hash.data m !! i = Some v <->
  Hash.start m <= i /\ l !! Z.to_nat (i - Hash.start m) = Some v.
Proof.
  intros (H0 & Hn & Hmax & Hmin & Hd). rewrite Hd. case_decide; naive_solver.
Qed.

Lemma rep_get m l i :
  Hash.rep m l -> Hash.start m <= i ->
  Hash.get m i = Done (l !! Z.to_nat (i - Hash.start m)).
Proof.
  intros (H0 & Hn & Hmax & Hmin & Hd) Hi. unfold Hash.get. rewrite Hd, decide_True by lia.
  destruct ((i <? Hash.start m) || (Hash.next m <=? i)) eqn:E; [|done].
  apply orb_true_iff in E. rewrite (lookup_ge_None_2 l) by lia. done.
Qed.

Lemma rep_index m l i v :
  Hash.rep m l -> Hash.data m !! i = Some v -> Hash.index m i = Done v.
Proof.
  intros Hr Hi. pose proof Hi as Hi'. apply (rep_lookup m l) in Hi' as [Hs Hl]; [|done].
  unfold Hash.index. by rewrite (rep_get m l), Hl by done.
Qed.

Lemma rep_index_mut m l i v v' f :
  Hash.rep m l -> Hash.data m !! i = Some v -> f v = Done v' ->
  exists m', Hash.index_mut m i f = Done m' /\
    Hash.rep m' (<[Z.to_nat (i - Hash.start m) := v']> l) /\
    Hash.start m' = Hash.start m /\ Hash.next m' = Hash.next m.
Proof.
  intros Hr Hi Hf. pose proof Hi as Hi'. apply (rep_lookup m l) in Hi' as [Hs Hl]; [|done].
  unfold Hash.index_mut, Hash.get_mut. rewrite (rep_get m l), Hl by done. simpl.
  rewrite Hf. simpl. eexists; split_and!; [done| |done..].
  destruct Hr as (H0 & Hn & Hmax & Hmin & Hd). unfold Hash.rep; simpl.
  rewrite length_insert. split_and!; try lia.
  intros k. destruct (decide (k = i)) as [->|Hk].
  - rewrite lookup_insert_eq, decide_True by lia.
    rewrite list_lookup_insert_eq; [done|]. by apply lookup_lt_Some in Hl.
  - rewrite lookup_insert_ne by done. rewrite Hd. case_decide; [|done].
    by rewrite list_lookup_insert_ne by lia.
Qed.

(** The values of the map, whatever the iteration order, are the queued ones. *)
Lemma rep_values m l : Hash.rep m l -> (map_to_list (Hash.data m)).*2 ≡ₚ l.
Proof.
  revert m. induction l as [|v l IH]; intros m Hr.
  - pose proof (rep_is_empty m [] Hr) as He. unfold Hash.is_empty in He.
    apply bool_decide_eq_true in He as ->. by rewrite map_to_list_empty.
  - destruct (rep_pop_front m l v Hr) as (m' & Hpop & Hr' & _). unfold Hash.pop_front in Hpop.
    rewrite (rep_is_empty m _ Hr), bool_decide_eq_false_2 in Hpop by done.
    apply bind_done in Hpop as (s & _ & Hpop). injection Hpop as Hv <-.
    rewrite <- (IH _ Hr'). simpl.
    symmetry. apply (fmap_Permutation snd _ _ (map_to_list_delete _ _ _ Hv)).
Qed.

Lemma rep_size m l : Hash.rep m l -> size (Hash.data m) = length l.
Proof. intros Hr. rewrite <- (Permutation_length (rep_values m l Hr)), length_fmap. by rewrite length_map_to_list. Qed.

End Rep.

(** ** Preservation of well-formedness, and the refinement of the tree version *)

Section WF.
Context {V : Type}.
Implicit Types (m : Hash.VecDequeMap V) (v : V).

(** The calls the clients make: [u64] keys, and no [increment_start] (nothing calls it; what
    it does to the invariant is [hash_increment_start_breaks_get] below). *)
Definition op_ok (op : dq_op V) : Prop :=
  match op with DqInsert k _ | DqGet k => in_u64 k | DqIncr => False | _ => True end.

Lemma hash_wf_new : Hash.wf (Hash.new (V := V)).
Proof. unfold Hash.wf, Hash.new, u64_max; simpl. split_and!; try lia. intros k v. by rewrite lookup_empty. Qed.

Lemma hash_wf_get m k : Hash.wf m -> Hash.get m k = Done (Hash.data m !! k).
Proof.
  intros (_ & _ & _ & Hd). unfold Hash.get.
  destruct (Hash.data m !! k) as [v|] eqn:E; simpl.
  - apply Hd in E. destruct ((k <? Hash.start m) || (Hash.next m <=? k)) eqn:E'; [|done].
    apply orb_true_iff in E'. lia.
  - by destruct ((k <? Hash.start m) || (Hash.next m <=? k)).
Qed.

Lemma add64_dev a b r : add64 (H := dev) a b = Done r -> r = a + b /\ in_u64 (a + b).
Proof. apply norm64_dev. Qed.

(** Each call of the dev build keeps every stored index inside [start, next). *)
Lemma hash_wf_call m op r m' :
  Hash.wf m -> op_ok op -> hash_call (H := dev) op m = Done (r, m') -> Hash.wf m'.
Proof.
  intros Hwf Hk Hc. pose proof Hwf as (H0 & Hn & Hmin & Hd).
  destruct op as [v| |k v|k|]; simpl in Hc, Hk; unfold in_u64 in Hk;
    inv_done; simplify_eq/=.
  - unfold Hash.push_back in *. inv_done; simplify_eq/=.
    match goal with E : add64 _ _ = _ |- _ => apply add64_dev in E as [-> ?] end.
    unfold in_u64 in *. unfold Hash.wf; simpl. split_and!; try lia.
    intros k v' [[<- _]|[_ ?%Hd]]%lookup_insert_Some; lia.
  - unfold Hash.pop_front in *. destruct (Hash.is_empty m) eqn:Hne; inv_done; simplify_eq/=; [done|].
    match goal with E : add64 _ _ = _ |- _ => apply add64_dev in E as [-> ?] end.
    apply bool_decide_eq_false, map_choose in Hne as (k0 & v0 & ?%Hd).
    unfold in_u64 in *. unfold Hash.wf; simpl. split_and!; try lia.
    intros k v' [Hne ?%Hd]%lookup_delete_Some. lia.
  - unfold Hash.insert in *. destruct (k <? Hash.min m) eqn:Ek; inv_done; simplify_eq/=.
    destruct (Hash.next m <=? k) eqn:En; inv_done;
    try match goal with E : add64 _ _ = _ |- _ => apply add64_dev in E as [-> ?] end;
    unfold in_u64 in *; unfold Hash.wf; simpl;
    destruct (k <? Hash.start m) eqn:Es; (split_and!; try lia);
    intros k' v' [[<- _]|[_ ?%Hd]]%lookup_insert_Some; lia.
  - done.
  - done.
Qed.

Lemma hash_run_wf ops m rs m' :
  Hash.wf m -> Forall op_ok ops -> hash_run (H := dev) ops m = Done (rs, m') -> Hash.wf m'.
Proof.
  revert m rs. induction ops as [|op ops IH]; intros m rs Hwf Hops Hr; simpl in Hr.
  - inv_done. by simplify_eq/=.
  - inversion_clear Hops as [|? ? Hop Hops']. inv_done. simplify_eq/=.
    destruct x as [r m1], x0 as [rs' m2]; simpl in *.
    eapply IH; [|done|done]. by eapply hash_wf_call.
Qed.

(** in any sequence of the clients' calls on a fresh deque (dev build, [u64] keys) that
    does not abort, the stored indices stay in [start, next): the consistency assertion inside [get]
    never fires, so [get] returns exactly the stored value. *)
Theorem hash_deque_get_total ops rs m' k :
  Forall op_ok ops -> hash_run (H := dev) ops Hash.new = Done (rs, m') ->
  (forall v, Hash.data m' !! k = Some v -> Hash.start m' <= k < Hash.next m') /\
  Hash.get m' k = Done (Hash.data m' !! k).
Proof.
  intros Hops Hr. pose proof (hash_run_wf _ _ _ _ hash_wf_new Hops Hr) as Hwf.
  split; [intros v; apply Hwf|]. by apply hash_wf_get.
Qed.

Lemma tree_call_refines_hash `{Build} op m r m' :
  hash_call op m = Done (r, m') -> tree_call op (forget_min (V := V) m) = Done (r, forget_min m').
Proof.
  destruct op as [v| |k v|k|]; simpl;
    unfold Hash.push_back, Tree.push_back, Hash.pop_front, Tree.pop_front, Hash.insert,
      Tree.insert, Hash.get, Tree.get, Hash.increment_start, Tree.increment_start,
      Hash.is_empty, Tree.is_empty, Hash.front, Tree.front, mbind, outcome_bind; simpl;
    intros Hc; repeat (case_match; simplify_eq/=); done.
Qed.

(** the [BTreeMap] version refines the [HashMap] version: for every sequence of calls on
    which the hash version does not abort, the tree version returns the same values and ends
    with the same contents. *)
Theorem tree_deque_refines_hash `{Build} ops m rs m' :
  hash_run ops m = Done (rs, m') -> tree_run ops (forget_min (V := V) m) = Done (rs, forget_min m').
Proof.
  revert m rs. induction ops as [|op ops IH]; intros m rs Hr; simpl in *; inv_done.
  { by simplify_eq/=. }
  repeat match goal with x : _ * _ |- _ => destruct x end. simplify_eq/=.
  erewrite tree_call_refines_hash by done. simpl. by erewrite IH.
Qed.

End WF.

(** The queue of the test [test_insert]: an insert at 2, one below it, a pop. *)
Lemma hash_deque_get_total_witness :
  let ops := [DqInsert 2 7; DqInsert 1 5; DqPop; DqPop; DqPush 9] in
  exists rs m', hash_run (H := dev) ops Hash.new = Done (rs, m') /\
    Hash.get m' 2 = Done (Some 7).
Proof.
  intros ops. eexists _, _. split; [vm_compute; reflexivity|].
  refine (eq_trans (proj2 (hash_deque_get_total ops _ _ 2 _ _)) _);
    [repeat constructor; unfold u64_max; lia | vm_compute; reflexivity | reflexivity].
Defined.

(** [increment_start] on an empty deque moves the front past the next index to push at, and
    the value pushed next lies below the front: reading it back then aborts. *)
Theorem hash_increment_start_breaks_get `{Build} :
  exists m1 m2, Hash.increment_start (Hash.new (V := Z)) = Done m1 /\
    Hash.push_back m1 7 = Done (0, m2) /\ Hash.get m2 0 = Panic.
Proof. destruct H as [[|]]; eexists _, _; repeat split; vm_compute; reflexivity. Qed.

Lemma tree_deque_refines_hash_witness :
  tree_run (H := release) [DqPush 3; DqInsert 4 1; DqPop; DqPop; DqGet 4] Tree.new =
  Done ([RIdx 0; RVal None; RVal (Some 3); RVal None; RVal (Some 1)],
        Tree.mkDeque {[4 := 1]} 2 5).
Proof.
  refine (tree_deque_refines_hash (H := release) _ Hash.new _ (Hash.mkDeque {[4 := 1]} 2 5 2) _).
  vm_compute. reflexivity.
Defined.
