(* ===== verification/Skeens.v ===== *)
(** * Per-chain ordering state: Skeens' algorithm ([fuzzy_log_server/src/skeens.rs])

    One [SkeensState] orders the multi-chain appends of one chain.  Phase 1 hands out a local
    timestamp and queues the append ([add_multi_append], [add_snapshot], [add_single_append]);
    phase 2 ([set_max_timestamp]) records the maximum of the timestamps all chains handed out,
    moves the finished prefix of the queue to a priority heap, and
    [flush_got_max_timestamp] delivers from the heap everything that no queued append can
    precede any more.  Replicas ([replicate_*]) queue by the primary's queue index and deliver
    in queue order.  This file translates the types and every operation; the theorems are in
    [SkeensInv], [SkeensOrder] and [SkeensReplica].

    [T] is the caller's token, [MS] stands for [SkeensMultiStorage] (an [Arc] handle) and [VE]
    for [ValEdge] (a storage pointer): the ordering code only stores and returns them. *)

From S2P Require Import Prelude DequeMap.
From stdpp Require Import base gmap list fin_maps.
From Stdlib Require Import ZArith Lia.

Open Scope Z_scope.

(** ** Data *)

Inductive AppendStatus :=
| AS_Phase1 (i : Z)
| AS_Phase2 (t : Z)
| AS_Singleton (i : Z).

Inductive SkeensAppendRes :=
| SAR_OldPhase1 (t : Z)
| SAR_Phase2 (t : Z)
| SAR_NewAppend (t : Z) (i : Z).

Inductive SkeensSetMaxRes :=
| SMR_NeedsFlush
| SMR_Ok
| SMR_Duplicate (t : Z)
| SMR_NotWaiting.

Inductive Timestamp :=
| TS_Phase1 (t : Z)
| TS_Phase2 (t : Z).

Section Types.
Context {U T MS VE : Type}.

(** [enum WaitingForMax<T>]: an entry of the phase-1 queue. *)
Inductive WaitingForMax :=
| W_GotMaxMulti (timestamp node_num : Z) (storage : MS) (t : T) (id : U)
| W_GotMaxSenti (timestamp node_num : Z) (storage : MS) (t : T) (id : U)
| W_GotMaxSnap (timestamp node_num : Z) (storage : MS) (t : T) (id : U)
| W_SimpleSingle (timestamp node_num : Z) (storage : VE) (t : T) (id : U)
| W_Single (timestamp node_num : Z) (storage : VE) (t : T) (id : U)
| W_Multi (timestamp node_num : Z) (storage : MS) (t : T) (id : U)
| W_Senti (timestamp node_num : Z) (storage : MS) (t : T) (id : U)
| W_Snap (timestamp node_num : Z) (storage : MS) (t : T) (id : U)
| W_ReplicatedMulti (max_timestamp index : Z) (storage : MS) (t : T) (id : U)
| W_ReplicatedSenti (max_timestamp index : Z) (storage : MS) (t : T) (id : U)
| W_ReplicatedSnap (max_timestamp index : Z) (storage : MS) (t : T) (id : U)
| W_ReplicatedSingle (max_timestamp index : Z) (storage : VE) (t : T) (id : U).

(** [enum GotMax<T>]: an entry of the heap, with its final timestamp. *)
Inductive GotMax :=
| G_Multi (timestamp : Z) (storage : MS) (t : T) (id : U)
| G_Senti (timestamp : Z) (storage : MS) (t : T) (id : U)
| G_Snap (timestamp : Z) (storage : MS) (t : T) (id : U)
| G_SimpleSingle (timestamp : Z) (storage : VE) (t : T) (id : U)
| G_Single (timestamp node_num : Z) (storage : VE) (t : T) (id : U).

(** [enum ReplicatedSkeens<T>]: what a replica delivers. *)
Inductive ReplicatedSkeens :=
| RS_Multi (index : Z) (storage : MS) (max_timestamp : Z) (t : T)
| RS_Senti (index : Z) (storage : MS) (max_timestamp : Z) (t : T)
| RS_Snap (index : Z) (storage : MS) (max_timestamp : Z) (t : T)
| RS_Single (index : Z) (storage : VE) (max_timestamp : Z) (t : T).

End Types.
Arguments WaitingForMax : clear implicits.
Arguments GotMax : clear implicits.
Arguments ReplicatedSkeens : clear implicits.

Record SkeensState (U T MS VE : Type) `{UuidOps U} := mkSkeens {
  next_timestamp : Z;
  last_flush : Z;
  phase1_queue : Hash.VecDequeMap (WaitingForMax U T MS VE);
  got_max_timestamp : list (GotMax U T MS VE);
  append_status : gmap U AppendStatus;
  recovering : gmap U (Z * (U * list OrderIndex));
}.
Arguments mkSkeens {U T MS VE _} _ _ _ _ _ _.
Arguments next_timestamp {U T MS VE _} _.
Arguments last_flush {U T MS VE _} _.
Arguments phase1_queue {U T MS VE _} _.
Arguments got_max_timestamp {U T MS VE _} _.
Arguments append_status {U T MS VE _} _.
Arguments recovering {U T MS VE _} _.

Section Ops.
Context `{Build} {U T MS VE : Type} `{UuidOps U}.

Abbreviation Waiting := (WaitingForMax U T MS VE).
Abbreviation Got := (GotMax U T MS VE).
Abbreviation Replicated := (ReplicatedSkeens T MS VE).
Abbreviation State := (SkeensState U T MS VE).
Implicit Types (st : State) (w : Waiting) (g : Got).

(** Field updates. *)
Definition set_next n st : State :=
  mkSkeens n (last_flush st) (phase1_queue st) (got_max_timestamp st) (append_status st) (recovering st).
Definition set_queue q st : State :=
  mkSkeens (next_timestamp st) (last_flush st) q (got_max_timestamp st) (append_status st) (recovering st).
Definition set_heap h st : State :=
  mkSkeens (next_timestamp st) (last_flush st) (phase1_queue st) h (append_status st) (recovering st).
Definition set_status a st : State :=
  mkSkeens (next_timestamp st) (last_flush st) (phase1_queue st) (got_max_timestamp st) a (recovering st).
Definition set_last l st : State :=
  mkSkeens (next_timestamp st) l (phase1_queue st) (got_max_timestamp st) (append_status st) (recovering st).
Definition set_recovering r st : State :=
  mkSkeens (next_timestamp st) (last_flush st) (phase1_queue st) (got_max_timestamp st) (append_status st) r.

(** ** [impl WaitingForMax] *)

(** [set_max_timestamp]: [inl t] is [Err(t)], [inr w'] overwrites the entry and returns [Ok]. *)
Definition w_set_max_timestamp (w : Waiting) (max_timestamp : Z) : outcome (Z + Waiting) :=
  match w with
  | W_GotMaxMulti ts _ _ _ _ | W_GotMaxSenti ts _ _ _ _ | W_GotMaxSnap ts _ _ _ _
  | W_SimpleSingle ts _ _ _ _ => Done (inl ts)
  | W_ReplicatedMulti mts _ _ _ _ | W_ReplicatedSenti mts _ _ _ _ | W_ReplicatedSnap mts _ _ _ _
  | W_ReplicatedSingle mts _ _ _ _ => Done (inl mts)
  | W_Single ts _ _ _ _ => Done (inl ts)
  | W_Multi ts n s t id =>
      _ ← debug_assert (ts <=? max_timestamp); Done (inr (W_GotMaxMulti max_timestamp n s t id))
  | W_Senti ts n s t id =>
      _ ← debug_assert (ts <=? max_timestamp); Done (inr (W_GotMaxSenti max_timestamp n s t id))
  | W_Snap ts n s t id =>
      _ ← debug_assert (ts <=? max_timestamp); Done (inr (W_GotMaxSnap max_timestamp n s t id))
  end.

Definition into_got_max (w : Waiting) : outcome Got :=
  match w with
  | W_SimpleSingle ts _ s t id => Done (G_SimpleSingle ts s t id)
  | W_Single ts n s t id => Done (G_Single ts n s t id)
  | W_GotMaxMulti ts _ s t id => Done (G_Multi ts s t id)
  | W_GotMaxSenti ts _ s t id => Done (G_Senti ts s t id)
  | W_GotMaxSnap ts _ s t id => Done (G_Snap ts s t id)
  | _ => Panic
  end.

Definition has_max (w : Waiting) : bool :=
  match w with
  | W_Multi _ _ _ _ _ | W_Senti _ _ _ _ _ | W_Snap _ _ _ _ _ => false
  | _ => true
  end.

Definition w_replicate_max_timestamp (w : Waiting) (max_timestamp index : Z) (rid : U)
    : outcome Waiting :=
  match w with
  | W_GotMaxMulti _ _ _ _ _ | W_GotMaxSenti _ _ _ _ _ | W_GotMaxSnap _ _ _ _ _
  | W_ReplicatedMulti _ _ _ _ _ | W_ReplicatedSenti _ _ _ _ _ | W_ReplicatedSnap _ _ _ _ _
  | W_ReplicatedSingle _ _ _ _ _ => Panic
  | W_Single ts _ s t id | W_SimpleSingle ts _ s t id =>
      _ ← debug_assert (bool_decide (id = rid));
      _ ← assert_ (max_timestamp =? ts);
      Done (W_ReplicatedSingle ts index s t id)
  | W_Multi ts _ s t id =>
      _ ← assert_ (ts <=? max_timestamp);
      _ ← debug_assert (bool_decide (id = rid));
      Done (W_ReplicatedMulti max_timestamp index s t id)
  | W_Senti ts _ s t id =>
      _ ← assert_ (ts <=? max_timestamp);
      _ ← debug_assert (bool_decide (id = rid));
      Done (W_ReplicatedSenti max_timestamp index s t id)
  | W_Snap ts _ s t id =>
      _ ← assert_ (ts <=? max_timestamp);
      _ ← debug_assert (bool_decide (id = rid));
      Done (W_ReplicatedSnap max_timestamp index s t id)
  end.

Definition has_replication (w : Waiting) : bool :=
  match w with
  | W_ReplicatedMulti _ _ _ _ _ | W_ReplicatedSenti _ _ _ _ _ | W_ReplicatedSingle _ _ _ _ _
  | W_ReplicatedSnap _ _ _ _ _ => true
  | _ => false
  end.

Definition to_replica (w : Waiting) : outcome (U * Replicated) :=
  match w with
  | W_ReplicatedSingle mts i s t id => Done (id, RS_Single i s mts t)
  | W_ReplicatedMulti mts i s t id => Done (id, RS_Multi i s mts t)
  | W_ReplicatedSenti mts i s t id => Done (id, RS_Senti i s mts t)
  | W_ReplicatedSnap mts i s t id => Done (id, RS_Snap i s mts t)
  | _ => Panic
  end.

Definition multi_timestamp (w : Waiting) : Timestamp :=
  match w with
  | W_Multi ts _ _ _ _ | W_Senti ts _ _ _ _ | W_Snap ts _ _ _ _ => TS_Phase1 ts
  | W_Single ts _ _ _ _ => TS_Phase2 ts
  | W_GotMaxMulti ts _ _ _ _ | W_GotMaxSenti ts _ _ _ _ | W_GotMaxSnap ts _ _ _ _
  | W_SimpleSingle ts _ _ _ _ => TS_Phase2 ts
  | W_ReplicatedMulti mts _ _ _ _ | W_ReplicatedSenti mts _ _ _ _ | W_ReplicatedSnap mts _ _ _ _
  | W_ReplicatedSingle mts _ _ _ _ => TS_Phase2 mts
  end.

Definition w_get_id (w : Waiting) : U :=
  match w with
  | W_Multi _ _ _ _ id | W_Senti _ _ _ _ id | W_Snap _ _ _ _ id | W_Single _ _ _ _ id
  | W_GotMaxMulti _ _ _ _ id | W_GotMaxSenti _ _ _ _ id | W_GotMaxSnap _ _ _ _ id
  | W_SimpleSingle _ _ _ _ id
  | W_ReplicatedMulti _ _ _ _ id | W_ReplicatedSenti _ _ _ _ id | W_ReplicatedSnap _ _ _ _ id
  | W_ReplicatedSingle _ _ _ _ id => id
  end.

(** ** [impl GotMax] *)

Definition g_timestamp (g : Got) : Z :=
  match g with
  | G_Multi ts _ _ _ | G_Senti ts _ _ _ | G_Snap ts _ _ _ => ts
  | G_SimpleSingle ts _ _ _ => ts
  | G_Single ts _ _ _ _ => ts
  end.

Definition is_multi (g : Got) : bool :=
  match g with
  | G_Multi _ _ _ _ | G_Senti _ _ _ _ | G_Snap _ _ _ _ => true
  | G_Single _ _ _ _ _ | G_SimpleSingle _ _ _ _ => false
  end.

Definition g_get_id (g : Got) : U :=
  match g with
  | G_Multi _ _ _ id | G_Senti _ _ _ id | G_Snap _ _ _ id
  | G_Single _ _ _ _ id | G_SimpleSingle _ _ _ id => id
  end.

(** [happens_before]: may the heap entry [g] be delivered ahead of the queued entry [w]? *)
Definition happens_before (g : Got) (w : Waiting) : outcome bool :=
  let by_timestamp :=
    Done (match multi_timestamp w with
          | TS_Phase1 other_ts | TS_Phase2 other_ts => g_timestamp g <=? other_ts
          end) in
  match g, w with
  | (G_Multi my_ts _ _ my_id | G_Senti my_ts _ _ my_id | G_Snap my_ts _ _ my_id),
    (W_Multi other_ts _ _ _ other_id | W_Senti other_ts _ _ _ other_id
     | W_Snap other_ts _ _ _ other_id) =>
      Done ((my_ts <? other_ts)
            || ((my_ts =? other_ts) && bool_decide (uuid_cmp my_id other_id = Lt)))
  | _, (W_SimpleSingle _ _ _ _ _ | W_Single _ _ _ _ _) => by_timestamp
  | (G_SimpleSingle _ _ _ _ | G_Single _ _ _ _ _), _ => by_timestamp
  | _, (W_GotMaxMulti _ _ _ _ _ | W_GotMaxSenti _ _ _ _ _ | W_GotMaxSnap _ _ _ _ _) => Panic
  | _, (W_ReplicatedSingle _ _ _ _ _ | W_ReplicatedMulti _ _ _ _ _
        | W_ReplicatedSenti _ _ _ _ _ | W_ReplicatedSnap _ _ _ _ _) => Panic
  end.

(** [o.reverse()] on the comparison of two timestamps, with [tie] for equal ones. *)
Definition rev_or (my_ts other_ts : Z) (tie : comparison) : comparison :=
  match Z.compare my_ts other_ts with Eq => tie | o => CompOpp o end.

(** [impl Ord for GotMax]: the greater element is the one to deliver first. *)
Definition g_cmp (g1 g2 : Got) : outcome comparison :=
  match g1, g2 with
  | (G_Multi my_ts _ _ my_id | G_Senti my_ts _ _ my_id | G_Snap my_ts _ _ my_id),
    (G_Multi other_ts _ _ other_id | G_Senti other_ts _ _ other_id
     | G_Snap other_ts _ _ other_id) =>
      Done (rev_or my_ts other_ts (CompOpp (uuid_cmp my_id other_id)))
  | (G_Multi my_ts _ _ _ | G_Senti my_ts _ _ _ | G_Snap my_ts _ _ _),
    G_SimpleSingle other_ts _ _ _ => Done (rev_or my_ts other_ts Gt)
  | G_SimpleSingle my_ts _ _ my_id, G_SimpleSingle other_ts _ _ other_id =>
      match Z.compare my_ts other_ts with
      | Eq => match CompOpp (uuid_cmp my_id other_id) with Eq => Panic | c => Done c end
      | o => Done (CompOpp o)
      end
  | G_SimpleSingle my_ts _ _ _,
    (G_Multi other_ts _ _ _ | G_Senti other_ts _ _ _ | G_Snap other_ts _ _ _) =>
      Done (rev_or my_ts other_ts Lt)
  | (G_Multi my_ts _ _ _ | G_Senti my_ts _ _ _ | G_Snap my_ts _ _ _),
    G_Single other_ts _ _ _ _ => Done (rev_or my_ts other_ts Gt)
  | G_Single my_ts _ _ _ _,
    (G_Multi other_ts _ _ _ | G_Senti other_ts _ _ _ | G_Snap other_ts _ _ _) =>
      Done (rev_or my_ts other_ts Lt)
  | G_Single my_ts my_num _ _ _, G_Single other_ts other_num _ _ _ =>
      Done (rev_or my_ts other_ts (CompOpp (Z.compare my_num other_num)))
  | G_SimpleSingle _ _ _ _, G_Single _ _ _ _ _ => Panic
  | G_Single _ _ _ _ _, G_SimpleSingle _ _ _ _ => Panic
  end.

(** ** [BinaryHeap<GotMax<T>>] of the standard library, as the list of its elements in the
    order [pop] returns them (greatest first); [push] compares with [Ord::cmp]. *)

Fixpoint heap_push (x : Got) (h : list Got) : outcome (list Got) :=
  match h with
  | [] => Done [x]
  | y :: h' =>
      c ← g_cmp x y;
      match c with
      | Gt => Done (x :: h)
      | _ => r ← heap_push x h'; Done (y :: r)
      end
  end.

(** ** [impl SkeensState] *)

Definition new : State := mkSkeens 1 0 Hash.new [] ∅ ∅.

(** The [debug_assert!] block most operations start with. *)
Definition check_empty st : outcome unit :=
  debug_assert (implb (Hash.is_empty (phase1_queue st)) (bool_decide (got_max_timestamp st = []))).

(** The answer to an append whose id is already known (the [Occupied] arm of the three
    append operations). *)
Definition known_append st (status : AppendStatus) : outcome SkeensAppendRes :=
  match status with
  | AS_Phase2 t => Done (SAR_Phase2 t)
  | AS_Phase1 i | AS_Singleton i =>
      w ← Hash.index (phase1_queue st) i;
      Done (match multi_timestamp w with
            | TS_Phase1 t => SAR_OldPhase1 t
            | TS_Phase2 t => SAR_Phase2 t
            end)
  end.

(** [if self.next_timestamp <= timestamp { self.next_timestamp = timestamp + 1 }] *)
Definition bump st (timestamp : Z) : outcome State :=
  if next_timestamp st <=? timestamp
  then n ← add64 timestamp 1; Done (set_next n st) else Done st.

(** The [Vacant] arm of the append operations: take the next timestamp, queue the entry built
    by [mk] from its timestamp and queue index, and remember its status. *)
Definition queue_append st (id : U) (mk : Z -> Z -> Waiting) (status : Z -> AppendStatus)
    : outcome (SkeensAppendRes * State) :=
  let timestamp := next_timestamp st in
  n ← add64 (next_timestamp st) 1;
  let node_num := Hash.push_index (phase1_queue st) in
  r ← Hash.push_back (phase1_queue st) (mk timestamp node_num);
  _ ← assert_ (node_num =? r.1);
  Done (SAR_NewAppend timestamp node_num,
        set_status (<[id := status node_num]> (append_status st))
          (set_queue r.2 (set_next n st))).

Definition add_single_append st (id : U) (timestamp : Z) (storage : VE) (t : T)
    : outcome (SkeensAppendRes * State) :=
  _ ← check_empty st;
  _ ← assert_ (negb (Hash.is_empty (phase1_queue st)));
  st ← bump st timestamp;
  match append_status st !! id with
  | Some status => r ← known_append st status; Done (r, st)
  | None =>
      queue_append st id (fun ts n => W_SimpleSingle ts n storage t id) AS_Singleton
  end.

Definition is_empty st : bool :=
  Hash.is_empty (phase1_queue st) && bool_decide (got_max_timestamp st = []).

Definition need_single_at st (timestamp : Z) : outcome (bool * State) :=
  _ ← assert_ (last_flush st <? next_timestamp st);
  if is_empty st || (timestamp <=? last_flush st)
  then st ← bump st timestamp; Done (false, st)
  else Done (true, st).

Definition add_multi_append st (id : U) (storage : MS) (sentinel : bool) (t : T)
    : outcome (SkeensAppendRes * State) :=
  _ ← check_empty st;
  r ← match append_status st !! id with
      | Some status => r ← known_append st status; Done (r, st)
      | None =>
          queue_append st id
            (fun ts n => if sentinel then W_Senti ts n storage t id else W_Multi ts n storage t id)
            AS_Phase1
      end;
  _ ← check_empty r.2;
  Done r.

Definition add_snapshot st (id : U) (storage : MS) (t : T) : outcome (SkeensAppendRes * State) :=
  _ ← check_empty st;
  r ← match append_status st !! id with
      | Some status => r ← known_append st status; Done (r, st)
      | None => queue_append st id (fun ts n => W_Snap ts n storage t id) AS_Phase1
      end;
  _ ← check_empty r.2;
  Done r.

Definition can_flush st : outcome bool :=
  match got_max_timestamp st with
  | [] => Done false
  | g :: _ =>
      match Hash.front (phase1_queue st) with
      | None => Done true
      | Some v => happens_before g v
      end
  end.

(** The [while] loop of [set_max_timestamp]: move the finished prefix of the queue to the heap.
    Every iteration removes the front of the queue, so the number of queued entries bounds the
    iterations; running out of [fuel] is [Panic], which [promote_spec] excludes. *)
Fixpoint promote (fuel : nat) st : outcome State :=
  match Hash.front (phase1_queue st) with
  | Some w =>
      if has_max w then
        match fuel with
        | O => Panic
        | S fuel =>
            r ← Hash.pop_front (phase1_queue st);
            s ← unwrap r.1;
            g ← into_got_max s;
            h ← heap_push g (got_max_timestamp st);
            promote fuel (set_heap h (set_queue r.2 st))
        end
      else Done st
  | None => Done st
  end.

Definition promote_all st : outcome State := promote (size (Hash.data (phase1_queue st))) st.

Definition set_max_timestamp st (sk2_id : U) (max_timestamp : Z)
    : outcome (SkeensSetMaxRes * State) :=
  _ ← check_empty st;
  st ← bump st max_timestamp;
  r ← match append_status st !! sk2_id with
      | None => Done (SMR_NotWaiting, st)
      | Some (AS_Phase2 timestamp) => Done (SMR_Duplicate timestamp, st)
      | Some (AS_Singleton i) =>
          w ← Hash.index (phase1_queue st) i;
          match multi_timestamp w with
          | TS_Phase1 t | TS_Phase2 t => Done (SMR_Duplicate t, st)
          end
      | Some (AS_Phase1 i) =>
          w ← Hash.index (phase1_queue st) i;
          set_max ← w_set_max_timestamp w max_timestamp;
          match set_max with
          | inl ts => Done (SMR_Duplicate ts, st)
          | inr w' =>
              q ← Hash.index_mut (phase1_queue st) i (fun _ => Done w');
              Done (SMR_Ok,
                    set_status (<[sk2_id := AS_Phase2 max_timestamp]> (append_status st))
                      (set_queue q st))
          end
      end;
  match r.1 with
  | SMR_Ok =>
      st ← promote_all r.2;
      c ← can_flush st;
      Done (if (c : bool) then SMR_NeedsFlush else SMR_Ok, st)
  | _ => _ ← check_empty r.2; Done r
  end.

(** [flush_got_max_timestamp]: the elements handed to the callback, in order, and the state
    after the loop.  Each iteration pops the heap, so the loop is a recursion on it. *)
Fixpoint flush_loop (h : list Got) st : outcome (list Got * State) :=
  match h with
  | [] => Done ([], st)
  | g :: h' =>
      c ← can_flush st;
      if (c : bool) then
        let id := g_get_id g in
        let _old := append_status st !! id in
        let st := set_heap h' st in
        let st := set_status (delete id (append_status st)) st in
        let st := set_last (Z.max (g_timestamp g) (last_flush st)) st in
        _ ← debug_assert (bool_decide (is_Some _old));
        r ← flush_loop h' st;
        Done (g :: r.1, r.2)
      else Done ([], st)
  end.

Definition flush_got_max_timestamp st : outcome (list Got * State) :=
  flush_loop (got_max_timestamp st) st.

(** ** Replica side *)

Definition replicate_append_round1 st (timestamp node_num : Z) (id : U) (w : Waiting)
    (status : AppendStatus) : outcome (bool * State) :=
  _ ← assert_ (Hash.start_index (phase1_queue st) <=? node_num);
  st ← bump st timestamp;
  match append_status st !! id with
  | Some _ => Done (false, st)
  | None =>
      r ← Hash.insert (phase1_queue st) node_num w;
      _ ← assert_ (bool_decide (r.1 = None));
      Done (true, set_queue r.2 (set_status (<[id := status]> (append_status st)) st))
  end.

Definition replicate_single_append_round1 st (timestamp node_num : Z) (id : U) (storage : VE) (t : T)
    : outcome (bool * State) :=
  _ ← check_empty st;
  replicate_append_round1 st timestamp node_num id
    (W_SimpleSingle timestamp node_num storage t id) (AS_Singleton node_num).

Definition replicate_multi_append_round1 st (timestamp node_num : Z) (id : U) (storage : MS)
    (sentinel : bool) (t : T) : outcome (bool * State) :=
  _ ← check_empty st;
  replicate_append_round1 st timestamp node_num id
    (if sentinel then W_Senti timestamp node_num storage t id
     else W_Multi timestamp node_num storage t id) (AS_Phase1 node_num).

Definition replicate_snapshot_round1 st (timestamp node_num : Z) (id : U) (storage : MS) (t : T)
    : outcome (bool * State) :=
  replicate_append_round1 st timestamp node_num id
    (W_Snap timestamp node_num storage t id) (AS_Phase1 node_num).

(** The flushing loop of [replicate_round2]; as for [promote], every iteration removes an
    entry of the queue. *)
Fixpoint replica_flush (fuel : nat) st : outcome (list Replicated * State) :=
  match Hash.front (phase1_queue st) with
  | Some w =>
      if has_replication w then
        match fuel with
        | O => Panic
        | S fuel =>
            r ← Hash.pop_front (phase1_queue st);
            replica ← unwrap r.1;
            ir ← to_replica replica;
            let _old := append_status st !! ir.1 in
            _ ← debug_assert (bool_decide (is_Some _old));
            out ← replica_flush fuel
                    (set_status (delete ir.1 (append_status st)) (set_queue r.2 st));
            Done (ir.2 :: out.1, out.2)
        end
      else Done ([], st)
  | None => Done ([], st)
  end.

Definition replicate_round2 st (id : U) (max_timestamp index : Z)
    : outcome (list Replicated * State) :=
  match append_status st !! id with
  | Some (AS_Phase1 offset) | Some (AS_Singleton offset) =>
      st ← bump st max_timestamp;
      r ← Hash.get_mut (phase1_queue st) offset
            (fun w => w_replicate_max_timestamp w max_timestamp index id);
      let st := set_queue r.2 st in
      if negb (offset =? Hash.start_index (phase1_queue st)) then Done ([], st)
      else replica_flush (size (Hash.data (phase1_queue st))) st
  | _ => Done ([], st)
  end.

(** ** Recovery of appends whose client failed *)

(** [tas_recoverer]: [inl] is [Err], [inr] is [Ok]. *)
Definition tas_recoverer st (write_id : U) (recoverer : U * list OrderIndex)
    (old_recoverer : option U) : outcome ((option U + Z) * State) :=
  match recovering st !! write_id, old_recoverer with
  | None, Some _ => Done (inl None, st)
  | None, None =>
      Done (inr 1, set_recovering (<[write_id := (1, recoverer)]> (recovering st)) st)
  | Some (n, (cur, locs)), Some old =>
      if bool_decide (cur = old) then
        n' ← add64 n 1;
        Done (inr n', set_recovering (<[write_id := (n', recoverer)]> (recovering st)) st)
      else Done (inl (Some cur), st)
  | Some (n, (cur, locs)), None => Done (inl (Some cur), st)
  end.

Definition replicate_recoverer st (write_id : U) (recoverer : U * list OrderIndex)
    (recoverer_index : Z) : ((option U + unit) * State)%type :=
  let upd := set_recovering (<[write_id := (recoverer_index, recoverer)]> (recovering st)) st in
  match recovering st !! write_id with
  | None => (inr tt, upd)
  | Some (n, (cur, locs)) =>
      if n <? recoverer_index then (inr tt, upd) else (inl (Some cur), st)
  end.

Definition check_skeens1 st (write_id : U) (timestamp : Z) : outcome bool :=
  match append_status st !! write_id with
  | Some (AS_Phase1 i) =>
      w ← Hash.index (phase1_queue st) i;
      Done (match multi_timestamp w with TS_Phase1 t => t =? timestamp | _ => false end)
  | _ => Done false
  end.

End Ops.
