(* ===== verification/SkeensInv.v ===== *)
(** * The invariant of the primary's Skeens state

    [before] is the delivery order of heap entries (by final timestamp, multi-appends first,
    then by id); [Inv] ties the queue, the heap, the status map and the history of deliveries
    together; each operation of [Skeens] is shown to return (no assertion, [unwrap] or
    [unreachable!] fires) and to preserve it. *)

From S2P Require Import Prelude DequeMap Skeens.
From stdpp Require Import base gmap list fin_maps sorting.
From Stdlib Require Import ZArith Lia.

Open Scope Z_scope.

Section Order.
Context {U T MS VE : Type} `{UuidLaws U}.

Abbreviation Waiting := (WaitingForMax U T MS VE).
Abbreviation Got := (GotMax U T MS VE).
Implicit Types (w : Waiting) (g : Got).

Definition uuid_lt (a b : U) : Prop := uuid_cmp a b = Lt.

#[export] Instance uuid_lt_dec a b : Decision (uuid_lt a b).
Proof. unfold uuid_lt. apply _. Defined.

Lemma uuid_lt_irrefl a : ~ uuid_lt a a.
Proof. unfold uuid_lt. by rewrite (proj2 (uuid_cmp_eq a a) eq_refl). Qed.

Lemma uuid_lt_trans a b c : uuid_lt a b -> uuid_lt b c -> uuid_lt a c.
Proof. apply uuid_cmp_trans. Qed.

Lemma uuid_lt_total a b : a <> b -> uuid_lt a b \/ uuid_lt b a.
Proof.
  unfold uuid_lt. intros Hne. rewrite (uuid_cmp_antisym a b).
  destruct (uuid_cmp a b) eqn:E; [|by left|by right].
  by apply uuid_cmp_eq in E.
Qed.

(** The entries a primary produces: everything but [GotMax::Single]. *)
Definition primary g : Prop := match g with G_Single _ _ _ _ _ => False | _ => True end.

(** Who goes first among entries with the same timestamp. *)
Definition tie g1 g2 : Prop :=
  match is_multi g1, is_multi g2 with
  | true, false => True
  | false, true => False
  | _, _ => uuid_lt (g_get_id g1) (g_get_id g2)
  end.

(** [g1] is delivered before [g2]. *)
Definition before g1 g2 : Prop :=
  g_timestamp g1 < g_timestamp g2 \/ (g_timestamp g1 = g_timestamp g2 /\ tie g1 g2).

Lemma before_irrefl g : ~ before g g.
Proof.
  unfold before, tie. intros [?|[_ Ht]]; [lia|].
  destruct (is_multi g); by apply uuid_lt_irrefl in Ht.
Qed.

Lemma before_trans g1 g2 g3 : before g1 g2 -> before g2 g3 -> before g1 g3.
Proof.
  unfold before, tie. intros [?|[? H12]] [?|[? H23]]; [left; lia..|].
  right. split; [lia|]. destruct (is_multi g1), (is_multi g2), (is_multi g3);
    try done; by eapply uuid_lt_trans.
Qed.

#[export] Instance before_transitive : Transitive before.
Proof. intros ???. apply before_trans. Qed.

Lemma before_asym g1 g2 : before g1 g2 -> before g2 g1 -> False.
Proof. intros H12 H21. eapply before_irrefl, before_trans; [apply H12|apply H21]. Qed.

Lemma before_total g1 g2 :
  g_get_id g1 <> g_get_id g2 -> before g1 g2 \/ before g2 g1.
Proof.
  intros Hid. unfold before, tie.
  destruct (Z.lt_trichotomy (g_timestamp g1) (g_timestamp g2)) as [?|[E|?]]; [by left;left| |by right;left].
  destruct (uuid_lt_total _ _ Hid), (is_multi g1), (is_multi g2); auto 6.
Qed.

(** [Ord::cmp] decides [before] on the entries of a primary. *)
Lemma rev_or_Gt a b c : rev_or a b c = Gt <-> a < b \/ (a = b /\ c = Gt).
Proof.
  unfold rev_or. destruct (Z.compare_spec a b); simpl; split; intros; simplify_eq/=; try lia;
  try (by auto); destruct_or?; destruct_and?; done || lia.
Qed.

Lemma compopp_gt a b : CompOpp (uuid_cmp a b) = Gt <-> uuid_lt a b.
Proof. unfold uuid_lt. destruct (uuid_cmp a b); simpl; naive_solver. Qed.

Lemma g_cmp_Gt g1 g2 :
  primary g1 -> primary g2 -> (g_cmp g1 g2 = Done Gt <-> before g1 g2).
Proof.
  intros H1 H2. unfold before, tie.
  destruct g1 as [| | |ts1 s1 t1 id1|], g2 as [| | |ts2 s2 t2 id2|]; try done; simpl; rewrite <- ?compopp_gt.
  all: try (split; [intros [= Hr]; revert Hr; rewrite rev_or_Gt; naive_solver
                   |intros Hr; f_equal; apply rev_or_Gt; naive_solver]).
  destruct (Z.compare_spec ts1 ts2); simpl; [|naive_solver lia|].
  - subst. destruct (uuid_cmp id1 id2); simpl; naive_solver lia.
  - split; [done|]. intros [?|[? _]]; lia.
Qed.

Lemma g_cmp_done g1 g2 :
  primary g1 -> primary g2 -> g_get_id g1 <> g_get_id g2 -> exists c, g_cmp g1 g2 = Done c.
Proof.
  intros H1 H2 Hid. destruct g1, g2; try done; simpl in *; try by eexists.
  destruct (Z.compare _ _); try by eexists.
  destruct (uuid_cmp id id0) eqn:E; simpl; try by eexists.
  apply uuid_cmp_eq in E. done.
Qed.

(** ** The heap: pushing keeps it sorted and never panics on distinct ids *)

Lemma heap_push_spec g h :
  primary g -> Forall primary h -> g_get_id g ∉ (g_get_id <$> h) -> StronglySorted before h ->
  exists h', heap_push g h = Done h' /\ h' ≡ₚ g :: h /\ StronglySorted before h'.
Proof.
  intros Hg Hh Hid Hs. induction Hs as [|y h Hs IH Hy]; simpl.
  { exists [g]. split_and!; [done|done|by repeat constructor]. }
  apply Forall_cons in Hh as [Hpy Hh]. rewrite fmap_cons, not_elem_of_cons in Hid.
  destruct Hid as [Hne Hid].
  destruct (g_cmp_done g y Hg Hpy Hne) as [c Hc]. rewrite Hc; simpl.
  destruct (decide (c = Gt)) as [->|Hngt].
  - exists (g :: y :: h). split_and!; [done|done|].
    apply g_cmp_Gt in Hc; [|done..]. constructor; [by constructor|].
    constructor; [done|]. eapply Forall_impl; [done|]. intros z. by apply before_trans.
  - assert (Hyg : before y g).
    { destruct (before_total g y Hne) as [Hb|]; [|done].
      apply g_cmp_Gt in Hb; [|done..]. rewrite Hc in Hb. by injection Hb. }
    destruct (IH Hh Hid) as (h' & Hp & Hperm & Hs').
    exists (y :: h'). rewrite Hp; simpl. split_and!.
    + by destruct c.
    + rewrite Hperm. apply Permutation_swap.
    + constructor; [done|]. rewrite Hperm. by constructor.
Qed.

End Order.

(** ** The invariant *)

Section Invariant.
Context `{Build} {U T MS VE : Type} `{UuidLaws U}.

Abbreviation Waiting := (WaitingForMax U T MS VE).
Abbreviation Got := (GotMax U T MS VE).
Abbreviation State := (SkeensState U T MS VE).
Implicit Types (st : State) (w : Waiting) (g d : Got) (qs : list (Z * Waiting))
  (hist : list Got) (calls : list (U * Z)).

(** The timestamp of a queued entry, whatever its phase. *)
Definition w_ts w : Z := match multi_timestamp w with TS_Phase1 t | TS_Phase2 t => t end.

Definition is_single_w w : bool :=
  match w with W_SimpleSingle _ _ _ _ _ => true | _ => false end.

(** An entry at queue index [n] that was given the phase-1 timestamp [p]; [calls] are the
    final timestamps the clients sent. *)
Definition entry_ok (calls : list (U * Z)) (n p : Z) w : Prop :=
  match w with
  | W_Multi ts nn _ _ _ | W_Senti ts nn _ _ _ | W_Snap ts nn _ _ _
  | W_SimpleSingle ts nn _ _ _ => ts = p /\ nn = n
  | W_GotMaxMulti ts nn _ _ id | W_GotMaxSenti ts nn _ _ id | W_GotMaxSnap ts nn _ _ id =>
      p <= ts /\ nn = n /\ (id, ts) ∈ calls
  | _ => False
  end.

Definition status_of (n : Z) w : AppendStatus :=
  match w with
  | W_Multi _ _ _ _ _ | W_Senti _ _ _ _ _ | W_Snap _ _ _ _ _ => AS_Phase1 n
  | W_SimpleSingle _ _ _ _ _ => AS_Singleton n
  | _ => AS_Phase2 (w_ts w)
  end.

Definition heap_status_ok g (s : AppendStatus) : Prop :=
  if is_multi g then s = AS_Phase2 (g_timestamp g) else exists i, s = AS_Singleton i.

(** [d] precedes whatever the entry [w], queued with phase-1 timestamp [p], becomes. *)
Definition before_w d p w : Prop :=
  g_timestamp d < p \/
  (g_timestamp d = p /\ is_multi d = true /\ is_single_w w = false /\
   uuid_lt (g_get_id d) (w_get_id w)).

(** Ids of the appends that are queued or in the heap. *)
Definition pending_ids st qs : list U :=
  (w_get_id <$> qs.*2) ++ (g_get_id <$> got_max_timestamp st).

Record Inv st qs hist calls : Prop := {
  inv_rep : Hash.rep (phase1_queue st) qs.*2;
  inv_sorted : StronglySorted Z.lt qs.*1;
  inv_entry : forall i p w, qs !! i = Some (p, w) ->
    entry_ok calls (Hash.start (phase1_queue st) + Z.of_nat i) p w;
  inv_next : 1 <= next_timestamp st <= u64_max;
  inv_last : 0 <= last_flush st < next_timestamp st;
  inv_below : forall p w, (p, w) ∈ qs -> 1 <= p /\ w_ts w < next_timestamp st;
  inv_heap_below : forall g, g ∈ got_max_timestamp st -> 1 <= g_timestamp g < next_timestamp st;
  inv_heap : StronglySorted before (got_max_timestamp st);
  inv_primary : Forall primary (got_max_timestamp st);
  inv_heap_call : forall g, g ∈ got_max_timestamp st -> is_multi g = true ->
    (g_get_id g, g_timestamp g) ∈ calls;
  inv_nodup : NoDup (pending_ids st qs);
  inv_status_q : forall i p w, qs !! i = Some (p, w) ->
    append_status st !! w_get_id w =
      Some (status_of (Hash.start (phase1_queue st) + Z.of_nat i) w);
  inv_status_h : forall g, g ∈ got_max_timestamp st ->
    exists s, append_status st !! g_get_id g = Some s /\ heap_status_ok g s;
  inv_status_dom : forall id s, append_status st !! id = Some s -> id ∈ pending_ids st qs;
  inv_single : forall g p w, g ∈ got_max_timestamp st -> is_multi g = false ->
    (p, w) ∈ qs -> g_timestamp g < p;
  inv_hist : StronglySorted before hist;
  inv_hist_last : forall d, d ∈ hist -> g_timestamp d <= last_flush st;
  inv_hist_call : forall d, d ∈ hist -> is_multi d = true -> (g_get_id d, g_timestamp d) ∈ calls;
  inv_hist_heap : forall d g, d ∈ hist -> g ∈ got_max_timestamp st -> before d g;
  inv_hist_queue : forall d p w, d ∈ hist -> (p, w) ∈ qs -> before_w d p w;
}.

(** The front of the queue still waits for its final timestamp. *)
Definition front_waits qs : Prop := forall p w, head qs = Some (p, w) -> has_max w = false.

(** Between two calls nothing that could be delivered is left in the heap. *)
Definition quiescent st qs : Prop := front_waits qs /\ can_flush st = Done false.

(** There is room for one more timestamp and one more queue index. *)
Definition room st : Prop :=
  next_timestamp st < u64_max /\ Hash.next (phase1_queue st) < u64_max.

Lemma inv_new : Inv new [] [] [].
Proof.
  constructor; simpl; unfold pending_ids, u64_max; simpl;
    try lia; try apply rep_new; try (by constructor); intros; simplify_map_eq; set_solver.
Qed.

Lemma quiescent_new : quiescent new [].
Proof. split; [by intros ??|done]. Qed.

Lemma inv_set_next st qs hist calls n :
  Inv st qs hist calls -> next_timestamp st <= n <= u64_max -> Inv (set_next n st) qs hist calls.
Proof.
  intros HI Hn. destruct HI. constructor; simpl; try done; try lia.
  - intros p w Hw. destruct (inv_below0 p w Hw). lia.
  - intros g Hg. specialize (inv_heap_below0 g Hg). lia.
Qed.

Lemma bump_spec st qs hist calls ts :
  Inv st qs hist calls -> ts < u64_max ->
  exists n, bump st ts = Done (set_next n st) /\ Inv (set_next n st) qs hist calls /\
    ts < n /\ next_timestamp st <= n /\ n <= Z.max (next_timestamp st) (ts + 1).
Proof.
  intros HI Hts. pose proof (inv_next _ _ _ _ HI). unfold bump. case_match eqn:E.
  - rewrite add64_ok by (unfold in_u64; lia). exists (ts + 1). simpl.
    split_and!; try done; try lia. apply inv_set_next; [done|lia].
  - exists (next_timestamp st). split_and!; try lia.
    + by destruct st.
    + by apply inv_set_next; [|lia].
Qed.

Lemma before_w_tail d p w p' w' : before_w d p w -> p < p' -> before_w d p' w'.
Proof. unfold before_w. intros [?|(?&_)] ?; left; lia. Qed.


Lemma inv_next_index st qs hist calls :
  Inv st qs hist calls ->
  Hash.next (phase1_queue st) = Hash.start (phase1_queue st) + Z.of_nat (length qs).
Proof. intros HI. destruct (inv_rep _ _ _ _ HI) as (_ & -> & _). by rewrite length_fmap. Qed.

Lemma inv_fresh st qs hist calls id :
  Inv st qs hist calls -> append_status st !! id = None -> id ∉ pending_ids st qs.
Proof.
  intros HI Hid. unfold pending_ids. rewrite elem_of_app. intros [Hi|Hi].
  - apply list_elem_of_fmap in Hi as (w & -> & [[p w'] [-> Hw]]%list_elem_of_fmap).
    apply list_elem_of_lookup in Hw as [i Hw]. apply (inv_status_q _ _ _ _ HI) in Hw.
    simpl in Hid. by rewrite Hid in Hw.
  - apply list_elem_of_fmap in Hi as (g & -> & Hg).
    destruct (inv_status_h _ _ _ _ HI g Hg) as (s & Hs & _). by rewrite Hid in Hs.
Qed.

Lemma lookup_snoc_Some_inv {A} (l : list A) x i y :
  (l ++ [x]) !! i = Some y -> l !! i = Some y \/ (i = length l /\ y = x).
Proof. rewrite lookup_app_Some. intros [?|[? [? ->]%list_lookup_singleton_Some]]; [by left|right]. split; [lia|done]. Qed.

(** Queueing a new entry. *)
Lemma queue_append_spec st qs hist calls id mk status :
  Inv st qs hist calls -> room st -> append_status st !! id = None ->
  (forall ts n, w_get_id (mk ts n) = id /\ entry_ok calls n ts (mk ts n) /\
     w_ts (mk ts n) = ts /\ status n = status_of n (mk ts n)) ->
  exists st', queue_append st id mk status =
      Done (SAR_NewAppend (next_timestamp st) (Hash.next (phase1_queue st)), st') /\
    Inv st' (qs ++ [(next_timestamp st, mk (next_timestamp st) (Hash.next (phase1_queue st)))])
      hist calls /\
    got_max_timestamp st' = got_max_timestamp st /\ last_flush st' = last_flush st /\
    next_timestamp st' = next_timestamp st + 1.
Proof.
  intros HI [Hr1 Hr2] Hid Hmk. unfold queue_append, Hash.push_index.
  pose proof (inv_next_index _ _ _ _ HI) as Hidx.
  pose proof (inv_fresh _ _ _ _ _ HI Hid) as Hfresh.
  set (ts := next_timestamp st) in *. set (n := Hash.next (phase1_queue st)) in *.
  destruct (Hmk ts n) as (Hmid & Hment & Hmts & Hmst).
  destruct HI. rewrite add64_ok by (unfold in_u64; lia). simpl.
  destruct (rep_push_back _ _ (mk ts n) inv_rep0 Hr2) as (q' & Hq & Hrep & Hstart).
  rewrite Hq; simpl. unfold n at 1. rewrite Z.eqb_refl; simpl.
  eexists. split_and!; [done| |done..].
  constructor; simpl; try done; try lia; rewrite ?Hstart.
  - by rewrite fmap_app.
  - rewrite fmap_app; simpl. apply StronglySorted_snoc; [done|].
    intros p [[p' w] [-> Hin]]%list_elem_of_fmap. apply list_elem_of_lookup in Hin as [i Hin].
    pose proof (inv_below0 _ _ (list_elem_of_lookup_2 _ _ _ Hin)) as [_ Hb].
    pose proof (inv_entry0 _ _ _ Hin) as He. simpl.
    unfold w_ts in Hb. destruct w; simpl in *; naive_solver lia.
  - intros i p w [Hl|[-> [= -> ->]]]%lookup_snoc_Some_inv; [by apply inv_entry0|].
    by rewrite <- Hidx.
  - intros p w [Hl|[= -> ->]%list_elem_of_singleton]%elem_of_app.
    + destruct (inv_below0 p w Hl). lia.
    + lia.
  - intros g Hg. specialize (inv_heap_below0 g Hg). lia.
  - unfold pending_ids in *; simpl. rewrite !fmap_app; simpl. rewrite Hmid.
    rewrite <- app_assoc, (Permutation_app_comm [id]), app_assoc.
    apply NoDup_app. split_and!; [done| |apply NoDup_singleton].
    intros x Hx ->%list_elem_of_singleton. by apply Hfresh.
  - intros i p w [Hl|[-> [= -> ->]]]%lookup_snoc_Some_inv.
    + rewrite lookup_insert_ne; [by eapply inv_status_q0|]. intros ->. apply Hfresh.
      unfold pending_ids. apply elem_of_app; left.
      apply list_elem_of_fmap. exists w. split; [done|]. apply list_elem_of_fmap.
      exists (p, w). split; [done|]. by eapply list_elem_of_lookup_2.
    + by rewrite Hmid, lookup_insert_eq, <- Hidx, <- Hmst.
  - intros g Hg. rewrite lookup_insert_ne; [by apply inv_status_h0|]. intros ->. apply Hfresh.
    unfold pending_ids. apply elem_of_app; right. apply list_elem_of_fmap. by exists g.
  - intros id' s [[<- _]|[_ Hs]]%lookup_insert_Some; unfold pending_ids; simpl;
      rewrite !fmap_app; simpl.
    + rewrite Hmid. set_solver.
    + apply inv_status_dom0 in Hs. unfold pending_ids in Hs. set_solver.
  - intros g p w Hg Hs [Hl|[= -> ->]%list_elem_of_singleton]%elem_of_app; [by eapply inv_single0|].
    specialize (inv_heap_below0 g Hg). lia.
  - intros d p w Hd [Hl|[= -> ->]%list_elem_of_singleton]%elem_of_app; [by apply inv_hist_queue0|].
    left. specialize (inv_hist_last0 d Hd). lia.
Qed.

(** ** Moving the front of the queue to the heap *)

Lemma into_got_max_spec calls n p w :
  entry_ok calls n p w -> has_max w = true ->
  exists g, into_got_max w = Done g /\ primary g /\ g_get_id g = w_get_id w /\
    g_timestamp g = w_ts w /\ p <= g_timestamp g /\ is_multi g = negb (is_single_w w) /\
    heap_status_ok g (status_of n w) /\
    (is_multi g = true -> (g_get_id g, g_timestamp g) ∈ calls) /\
    (is_multi g = false -> g_timestamp g = p).
Proof.
  intros He Hm. destruct w; simpl in *; try done; destruct_and?; subst; eexists;
    (split; [done|]); unfold heap_status_ok, w_ts; simpl; split_and!;
    first [done | lia | by eauto].
Qed.

Lemma before_w_into d p w g :
  before_w d p w -> p <= g_timestamp g -> g_get_id g = w_get_id w ->
  is_multi g = negb (is_single_w w) -> before d g.
Proof.
  unfold before_w, before, tie. intros [?|(?&Hm&Hs&Hu)] Hp Hid Hg; [left; lia|].
  destruct (decide (p = g_timestamp g)); [|left; lia].
  right. split; [lia|]. by rewrite Hm, Hg, Hs, Hid.
Qed.

Lemma promote_step st p w qs hist calls :
  Inv st ((p, w) :: qs) hist calls -> has_max w = true ->
  exists q' g h',
    Hash.pop_front (phase1_queue st) = Done (Some w, q') /\
    into_got_max w = Done g /\ heap_push g (got_max_timestamp st) = Done h' /\
    Inv (set_heap h' (set_queue q' st)) qs hist calls /\ h' ≡ₚ g :: got_max_timestamp st /\
    g_get_id g = w_get_id w.
Proof.
  intros HI Hm. pose proof (inv_entry _ _ _ _ HI O p w eq_refl) as He0.
  destruct (into_got_max_spec _ _ _ _ He0 Hm)
    as (g & Hg & Hprim & Hgid & Hgts & Hple & Hgm & Hgst & Hgcall & Hgsingle).
  destruct (rep_pop_front _ _ _ (inv_rep _ _ _ _ HI)) as (q' & Hpop & Hrep & Hstart & Hnext).
  pose proof (inv_nodup _ _ _ _ HI) as Hnd. unfold pending_ids in Hnd; simpl in Hnd.
  apply NoDup_cons in Hnd as [Hnin Hnd].
  destruct (heap_push_spec g (got_max_timestamp st)) as (h' & Hh & Hperm & Hsort);
    [done|apply HI|rewrite Hgid; set_solver|apply HI|].
  exists q', g, h'. split_and!; try done.
  pose proof (inv_status_q _ _ _ _ HI O p w eq_refl) as Hst0.
  destruct HI. rewrite fmap_cons in inv_sorted0.
  apply StronglySorted_inv in inv_sorted0 as [Hs Hlt]. rewrite Forall_fmap in Hlt.
  rewrite Forall_forall in Hlt.
  pose proof (inv_below0 p w) as [Hb1 Hb2]; [by left|].
  constructor; simpl; try done; rewrite ?Hstart; try setoid_rewrite Hperm.
  - intros i p' w' Hl. specialize (inv_entry0 (S i) p' w' Hl).
    by replace (_ + 1 + Z.of_nat i) with (Hash.start (phase1_queue st) + Z.of_nat (S i)) by lia.
  - intros p' w' Hin. apply inv_below0. by right.
  - intros g' [->|Hin]%elem_of_cons; [lia|by apply inv_heap_below0].
  - by constructor.
  - intros g' [->|Hin]%elem_of_cons; [done|by apply inv_heap_call0].
  - unfold pending_ids; simpl. rewrite Hperm; simpl. rewrite Hgid.
    rewrite <- Permutation_middle. by constructor.
  - intros i p' w' Hl. specialize (inv_status_q0 (S i) p' w' Hl).
    by replace (_ + 1 + Z.of_nat i) with (Hash.start (phase1_queue st) + Z.of_nat (S i)) by lia.
  - intros g' [->|Hin]%elem_of_cons; [|by apply inv_status_h0]. rewrite Hgid. eauto.
  - intros id s Hs'. apply inv_status_dom0 in Hs'. unfold pending_ids in *; simpl in *.
    rewrite Hperm; simpl. rewrite Hgid. set_solver.
  - intros g' p' w' [->|Hin]%elem_of_cons Hsg Hw.
    + rewrite Hgsingle by done. by apply (Hlt (p', w')).
    + eapply inv_single0; [done..|by right].
  - intros d g' Hd [->|Hin]%elem_of_cons; [|by apply inv_hist_heap0].
    eapply before_w_into; [apply inv_hist_queue0; [done|by left]|done..].
  - intros d p' w' Hd Hin. apply inv_hist_queue0; [done|by right].
Qed.

Lemma inv_front st qs hist calls :
  Inv st qs hist calls -> Hash.front (phase1_queue st) = head qs.*2.
Proof. intros HI. apply rep_front, HI. Qed.

(** The promotion loop terminates within its fuel, without a panic, in a state whose front
    (if any) still waits. *)
Lemma promote_spec fuel st qs hist calls :
  Inv st qs hist calls -> (length qs <= fuel)%nat ->
  exists st' qs', promote fuel st = Done st' /\ Inv st' qs' hist calls /\ front_waits qs' /\
    pending_ids st' qs' ≡ₚ pending_ids st qs /\
    next_timestamp st' = next_timestamp st /\ append_status st' = append_status st.
Proof.
  revert st qs. induction fuel as [|fuel IH]; intros st [|[p w] qs] HI Hlen;
    simpl in *; try lia; rewrite (inv_front _ _ _ _ HI); simpl.
  1,2: exists st, []; split_and!; done.
  destruct (has_max w) eqn:Hm; cycle 1.
  { exists st, ((p, w) :: qs). split_and!; try done. intros ?? [= <- <-]. done. }
  destruct (promote_step _ _ _ _ _ _ HI Hm) as (q' & g & h' & -> & Hg & Hh & HI' & Hperm & Hgid).
  simpl. rewrite Hg; simpl. rewrite Hh; simpl.
  destruct (IH _ _ HI') as (st' & qs' & Hp & HI'' & Hf & Hids & ? & ?); [lia|].
  exists st', qs'. split_and!; try done. rewrite Hids. unfold pending_ids; simpl.
  rewrite Hperm; simpl. rewrite Hgid. by rewrite <- Permutation_middle.
Qed.

(** ** Delivering from the heap *)

(** What [happens_before] decides for an entry that still waits for its final timestamp. *)
Definition hb g w : bool :=
  if is_multi g then
    (g_timestamp g <? w_ts w)
    || ((g_timestamp g =? w_ts w) && bool_decide (uuid_lt (g_get_id g) (w_get_id w)))
  else g_timestamp g <=? w_ts w.

Lemma happens_before_waiting g w :
  primary g -> has_max w = false -> happens_before g w = Done (hb g w).
Proof. by destruct g, w. Qed.

Lemma entry_waiting_ts calls n p w : entry_ok calls n p w -> has_max w = false -> w_ts w = p.
Proof. destruct w; simpl; try done; unfold w_ts; simpl; naive_solver. Qed.

Lemma can_flush_spec st qs hist calls :
  Inv st qs hist calls -> front_waits qs ->
  can_flush st = Done (match got_max_timestamp st, head qs with
                       | [], _ => false
                       | _ :: _, None => true
                       | g :: _, Some (_, w) => hb g w
                       end).
Proof.
  intros HI Hf. unfold can_flush. destruct (got_max_timestamp st) as [|g h] eqn:Eh; [done|].
  rewrite (inv_front _ _ _ _ HI). destruct qs as [|[p w] qs]; simpl; [done|].
  apply happens_before_waiting; [|by eapply Hf].
  pose proof (inv_primary _ _ _ _ HI) as Hp. rewrite Eh in Hp. by inversion Hp.
Qed.

(** Whatever can be flushed precedes everything still queued. *)
Lemma flushable_before_queue st qs hist calls g h :
  Inv st qs hist calls -> front_waits qs -> got_max_timestamp st = g :: h ->
  can_flush st = Done true -> forall p w, (p, w) ∈ qs -> before_w g p w.
Proof.
  intros HI Hf Eh Hc p w Hin.
  rewrite (can_flush_spec _ _ _ _ HI Hf), Eh in Hc.
  destruct qs as [|[p0 w0] qs]; [by apply not_elem_of_nil in Hin|]. simpl in Hc.
  injection Hc as Hc.
  pose proof (entry_waiting_ts _ _ _ _ (inv_entry _ _ _ _ HI O p0 w0 eq_refl) (Hf _ _ eq_refl)) as Hp0.
  assert (H0w : before_w g p0 w0).
  { destruct (is_multi g) eqn:Em.
    - unfold hb in Hc. rewrite Em in Hc. unfold before_w.
      apply orb_true_iff in Hc as [Hc|Hc]; [left; lia|right].
      apply andb_true_iff in Hc as [Hc1 Hc2]. apply bool_decide_eq_true in Hc2.
      split_and!; try done; [lia|]. specialize (Hf _ _ eq_refl). by destruct w0.
    - left. eapply (inv_single _ _ _ _ HI); [rewrite Eh; by left|done|by left]. }
  apply elem_of_cons in Hin as [[= -> ->]|Hin]; [done|].
  eapply before_w_tail; [done|].
  pose proof (inv_sorted _ _ _ _ HI) as Hs. rewrite fmap_cons in Hs.
  apply StronglySorted_inv in Hs as [_ Hs]. rewrite Forall_fmap, Forall_forall in Hs.
  by apply (Hs (p, w)).
Qed.

(** The state after one iteration of the flushing loop. *)
Definition flushed g h st : State :=
  let st := set_heap h st in
  let st := set_status (delete (g_get_id g) (append_status st)) st in
  set_last (Z.max (g_timestamp g) (last_flush st)) st.

Lemma flush_step st qs hist calls g h :
  Inv st qs hist calls -> front_waits qs -> got_max_timestamp st = g :: h ->
  can_flush st = Done true -> Inv (flushed g h st) qs (hist ++ [g]) calls.
Proof.
  intros HI Hf Eh Hc. pose proof (flushable_before_queue _ _ _ _ _ _ HI Hf Eh Hc) as Hbw.
  pose proof (inv_nodup _ _ _ _ HI) as Hnd. unfold pending_ids in Hnd.
  rewrite Eh, fmap_cons, <- Permutation_middle in Hnd. apply NoDup_cons in Hnd as [Hnin Hnd].
  destruct HI. rewrite Eh in *.
  apply StronglySorted_inv in inv_heap0 as [Hsort Hg]. rewrite Forall_forall in Hg.
  apply Forall_cons in inv_primary0 as [Hpg Hph].
  pose proof (inv_heap_below0 g (list_elem_of_here _ _)) as Hgb.
  constructor; simpl; rewrite ?Eh; try done; try lia.
  - intros g' Hin. apply inv_heap_below0. by right.
  - intros g' Hin. apply inv_heap_call0. by right.
  - intros i p w Hl. rewrite lookup_delete_ne; [by eapply inv_status_q0|].
    intros Heq. apply Hnin. rewrite Heq. apply elem_of_app; left. apply list_elem_of_fmap.
    exists w. split; [done|]. apply list_elem_of_fmap. exists (p, w). split; [done|].
    by eapply list_elem_of_lookup_2.
  - intros g' Hin. rewrite lookup_delete_ne; [apply inv_status_h0; by right|].
    intros Heq. apply Hnin. rewrite Heq. apply elem_of_app; right.
    apply list_elem_of_fmap. by exists g'.
  - intros id s [Hne Hs]%lookup_delete_Some. apply inv_status_dom0 in Hs.
    unfold pending_ids in *; simpl. rewrite Eh in Hs. set_solver.
  - intros g' p w Hin. apply inv_single0. by right.
  - apply StronglySorted_snoc; [done|]. intros d Hd. apply inv_hist_heap0; [done|by left].
  - intros d [Hd| ->%list_elem_of_singleton]%elem_of_app; [|lia].
    specialize (inv_hist_last0 d Hd). lia.
  - intros d [Hd| ->%list_elem_of_singleton]%elem_of_app; [by apply inv_hist_call0|].
    apply inv_heap_call0. by left.
  - intros d g' [Hd| ->%list_elem_of_singleton]%elem_of_app Hin; [|by apply Hg].
    apply inv_hist_heap0; [done|by right].
  - intros d p w [Hd| ->%list_elem_of_singleton]%elem_of_app Hin; [|by apply Hbw].
    by apply inv_hist_queue0.
Qed.

(** The flushing loop returns, delivers in order, and stops at a quiescent state. *)
Lemma flush_loop_spec h st qs hist calls :
  Inv st qs hist calls -> front_waits qs -> got_max_timestamp st = h ->
  exists out st', flush_loop h st = Done (out, st') /\ Inv st' qs (hist ++ out) calls /\
    quiescent st' qs /\ (g_get_id <$> out) ++ pending_ids st' qs ≡ₚ pending_ids st qs /\
    next_timestamp st' = next_timestamp st /\ phase1_queue st' = phase1_queue st.
Proof.
  revert st hist. induction h as [|g h IH]; intros st hist HI Hf Eh; simpl.
  { exists [], st. rewrite app_nil_r. split_and!; try done.
    split; [done|]. unfold can_flush. by rewrite Eh. }
  destruct (can_flush st) as [[|]|] eqn:Hc; simpl; cycle 1.
  { exists [], st. rewrite app_nil_r. by split_and!. }
  { by rewrite (can_flush_spec _ _ _ _ HI Hf) in Hc. }
  pose proof (flush_step _ _ _ _ _ _ HI Hf Eh Hc) as HI'.
  destruct (inv_status_h _ _ _ _ HI g) as (s & Hs & _); [rewrite Eh; by left|].
  rewrite Hs, debug_assert_true by done. simpl.
  destruct (IH _ _ HI' Hf eq_refl) as (out & st' & Hfl & HI'' & Hq & Hids & ? & ?).
  exists (g :: out), st'. unfold flushed in Hfl; simpl in Hfl. rewrite Hfl; simpl.
  split_and!; try done; [by rewrite <- app_assoc in HI''|].
  rewrite Hids. unfold pending_ids; simpl. rewrite Eh; simpl. by rewrite <- Permutation_middle.
Qed.

(** ** Recording a final timestamp *)

Lemma w_set_max_spec calls n p w mts :
  entry_ok calls n p w -> has_max w = false -> p <= mts ->
  exists w', w_set_max_timestamp w mts = Done (inr w') /\
    entry_ok ((w_get_id w, mts) :: calls) n p w' /\ w_get_id w' = w_get_id w /\
    w_ts w' = mts /\ status_of n w' = AS_Phase2 mts /\ is_single_w w' = is_single_w w.
Proof.
  intros He Hm Hp. destruct w; simpl in *; try done; destruct_and?; subst;
    rewrite debug_assert_true by lia; simpl; eexists;
    (split; [done|]); unfold w_ts; simpl; split_and!; first [done | by left].
Qed.

Lemma entry_ok_mono calls c n p w : entry_ok calls n p w -> entry_ok (c :: calls) n p w.
Proof. destruct w; simpl; try done; intros (?&?&?); split_and!; try done; by right. Qed.

Lemma list_insert_same_fmap {A B} (f : A -> B) (l : list A) i x y :
  l !! i = Some x -> f y = f x -> f <$> (<[i:=y]> l) = f <$> l.
Proof.
  intros Hl Hf. rewrite list_fmap_insert, Hf. apply list_insert_id.
  by rewrite list_lookup_fmap, Hl.
Qed.

Lemma mark_spec st qs hist calls i p w w' mts q' :
  Inv st qs hist calls -> qs !! i = Some (p, w) ->
  entry_ok ((w_get_id w, mts) :: calls) (Hash.start (phase1_queue st) + Z.of_nat i) p w' ->
  w_get_id w' = w_get_id w -> w_ts w' = mts -> mts < next_timestamp st ->
  status_of (Hash.start (phase1_queue st) + Z.of_nat i) w' = AS_Phase2 mts ->
  is_single_w w' = is_single_w w ->
  Hash.rep q' (<[i:=w']> qs.*2) -> Hash.start q' = Hash.start (phase1_queue st) ->
  Inv (set_status (<[w_get_id w := AS_Phase2 mts]> (append_status st)) (set_queue q' st))
    (<[i:=(p, w')]> qs) hist ((w_get_id w, mts) :: calls).
Proof.
  intros HI Hi He' Hid Hts Hmts Hst Hsg Hrep Hstart.
  assert (Hmem : forall x, x ∈ <[i:=(p, w')]> qs -> x = (p, w') \/ x ∈ qs).
  { intros x [j Hj]%list_elem_of_lookup.
    apply list_lookup_insert_Some in Hj as [(_ & <- & _)|[_ Hj]]; [by left|right].
    by eapply list_elem_of_lookup_2. }
  assert (Hin : (p, w) ∈ qs) by (by eapply list_elem_of_lookup_2).
  assert (Hids : pending_ids (set_status (<[w_get_id w := AS_Phase2 mts]> (append_status st))
                    (set_queue q' st)) (<[i:=(p, w')]> qs) = pending_ids st qs).
  { unfold pending_ids; simpl. f_equal. rewrite list_fmap_insert; simpl.
    eapply list_insert_same_fmap; [by rewrite list_lookup_fmap, Hi|done]. }
  assert (Hwid : forall j p1 w1, j <> i -> qs !! j = Some (p1, w1) -> w_get_id w1 <> w_get_id w).
  { intros j p1 w1 Hne Hj Heq. pose proof (inv_nodup _ _ _ _ HI) as [Hnd _]%NoDup_app.
    apply Hne. eapply (NoDup_lookup _ _ _ (w_get_id w) Hnd);
      rewrite !list_lookup_fmap; [rewrite Hj; simpl; by rewrite Heq|by rewrite Hi]. }
  pose proof (inv_nodup _ _ _ _ HI) as Hnd0.
  destruct HI. constructor; simpl; rewrite ?Hstart, ?Hids; try done.
  - by rewrite list_fmap_insert.
  - by rewrite (list_insert_same_fmap fst qs i (p, w) (p, w')).
  - intros j p1 w1 [(-> & [= -> ->] & _)|[Hne Hj]]%list_lookup_insert_Some; [done|].
    by apply entry_ok_mono, inv_entry0.
  - intros p1 w1 [[= -> ->]|Hin1]%Hmem; [|by apply inv_below0].
    destruct (inv_below0 p w Hin). lia.
  - intros g Hg Hm. right. by apply inv_heap_call0.
  - intros j p1 w1 [(-> & [= -> ->] & _)|[Hne Hj]]%list_lookup_insert_Some.
    + by rewrite Hid, lookup_insert_eq, Hst.
    + rewrite lookup_insert_ne; [by eapply inv_status_q0|]. intros Heq.
      by eapply (Hwid j).
  - intros g Hg. rewrite lookup_insert_ne; [by apply inv_status_h0|]. intros Heq.
    unfold pending_ids in Hnd0. apply NoDup_app in Hnd0 as (_ & Hd & _).
    apply (Hd (w_get_id w)); [|rewrite Heq; by apply list_elem_of_fmap_2].
    apply (list_elem_of_fmap_2 w_get_id), (list_elem_of_fmap_2 snd _ _ Hin).
  - intros id s [[<- _]|[_ Hs]]%lookup_insert_Some; [|by eapply inv_status_dom0].
    unfold pending_ids. apply elem_of_app; left.
    apply (list_elem_of_fmap_2 w_get_id), (list_elem_of_fmap_2 snd _ _ Hin).
  - intros g p1 w1 Hg Hm [[= -> ->]|Hin1]%Hmem; [by eapply inv_single0|by eapply inv_single0].
  - intros d Hd Hm. right. by apply inv_hist_call0.
  - intros d p1 w1 Hd [[= -> ->]|Hin1]%Hmem; [|by apply inv_hist_queue0].
    pose proof (inv_hist_queue0 d p w Hd Hin) as Hb. unfold before_w in *.
    by rewrite Hid, Hsg.
Qed.

(** ** Quiescent states *)

Lemma quiescent_nonempty st qs hist calls g :
  Inv st qs hist calls -> quiescent st qs -> g ∈ got_max_timestamp st ->
  exists p w qs', qs = (p, w) :: qs'.
Proof.
  intros HI [Hf Hq] Hg. rewrite (can_flush_spec _ _ _ _ HI Hf) in Hq.
  destruct (got_max_timestamp st); [by apply not_elem_of_nil in Hg|].
  destruct qs as [|[p w] qs]; [done|eauto].
Qed.

(** No single append waits in the heap of a quiescent state. *)
Lemma quiescent_multi st qs hist calls g :
  Inv st qs hist calls -> quiescent st qs -> g ∈ got_max_timestamp st -> is_multi g = true.
Proof.
  intros HI Hq Hg. destruct (quiescent_nonempty _ _ _ _ _ HI Hq Hg) as (p & w & qs' & ->).
  destruct (is_multi g) eqn:Em; [done|exfalso].
  pose proof (inv_single _ _ _ _ HI g p w Hg Em (list_elem_of_here _ _)) as Hlt.
  destruct Hq as [Hf Hq]. rewrite (can_flush_spec _ _ _ _ HI Hf) in Hq.
  pose proof (entry_waiting_ts _ _ _ _ (inv_entry _ _ _ _ HI O p w eq_refl) (Hf _ _ eq_refl)) as Hp.
  pose proof (inv_heap _ _ _ _ HI) as Hs.
  destruct (got_max_timestamp st) as [|g0 h] eqn:Eh; [by apply not_elem_of_nil in Hg|].
  simpl in Hq. injection Hq as Hq.
  assert (g_timestamp g0 <= g_timestamp g).
  { apply elem_of_cons in Hg as [->|Hg]; [lia|]. apply StronglySorted_inv in Hs as [_ Hs].
    rewrite Forall_forall in Hs. destruct (Hs g Hg) as [?|[? _]]; lia. }
  unfold hb in Hq. destruct (is_multi g0); [|lia].
  apply orb_false_iff in Hq as [Hq _]. lia.
Qed.

Lemma inv_check_empty st qs hist calls :
  Inv st qs hist calls -> quiescent st qs -> check_empty st = Done tt.
Proof.
  intros HI Hq. apply debug_assert_true. rewrite (rep_is_empty _ _ (inv_rep _ _ _ _ HI)).
  destruct (got_max_timestamp st) as [|g h] eqn:Eh; [by destruct (bool_decide _)|].
  destruct (quiescent_nonempty _ _ _ _ g HI Hq) as (p & w & qs' & ->); [rewrite Eh; by left|done].
Qed.

Lemma inv_index st qs hist calls i p w :
  Inv st qs hist calls -> qs !! i = Some (p, w) ->
  Hash.index (phase1_queue st) (Hash.start (phase1_queue st) + Z.of_nat i) = Done w.
Proof.
  intros HI Hi. eapply rep_index; [apply HI|]. eapply rep_lookup; [apply HI|].
  split; [lia|]. replace (Z.to_nat _) with i by lia. by rewrite list_lookup_fmap, Hi.
Qed.

(** In a quiescent state the status of an id tells where its append is. *)
Lemma status_cases st qs hist calls id s :
  Inv st qs hist calls -> quiescent st qs -> append_status st !! id = Some s ->
  (exists i p w, qs !! i = Some (p, w) /\ w_get_id w = id /\
     s = status_of (Hash.start (phase1_queue st) + Z.of_nat i) w) \/
  (exists g, g ∈ got_max_timestamp st /\ g_get_id g = id /\ is_multi g = true /\
     s = AS_Phase2 (g_timestamp g)).
Proof.
  intros HI Hq Hs. pose proof (inv_status_dom _ _ _ _ HI _ _ Hs) as Hin.
  unfold pending_ids in Hin. apply elem_of_app in Hin as [Hin|Hin].
  - left. apply list_elem_of_fmap in Hin as (w & -> & [[p w'] [-> Hw]]%list_elem_of_fmap).
    apply list_elem_of_lookup in Hw as [i Hw]. exists i, p, w'. split_and!; try done.
    simpl in Hs. rewrite (inv_status_q _ _ _ _ HI _ _ _ Hw) in Hs. by injection Hs.
  - right. apply list_elem_of_fmap in Hin as (g & -> & Hg).
    pose proof (quiescent_multi _ _ _ _ _ HI Hq Hg) as Hm.
    exists g. split_and!; try done. destruct (inv_status_h _ _ _ _ HI _ Hg) as (s' & Hs' & Hok).
    unfold heap_status_ok in Hok. rewrite Hm in Hok. congruence.
Qed.

End Invariant.
