(* ===== verification/SkeensOrder.v ===== *)
(** * What a primary's chain guarantees: order, agreement, exactly-once, absence of panics

    [sk_exec] is one call sequence the ordering thread makes on the state of a chain
    ([Chain::timestamp_for_multi], [timestamp_for_snap], [handle_skeens_single] behind
    [need_single_at], and [finish_multi]: [set_max_timestamp] followed by the flush it asks
    for); [reach] is reachability by such steps, with the history of deliveries, of the final
    timestamps received and of the ids queued. *)

From S2P Require Import Prelude DequeMap Skeens SkeensInv.
From stdpp Require Import base gmap list fin_maps sorting.
From Stdlib Require Import ZArith Lia.

Open Scope Z_scope.

Section Exec.
Context `{Build} {U T MS VE : Type} `{UuidOps U}.

Abbreviation Got := (GotMax U T MS VE).
Abbreviation State := (SkeensState U T MS VE).
Implicit Types (st : State).

Inductive sk_event :=
| EvMulti (id : U) (storage : MS) (sentinel : bool) (t : T)
| EvSnap (id : U) (storage : MS) (t : T)
| EvSingle (id : U) (timestamp : Z) (storage : VE) (t : T)
| EvFinish (id : U) (max_timestamp : Z).

Definition sk_exec (ev : sk_event) st : outcome (list Got * State) :=
  match ev with
  | EvMulti id storage sentinel t => r ← add_multi_append st id storage sentinel t; Done ([], r.2)
  | EvSnap id storage t => r ← add_snapshot st id storage t; Done ([], r.2)
  | EvSingle id timestamp storage t =>
      r ← need_single_at st timestamp;
      if r.1 : bool then r ← add_single_append r.2 id timestamp storage t; Done ([], r.2)
      else Done ([], r.2)
  | EvFinish id max_timestamp =>
      r ← set_max_timestamp st id max_timestamp;
      match r.1 with
      | SMR_NeedsFlush => flush_got_max_timestamp r.2
      | _ => Done ([], r.2)
      end
  end.

(** The phase-1 timestamp handed out for an append that still waits for its final one. *)
Definition phase1_timestamp st (id : U) : option Z :=
  match append_status st !! id with
  | Some (AS_Phase1 i) =>
      match Hash.data (phase1_queue st) !! i with
      | Some w => match multi_timestamp w with TS_Phase1 t => Some t | TS_Phase2 _ => None end
      | None => None
      end
  | _ => None
  end.

(** What the environment guarantees: timestamps and queue indices stay clear of the end of
    the [u64] range, and the client's final timestamp is at least the one this chain handed
    out (the client sends the maximum over all chains). *)
Definition ev_ok st (ev : sk_event) : Prop :=
  match ev with
  | EvMulti _ _ _ _ | EvSnap _ _ _ => room st
  | EvSingle _ timestamp _ _ => room st /\ timestamp + 1 < u64_max
  | EvFinish id mts => mts < u64_max /\ forall t, phase1_timestamp st id = Some t -> t <= mts
  end.

Definition calls_of (ev : sk_event) : list (U * Z) :=
  match ev with EvFinish id mts => [(id, mts)] | _ => [] end.

(** The id a call queues, if it queues one. *)
Definition queued_by st (ev : sk_event) : list U :=
  match ev with
  | EvMulti id _ _ _ | EvSnap id _ _ =>
      if decide (append_status st !! id = None) then [id] else []
  | EvSingle id timestamp _ _ =>
      if is_empty st || (timestamp <=? last_flush st) then []
      else if decide (append_status st !! id = None) then [id] else []
  | EvFinish _ _ => []
  end.

(** [reach st hist calls ids]: a chain that started empty is in state [st] after delivering
    [hist], receiving the final timestamps [calls] and queueing the appends [ids]. *)
Inductive reach : State -> list Got -> list (U * Z) -> list U -> Prop :=
| reach_new : reach new [] [] []
| reach_step st hist calls ids ev out st' :
    reach st hist calls ids -> ev_ok st ev -> sk_exec ev st = Done (out, st') ->
    reach st' (hist ++ out) (calls_of ev ++ calls) (queued_by st ev ++ ids).

(** Ids of the appends a state still holds. *)
Definition held_ids st : list U :=
  ((fun kw => w_get_id kw.2) <$> map_to_list (Hash.data (phase1_queue st)))
  ++ (g_get_id <$> got_max_timestamp st).

End Exec.
Arguments sk_event : clear implicits.

Section Steps.
Context `{Build} {U T MS VE : Type} `{UuidLaws U}.

Abbreviation Waiting := (WaitingForMax U T MS VE).
Abbreviation Got := (GotMax U T MS VE).
Abbreviation State := (SkeensState U T MS VE).
Abbreviation Event := (sk_event U T MS VE).
Implicit Types (st : State) (w : Waiting) (g d : Got) (qs : list (Z * Waiting))
  (hist : list Got) (calls : list (U * Z)) (ev : Event).

(** One step keeps the invariant and accounts for every id. *)
Definition step_ok st qs hist calls (ids : list U) (out : list Got) st' calls' : Prop :=
  exists qs', Inv st' qs' (hist ++ out) calls' /\ quiescent st' qs' /\
    (g_get_id <$> out) ++ pending_ids st' qs' ≡ₚ ids ++ pending_ids st qs.

Lemma step_ok_refl st qs hist calls :
  Inv st qs hist calls -> quiescent st qs -> step_ok st qs hist calls [] [] st calls.
Proof. intros HI Hq. exists qs. rewrite app_nil_r. by split_and!. Qed.

Lemma step_ok_set_next st qs hist calls n :
  Inv (set_next n st) qs hist calls -> quiescent st qs ->
  step_ok st qs hist calls [] [] (set_next n st) calls.
Proof. intros HI Hq. exists qs. rewrite app_nil_r. by split_and!. Qed.

(** The [Occupied] arm: the queue entry (or the recorded final timestamp) answers. *)
Lemma known_append_spec st qs hist calls id s :
  Inv st qs hist calls -> quiescent st qs -> append_status st !! id = Some s ->
  exists r, known_append st s = Done r.
Proof.
  intros HI Hq Hs. destruct (status_cases _ _ _ _ _ _ HI Hq Hs) as
    [(i & p & w & Hi & <- & ->)|(g & _ & _ & _ & ->)]; [|by eexists].
  pose proof (inv_index _ _ _ _ _ _ _ HI Hi) as Hx. pose proof (inv_entry _ _ _ _ HI _ _ _ Hi).
  destruct w; simpl in *; try done; rewrite ?Hx; by eexists.
Qed.

Lemma is_empty_spec st qs hist calls :
  Inv st qs hist calls -> quiescent st qs -> is_empty st = bool_decide (qs = []).
Proof.
  intros HI Hq. unfold is_empty. rewrite (rep_is_empty _ _ (inv_rep _ _ _ _ HI)).
  destruct qs as [|[p w] qs]; simpl; [|done].
  apply bool_decide_eq_true. destruct (got_max_timestamp st) as [|g h] eqn:Eh; [done|].
  destruct (quiescent_nonempty _ _ _ _ g HI Hq) as (? & ? & ? & ?); [rewrite Eh; by left|done].
Qed.

(** Queueing leaves a quiescent state quiescent: the front does not change, or the heap is
    empty. *)
Lemma queue_append_quiescent st qs st' x hist calls :
  Inv st qs hist calls -> quiescent st qs -> Inv st' (qs ++ [x]) hist calls ->
  got_max_timestamp st' = got_max_timestamp st ->
  (qs = [] -> has_max x.2 = false) -> quiescent st' (qs ++ [x]).
Proof.
  intros HI Hq HI' Hh Hx.
  assert (Hf : front_waits (qs ++ [x])).
  { destruct qs as [|y qs].
    - intros p w [= Hw]. specialize (Hx eq_refl). by rewrite Hw in Hx.
    - intros p w [= Hw]. apply (proj1 Hq p). simpl. by rewrite Hw. }
  split; [done|]. rewrite (can_flush_spec _ _ _ _ HI' Hf), Hh.
  pose proof (proj2 Hq) as Hc. rewrite (can_flush_spec _ _ _ _ HI (proj1 Hq)) in Hc.
  destruct (got_max_timestamp st); [done|]. by destruct qs.
Qed.

Lemma queue_append_step st qs hist calls id mk status :
  Inv st qs hist calls -> quiescent st qs -> room st -> append_status st !! id = None ->
  (forall ts n, w_get_id (mk ts n) = id /\ entry_ok calls n ts (mk ts n) /\
     w_ts (mk ts n) = ts /\ status n = status_of n (mk ts n)) ->
  (qs = [] -> forall ts n, has_max (mk ts n) = false) ->
  exists st', queue_append st id mk status =
      Done (SAR_NewAppend (next_timestamp st) (Hash.next (phase1_queue st)), st') /\
    step_ok st qs hist calls [id] [] st' calls /\ check_empty st' = Done tt /\
    last_flush st' = last_flush st /\ next_timestamp st' = next_timestamp st + 1 /\
    got_max_timestamp st' = got_max_timestamp st.
Proof.
  intros HI Hq Hr Hid Hmk Hempty.
  destruct (queue_append_spec _ _ _ _ _ _ _ HI Hr Hid Hmk) as (st' & He & HI' & Hh & Hl & Hn).
  assert (Hq' : quiescent st' (qs ++ [(next_timestamp st, mk (next_timestamp st) (Hash.next (phase1_queue st)))])).
  { eapply queue_append_quiescent; try done. intros ->. by apply Hempty. }
  exists st'. split_and!; try done.
  - eexists. rewrite app_nil_r. split_and!; try done.
    unfold pending_ids. rewrite Hh, !fmap_app; simpl.
    destruct (Hmk (next_timestamp st) (Hash.next (phase1_queue st))) as (-> & _).
    rewrite <- app_assoc; simpl. by rewrite <- Permutation_middle.
  - by eapply inv_check_empty.
Qed.

(** The tail of [set_max_timestamp] and the flush the ordering thread runs after it. *)
Lemma promote_flush_spec st qs hist calls :
  Inv st qs hist calls ->
  exists res st1 out st', promote_all st = Done st1 /\
    (c ← can_flush st1; Done (if (c : bool) then SMR_NeedsFlush else SMR_Ok, st1)) = Done (res, st1) /\
    (match res with SMR_NeedsFlush => flush_got_max_timestamp st1 | _ => Done ([], st1) end)
      = Done (out, st') /\
    step_ok st qs hist calls [] out st' calls.
Proof.
  intros HI. unfold promote_all.
  destruct (promote_spec (size (Hash.data (phase1_queue st))) st qs hist calls HI)
    as (st1 & qs1 & Hp & HI1 & Hf & Hids & _).
  { by rewrite (rep_size _ _ (inv_rep _ _ _ _ HI)), length_fmap. }
  pose proof (can_flush_spec _ _ _ _ HI1 Hf) as Hc.
  destruct (can_flush st1) as [c|] eqn:Hcf; [|done]. clear Hc.
  exists (if c then SMR_NeedsFlush else SMR_Ok), st1. rewrite Hcf. destruct c.
  - destruct (flush_loop_spec (got_max_timestamp st1) st1 qs1 hist calls HI1 Hf eq_refl)
      as (out & st' & Hfl & HI' & Hq & Hids' & _).
    exists out, st'. split_and!; try done. exists qs1. split_and!; try done.
    by rewrite Hids'.
  - exists [], st1. split_and!; try done. exists qs1. rewrite app_nil_r. by split_and!.
Qed.

(** A new final timestamp: the whole of [set_max_timestamp] and the flush. *)
Lemma finish_spec st qs hist calls id mts i p w :
  Inv st qs hist calls -> quiescent st qs -> mts < next_timestamp st ->
  qs !! i = Some (p, w) -> w_get_id w = id -> has_max w = false -> p <= mts ->
  exists w' q', w_set_max_timestamp w mts = Done (inr w') /\
    Hash.index_mut (phase1_queue st) (Hash.start (phase1_queue st) + Z.of_nat i)
      (fun _ => Done w') = Done q' /\
    Inv (set_status (<[id := AS_Phase2 mts]> (append_status st)) (set_queue q' st))
      (<[i:=(p, w')]> qs) hist ((id, mts) :: calls) /\
    pending_ids (set_status (<[id := AS_Phase2 mts]> (append_status st)) (set_queue q' st))
      (<[i:=(p, w')]> qs) = pending_ids st qs.
Proof.
  intros HI Hq Hmts Hi <- Hw Hp.
  destruct (w_set_max_spec _ _ _ _ mts (inv_entry _ _ _ _ HI _ _ _ Hi) Hw Hp)
    as (w' & Hset & He & Hid & Hts & Hst & Hsg).
  assert (Hl : Hash.data (phase1_queue st) !! (Hash.start (phase1_queue st) + Z.of_nat i) = Some w).
  { eapply rep_lookup; [apply HI|]. split; [lia|].
    replace (Z.to_nat _) with i by lia. by rewrite list_lookup_fmap, Hi. }
  destruct (rep_index_mut _ _ _ _ w' (fun _ => Done w') (inv_rep _ _ _ _ HI) Hl eq_refl)
    as (q' & Hq' & Hrep & Hstart & _).
  replace (Z.to_nat _) with i in Hrep by lia.
  exists w', q'. split_and!; try done.
  - by eapply mark_spec.
  - unfold pending_ids; simpl. f_equal. rewrite list_fmap_insert; simpl.
    eapply list_insert_same_fmap; [by rewrite list_lookup_fmap, Hi|done].
Qed.

Lemma inv_calls_mono st qs hist calls c : Inv st qs hist calls -> Inv st qs hist (c :: calls).
Proof.
  intros HI. constructor; try apply HI.
  - intros i p w Hi. by apply entry_ok_mono, (inv_entry _ _ _ _ HI).
  - intros g Hg Hm. right. by apply (inv_heap_call _ _ _ _ HI).
  - intros d Hd Hm. right. by apply (inv_hist_call _ _ _ _ HI).
Qed.

Lemma step_ok_call st qs hist calls st' c :
  step_ok st qs hist calls [] [] st' calls -> step_ok st qs hist calls [] [] st' (c :: calls).
Proof. intros (qs' & HI & Hq & Hids). exists qs'. split_and!; try done. by apply inv_calls_mono. Qed.

(** The body shared by [add_multi_append] and [add_snapshot]. *)
Lemma add_spec st qs hist calls id mk :
  Inv st qs hist calls -> quiescent st qs -> room st ->
  (forall ts n, w_get_id (mk ts n) = id /\ entry_ok calls n ts (mk ts n) /\
     w_ts (mk ts n) = ts /\ AS_Phase1 n = status_of n (mk ts n)) ->
  (forall ts n, has_max (mk ts n) = false) ->
  exists r st', (_ ← check_empty st;
     r ← match append_status st !! id with
         | Some status => r ← known_append st status; Done (r, st)
         | None => queue_append st id mk AS_Phase1
         end;
     _ ← check_empty r.2; Done r) = Done (r, st') /\
    step_ok st qs hist calls (if decide (append_status st !! id = None) then [id] else []) []
      st' calls.
Proof.
  intros HI Hq Hr Hmk Hmax. rewrite (inv_check_empty _ _ _ _ HI Hq); simpl.
  destruct (append_status st !! id) as [s|] eqn:Hs; simpl.
  - destruct (known_append_spec _ _ _ _ _ _ HI Hq Hs) as [r ->]; simpl.
    rewrite (inv_check_empty _ _ _ _ HI Hq); simpl.
    exists r, st. split; [done|]. by apply step_ok_refl.
  - destruct (queue_append_step _ _ _ _ _ mk AS_Phase1 HI Hq Hr Hs) as (st' & -> & Hst & Hc & _);
      [done|done|].
    simpl. rewrite Hc; simpl. by do 2 eexists.
Qed.

Lemma exec_single_spec st qs hist calls id timestamp storage t :
  Inv st qs hist calls -> quiescent st qs -> ev_ok st (EvSingle id timestamp storage t) ->
  exists out st', sk_exec (EvSingle id timestamp storage t) st = Done (out, st') /\
    step_ok st qs hist calls (queued_by st (EvSingle id timestamp storage t)) out st' calls.
Proof.
  intros HI Hq [[Hr1 Hr2] Hts]. simpl. unfold need_single_at.
  pose proof (inv_last _ _ _ _ HI) as Hlast. rewrite (proj2 (Z.ltb_lt _ _)) by lia; simpl.
  destruct (bump_spec _ _ _ _ timestamp HI) as (n & Hb & HI' & Hn & Hn' & Hmax); [lia|].
  assert (Hq' : quiescent (set_next n st) qs) by done.
  destruct (is_empty st || (timestamp <=? last_flush st)) eqn:E.
  { rewrite Hb; simpl. do 2 eexists. split; [done|]. by apply step_ok_set_next. }
  apply orb_false_iff in E as [He _]. rewrite (is_empty_spec _ _ _ _ HI Hq) in He.
  simpl. unfold add_single_append. rewrite (inv_check_empty _ _ _ _ HI Hq); simpl.
  rewrite (rep_is_empty _ _ (inv_rep _ _ _ _ HI)).
  destruct qs as [|x qs]; [done|]; simpl. rewrite Hb; simpl.
  destruct (append_status st !! id) as [s|] eqn:Hs; simpl.
  - destruct (known_append_spec _ _ _ _ _ _ HI' Hq' Hs) as [r ->]; simpl.
    do 2 eexists. split; [done|]. by apply step_ok_set_next.
  - destruct (queue_append_step (set_next n st) _ _ _ id
      (fun ts n => W_SimpleSingle ts n storage t id) AS_Singleton HI' Hq')
      as (st' & -> & Hst & _); try done.
    + split; simpl; lia.
    + simpl. by do 2 eexists.
Qed.

Lemma exec_finish_spec st qs hist calls id mts :
  Inv st qs hist calls -> quiescent st qs -> ev_ok st (EvFinish id mts : Event) ->
  exists out st', sk_exec (EvFinish id mts : Event) st = Done (out, st') /\
    step_ok st qs hist calls [] out st' ((id, mts) :: calls).
Proof.
  intros HI Hq [Hm Hp1]. simpl. unfold set_max_timestamp, phase1_timestamp in *.
  rewrite (inv_check_empty _ _ _ _ HI Hq); simpl.
  destruct (bump_spec _ _ _ _ mts HI Hm) as (n & -> & HI' & Hn & _); simpl.
  assert (Hq' : quiescent (set_next n st) qs) by done.
  pose proof (inv_check_empty _ _ _ _ HI' Hq') as Hc.
  pose proof (step_ok_call _ _ _ _ _ (id, mts) (step_ok_set_next _ _ _ _ _ HI' Hq)) as Hsame.
  destruct (append_status st !! id) as [s|] eqn:Hs; simpl; cycle 1.
  { rewrite Hc; simpl. by do 2 eexists. }
  destruct (status_cases _ _ _ _ _ _ HI' Hq' Hs) as
    [(i & p & w & Hi & Hid & ->)|(g & _ & _ & _ & ->)]; cycle 1.
  { simpl. rewrite Hc; simpl. by do 2 eexists. }
  pose proof (inv_index _ _ _ _ _ _ _ HI' Hi) as Hx. simpl in Hx.
  pose proof (inv_entry _ _ _ _ HI' _ _ _ Hi) as Hent. simpl in Hent.
  destruct (has_max w) eqn:Hmax.
  { destruct w; simpl in Hent, Hmax |- *; try done; rewrite ?Hx; simpl; rewrite Hc; simpl; by do 2 eexists. }
  assert (Hst : status_of (Hash.start (phase1_queue st) + Z.of_nat i) w
                = AS_Phase1 (Hash.start (phase1_queue st) + Z.of_nat i)) by (by destruct w).
  simpl. rewrite Hst in *. rewrite Hx; simpl.
  assert (Hpm : p <= mts).
  { apply Hp1. simpl. rewrite Hst. rewrite (proj2 (rep_lookup _ _ _ w (inv_rep _ _ _ _ HI))).
    2:{ split; [lia|]. replace (Z.to_nat _) with i by lia. by rewrite list_lookup_fmap, Hi. }
    pose proof (entry_waiting_ts _ _ _ _ Hent Hmax) as <-. by destruct w. }
  destruct (finish_spec _ _ _ _ id mts _ _ _ HI' Hq' Hn Hi Hid Hmax Hpm)
    as (w' & q' & -> & Hq1 & HI1 & Hids); simpl in *.
  rewrite Hq1; simpl.
  destruct (promote_flush_spec _ _ _ _ HI1) as (res & st1 & out & st' & -> & Hc1 & Hfl & Hok).
  simpl. rewrite Hc1; simpl. exists out, st'. split; [done|].
  destruct Hok as (qs' & ? & ? & Hperm). exists qs'. split_and!; try done.
  simpl in *. by rewrite Hperm, Hids.
Qed.

(** Every call the environment may make returns and keeps the invariant. *)
Lemma exec_spec st qs hist calls ev :
  Inv st qs hist calls -> quiescent st qs -> ev_ok st ev ->
  exists out st', sk_exec ev st = Done (out, st') /\
    step_ok st qs hist calls (queued_by st ev) out st' (calls_of ev ++ calls).
Proof.
  intros HI Hq Hev. destruct ev as [id s sen t|id s t|id ts s t|id mts]; simpl app.
  - destruct (add_spec _ _ _ _ id
      (fun ts n => if sen then W_Senti ts n s t id else W_Multi ts n s t id) HI Hq Hev)
      as (r & st' & He & Hok); [by destruct sen|by destruct sen|].
    simpl. unfold add_multi_append. rewrite He; simpl. by do 2 eexists.
  - destruct (add_spec _ _ _ _ id (fun ts n => W_Snap ts n s t id) HI Hq Hev)
      as (r & st' & He & Hok); [done|done|].
    simpl. unfold add_snapshot. rewrite He; simpl. by do 2 eexists.
  - by apply exec_single_spec.
  - by apply exec_finish_spec.
Qed.

(** Reachable states satisfy the invariant, and account for every queued id. *)
Lemma reach_inv st hist calls ids :
  reach st hist calls ids ->
  exists qs, Inv st qs hist calls /\ quiescent st qs /\
    (g_get_id <$> hist) ++ pending_ids st qs ≡ₚ ids.
Proof.
  induction 1 as [|st hist calls ids ev out st' _ (qs & HI & Hq & Hids) Hev He].
  - exists []. split_and!; [apply inv_new|apply quiescent_new|done].
  - destruct (exec_spec _ _ _ _ _ HI Hq Hev) as (out' & st'' & He' & (qs' & HI' & Hq' & Hp)).
    rewrite He in He'. injection He' as <- <-. exists qs'. split_and!; try done.
    rewrite fmap_app, <- app_assoc, Hp, <- Hids. rewrite !app_assoc.
    by rewrite (Permutation_app_comm (g_get_id <$> hist)).
Qed.

End Steps.

(** ** The guarantees *)

Section Theorems.
Context `{Build} {U T MS VE : Type} `{UuidLaws U}.

Abbreviation Got := (GotMax U T MS VE).
Abbreviation State := (SkeensState U T MS VE).
Abbreviation Event := (sk_event U T MS VE).
Implicit Types (st : State) (g d : Got) (hist : list Got) (calls : list (U * Z)) (ids : list U).

Lemma held_ids_spec st qs hist calls :
  Inv st qs hist calls -> held_ids st ≡ₚ pending_ids st qs.
Proof.
  intros HI. unfold held_ids, pending_ids.
  rewrite <- (rep_values _ _ (inv_rep _ _ _ _ HI)). by rewrite <- list_fmap_compose.
Qed.

Lemma before_proper g1 g2 g1' g2' :
  g_timestamp g1 = g_timestamp g1' -> g_timestamp g2 = g_timestamp g2' ->
  g_get_id g1 = g_get_id g1' -> g_get_id g2 = g_get_id g2' ->
  is_multi g1 = is_multi g1' -> is_multi g2 = is_multi g2' -> before g1 g2 -> before g1' g2'.
Proof. unfold before, tie. by intros -> -> -> -> -> ->. Qed.

Lemma inv_before st qs hist calls i j a b :
  Inv st qs hist calls -> (i < j)%nat -> hist !! i = Some a -> hist !! j = Some b -> before a b.
Proof.
  intros HI Hij Hi Hj.
  pose proof (inv_hist _ _ _ _ HI) as Hs. rewrite <- (take_drop_middle hist i a Hi) in Hs.
  apply StronglySorted_app_iff in Hs as (_ & [_ Hs]%StronglySorted_inv & _).
  rewrite Forall_forall in Hs. apply Hs. apply (list_elem_of_lookup_2 _ (j - S i)).
  rewrite lookup_drop. by replace (S i + (j - S i))%nat with j by lia.
Qed.

(** Two histories whose final timestamps agree have their common multi-appends in one order. *)
Lemma inv_agree st1 qs1 hist1 calls1 st2 qs2 hist2 calls2 i1 j1 i2 j2 a1 b1 a2 b2 :
  Inv st1 qs1 hist1 calls1 -> Inv st2 qs2 hist2 calls2 ->
  (forall id t t', (id, t) ∈ calls1 ++ calls2 -> (id, t') ∈ calls1 ++ calls2 -> t = t') ->
  hist1 !! i1 = Some a1 -> hist1 !! j1 = Some b1 -> hist2 !! i2 = Some a2 -> hist2 !! j2 = Some b2 ->
  Forall (fun g => is_multi g = true) [a1; b1; a2; b2] ->
  g_get_id a1 = g_get_id a2 -> g_get_id b1 = g_get_id b2 ->
  (i1 < j1)%nat -> (i2 < j2)%nat.
Proof.
  intros HI1 HI2 Hsame Ha1 Hb1 Ha2 Hb2 Hm Hida Hidb Hlt.
  repeat (apply Forall_cons in Hm as [? Hm]).
  pose proof (inv_before _ _ _ _ _ _ _ _ HI1 Hlt Ha1 Hb1) as Hbef.
  assert (Hts : forall (x1 x2 : Got) k1 k2, hist1 !! k1 = Some x1 -> hist2 !! k2 = Some x2 ->
    is_multi x1 = true -> is_multi x2 = true -> g_get_id x1 = g_get_id x2 ->
    g_timestamp x1 = g_timestamp x2).
  { intros x1 x2 k1 k2 Hx1 Hx2 Hm1 Hm2 Hid. apply (Hsame (g_get_id x1)); apply elem_of_app.
    - left. eapply (inv_hist_call _ _ _ _ HI1); [by eapply list_elem_of_lookup_2|done].
    - right. rewrite Hid. eapply (inv_hist_call _ _ _ _ HI2); [by eapply list_elem_of_lookup_2|done]. }
  assert (Hbef2 : before a2 b2).
  { eapply before_proper, Hbef; eauto; congruence. }
  destruct (Nat.lt_trichotomy i2 j2) as [?|[->|Hgt]]; [done|exfalso..].
  - rewrite Ha2 in Hb2. injection Hb2 as <-. by eapply before_irrefl.
  - eapply before_asym; [apply Hbef2|]. by eapply inv_before.
Qed.

(** C2.  A chain delivers its appends in the total order of (final timestamp, multi-appends
    before single appends, id): whatever the interleaving of phase-1 and phase-2 calls, the
    history of deliveries is strictly sorted by that order. *)
Theorem delivery_sorted st hist calls ids :
  reach st hist calls ids -> StronglySorted before hist.
Proof. intros (qs & HI & _)%reach_inv. apply HI. Qed.

(** C3.  Two chains agree: if the clients send every chain of an append the same final
    timestamp, then any two multi-appends (or snapshots) that both chains deliver are delivered
    in the same relative order by both. *)
Theorem chains_agree st1 hist1 calls1 ids1 st2 hist2 calls2 ids2 i1 j1 i2 j2 a1 b1 a2 b2 :
  reach st1 hist1 calls1 ids1 -> reach st2 hist2 calls2 ids2 ->
  (forall id t t', (id, t) ∈ calls1 ++ calls2 -> (id, t') ∈ calls1 ++ calls2 -> t = t') ->
  hist1 !! i1 = Some a1 -> hist1 !! j1 = Some b1 -> hist2 !! i2 = Some a2 -> hist2 !! j2 = Some b2 ->
  Forall (fun g => is_multi g = true) [a1; b1; a2; b2] ->
  g_get_id a1 = g_get_id a2 -> g_get_id b1 = g_get_id b2 ->
  (i1 < j1)%nat -> (i2 < j2)%nat.
Proof.
  intros (qs1 & HI1 & _)%reach_inv (qs2 & HI2 & _)%reach_inv. by eapply inv_agree.
Qed.

(** C27.  No reachable state can be made to panic: whatever call the ordering thread makes next,
    no assertion, [unwrap], index or [unreachable!] of the module fires (in either build
    profile), as long as timestamps stay clear of [u64::MAX] and a final timestamp is at least
    the one this chain handed out; in particular both loops terminate. *)
Theorem skeens_no_panic st hist calls ids ev :
  reach st hist calls ids -> ev_ok st ev -> exists out st', sk_exec ev st = Done (out, st').
Proof.
  intros (qs & HI & Hq & _)%reach_inv Hev.
  destruct (exec_spec _ _ _ _ _ HI Hq Hev) as (out & st' & ? & _). eauto.
Qed.

(** C28.  Nothing is lost, duplicated or invented: the ids delivered so far together with the
    ids still held are, as a multiset, exactly the ids that were queued; and no two held
    appends share an id. *)
Theorem skeens_conservation st hist calls ids :
  reach st hist calls ids ->
  (g_get_id <$> hist) ++ held_ids st ≡ₚ ids /\ NoDup (held_ids st).
Proof.
  intros (qs & HI & Hq & Hids)%reach_inv. rewrite (held_ids_spec _ _ _ _ HI).
  split; [done|]. apply HI.
Qed.

(** C29.  Progress: once no queued append waits for its final timestamp any more, the queue and
    the heap are empty and every append ever queued has been delivered. *)
Theorem skeens_drained st hist calls ids :
  reach st hist calls ids -> (forall id i, append_status st !! id <> Some (AS_Phase1 i)) ->
  is_empty st = true /\ g_get_id <$> hist ≡ₚ ids.
Proof.
  intros (qs & HI & Hq & Hids)%reach_inv Hnone.
  destruct qs as [|[p w] qs]; cycle 1.
  { exfalso. pose proof (proj1 Hq p w eq_refl) as Hw.
    pose proof (inv_status_q _ _ _ _ HI O p w eq_refl) as Hs.
    by destruct w; simpl in Hw, Hs; try done; apply Hnone in Hs. }
  pose proof (is_empty_spec _ _ _ _ HI Hq) as He. rewrite bool_decide_eq_true_2 in He by done.
  split; [done|]. unfold is_empty in He. apply andb_true_iff in He as [_ He].
  apply bool_decide_eq_true in He. rewrite <- Hids. unfold pending_ids. rewrite He. simpl.
  by rewrite app_nil_r.
Qed.

(** Integrity of timestamps: a delivered multi-append or snapshot carries a final
    timestamp some client sent for it, and [last_flush] bounds every delivered timestamp, below
    the clock from which the next append gets its timestamp. *)
Theorem delivered_timestamp st hist calls ids d :
  reach st hist calls ids -> d ∈ hist ->
  (is_multi d = true -> (g_get_id d, g_timestamp d) ∈ calls) /\
  g_timestamp d <= last_flush st < next_timestamp st.
Proof.
  intros (qs & HI & _)%reach_inv Hd. split; [by apply (inv_hist_call _ _ _ _ HI)|].
  pose proof (inv_hist_last _ _ _ _ HI d Hd). pose proof (inv_last _ _ _ _ HI). lia.
Qed.

(** A phase-1 call for a new id takes the clock's value, which no delivery has reached,
    and the next queue index; retransmitting it gets the same timestamp back and changes
    nothing. *)
Theorem add_multi_append_new st hist calls ids id storage sentinel t :
  reach st hist calls ids -> room st -> append_status st !! id = None ->
  exists st', add_multi_append st id storage sentinel t =
      Done (SAR_NewAppend (next_timestamp st) (Hash.next (phase1_queue st)), st') /\
    next_timestamp st' = next_timestamp st + 1 /\
    (forall d, d ∈ hist -> g_timestamp d < next_timestamp st) /\
    forall storage' sentinel' t', add_multi_append st' id storage' sentinel' t' =
      Done (SAR_OldPhase1 (next_timestamp st), st').
Proof.
  intros (qs & HI & Hq & _)%reach_inv Hr Hs. unfold add_multi_append.
  set (mk := fun ts n => if sentinel then W_Senti ts n storage t id else W_Multi ts n storage t id).
  destruct (queue_append_step _ _ _ _ _ mk AS_Phase1 HI Hq Hr Hs) as
    (st' & He & (qs' & HI' & Hq' & _) & Hc & _ & Hn & _); [by destruct sentinel..|].
  exists st'. rewrite (inv_check_empty _ _ _ _ HI Hq), Hs, He; simpl. rewrite Hc; simpl.
  split_and!; try done.
  - intros d Hd. pose proof (inv_hist_last _ _ _ _ HI d Hd). pose proof (inv_last _ _ _ _ HI). lia.
  - intros storage' sentinel' t'.
    destruct (rep_push_back _ _ (mk (next_timestamp st) (Hash.next (phase1_queue st)))
      (inv_rep _ _ _ _ HI) (proj2 Hr)) as (q' & Hp & Hrep & Hstart).
    assert (Hst' : phase1_queue st' = q' /\ append_status st' !! id = Some (AS_Phase1 (Hash.next (phase1_queue st)))).
    { unfold queue_append in He. rewrite add64_ok in He
        by (pose proof (inv_next _ _ _ _ HI); unfold in_u64; destruct Hr; lia).
      simpl in He. unfold Hash.push_index in He. rewrite Hp in He. simpl in He.
      rewrite Z.eqb_refl in He. injection He as <-. simpl. by rewrite lookup_insert_eq. }
    destruct Hst' as [Hq1 ->]. simpl. rewrite Hq1, (rep_index _ _ _
      (mk (next_timestamp st) (Hash.next (phase1_queue st))) Hrep).
    + destruct sentinel; simpl; by rewrite Hc.
    + apply (rep_lookup _ _ _ _ Hrep). rewrite Hstart, (inv_next_index _ _ _ _ HI).
      split; [lia|]. rewrite lookup_app_r; rewrite length_fmap; [|lia].
      by replace (Z.to_nat _ - _)%nat with O by lia.
Qed.

(** What phase 2 answers on every branch: an unknown id is [NotWaiting] and an append
    whose timestamp is settled is a [Duplicate] with that timestamp, both leaving everything
    but the clock alone; an append in phase 1 is accepted ([Ok] or [NeedsFlush]) and settled at
    the timestamp received.  In all cases the clock ends above the timestamp received. *)
Theorem set_max_timestamp_branches st hist calls ids id mts :
  reach st hist calls ids -> ev_ok st (EvFinish id mts : Event) ->
  exists r st', set_max_timestamp st id mts = Done (r, st') /\ mts < next_timestamp st' /\
    match append_status st !! id with
    | None => r = SMR_NotWaiting /\ st' = set_next (next_timestamp st') st
    | Some (AS_Phase2 t) => r = SMR_Duplicate t /\ st' = set_next (next_timestamp st') st
    | Some (AS_Singleton i) => (exists t, r = SMR_Duplicate t) /\ st' = set_next (next_timestamp st') st
    | Some (AS_Phase1 i) =>
        r = (if bool_decide (can_flush st' = Done true) then SMR_NeedsFlush else SMR_Ok) /\
        append_status st' = <[id := AS_Phase2 mts]> (append_status st)
    end.
Proof.
  intros (qs & HI & Hq & _)%reach_inv [Hm Hp1]. unfold set_max_timestamp, phase1_timestamp in *.
  rewrite (inv_check_empty _ _ _ _ HI Hq); simpl.
  destruct (bump_spec _ _ _ _ mts HI Hm) as (n & -> & HI' & Hn & _); simpl.
  assert (Hq' : quiescent (set_next n st) qs) by done.
  pose proof (inv_check_empty _ _ _ _ HI' Hq') as Hc.
  destruct (append_status st !! id) as [s|] eqn:Hs; simpl; cycle 1.
  { rewrite Hc; simpl. by do 2 eexists. }
  destruct (status_cases _ _ _ _ _ _ HI' Hq' Hs) as
    [(i & p & w & Hi & Hid & ->)|(g & _ & _ & _ & ->)]; cycle 1.
  { simpl. rewrite Hc; simpl. by do 2 eexists. }
  pose proof (inv_index _ _ _ _ _ _ _ HI' Hi) as Hx. simpl in Hx.
  pose proof (inv_entry _ _ _ _ HI' _ _ _ Hi) as Hent. simpl in Hent.
  destruct (has_max w) eqn:Hmax.
  { destruct w; simpl in Hent, Hmax |- *; try done; rewrite ?Hx; simpl; rewrite Hc; simpl;
      do 2 eexists; split_and!; eauto. }
  assert (Hst : status_of (Hash.start (phase1_queue st) + Z.of_nat i) w
                = AS_Phase1 (Hash.start (phase1_queue st) + Z.of_nat i)) by (by destruct w).
  simpl in *. rewrite Hst in *. rewrite Hx; simpl.
  assert (Hpm : p <= mts).
  { apply Hp1. rewrite (proj2 (rep_lookup _ _ _ w (inv_rep _ _ _ _ HI))).
    2:{ split; [lia|]. replace (Z.to_nat _) with i by lia. by rewrite list_lookup_fmap, Hi. }
    pose proof (entry_waiting_ts _ _ _ _ Hent Hmax) as <-. by destruct w. }
  destruct (finish_spec _ _ _ _ id mts _ _ _ HI' Hq' Hn Hi Hid Hmax Hpm)
    as (w' & q' & -> & Hq1 & HI1 & Hids); simpl in *.
  rewrite Hq1; simpl.
  destruct (promote_spec _ _ _ _ _ HI1 (Nat.eq_le_incl _ _ (eq_trans (eq_sym (length_fmap snd _))
    (eq_sym (rep_size _ _ (inv_rep _ _ _ _ HI1)))))) as (st1 & qs1 & Hp & HI2 & Hf & _ & Hn1 & Hst1).
  unfold promote_all. rewrite Hp; simpl. pose proof (can_flush_spec _ _ _ _ HI2 Hf) as Hcf.
  destruct (can_flush st1) as [c|] eqn:Hc1; [|done]; simpl. clear Hcf.
  do 2 eexists. split_and!; [done|by rewrite Hn1| |done].
  rewrite Hc1. by destruct c.
Qed.

End Theorems.

(** ** Executable runs *)

Section Run.
Context `{Build} {U T MS VE : Type} `{UuidOps U}.

Abbreviation State := (SkeensState U T MS VE).
Abbreviation Event := (sk_event U T MS VE).

Definition ev_okb (st : State) (ev : Event) : bool :=
  let roomb := (next_timestamp st <? u64_max) && (Hash.next (phase1_queue st) <? u64_max) in
  match ev with
  | EvMulti _ _ _ _ | EvSnap _ _ _ => roomb
  | EvSingle _ timestamp _ _ => roomb && (timestamp + 1 <? u64_max)
  | EvFinish id mts =>
      (mts <? u64_max) && match phase1_timestamp st id with Some t => t <=? mts | None => true end
  end.

Lemma ev_okb_spec st ev : ev_okb st ev = true -> ev_ok st ev.
Proof.
  destruct ev; simpl; unfold room; rewrite ?andb_true_iff, ?Z.ltb_lt; try naive_solver.
  intros [? Ht]. split; [done|]. intros t' Ht'. rewrite Ht' in Ht. lia.
Qed.

(** Run a sequence of calls, with the histories [reach] keeps. *)
Fixpoint sk_run (evs : list Event) (s : State * list (GotMax U T MS VE) * list (U * Z) * list U)
    : option (State * list (GotMax U T MS VE) * list (U * Z) * list U) :=
  match evs with
  | [] => Some s
  | ev :: evs =>
      let '(st, hist, calls, ids) := s in
      if ev_okb st ev then
        match sk_exec ev st with
        | Done (out, st') =>
            sk_run evs (st', hist ++ out, calls_of ev ++ calls, queued_by st ev ++ ids)
        | Panic => None
        end
      else None
  end.

Lemma sk_run_reach evs st hist calls ids st' hist' calls' ids' :
  reach st hist calls ids -> sk_run evs (st, hist, calls, ids) = Some (st', hist', calls', ids') ->
  reach st' hist' calls' ids'.
Proof.
  revert st hist calls ids. induction evs as [|ev evs IH]; intros st hist calls ids Hr; simpl.
  { by intros [= <- <- <- <-]. }
  destruct (ev_okb st ev) eqn:Hok; [|done]. apply ev_okb_spec in Hok.
  destruct (sk_exec ev st) as [[out st1]|] eqn:He; [|done].
  apply IH. by econstructor.
Qed.

End Run.

(** Two chains that receive the appends 10 and 20 in opposite orders, each with a single append
    or a snapshot of its own in between, and the same final timestamps. *)
Module Demo.
Definition start : SkeensState Z unit unit unit * list (GotMax Z unit unit unit) * list (Z * Z) * list Z :=
  (new, [], [], []).
Definition events_a : list (sk_event Z unit unit unit) :=
  [EvMulti 10 () false (); EvSingle 30 7 () (); EvMulti 20 () true (); EvFinish 20 9; EvFinish 10 9].
Definition events_b : list (sk_event Z unit unit unit) :=
  [EvMulti 20 () true (); EvSnap 40 () (); EvMulti 10 () false ();
   EvFinish 10 9; EvFinish 40 9; EvFinish 20 9; EvMulti 50 () false (); EvMulti 50 () false ()].
Definition a := default start (sk_run (H := dev) events_a start).
Definition b := default start (sk_run (H := dev) events_b start).

Lemma a_reach : reach (H := dev) a.1.1.1 a.1.1.2 a.1.2 a.2.
Proof. eapply (sk_run_reach events_a); [apply reach_new|]. vm_compute. reflexivity. Qed.

Lemma b_reach : reach (H := dev) b.1.1.1 b.1.1.2 b.1.2 b.2.
Proof. eapply (sk_run_reach events_b); [apply reach_new|]. vm_compute. reflexivity. Qed.

Example a_delivers : g_get_id <$> a.1.1.2 = [30; 10; 20].
Proof. reflexivity. Qed.

Example b_delivers : g_get_id <$> b.1.1.2 = [10; 20; 40].
Proof. reflexivity. Qed.
End Demo.

(** ** Witnesses: the theorems at the two runs of [Demo] *)

Lemma delivery_sorted_witness :
  length Demo.b.1.1.2 = 3%nat /\ StronglySorted before Demo.b.1.1.2.
Proof. split; [reflexivity|]. eapply (delivery_sorted (H := dev)), Demo.b_reach. Defined.

Lemma chains_agree_witness :
  g_get_id <$> Demo.a.1.1.2 !! 1%nat = g_get_id <$> Demo.b.1.1.2 !! 0%nat /\ (0 < 1)%nat.
Proof.
  split; [vm_compute; reflexivity|].
  apply (chains_agree (H := dev) _ _ _ _ _ _ _ _ 1 2 0 1
    (G_Multi 9 () () 10) (G_Senti 9 () () 20) (G_Multi 9 () () 10) (G_Senti 9 () () 20)
    Demo.a_reach Demo.b_reach); [|vm_compute; reflexivity..|repeat constructor|done|done|lia].
  assert (Hall : Forall (fun c : Z * Z => c.2 = 9) (Demo.a.1.2 ++ Demo.b.1.2)).
  { vm_compute. repeat constructor. }
  rewrite Forall_forall in Hall. intros id t t' H1 H2.
  pose proof (Hall _ H1) as E1. pose proof (Hall _ H2) as E2. simpl in *. congruence.
Defined.

Lemma skeens_no_panic_witness :
  exists out st', sk_exec (H := dev) (EvFinish 50 12) Demo.b.1.1.1 = Done (out, st').
Proof.
  eapply (skeens_no_panic (H := dev) _ _ _ _ _ Demo.b_reach).
  apply ev_okb_spec. vm_compute. reflexivity.
Defined.

Lemma skeens_conservation_witness :
  held_ids Demo.b.1.1.1 = [50] /\
  (g_get_id <$> Demo.b.1.1.2) ++ held_ids Demo.b.1.1.1 ≡ₚ Demo.b.2.
Proof. split; [reflexivity|]. eapply (skeens_conservation (H := dev)), Demo.b_reach. Defined.

Lemma skeens_drained_witness :
  is_empty Demo.a.1.1.1 = true /\ g_get_id <$> Demo.a.1.1.2 ≡ₚ Demo.a.2.
Proof.
  eapply (skeens_drained (H := dev) _ _ _ _ Demo.a_reach).
  intros id i. replace (append_status Demo.a.1.1.1) with (∅ : gmap Z AppendStatus) by reflexivity.
  by rewrite lookup_empty.
Defined.

Lemma delivered_timestamp_witness :
  (10, 9) ∈ Demo.b.1.2 /\ 9 <= last_flush Demo.b.1.1.1.
Proof.
  destruct (delivered_timestamp (H := dev) _ _ _ _ (G_Multi 9 () () 10) Demo.b_reach) as [Hc Hl].
  - vm_compute. by left.
  - split; [by apply Hc|apply Hl].
Defined.

Lemma add_multi_append_new_witness :
  exists st', add_multi_append (H := dev) Demo.b.1.1.1 60 () true () = Done (SAR_NewAppend 11 4, st').
Proof.
  destruct (add_multi_append_new (H := dev) _ _ _ _ 60 () true () Demo.b_reach) as (st' & He & _).
  - split; vm_compute; reflexivity.
  - reflexivity.
  - exists st'. exact He.
Defined.

Lemma set_max_timestamp_branches_witness :
  exists st', set_max_timestamp (H := dev) Demo.b.1.1.1 50 12 = Done (SMR_NeedsFlush, st').
Proof.
  destruct (set_max_timestamp_branches (H := dev) _ _ _ _ 50 12 Demo.b_reach)
    as (r & st' & He & _ & Hr).
  - apply ev_okb_spec. vm_compute. reflexivity.
  - exists st'. rewrite He. vm_compute in He. injection He as <- _. reflexivity.
Defined.
