(* ===== verification/SkeensReplica.v ===== *)
(** * Replicas of a chain, and recovery

    A replica is told of every phase-1 append by the primary's queue index ([replicate_*_round1],
    any order) and of its final timestamp and position in the chain ([replicate_round2]);
    it hands over the finished prefix of the queue.  [rp_exec] is one such call, [rp_reach] the
    states such calls lead to together with everything delivered and received so far.  The last
    section is about the test-and-set by which clients take over an abandoned append
    ([tas_recoverer], [replicate_recoverer]). *)

From S2P Require Import Prelude DequeMap Skeens SkeensInv.
From stdpp Require Import base gmap list fin_maps.
From Stdlib Require Import ZArith Lia.

Open Scope Z_scope.

Section Replica.
Context `{Build} {U T MS VE : Type} `{UuidOps U}.

Abbreviation Waiting := (WaitingForMax U T MS VE).
Abbreviation Replicated := (ReplicatedSkeens T MS VE).
Abbreviation State := (SkeensState U T MS VE).
Implicit Types (st : State) (w : Waiting) (r : Replicated).

Inductive rp_event :=
| RpSingle (timestamp node_num : Z) (id : U) (storage : VE) (t : T)
| RpMulti (timestamp node_num : Z) (id : U) (storage : MS) (sentinel : bool) (t : T)
| RpSnap (timestamp node_num : Z) (id : U) (storage : MS) (t : T)
| RpRound2 (id : U) (max_timestamp index : Z).

Implicit Types (ev : rp_event) (log : list rp_event) (dels : list Replicated).

Definition rp_exec ev st : outcome (list Replicated * State) :=
  match ev with
  | RpSingle ts n id s t => r ← replicate_single_append_round1 st ts n id s t; Done ([], r.2)
  | RpMulti ts n id s sen t => r ← replicate_multi_append_round1 st ts n id s sen t; Done ([], r.2)
  | RpSnap ts n id s t => r ← replicate_snapshot_round1 st ts n id s t; Done ([], r.2)
  | RpRound2 id mts index => replicate_round2 st id mts index
  end.

(** The timestamp check of [replicate_max_timetamp], and its refusal of entries that are
    already final. *)
Definition may_replicate w (mts : Z) : bool :=
  match w with
  | W_SimpleSingle ts _ _ _ _ => mts =? ts
  | W_Multi ts _ _ _ _ | W_Senti ts _ _ _ _ | W_Snap ts _ _ _ _ => ts <=? mts
  | _ => false
  end.

Definition round1_ok st (ts n : Z) (id : U) : bool :=
  (Hash.start (phase1_queue st) <=? n) && (n <? u64_max) && (ts <? u64_max) &&
  (negb (bool_decide (append_status st !! id = None))
   || match Hash.data (phase1_queue st) !! n with None => true | Some _ => false end).

(** What the primary guarantees: queue indices that are not delivered yet and, for a new id,
    unused; one final timestamp per append, not below the phase-1 one. *)
Definition rp_ok st ev : bool :=
  match ev with
  | RpSingle ts n id _ _ | RpMulti ts n id _ _ _ | RpSnap ts n id _ _ => round1_ok st ts n id
  | RpRound2 id mts _ =>
      (mts <? u64_max) &&
      match append_status st !! id with
      | Some (AS_Phase1 i) | Some (AS_Singleton i) =>
          match Hash.data (phase1_queue st) !! i with
          | Some w => may_replicate w mts
          | None => true
          end
      | _ => true
      end
  end.

(** [rp_reach st dels log]: a fresh replica that received [log] (latest first) has delivered
    [dels] and is in state [st]. *)
Inductive rp_reach : State -> list Replicated -> list rp_event -> Prop :=
| rp_reach_new : rp_reach new [] []
| rp_reach_step st dels log ev out st' :
    rp_reach st dels log -> rp_ok st ev = true -> rp_exec ev st = Done (out, st') ->
    rp_reach st' (dels ++ out) (ev :: log).

(** The entry at queue index [k] is what round 1 (and round 2) said. *)
Definition rentry_ok log (k : Z) w : Prop :=
  match w with
  | W_SimpleSingle ts n s t id => n = k /\ RpSingle ts k id s t ∈ log
  | W_Multi ts n s t id => n = k /\ RpMulti ts k id s false t ∈ log
  | W_Senti ts n s t id => n = k /\ RpMulti ts k id s true t ∈ log
  | W_Snap ts n s t id => n = k /\ RpSnap ts k id s t ∈ log
  | W_ReplicatedSingle mts i s t id => RpSingle mts k id s t ∈ log /\ RpRound2 id mts i ∈ log
  | W_ReplicatedMulti mts i s t id => RpRound2 id mts i ∈ log /\
      exists ts, ts <= mts /\ RpMulti ts k id s false t ∈ log
  | W_ReplicatedSenti mts i s t id => RpRound2 id mts i ∈ log /\
      exists ts, ts <= mts /\ RpMulti ts k id s true t ∈ log
  | W_ReplicatedSnap mts i s t id => RpRound2 id mts i ∈ log /\
      exists ts, ts <= mts /\ RpSnap ts k id s t ∈ log
  | _ => False
  end.

(** [r] is the append of queue index [k], with the final timestamp and chain position round 2
    announced for its id. *)
Definition delivered_ok log (k : Z) r : Prop :=
  match r with
  | RS_Single i s mts t => exists id, RpSingle mts k id s t ∈ log /\ RpRound2 id mts i ∈ log
  | RS_Multi i s mts t => exists id ts, RpMulti ts k id s false t ∈ log /\ ts <= mts /\
      RpRound2 id mts i ∈ log
  | RS_Senti i s mts t => exists id ts, RpMulti ts k id s true t ∈ log /\ ts <= mts /\
      RpRound2 id mts i ∈ log
  | RS_Snap i s mts t => exists id ts, RpSnap ts k id s t ∈ log /\ ts <= mts /\
      RpRound2 id mts i ∈ log
  end.

Definition status_at (s : AppendStatus) (k : Z) : Prop := s = AS_Phase1 k \/ s = AS_Singleton k.

Record RInv st dels log : Prop := {
  r_wf : Hash.wf (phase1_queue st);
  r_next : 0 <= next_timestamp st;
  r_heap : got_max_timestamp st = [];
  r_start : Hash.start (phase1_queue st) = Z.of_nat (length dels);
  r_entry : forall k w, Hash.data (phase1_queue st) !! k = Some w ->
    rentry_ok log k w /\
    exists s, append_status st !! w_get_id w = Some s /\ status_at s k;
  r_status : forall id s, append_status st !! id = Some s ->
    exists k w, status_at s k /\ Hash.data (phase1_queue st) !! k = Some w /\ w_get_id w = id;
  r_dels : forall k r, dels !! k = Some r -> delivered_ok log (Z.of_nat k) r;
}.

(** Nothing deliverable is left at the front. *)
Definition r_quiet st : Prop :=
  forall w, Hash.front (phase1_queue st) = Some w -> has_replication w = false.

Lemma rinv_new : RInv new [] [].
Proof.
  constructor; simpl; try done; try (by intros *; rewrite lookup_empty).
Qed.

Lemma rentry_ok_mono log ev k w : rentry_ok log k w -> rentry_ok (ev :: log) k w.
Proof. destruct w; simpl; try done; set_solver. Qed.

Lemma delivered_ok_mono log ev k r : delivered_ok log k r -> delivered_ok (ev :: log) k r.
Proof. destruct r; simpl; set_solver. Qed.

Lemma rinv_log st dels log ev : RInv st dels log -> RInv st dels (ev :: log).
Proof.
  intros HI. constructor; try apply HI.
  - intros k w Hk. destruct (r_entry _ _ _ HI k w Hk). split; [by apply rentry_ok_mono|done].
  - intros k r Hk. by apply delivered_ok_mono, (r_dels _ _ _ HI).
Qed.

Lemma rinv_set_next st dels log n : RInv st dels log -> 0 <= n -> RInv (set_next n st) dels log.
Proof. intros HI Hn. constructor; try apply HI. done. Qed.

Lemma bump_done st ts :
  0 <= next_timestamp st -> ts < u64_max -> exists n, bump st ts = Done (set_next n st) /\ 0 <= n.
Proof.
  intros H0' Hts. unfold bump. case_match eqn:E; [|exists (next_timestamp st); by destruct st].
  rewrite add64_ok by (unfold in_u64; lia). simpl. eexists; split; [done|lia].
Qed.

Lemma rcheck_empty st dels log : RInv st dels log -> check_empty st = Done tt.
Proof.
  intros HI. apply debug_assert_true. rewrite (r_heap _ _ _ HI).
  by rewrite implb_true_r.
Qed.

(** Two queued entries with the same id are the same entry. *)
Lemma rinv_id_unique st dels log k1 k2 w1 w2 :
  RInv st dels log -> Hash.data (phase1_queue st) !! k1 = Some w1 ->
  Hash.data (phase1_queue st) !! k2 = Some w2 -> w_get_id w1 = w_get_id w2 -> k1 = k2.
Proof.
  intros HI H1 H2 Hid. destruct (r_entry _ _ _ HI _ _ H1) as [_ (s1 & Hs1 & Ha1)].
  destruct (r_entry _ _ _ HI _ _ H2) as [_ (s2 & Hs2 & Ha2)].
  rewrite Hid, Hs2 in Hs1. injection Hs1 as ->. unfold status_at in *. naive_solver.
Qed.

(** Round 1, for an entry [w] that says what its event said. *)
Lemma round1_spec st dels log ts n id w status ev :
  RInv st dels log -> r_quiet st -> round1_ok st ts n id = true ->
  w_get_id w = id -> status_at status n -> has_replication w = false ->
  rentry_ok (ev :: log) n w ->
  exists b st', replicate_append_round1 st ts n id w status = Done (b, st') /\
    RInv st' dels (ev :: log) /\ r_quiet st'.
Proof.
  intros HI Hq Hok Hid Hst Hrep Hw. unfold replicate_append_round1, Hash.start_index.
  unfold round1_ok in Hok. rewrite !andb_true_iff, orb_true_iff in Hok.
  destruct Hok as [[[Hstart Hn] Hts] Hfree]. rewrite Hstart; simpl.
  destruct (bump_done st ts (r_next _ _ _ HI)) as (m & -> & Hm); [lia|]; simpl.
  apply (rinv_log _ _ _ ev) in HI. apply (rinv_set_next _ _ _ m) in HI; [|done].
  destruct (append_status st !! id) as [s|] eqn:Hs; [by do 2 eexists|].
  assert (Hnone : Hash.data (phase1_queue st) !! n = None).
  { destruct Hfree as [Hf%negb_true_iff%bool_decide_eq_false|Hf]; [done|]. by destruct (Hash.data (phase1_queue st) !! n). }
  destruct (r_wf _ _ _ HI) as (H1 & H2 & H3 & H4); simpl in *.
  unfold Hash.insert. rewrite (proj2 (Z.ltb_ge n (Hash.min _))) by lia.
  rewrite (proj2 (Z.ltb_ge n (Hash.start _))) by lia.
  assert (exists nx, (if Hash.next (phase1_queue st) <=? n then add64 n 1
    else Done (Hash.next (phase1_queue st))) = Done nx /\ nx <= u64_max /\ n < nx /\
    Hash.next (phase1_queue st) <= nx) as (nx & -> & Hnx1 & Hnx2 & Hnx3).
  { destruct (Z.leb_spec (Hash.next (phase1_queue st)) n) as [Hle|Hlt].
    - exists (n + 1). rewrite add64_ok by (unfold in_u64; lia). split; [done|lia].
    - exists (Hash.next (phase1_queue st)). split; [done|lia]. }
  simpl. rewrite Hnone; simpl. do 2 eexists. split; [done|]. split; cycle 1.
  { intros w'. unfold Hash.front; simpl.
    intros [[_ <-]|[_ Hf]]%lookup_insert_Some; [done|by apply Hq]. }
  constructor; simpl; try apply HI.
  - unfold Hash.wf; simpl. split_and!; try lia.
    intros k v [[<- _]|[_ Hk%H4]]%lookup_insert_Some; lia.
  - intros k w' [[<- <-]|[Hne Hk]]%lookup_insert_Some.
    + split; [done|]. exists status. by rewrite Hid, lookup_insert_eq.
    + destruct (r_entry _ _ _ HI k w' Hk) as [He (s' & Hs' & Ha)]. split; [done|].
      exists s'. split; [|done]. rewrite lookup_insert_ne; [done|]. intros ->.
      simpl in Hs'. by rewrite Hs in Hs'.
  - intros id' s' [[<- <-]|[Hne Hs']]%lookup_insert_Some.
    + exists n, w. by rewrite lookup_insert_eq.
    + destruct (r_status _ _ _ HI id' s' Hs') as (k & w' & Ha & Hk & Hid').
      exists k, w'. split_and!; try done. rewrite lookup_insert_ne; [done|]. intros ->.
      simpl in Hk. by rewrite Hnone in Hk.
Qed.

(** Taking a finished entry off the front. *)
Lemma replica_pop_spec st dels log w :
  RInv st dels log -> Hash.front (phase1_queue st) = Some w -> has_replication w = true ->
  exists q' r, Hash.pop_front (phase1_queue st) = Done (Some w, q') /\
    to_replica w = Done (w_get_id w, r) /\ is_Some (append_status st !! w_get_id w) /\
    RInv (set_status (delete (w_get_id w) (append_status st)) (set_queue q' st)) (dels ++ [r]) log /\
    size (Hash.data (phase1_queue st)) = S (size (Hash.data q')).
Proof.
  intros HI Hf Hrep. unfold Hash.front in Hf. unfold Hash.pop_front, Hash.is_empty.
  rewrite bool_decide_eq_false_2 by (intros E; by rewrite E, lookup_empty in Hf).
  destruct (r_wf _ _ _ HI) as (H1 & H2 & H3 & H4). pose proof (H4 _ _ Hf) as Hlt.
  rewrite add64_ok by (unfold in_u64; lia). rewrite Hf; simpl.
  destruct (r_entry _ _ _ HI _ _ Hf) as [He (s & Hs & Ha)].
  assert (exists r, to_replica w = Done (w_get_id w, r) /\
    delivered_ok log (Hash.start (phase1_queue st)) r) as (r & Hr & Hd).
  { destruct w; simpl in *; try done; eexists; (split; [done|]); simpl; naive_solver. }
  do 2 eexists. split_and!; try done.
  2:{ simpl. rewrite map_size_delete, Hf. simpl.
      assert (size (Hash.data (phase1_queue st)) <> O); [|lia].
      apply map_size_non_empty_iff. intros E. by rewrite E, lookup_empty in Hf. }
  pose proof (r_start _ _ _ HI) as Hst.
  constructor; simpl; try apply HI.
  - unfold Hash.wf; simpl. split_and!; try lia.
    intros k v [Hne Hk%H4]%lookup_delete_Some. lia.
  - rewrite length_app; simpl. lia.
  - intros k w' [Hne Hk]%lookup_delete_Some. destruct (r_entry _ _ _ HI _ _ Hk) as [He' (s' & Hs' & Ha')].
    split; [done|]. exists s'. split; [|done]. rewrite lookup_delete_ne; [done|].
    intros E. apply Hne. by eapply rinv_id_unique.
  - intros id s' [Hne Hs']%lookup_delete_Some.
    destruct (r_status _ _ _ HI _ _ Hs') as (k & w' & Ha' & Hk & Hid').
    exists k, w'. split_and!; try done. rewrite lookup_delete_ne; [done|]. intros E.
    subst k. rewrite Hf in Hk. by injection Hk as <-.
  - intros k r' [Hk|[-> ->]]%lookup_snoc_Some_inv; [by apply (r_dels _ _ _ HI)|].
    by rewrite <- Hst.
Qed.

Lemma replica_flush_spec fuel st dels log :
  RInv st dels log -> (size (Hash.data (phase1_queue st)) <= fuel)%nat ->
  exists out st', replica_flush fuel st = Done (out, st') /\ RInv st' (dels ++ out) log /\
    r_quiet st'.
Proof.
  revert st dels. induction fuel as [|fuel IH]; intros st dels HI Hsz; simpl;
    destruct (Hash.front (phase1_queue st)) as [w|] eqn:Hf;
    try destruct (has_replication w) eqn:Hrep;
    try (exists [], st; rewrite app_nil_r; split_and!; try done; intros w'; rewrite Hf;
         try done; by intros [= <-]);
    destruct (replica_pop_spec _ _ _ _ HI Hf Hrep) as (q' & r & Hp & Hr & Hs & HI' & Hsz').
  - lia.
  - rewrite Hp; simpl. rewrite Hr; simpl.
    rewrite debug_assert_true by (by apply bool_decide_eq_true). simpl.
    destruct (IH _ _ HI') as (out & st' & -> & HI'' & Hq); [simpl; lia|].
    simpl. do 2 eexists. split; [done|]. split; [|done]. by rewrite <- app_assoc in HI''.
Qed.

(** Recording the final timestamp of the entry at [k]. *)
Lemma replicate_mark_spec log k w id mts index :
  rentry_ok log k w -> w_get_id w = id -> may_replicate w mts = true ->
  exists w', w_replicate_max_timestamp w mts index id = Done w' /\ w_get_id w' = id /\
    rentry_ok (RpRound2 id mts index :: log) k w'.
Proof.
  intros He <- Hm. destruct w; simpl in *; try done; rewrite ?Hm; simpl;
    rewrite debug_assert_true by (by apply bool_decide_eq_true); simpl; rewrite ?Hm; simpl;
    eexists; (split; [done|]); simpl; (split; [done|]).
  1: apply Z.eqb_eq in Hm as ->.
  all: try apply Z.leb_le in Hm; destruct He as [_ He]; set_solver.
Qed.

Lemma round2_spec st dels log id mts index :
  RInv st dels log -> r_quiet st -> rp_ok st (RpRound2 id mts index) = true ->
  exists out st', replicate_round2 st id mts index = Done (out, st') /\
    RInv st' (dels ++ out) (RpRound2 id mts index :: log) /\ r_quiet st'.
Proof.
  intros HI Hq Hok. simpl in Hok. apply andb_true_iff in Hok as [Hm Hok].
  unfold replicate_round2. pose proof (rinv_log _ _ _ (RpRound2 id mts index) HI) as HIl.
  destruct (append_status st !! id) as [s|] eqn:Hs; cycle 1.
  { do 2 eexists. rewrite app_nil_r. by split_and!. }
  destruct (r_status _ _ _ HI _ _ Hs) as (k & w & Ha & Hk & Hid).
  destruct (bump_done st mts (r_next _ _ _ HI)) as (m & Hb & Hm0); [lia|].
  assert (Hok' : may_replicate w mts = true).
  { destruct Ha as [-> | ->]; simpl in Hok; by rewrite Hk in Hok. }
  destruct (replicate_mark_spec _ _ _ _ _ index (proj1 (r_entry _ _ _ HI _ _ Hk)) Hid Hok')
    as (w' & Hw' & Hid' & He').
  set (q' := Hash.mkDeque (<[k := w']> (Hash.data (phase1_queue st))) (Hash.start (phase1_queue st))
               (Hash.next (phase1_queue st)) (Hash.min (phase1_queue st))).
  assert (Hget : Hash.get_mut (phase1_queue st) k
    (fun w => w_replicate_max_timestamp w mts index id) = Done (Some w', q')).
  { unfold Hash.get_mut. rewrite (hash_wf_get _ _ (r_wf _ _ _ HI)), Hk; simpl. by rewrite Hw'. }
  assert (HI' : RInv (set_queue q' (set_next m st)) dels (RpRound2 id mts index :: log)).
  { destruct (r_wf _ _ _ HI) as (H1 & H2 & H3 & H4). constructor; simpl; try apply HIl; try done.
    - unfold Hash.wf; simpl. split_and!; try lia.
      intros k' v [[<- _]|[_ Hk'%H4]]%lookup_insert_Some; [by apply H4 in Hk|lia].
    - intros k' v [[<- <-]|[_ Hk']]%lookup_insert_Some; [|by apply (r_entry _ _ _ HIl)].
      split; [done|]. exists s. by rewrite Hid'.
    - intros id' s' Hs'. destruct (r_status _ _ _ HI _ _ Hs') as (k' & v & Ha' & Hk' & Hv).
      destruct (decide (k' = k)) as [->|Hne].
      + exists k, w'. rewrite lookup_insert_eq. split_and!; try done. congruence.
      + exists k', v. by rewrite lookup_insert_ne. }
  assert (Hbody : exists out st', (st ← bump st mts;
      r ← Hash.get_mut (phase1_queue st) k (fun w => w_replicate_max_timestamp w mts index id);
      let st := set_queue r.2 st in
      if negb (k =? Hash.start_index (phase1_queue st)) then Done ([], st)
      else replica_flush (size (Hash.data (phase1_queue st))) st) = Done (out, st') /\
    RInv st' (dels ++ out) (RpRound2 id mts index :: log) /\ r_quiet st').
  { rewrite Hb; simpl. rewrite Hget; simpl. unfold Hash.start_index; simpl.
    destruct (Z.eqb_spec k (Hash.start (phase1_queue st))) as [Hks|Hne]; simpl.
    - by apply replica_flush_spec.
    - do 2 eexists. rewrite app_nil_r. split; [done|]. split; [done|].
      intros v. unfold Hash.front; simpl. rewrite lookup_insert_ne by done. apply Hq. }
  by destruct Ha as [-> | ->].
Qed.

Lemma rp_exec_spec st dels log ev :
  RInv st dels log -> r_quiet st -> rp_ok st ev = true ->
  exists out st', rp_exec ev st = Done (out, st') /\ RInv st' (dels ++ out) (ev :: log) /\ r_quiet st'.
Proof.
  intros HI Hq Hok. destruct ev as [ts n id s t|ts n id s sen t|ts n id s t|id mts i];
    [..|by apply round2_spec]; simpl;
    unfold replicate_single_append_round1, replicate_multi_append_round1, replicate_snapshot_round1;
    rewrite ?(rcheck_empty _ _ _ HI); simpl.
  - destruct (round1_spec st dels log ts n id (W_SimpleSingle ts n s t id) (AS_Singleton n)
      (RpSingle ts n id s t) HI Hq Hok) as (b & st' & -> & HI' & Hq'); try done.
    + by right.
    + split; [done|by left].
    + do 2 eexists. rewrite app_nil_r. by split_and!.
  - destruct (round1_spec st dels log ts n id
      (if sen then W_Senti ts n s t id else W_Multi ts n s t id) (AS_Phase1 n)
      (RpMulti ts n id s sen t) HI Hq Hok) as (b & st' & -> & HI' & Hq');
      [by destruct sen|by left|by destruct sen| |].
    + destruct sen; (split; [done|by left]).
    + do 2 eexists. rewrite app_nil_r. by split_and!.
  - destruct (round1_spec st dels log ts n id (W_Snap ts n s t id) (AS_Phase1 n)
      (RpSnap ts n id s t) HI Hq Hok) as (b & st' & -> & HI' & Hq'); try done.
    + by left.
    + split; [done|by left].
    + do 2 eexists. rewrite app_nil_r. by split_and!.
Qed.

Lemma rp_reach_inv st dels log : rp_reach st dels log -> RInv st dels log /\ r_quiet st.
Proof.
  induction 1 as [|st dels log ev out st' _ [HI Hq] Hok He].
  - split; [apply rinv_new|done].
  - destruct (rp_exec_spec _ _ _ _ HI Hq Hok) as (out' & st'' & He' & ? & ?).
    rewrite He in He'. by injection He' as <- <-.
Qed.

(** C30.  A replica delivers in the primary's queue order, without gaps or repetitions: its
    [k]-th delivery is the append that round 1 announced at queue index [k], with that append's
    data, and with the final timestamp and chain position that round 2 announced for its id. *)
Theorem replica_delivers_in_queue_order st dels log k r :
  rp_reach st dels log -> dels !! k = Some r -> delivered_ok log (Z.of_nat k) r.
Proof. intros [HI _]%rp_reach_inv. apply (r_dels _ _ _ HI). Qed.

(** No message a primary may send makes a replica panic, and the flushing loop ends. *)
Theorem replica_no_panic st dels log ev :
  rp_reach st dels log -> rp_ok st ev = true -> exists out st', rp_exec ev st = Done (out, st').
Proof.
  intros [HI Hq]%rp_reach_inv Hok.
  destruct (rp_exec_spec _ _ _ _ HI Hq Hok) as (out & st' & ? & _). eauto.
Qed.

(** A replica never sits on a deliverable append: the entry after the last one delivered,
    if it has arrived, still lacks its final timestamp; and every id the replica remembers has
    exactly one queued entry, so a replica without known ids has an empty queue. *)
Theorem replica_prompt st dels log :
  rp_reach st dels log ->
  (forall w, Hash.data (phase1_queue st) !! Z.of_nat (length dels) = Some w ->
     has_replication w = false) /\
  (append_status st = ∅ -> Hash.data (phase1_queue st) = ∅) /\
  dom (append_status st) ≡ list_to_set (w_get_id <$> (map_to_list (Hash.data (phase1_queue st))).*2) (C := gset U).
Proof.
  intros [HI Hq]%rp_reach_inv. split_and!.
  - rewrite <- (r_start _ _ _ HI). apply Hq.
  - intros Hs. apply map_empty. intros k. apply eq_None_not_Some. intros [w Hw].
    destruct (r_entry _ _ _ HI _ _ Hw) as [_ (s & Hs' & _)]. by rewrite Hs, lookup_empty in Hs'.
  - intros id. rewrite elem_of_dom, elem_of_list_to_set, list_elem_of_fmap. split.
    + intros [s Hs]. destruct (r_status _ _ _ HI _ _ Hs) as (k & w & _ & Hk & <-).
      exists w. split; [done|]. apply list_elem_of_fmap. exists (k, w).
      by rewrite elem_of_map_to_list.
    + intros (w & -> & ([k w'] & -> & Hk)%list_elem_of_fmap). apply elem_of_map_to_list in Hk.
      destruct (r_entry _ _ _ HI _ _ Hk) as [_ (s & Hs & _)]. by eexists.
Qed.

(** Run a sequence of replication messages. *)
Fixpoint rp_run (evs : list rp_event) (s : State * list Replicated * list rp_event)
    : option (State * list Replicated * list rp_event) :=
  match evs with
  | [] => Some s
  | ev :: evs =>
      let '(st, dels, log) := s in
      if rp_ok st ev then
        match rp_exec ev st with
        | Done (out, st') => rp_run evs (st', dels ++ out, ev :: log)
        | Panic => None
        end
      else None
  end.

Lemma rp_run_reach evs st dels log st' dels' log' :
  rp_reach st dels log -> rp_run evs (st, dels, log) = Some (st', dels', log') ->
  rp_reach st' dels' log'.
Proof.
  revert st dels log. induction evs as [|ev evs IH]; intros st dels log Hr; simpl.
  { by intros [= <- <- <-]. }
  destruct (rp_ok st ev) eqn:Hok; [|done].
  destruct (rp_exec ev st) as [[out st1]|] eqn:He; [|done].
  apply IH. by econstructor.
Qed.

End Replica.
Arguments rp_event : clear implicits.

(** ** Recovery *)

Section Recovery.
Context `{Build} {U T MS VE : Type} `{UuidOps U}.
Abbreviation State := (SkeensState U T MS VE).
Implicit Types (st : State) (r : U * list OrderIndex).

(** At most one client takes over from a given predecessor: once a test-and-set that
    names [old] has succeeded, every later one that names [old] fails, is told the winner, and
    changes nothing. *)
Theorem tas_recoverer_single_winner st write_id r1 r2 old n st1 :
  tas_recoverer st write_id r1 old = Done (inr n, st1) -> old <> Some r1.1 ->
  tas_recoverer st1 write_id r2 old = Done (inl (Some r1.1), st1).
Proof.
  destruct r1 as [c1 locs1]. unfold tas_recoverer. intros Ht Hne.
  destruct (recovering st !! write_id) as [[m [cur locs]]|] eqn:E, old as [o|]; try done.
  - case_bool_decide; [|done]. apply bind_done in Ht as (m' & _ & [= <- <-]).
    simpl. rewrite lookup_insert_eq. by rewrite bool_decide_eq_false_2 by (simpl in *; congruence).
  - injection Ht as <- <-. simpl. by rewrite lookup_insert_eq.
Qed.

(** Replicating a takeover keeps a replica's recovery table equal to the primary's: a
    successful test-and-set, replicated with the index it returned, is accepted by a replica
    that was in step, and leaves it in step. *)
Theorem recoverer_replication_follows st write_id r old n st' (rst : State) :
  (forall w m x, recovering st !! w = Some (m, x) -> 0 <= m < u64_max) ->
  recovering rst = recovering st -> tas_recoverer st write_id r old = Done (inr n, st') ->
  exists rst', replicate_recoverer rst write_id r n = (inr tt, rst') /\
    recovering rst' = recovering st'.
Proof.
  intros Hm Hrec. unfold tas_recoverer, replicate_recoverer. rewrite Hrec.
  destruct (recovering st !! write_id) as [[m [cur locs]]|] eqn:E, old as [o|]; try done.
  - case_bool_decide; [|done]. apply Hm in E. rewrite add64_ok by (unfold in_u64; lia).
    simpl. intros [= <- <-]. rewrite (proj2 (Z.ltb_lt _ _)) by lia. by eexists.
  - intros [= <- <-]. by eexists.
Qed.

(** Replicated takeovers commute: a replica that receives two of them with distinct
    indices, in either order, ends in the same state (the later takeover wins). *)
Theorem replicate_recoverer_commute st write_id r1 r2 n1 n2 :
  n1 <> n2 ->
  (replicate_recoverer (replicate_recoverer st write_id r1 n1).2 write_id r2 n2).2 =
  (replicate_recoverer (replicate_recoverer st write_id r2 n2).2 write_id r1 n1).2.
Proof.
  intros Hne. destruct r1 as [c1 l1], r2 as [c2 l2]. unfold replicate_recoverer.
  destruct (recovering st !! write_id) as [[m [cur locs]]|] eqn:E; simpl;
    [destruct (Z.ltb_spec m n1), (Z.ltb_spec m n2)|destruct (Z.ltb_spec n1 n2)];
    simpl; rewrite ?lookup_insert_eq, ?E; simpl;
    repeat match goal with |- context [?a <? ?b] => destruct (Z.ltb_spec a b) end;
    try lia; unfold set_recovering; simpl; by rewrite ?insert_insert_eq.
Qed.

End Recovery.

(** ** Witnesses *)

Module ReplicaDemo.
(** The second append arrives first, and is final first. *)
Definition events : list (rp_event Z unit unit unit) :=
  [RpMulti 2 1 20 () true (); RpSingle 1 0 30 () (); RpRound2 20 5 8; RpRound2 30 1 7;
   RpSnap 6 2 40 () (); RpMulti 2 1 99 () true ()].
Definition start : SkeensState Z unit unit unit * list (ReplicatedSkeens unit unit unit) *
    list (rp_event Z unit unit unit) := (new, [], []).
Definition run := default start (rp_run (H := dev) (firstn 5 events) start).

Lemma run_reach : rp_reach (H := dev) run.1.1 run.1.2 run.2.
Proof. eapply (rp_run_reach (firstn 5 events)); [apply rp_reach_new|]. vm_compute. reflexivity. Qed.

Example run_delivers : run.1.2 = [RS_Single 7 () 1 (); RS_Senti 8 () 5 ()].
Proof. reflexivity. Qed.

(** A second round 2 for an entry that cannot be flushed yet aborts the replica
    ([unreachable!] in [replicate_max_timetamp]). *)
Example duplicate_round2_panics :
  (r ← rp_exec (H := release) (RpMulti 2 1 20 () true ()) (new : SkeensState Z unit unit unit);
   r ← rp_exec (H := release) (RpRound2 20 5 8) r.2;
   rp_exec (H := release) (RpRound2 20 5 8) r.2) = Panic.
Proof. reflexivity. Qed.
End ReplicaDemo.

Lemma replica_delivers_in_queue_order_witness :
  exists id ts, RpMulti ts 1 id () true () ∈ ReplicaDemo.run.2 /\ ts <= 5 /\
    RpRound2 id 5 8 ∈ ReplicaDemo.run.2.
Proof.
  apply (replica_delivers_in_queue_order (H := dev) _ _ _ 1 (RS_Senti 8 () 5 ()) ReplicaDemo.run_reach).
  vm_compute. reflexivity.
Defined.

Lemma replica_no_panic_witness :
  exists out st', rp_exec (H := dev) (RpRound2 40 6 9) ReplicaDemo.run.1.1 = Done (out, st').
Proof.
  apply (replica_no_panic (H := dev) _ _ _ _ ReplicaDemo.run_reach). vm_compute. reflexivity.
Defined.

Lemma replica_prompt_witness :
  Hash.data (phase1_queue ReplicaDemo.run.1.1) !! 2 = Some (W_Snap 6 2 () () 40) /\
  has_replication (W_Snap 6 2 () () 40 : WaitingForMax Z unit unit unit) = false.
Proof.
  split; [vm_compute; reflexivity|].
  apply (proj1 (replica_prompt (H := dev) _ _ _ ReplicaDemo.run_reach)). vm_compute. reflexivity.
Defined.

Lemma tas_recoverer_single_winner_witness :
  exists st1 : SkeensState Z unit unit unit,
    tas_recoverer (H := dev) new 5 (7, []) None = Done (inr 1, st1) /\
    tas_recoverer (H := dev) st1 5 (8, []) None = Done (inl (Some 7), st1).
Proof.
  eexists. split; [reflexivity|].
  apply (tas_recoverer_single_winner (H := dev) (T := unit) (MS := unit) (VE := unit)
    new 5 (7, []) (8, []) None 1 _ eq_refl). done.
Defined.

Lemma recoverer_replication_follows_witness :
  exists rst' : SkeensState Z unit unit unit,
    replicate_recoverer new 5 (7, []) 1 = (inr tt, rst').
Proof.
  destruct (recoverer_replication_follows (H := dev) (T := unit) (MS := unit) (VE := unit)
    new 5 (7, []) None 1 (set_recovering (<[5 := (1, (7, []))]> ∅) new) new) as (rst' & He & _).
  - intros w m x. simpl. by rewrite lookup_empty.
  - done.
  - reflexivity.
  - exists rst'. exact He.
Defined.

Lemma replicate_recoverer_commute_witness :
  (replicate_recoverer (replicate_recoverer (new : SkeensState Z unit unit unit) 5 (7, []) 1).2 5 (8, []) 2).2
  = (replicate_recoverer (replicate_recoverer new 5 (8, []) 2).2 5 (7, []) 1).2.
Proof. apply replicate_recoverer_commute. lia. Defined.
