(* ===== verification/RangeMap.v ===== *)
(** * Maps keyed by ranges: what both range trees of the program share

    [fuzzy_log_util/src/range_tree.rs] and [fuzzy_log_client/src/fuzzy_log/range_tree.rs] keep
    a [BTreeMap] whose keys are closed ranges of [u64], ordered by "entirely below", so that
    overlapping ranges compare equal and a point looks up the range that contains it.  Here:
    the [Range] type with its methods, the [BTreeMap] operations used on it, the merging of a
    range with its neighbours, and the theory of maps that tile an interval ([tiles]), their
    pointwise meaning ([holds]), weights ([wsum]) and compactness. *)

From S2P Require Import Prelude.
From stdpp Require Import base sets list.
From Stdlib Require Import ZArith Lia.

Open Scope Z_scope.

(** ** [struct Range] *)

Record Range := mkRange { first : Z; last : Z }.

#[export] Instance Range_struct_eq_dec : EqDecision Range.
Proof. solve_decision. Defined.

Definition range_new (f l : Z) : outcome Range :=
  _ ← assert_ (f <=? l); Done (mkRange f l).

Definition point (p : Z) : Range := mkRange p p.

(** [impl Ord for Range] (and [PartialEq], which is [cmp == Equal]). *)
Definition range_cmp (my other : Range) : comparison :=
  match Z.compare (first my) (last other), Z.compare (last my) (first other) with
  | _, Lt => Lt
  | Gt, _ => Gt
  | _, _ => Eq
  end.

Section RangeOps.
Context `{Build}.

Definition merge_with_next (self next : Range) : outcome Range :=
  _ ← (if debug_assertions then n ← add64 (last self) 1; assert_ (n =? first next) else Done tt);
  Done (mkRange (first self) (last next)).

Definition merge_with_prior (self prior : Range) : outcome Range :=
  _ ← (if debug_assertions then n ← add64 (last prior) 1; assert_ (n =? first self) else Done tt);
  Done (mkRange (first prior) (last self)).

Definition split_at (self : Range) (p : Z) : outcome (option Range * option Range) :=
  match Z.compare (first self) p, Z.compare (last self) p with
  | Eq, Eq => Done (None, None)
  | Lt, Eq => p' ← sub64 p 1; Done (Some (mkRange (first self) p'), None)
  | Eq, Gt => p' ← add64 p 1; Done (None, Some (mkRange p' (last self)))
  | Lt, Gt => m ← sub64 p 1; n ← add64 p 1;
      Done (Some (mkRange (first self) m), Some (mkRange n (last self)))
  | _, Lt => Done (Some self, None)
  | Gt, _ => Done (None, Some self)
  end.

Definition remove (self other : Range) : outcome (option Range * option Range) :=
  match Z.compare (first self) (first other), Z.compare (last self) (last other) with
  | Eq, Eq => Done (None, None)
  | Lt, Eq => m ← sub64 (first other) 1; Done (Some (mkRange (first self) m), None)
  | Eq, Gt => n ← add64 (last other) 1; Done (None, Some (mkRange n (last self)))
  | Lt, Gt => m ← sub64 (first other) 1; n ← add64 (last other) 1;
      Done (Some (mkRange (first self) m), Some (mkRange n (last self)))
  | _, _ => Panic
  end.

Definition spans (self other : Range) : bool :=
  (first self <=? first other) && (last other <=? last self).

Definition len (self : Range) : outcome Z :=
  d ← sub64 (last self) (first self); add64 d 1.

End RangeOps.

(** ** [BTreeMap<Range, V>] of the standard library: the entries in key order; a search
    compares the key with [Ord::cmp], and [insert] on an equal key keeps the old key. *)

Section BTreeMap.
Context {V : Type}.
Abbreviation Map := (list (Range * V)).
Implicit Types (m l : Map).

Fixpoint bt_get m (key : Range) : option V :=
  match m with
  | [] => None
  | (r, v) :: m' =>
      match range_cmp key r with Lt => None | Eq => Some v | Gt => bt_get m' key end
  end.

(** [entry(key)] followed by [remove_entry] when it is [Occupied]. *)
Fixpoint bt_remove m (key : Range) : option (Range * V * Map) :=
  match m with
  | [] => None
  | (r, v) :: m' =>
      match range_cmp key r with
      | Lt => None
      | Eq => Some (r, v, m')
      | Gt => match bt_remove m' key with
              | Some (r', v', m'') => Some (r', v', (r, v) :: m'')
              | None => None
              end
      end
  end.

Fixpoint bt_insert (key : Range) (val : V) m : Map :=
  match m with
  | [] => [(key, val)]
  | (r, v) :: m' =>
      match range_cmp key r with
      | Lt => (key, val) :: (r, v) :: m'
      | Eq => (r, val) :: m'
      | Gt => (r, v) :: bt_insert key val m'
      end
  end.

(** [remove_from_map] *)
Definition remove_from_map m (key : Range) : outcome (Range * V * Map) :=
  unwrap (bt_remove m key).

End BTreeMap.

(** ** Merging values of neighbouring ranges: [None] is [Err] (they stay apart), [Some c] the
    value of the joined range *)

Class Merging (V : Type) := {
  can_merge_with_prior : V -> V -> option V;
  can_merge_with_next : V -> V -> option V;
}.

(** Two values merge exactly when they are equivalent for [veq]; each of them may turn, by
    [vup], into the value of the joined range. *)
Class MergeLaws (V : Type) `{Merging V} (veq vup : relation V) : Prop := {
  veq_equiv :: Equivalence veq;
  vup_preorder :: PreOrder vup;
  vup_veq : forall a b, vup a b -> veq a b;
  merge_prior_some : forall a b c, can_merge_with_prior a b = Some c ->
    vup a c /\ vup b c /\ (c = a \/ c = b);
  merge_prior_none : forall a b, can_merge_with_prior a b = None -> ~ veq a b;
  merge_next_some : forall a b c, can_merge_with_next a b = Some c ->
    vup a c /\ vup b c /\ (c = a \/ c = b);
  merge_next_none : forall a b, can_merge_with_next a b = None -> ~ veq a b;
}.

Section Merge.
Context `{Build} {V : Type} `{Merging V}.
Abbreviation Map := (list (Range * V)).

Definition try_merge_with_next (inner : Map) (current : Range) (our_kind : V)
    : outcome (Range * V * Map) :=
  if u64_max <=? last current then Done (current, our_kind, inner)
  else
    p ← add64 (last current) 1;
    match bt_remove inner (point p) with
    | Some (merge, other_kind, inner') =>
        match can_merge_with_next our_kind other_kind with
        | None => Done (current, our_kind, inner)
        | Some new_kind => r ← merge_with_next current merge; Done (r, new_kind, inner')
        end
    | None => Done (current, our_kind, inner)
    end.

Definition try_merge_with_prior (inner : Map) (current : Range) (our_kind : V)
    : outcome (Range * V * Map) :=
  if first current <=? 0 then Done (current, our_kind, inner)
  else
    p ← sub64 (first current) 1;
    match bt_remove inner (point p) with
    | Some (merge, other_kind, inner') =>
        match can_merge_with_prior our_kind other_kind with
        | None => Done (current, our_kind, inner)
        | Some new_kind => r ← merge_with_prior current merge; Done (r, new_kind, inner')
        end
    | None => Done (current, our_kind, inner)
    end.

(** The four-way [match] by which every setter puts a new range in the place of (part of) an
    old one: what is left of the old range goes back, and the new range is merged with its
    neighbour on the sides where nothing is left. *)
Definition place (inner : Map) (rest : option Range * option Range) (old_kind : V)
    (new_range : Range) (new_kind : V) : outcome Map :=
  match rest with
  | (Some pre, Some post) =>
      let inner := bt_insert new_range new_kind inner in
      let inner := bt_insert pre old_kind inner in
      Done (bt_insert post old_kind inner)
  | (Some pre, None) =>
      let inner := bt_insert pre old_kind inner in
      r ← try_merge_with_next inner new_range new_kind;
      Done (bt_insert r.1.1 r.1.2 r.2)
  | (None, Some post) =>
      let inner := bt_insert post old_kind inner in
      r ← try_merge_with_prior inner new_range new_kind;
      Done (bt_insert r.1.1 r.1.2 r.2)
  | (None, None) =>
      r ← try_merge_with_next inner new_range new_kind;
      r ← try_merge_with_prior r.2 r.1.1 r.1.2;
      Done (bt_insert r.1.1 r.1.2 r.2)
  end.

End Merge.

(** ** Tilings *)

Section Tiles.
Context {V : Type}.
Abbreviation Map := (list (Range * V)).
Implicit Types (m l : Map) (v : V).

(** The ranges of [l] cover [lo..hi] in order, without gap or overlap. *)
Fixpoint tiles (lo hi : Z) l : Prop :=
  match l with
  | [] => lo = hi + 1
  | (r, _) :: l' => first r = lo /\ first r <= last r /\ tiles (last r + 1) hi l'
  end.

(** The range of [l] that contains [q] carries [v]. *)
Definition holds l (q : Z) v : Prop :=
  exists r, (r, v) ∈ l /\ first r <= q <= last r.

Fixpoint wsum (wt : V -> Z) l : Z :=
  match l with
  | [] => 0
  | (r, v) :: l' => (last r - first r + 1) * wt v + wsum wt l'
  end.

Lemma tiles_app lo hi l1 l2 :
  tiles lo hi (l1 ++ l2) <-> exists mid, tiles lo mid l1 /\ tiles (mid + 1) hi l2.
Proof.
  revert lo. induction l1 as [|[r v] l1 IH]; intros lo; simpl.
  - split; [intros Ht; exists (lo - 1); split; [lia|by replace (lo - 1 + 1) with lo by lia]|].
    intros (mid & -> & Ht). done.
  - rewrite IH. naive_solver.
Qed.

Lemma tiles_le lo hi l : tiles lo hi l -> lo <= hi + 1.
Proof. revert lo. induction l as [|[r v] l IH]; intros lo; simpl; [lia|]. intros (<- & ? & ?%IH). lia. Qed.

Lemma tiles_elem lo hi l r v : tiles lo hi l -> (r, v) ∈ l -> lo <= first r /\ first r <= last r <= hi.
Proof.
  revert lo. induction l as [|[r' v'] l IH]; intros lo; simpl; [set_solver|].
  intros (<- & Hr & Ht) [[= -> ->]|Hin]%elem_of_cons.
  - apply tiles_le in Ht. lia.
  - apply IH in Ht; [lia|done].
Qed.

Lemma tiles_mid lo hi l1 r v l2 :
  tiles lo hi (l1 ++ (r, v) :: l2) <->
  first r <= last r /\ tiles lo (first r - 1) l1 /\ tiles (last r + 1) hi l2.
Proof.
  rewrite tiles_app; simpl. split.
  - intros (mid & H1 & E & H2 & H3). split_and!; try done. by replace (first r - 1) with mid by lia.
  - intros (H1 & H2 & H3). exists (first r - 1). split_and!; try done. lia.
Qed.

(** The range that contains a covered point. *)
Lemma tiles_split lo hi l p :
  tiles lo hi l -> lo <= p <= hi ->
  exists l1 r v l2, l = l1 ++ (r, v) :: l2 /\ first r <= p <= last r.
Proof.
  revert lo. induction l as [|[r v] l IH]; intros lo; simpl; [lia|].
  intros (<- & Hr & Ht) Hp. destruct (decide (p <= last r)).
  - exists [], r, v, l. split; [done|lia].
  - destruct (IH _ Ht) as (l1 & r' & v' & l2 & -> & ?); [lia|].
    exists ((r, v) :: l1), r', v', l2. done.
Qed.

Lemma holds_app l1 l2 q v : holds (l1 ++ l2) q v <-> holds l1 q v \/ holds l2 q v.
Proof. unfold holds. setoid_rewrite elem_of_app. naive_solver. Qed.

Lemma holds_cons r v' l q v :
  holds ((r, v') :: l) q v <-> (v = v' /\ first r <= q <= last r) \/ holds l q v.
Proof. unfold holds. setoid_rewrite elem_of_cons. naive_solver. Qed.

Lemma holds_nil q v : holds [] q v <-> False.
Proof. unfold holds. set_solver. Qed.

Lemma holds_bound lo hi l q v : tiles lo hi l -> holds l q v -> lo <= q <= hi.
Proof. intros Ht (r & Hr & Hq). apply (tiles_elem lo hi l r v Ht) in Hr. lia. Qed.

Lemma holds_total lo hi l q : tiles lo hi l -> lo <= q <= hi -> exists v, holds l q v.
Proof.
  intros Ht Hq. destruct (tiles_split _ _ _ _ Ht Hq) as (l1 & r & v & l2 & -> & Hr).
  exists v, r. split; [set_solver|done].
Qed.

Lemma holds_unique lo hi l q v v' : tiles lo hi l -> holds l q v -> holds l q v' -> v = v'.
Proof.
  intros Ht (r & Hin & Hq) Hh. apply list_elem_of_split in Hin as (l1 & l2 & ->).
  apply tiles_mid in Ht as (_ & H1 & H2). rewrite holds_app, holds_cons in Hh.
  destruct Hh as [Hh|[[-> _]|Hh]]; [|done|]; eapply holds_bound in Hh; try done; lia.
Qed.

Lemma tiles_range_unique lo hi l q r v r' v' :
  tiles lo hi l -> (r, v) ∈ l -> (r', v') ∈ l -> first r <= q <= last r -> first r' <= q <= last r' ->
  r = r'.
Proof.
  intros Ht Hin Hin' Hq Hq'. apply list_elem_of_split in Hin as (l1 & l2 & ->).
  apply tiles_mid in Ht as (_ & H1 & H2).
  apply elem_of_app in Hin' as [Hin|[[= -> ->]|Hin]%elem_of_cons]; [|done|];
    eapply tiles_elem in Hin; try done; lia.
Qed.

Lemma wsum_app wt l1 l2 : wsum wt (l1 ++ l2) = wsum wt l1 + wsum wt l2.
Proof. induction l1 as [|[r v] l1 IH]; simpl; lia. Qed.

(** *** The map operations on tilings *)

Lemma cmp_above key r : first key <= last key -> first r <= last r -> last r < first key -> range_cmp key r = Gt.
Proof.
  intros. unfold range_cmp. destruct (Z.compare_spec (first key) (last r)); try lia.
  destruct (Z.compare_spec (last key) (first r)); try lia; done.
Qed.

Lemma cmp_below key r : first key <= last key -> last key < first r -> range_cmp key r = Lt.
Proof.
  intros. unfold range_cmp. destruct (Z.compare_spec (last key) (first r)); try lia.
  by destruct (Z.compare _ _).
Qed.

Lemma cmp_overlap key r : first key <= last r -> first r <= last key -> range_cmp key r = Eq.
Proof.
  intros. unfold range_cmp. destruct (Z.compare_spec (last key) (first r)); try lia;
    destruct (Z.compare_spec (first key) (last r)); done || lia.
Qed.

(** Every range of [l] ends below [x]. *)
Definition below (x : Z) l : Prop := Forall (fun e => first e.1 <= last e.1 < x) l.

Lemma tiles_below lo hi x l : tiles lo hi l -> hi < x -> below x l.
Proof.
  intros Ht Hx. apply Forall_forall. intros [r v] Hin. eapply tiles_elem in Hin; [|done].
  simpl. lia.
Qed.

Lemma bt_skip key l1 m :
  first key <= last key -> below (first key) l1 ->
  bt_get (l1 ++ m) key = bt_get m key /\
  bt_remove (l1 ++ m) key =
    match bt_remove m key with Some (r, v, m') => Some (r, v, l1 ++ m') | None => None end /\
  (forall val, bt_insert key val (l1 ++ m) = l1 ++ bt_insert key val m).
Proof.
  intros Hk. induction l1 as [|[r v] l1 IH]; simpl.
  { intros _. split_and!; try done. by destruct (bt_remove m key) as [[[??]?]|]. }
  intros [Hr Hb]%Forall_cons. destruct (IH Hb) as (Hg & Hrm & Hi). simpl in Hr.
  rewrite cmp_above by lia. split_and!; [done| |].
  - rewrite Hrm. by destruct (bt_remove m key) as [[[??]?]|].
  - intros val. by rewrite Hi.
Qed.

Lemma bt_insert_mid key val l1 l2 :
  first key <= last key -> below (first key) l1 ->
  match l2 with [] => True | e :: _ => last key < first e.1 end ->
  bt_insert key val (l1 ++ l2) = l1 ++ (key, val) :: l2.
Proof.
  intros Hk H1 H2. destruct (bt_skip key l1 l2 Hk H1) as (_ & _ & ->). f_equal.
  destruct l2 as [|[r v] l2]; [done|]. simpl in *. by rewrite cmp_below by lia.
Qed.

Lemma bt_remove_mid p l1 r v l2 :
  below p l1 -> first r <= p <= last r ->
  bt_remove (l1 ++ (r, v) :: l2) (point p) = Some (r, v, l1 ++ l2).
Proof.
  intros H1 Hp. destruct (bt_skip (point p) l1 ((r, v) :: l2)) as (_ & -> & _); [done..|].
  simpl. by rewrite cmp_overlap by (simpl; lia).
Qed.

Lemma tiles_head_above lo hi x l :
  tiles lo hi l -> x < lo -> match l with [] => True | e :: _ => x < first e.1 end.
Proof. destruct l as [|[r v] l]; [done|]. simpl. lia. Qed.

Lemma bt_get_holds lo hi l p v :
  tiles lo hi l -> (bt_get l (point p) = Some v <-> holds l p v).
Proof.
  revert lo. induction l as [|[r v'] l IH]; intros lo Ht; simpl.
  { rewrite holds_nil. done. }
  simpl in Ht. destruct Ht as (<- & Hr & Ht). rewrite holds_cons.
  destruct (decide (p < first r)) as [?|?]; [|destruct (decide (p <= last r)) as [?|?]].
  - rewrite cmp_below by (simpl; lia). split; [done|].
    intros [[_ ?]|Hh]; [lia|]. eapply holds_bound in Hh; [|done]. lia.
  - rewrite cmp_overlap by (simpl; lia). split; [intros [= ->]; left; split; [done|lia]|].
    intros [[-> _]|Hh]; [done|]. eapply holds_bound in Hh; [|done]. lia.
  - rewrite cmp_above by (simpl; lia). rewrite IH by done. split; [by right|].
    intros [[_ ?]|Hh]; [lia|done].
Qed.

End Tiles.

(** ** Merging keeps the meaning *)

Section MergeSpec.
Context `{Build} {V : Type} `{Merging V} {veq vup : relation V} `{!MergeLaws V veq vup}.
Abbreviation Map := (list (Range * V)).
Implicit Types (l z : Map) (k v : V).

(** No two neighbours could be merged. *)
Fixpoint compact l : Prop :=
  match l with
  | [] => True
  | x :: l' => match l' with [] => True | y :: _ => ~ veq x.2 y.2 end /\ compact l'
  end.

(** The same values at every point up to [vup], the same total weight, and no value that was
    not there: every range of [z'] contains a range of [z] with its value. *)
Definition refines z z' : Prop :=
  (forall q v, holds z q v -> exists v', holds z' q v' /\ vup v v') /\
  (forall wt : V -> Z, (forall a b, veq a b -> wt a = wt b) -> wsum wt z = wsum wt z') /\
  (forall r v, (r, v) ∈ z' -> exists r0, (r0, v) ∈ z /\ first r <= first r0 /\ last r0 <= last r).

Lemma refines_refl z : refines z z.
Proof.
  split_and!; [|done|].
  - intros q v Hv. by exists v.
  - intros r v Hr. exists r. split; [done|lia].
Qed.

Lemma refines_trans z1 z2 z3 : refines z1 z2 -> refines z2 z3 -> refines z1 z3.
Proof.
  intros (H1 & W1 & O1) (H2 & W2 & O2). split_and!.
  - intros q v (v' & Hv' & E)%H1. apply H2 in Hv' as (v'' & ? & E'). exists v''.
    split; [done|]. by trans v'.
  - intros wt Hwt. rewrite W1, W2; done.
  - intros r v (r2 & Hr2 & ? & ?)%O2. destruct (O1 _ _ Hr2) as (r1 & Hr1 & ? & ?).
    exists r1. split; [done|lia].
Qed.

Lemma compact_mid l1 x l2 : compact (l1 ++ x :: l2) <-> compact (l1 ++ [x]) /\ compact (x :: l2).
Proof.
  induction l1 as [|y [|z l1] IH]; simpl in *; [|tauto..].
  destruct l2; tauto.
Qed.

Lemma compact_cons_inv x l : compact (x :: l) -> compact l.
Proof. simpl. tauto. Qed.

Lemma compact_snoc_inv l x : compact (l ++ [x]) -> compact l.
Proof.
  destruct l as [|y l _] using rev_ind; [done|]. rewrite <- app_assoc; simpl.
  rewrite compact_mid. tauto.
Qed.

(** Joining two adjacent equivalent ranges. *)
Lemma refines_join l1 l2 c d e k1 k2 k :
  c <= d -> d + 1 <= e -> vup k1 k -> vup k2 k -> k = k1 \/ k = k2 ->
  refines (l1 ++ (mkRange c d, k1) :: (mkRange (d + 1) e, k2) :: l2)
          (l1 ++ (mkRange c e, k) :: l2).
Proof.
  intros Hc He H1 H2 Hk. split_and!.
  - intros q v. rewrite holds_app, !holds_cons; simpl. setoid_rewrite holds_app.
    setoid_rewrite holds_cons; simpl.
    intros [Hh|[[-> ?]|[[-> ?]|Hh]]]; [exists v; split; [by left|reflexivity]| | |
      exists v; split; [by right; right|reflexivity]]; exists k;
      (split; [right; left; split; [done|lia]|done]).
  - intros wt Hwt. rewrite !wsum_app; simpl. rewrite (Hwt _ _ (vup_veq _ _ H1)), (Hwt _ _ (vup_veq _ _ H2)). lia.
  - intros r v [Hr|[[= -> ->]|Hr]%elem_of_cons]%elem_of_app; [exists r; split; [set_solver|lia]| |
      exists r; split; [set_solver|lia]].
    destruct Hk as [-> | ->]; [exists (mkRange c d)|exists (mkRange (d + 1) e)];
      (split; [set_solver|simpl; lia]).
Qed.

Lemma tiles_last_nil hi l : tiles (hi + 1) hi l -> l = [].
Proof. destruct l as [|[r v] l]; [done|]. intros (? & ? & Ht). apply tiles_le in Ht. lia. Qed.

Lemma merge_next_spec l1 l2 c d k :
  tiles 0 u64_max (l1 ++ (mkRange c d, k) :: l2) ->
  exists d' k' l2', try_merge_with_next (l1 ++ l2) (mkRange c d) k = Done (mkRange c d', k', l1 ++ l2') /\
    tiles 0 u64_max (l1 ++ (mkRange c d', k') :: l2') /\
    refines (l1 ++ (mkRange c d, k) :: l2) (l1 ++ (mkRange c d', k') :: l2') /\
    (compact l2 -> compact ((mkRange c d', k') :: l2')) /\ vup k k'.
Proof.
  intros Ht. pose proof Ht as (Hcd & H1 & H2)%tiles_mid; simpl in *.
  pose proof (tiles_le _ _ _ H1). unfold try_merge_with_next; simpl.
  destruct (Z.leb_spec u64_max d) as [Hd|Hd].
  { pose proof (tiles_le _ _ _ H2). replace (d + 1) with (u64_max + 1) in H2 by lia.
    apply tiles_last_nil in H2 as ->. exists d, k, []. split_and!; try done. apply refines_refl. }
  destruct l2 as [|[[x e] k2] l2]; simpl in H2; [lia|]. destruct H2 as (-> & He & H2).
  rewrite add64_ok by (unfold in_u64; lia); simpl.
  rewrite bt_remove_mid by (first [eapply tiles_below; [done|lia] | simpl; lia]).
  destruct (can_merge_with_next k k2) as [k'|] eqn:Em; cycle 1.
  { exists d, k, ((mkRange (d + 1) e, k2) :: l2). split_and!; try done.
    - apply refines_refl.
    - intros Hcomp. split; [by eapply merge_next_none|done]. }
  destruct (merge_next_some _ _ _ Em) as (Hk' & Hk2 & Hor). unfold merge_with_next; simpl.
  rewrite add64_ok by (unfold in_u64; lia). simpl. rewrite Z.eqb_refl. simpl.
  assert (Hc' : compact ((mkRange (d + 1) e, k2) :: l2) -> compact ((mkRange c e, k') :: l2)).
  { intros Hcomp. destruct l2 as [|y l2]; [done|]. destruct Hcomp as [Hy Hcomp]. split; [|done].
    intros Hv. apply Hy. simpl in *. trans k'; [by apply vup_veq|done]. }
  exists e, k', l2. split; [by destruct debug_assertions|]. split; [|split; [|done]].
  - apply tiles_mid; simpl. split_and!; try done. lia.
  - apply refines_join; try lia; try done.
Qed.

Lemma merge_prior_spec l1 l2 c d k :
  tiles 0 u64_max (l1 ++ (mkRange c d, k) :: l2) ->
  exists c' k' l1', try_merge_with_prior (l1 ++ l2) (mkRange c d) k = Done (mkRange c' d, k', l1' ++ l2) /\
    tiles 0 u64_max (l1' ++ (mkRange c' d, k') :: l2) /\
    refines (l1 ++ (mkRange c d, k) :: l2) (l1' ++ (mkRange c' d, k') :: l2) /\
    (compact l1 -> compact (l1' ++ [(mkRange c' d, k')])) /\ vup k k'.
Proof.
  intros Ht. pose proof Ht as (Hcd & H1 & H2)%tiles_mid; simpl in *.
  pose proof (tiles_le _ _ _ H1). pose proof (tiles_le _ _ _ H2). unfold try_merge_with_prior; simpl.
  destruct l1 as [|[[a x] k1] l1 _] using rev_ind.
  { simpl in H1. rewrite (proj2 (Z.leb_le _ _)) by lia. exists c, k, [].
    split_and!; try done. apply refines_refl. }
  rewrite tiles_mid in H1; simpl in H1. destruct H1 as (Hax & H1 & Hx).
  pose proof (tiles_le _ _ _ H1). rewrite (proj2 (Z.leb_gt _ _)) by lia.
  rewrite sub64_ok by (unfold in_u64; lia); simpl. rewrite <- app_assoc; simpl.
  rewrite bt_remove_mid by (first [eapply tiles_below; [done|lia] | simpl; lia]).
  destruct (can_merge_with_prior k k1) as [k'|] eqn:Em; cycle 1.
  { exists c, k, (l1 ++ [(mkRange a x, k1)]). split; [by rewrite <- app_assoc|].
    split; [done|]. split; [apply refines_refl|]. split; [|done]. intros Hcomp. rewrite <- app_assoc; simpl.
    - rewrite compact_mid. split; [done|]. simpl. split_and!; try done.
      intros Hv. eapply merge_prior_none; [done|]. by symmetry. }
  destruct (merge_prior_some _ _ _ Em) as (Hk' & Hk1 & Hor). unfold merge_with_prior; simpl.
  rewrite add64_ok by (unfold in_u64; lia). simpl. rewrite (proj2 (Z.eqb_eq _ _)) by lia. simpl.
  exists a, k', l1. split_and!.
  - by destruct debug_assertions.
  - apply tiles_mid; simpl. split_and!; try done. lia.
  - rewrite <- app_assoc; simpl. replace c with (x + 1) by lia.
    apply refines_join; try lia; try done. tauto.
  - intros Hcomp. destruct l1 as [|y l1 _] using rev_ind; [done|]. rewrite <- app_assoc in *; simpl in *.
    rewrite compact_mid in *; simpl in *. destruct Hcomp as [? [Hy ?]]. split_and!; try done.
    intros Hv. apply Hy. trans k'; [done|]. symmetry. by apply vup_veq.
  - done.
Qed.

(** ** Replacing a part of a range *)

(** What is left of [a..b] when [c..d] is taken out. *)
Definition rest_of (a b c d : Z) : option Range * option Range :=
  (if a <? c then Some (mkRange a (c - 1)) else None,
   if d <? b then Some (mkRange (d + 1) b) else None).

Lemma split_at_rest a b p :
  0 <= a -> b <= u64_max -> a <= p <= b -> split_at (mkRange a b) p = Done (rest_of a b p p).
Proof.
  intros Ha Hb Hp. unfold split_at, rest_of; simpl.
  destruct (Z.compare_spec a p), (Z.compare_spec b p); try lia;
    rewrite ?sub64_ok, ?add64_ok by (unfold in_u64; lia); simpl;
    repeat (match goal with |- context [?x <? ?y] => destruct (Z.ltb_spec x y) end); done || lia.
Qed.

Lemma remove_rest a b c d :
  0 <= a -> b <= u64_max -> a <= c -> c <= d -> d <= b ->
  remove (mkRange a b) (mkRange c d) = Done (rest_of a b c d).
Proof.
  intros Ha Hb Hac Hcd Hdb. unfold remove, rest_of; simpl.
  destruct (Z.compare_spec a c), (Z.compare_spec b d); try lia;
    rewrite ?sub64_ok, ?add64_ok by (unfold in_u64; lia); simpl;
    repeat (match goal with |- context [?x <? ?y] => destruct (Z.ltb_spec x y) end); done || lia.
Qed.

(** [z'] is [z] with the points [c..d] set to [new] (up to [vup]); [delta] is what that does to
    a weight. *)
Definition replaced z z' (c d : Z) (new : V) (delta : (V -> Z) -> Z) : Prop :=
  tiles 0 u64_max z' /\
  (forall q v, holds z q v -> ~ c <= q <= d -> exists v', holds z' q v' /\ vup v v') /\
  (forall q, c <= q <= d -> exists v', holds z' q v' /\ vup new v') /\
  (forall wt : V -> Z, (forall a b, veq a b -> wt a = wt b) -> wsum wt z' = wsum wt z + delta wt) /\
  (forall r v, (r, v) ∈ z' -> exists q, first r <= q <= last r /\
     ((c <= q <= d /\ v = new) \/ (~ c <= q <= d /\ holds z q v))).

Lemma replaced_refines z z1 z' c d new delta :
  replaced z z1 c d new delta -> refines z1 z' -> tiles 0 u64_max z' -> replaced z z' c d new delta.
Proof.
  intros (_ & H1 & H2 & H3 & H4) (Hr & Hw & Ho) Ht. split_and!; [done|..].
  - intros q v Hv Hq. destruct (H1 q v Hv Hq) as (v' & (v'' & ? & ?)%Hr & ?).
    exists v''. split; [done|]. by trans v'.
  - intros q Hq. destruct (H2 q Hq) as (v' & (v'' & ? & ?)%Hr & ?). exists v''.
    split; [done|]. by trans v'.
  - intros wt Hwt. rewrite <- H3 by done. symmetry. by apply Hw.
  - intros r v (r1 & Hr1 & ? & ?)%Ho. destruct (H4 r1 v Hr1) as (q & Hq & Hc).
    exists q. split; [lia|done].
Qed.

Definition opt_list (o : option Range) k : Map := match o with Some r => [(r, k)] | None => [] end.

(** The cut before any merge. *)
Lemma cut_replaced l1 l2 a b old c d new :
  tiles 0 u64_max (l1 ++ (mkRange a b, old) :: l2) -> a <= c -> c <= d -> d <= b ->
  replaced (l1 ++ (mkRange a b, old) :: l2)
    (l1 ++ opt_list (rest_of a b c d).1 old ++ (mkRange c d, new) :: opt_list (rest_of a b c d).2 old ++ l2)
    c d new (fun wt => (d - c + 1) * (wt new - wt old)).
Proof.
  intros (Hab & H1 & H2)%tiles_mid Hac Hcd Hdb; simpl in *.
  assert (Hends : tiles a (c - 1) (opt_list (rest_of a b c d).1 old) /\
                  tiles (d + 1) b (opt_list (rest_of a b c d).2 old)).
  { unfold rest_of; simpl. destruct (Z.ltb_spec a c), (Z.ltb_spec d b); simpl; lia. }
  destruct Hends as [Hpre Hpost]. split_and!.
  - rewrite app_assoc, tiles_mid; simpl. split_and!; [done|apply tiles_app|apply tiles_app].
    + exists (a - 1). split; [done|]. by replace (a - 1 + 1) with a by lia.
    + by exists b.
  - intros q v. repeat (setoid_rewrite holds_app || setoid_rewrite holds_cons); simpl.
    intros Hh Hq. exists v. split; [|reflexivity]. destruct Hh as [Hh|[[-> Hh]|Hh]]; [by left| |by right; right; right; right].
    destruct (decide (q < c)).
    + right; left. unfold rest_of; simpl. rewrite (proj2 (Z.ltb_lt _ _)) by lia. simpl.
      rewrite holds_cons; simpl. left. split; [done|lia].
    + right; right; right; left. unfold rest_of; simpl. rewrite (proj2 (Z.ltb_lt d b)) by lia. simpl.
      rewrite holds_cons; simpl. left. split; [done|lia].
  - intros q Hq. exists new. split; [|reflexivity]. rewrite !holds_app, holds_cons; simpl.
    right; right; left. split; [done|lia].
  - intros wt Hwt. rewrite !wsum_app; simpl. rewrite wsum_app. unfold rest_of; simpl.
    destruct (Z.ltb_spec a c), (Z.ltb_spec d b); simpl;
      try (assert (a = c) as -> by lia); try (assert (b = d) as -> by lia); lia.
  - assert (Hold : forall r v, (r, v) ∈ l1 \/ (r, v) ∈ l2 -> exists q, first r <= q <= last r /\
      ((c <= q <= d /\ v = new) \/
       (~ c <= q <= d /\ holds (l1 ++ (mkRange a b, old) :: l2) q v))).
    { intros r v Hr. exists (first r).
      assert (first r <= last r /\ ~ c <= first r <= d) as [? ?].
      { destruct Hr as [Hr|Hr]; eapply tiles_elem in Hr; try done; lia. }
      split; [lia|right]. split; [done|]. exists r. split; [set_solver|lia]. }
    assert (Hrest : forall q, a <= q <= b -> holds (l1 ++ (mkRange a b, old) :: l2) q old).
    { intros q Hq. exists (mkRange a b). split; [set_solver|done]. }
    intros r v [Hr|[Hr|[[= -> ->]|[Hr|Hr]%elem_of_app]%elem_of_cons]%elem_of_app]%elem_of_app;
      [by apply Hold; left| | | |by apply Hold; right].
    + unfold rest_of in Hr; simpl in Hr. destruct (Z.ltb_spec a c); simpl in Hr; [|set_solver].
      apply list_elem_of_singleton in Hr as [= -> ->]. exists a. simpl. split; [lia|right].
      split; [lia|apply Hrest; lia].
    + exists c. simpl. split; [lia|left]. split; [lia|done].
    + unfold rest_of in Hr; simpl in Hr. destruct (Z.ltb_spec d b); simpl in Hr; [|set_solver].
      apply list_elem_of_singleton in Hr as [= -> ->]. exists b. simpl. split; [lia|right].
      split; [lia|apply Hrest; lia].
Qed.

Lemma compact_vals l l' : l.*2 = l'.*2 -> compact l -> compact l'.
Proof.
  revert l'. induction l as [|x l IH]; intros [|x' l']; try done. simpl. intros [= -> Hl] [Hx Hc].
  split; [|by apply IH]. destruct l, l'; simplify_eq/=; [done|congruence].
Qed.

Lemma compact_change l1 l2 r r' k :
  compact (l1 ++ (r, k) :: l2) -> compact (l1 ++ (r', k) :: l2).
Proof. apply compact_vals. by rewrite !fmap_app. Qed.

Lemma compact_veq_last l1 r r' k k' : veq k k' -> compact (l1 ++ [(r, k)]) -> compact (l1 ++ [(r', k')]).
Proof.
  intros Hk. destruct l1 as [|y l1 _] using rev_ind; [done|]. rewrite <- !app_assoc; simpl.
  rewrite (compact_mid l1 y [(r, k)]), (compact_mid l1 y [(r', k')]); simpl.
  intros (H1 & H2 & _). split_and!; try done.
  intros Hv. apply H2. trans k'; [done|by symmetry].
Qed.

Lemma compact_veq_head l2 r r' k k' : veq k k' -> compact ((r, k) :: l2) -> compact ((r', k') :: l2).
Proof.
  intros Hk [H1 H2]. split; [|done]. destruct l2; [done|]. intros Hv. apply H1. simpl in *. by trans k'.
Qed.

Lemma bt_insert_tiles l1 r k l2 :
  tiles 0 u64_max (l1 ++ (r, k) :: l2) -> bt_insert r k (l1 ++ l2) = l1 ++ (r, k) :: l2.
Proof.
  intros (Hr & H1 & H2)%tiles_mid. apply bt_insert_mid; [done| |].
  - eapply tiles_below; [done|lia].
  - eapply tiles_head_above; [done|lia].
Qed.

(** [z] becomes [z'] by merges only; under [C] nothing more can be merged. *)
Definition settled z z' (C : Prop) : Prop := tiles 0 u64_max z' /\ (C -> compact z') /\ refines z z'.

Lemma insert_merge_next l1 l2 c d k :
  tiles 0 u64_max (l1 ++ (mkRange c d, k) :: l2) ->
  exists z', (r ← try_merge_with_next (l1 ++ l2) (mkRange c d) k;
              Done (bt_insert r.1.1 r.1.2 r.2)) = Done z' /\
    settled (l1 ++ (mkRange c d, k) :: l2) z' (compact (l1 ++ [(mkRange c d, k)]) /\ compact l2).
Proof.
  intros Ht. destruct (merge_next_spec _ _ _ _ _ Ht) as (d' & k' & l2' & -> & Ht' & Hr & Hc & Hk).
  simpl. rewrite bt_insert_tiles by done. eexists. split; [done|]. split; [done|]. split; [|done].
  intros [H1 H2]. rewrite compact_mid. split; [|by apply Hc].
  exact (compact_veq_last _ _ _ _ _ (vup_veq _ _ Hk) H1).
Qed.

Lemma insert_merge_prior l1 l2 c d k :
  tiles 0 u64_max (l1 ++ (mkRange c d, k) :: l2) ->
  exists z', (r ← try_merge_with_prior (l1 ++ l2) (mkRange c d) k;
              Done (bt_insert r.1.1 r.1.2 r.2)) = Done z' /\
    settled (l1 ++ (mkRange c d, k) :: l2) z' (compact l1 /\ compact ((mkRange c d, k) :: l2)).
Proof.
  intros Ht. destruct (merge_prior_spec _ _ _ _ _ Ht) as (c' & k' & l1' & -> & Ht' & Hr & Hc & Hk).
  simpl. rewrite bt_insert_tiles by done. eexists. split; [done|]. split; [done|]. split; [|done].
  intros [H1 H2]. rewrite compact_mid. split; [by apply Hc|].
  exact (compact_veq_head l2 (mkRange c d) (mkRange c' d) k k' (vup_veq _ _ Hk) H2).
Qed.

Lemma insert_merge_both l1 l2 c d k :
  tiles 0 u64_max (l1 ++ (mkRange c d, k) :: l2) ->
  exists z', (r ← try_merge_with_next (l1 ++ l2) (mkRange c d) k;
              r ← try_merge_with_prior r.2 r.1.1 r.1.2;
              Done (bt_insert r.1.1 r.1.2 r.2)) = Done z' /\
    settled (l1 ++ (mkRange c d, k) :: l2) z' (compact l1 /\ compact l2).
Proof.
  intros Ht. destruct (merge_next_spec _ _ _ _ _ Ht) as (d' & k' & l2' & -> & Ht' & Hr & Hc & Hk).
  simpl. destruct (insert_merge_prior _ _ _ _ _ Ht') as (z' & -> & Ht'' & Hc' & Hr').
  exists z'. split; [done|]. split_and!; [done| |by eapply refines_trans].
  intros [H1 H2]. apply Hc'. split; [done|by apply Hc].
Qed.

(** A range is put in the place of (part of) an old one; if nothing could be merged before, and
    the new value differs from the old one, nothing can be merged after. *)
Lemma place_spec l1 l2 a b old c d new :
  tiles 0 u64_max (l1 ++ (mkRange a b, old) :: l2) -> a <= c -> c <= d -> d <= b ->
  exists z', place (l1 ++ l2) (rest_of a b c d) old (mkRange c d) new = Done z' /\
    (compact (l1 ++ (mkRange a b, old) :: l2) -> ~ veq old new -> compact z') /\
    replaced (l1 ++ (mkRange a b, old) :: l2) z' c d new (fun wt => (d - c + 1) * (wt new - wt old)).
Proof.
  intros Ht Hac Hcd Hdb.
  pose proof (cut_replaced l1 l2 a b old c d new Ht Hac Hcd Hdb) as Hcut.
  pose proof (proj1 Hcut) as Htc.
  apply tiles_mid in Ht as (Hab & H1 & H2); simpl in *.
  assert (Hb1 : forall x, a <= x -> below x l1) by (intros; eapply tiles_below; [done|lia]).
  assert (Ha2 : forall x, x <= b -> match l2 with [] => True | e :: _ => x < first e.1 end)
    by (intros; eapply tiles_head_above; [done|lia]).
  set (Q := compact (l1 ++ (mkRange a b, old) :: l2)).
  assert (Hcomp : Q -> ~ veq old new -> ~ veq new old /\ compact l1 /\ compact l2 /\
    (forall c', compact (l1 ++ [(mkRange a c', old)])) /\ forall d', compact ((mkRange d' b, old) :: l2)).
  { intros [Hc1 Hc2]%compact_mid Hne. split_and!.
    - intros ?. apply Hne. by symmetry.
    - by eapply compact_snoc_inv.
    - by eapply compact_cons_inv.
    - intros c'. by eapply compact_veq_last; [reflexivity|].
    - intros d'. by eapply compact_veq_head; [reflexivity|]. }
  assert (Hfin : forall C z1 z', replaced (l1 ++ (mkRange a b, old) :: l2) z1 c d new
      (fun wt => (d - c + 1) * (wt new - wt old)) -> settled z1 z' C -> (Q -> ~ veq old new -> C) ->
    (Q -> ~ veq old new -> compact z') /\ replaced (l1 ++ (mkRange a b, old) :: l2) z' c d new
      (fun wt => (d - c + 1) * (wt new - wt old))).
  { intros C z1 z' Hz (? & ? & ?) ?. split; [auto|]. by eapply replaced_refines. }
  unfold rest_of in *. simpl in *. destruct (Z.ltb_spec a c), (Z.ltb_spec d b); simpl in *.
  - eexists. split; [done|].
    do 2 (rewrite bt_insert_mid by (simpl; first [lia|apply Hb1; lia|apply Ha2; lia])).
    pose proof (bt_insert_mid (mkRange (d + 1) b) old
      (l1 ++ [(mkRange a (c - 1), old); (mkRange c d, new)]) l2) as Hi.
    rewrite <- !app_assoc in Hi; simpl in Hi. rewrite Hi; [|lia| |apply Ha2; lia].
    2:{ apply Forall_app; split; [apply Hb1; lia|]. repeat constructor; simpl; lia. }
    split; [|done]. intros HQ Hne. destruct (Hcomp HQ Hne) as (? & ? & ? & ? & Hpost).
    rewrite compact_mid. split; [done|]. by repeat split; try apply (Hpost (d + 1)).
  - rewrite bt_insert_mid by (simpl; first [lia|apply Hb1; lia|apply Ha2; lia]).
    pose proof (insert_merge_next (l1 ++ [(mkRange a (c - 1), old)]) l2 c d new) as Hm.
    rewrite <- !app_assoc in Hm; simpl in Hm. destruct Hm as (z' & -> & Hs); [done|].
    exists z'. split; [done|]. eapply Hfin; [done..|]. intros HQ Hne.
    destruct (Hcomp HQ Hne) as (? & ? & ? & ? & _). split; [|done].
    rewrite compact_mid. split; [done|]. by repeat split.
  - rewrite bt_insert_mid by (simpl; first [lia|apply Hb1; lia|apply Ha2; lia]).
    destruct (insert_merge_prior l1 ((mkRange (d + 1) b, old) :: l2) c d new) as (z' & -> & Hs); [done|].
    exists z'. split; [done|]. eapply Hfin; [done..|]. intros HQ Hne.
    destruct (Hcomp HQ Hne) as (? & ? & ? & ? & Hpost).
    split; [done|]. by repeat split; try apply (Hpost (d + 1)).
  - destruct (insert_merge_both l1 l2 c d new) as (z' & -> & Hs); [done|].
    exists z'. split; [done|]. eapply Hfin; [done..|]. intros HQ Hne.
    by destruct (Hcomp HQ Hne) as (? & ? & ? & _).
Qed.

End MergeSpec.
