(* ===== verification/ClientRangeTree.v ===== *)
(** * The read status of a chain in the client ([fuzzy_log_client/src/fuzzy_log/range_tree.rs])

    Every index of a chain is in one of five states ([Kind]): not asked for, asked for,
    received, returned to the application, or known to be skippable.  [RangeTree] stores maximal
    runs of equal states, with counters of the outstanding and of the buffered entries. *)

From stdpp Require Import base sets list.
From Stdlib Require Import ZArith Lia.
From S2P Require Import Prelude RangeMap.

Open Scope Z_scope.

Module RT.

Inductive Kind := KNone | SentToServer | GottenFromServer | ReturnedToClient | Skip.

#[export] Instance Kind_eq_dec : EqDecision Kind.
Proof. solve_decision. Defined.

Record RangeTree := mkTree {
  inner : list (Range * Kind);
  num_outstanding : Z;
  num_buffered : Z;
}.

Definition is_prior (self other : Kind) : bool :=
  match self, other with
  | KNone, _ => true
  | SentToServer, _ => true
  | GottenFromServer, KNone => true
  | GottenFromServer, ReturnedToClient => true
  | GottenFromServer, Skip => true
  | Skip, ReturnedToClient => true
  | _, _ => false
  end.

(** The kinds [try_merge_with_next] and [try_merge_with_prior] join: equal ones, and a skipped
    run with a returned one. *)
Definition kind_merge (our_kind other_kind : Kind) : option Kind :=
  let merge_skip :=
    (bool_decide (our_kind = Skip) && bool_decide (other_kind = ReturnedToClient))
    || (bool_decide (our_kind = ReturnedToClient) && bool_decide (other_kind = Skip)) in
  if bool_decide (other_kind = our_kind) then Some our_kind
  else if merge_skip then Some ReturnedToClient
  else None.

#[export] Instance Kind_merging : Merging Kind :=
  {| can_merge_with_prior := kind_merge; can_merge_with_next := kind_merge |}.

Definition new : RangeTree :=
  mkTree (bt_insert (mkRange 1 u64_max) KNone (bt_insert (mkRange 0 0) ReturnedToClient [])) 0 0.

Section Ops.
Context `{Build}.
Implicit Types (t : RangeTree).

(** The fold of [tree_invariant]. *)
Fixpoint inv_fold (l : list (Range * Kind)) (prev : Z) (prev_kind : option Kind)
    (prev_valid : bool) (n_out n_buf : Z) : outcome (bool * Z * Z) :=
  match l with
  | [] => Done (prev_valid, n_out, n_buf)
  | (r, k) :: l' =>
      match prev_kind with
      | Some pk =>
          valid ← (if prev_valid
                   then p ← add64 prev 1; Done ((first r =? p) && negb (bool_decide (k = pk)))
                   else Done false);
          match k with
          | SentToServer => d ← len r; n ← add64 n_out d; inv_fold l' (last r) (Some k) valid n n_buf
          | GottenFromServer => d ← len r; n ← add64 n_buf d; inv_fold l' (last r) (Some k) valid n_out n
          | _ => inv_fold l' (last r) (Some k) valid n_out n_buf
          end
      | None =>
          let valid := prev_valid && (first r =? 0) && bool_decide (k = ReturnedToClient) in
          inv_fold l' (last r) (Some k) valid n_out n_buf
      end
  end.

Definition tree_invariant t : outcome bool :=
  r ← inv_fold (inner t) 0 None true 0 0;
  Done (r.1.1 && (num_buffered t =? r.2) && (num_outstanding t =? r.1.2)).

(** [debug_assert!(self.tree_invariant(), ..)] *)
Definition check_invariant t : outcome unit :=
  if debug_assertions then b ← tree_invariant t; assert_ b else Done tt.

Definition set_point_as t (p : Z) (new_kind : Kind) : outcome (bool * RangeTree) :=
  r ← remove_from_map (inner t) (point p);
  let '(old_range, old_kind, inner) := r in
  if negb (is_prior old_kind new_kind)
  then Done (false, mkTree (bt_insert old_range old_kind inner) (num_outstanding t) (num_buffered t))
  else
    n_out ← (match old_kind with SentToServer => sub64 (num_outstanding t) 1 | _ => Done (num_outstanding t) end);
    n_buf ← (match old_kind with GottenFromServer => sub64 (num_buffered t) 1 | _ => Done (num_buffered t) end);
    n_out ← (match new_kind with SentToServer => add64 n_out 1 | _ => Done n_out end);
    n_buf ← (match new_kind with GottenFromServer => add64 n_buf 1 | _ => Done n_buf end);
    rest ← split_at old_range p;
    inner ← place inner rest old_kind (point p) new_kind;
    Done (true, mkTree inner n_out n_buf).

Definition set_point_as_none t (p : Z) : outcome RangeTree :=
  _ ← check_invariant t;
  r ← set_point_as t p KNone;
  _ ← check_invariant r.2;
  Done r.2.

Definition set_point_as_skip t (p : Z) : outcome RangeTree :=
  _ ← check_invariant t;
  r ← set_point_as t p Skip;
  _ ← check_invariant r.2;
  Done r.2.

Definition set_point_as_recvd t (p : Z) : outcome (bool * RangeTree) :=
  _ ← check_invariant t;
  r ← set_point_as t p GottenFromServer;
  _ ← check_invariant r.2;
  Done r.

Definition set_point_as_returned t (p : Z) : outcome RangeTree :=
  _ ← check_invariant t;
  r ← set_point_as t p ReturnedToClient;
  _ ← assert_ r.1;
  _ ← check_invariant r.2;
  Done r.2.

Definition set_range_as_sent t (low high : Z) : outcome RangeTree :=
  _ ← check_invariant t;
  new_range ← range_new low high;
  r ← remove_from_map (inner t) (point low);
  let '(old_range, old_kind, inner) := r in
  _ ← assert_ (bool_decide (old_kind = KNone));
  _ ← assert_ (spans old_range new_range);
  d ← len new_range;
  n_out ← add64 (num_outstanding t) d;
  rest ← remove old_range new_range;
  inner ← place inner rest old_kind new_range SentToServer;
  let t := mkTree inner n_out (num_buffered t) in
  _ ← check_invariant t;
  Done t.

(** The loop of [set_above_as_none]; every iteration removes an entry of the map. *)
Fixpoint remove_above (fuel : nat) (lowish : Z) (m : list (Range * Kind)) : outcome (list (Range * Kind)) :=
  if lowish <? u64_max then
    match fuel with
    | O => Panic
    | S fuel =>
        p ← add64 lowish 1;
        r ← remove_from_map m (point p);
        remove_above fuel (last r.1.1) r.2
    end
  else Done m.

Definition set_above_as_none t (low : Z) : outcome RangeTree :=
  _ ← check_invariant t;
  new_range ← range_new low u64_max;
  r ← remove_from_map (inner t) (point low);
  let '(old_range, old_kind, inner) := r in
  inner ← remove_above (length inner) (last old_range) inner;
  rest ← split_at old_range low;
  let inner := match rest.1 with Some range => bt_insert range old_kind inner | None => inner end in
  let t := mkTree (bt_insert new_range KNone inner) (num_outstanding t) (num_buffered t) in
  _ ← check_invariant t;
  Done t.

Definition is_returned t (p : Z) : bool :=
  match bt_get (inner t) (point p) with Some ReturnedToClient => true | _ => false end.

Definition next_return_is t (p : Z) : outcome bool :=
  q ← sub64 p 1;
  Done (match bt_get (inner t) (point q), bt_get (inner t) (point p) with
        | _, Some ReturnedToClient => false
        | Some ReturnedToClient, _ => true
        | _, _ => false
        end).

(** [iter().filter(k).next()] *)
Definition first_of (k : Kind) (l : list (Range * Kind)) : option Range :=
  fst <$> head (filter (fun e : Range * Kind => e.2 = k) l).

Definition first_outstanding t : option Z := first <$> first_of SentToServer (inner t).

Definition last_outstanding t : option Z := last <$> first_of SentToServer (reverse (inner t)).

Definition min_range_to_fetch t : Z * Z :=
  match first_of KNone (inner t) with Some r => (first r, last r) | None => (0, 0) end.

End Ops.

(** ** Meaning *)

(** A skipped run counts as returned once it touches the returned prefix. *)
Definition kind_eq (a b : Kind) : Prop :=
  a = b \/ (a = Skip /\ b = ReturnedToClient) \/ (a = ReturnedToClient /\ b = Skip).
Definition kind_up (a b : Kind) : Prop := a = b \/ (a = Skip /\ b = ReturnedToClient).

#[export] Instance kind_merge_laws : MergeLaws Kind kind_eq kind_up.
Proof.
  constructor.
  - constructor; [intros ?; by left|..]; intros ??; unfold kind_eq; [naive_solver|].
    intros ???. naive_solver.
  - constructor; [intros ?; by left|]. intros ???. unfold kind_up. naive_solver.
  - unfold kind_eq, kind_up. naive_solver.
  - intros [] [] c; simpl; unfold kind_merge; simpl; intros; simplify_eq; unfold kind_up; auto.
  - intros [] []; simpl; unfold kind_merge; simpl; unfold kind_eq; naive_solver.
  - intros [] [] c; simpl; unfold kind_merge; simpl; intros; simplify_eq; unfold kind_up; auto.
  - intros [] []; simpl; unfold kind_merge; simpl; unfold kind_eq; naive_solver.
Qed.

#[global] Instance kind_eq_equivalence : Equivalence kind_eq.
Proof. exact (veq_equiv (vup := kind_up)). Qed.

Definition ind (k k' : Kind) : Z := if bool_decide (k' = k) then 1 else 0.

Lemma ind_eq k : ind k k = 1.
Proof. unfold ind. by rewrite bool_decide_eq_true_2. Qed.

Lemma ind_ne k k' : k' <> k -> ind k k' = 0.
Proof. intros. unfold ind. by rewrite bool_decide_eq_false_2. Qed.

Ltac ind_simpl :=
  repeat match goal with
  | H : context [ind ?k ?k] |- _ => rewrite (ind_eq k) in H
  | |- context [ind ?k ?k] => rewrite (ind_eq k)
  | H : context [ind ?k ?k'] |- _ => rewrite (ind_ne k k') in H by (done || naive_solver)
  | |- context [ind ?k ?k'] => rewrite (ind_ne k k') by (done || naive_solver)
  end.

Abbreviation kcompact := (compact (veq := kind_eq)).

(** What [tree_invariant] means, and what the operations rely on: the ranges tile the whole of
    [u64], no two neighbours could be merged, index 0 is returned, and the counters count. *)
Record tree_ok (t : RangeTree) : Prop := {
  ok_tiles : tiles 0 u64_max (inner t);
  ok_compact : kcompact (inner t);
  ok_zero : holds (inner t) 0 ReturnedToClient;
  ok_out : num_outstanding t = wsum (ind SentToServer) (inner t);
  ok_buf : num_buffered t = wsum (ind GottenFromServer) (inner t);
}.

Lemma new_ok : tree_ok new.
Proof.
  constructor; simpl.
  - unfold u64_max. lia.
  - split; [|done]. unfold kind_eq. naive_solver.
  - exists (mkRange 0 0). split; [by left|done].
  - reflexivity.
  - reflexivity.
Qed.

Lemma ind_veq k a b : k = SentToServer \/ k = GottenFromServer -> kind_eq a b -> ind k a = ind k b.
Proof. unfold kind_eq. intros [-> | ->]; destruct a, b; naive_solver. Qed.

Lemma wsum_ind_bounds k lo hi l : tiles lo hi l -> 0 <= wsum (ind k) l <= hi + 1 - lo.
Proof.
  revert lo. induction l as [|[r v] l IH]; intros lo; simpl; [lia|].
  intros (<- & Hr & Ht). specialize (IH _ Ht). unfold ind at 1 3. case_bool_decide; lia.
Qed.

(** ** The invariant check of the code accepts every [tree_ok] tree *)

Section Specs.
Context `{Build}.
Implicit Types (t : RangeTree).

Lemma len_ok r : 0 <= first r <= last r -> last r - first r < u64_max -> len r = Done (last r - first r + 1).
Proof. intros. unfold len. rewrite sub64_ok by (unfold in_u64; lia). simpl. by rewrite add64_ok by (unfold in_u64; lia). Qed.

Lemma inv_fold_spec l r0 prev pk n_out n_buf :
  0 <= prev -> tiles (prev + 1) u64_max l -> kcompact ((r0, pk) :: l) -> 0 <= n_out -> 0 <= n_buf ->
  n_out + wsum (ind SentToServer) l <= u64_max -> n_buf + wsum (ind GottenFromServer) l <= u64_max ->
  inv_fold l prev (Some pk) true n_out n_buf =
    Done (true, n_out + wsum (ind SentToServer) l, n_buf + wsum (ind GottenFromServer) l).
Proof.
  revert r0 prev pk n_out n_buf. induction l as [|[r k] l IH];
    intros r0 prev pk n_out n_buf Hp Ht Hc Ho Hb Hso Hsb; simpl.
  { by rewrite !Z.add_0_r. }
  simpl in Ht. destruct Ht as (Hf & Hr & Ht). pose proof (tiles_le _ _ _ Ht).
  pose proof (wsum_ind_bounds SentToServer _ _ _ Ht). pose proof (wsum_ind_bounds GottenFromServer _ _ _ Ht).
  destruct Hc as [Hne Hc]. simpl in Hne. rewrite add64_ok by (unfold in_u64; lia). simpl.
  rewrite Hf, Z.eqb_refl. rewrite bool_decide_eq_false_2; simpl.
  2:{ intros ->. apply Hne. by left. }
  simpl in Hso, Hsb. destruct k; ind_simpl; simpl in *;
    rewrite ?len_ok by lia; simpl; rewrite ?add64_ok by (unfold in_u64; lia); simpl;
    rewrite (IH r) by (done || lia); (apply (f_equal Done), f_equal2; [apply f_equal|]; lia).
Qed.

Lemma ok_head t : tree_ok t -> exists r l, inner t = (r, ReturnedToClient) :: l /\ first r = 0.
Proof.
  intros [Ht _ Hz _ _]. destruct (inner t) as [|[r k] l]; simpl in Ht; [unfold u64_max in Ht; lia|].
  destruct Ht as (Hf & Hr & Ht). exists r, l. split; [|done].
  apply holds_cons in Hz as [[<- _]|Hz]; [done|]. eapply holds_bound in Hz; [|done]. lia.
Qed.

Lemma tree_ok_invariant t : tree_ok t -> tree_invariant t = Done true.
Proof.
  intros Hok. destruct (ok_head t Hok) as (r & l & Hin & Hf). destruct Hok as [Ht Hc _ Ho Hb].
  unfold tree_invariant. rewrite Hin in *. simpl in *. destruct Ht as (_ & Hr & Ht).
  pose proof (wsum_ind_bounds SentToServer _ _ _ Ht). pose proof (wsum_ind_bounds GottenFromServer _ _ _ Ht).
  rewrite Hf, Z.eqb_refl; simpl. rewrite (inv_fold_spec l r) by (done || lia). simpl.
  ind_simpl. simpl in *.
  rewrite !(proj2 (Z.eqb_eq _ _)) by lia. done.
Qed.

Lemma check_ok t : tree_ok t -> check_invariant t = Done tt.
Proof.
  intros Hok. unfold check_invariant. rewrite (tree_ok_invariant t Hok). by destruct debug_assertions.
Qed.

(** ** Setting a point or a range *)

(** [t'] is [t] with the indices [c..d] set to [k]: elsewhere the state is unchanged, except
    that skipped indices may become returned. *)
Definition updated t t' (c d : Z) (k : Kind) : Prop :=
  (forall q v, holds (inner t) q v -> ~ c <= q <= d -> exists v', holds (inner t') q v' /\ kind_up v v') /\
  (forall q, c <= q <= d -> exists v', holds (inner t') q v' /\ kind_up k v') /\
  (forall r v, (r, v) ∈ inner t' -> exists q, first r <= q <= last r /\
     ((c <= q <= d /\ v = k) \/ (~ c <= q <= d /\ holds (inner t) q v))).

Lemma ok_lookup t p : tree_ok t -> in_u64 p -> exists k, holds (inner t) p k.
Proof. intros Hok Hp. eapply holds_total; [apply Hok|exact Hp]. Qed.

(** The range around a point, as the code finds it. *)
Lemma ok_remove t p k :
  tree_ok t -> holds (inner t) p k ->
  exists l1 r l2, inner t = l1 ++ (r, k) :: l2 /\ first r <= p <= last r /\
    remove_from_map (inner t) (point p) = Done (r, k, l1 ++ l2).
Proof.
  intros Hok (r & Hin & Hr). apply list_elem_of_split in Hin as (l1 & l2 & E). exists l1, r, l2.
  split_and!; try done; try lia. unfold remove_from_map. pose proof (ok_tiles t Hok) as Ht.
  rewrite E in *. apply tiles_mid in Ht as (_ & H1 & _).
  rewrite bt_remove_mid; [done| |done]. eapply tiles_below; [done|lia].
Qed.

(** A placed range gives a good tree again, if the counters follow. *)
Lemma place_ok t l1 r l2 old c d new n_out n_buf :
  tree_ok t -> inner t = l1 ++ (r, old) :: l2 -> first r <= c -> c <= d -> d <= last r ->
  ~ kind_eq old new -> ~ c <= 0 <= d ->
  n_out = num_outstanding t + (d - c + 1) * (ind SentToServer new - ind SentToServer old) ->
  n_buf = num_buffered t + (d - c + 1) * (ind GottenFromServer new - ind GottenFromServer old) ->
  exists z', place (l1 ++ l2) (rest_of (first r) (last r) c d) old (mkRange c d) new = Done z' /\
    tree_ok (mkTree z' n_out n_buf) /\ updated t (mkTree z' n_out n_buf) c d new.
Proof.
  intros Hok E Hc Hcd Hd Hne H0 -> ->. destruct r as [a b]; simpl in *.
  pose proof (ok_tiles t Hok) as Ht. pose proof (ok_compact t Hok) as Hcomp. rewrite E in Ht, Hcomp.
  destruct (place_spec (veq := kind_eq) (vup := kind_up) l1 l2 a b old c d new Ht Hc Hcd Hd)
    as (z' & Hp & Hc' & Ht' & Hout & Hin & Hw & Horig). specialize (Hc' Hcomp Hne).
  rewrite <- E in *. exists z'. split; [done|]. split; [|done]. constructor; simpl; try done.
  - destruct (Hout 0 _ (ok_zero t Hok) H0) as (v' & Hv' & Hup).
    destruct Hup as [<-|[? _]]; done.
  - rewrite (ok_out t Hok). symmetry. apply Hw. intros ??. apply ind_veq. by left.
  - rewrite (ok_buf t Hok). symmetry. apply Hw. intros ??. apply ind_veq. by right.
Qed.

Lemma ind_count t p k :
  tree_ok t -> holds (inner t) p k -> (k = SentToServer \/ k = GottenFromServer) ->
  1 <= wsum (ind k) (inner t).
Proof.
  intros Hok (r & Hin & Hr) Hk. apply list_elem_of_split in Hin as (l1 & l2 & E).
  pose proof (ok_tiles t Hok) as Ht. rewrite E in *. rewrite wsum_app; simpl.
  apply tiles_mid in Ht as (? & H1 & H2).
  pose proof (wsum_ind_bounds k _ _ _ H1). pose proof (wsum_ind_bounds k _ _ _ H2).
  ind_simpl. lia.
Qed.

Lemma ok_counts t : tree_ok t -> 0 <= num_outstanding t <= u64_max /\ 0 <= num_buffered t <= u64_max.
Proof.
  intros Hok. destruct (ok_head t Hok) as (r & l & E & Hf). pose proof (ok_tiles t Hok) as Ht.
  rewrite (ok_out t Hok), (ok_buf t Hok). rewrite E in *. simpl in *. destruct Ht as (_ & Hr & Ht).
  pose proof (wsum_ind_bounds SentToServer _ _ _ Ht). pose proof (wsum_ind_bounds GottenFromServer _ _ _ Ht).
  ind_simpl. lia.
Qed.

(** Counting one more needs room, which the point itself provides. *)
Lemma ind_room t p k k' :
  tree_ok t -> holds (inner t) p k -> k <> k' -> (k' = SentToServer \/ k' = GottenFromServer) ->
  p <> 0 -> wsum (ind k') (inner t) < u64_max.
Proof.
  intros Hok Hh Hne Hk Hp. destruct (ok_head t Hok) as (r0 & l & E & Hf).
  pose proof (ok_tiles t Hok) as Ht. rewrite E in *. simpl in *. destruct Ht as (_ & Hr0 & Ht).
  rewrite (ind_ne k' ReturnedToClient) by naive_solver.
  apply holds_cons in Hh as [[-> Hq]|(r & Hin & Hr)].
  - pose proof (wsum_ind_bounds k' _ _ _ Ht). lia.
  - apply list_elem_of_split in Hin as (l1 & l2 & ->). apply tiles_mid in Ht as (? & H1 & H2).
    rewrite wsum_app; simpl. pose proof (wsum_ind_bounds k' _ _ _ H1).
    pose proof (wsum_ind_bounds k' _ _ _ H2). rewrite ind_ne by done. lia.
Qed.

Lemma set_point_refused t p old new_kind :
  tree_ok t -> holds (inner t) p old -> is_prior old new_kind = false ->
  set_point_as t p new_kind = Done (false, t).
Proof.
  intros Hok Hh Hpr. destruct (ok_remove t p old Hok Hh) as (l1 & r & l2 & E & Hr & Hrm).
  unfold set_point_as. rewrite Hrm; simpl. rewrite Hpr; simpl.
  pose proof (ok_tiles t Hok) as Ht. rewrite E in Ht.
  rewrite bt_insert_tiles by done. rewrite <- E. by destruct t.
Qed.

Lemma set_point_accepted t p old new_kind :
  tree_ok t -> in_u64 p -> holds (inner t) p old -> is_prior old new_kind = true ->
  ~ kind_eq old new_kind ->
  exists t', set_point_as t p new_kind = Done (true, t') /\ tree_ok t' /\ updated t t' p p new_kind.
Proof.
  intros Hok Hp Hh Hpr Hne. destruct (ok_remove t p old Hok Hh) as (l1 & r & l2 & E & Hr & Hrm).
  assert (H0 : p <> 0).
  { intros ->. rewrite (holds_unique _ _ _ _ _ _ (ok_tiles t Hok) Hh (ok_zero t Hok)) in Hpr. done. }
  pose proof (ok_tiles t Hok) as Ht. rewrite E in Ht. apply tiles_mid in Ht as (_ & H1 & H2).
  pose proof (tiles_le _ _ _ H1). pose proof (tiles_le _ _ _ H2).
  unfold set_point_as. rewrite Hrm; simpl. rewrite Hpr; simpl. destruct r as [a b]; simpl in *.
  destruct (place_ok t l1 (mkRange a b) l2 old p p new_kind
    (num_outstanding t + (p - p + 1) * (ind SentToServer new_kind - ind SentToServer old))
    (num_buffered t + (p - p + 1) * (ind GottenFromServer new_kind - ind GottenFromServer old)))
    as (z' & Hz & Hok' & Hup); try done; try (simpl; lia).
  exists (mkTree z' (num_outstanding t + (p - p + 1) * (ind SentToServer new_kind - ind SentToServer old))
    (num_buffered t + (p - p + 1) * (ind GottenFromServer new_kind - ind GottenFromServer old))).
  split; [|done]. simpl in Hz.
  destruct (ok_counts t Hok) as [Hco Hcb].
  pose proof (ok_out t Hok) as Ho. pose proof (ok_buf t Hok) as Hb.
  pose proof (fun k' Hn Hk => ind_room t p old k' Hok Hh Hn Hk H0) as Hroom.
  pose proof (fun Hk => ind_count t p old Hok Hh Hk) as Hcnt.
  pose proof (Hroom SentToServer) as Hr1. pose proof (Hroom GottenFromServer) as Hr2.
  clear Hroom.
  destruct old; try done; destruct new_kind; simpl in Hpr, Hne |- *; try done; ind_simpl;
    try (exfalso; apply Hne; by left);
    try (specialize (Hcnt ltac:(auto))); try (specialize (Hr1 ltac:(done) ltac:(auto)));
    try (specialize (Hr2 ltac:(done) ltac:(auto)));
    rewrite ?sub64_ok by (unfold in_u64; lia); simpl; rewrite ?add64_ok by (unfold in_u64; lia); simpl;
    rewrite split_at_rest by (unfold in_u64 in Hp; lia); simpl; unfold point; rewrite Hz; simpl;
    apply (f_equal Done), (f_equal (pair true)), f_equal2; lia.
Qed.

(** Consecutive indices in the same state lie in one range, because neighbours differ. *)
Lemma same_run t k lo hi l1 r l2 :
  tree_ok t -> inner t = l1 ++ (r, k) :: l2 -> first r <= lo <= last r -> hi <= u64_max ->
  (forall q, lo <= q <= hi -> holds (inner t) q k) -> hi <= last r.
Proof.
  intros Hok E Hr Hhi Hall. destruct (decide (hi <= last r)) as [|Hn]; [done|exfalso].
  pose proof (ok_tiles t Hok) as Ht. pose proof (ok_compact t Hok) as Hc.
  assert (Hnext : holds (inner t) (last r + 1) k) by (apply Hall; lia).
  rewrite E in *. apply compact_mid in Hc as [_ [Hne _]].
  pose proof Ht as (_ & H1 & H2)%tiles_mid.
  destruct l2 as [|[r2 k2] l2]; simpl in H2; [lia|]. destruct H2 as (Hf & Hr2 & _).
  apply Hne. left. eapply holds_unique; [exact Ht|exact Hnext|].
  exists r2. split; [set_solver|lia].
Qed.

(** *** The returned indices form a prefix *)

Definition returned_prefix t : Prop := forall r, (r, ReturnedToClient) ∈ inner t -> first r = 0.

Lemma returned_from_zero t q q' :
  tree_ok t -> returned_prefix t -> holds (inner t) q ReturnedToClient -> 0 <= q' <= q ->
  holds (inner t) q' ReturnedToClient.
Proof. intros Hok Hp (r & Hin & Hr) Hq. exists r. rewrite (Hp r Hin) in *. split; [done|lia]. Qed.

(** A returned run that reaches down to 0 is one range. *)
Lemma returned_run_first t r q :
  tree_ok t -> (r, ReturnedToClient) ∈ inner t -> first r <= q <= last r ->
  (forall x, 0 <= x <= q -> holds (inner t) x ReturnedToClient) -> first r = 0.
Proof.
  intros Hok Hin Hq Hall. destruct (ok_head t Hok) as (r0 & l & E & Hf).
  pose proof (ok_tiles t Hok) as Ht. pose proof (tiles_elem _ _ _ _ _ Ht Hin).
  assert (Hr0 : first r0 <= last r0 <= u64_max).
  { assert ((r0, ReturnedToClient) ∈ inner t) as Hi by (rewrite E; by left).
    pose proof (tiles_elem _ _ _ _ _ Ht Hi). lia. }
  assert (q <= last r0).
  { apply (same_run t ReturnedToClient 0 q [] r0 l Hok E); [lia|lia|done]. }
  rewrite <- Hf. f_equal. eapply (tiles_range_unique _ _ _ q); [exact Ht|exact Hin| |lia|lia].
  rewrite E. by left.
Qed.

Lemma prefix_updated t t' c d k :
  tree_ok t -> tree_ok t' -> updated t t' c d k -> returned_prefix t ->
  (forall q, c <= q <= d -> ~ holds (inner t) q ReturnedToClient) ->
  (k = ReturnedToClient -> c = d /\ holds (inner t) (c - 1) ReturnedToClient) ->
  returned_prefix t'.
Proof.
  intros Hok Hok' (Hout & Hin & Horig) Hp Hnot Hk r Hr.
  assert (Hkeep : forall q, holds (inner t) q ReturnedToClient -> holds (inner t') q ReturnedToClient).
  { intros q Hq. destruct (Hout q _ Hq) as (v' & Hv' & [<-|[? _]]); [|done..].
    intros Hcd. by apply (Hnot q). }
  assert (Hbelow : forall q, holds (inner t) q ReturnedToClient -> forall x, 0 <= x <= q ->
    holds (inner t') x ReturnedToClient).
  { intros q Hq x Hx. by eapply Hkeep, returned_from_zero. }
  destruct (Horig r _ Hr) as (q & Hq & [[Hcd Hkk]|[_ Hh]]).
  - destruct (Hk (eq_sym Hkk)) as [-> Hprev]. assert (q = d) as -> by lia.
    eapply returned_run_first; [done..|]. intros x Hx.
    destruct (decide (x = d)) as [->|]; [|apply (Hbelow (d - 1)); [done|lia]].
    destruct (Hin d) as (v' & Hv' & Hup); [lia|]. subst k.
    by destruct Hup as [<-|[? _]].
  - eapply returned_run_first; [done..|]. by apply Hbelow.
Qed.

Lemma set_range_as_sent_spec t lo hi :
  tree_ok t -> 0 <= lo <= hi -> hi <= u64_max ->
  (forall q, lo <= q <= hi -> holds (inner t) q KNone) ->
  exists t', set_range_as_sent t lo hi = Done t' /\ tree_ok t' /\ updated t t' lo hi SentToServer /\
    num_outstanding t' = num_outstanding t + (hi - lo + 1).
Proof.
  intros Hok Hlo Hhi Hall. unfold set_range_as_sent, range_new.
  rewrite (check_ok t Hok); simpl. rewrite (proj2 (Z.leb_le lo hi)) by lia; simpl.
  destruct (ok_remove t lo KNone Hok) as (l1 & r & l2 & E & Hr & Hrm); [apply Hall; lia|].
  rewrite Hrm; simpl. pose proof (same_run t _ lo hi l1 r l2 Hok E Hr Hhi Hall) as Hspan.
  unfold spans; simpl. rewrite !(proj2 (Z.leb_le _ _)) by lia; simpl.
  assert (H0 : lo <> 0).
  { intros ->. assert (KNone = ReturnedToClient); [|done].
    eapply holds_unique; [apply Hok|apply (Hall 0); lia|apply Hok]. }
  pose proof (ok_tiles t Hok) as Ht. rewrite E in Ht. apply tiles_mid in Ht as (_ & H1 & H2).
  pose proof (tiles_le _ _ _ H1). pose proof (tiles_le _ _ _ H2).
  destruct (place_ok t l1 r l2 KNone lo hi SentToServer
    (num_outstanding t + (hi - lo + 1)) (num_buffered t)) as (z' & Hz & Hok' & Hup);
    try done; try lia; [unfold kind_eq; naive_solver|ind_simpl; lia..|].
  destruct (ok_counts _ Hok') as [Hc _]. simpl in Hc.
  rewrite len_ok by (simpl; lia); simpl. destruct r as [a b]; simpl in *.
  rewrite add64_ok by (unfold in_u64; lia); simpl.
  rewrite remove_rest by lia; simpl. rewrite Hz; simpl. rewrite (check_ok _ Hok'); simpl.
  by eexists.
Qed.

(** ** Rewinding *)

Lemma remove_above_spec fuel lowish l1 l2 :
  0 <= lowish -> below (lowish + 1) l1 -> tiles (lowish + 1) u64_max l2 -> (length l2 <= fuel)%nat ->
  remove_above fuel lowish (l1 ++ l2) = Done l1.
Proof.
  revert lowish l2. induction fuel as [|fuel IH]; intros lowish l2 H0 Hb Ht Hlen; simpl;
    destruct (Z.ltb_spec lowish u64_max) as [Hlt|Hge].
  1,3: destruct l2 as [|[r k] l2]; simpl in Ht, Hlen; [lia|]; try lia; destruct Ht as (Hf & Hr & Ht).
  2,3: destruct l2 as [|[r k] l2]; simpl in Ht; [by rewrite app_nil_r|];
    destruct Ht as (? & ? & Ht); apply tiles_le in Ht; lia.
  rewrite add64_ok by (unfold in_u64; lia); simpl. unfold remove_from_map.
  rewrite bt_remove_mid by (done || lia). simpl. apply IH; try lia; [|done].
  eapply Forall_impl; [done|]. simpl. lia.
Qed.

(** Rewinding cuts the tree at [low] and puts one run behind it. *)
Lemma set_above_shape t low :
  tree_ok t -> in_u64 low ->
  exists l1 r k l2, inner t = l1 ++ (r, k) :: l2 /\ first r <= low <= last r /\
    let t' := mkTree (l1 ++ (if first r <? low then [(mkRange (first r) (low - 1), k)] else []) ++ [(mkRange low u64_max, KNone)])
                (num_outstanding t) (num_buffered t) in
    set_above_as_none t low = (_ ← check_invariant t'; Done t') /\ tiles 0 u64_max (inner t').
Proof.
  intros Hok Hlow. unfold set_above_as_none. rewrite (check_ok t Hok); simpl.
  unfold range_new, in_u64 in *. rewrite (proj2 (Z.leb_le _ _)) by lia; simpl.
  destruct (ok_lookup t low Hok Hlow) as [k Hk].
  destruct (ok_remove t low k Hok Hk) as (l1 & [a b] & l2 & E & Hr & Hrm). rewrite Hrm; simpl in *.
  exists l1, (mkRange a b), k, l2. split; [done|]. split; [done|]. simpl.
  pose proof (ok_tiles t Hok) as Ht. rewrite E in Ht.
  pose proof Ht as (_ & H1 & H2)%tiles_mid; simpl in *.
  pose proof (tiles_le _ _ _ H1). pose proof (tiles_le _ _ _ H2).
  rewrite remove_above_spec; try done; [|lia|eapply tiles_below; [done|lia]|rewrite length_app; lia].
  simpl. rewrite split_at_rest by lia; simpl.
  set (pre := if a <? low then [(mkRange a (low - 1), k)] else []).
  assert (Hpre : tiles a (low - 1) pre) by (unfold pre; destruct (Z.ltb_spec a low); simpl; lia).
  assert (Hins : match (if a <? low then Some (mkRange a (low - 1)) else None) with
    | Some range => bt_insert range k l1 | None => l1 end = l1 ++ pre).
  { unfold pre. destruct (Z.ltb_spec a low); [|by rewrite app_nil_r].
    rewrite <- (app_nil_r l1) at 1. rewrite bt_insert_mid; [done|simpl; lia| |done].
    eapply tiles_below; [done|simpl; lia]. }
  rewrite Hins. clear Hins.
  assert (Ht' : tiles 0 (low - 1) (l1 ++ pre)).
  { apply tiles_app. exists (a - 1). by replace (a - 1 + 1) with a by lia. }
  rewrite <- (app_nil_r (l1 ++ pre)), bt_insert_mid;
    [|simpl; lia|eapply tiles_below; [done|simpl; lia]|done].
  rewrite <- app_assoc. split; [done|]. rewrite app_assoc. apply tiles_mid; simpl. split_and!; try done; lia.
Qed.

Lemma above_holds t low l1 r k l2 :
  tree_ok t -> inner t = l1 ++ (r, k) :: l2 -> first r <= low <= last r ->
  let m := l1 ++ (if first r <? low then [(mkRange (first r) (low - 1), k)] else []) ++ [(mkRange low u64_max, KNone)] in
  (forall q v, q < low -> holds (inner t) q v -> holds m q v) /\ (forall q, low <= q <= u64_max -> holds m q KNone).
Proof.
  intros Hok E Hr m. pose proof (ok_tiles t Hok) as Ht. rewrite E in Ht |- *. pose proof Ht as (_ & H1 & H2)%tiles_mid.
  split.
  - intros q v Hq. unfold m. rewrite !holds_app, holds_cons. intros [Hh|[[-> Hh]|Hh]]; [by auto| |].
    + right; left. rewrite (proj2 (Z.ltb_lt _ _)) by lia.
      exists (mkRange (first r) (low - 1)). split; [by left|simpl in *; lia].
    + eapply holds_bound in Hh; [|done]. lia.
  - intros q Hq. unfold m. rewrite !holds_app, holds_cons; simpl. right; right; left. split; [done|lia].
Qed.

(** Rewinding (release build) sets every index from [low] on to "not asked for" and keeps
    the rest; its loop ends.  The counters are not adjusted. *)
Theorem set_above_as_none_release t low :
  tree_ok t -> in_u64 low -> debug_assertions = false ->
  exists t', set_above_as_none t low = Done t' /\
    (forall q k, q < low -> holds (inner t) q k -> holds (inner t') q k) /\
    (forall q, low <= q <= u64_max -> holds (inner t') q KNone) /\
    tiles 0 u64_max (inner t') /\
    num_outstanding t' = num_outstanding t /\ num_buffered t' = num_buffered t.
Proof.
  intros Hok Hlow Hrel. destruct (set_above_shape t low Hok Hlow) as (l1 & r & k & l2 & E & Hr & Hs & Ht).
  destruct (above_holds t low l1 r k l2 Hok E Hr) as [Hb Ha]. unfold check_invariant in Hs. rewrite Hrel in Hs.
  eexists. split; [exact Hs|]. by split_and!.
Qed.

(** It keeps the invariant when it drops no read that is counted, and the index before is not one
    that nobody asked for. *)
Definition counted (k : Kind) : bool := bool_decide (k = SentToServer \/ k = GottenFromServer).

Lemma wsum_uncounted k l :
  k = SentToServer \/ k = GottenFromServer -> Forall (fun e => counted e.2 = false) l -> wsum (ind k) l = 0.
Proof.
  intros Hk. induction 1 as [|[r v] l Hv _ IH]; simpl; [done|]. simpl in Hv. rewrite IH, ind_ne; [lia|].
  intros ->. unfold counted in Hv. by apply bool_decide_eq_false in Hv.
Qed.

Lemma set_above_ok t low :
  tree_ok t -> 0 < low <= u64_max -> ~ holds (inner t) (low - 1) KNone ->
  (forall r k, (r, k) ∈ inner t -> low <= last r -> counted k = false) ->
  exists t', set_above_as_none t low = Done t' /\ tree_ok t' /\
    (forall q k, q < low -> holds (inner t) q k -> holds (inner t') q k) /\
    (forall q, low <= q <= u64_max -> holds (inner t') q KNone).
Proof.
  intros Hok Hlow Hprev Hunc.
  destruct (set_above_shape t low Hok) as (l1 & r & k & l2 & E & Hr & Hs & Ht); [unfold in_u64; lia|].
  destruct (above_holds t low l1 r k l2 Hok E Hr) as [Hb Ha]. cbv zeta in Hs, Ht.
  set (pre := if first r <? low then _ else []) in *. set (t' := mkTree _ _ _) in *.
  assert (Hk : counted k = false) by (apply (Hunc r); [rewrite E; set_solver|lia]).
  assert (Hl2 : Forall (fun e => counted e.2 = false) l2).
  { apply Forall_forall. intros [r' k'] Hin. apply (Hunc r'); [rewrite E; set_solver|].
    pose proof (ok_tiles t Hok) as Ht0. rewrite E in Ht0. apply tiles_mid in Ht0 as (_ & _ & H2).
    eapply tiles_elem in Hin; [|exact H2]. lia. }
  assert (Hsum : forall k', k' = SentToServer \/ k' = GottenFromServer -> wsum (ind k') (inner t) = wsum (ind k') (inner t')).
  { intros k' Hk'. rewrite E. simpl. rewrite !wsum_app. simpl.
    assert (ind k' k = 0) as Hi by (apply ind_ne; intros ->; unfold counted in Hk; by apply bool_decide_eq_false in Hk).
    rewrite (wsum_uncounted k' l2 Hk' Hl2), Hi, (ind_ne k' KNone) by (destruct Hk' as [-> | ->]; done).
    unfold pre. destruct (first r <? low); simpl; rewrite ?Hi; lia. }
  assert (Hok' : tree_ok t'); [|rewrite Hs, (check_ok t' Hok'); by exists t'].
  split; [exact Ht| | |rewrite <- (Hsum SentToServer) by auto; apply Hok|rewrite <- (Hsum GottenFromServer) by auto; apply Hok].
  - pose proof (ok_compact t Hok) as Hc. rewrite E in Hc. apply compact_mid in Hc as [Hc _]. simpl. unfold pre.
    pose proof (ok_tiles t Hok) as Ht0. rewrite E in Ht0. pose proof Ht0 as (_ & H1 & _)%tiles_mid.
    assert (Hne : forall v, holds (inner t) (low - 1) v -> ~ kind_eq v KNone).
    { intros v Hv Hq. apply Hprev. unfold kind_eq in Hq. destruct v; naive_solver. }
    destruct (Z.ltb_spec (first r) low).
    + apply compact_mid. split; [by eapply compact_change|]. split; [|done]. apply Hne. rewrite E.
      exists r. split; [set_solver|lia].
    + simpl. destruct l1 as [|[r1 k1] l1 _] using rev_ind; [done|]. rewrite <- app_assoc. apply compact_mid.
      apply compact_snoc_inv in Hc. split; [done|]. split; [|done]. apply Hne. rewrite E.
      apply tiles_mid in H1 as (Hr1 & _ & H1). simpl in H1. exists r1. split; [set_solver|lia].
  - apply Hb; [lia|]. apply Hok.
Qed.

(** ** Queries *)

Lemma first_of_split k l :
  match first_of k l with
  | Some r => exists l1 l2, l = l1 ++ (r, k) :: l2 /\ Forall (fun e => e.2 <> k) l1
  | None => Forall (fun e => e.2 <> k) l
  end.
Proof.
  unfold first_of. induction l as [|[r v] l IH]; simpl; [done|].
  rewrite filter_cons; simpl. case_decide as Hv; simpl.
  - subst v. by exists [], l.
  - destruct (fst <$> head (filter _ l)) as [r'|].
    + destruct IH as (l1 & l2 & -> & Hl1). exists ((r, v) :: l1), l2. split; [done|]. by constructor.
    + by constructor.
Qed.

Lemma not_holds_forall (l : list (Range * Kind)) k q : Forall (fun e => e.2 <> k) l -> ~ holds l q k.
Proof. rewrite Forall_forall. intros Hl (r & Hin & _). by apply (Hl _ Hin). Qed.

(** The queries answer from the state of the single indices: [is_returned] and
    [next_return_is] test it, [first_outstanding] is the least index asked for, and
    [min_range_to_fetch] is the first maximal run of indices not asked for. *)
Theorem range_tree_queries t :
  tree_ok t ->
  (forall p, is_returned t p = true <-> holds (inner t) p ReturnedToClient) /\
  (forall p, 1 <= p <= u64_max -> exists b, next_return_is t p = Done b /\
     (b = true <-> holds (inner t) (p - 1) ReturnedToClient /\ ~ holds (inner t) p ReturnedToClient)) /\
  (forall q, first_outstanding t = Some q ->
     holds (inner t) q SentToServer /\ forall q', q' < q -> ~ holds (inner t) q' SentToServer) /\
  (first_outstanding t = None -> forall q, ~ holds (inner t) q SentToServer) /\
  (forall a b, min_range_to_fetch t = (a, b) -> (a, b) <> (0, 0) ->
     (forall q, a <= q <= b -> holds (inner t) q KNone) /\
     (forall q, q < a -> ~ holds (inner t) q KNone) /\
     ~ holds (inner t) (b + 1) KNone).
Proof.
  intros Hok. pose proof (ok_tiles t Hok) as Ht.
  assert (Hret : forall p, is_returned t p = true <-> holds (inner t) p ReturnedToClient).
  { intros p. rewrite <- (bt_get_holds _ _ _ _ _ Ht). unfold is_returned.
    destruct (bt_get (inner t) (point p)) as [[]|]; naive_solver. }
  assert (Hfirst : forall k l1 r l2, inner t = l1 ++ (r, k) :: l2 -> Forall (fun e => e.2 <> k) l1 ->
    first r <= last r /\ (forall q, first r <= q <= last r -> holds (inner t) q k) /\
    forall q', q' < first r -> ~ holds (inner t) q' k).
  { intros k l1 r l2 E Hl. rewrite E in *. apply tiles_mid in Ht as (? & H1 & H2). split_and!; [done|..].
    - intros q Hq. exists r. split; [set_solver|done].
    - intros q' Hq'. rewrite holds_app, holds_cons. intros [Hh|[[_ ?]|Hh]]; [|lia|].
      + by eapply not_holds_forall.
      + eapply holds_bound in Hh; [|done]. lia. }
  split_and!; [done|..].
  - intros p Hp. unfold next_return_is. rewrite sub64_ok by (unfold in_u64; lia); simpl.
    eexists. split; [done|]. rewrite <- !Hret. unfold is_returned.
    destruct (bt_get (inner t) (point (p - 1))) as [[]|], (bt_get (inner t) (point p)) as [[]|]; naive_solver.
  - intros q. unfold first_outstanding. pose proof (first_of_split SentToServer (inner t)) as Hf.
    destruct (first_of SentToServer (inner t)) as [r|]; [|done]. simpl. intros [= <-].
    destruct Hf as (l1 & l2 & E & Hl). destruct (Hfirst _ _ _ _ E Hl) as (? & Hin & Hbelow).
    split; [apply Hin; lia|done].
  - unfold first_outstanding. pose proof (first_of_split SentToServer (inner t)) as Hf.
    destruct (first_of SentToServer (inner t)); [done|]. intros _ q. by apply not_holds_forall.
  - intros a b. unfold min_range_to_fetch. pose proof (first_of_split KNone (inner t)) as Hf.
    destruct (first_of KNone (inner t)) as [r|]; [|intros [= <- <-]; done]. intros [= <- <-] _.
    destruct Hf as (l1 & l2 & E & Hl). destruct (Hfirst _ _ _ _ E Hl) as (? & Hin & Hbelow).
    split_and!; [done..|]. intros Hh.
    assert (last r + 1 <= u64_max) by (eapply holds_bound in Hh; [|done]; lia).
    assert (last r + 1 <= last r); [|lia].
    apply (same_run t KNone (first r) (last r + 1) l1 r l2 Hok E); [lia|done|].
    intros q Hq. destruct (decide (q <= last r)); [apply Hin; lia|].
    by replace q with (last r + 1) by lia.
Qed.

(** ** Sequences of operations *)

Inductive rt_op :=
| OpNone (p : Z) | OpSkip (p : Z) | OpRecvd (p : Z) | OpReturned (p : Z) | OpSent (low high : Z) | OpAbove (low : Z).

Definition rt_exec (op : rt_op) t : outcome RangeTree :=
  match op with
  | OpNone p => set_point_as_none t p
  | OpSkip p => set_point_as_skip t p
  | OpRecvd p => r ← set_point_as_recvd t p; Done r.2
  | OpReturned p => set_point_as_returned t p
  | OpSent low high => set_range_as_sent t low high
  | OpAbove low => set_above_as_none t low
  end.

Definition kind_eqb (a b : Kind) : bool :=
  bool_decide (a = b) || (bool_decide (a = Skip) && bool_decide (b = ReturnedToClient))
  || (bool_decide (a = ReturnedToClient) && bool_decide (b = Skip)).

Lemma kind_eqb_spec a b : kind_eqb a b = false -> ~ kind_eq a b.
Proof. destruct a, b; try done; unfold kind_eq; naive_solver. Qed.

(** The change of state is one: a point is not set to the state it is in. *)
Definition changes (old new : Kind) : bool := implb (is_prior old new) (negb (kind_eqb old new)).

Definition point_ok t (p : Z) (ok : Kind -> bool) : bool :=
  in_u64b p && match bt_get (inner t) (point p) with Some k => ok k | None => false end.

(** When the code's own checks allow an operation: a point changes its state, a range that is asked
    for was not, and a rewind drops no read that is outstanding or buffered (it does not adjust the
    counters), nor starts inside a run of indices that nobody asked for. *)
Definition op_ok t (op : rt_op) : bool :=
  match op with
  | OpNone p => point_ok t p (fun k => changes k KNone)
  | OpSkip p => point_ok t p (fun k => changes k Skip)
  | OpRecvd p => point_ok t p (fun k => changes k GottenFromServer)
  | OpReturned p => point_ok t p (fun k => is_prior k ReturnedToClient && negb (kind_eqb k ReturnedToClient))
  | OpSent low high =>
      (0 <=? low) && (low <=? high) && (high <=? u64_max) &&
      match bt_remove (inner t) (point low) with
      | Some (r, KNone, _) => high <=? last r
      | _ => false
      end
  | OpAbove low =>
      (0 <? low) && (low <=? u64_max) &&
      negb (bool_decide (bt_get (inner t) (point (low - 1)) = Some KNone)) &&
      forallb (fun e => (last e.1 <? low) || negb (counted e.2)) (inner t)
  end.

Inductive rt_reach : RangeTree -> Prop :=
| rt_reach_new : rt_reach new
| rt_reach_step t op t' : rt_reach t -> op_ok t op = true -> rt_exec op t = Done t' -> rt_reach t'.

Lemma set_point_any t p new_kind ok :
  tree_ok t -> point_ok t p ok = true -> (forall k, ok k = true -> changes k new_kind = true) ->
  exists b t' k, set_point_as t p new_kind = Done (b, t') /\ tree_ok t' /\
    holds (inner t) p k /\ ok k = true /\ b = is_prior k new_kind.
Proof.
  intros Hok Hp Himp. unfold point_ok in Hp. apply andb_true_iff in Hp as [Hp%in_u64b_spec Hk].
  destruct (bt_get (inner t) (point p)) as [k|] eqn:E; [|done].
  apply (bt_get_holds _ _ _ _ _ (ok_tiles t Hok)) in E. specialize (Himp k Hk). unfold changes in Himp.
  destruct (is_prior k new_kind) eqn:Hpr; simpl in Himp.
  - apply negb_true_iff, kind_eqb_spec in Himp.
    destruct (set_point_accepted t p k new_kind Hok Hp E Hpr Himp) as (t' & Hs & Hok' & _). eauto 10.
  - rewrite (set_point_refused t p k new_kind Hok E Hpr). eauto 10.
Qed.

Lemma sent_ok t low high l1 r l2 :
  tree_ok t -> inner t = l1 ++ (r, KNone) :: l2 -> first r <= low -> high <= last r ->
  forall q, low <= q <= high -> holds (inner t) q KNone.
Proof. intros Hok E Hl Hh q Hq. exists r. rewrite E. split; [set_solver|lia]. Qed.

Lemma rt_exec_ok t op :
  tree_ok t -> op_ok t op = true -> exists t', rt_exec op t = Done t' /\ tree_ok t'.
Proof.
  intros Hok Hop. destruct op as [p|p|p|p|low high|low]; simpl in *;
    unfold set_point_as_none, set_point_as_skip, set_point_as_recvd, set_point_as_returned;
    rewrite ?(check_ok t Hok); simpl.
  1,2,3: destruct (set_point_any t p _ _ Hok Hop (fun k H => H)) as (b & t' & k & -> & Hok' & _);
    simpl; rewrite (check_ok t' Hok'); simpl; by eexists.
  - destruct (set_point_any t p ReturnedToClient _ Hok Hop) as (b & t' & k & -> & Hok' & _ & Hk & ->).
    { intros k [? Hk]%andb_true_iff. unfold changes. rewrite Hk. by rewrite implb_true_r. }
    apply andb_true_iff in Hk as [-> _]. simpl. rewrite (check_ok t' Hok'); simpl. by eexists.
  - rewrite !andb_true_iff in Hop. destruct Hop as [[[Hl Hlh] Hh] Hr].
    destruct (ok_lookup t low Hok) as [k Hk]; [unfold in_u64; lia|].
    destruct (ok_remove t low k Hok Hk) as (l1 & r & l2 & E & Hin & Hrm).
    unfold remove_from_map in Hrm. apply unwrap_done in Hrm. rewrite Hrm in Hr.
    destruct k; try done. destruct (set_range_as_sent_spec t low high Hok) as (t' & Hs & Hok' & _);
      [lia|lia| |by exists t'].
    eapply sent_ok; try done; lia.
  - rewrite !andb_true_iff in Hop. destruct Hop as [[[Hl%Z.ltb_lt Hm%Z.leb_le] Hp%negb_true_iff%bool_decide_eq_false] Hall].
    destruct (set_above_ok t low Hok) as (t' & Hs & Hok' & _); [lia| | |by exists t'].
    + intros Hh%(bt_get_holds _ _ _ _ _ (ok_tiles t Hok)). done.
    + intros r k Hin Hle. rewrite forallb_forall in Hall. apply list_elem_of_In in Hin. specialize (Hall _ Hin). simpl in Hall.
      apply orb_true_iff in Hall as [?%Z.ltb_lt|?%negb_true_iff]; [lia|done].
Qed.

Lemma rt_reach_ok t : rt_reach t -> tree_ok t.
Proof.
  induction 1 as [|t op t' _ IH Hop He]; [apply new_ok|].
  destruct (rt_exec_ok t op IH Hop) as (t'' & He' & Hok). rewrite He in He'. by injection He' as <-.
Qed.

(** C31.  The tree keeps its invariant: from a new tree, whatever sequence of its operations is run,
    as long as each is allowed ([op_ok]), the next one does not panic in either build profile, the
    code's own [tree_invariant] accepts the result, and the two counters count exactly the indices
    asked for and the indices received.  Allowed means: an index is set to a state that is not the
    one it has, a range that is asked for was not asked for, and a rewind ([set_above_as_none])
    starts behind an index that was asked for and drops none that is counted.  (What happens
    otherwise: [same_kind_breaks_invariant], [rewind_breaks_invariant].) *)
Theorem range_tree_invariant t op :
  rt_reach t -> op_ok t op = true ->
  exists t', rt_exec op t = Done t' /\ tree_invariant t' = Done true /\
    tiles 0 u64_max (inner t') /\
    num_outstanding t' = wsum (ind SentToServer) (inner t') /\
    num_buffered t' = wsum (ind GottenFromServer) (inner t').
Proof.
  intros Hok%rt_reach_ok Hop. destruct (rt_exec_ok t op Hok Hop) as (t' & He & Hok').
  exists t'. split_and!; [done|by apply tree_ok_invariant|apply Hok'..].
Qed.

(** Setting one index does what it says, on every branch: a state that does not precede
    the new one is left alone and [false] is returned; otherwise [true] is returned, that index
    gets the new state and every other index keeps its own, except that a skipped index may
    become returned when its run is joined with a returned one. *)
Theorem set_point_as_correct t p old new_kind :
  rt_reach t -> in_u64 p -> holds (inner t) p old ->
  (is_prior old new_kind = false -> set_point_as t p new_kind = Done (false, t)) /\
  (is_prior old new_kind = true -> ~ kind_eq old new_kind ->
   exists t', set_point_as t p new_kind = Done (true, t') /\
     (exists k', holds (inner t') p k' /\ kind_up new_kind k') /\
     forall q k, q <> p -> holds (inner t) q k -> exists k', holds (inner t') q k' /\ kind_up k k').
Proof.
  intros Hok%rt_reach_ok Hp Hh. split; [by apply set_point_refused|]. intros Hpr Hne.
  destruct (set_point_accepted t p old new_kind Hok Hp Hh Hpr Hne) as (t' & Hs & _ & Hout & Hin & _).
  exists t'. split_and!; [done|apply Hin; lia|]. intros q k Hq Hk. apply Hout; [done|lia].
Qed.

End Specs.

(** ** Findings, on concrete trees *)

Definition sent5 : outcome RangeTree := set_range_as_sent (H := dev) new 1 5.

(** [set_above_as_none] does not adjust the counters: after rewinding over outstanding reads
    the release build goes on with a wrong count, and the dev build aborts. *)
Theorem rewind_breaks_invariant :
  (t ← sent5; set_above_as_none (H := dev) t 3) = Panic /\
  (t ← sent5; t ← set_above_as_none (H := release) t 3; tree_invariant (H := release) t) = Done false.
Proof. split; vm_compute; reflexivity. Qed.

(** [set_point_as] with the state the index already has splits a run into equal neighbours:
    marking an index nobody asked for as overread aborts the dev build. *)
Theorem same_kind_breaks_invariant :
  set_point_as_none (H := dev) new 5 = Panic /\
  (t ← set_point_as_none (H := release) new 5; tree_invariant (H := release) t) = Done false.
Proof. split; vm_compute; reflexivity. Qed.

(** ** Witnesses *)

(** Reads 1..5 in flight, 3 received. *)
Definition demo : RangeTree :=
  mkTree [(mkRange 0 0, ReturnedToClient); (mkRange 1 2, SentToServer); (mkRange 3 3, GottenFromServer);
          (mkRange 4 5, SentToServer); (mkRange 6 u64_max, KNone)] 4 1.

Definition demo0 : RangeTree :=
  mkTree [(mkRange 0 0, ReturnedToClient); (mkRange 1 5, SentToServer); (mkRange 6 u64_max, KNone)] 5 0.

Lemma demo_reach : rt_reach (H := dev) demo.
Proof.
  apply (rt_reach_step demo0 (OpRecvd 3) demo); [apply (rt_reach_step new (OpSent 1 5) demo0)|..];
    [apply rt_reach_new|vm_compute; reflexivity..].
Qed.

(** An entry arrives; and all that is known beyond index 5, which is nothing, is forgotten. *)
Lemma range_tree_invariant_witness :
  (exists t', rt_exec (H := dev) (OpRecvd 1) demo = Done t' /\ num_outstanding t' = 3) /\
  (exists t', rt_exec (H := dev) (OpAbove 6) demo = Done t' /\ tree_invariant (H := dev) t' = Done true).
Proof.
  split.
  - destruct (range_tree_invariant (H := dev) demo (OpRecvd 1) demo_reach) as (t' & He & _).
    + vm_compute. reflexivity.
    + exists t'. split; [exact He|]. vm_compute in He. injection He as <-. reflexivity.
  - destruct (range_tree_invariant (H := dev) demo (OpAbove 6) demo_reach) as (t' & He & Hi & _).
    + vm_compute. reflexivity.
    + exists t'. split; [exact He|exact Hi].
Defined.

Lemma set_point_as_correct_witness :
  set_point_as (H := dev) demo 3 GottenFromServer = Done (false, demo).
Proof.
  apply (proj1 (set_point_as_correct (H := dev) demo 3 GottenFromServer GottenFromServer demo_reach
    ltac:(unfold in_u64, u64_max; lia)
    ltac:(exists (mkRange 3 3); split; [set_solver|simpl; lia]))).
  reflexivity.
Defined.

Lemma set_above_as_none_release_witness :
  exists t', set_above_as_none (H := release) demo 4 = Done t' /\ holds (inner t') 5 KNone.
Proof.
  destruct (set_above_as_none_release (H := release) demo 4) as (t' & He & _ & Ha & _).
  - apply (rt_reach_ok (H := dev)), demo_reach.
  - unfold in_u64, u64_max; lia.
  - reflexivity.
  - exists t'. split; [exact He|]. apply Ha. unfold u64_max. lia.
Defined.

Lemma range_tree_queries_witness :
  first_outstanding demo = Some 1 /\ min_range_to_fetch demo = (6, u64_max) /\
  ~ holds (inner demo) 0 SentToServer.
Proof.
  split; [reflexivity|]. split; [reflexivity|].
  destruct (range_tree_queries (H := dev) demo) as (_ & _ & Hf & _).
  - apply (rt_reach_ok (H := dev)), demo_reach.
  - apply (Hf 1 eq_refl). lia.
Defined.

End RT.
