(* ===== verification/PerColor.v ===== *)
(** * What the client knows of one chain ([fuzzy_log_client/src/fuzzy_log/per_color.rs])

    [PerColor] keeps, per chain, the snapshot up to which the application wants to read
    ([last_snapshot]), the state of every index ([RT.RangeTree]), the entry that waits for a newer
    snapshot, the early sentinels and the bookkeeping of a running read.

    The packets it stores are bytes read through [bytes_as_entry]: the interface [EntryView]
    gives what is used of them. *)

From stdpp Require Import base gmap sets list.
From Stdlib Require Import ZArith Lia.
From S2P Require Import Prelude RangeMap ClientRangeTree.

Open Scope Z_scope.

(** [bytes_as_entry(b).locs()] and [.id()] *)
Class EntryView (B U : Type) := {
  entry_locs : B -> list OrderIndex;
  entry_id : B -> U;
}.

Module PC.

(** [RH] stands for [IsRead], a reference-counted handle that is stored and dropped. *)
Record ReadState (RH : Type) := mkRead {
  outstanding_snapshots : Z;
  num_multiappends_searching_for : Z;
  being_read : RH;
}.
Arguments mkRead {RH} _ _ _.
Arguments outstanding_snapshots {RH} _.
Arguments num_multiappends_searching_for {RH} _.
Arguments being_read {RH} _.

Record PerColor (U B RH : Type) `{UuidOps U} := mkPC {
  chain : Z;
  last_snapshot : Z;
  read_status : RT.RangeTree;
  blocked_on_new_snapshot : option B;
  found_but_unused_multiappends : gmap U Z;
  required_no_remotes : gset U;
  is_being_read : option (ReadState RH);
  is_interesting : bool;
}.
Arguments mkPC {U B RH _} _ _ _ _ _ _ _ _.
Arguments chain {U B RH _} _.
Arguments last_snapshot {U B RH _} _.
Arguments read_status {U B RH _} _.
Arguments blocked_on_new_snapshot {U B RH _} _.
Arguments found_but_unused_multiappends {U B RH _} _.
Arguments required_no_remotes {U B RH _} _.
Arguments is_being_read {U B RH _} _.
Arguments is_interesting {U B RH _} _.

Inductive NextToFetch :=
| NTF_None
| BelowHorizon (first last : Z)
| AboveHorizon (first last : Z).

Section Ops.
Context `{Build} {U B RH : Type} `{UuidOps U} `{EntryView B U}.
Abbreviation State := (PerColor U B RH).
Implicit Types (s : State).

Definition set_tree t s : State :=
  mkPC (chain s) (last_snapshot s) t (blocked_on_new_snapshot s) (found_but_unused_multiappends s)
    (required_no_remotes s) (is_being_read s) (is_interesting s).
Definition set_read r s : State :=
  mkPC (chain s) (last_snapshot s) (read_status s) (blocked_on_new_snapshot s)
    (found_but_unused_multiappends s) (required_no_remotes s) r (is_interesting s).
Definition set_blocked b s : State :=
  mkPC (chain s) (last_snapshot s) (read_status s) b (found_but_unused_multiappends s)
    (required_no_remotes s) (is_being_read s) (is_interesting s).
Definition set_snapshot n s : State :=
  mkPC (chain s) n (read_status s) (blocked_on_new_snapshot s) (found_but_unused_multiappends s)
    (required_no_remotes s) (is_being_read s) (is_interesting s).
Definition set_found f s : State :=
  mkPC (chain s) (last_snapshot s) (read_status s) (blocked_on_new_snapshot s) f
    (required_no_remotes s) (is_being_read s) (is_interesting s).
Definition set_no_remotes n s : State :=
  mkPC (chain s) (last_snapshot s) (read_status s) (blocked_on_new_snapshot s)
    (found_but_unused_multiappends s) n (is_being_read s) (is_interesting s).

Definition read_state_new (h : RH) : ReadState RH := mkRead 0 0 h.

Definition read_is_finished (r : ReadState RH) : bool :=
  (outstanding_snapshots r =? 0) && (num_multiappends_searching_for r =? 0).

Definition new (c : Z) : State := mkPC c 0 RT.new None ∅ ∅ None false.
Definition interesting (c : Z) : State := mkPC c 0 RT.new None ∅ ∅ None true.

Definition has_read_state s : bool := bool_decide (is_Some (is_being_read s)).
Definition has_outstanding s : bool := has_read_state s.
Definition has_outstanding_reads s : bool := 0 <? RT.num_outstanding (read_status s).
Definition currently_buffering s : Z := RT.num_buffered (read_status s).
Definition current_snap s : Z := last_snapshot s.

Definition has_pending_reads_reqs s : bool :=
  match RT.first_outstanding (read_status s) with Some p => p <? last_snapshot s | None => false end.

Definition has_outstanding_snapshots s : bool :=
  match is_being_read s with Some r => 0 <? outstanding_snapshots r | None => false end.

Definition is_searching_for_multi s : bool :=
  match is_being_read s with Some r => 0 <? num_multiappends_searching_for r | None => false end.

Definition finished_until_snapshot s : bool :=
  RT.is_returned (read_status s) (last_snapshot s) && negb (has_outstanding_snapshots s).

Definition is_finished s : bool :=
  finished_until_snapshot s && negb (is_searching_for_multi s || has_outstanding_snapshots s).

Definition next_return_is s (index : Z) : outcome bool := RT.next_return_is (read_status s) index.
Definition is_within_snapshot s (index : Z) : bool := index <=? last_snapshot s.
Definition has_returned s (index : Z) : bool := RT.is_returned (read_status s) index.

Definition can_return s (index : Z) : outcome bool :=
  b ← next_return_is s index; Done ((b : bool) && is_within_snapshot s index).

Definition set_finished_reading s : outcome State :=
  _ ← assert_ (match is_being_read s with Some r => read_is_finished r | None => true end);
  _ ← debug_assert (match RT.first_outstanding (read_status s) with
                    | Some o => last_snapshot s <? o | None => true end);
  Done (set_read None s).

Definition set_returned s (index : Z) : outcome State :=
  b ← next_return_is s index;
  _ ← assert_ b;
  _ ← assert_ (index <=? last_snapshot s);
  t ← RT.set_point_as_returned (read_status s) index;
  let s := set_tree t s in
  Done (if is_finished s then set_read None s else s).

Definition overread_at s (index : Z) : outcome State :=
  t ← RT.set_point_as_none (read_status s) index; Done (set_tree t s).

Definition increment_outstanding_snapshots s (h : RH) : outcome (Z * State) :=
  r ← match is_being_read s with
      | Some r => n ← add32 (outstanding_snapshots r) 1;
          Done (mkRead n (num_multiappends_searching_for r) (being_read r))
      | None => n ← add32 0 1; Done (mkRead n 0 h)
      end;
  Done (outstanding_snapshots r, set_read (Some r) s).

Definition decrement_outstanding_snapshots s : outcome (Z * State) :=
  r ← unwrap (is_being_read s);
  n ← sub32 (outstanding_snapshots r) 1;
  Done (n, set_read (Some (mkRead n (num_multiappends_searching_for r) (being_read r))) s).

Definition increment_multi_search s (h : RH) : outcome State :=
  r ← match is_being_read s with
      | Some r => n ← add32 (num_multiappends_searching_for r) 1;
          Done (mkRead (outstanding_snapshots r) n (being_read r))
      | None => n ← add32 0 1; Done (mkRead 0 n h)
      end;
  Done (set_read (Some r) s).

Definition decrement_multi_search s : outcome State :=
  r ← unwrap (is_being_read s);
  _ ← debug_assert (0 <? num_multiappends_searching_for r);
  n ← sub32 (num_multiappends_searching_for r) 1;
  let s := set_read (Some (mkRead (outstanding_snapshots r) n (being_read r))) s in
  Done (if is_finished s then set_read None s else s).

Definition got_read s (index : Z) : outcome (bool * State) :=
  r ← RT.set_point_as_recvd (read_status s) index; Done (r.1, set_tree r.2 s).

Definition mark_as_already_fetched s (index : Z) : outcome State :=
  r ← RT.set_point_as_recvd (read_status s) index; Done (set_tree r.2 s).

Definition mark_as_skippable s (index : Z) : outcome State :=
  t ← RT.set_point_as_skip (read_status s) index; Done (set_tree t s).

Definition got_no_remote s (id : U) : bool * State :=
  (negb (bool_decide (id ∈ required_no_remotes s)),
   set_no_remotes (required_no_remotes s ∖ {[id]}) s).

Definition add_no_remote s (id : U) : State := set_no_remotes ({[id]} ∪ required_no_remotes s) s.

(** [entry_is_unblocked] *)
Definition entry_is_unblocked (val : option B) (c new_horizon : Z) : bool :=
  match val with
  | Some v => existsb (fun l => (oi_order l =? c) && (oi_entry l <=? new_horizon)) (entry_locs v)
  | None => false
  end.

Definition update_horizon s (new_horizon : Z) : option B * State :=
  if last_snapshot s <? new_horizon then
    let s := set_snapshot new_horizon s in
    if entry_is_unblocked (blocked_on_new_snapshot s) (chain s) new_horizon
    then (blocked_on_new_snapshot s, set_blocked None s)
    else (None, s)
  else (None, s).

Definition increment_horizon s : outcome (option B * State) :=
  n ← add64 (last_snapshot s) 1; Done (update_horizon s n).

Definition rewind_to s (index : Z) : outcome State :=
  t ← RT.set_above_as_none (read_status s) index; Done (set_tree t s).

Definition give_new_snapshot s (new_horizon : Z) : outcome (option B * State) :=
  r ← decrement_outstanding_snapshots s;
  let s := r.2 in
  if new_horizon <=? last_snapshot s then
    let idle := match is_being_read s with
                | Some r => (num_multiappends_searching_for r =? 0) && (outstanding_snapshots r =? 0)
                | None => false
                end in
    let no_reads := match RT.first_outstanding (read_status s) with
                    | Some o => last_snapshot s <? o | None => true end in
    Done (None, if idle && no_reads then set_read None s else s)
  else Done (update_horizon s new_horizon).

Definition block_on_snapshot s (val : B) : outcome State :=
  loc ← unwrap (list_find (fun l => oi_order l = chain s) (entry_locs val));
  n ← add64 (last_snapshot s) 1;
  _ ← assert_ (oi_entry loc.2 =? n);
  _ ← assert_ (match blocked_on_new_snapshot s with
               | Some b => bool_decide (entry_id b = entry_id val) | None => true end);
  Done (set_blocked (Some val) s).

Definition MAX_PIPELINED : Z := 20000.

Definition next_range_to_fetch s : outcome NextToFetch :=
  let outstanding_reads := RT.num_outstanding (read_status s) in
  if MAX_PIPELINED <=? outstanding_reads then Done NTF_None
  else
    let '(first_needed, last_needed) := RT.min_range_to_fetch (read_status s) in
    if last_snapshot s <? first_needed then Done (AboveHorizon first_needed last_needed)
    else
      let last_needed := Z.min last_needed (last_snapshot s) in
      d ← sub64 MAX_PIPELINED outstanding_reads;
      m ← add64 first_needed d;
      Done (BelowHorizon first_needed (Z.min last_needed m)).

Definition fetching_range s (low high : Z) (h : RH) : outcome State :=
  _ ← debug_assert (low <=? high);
  let s := match is_being_read s with
           | None => set_read (Some (read_state_new h)) s | Some _ => s end in
  t ← RT.set_range_as_sent (read_status s) low high; Done (set_tree t s).

Definition has_more_multi_search_than_outstanding_reads s : outcome bool :=
  let outstanding_reads := RT.num_outstanding (read_status s) in
  let num_required_no_remotes := Z.of_nat (size (required_no_remotes s)) in
  match is_being_read s with
  | None => Done (0 <? num_required_no_remotes)
  | Some r =>
      _ ← (if debug_assertions
           then n ← add64 outstanding_reads 1;
                assert_ (negb (as_u32 n <? num_multiappends_searching_for r))
           else Done tt);
      m ← add64 (num_multiappends_searching_for r) num_required_no_remotes;
      Done (outstanding_reads <? m)
  end.

Definition add_early_sentinel s (id : U) (index : Z) : outcome State :=
  _ ← assert_ (negb (index =? 0));
  mark_as_skippable (set_found (<[id := index]> (found_but_unused_multiappends s)) s) index.

Definition take_early_sentinel s (id : U) : option Z * State :=
  (found_but_unused_multiappends s !! id, set_found (delete id (found_but_unused_multiappends s)) s).

(** ** The invariant

    The read status is a good tree whose returned indices are a prefix, and the snapshot leaves
    room for one pipeline of reads below [u64::MAX], which is never read. *)

Record pc_inv s : Prop := {
  pc_tree : RT.tree_ok (read_status s);
  pc_prefix : RT.returned_prefix (read_status s);
  pc_snap : 0 <= last_snapshot s < u64_max - MAX_PIPELINED;
  pc_top : holds (RT.inner (read_status s)) u64_max RT.KNone;
}.

Lemma pc_inv_new c : pc_inv (new c).
Proof.
  constructor; simpl.
  - apply RT.new_ok.
  - intros r. simpl. set_solver.
  - unfold u64_max, MAX_PIPELINED. lia.
  - exists (mkRange 1 u64_max). split; [set_solver|simpl; unfold u64_max; lia].
Qed.

(** The invariant is about the tree and the snapshot only. *)
Lemma pc_inv_ext s s' :
  pc_inv s -> read_status s' = read_status s -> last_snapshot s' = last_snapshot s -> pc_inv s'.
Proof. intros HI Ht Hs. constructor; rewrite ?Ht, ?Hs; apply HI. Qed.

Lemma returned_holds s q :
  pc_inv s -> has_returned s q = true <-> holds (RT.inner (read_status s)) q RT.ReturnedToClient.
Proof.
  intros HI. rewrite <- (bt_get_holds _ _ _ _ _ (RT.ok_tiles _ (pc_tree s HI))).
  unfold has_returned, RT.is_returned. destruct (bt_get _ _) as [[]|]; naive_solver.
Qed.

Lemma next_return_spec s i :
  pc_inv s -> 1 <= i <= u64_max ->
  exists b, next_return_is s i = Done b /\
    (b = true <-> holds (RT.inner (read_status s)) (i - 1) RT.ReturnedToClient /\
                  ~ holds (RT.inner (read_status s)) i RT.ReturnedToClient).
Proof.
  intros HI Hi. unfold next_return_is, RT.next_return_is.
  rewrite sub64_ok by (unfold in_u64; lia); simpl. eexists. split; [done|].
  rewrite <- !(returned_holds s _ HI). unfold has_returned, RT.is_returned.
  destruct (bt_get _ (point (i - 1))) as [[]|], (bt_get _ (point i)) as [[]|]; naive_solver.
Qed.

(** Setting an index (or a run of them) that is not returned, below the top. *)
Lemma pc_set_tree s t' c d k :
  pc_inv s -> RT.tree_ok t' -> RT.updated (read_status s) t' c d k ->
  (forall q, c <= q <= d -> ~ holds (RT.inner (read_status s)) q RT.ReturnedToClient) ->
  (k = RT.ReturnedToClient -> c = d /\ holds (RT.inner (read_status s)) (c - 1) RT.ReturnedToClient) ->
  d < u64_max ->
  pc_inv (set_tree t' s) /\ forall q, has_returned s q = true -> has_returned (set_tree t' s) q = true.
Proof.
  intros HI Hok Hup Hnot Hk Hd. pose proof (pc_tree s HI) as Ht.
  assert (HI' : pc_inv (set_tree t' s)).
  { constructor; simpl; [done| |apply HI|].
    - exact (RT.prefix_updated _ t' c d k Ht Hok Hup (pc_prefix s HI) Hnot Hk).
    - destruct Hup as (Hout & _ & _). destruct (Hout _ _ (pc_top s HI)) as (v & Hv & [<-|[? _]]); [lia|done..]. }
  split; [done|]. intros q Hq. apply (returned_holds s q HI) in Hq. apply (returned_holds _ q HI').
  destruct Hup as (Hout & _ & _). destruct (Hout _ _ Hq) as (v & Hv & [<-|[? _]]); [|done..].
  intros Hcd. by eapply Hnot.
Qed.

(** [set_point_as] wrapped by the invariant checks, for a state change that is one. *)
Lemma pc_set_point s p k ok :
  pc_inv s -> RT.point_ok (read_status s) p ok = true -> p < u64_max ->
  (forall k', ok k' = true -> RT.changes k' k = true) -> k <> RT.ReturnedToClient ->
  exists b t', RT.set_point_as (read_status s) p k = Done (b, t') /\ RT.tree_ok t' /\
    pc_inv (set_tree t' s) /\ forall q, has_returned s q = true -> has_returned (set_tree t' s) q = true.
Proof.
  intros HI Hp Htop Himp Hk. pose proof (pc_tree s HI) as Ht.
  unfold RT.point_ok in Hp. apply andb_true_iff in Hp as [Hp%in_u64b_spec Hb].
  destruct (bt_get (RT.inner (read_status s)) (point p)) as [old|] eqn:E; [|done].
  apply (bt_get_holds _ _ _ _ _ (RT.ok_tiles _ Ht)) in E.
  specialize (Himp old Hb). unfold RT.changes in Himp.
  destruct (RT.is_prior old k) eqn:Hpr; simpl in Himp.
  - apply negb_true_iff, RT.kind_eqb_spec in Himp.
    destruct (RT.set_point_accepted _ p old k Ht Hp E Hpr Himp) as (t' & Hs & Hok & Hup).
    exists true, t'. split; [done|]. split; [done|]. eapply pc_set_tree; try done.
    intros q Hq Hret. assert (q = p) as -> by lia.
    rewrite (holds_unique _ _ _ _ _ _ (RT.ok_tiles _ Ht) E Hret) in Hpr. done.
  - exists false, (read_status s). rewrite (RT.set_point_refused _ p old k Ht E Hpr).
    split_and!; try done. by eapply pc_inv_ext.
Qed.

(** ** Returning entries *)

(** The index after the returned prefix is neither returned nor skipped: a skipped run next to
    the prefix would have been joined with it. *)
Lemma next_unreturned t i old :
  RT.tree_ok t -> holds (RT.inner t) (i - 1) RT.ReturnedToClient ->
  ~ holds (RT.inner t) i RT.ReturnedToClient -> holds (RT.inner t) i old ->
  ~ RT.kind_eq old RT.ReturnedToClient.
Proof.
  intros Ht (r0 & Hin0 & Hr0) Hnot (r & Hin & Hr) Heq.
  pose proof (RT.ok_tiles _ Ht) as Htl. pose proof (RT.ok_compact _ Ht) as Hc.
  assert (Hf : first r = i).
  { destruct (decide (first r = i)); [done|]. exfalso. apply Hnot. exists r0. split; [done|].
    assert (r0 = r) as ->; [|lia].
    eapply (tiles_range_unique _ _ _ (i - 1)); [exact Htl|exact Hin0|exact Hin|lia|lia]. }
  apply list_elem_of_split in Hin as (l1 & l2 & E). rewrite E in Hc, Htl, Hin0.
  apply compact_mid in Hc as [Hc _]. pose proof Htl as (_ & H1' & _)%tiles_mid.
  destruct l1 as [|[r1 k1] l1 _] using rev_ind.
  { simpl in H1'. apply elem_of_cons in Hin0 as [[= -> _]|Hin0]; [lia|].
    simpl in Htl. destruct Htl as (_ & _ & Htl). eapply tiles_elem in Hin0; [|done]. lia. }
  rewrite <- app_assoc in Hc; simpl in Hc. apply compact_mid in Hc as [_ [Hc _]]. apply Hc. simpl.
  assert (k1 = RT.ReturnedToClient) as ->; [|by symmetry].
  apply tiles_mid in H1' as (? & H1' & H2). simpl in H2.
  eapply (holds_unique 0 u64_max _ (i - 1)); [exact Htl| |exists r0; by split].
  exists r1. split; [set_solver|lia].
Qed.

Lemma set_returned_spec s i :
  pc_inv s -> 1 <= i < u64_max -> can_return s i = Done true ->
  exists s', set_returned s i = Done s' /\ pc_inv s' /\ last_snapshot s' = last_snapshot s /\
    has_returned s' i = true /\ forall q, has_returned s q = true -> has_returned s' q = true.
Proof.
  intros HI Hi Hcan. pose proof (pc_tree s HI) as Ht. unfold can_return in Hcan.
  destruct (next_return_spec s i HI) as (b & Hb & Hiff); [lia|]. rewrite Hb in Hcan. simpl in Hcan.
  injection Hcan as Hcan. apply andb_true_iff in Hcan as [-> Hw].
  destruct (proj1 Hiff eq_refl) as [Hprev Hnot].
  unfold set_returned. rewrite Hb; simpl. unfold is_within_snapshot in Hw. rewrite Hw; simpl.
  destruct (RT.ok_lookup _ i Ht) as [old Hold]; [unfold in_u64; lia|].
  pose proof (next_unreturned _ i old Ht Hprev Hnot Hold) as Hne.
  assert (Hpr : RT.is_prior old RT.ReturnedToClient = true).
  { destruct old; try done; exfalso; apply Hne; by left. }
  destruct (RT.set_point_accepted _ i old RT.ReturnedToClient Ht) as (t' & Hs & Hok & Hup);
    [unfold in_u64; lia|done..|].
  unfold RT.set_point_as_returned. rewrite (RT.check_ok _ Ht), Hs; simpl. rewrite (RT.check_ok _ Hok); simpl.
  destruct (pc_set_tree s t' i i RT.ReturnedToClient HI Hok Hup) as [HI' Hmono].
  { intros q Hq. by replace q with i by lia. }
  { done. }
  { lia. }
  assert (Hret : has_returned (set_tree t' s) i = true).
  { apply (returned_holds _ i HI'). destruct Hup as (_ & Hin & _).
    destruct (Hin i) as (v & Hv & [<-|[? _]]); [lia|done..]. }
  eexists. split; [done|]. destruct (is_finished _); split_and!; try done. by eapply pc_inv_ext.
Qed.

(** ** Fetching *)

(** The run [min_range_to_fetch] finds: not empty, unread, and not above the top. *)
Lemma min_range_spec s a b :
  pc_inv s -> RT.min_range_to_fetch (read_status s) = (a, b) ->
  1 <= a <= b /\ b <= u64_max /\ (forall q, a <= q <= b -> holds (RT.inner (read_status s)) q RT.KNone) /\
  (forall q, q < a -> ~ holds (RT.inner (read_status s)) q RT.KNone).
Proof.
  intros HI. pose proof (pc_tree s HI) as Ht. unfold RT.min_range_to_fetch.
  pose proof (RT.first_of_split RT.KNone (RT.inner (read_status s))) as Hf.
  destruct (RT.first_of RT.KNone (RT.inner (read_status s))) as [r|]; cycle 1.
  { exfalso. by eapply RT.not_holds_forall, (pc_top s HI). }
  intros [= <- <-]. destruct Hf as (l1 & l2 & E & Hl1).
  assert (Hin : (r, RT.KNone) ∈ RT.inner (read_status s)) by (rewrite E; set_solver).
  pose proof (tiles_elem _ _ _ _ _ (RT.ok_tiles _ Ht) Hin).
  assert (first r <> 0).
  { intros E0. assert (RT.KNone = RT.ReturnedToClient); [|done].
    eapply (holds_unique _ _ _ 0); [apply Ht| |apply Ht]. exists r. split; [done|lia]. }
  split_and!; try lia; [intros q Hq; by exists r|]. intros q Hq.
  pose proof (RT.ok_tiles _ Ht) as Htl. rewrite E in Htl |- *. apply tiles_mid in Htl as (_ & _ & Htl2).
  rewrite holds_app, holds_cons. intros [Hh|[[_ ?]|Hh]]; [by eapply RT.not_holds_forall|lia|].
  eapply holds_bound in Hh; [|done]. lia.
Qed.

(** What [next_range_to_fetch] picks, on every branch. *)
Lemma next_range_spec s :
  pc_inv s -> exists r, next_range_to_fetch s = Done r /\
  match r with
  | NTF_None => MAX_PIPELINED <= RT.num_outstanding (read_status s)
  | BelowHorizon f l => 1 <= f <= l /\ l <= last_snapshot s /\
      RT.num_outstanding (read_status s) + (l - f + 1) <= MAX_PIPELINED + 1 /\
      forall q, f <= q <= l -> holds (RT.inner (read_status s)) q RT.KNone
  | AboveHorizon f l => last_snapshot s < f <= l /\ l <= u64_max /\
      RT.num_outstanding (read_status s) < MAX_PIPELINED /\
      (forall q, f <= q <= l -> holds (RT.inner (read_status s)) q RT.KNone) /\
      forall q, q <= last_snapshot s -> ~ holds (RT.inner (read_status s)) q RT.KNone
  end.
Proof.
  intros HI. pose proof (pc_tree s HI) as Ht. unfold next_range_to_fetch.
  destruct (Z.leb_spec MAX_PIPELINED (RT.num_outstanding (read_status s))); [by eexists|].
  destruct (RT.min_range_to_fetch (read_status s)) as [a b] eqn:Em.
  destruct (min_range_spec s a b HI Em) as (Ha & Hb & Hnone & Hbelow).
  destruct (Z.ltb_spec (last_snapshot s) a).
  { eexists. split; [done|]. simpl. split_and!; try done; try lia. intros q Hq. apply Hbelow. lia. }
  pose proof (pc_snap s HI) as Hsnap. destruct (RT.ok_counts _ Ht) as [Hc _].
  rewrite sub64_ok by (unfold in_u64, MAX_PIPELINED in *; lia). simpl.
  rewrite add64_ok by (unfold in_u64, MAX_PIPELINED in *; lia). simpl.
  eexists. split; [done|]. simpl. split_and!; try lia. intros q Hq. apply Hnone. lia.
Qed.

(** A run of indices that nobody asked for can be asked for. *)
Lemma fetching_spec s h f l :
  pc_inv s -> 1 <= f <= l -> l < u64_max -> (forall q, f <= q <= l -> holds (RT.inner (read_status s)) q RT.KNone) ->
  exists s', fetching_range s f l h = Done s' /\ pc_inv s' /\ last_snapshot s' = last_snapshot s /\
    (forall q, has_returned s q = true -> has_returned s' q = true) /\
    RT.num_outstanding (read_status s') = RT.num_outstanding (read_status s) + (l - f + 1).
Proof.
  intros HI Hfl Hl Hnone. pose proof (pc_tree s HI) as Ht.
  unfold fetching_range. rewrite debug_assert_true by lia. simpl.
  destruct (RT.set_range_as_sent_spec (read_status s) f l Ht) as (t' & Hs & Hok & Hup & Hout); [lia..|done|].
  destruct (pc_set_tree s t' f l RT.SentToServer HI Hok Hup) as [HI' Hmono]; try done.
  { intros q Hq Hret. assert (RT.KNone = RT.ReturnedToClient); [|done].
    eapply (holds_unique _ _ _ q); [apply Ht|by apply Hnone|done]. }
  set (s0 := match is_being_read s with None => _ | Some _ => s end).
  assert (Hs0 : read_status s0 = read_status s /\ last_snapshot s0 = last_snapshot s)
    by (unfold s0; by destruct (is_being_read s)).
  destruct Hs0 as [Hs0 Hl0]. rewrite Hs0, Hs; simpl. exists (set_tree t' s0). simpl.
  split_and!; try done. by eapply pc_inv_ext.
Qed.

(** ** Sequences of calls *)

Inductive pc_event :=
| GotRead (index : Z) | Skippable (index : Z) | Overread (index : Z) | Return (index : Z)
| Fetch (h : RH) | Prefetch (h : RH) (n : Z) | SearchOn (h : RH)
| NewHorizon (n : Z) | AskSnapshot (h : RH) | GotSnapshot (n : Z).

(** The calls as [ThreadLog] makes them: an entry is returned when [can_return] allows it, and a
    fetch takes the range [next_range_to_fetch] chose.  Below the horizon that is all of it ([Fetch]).
    Above the horizon it is the first [n] of it, however many a snapshot prefetches ([Prefetch]), or,
    while the places of a multi-append are searched for, its first index, after the horizon is moved
    on by one ([SearchOn]).  Of the calls that change the read status or the snapshot all are here,
    [mark_as_already_fetched] as [GotRead] and [add_early_sentinel] as [Skippable], but [rewind_to];
    the other calls do not touch them. *)
Definition pc_exec (ev : pc_event) s : outcome State :=
  match ev with
  | GotRead i => r ← got_read s i; Done r.2
  | Skippable i => mark_as_skippable s i
  | Overread i => overread_at s i
  | Return i => b ← can_return s i; if b : bool then set_returned s i else Done s
  | Fetch h => r ← next_range_to_fetch s;
      match r with BelowHorizon f l => fetching_range s f l h | _ => Done s end
  | Prefetch h n => r ← next_range_to_fetch s;
      match r with AboveHorizon f l => fetching_range s f (Z.min l (f + n - 1)) h | _ => Done s end
  | SearchOn h => r ← next_range_to_fetch s;
      match r with AboveHorizon f _ => x ← increment_horizon s; fetching_range x.2 f f h | _ => Done s end
  | NewHorizon n => Done (update_horizon s n).2
  | AskSnapshot h => r ← increment_outstanding_snapshots s h; Done r.2
  | GotSnapshot n => r ← give_new_snapshot s n; Done r.2
  end.

Definition snapshots_in_flight s : Z :=
  match is_being_read s with Some r => outstanding_snapshots r | None => 0 end.

Definition pc_ok s (ev : pc_event) : bool :=
  let point i k := (i <? u64_max) && RT.point_ok (read_status s) i (fun o => RT.changes o k) in
  match ev with
  | GotRead i => point i RT.GottenFromServer
  | Skippable i => point i RT.Skip
  | Overread i => point i RT.KNone
  | Return i => (1 <=? i) && (i <? u64_max)
  | Fetch _ => true
  | Prefetch _ n => (1 <=? n) && match next_range_to_fetch s with Done (AboveHorizon f _) => f + n - 1 <? u64_max | _ => true end
  | SearchOn _ => (last_snapshot s + 1 <? u64_max - MAX_PIPELINED) &&
      match next_range_to_fetch s with Done (AboveHorizon f _) => f <? u64_max | _ => true end
  | NewHorizon n => n <? u64_max - MAX_PIPELINED
  | AskSnapshot _ => (0 <=? snapshots_in_flight s) && (snapshots_in_flight s <? u32_max)
  | GotSnapshot n =>
      (0 <? snapshots_in_flight s) && (snapshots_in_flight s <=? u32_max)
      && (n <? u64_max - MAX_PIPELINED)
  end.

Inductive pc_reach : State -> Prop :=
| pc_reach_new c : pc_reach (new c)
| pc_reach_step s ev s' : pc_reach s -> pc_ok s ev = true -> pc_exec ev s = Done s' -> pc_reach s'.

(** What one call guarantees. *)
Definition pc_step s s' : Prop :=
  pc_inv s' /\ last_snapshot s <= last_snapshot s' /\
  forall q, has_returned s q = true -> has_returned s' q = true.

Lemma update_horizon_step s n :
  pc_inv s -> n < u64_max - MAX_PIPELINED -> pc_step s (update_horizon s n).2.
Proof.
  intros HI Hn. unfold update_horizon. destruct (Z.ltb_spec (last_snapshot s) n); [|by split].
  assert (HI' : pc_inv (set_snapshot n s)).
  { constructor; simpl; [apply HI..| |apply HI]. pose proof (pc_snap s HI). lia. }
  destruct (entry_is_unblocked _ _ _); simpl; (split_and!; simpl; [|lia|done]); [by eapply pc_inv_ext|done].
Qed.

Lemma pc_exec_spec s ev :
  pc_inv s -> pc_ok s ev = true -> exists s', pc_exec ev s = Done s' /\ pc_step s s'.
Proof.
  intros HI Hok. pose proof (pc_tree s HI) as Ht.
  destruct ev as [i|i|i|i|h|h n|h|n|h|n]; simpl in *.
  1,2,3: apply andb_true_iff in Hok as [Hlt%Z.ltb_lt Hp];
    (edestruct (pc_set_point s i) as (b & t' & Hs & Hok' & HI' & Hm);
      [done|exact Hp|done|intros k' Hk'; exact Hk'|done|]);
    unfold got_read, mark_as_skippable, overread_at, RT.set_point_as_recvd, RT.set_point_as_skip,
      RT.set_point_as_none;
    rewrite (RT.check_ok _ Ht); simpl; rewrite Hs; simpl; rewrite (RT.check_ok _ Hok'); simpl;
    eexists; (split; [done|]); by split.
  - apply andb_true_iff in Hok as [H1'%Z.leb_le H2'%Z.ltb_lt].
    destruct (next_return_spec s i HI) as (b & Hb & _); [lia|].
    unfold can_return at 1. rewrite Hb; simpl.
    destruct (b && is_within_snapshot s i) eqn:E; [|by eexists].
    destruct (set_returned_spec s i HI) as (s' & Hs & HI' & Hl & _ & Hm); [lia| |].
    { unfold can_return. rewrite Hb; simpl. by rewrite E. }
    exists s'. split; [done|]. split_and!; [done|lia|done].
  - destruct (next_range_spec s HI) as (r & -> & Hr). simpl. destruct r as [|f l|f l]; [by eexists| |by eexists].
    destruct Hr as (Hfl & Hls & _ & Hnone). pose proof (pc_snap s HI) as Hsn. unfold MAX_PIPELINED in Hsn.
    destruct (fetching_spec s h f l HI Hfl ltac:(lia) Hnone) as (s' & -> & HI' & Hl & Hm & _).
    exists s'. split; [done|]. split_and!; [done|lia|done].
  - destruct (next_range_spec s HI) as (r & Hn & Hr). rewrite Hn in Hok |- *. simpl. destruct r as [|f l|f l]; [by eexists..|].
    apply andb_true_iff in Hok as [H1'%Z.leb_le H2'%Z.ltb_lt]. destruct Hr as (Hfl & Hls & _ & Hnone & _). pose proof (pc_snap s HI).
    destruct (fetching_spec s h f (Z.min l (f + n - 1)) HI) as (s' & -> & HI' & Hl & Hm & _); [lia..|intros q Hq; apply Hnone; lia|].
    exists s'. split; [done|]. split_and!; [done|lia|done].
  - destruct (next_range_spec s HI) as (r & Hn & Hr). rewrite Hn in Hok |- *. simpl. destruct r as [|f l|f l]; [by eexists..|].
    apply andb_true_iff in Hok as [H1'%Z.ltb_lt H2'%Z.ltb_lt]. destruct Hr as (Hfl & Hls & _ & Hnone & _). pose proof (pc_snap s HI).
    unfold increment_horizon. rewrite add64_ok by (unfold in_u64, MAX_PIPELINED in *; lia). cbn [mbind outcome_bind].
    destruct (update_horizon_step s (last_snapshot s + 1) HI H1') as (HI1 & Hl1 & Hm1).
    assert (Et : read_status (update_horizon s (last_snapshot s + 1)).2 = read_status s).
    { unfold update_horizon. destruct (_ <? _); [|done]. by destruct (entry_is_unblocked _ _ _). }
    destruct (fetching_spec (update_horizon s (last_snapshot s + 1)).2 h f f HI1) as (s' & Hs' & HI' & Hl & Hm & _);
      [lia..|rewrite Et; intros q Hq; apply Hnone; lia|].
    exists s'. split; [done|]. split_and!; [done|lia|auto].
  - eexists. split; [done|]. apply update_horizon_step; [done|lia].
  - unfold increment_outstanding_snapshots, snapshots_in_flight, add32 in *.
    apply andb_true_iff in Hok as [H1'%Z.leb_le H2'%Z.ltb_lt].
    destruct (is_being_read s) as [r|]; rewrite norm32_ok by lia; simpl;
      (eexists; split; [done|]); (split_and!; [by eapply pc_inv_ext|done|done]).
  - unfold give_new_snapshot, decrement_outstanding_snapshots, snapshots_in_flight, sub32 in *.
    rewrite !andb_true_iff in Hok. destruct Hok as [[H1'%Z.ltb_lt H2'%Z.leb_le] H3'%Z.ltb_lt].
    destruct (is_being_read s) as [r|]; [|lia]. simpl. rewrite norm32_ok by lia; simpl.
    set (s1 := set_read _ s). assert (HI1 : pc_inv s1) by (by eapply pc_inv_ext).
    destruct (n <=? last_snapshot s).
    + eexists. split; [done|]. simpl.
      split_and!; [destruct (_ && _); by eapply pc_inv_ext|by destruct (_ && _)|by destruct (_ && _)].
    + eexists. split; [done|]. exact (update_horizon_step s1 n HI1 H3').
Qed.

Lemma pc_reach_inv s : pc_reach s -> pc_inv s.
Proof.
  induction 1 as [c|s ev s' _ HI Hok He]; [apply pc_inv_new|].
  destruct (pc_exec_spec s ev HI Hok) as (s'' & He' & HI' & _). rewrite He in He'. by injection He' as <-.
Qed.

(** Whatever calls the client makes for a chain (a rewind apart), the next one does not panic (in either
    build profile), the snapshot never moves back and no returned index is forgotten. *)
Theorem per_color_safe s ev :
  pc_reach s -> pc_ok s ev = true ->
  exists s', pc_exec ev s = Done s' /\ last_snapshot s <= last_snapshot s' /\
    forall q, has_returned s q = true -> has_returned s' q = true.
Proof.
  intros HI%pc_reach_inv Hok. destruct (pc_exec_spec s ev HI Hok) as (s' & He & _ & ? & ?). eauto.
Qed.

(** Entries are handed to the application in chain order, without gaps, repetitions or
    entries past the snapshot: an index that may be returned is within the snapshot, everything
    below it has been returned and nothing from it on has; returning it succeeds. *)
Theorem per_color_returns_in_order s i :
  pc_reach s -> 1 <= i < u64_max -> can_return s i = Done true ->
  i <= last_snapshot s /\
  (forall q, 0 <= q < i -> has_returned s q = true) /\
  (forall q, i <= q -> has_returned s q = false) /\
  exists s', set_returned s i = Done s' /\ has_returned s' i = true.
Proof.
  intros HI%pc_reach_inv Hi Hcan.
  destruct (set_returned_spec s i HI Hi Hcan) as (s' & Hs & _ & _ & Hr & _).
  unfold can_return in Hcan. destruct (next_return_spec s i HI) as (b & Hb & Hiff); [lia|].
  rewrite Hb in Hcan. simpl in Hcan. injection Hcan as Hcan. apply andb_true_iff in Hcan as [-> Hw].
  destruct (proj1 Hiff eq_refl) as [Hprev Hnot]. split_and!.
  - unfold is_within_snapshot in Hw. lia.
  - intros q Hq. apply (returned_holds s q HI).
    apply (RT.returned_from_zero _ (i - 1)); [apply HI|apply HI|done|lia].
  - intros q Hq. apply not_true_iff_false. intros Hq'%(returned_holds s q HI). apply Hnot.
    apply (RT.returned_from_zero _ q); [apply HI|apply HI|done|lia].
  - eauto.
Qed.

(** C32.  What [next_range_to_fetch] picks can be asked for, on every branch, in both build profiles and
    after any calls the client makes for a chain, as long as each is allowed ([pc_ok]) and none is a
    rewind.  It picks nothing only when the
    pipeline is full.  A range below the horizon is not empty, lies within the snapshot, none of it
    was asked for before, and recording it succeeds and keeps at most [MAX_PIPELINED + 1] reads in
    flight.  A range above the horizon is picked only when all of the snapshot was asked for and the
    pipeline is not full; it is not empty, and recording its first [n] indices (as a prefetch does, or
    the search for the places of a multi-append with [n = 1]) succeeds, for every [n] that stays
    below [u64::MAX]: nothing but [n] bounds the reads in flight then. *)
Theorem fetch_within_snapshot s h :
  pc_reach s ->
  exists r, next_range_to_fetch s = Done r /\
  match r with
  | NTF_None => MAX_PIPELINED <= RT.num_outstanding (read_status s)
  | BelowHorizon f l =>
      f <= l <= last_snapshot s /\ (forall q, f <= q <= l -> holds (RT.inner (read_status s)) q RT.KNone) /\
      exists s', fetching_range s f l h = Done s' /\
        RT.num_outstanding (read_status s') = RT.num_outstanding (read_status s) + (l - f + 1) /\
        RT.num_outstanding (read_status s') <= MAX_PIPELINED + 1
  | AboveHorizon f l =>
      last_snapshot s < f <= l /\ RT.num_outstanding (read_status s) < MAX_PIPELINED /\
      (forall q, q <= last_snapshot s -> ~ holds (RT.inner (read_status s)) q RT.KNone) /\
      (forall q, f <= q <= l -> holds (RT.inner (read_status s)) q RT.KNone) /\
      forall n, 1 <= n -> f + n - 1 < u64_max ->
      exists s', fetching_range s f (Z.min l (f + n - 1)) h = Done s' /\
        RT.num_outstanding (read_status s') = RT.num_outstanding (read_status s) + (Z.min l (f + n - 1) - f + 1)
  end.
Proof.
  intros HI%pc_reach_inv. destruct (next_range_spec s HI) as (r & Hn & Hr). exists r. split; [done|].
  pose proof (pc_snap s HI) as Hsn. unfold MAX_PIPELINED in Hsn.
  destruct r as [|f l|f l]; [done|..].
  - destruct Hr as (Hfl & Hls & Hp & Hnone). split; [lia|]. split; [done|].
    destruct (fetching_spec s h f l HI Hfl ltac:(lia) Hnone) as (s' & Hs & _ & _ & _ & Ho). exists s'. split_and!; [done..|lia].
  - destruct Hr as (Hfl & Hls & Hp & Hnone & Hb). split_and!; [lia..|done|done|]. intros n Hn1 Hn2.
    destruct (fetching_spec s h f (Z.min l (f + n - 1)) HI) as (s' & Hs & _ & _ & _ & Ho); [lia..|intros q Hq; apply Hnone; lia|].
    eauto.
Qed.

(** A horizon update moves the snapshot to the maximum of old and new, and hands out the
    blocked entry exactly when the horizon grew and the entry has a location of this chain at
    or below it; otherwise the entry stays blocked. *)
Theorem update_horizon_unblocks s n :
  last_snapshot (update_horizon s n).2 = Z.max (last_snapshot s) n /\
  let unblocked := last_snapshot s < n /\ exists v loc, blocked_on_new_snapshot s = Some v /\
    loc ∈ entry_locs v /\ oi_order loc = chain s /\ oi_entry loc <= n in
  (unblocked -> (update_horizon s n).1 = blocked_on_new_snapshot s /\
                blocked_on_new_snapshot (update_horizon s n).2 = None) /\
  (~ unblocked -> (update_horizon s n).1 = None /\
                  blocked_on_new_snapshot (update_horizon s n).2 = blocked_on_new_snapshot s).
Proof.
  assert (Hiff : entry_is_unblocked (blocked_on_new_snapshot s) (chain s) n = true <->
    exists v loc, blocked_on_new_snapshot s = Some v /\ loc ∈ entry_locs v /\
      oi_order loc = chain s /\ oi_entry loc <= n).
  { unfold entry_is_unblocked. destruct (blocked_on_new_snapshot s) as [v|]; [|naive_solver].
    rewrite existsb_exists. setoid_rewrite andb_true_iff. setoid_rewrite Z.eqb_eq.
    setoid_rewrite Z.leb_le. setoid_rewrite <- list_elem_of_In. naive_solver. }
  unfold update_horizon. destruct (Z.ltb_spec (last_snapshot s) n) as [Hlt|Hge]; simpl.
  - destruct (entry_is_unblocked _ _ _) eqn:E; simpl; (split; [lia|]).
    + split; [done|]. intros Hn. exfalso. apply Hn. split; [done|]. by apply Hiff.
    + split; [|done]. intros [_ Hu%Hiff]. congruence.
  - split; [lia|]. split; [|done]. intros [? _]. lia.
Qed.

End Ops.
Arguments pc_event : clear implicits.

(** ** A concrete run: a snapshot at 30000, the first pipeline of reads, and the first two
    entries of the chain *)

Module Demo.
#[global] Instance view : EntryView (list OrderIndex) Z := {| entry_locs := id; entry_id _ := 0 |}.

Fixpoint run (evs : list (pc_event unit)) (s : PerColor Z (list OrderIndex) unit)
    : outcome (PerColor Z (list OrderIndex) unit) :=
  match evs with
  | [] => Done s
  | ev :: evs =>
      if pc_ok (H := dev) s ev then s' ← pc_exec (H := dev) ev s; run evs s' else Panic
  end.

Lemma pc_run_reach evs s s' : pc_reach (H := dev) s -> run evs s = Done s' -> pc_reach (H := dev) s'.
Proof.
  revert s. induction evs as [|ev evs IH]; intros s Hr; simpl; [by intros [= <-]|].
  destruct (pc_ok (H := dev) s ev) eqn:Hok; [|done].
  intros (s1 & He & Hrun)%bind_done. apply (IH s1); [|done]. by econstructor.
Qed.

Definition events : list (pc_event unit) :=
  [NewHorizon 30000; Fetch (); GotRead 2; GotRead 1; Return 1].
Definition above : list (pc_event unit) :=
  [NewHorizon 2; Fetch (); Prefetch () 5; SearchOn (); GotRead 1; Return 1].
Definition above_state : PerColor Z (list OrderIndex) unit :=
  match run above (new 7) with Done s => s | Panic => new 7 end.
Definition state : PerColor Z (list OrderIndex) unit :=
  match run events (new 7) with Done s => s | Panic => new 7 end.

Lemma state_reach : pc_reach (H := dev) state.
Proof. apply (pc_run_reach events (new 7)); [constructor|]. vm_compute. reflexivity. Qed.

Lemma above_reach : pc_reach (H := dev) above_state.
Proof. apply (pc_run_reach above (new 7)); [constructor|]. vm_compute. reflexivity. Qed.

(** The pipeline is one read deeper than [MAX_PIPELINED]: from a fresh chain the first fetch
    asks for 20001 entries. *)
Theorem pipeline_off_by_one :
  (s ← run [NewHorizon 30000] (new 7); next_range_to_fetch (H := dev) s) = Done (BelowHorizon 1 20001) /\
  (s ← run [NewHorizon 30000; Fetch ()] (new 7); Done (RT.num_outstanding (read_status s)))
    = Done (MAX_PIPELINED + 1).
Proof. split; vm_compute; reflexivity. Qed.
End Demo.

Lemma per_color_safe_witness :
  exists s', pc_exec (H := dev) (Return 2) Demo.state = Done s'.
Proof.
  destruct (per_color_safe (H := dev) (H1 := Demo.view) Demo.state (Return 2) Demo.state_reach) as (s' & He & _).
  - vm_compute. reflexivity.
  - exists s'. exact He.
Defined.

Lemma per_color_returns_in_order_witness :
  has_returned Demo.state 1 = true /\ has_returned Demo.state 2 = false.
Proof.
  destruct (per_color_returns_in_order (H := dev) (H1 := Demo.view) Demo.state 2 Demo.state_reach) as (_ & Hl & Hg & _).
  - unfold u64_max; lia.
  - vm_compute. reflexivity.
  - split; [apply Hl; lia|apply Hg; lia].
Defined.

Lemma fetch_within_snapshot_witness :
  (exists s', fetching_range (H := dev) Demo.state 20002 20003 () = Done s') /\
  next_range_to_fetch (H := dev) Demo.above_state = Done (AboveHorizon 9 u64_max) /\
  (exists s', fetching_range (H := dev) Demo.above_state 9 10 () = Done s' /\ RT.num_outstanding (read_status s') = 9).
Proof.
  split; [|split; [vm_compute; reflexivity|]].
  - destruct (fetch_within_snapshot (H := dev) (H1 := Demo.view) Demo.state () Demo.state_reach) as (r & Hn & Hr).
    vm_compute in Hn. injection Hn as <-. destruct Hr as (_ & _ & s' & Hs & _). exists s'. exact Hs.
  - destruct (fetch_within_snapshot (H := dev) (H1 := Demo.view) Demo.above_state () Demo.above_reach) as (r & Hn & Hr).
    vm_compute in Hn. injection Hn as <-. destruct Hr as (_ & _ & _ & _ & Hf).
    destruct (Hf 2) as (s' & Hs & Ho); [lia|unfold u64_max; lia|].
    exists s'. split; [exact Hs|]. rewrite Ho. vm_compute. reflexivity.
Defined.

End PC.
