(* ===== verification/UtilRangeTree.v ===== *)
(** * The generic range tree ([fuzzy_log_util/src/range_tree.rs])

    A total map from [u64] to values, stored as maximal runs; used for colour allocation
    ([fuzzy_views/color_alloc]).  The theorems are proved against the contract [MergeLaws] of
    the [Mergeable] trait for values that merge exactly when they are equal, which is what
    every implementation in the crate does. *)

From stdpp Require Import base sets list.
From Stdlib Require Import ZArith Lia.
From S2P Require Import Prelude RangeMap.

Open Scope Z_scope.

Module URT.

(** [trait Mergeable: Sized + Eq] *)
Class Mergeable (V : Type) := {
  mergeable_eq :: EqDecision V;
  can_be_replaced_with : V -> V -> bool;
  mergeable_merging :: Merging V;
}.

(** The default methods, as [impl_mergeable!] takes them for [bool] and the integers. *)
Definition default_merge {V} `{EqDecision V} (self other : V) : option V :=
  if bool_decide (self = other) then Some self else None.

Definition default_mergeable (V : Type) `{EqDecision V} : Mergeable V := {|
  can_be_replaced_with _ _ := true;
  mergeable_merging := {| can_merge_with_prior := default_merge; can_merge_with_next := default_merge |};
|}.

#[global] Instance bool_mergeable : Mergeable bool := default_mergeable bool.
#[global] Instance Z_mergeable : Mergeable Z := default_mergeable Z.

Section Ops.
Context `{Build} {V : Type} `{Mergeable V}.

(** [struct RangeTree<V>]: its only field. *)
Definition RangeTree := list (Range * V).

Definition with_default_val (v : V) : RangeTree := bt_insert (mkRange 0 u64_max) v [].

Definition get (t : RangeTree) (p : Z) : outcome V := unwrap (bt_get t (point p)).

(** [remove_from_map_if]: [None] when the predicate refuses, a panic when no range is there. *)
Definition remove_from_map_if (m : RangeTree) (key : Range) (f : Range -> V -> bool)
    : outcome (option (Range * V * RangeTree)) :=
  match bt_remove m key with
  | Some (r, v, m') => Done (if f r v then Some (r, v, m') else None)
  | None => Panic
  end.

Definition set_point_as (t : RangeTree) (p : Z) (new_kind : V) : outcome (bool * RangeTree) :=
  old ← remove_from_map_if t (point p)
          (fun _ old_kind => negb (bool_decide (old_kind = new_kind))
                             && can_be_replaced_with old_kind new_kind);
  match old with
  | None => Done (false, t)
  | Some (old_range, old_kind, inner) =>
      rest ← split_at old_range p;
      inner ← place inner rest old_kind (point p) new_kind;
      Done (true, inner)
  end.

Definition merge_with (self other : Range) : outcome Range :=
  match Z.compare (first self) (first other), Z.compare (last self) (last other) with
  | Eq, Eq => Done self
  | Lt, Eq => Done self
  | Eq, Lt => Done (mkRange (first self) (last other))
  | Gt, Eq => Done (mkRange (first other) (last self))
  | Eq, Gt => Done self
  | Lt, Gt => Done self
  | Lt, Lt =>
      n ← add64 (last self) 1; _ ← assert_ (first other <=? n);
      Done (mkRange (first self) (last other))
  | Gt, Gt =>
      n ← add64 (last other) 1; _ ← assert_ (first self <=? n);
      Done (mkRange (first other) (last self))
  | Gt, Lt => Done other
  end.

Definition trim_out (self other : Range) : outcome (option Range * Range * option Range) :=
  let '(mf, ml, f, l) := (first self, last self, first other, last other) in
  match Z.compare mf f, Z.compare ml l with
  | Eq, Eq => Done (None, mkRange mf ml, None)
  | Lt, Eq => p ← sub64 f 1; Done (Some (mkRange mf p), mkRange f ml, None)
  | Eq, Lt => Done (None, mkRange mf ml, None)
  | Gt, Eq => Done (None, mkRange mf ml, None)
  | Eq, Gt => n ← add64 l 1; Done (None, mkRange f l, Some (mkRange n ml))
  | Lt, Gt =>
      p ← sub64 f 1; n ← add64 f 1;
      Done (Some (mkRange mf p), mkRange f l, Some (mkRange n ml))
  | Lt, Lt =>
      _ ← assert_ (f <=? ml); p ← sub64 f 1;
      Done (Some (mkRange mf p), mkRange f ml, None)
  | Gt, Gt =>
      _ ← assert_ (mf <=? l); n ← add64 l 1;
      Done (None, mkRange mf l, Some (mkRange n ml))
  | Gt, Lt => Done (None, mkRange mf ml, None)
  end.

(** One iteration of the loop of [set_range_as], up to the test that ends it: the accumulator,
    the map, and whether the loop was left by [break]. *)
Definition absorb (new_range : Range) (new_kind : V) (accumulator old_range : Range) (old_kind : V)
    (inner : RangeTree) : outcome (Range * RangeTree * bool) :=
  if bool_decide (old_kind = new_kind) then
    acc ← merge_with accumulator old_range; Done (acc, inner, false)
  else
    r ← trim_out old_range new_range;
    match r with
    | (None, range, None) => acc ← merge_with accumulator range; Done (acc, inner, false)
    | (Some prior, range, None) =>
        let inner := bt_insert prior old_kind inner in
        acc ← merge_with accumulator range; Done (acc, inner, false)
    | (prior, range, Some post) =>
        let inner := match prior with Some prior => bt_insert prior old_kind inner | None => inner end in
        acc ← merge_with accumulator range;
        Done (acc, bt_insert post old_kind inner, true)
    end.

(** The [loop]; every further iteration removes an entry of the map. *)
Fixpoint absorb_loop (fuel : nat) (new_range : Range) (new_kind : V) (accumulator old_range : Range)
    (old_kind : V) (inner : RangeTree) : outcome (Range * RangeTree) :=
  r ← absorb new_range new_kind accumulator old_range old_kind inner;
  let '(accumulator, inner, stop) := r in
  if stop || (last new_range <=? last accumulator) then Done (accumulator, inner)
  else
    match fuel with
    | O => Panic
    | S fuel =>
        p ← add64 (last accumulator) 1;
        r ← remove_from_map inner (point p);
        absorb_loop fuel new_range new_kind accumulator r.1.1 r.1.2 r.2
    end.

Fixpoint inv_fold (l : RangeTree) (prev : Z) (prev_kind : option V) (prev_valid : bool) : outcome bool :=
  match l with
  | [] => Done prev_valid
  | (r, k) :: l' =>
      match prev_kind with
      | Some pk =>
          valid ← (if prev_valid
                   then p ← add64 prev 1; Done ((first r =? p) && negb (bool_decide (k = pk)))
                   else Done false);
          inv_fold l' (last r) (Some k) valid
      | None => inv_fold l' (last r) (Some k) (prev_valid && (first r =? 0))
      end
  end.

Definition tree_invariant (t : RangeTree) : outcome bool := inv_fold t 0 None true.

Definition check_invariant (t : RangeTree) : outcome unit :=
  if debug_assertions then b ← tree_invariant t; assert_ b else Done tt.

Definition set_range_as (t : RangeTree) (low high : Z) (new_kind : V) : outcome RangeTree :=
  _ ← check_invariant t;
  new_range ← range_new low high;
  old ← remove_from_map_if t (point low)
          (fun old_range old_kind =>
             negb (spans old_range new_range && bool_decide (old_kind = new_kind))
             && can_be_replaced_with old_kind new_kind);
  match old with
  | None => Done t
  | Some (old_range, old_kind, inner) =>
      t' ← (if spans old_range new_range then
              rest ← remove old_range new_range;
              place inner rest old_kind new_range new_kind
            else
              r ← absorb_loop (length inner) new_range new_kind (point low) old_range old_kind inner;
              r ← try_merge_with_next r.2 r.1 new_kind;
              r ← try_merge_with_prior r.2 r.1.1 r.1.2;
              Done (bt_insert r.1.1 r.1.2 r.2));
      _ ← check_invariant t';
      Done t'
  end.

Definition first_with (t : RangeTree) (v : V) : option Z :=
  (first ∘ fst) <$> head (filter (fun e : Range * V => e.2 = v) t).

End Ops.

#[global] Instance default_merge_laws {V} `{EqDecision V} :
  MergeLaws (H := @mergeable_merging V (default_mergeable V)) V eq eq.
Proof.
  constructor; try apply _; try done; simpl; unfold default_merge; intros a b;
    intros; case_bool_decide; naive_solver.
Qed.

(** ** Correctness *)

Section Specs.
Context `{Build} {V : Type} `{Mergeable V} `{!MergeLaws V eq eq}.
Implicit Types (t l : RangeTree (V := V)) (k v : V).

Abbreviation ecompact := (compact (veq := @eq V)).

Definition tree_ok t : Prop := tiles 0 u64_max t /\ ecompact t.

Lemma inv_fold_ok l r0 prev pk :
  0 <= prev -> tiles (prev + 1) u64_max l -> ecompact ((r0, pk) :: l) ->
  inv_fold l prev (Some pk) true = Done true.
Proof.
  revert r0 prev pk. induction l as [|[r k] l IH]; intros r0 prev pk Hp Ht [Hne Hc]; simpl; [done|].
  simpl in Ht. destruct Ht as (Hf & Hr & Ht). pose proof (tiles_le _ _ _ Ht).
  rewrite add64_ok by (unfold in_u64; lia). simpl. rewrite Hf, Z.eqb_refl; simpl.
  rewrite bool_decide_eq_false_2 by (simpl in Hne; congruence). simpl. apply (IH r); [lia|done|done].
Qed.

Lemma util_invariant_ok t : tree_ok t -> tree_invariant t = Done true.
Proof.
  intros [Ht Hc]. unfold tree_invariant.
  destruct t as [|[r k] l]; [done|]. simpl in Ht. destruct Ht as (Hf & Hr & Ht). simpl.
  rewrite Hf, Z.eqb_refl; simpl. by rewrite (inv_fold_ok l r); [|lia| |].
Qed.

Lemma util_check_ok t : tree_ok t -> check_invariant t = Done tt.
Proof. intros Hok. unfold check_invariant. rewrite (util_invariant_ok t Hok). by destruct debug_assertions. Qed.

(** Neighbours have different values. *)
Lemma compact_neighbours t i r v r' v' :
  ecompact t -> t !! i = Some (r, v) -> t !! S i = Some (r', v') -> v <> v'.
Proof.
  revert i. induction t as [|x t IH]; intros i Hc; [done|]. destruct Hc as [Hx Hc]. destruct i as [|i]; simpl; [|by apply IH].
  intros [= ->] Ht. destruct t as [|y t]; [done|]. simpl in Ht. injection Ht as ->. exact Hx.
Qed.

(** [t'] is [t] with [c..d] set to [k]. *)
Definition updated t t' (c d : Z) k : Prop :=
  forall q v, holds t' q v <-> (c <= q <= d /\ v = k) \/ (~ c <= q <= d /\ holds t q v).

Lemma updated_intro t t' c d k :
  tiles 0 u64_max t -> tiles 0 u64_max t' -> 0 <= c /\ d <= u64_max ->
  (forall q v, holds t q v -> ~ c <= q <= d -> holds t' q v) ->
  (forall q, c <= q <= d -> holds t' q k) -> updated t t' c d k.
Proof.
  intros Ht Ht' Hcd Hout Hin q v. split.
  - intros Hv. destruct (decide (c <= q <= d)) as [Hq|Hq].
    + left. split; [done|]. eapply (holds_unique _ _ _ q); [apply Ht'|done|by apply Hin].
    + right. split; [done|]. destruct (holds_total 0 u64_max t q Ht) as [v0 Hv0].
      { by eapply holds_bound. }
      by rewrite (holds_unique _ _ _ q _ _ Ht' Hv (Hout q v0 Hv0 Hq)).
  - intros [[Hq ->]|[Hq Hv]]; [by apply Hin|by apply Hout].
Qed.

Lemma replaced_updated t t' c d k delta :
  tiles 0 u64_max t -> 0 <= c -> d <= u64_max ->
  replaced (veq := @eq V) (vup := @eq V) t t' c d k delta -> updated t t' c d k.
Proof.
  intros Ht Hc Hd (Ht' & Hout & Hin & _). apply updated_intro; try done.
  - intros q v Hv Hq. by destruct (Hout q v Hv Hq) as (v' & Hv' & <-).
  - intros q Hq. by destruct (Hin q Hq) as (v' & Hv' & <-).
Qed.

(** The removal of the range around a point. *)
Lemma remove_around t p :
  tree_ok t -> in_u64 p ->
  exists l1 r k l2, t = l1 ++ (r, k) :: l2 /\ first r <= p <= last r /\
    bt_remove t (point p) = Some (r, k, l1 ++ l2).
Proof.
  intros [Ht _] Hp. destruct (tiles_split _ _ _ p Ht Hp) as (l1 & r & k & l2 & -> & Hr).
  exists l1, r, k, l2. split_and!; try done; try lia. apply tiles_mid in Ht as (_ & H1 & _).
  apply bt_remove_mid; [|lia]. eapply tiles_below; [done|lia].
Qed.

Lemma place_updated l1 r k l2 c d new :
  tree_ok (l1 ++ (r, k) :: l2) -> first r <= c -> c <= d -> d <= last r -> k <> new ->
  exists t', place (l1 ++ l2) (rest_of (first r) (last r) c d) k (mkRange c d) new = Done t' /\
    tree_ok t' /\ updated (l1 ++ (r, k) :: l2) t' c d new.
Proof.
  intros [Ht Hc] H1 H2 H3 Hne. destruct r as [a b]; simpl in *.
  destruct (place_spec (veq := @eq V) (vup := @eq V) l1 l2 a b k c d new Ht H1 H2 H3)
    as (t' & Hp & Hc' & Hr). specialize (Hc' Hc Hne). exists t'. split; [done|]. split; [split; [apply Hr|done]|].
  pose proof Ht as (_ & Ht1 & Ht2)%tiles_mid. pose proof (tiles_le _ _ _ Ht1).
  pose proof (tiles_le _ _ _ Ht2). simpl in *. eapply replaced_updated; [done| | |done]; lia.
Qed.

(** ** The loop over several ranges *)

Lemma merge_with_adjacent a o1 o2 :
  0 <= a < o1 -> o1 <= o2 -> o1 <= u64_max ->
  merge_with (mkRange a (o1 - 1)) (mkRange o1 o2) = Done (mkRange a o2).
Proof.
  intros. unfold merge_with; simpl. rewrite (proj2 (Z.compare_lt_iff a o1)) by lia.
  rewrite (proj2 (Z.compare_lt_iff (o1 - 1) o2)) by lia.
  rewrite add64_ok by (unfold in_u64; lia); simpl. by rewrite (proj2 (Z.leb_le _ _)) by lia.
Qed.

Lemma merge_with_point p a b : a <= p <= b -> merge_with (point p) (mkRange a b) = Done (mkRange a b).
Proof.
  intros. unfold merge_with; simpl.
  destruct (Z.compare_spec p a), (Z.compare_spec p b); try lia; subst; done.
Qed.

(** What the loop leaves of the ranges it met: everything above its accumulator is as before,
    and what it took beyond [high] had the new value already. *)
Definition absorbed (old rest : RangeTree) (high e : Z) (new : V) : Prop :=
  tiles (e + 1) u64_max rest /\ ecompact rest /\ high <= e /\
  (forall q v, holds old q v -> e < q -> holds rest q v) /\
  (forall q v, holds old q v -> high < q <= e -> v = new).

(** An iteration after the first one: the range starts right above the accumulator. *)
Lemma absorb_step low high new a o1 o2 k l1 l2 :
  0 <= a -> a <= low -> low < o1 -> o1 <= high -> o1 <= o2 -> o2 <= u64_max -> high <= u64_max ->
  below a l1 -> tiles (o2 + 1) u64_max l2 ->
  absorb (mkRange low high) new (mkRange a (o1 - 1)) (mkRange o1 o2) k (l1 ++ l2) =
    if bool_decide (k = new) || (o2 <=? high) then Done (mkRange a o2, l1 ++ l2, false)
    else Done (mkRange a high, l1 ++ (mkRange (high + 1) o2, k) :: l2, true).
Proof.
  intros Ha Hal Hlo Hoh Ho Ho2 Hmax Hb Ht. unfold absorb. case_bool_decide as Hk; simpl.
  { by rewrite merge_with_adjacent by lia. }
  unfold trim_out; simpl. rewrite (proj2 (Z.compare_gt_iff o1 low)) by lia.
  destruct (Z.compare_spec o2 high) as [->|Hlt|Hgt]; simpl.
  - rewrite (proj2 (Z.leb_le high high)) by lia. by rewrite merge_with_adjacent by lia.
  - rewrite (proj2 (Z.leb_le o2 high)) by lia. by rewrite merge_with_adjacent by lia.
  - rewrite (proj2 (Z.leb_le o1 high)) by lia; simpl. rewrite (proj2 (Z.leb_gt o2 high)) by lia.
    rewrite add64_ok by (unfold in_u64; lia); simpl. rewrite merge_with_adjacent by lia; simpl.
    rewrite bt_insert_mid; [done|simpl; lia| |eapply tiles_head_above; [done|simpl; lia]].
    eapply Forall_impl; [done|]. simpl. lia.
Qed.

Lemma absorbed_whole o1 o2 k l2 high new :
  high <= o2 -> (k = new \/ o2 <= high) -> tiles (o2 + 1) u64_max l2 ->
  ecompact ((mkRange o1 o2, k) :: l2) -> absorbed ((mkRange o1 o2, k) :: l2) l2 high o2 new.
Proof.
  intros Hge Hk Ht Hc. split; [done|]. split; [by eapply compact_cons_inv|]. split; [done|].
  split; intros q v; rewrite holds_cons; simpl; intros [[-> Hq]|Hh] Hr; try lia; [done| |].
  - destruct Hk; [done|lia].
  - eapply holds_bound in Hh; [|done]. lia.
Qed.

Lemma absorbed_cut o1 o2 k l2 high new :
  o1 <= high < o2 -> tiles (o2 + 1) u64_max l2 -> ecompact ((mkRange o1 o2, k) :: l2) ->
  absorbed ((mkRange o1 o2, k) :: l2) ((mkRange (high + 1) o2, k) :: l2) high high new.
Proof.
  intros Ho Ht Hc. split; [simpl; split_and!; (done || lia)|].
  split; [by eapply (compact_change [])|]. split; [lia|].
  split; intros q v; rewrite !holds_cons; simpl; intros [[-> Hq]|Hh] Hr; try lia; [|by right].
  left. split; [done|lia].
Qed.

Lemma absorb_loop_spec fuel low high new a o1 o2 k l1 l2 :
  0 <= a -> a <= low -> low < o1 -> o1 <= high -> o1 <= o2 -> below a l1 ->
  tiles (o2 + 1) u64_max l2 -> ecompact ((mkRange o1 o2, k) :: l2) -> (length l2 <= fuel)%nat ->
  high <= u64_max ->
  exists e l2', absorb_loop fuel (mkRange low high) new (mkRange a (o1 - 1)) (mkRange o1 o2) k (l1 ++ l2)
      = Done (mkRange a e, l1 ++ l2') /\
    absorbed ((mkRange o1 o2, k) :: l2) l2' high e new.
Proof.
  revert o1 o2 k l2. induction fuel as [|fuel IH];
    intros o1 o2 k l2 Ha Hal Hlo Hoh Ho Hb Ht Hc Hlen Hmax; pose proof (tiles_le _ _ _ Ht);
    cbn [absorb_loop]; rewrite absorb_step by (done || lia);
    (destruct (bool_decide (k = new) || (o2 <=? high)) eqn:E; cbn -[absorb_loop];
      [destruct (Z.leb_spec high o2) as [Hge|Hlt]|]).
  1,4: exists o2, l2; split; [done|]; apply absorbed_whole; try done;
    apply orb_true_iff in E as [?%bool_decide_eq_true|?]; [by left|right; lia].
  2,4: apply orb_false_iff in E as [Hk Ho2]; exists high, ((mkRange (high + 1) o2, k) :: l2);
    split; [done|]; apply absorbed_cut; try done; lia.
  - destruct l2 as [|? l2]; simpl in Ht, Hlen; lia.
  - destruct l2 as [|[r k2] l2]; simpl in Ht, Hlen; [lia|]. destruct Ht as (Hf & Hr & Ht).
    rewrite add64_ok by (unfold in_u64; lia); simpl. unfold remove_from_map.
    rewrite bt_remove_mid; [|eapply Forall_impl; [done|simpl; lia]|simpl; lia]. simpl.
    destruct r as [x o2']; simpl in Hf, Hr, Ht |- *. subst x.
    destruct (IH (o2 + 1) o2' k2 l2) as (e & l2' & He & Htl & Hcl & Hhe & Hab & Hnew);
      try done; try lia; [by destruct Hc|].
    replace (o2 + 1 - 1) with o2 in He by lia. exists e, l2'. split; [done|].
    split_and!; try done; intros q v; rewrite holds_cons; simpl.
    + intros [[_ ?]|?] ?; [lia|by apply Hab].
    + intros [[_ ?]|?] ?; [lia|by eapply Hnew].
Qed.

(** The first iteration: what is left of the first range stays below the accumulator. *)
Lemma absorb_first low high new o1 o2 k l1 l2 :
  0 <= o1 -> o1 <= low <= o2 -> o2 < high -> high <= u64_max -> below o1 l1 ->
  tiles (o2 + 1) u64_max l2 ->
  absorb (mkRange low high) new (point low) (mkRange o1 o2) k (l1 ++ l2) =
    if bool_decide (k = new) then Done (mkRange o1 o2, l1 ++ l2, false)
    else Done (mkRange low o2,
               l1 ++ (if o1 <? low then [(mkRange o1 (low - 1), k)] else []) ++ l2, false).
Proof.
  intros H0' Hl Ho Hmax Hb Ht. unfold absorb. case_bool_decide as Hk; simpl.
  { by rewrite merge_with_point by lia. }
  unfold trim_out; simpl. rewrite (proj2 (Z.compare_lt_iff o2 high)) by lia.
  destruct (Z.compare_spec o1 low) as [->|Hlt|Hgt]; simpl; [| |lia].
  - rewrite merge_with_point by lia. simpl. by rewrite Z.ltb_irrefl.
  - rewrite (proj2 (Z.leb_le low o2)) by lia; simpl. rewrite sub64_ok by (unfold in_u64; lia); simpl.
    rewrite merge_with_point by lia; simpl. rewrite (proj2 (Z.ltb_lt o1 low)) by lia.
    rewrite bt_insert_mid; [done|simpl; lia|done|eapply tiles_head_above; [done|simpl; lia]].
Qed.

(** The list before the final merges. *)
Definition covered t t' (low high : Z) new : Prop :=
  tiles 0 u64_max t' /\ updated t t' low high new.

Lemma absorb_all low high new o1 o2 k l1 l2 :
  tree_ok (l1 ++ (mkRange o1 o2, k) :: l2) -> o1 <= low <= o2 -> o2 < high -> high <= u64_max ->
  exists l1' a e l2', absorb_loop (length (l1 ++ l2)) (mkRange low high) new (point low) (mkRange o1 o2)
      k (l1 ++ l2) = Done (mkRange a e, l1' ++ l2') /\ ecompact l1' /\ ecompact l2' /\
    covered (l1 ++ (mkRange o1 o2, k) :: l2) (l1' ++ (mkRange a e, new) :: l2') low high new.
Proof.
  intros [Htl Hc] Hl Ho Hmax. pose proof Htl as (_ & H1 & H2)%tiles_mid; simpl in H1, H2.
  pose proof (tiles_le _ _ _ H1). apply compact_mid in Hc as [Hc1 Hc2].
  destruct l2 as [|[[x o2'] k2] l2]; simpl in H2; [lia|]. destruct H2 as (-> & Hr & H2).
  set (pre := if bool_decide (k = new) || negb (o1 <? low) then [] else [(mkRange o1 (low - 1), k)]).
  set (a := if bool_decide (k = new) then o1 else low).
  assert (Hpre : tiles o1 (a - 1) pre).
  { unfold pre, a. case_bool_decide; simpl; [lia|]. destruct (Z.ltb_spec o1 low); simpl; lia. }
  assert (Ha : o1 <= a <= low) by (unfold a; case_bool_decide; lia).
  assert (Hfirst : absorb (mkRange low high) new (point low) (mkRange o1 o2) k
     (l1 ++ (mkRange (o2 + 1) o2', k2) :: l2) =
     Done (mkRange a o2, (l1 ++ pre) ++ (mkRange (o2 + 1) o2', k2) :: l2, false)).
  { rewrite absorb_first; try done; try lia; [|eapply tiles_below; [done|lia]].
    unfold a, pre. case_bool_decide; simpl; [by rewrite app_nil_r|].
    destruct (o1 <? low); simpl; by rewrite <- app_assoc. }
  assert (Hb : below a (l1 ++ pre)).
  { apply Forall_app. split; eapply tiles_below; try done; lia. }
  rewrite length_app; simpl. rewrite Nat.add_succ_r. cbn [absorb_loop]. rewrite Hfirst. cbn -[absorb_loop].
  rewrite (proj2 (Z.leb_gt high o2)) by lia. rewrite add64_ok by (unfold in_u64; lia). cbn -[absorb_loop].
  unfold remove_from_map. rewrite bt_remove_mid; [|eapply Forall_impl; [done|simpl; lia]|simpl; lia]. simpl.
  destruct (absorb_loop_spec (length l1 + length l2) low high new a (o2 + 1) o2' k2 (l1 ++ pre) l2)
    as (e & l2' & He & Htl' & Hcl & Hhe & Hab & Hnew); try done; try lia; [by destruct Hc2|].
  replace (o2 + 1 - 1) with o2 in He by lia.
  exists (l1 ++ pre), a, e, l2'. split; [done|]. split; [|split; [done|]].
  { unfold pre. destruct (_ || _); [rewrite app_nil_r; by eapply compact_snoc_inv|].
    by eapply compact_change. }
  assert (Hk : forall q, a <= q < low -> k = new).
  { unfold a. intros q. case_bool_decide; [done|lia]. }
  assert (Hpreh : forall q v, holds pre q v <-> v = k /\ o1 <= q <= a - 1).
  { intros q v. unfold pre, a in *. case_bool_decide; simpl; [rewrite holds_nil; lia|].
    destruct (Z.ltb_spec o1 low); simpl; [rewrite holds_cons, holds_nil; simpl; intuition lia|].
    rewrite holds_nil. lia. }
  assert (Ht' : tiles 0 u64_max ((l1 ++ pre) ++ (mkRange a e, new) :: l2')).
  { apply tiles_mid; simpl. split_and!; try done; [lia|]. apply tiles_app. exists (o1 - 1).
    by replace (o1 - 1 + 1) with o1 by lia. }
  split; [done|]. apply updated_intro; try done; [lia|..].
  - intros q v Hh Hq. rewrite !holds_app, holds_cons; simpl.
    apply holds_app in Hh as [Hh|Hh]; [by auto|]. apply holds_cons in Hh as [[-> Hr']|Hh]; simpl in *.
    + destruct (decide (q < a)); [left; right; apply Hpreh; split; [done|lia]|].
      right; left. split; [apply (Hk q); lia|lia].
    + assert (high < q).
      { assert (o2 < q); [|lia]. apply holds_cons in Hh as [[_ ?]|Hh]; simpl in *; [lia|].
        eapply holds_bound in Hh; [|done]. lia. }
      destruct (decide (q <= e)); [|right; right; apply Hab; [done|lia]].
      right; left. split; [eapply Hnew; [done|lia]|lia].
  - intros q Hq. rewrite !holds_app, holds_cons; simpl. right; left. split; [done|lia].
Qed.

(** Setting a range, with the merges at its ends. *)
Lemma set_range_body t low high new :
  tree_ok t -> 0 <= low <= high -> high <= u64_max ->
  exists l1 r k l2, t = l1 ++ (r, k) :: l2 /\ first r <= low <= last r /\
    bt_remove t (point low) = Some (r, k, l1 ++ l2) /\
    (~ (high <= last r /\ k = new) ->
     exists t', (if spans r (mkRange low high) then
              rest ← remove r (mkRange low high); place (l1 ++ l2) rest k (mkRange low high) new
            else
              x ← absorb_loop (length (l1 ++ l2)) (mkRange low high) new (point low) r k (l1 ++ l2);
              x ← try_merge_with_next x.2 x.1 new;
              x ← try_merge_with_prior x.2 x.1.1 x.1.2;
              Done (bt_insert x.1.1 x.1.2 x.2)) = Done t' /\ tree_ok t' /\ updated t t' low high new).
Proof.
  intros Hok Hlh Hmax. destruct (remove_around t low Hok) as (l1 & r & k & l2 & -> & Hr & Hrm);
    [unfold in_u64; lia|]. exists l1, r, k, l2. split_and!; try done; try lia. intros Hne.
  pose proof (proj1 Hok) as (_ & H1 & H2)%tiles_mid. pose proof (tiles_le _ _ _ H1). pose proof (tiles_le _ _ _ H2).
  unfold spans; simpl. rewrite (proj2 (Z.leb_le _ _)) by lia; simpl. destruct r as [o1 o2]; simpl in *.
  destruct (Z.leb_spec high o2) as [Hle|Hgt].
  - rewrite remove_rest by lia; simpl. apply (place_updated l1 (mkRange o1 o2) k l2); simpl; try done; try lia.
    intros ->. by apply Hne.
  - destruct (absorb_all low high new o1 o2 k l1 l2 Hok) as (l1' & a & e & l2' & -> & Hc1 & Hc2 & Ht & Hup);
      [lia..|]. simpl.
    destruct (insert_merge_both (veq := @eq V) (vup := @eq V) l1' l2' a e new Ht)
      as (t' & Hm & Ht' & Hc' & Href & _). specialize (Hc' (conj Hc1 Hc2)). rewrite Hm. exists t'. split; [done|]. split; [done|].
    assert (Heq : forall q v, holds (l1' ++ (mkRange a e, new) :: l2') q v <-> holds t' q v).
    { intros q v. split; [by intros (v' & Hv & <-)%Href|]. intros Hv.
      destruct (holds_total _ _ _ q Ht) as [v0 Hv0]; [by eapply holds_bound|].
      pose proof (Href _ _ Hv0) as (v' & Hv' & <-). by rewrite (holds_unique _ _ _ _ _ _ Ht' Hv Hv'). }
    intros q v. by rewrite <- Heq.
Qed.

(** ** Theorems *)

(** The value at a point. *)
Lemma get_holds t p v : tree_ok t -> (get t p = Done v <-> holds t p v).
Proof. intros [Ht _]. unfold get. by rewrite unwrap_done, (bt_get_holds _ _ _ _ _ Ht). Qed.

Lemma get_total t p : tree_ok t -> in_u64 p -> exists v, get t p = Done v.
Proof. intros Hok Hp. destruct (holds_total _ _ t p (proj1 Hok) Hp) as [v Hv]. exists v. by apply get_holds. Qed.

Lemma updated_get t t' c d k q :
  tree_ok t -> tree_ok t' -> updated t t' c d k -> in_u64 q ->
  get t' q = if decide (c <= q <= d) then Done k else get t q.
Proof.
  intros Hok Hok' Hup Hq. destruct (get_total t' q Hok' Hq) as [v Hv]. rewrite Hv.
  apply (get_holds t' q v Hok') in Hv. apply Hup in Hv as [[Hc ->]|[Hc Hv]].
  - by rewrite decide_True.
  - rewrite decide_False by done. symmetry. by apply get_holds.
Qed.

Inductive urt_op := SetPoint (p : Z) (v : V) | SetRange (low high : Z) (v : V).

Definition urt_exec (op : urt_op) t : outcome (RangeTree (V := V)) :=
  match op with
  | SetPoint p v => r ← set_point_as t p v; Done r.2
  | SetRange low high v => set_range_as t low high v
  end.

Definition urt_ok (op : urt_op) : Prop :=
  match op with
  | SetPoint p _ => in_u64 p
  | SetRange low high _ => 0 <= low <= high /\ high <= u64_max
  end.

Inductive urt_reach : RangeTree (V := V) -> Prop :=
| urt_new v : urt_reach (with_default_val v)
| urt_step t op t' : urt_reach t -> urt_ok op -> urt_exec op t = Done t' -> urt_reach t'.

Lemma set_point_spec t p new old :
  tree_ok t -> in_u64 p -> get t p = Done old ->
  exists t', set_point_as t p new =
      Done (negb (bool_decide (old = new)) && can_be_replaced_with old new, t') /\ tree_ok t' /\
    updated t t' p p (if can_be_replaced_with old new then new else old).
Proof.
  intros Hok Hp Hold%get_holds; [|done].
  destruct (remove_around t p Hok Hp) as (l1 & r & k & l2 & E & Hr & Hrm).
  assert (k = old) as ->.
  { eapply (holds_unique _ _ _ p); [apply Hok| |done]. exists r. rewrite E. split; [set_solver|done]. }
  unfold set_point_as, remove_from_map_if. rewrite Hrm; simpl.
  destruct (negb (bool_decide (old = new)) && can_be_replaced_with old new) eqn:Eb; simpl; cycle 1.
  { exists t. split_and!; try done; try apply Hok.
    assert ((if can_be_replaced_with old new then new else old) = old) as ->.
    { apply andb_false_iff in Eb as [Eb| ->]; [|done].
      apply negb_false_iff, bool_decide_eq_true in Eb as ->. by destruct (can_be_replaced_with _ _). }
    apply updated_intro; try done; try apply Hok. intros q Hq. by replace q with p by lia. }
  apply andb_true_iff in Eb as [Hne%negb_true_iff%bool_decide_eq_false Hrep]. rewrite Hrep.
  rewrite E in Hok. pose proof (proj1 Hok) as (_ & H1 & H2)%tiles_mid.
  pose proof (tiles_le _ _ _ H1). pose proof (tiles_le _ _ _ H2). destruct r as [a b]; simpl in *.
  rewrite split_at_rest by lia; simpl.
  destruct (place_updated l1 (mkRange a b) old l2 p p new) as (t' & Hpl & Hok' & Hup); simpl; try done; try lia.
  unfold point. simpl in Hpl. rewrite Hpl; simpl. exists t'. by rewrite E.
Qed.

Lemma set_range_spec t low high new old :
  tree_ok t -> 0 <= low <= high -> high <= u64_max -> get t low = Done old ->
  exists t', set_range_as t low high new = Done t' /\ tree_ok t' /\
    if can_be_replaced_with old new then updated t t' low high new else t' = t.
Proof.
  intros Hok Hlh Hmax Hold%get_holds; [|done].
  destruct (set_range_body t low high new Hok Hlh Hmax) as (l1 & r & k & l2 & E & Hr & Hrm & Hbody).
  assert (k = old) as ->.
  { eapply (holds_unique _ _ _ low); [apply Hok| |done]. exists r. rewrite E. split; [set_solver|done]. }
  unfold set_range_as, range_new, remove_from_map_if. rewrite (util_check_ok t Hok); simpl.
  rewrite (proj2 (Z.leb_le low high)) by lia; simpl. rewrite Hrm; simpl.
  destruct (can_be_replaced_with old new) eqn:Hrep; rewrite ?andb_false_r, ?andb_true_r; [|by exists t].
  destruct (spans r (mkRange low high) && bool_decide (old = new)) eqn:Es; simpl.
  - apply andb_true_iff in Es as [Hs ->%bool_decide_eq_true]. exists t. split_and!; try done; try apply Hok.
    unfold spans in Hs. simpl in Hs. apply andb_true_iff in Hs as [_ Hs].
    apply updated_intro; try done; try apply Hok; [lia|]. intros q Hq.
    exists r. rewrite E. split; [set_solver|lia].
  - destruct Hbody as (t' & Hb & Hok' & Hup).
    { intros [Hh ->]. unfold spans in Es; simpl in Es.
      rewrite !(proj2 (Z.leb_le _ _)) in Es by lia. simpl in Es. by rewrite bool_decide_eq_true_2 in Es. }
    exists t'. split; [|done]. apply bind_done. exists t'. split; [exact Hb|].
    by rewrite (util_check_ok t' Hok').
Qed.

Lemma urt_reach_ok t : urt_reach t -> tree_ok t.
Proof.
  induction 1 as [v|t op t' _ Hok Hop He]; [by repeat split|].
  destruct op as [p v|low high v]; simpl in *.
  - destruct (get_total t p Hok Hop) as [old Hold].
    destruct (set_point_spec t p v old Hok Hop Hold) as (t'' & Hs & Hok' & _).
    rewrite Hs in He. simpl in He. by injection He as <-.
  - destruct Hop as [Hlh Hmax]. destruct (get_total t low Hok) as [old Hold]; [unfold in_u64; lia|].
    destruct (set_range_spec t low high v old Hok Hlh Hmax Hold) as (t'' & Hs & Hok' & _).
    rewrite Hs in He. by injection He as <-.
Qed.

(** C33.  [set_range_as] is a pointwise update, however many ranges it spans: if the value at
    [low] may be replaced by the new one ([can_be_replaced_with]), every index of [low..high] reads
    the new value afterwards and every other index reads what it read before; otherwise nothing
    changes.  The ranges of the result follow each other from 0 to [u64::MAX] without a gap or an
    overlap, no two neighbours have the same value, and the code's own [tree_invariant] accepts it.
    It never panics (its invariant checks pass) and its loop ends. *)
Theorem set_range_as_correct t low high new old :
  urt_reach t -> 0 <= low <= high -> high <= u64_max -> get t low = Done old ->
  exists t', set_range_as t low high new = Done t' /\
    (forall q, in_u64 q -> get t' q =
      if decide (low <= q <= high) then (if can_be_replaced_with old new then Done new else get t q)
      else get t q) /\
    tiles 0 u64_max t' /\
    (forall i r v r' v', t' !! i = Some (r, v) -> t' !! S i = Some (r', v') -> v <> v') /\
    tree_invariant t' = Done true.
Proof.
  intros Hok%urt_reach_ok Hlh Hmax Hold.
  destruct (set_range_spec t low high new old Hok Hlh Hmax Hold) as (t' & Hs & Hok' & Hup).
  exists t'. split; [done|]. split; [|split_and!].
  - intros q Hq. destruct (can_be_replaced_with old new); [by apply updated_get|].
    subst t'. by destruct (decide _).
  - apply Hok'.
  - intros i r v r' v'. apply compact_neighbours, Hok'.
  - by apply util_invariant_ok.
Qed.

(** [set_point_as] returns whether it changed the index (it does when the value differs
    and may be replaced), and is a pointwise update. *)
Theorem util_set_point_as_correct t p new old :
  urt_reach t -> in_u64 p -> get t p = Done old ->
  exists t', set_point_as t p new =
      Done (negb (bool_decide (old = new)) && can_be_replaced_with old new, t') /\
    forall q, in_u64 q -> get t' q =
      if decide (q = p) then Done (if can_be_replaced_with old new then new else old) else get t q.
Proof.
  intros Hok%urt_reach_ok Hp Hold.
  destruct (set_point_spec t p new old Hok Hp Hold) as (t' & Hs & Hok' & Hup).
  exists t'. split; [done|]. intros q Hq. rewrite (updated_get t t' p p _ q Hok Hok' Hup Hq).
  destruct (decide (p <= q <= p)), (decide (q = p)); done || lia.
Qed.

End Specs.

(** [trim_out] on a range that sticks out on both sides returns an upper part that starts right
    after [other.first] instead of after [other.last]; [set_range_as] never gets there, since it
    handles a spanning range separately. *)
Theorem trim_out_upper_part :
  trim_out (H := dev) (mkRange 100 200) (mkRange 150 175) =
    Done (Some (mkRange 100 149), mkRange 150 175, Some (mkRange 151 200)).
Proof. reflexivity. Qed.

(** ** Witnesses *)

Definition demo : RangeTree := [(mkRange 0 9, false); (mkRange 10 19, true); (mkRange 20 u64_max, false)].

Lemma demo_urt_reach : urt_reach (H := dev) demo.
Proof.
  apply (urt_step (with_default_val false) (SetRange 10 19 true) demo); [constructor|..].
  - simpl. unfold u64_max. lia.
  - vm_compute. reflexivity.
Qed.

Lemma set_range_as_correct_witness :
  exists t', set_range_as (H := dev) demo 5 30 true = Done t' /\ get t' 25 = Done true /\ tiles 0 u64_max t'.
Proof.
  destruct (set_range_as_correct (H := dev) demo 5 30 true false demo_urt_reach) as (t' & Hs & Hg & Ht & _).
  - lia.
  - unfold u64_max. lia.
  - reflexivity.
  - exists t'. split; [exact Hs|]. split; [|exact Ht]. rewrite Hg by (unfold in_u64, u64_max; lia). reflexivity.
Defined.

Lemma util_set_point_as_correct_witness :
  exists t', set_point_as (H := dev) demo 9 true = Done (true, t') /\ get t' 9 = Done true.
Proof.
  destruct (util_set_point_as_correct (H := dev) demo 9 true false demo_urt_reach) as (t' & Hs & Hg).
  - unfold in_u64, u64_max; lia.
  - reflexivity.
  - exists t'. split; [exact Hs|]. rewrite Hg by (unfold in_u64, u64_max; lia). reflexivity.
Defined.

End URT.
