(* ===== verification/PacketCodec.v ===== *)
(** * The codec [define_packet!] generates

    The wire format of every message is produced by the procedural macro
    [packet-macro2/packet-macro-impl/src/lib.rs]: from a list of variants, each a tag and a
    list of fields, it generates [try_ref] (a view of a byte slice as a variant, or how many
    bytes are needed), [fill_vec] and [write_to] (the bytes of a variant), [len] and
    [min_len].  This file models the generated code as functions of the description it is
    generated from, and shows that reading and writing are inverse to each other, that a
    short read asks for strictly more bytes but never for more than the packet has, and that
    [write_to] writes the same bytes in place.

    A reference to a field is modelled by the value it reads; the fields of the packets are
    plain numbers, stored in the byte order of the (little-endian) targets, and [Uuid]s,
    stored as their 16 bytes. *)

From stdpp Require Import base list strings sets.
From Stdlib Require Import ZArith Lia.
From S2P Require Import Prelude.
Open Scope Z_scope.

Definition zlen {A} (l : list A) : Z := Z.of_nat (length l).

(** ** Numbers as bytes *)

Fixpoint le_bytes (n : nat) (z : Z) : list Z :=
  match n with
  | O => []
  | S n => z mod 256 :: le_bytes n (z / 256)
  end.

Fixpoint le_value (bs : list Z) : Z :=
  match bs with
  | [] => 0
  | b :: bs => b + 256 * le_value bs
  end.

Definition is_byte (b : Z) : Prop := 0 <= b < 256.

Lemma length_le_bytes n z : length (le_bytes n z) = n.
Proof. revert z. induction n as [|n IH]; intros z; simpl; [done|]. by rewrite IH. Qed.

Lemma le_value_bytes n z : 0 <= z < 256 ^ Z.of_nat n -> le_value (le_bytes n z) = z.
Proof.
  revert z. induction n as [|n IH]; intros z Hz.
  - simpl in *. lia.
  - rewrite Nat2Z.inj_succ, Z.pow_succ_r in Hz by lia. simpl.
    rewrite IH.
    + pose proof (Z.div_mod z 256). lia.
    + split; [apply Z.div_pos; lia|]. apply Z.div_lt_upper_bound; lia.
Qed.

Lemma le_bytes_value bs : Forall is_byte bs -> le_bytes (length bs) (le_value bs) = bs.
Proof.
  induction 1 as [|b bs Hb _ IH]; simpl; [done|]. unfold is_byte in Hb.
  rewrite Z.mul_comm, Z.mod_add, Z.mod_small by lia.
  rewrite Z.div_add, Z.div_small, Z.add_0_l by lia. by rewrite IH.
Qed.

Lemma le_value_range bs : Forall is_byte bs -> 0 <= le_value bs < 256 ^ zlen bs.
Proof.
  induction 1 as [|b bs Hb _ IH]; [done|]. unfold is_byte, zlen in *. simpl length.
  rewrite Nat2Z.inj_succ, Z.pow_succ_r by lia. simpl. lia.
Qed.

Lemma le_bytes_are_bytes n z : Forall is_byte (le_bytes n z).
Proof.
  revert z. induction n as [|n IH]; intros z; simpl; constructor; [|apply IH].
  unfold is_byte. apply Z.mod_pos_bound. lia.
Qed.

(** ** The description of a packet *)

(** The types of fields that occur in the description ([parser::Ty]): plain ones, and
    [[ty | count]], an array whose length is the field [count]. *)
Inductive Elt := EUuid | EFlag | EU8 | EU16 | EU32 | EU64 | EOrderIndex.
Inductive Ty := Path (e : Elt) | VarArray (e : Elt) (count : string).
Record Field := mkField { f_ident : string; f_ty : Ty }.
Record Variant := mkVariant { v_ident : string; v_flag : Z; v_body : list Field }.

(** [::std::mem::size_of::<ty>()] *)
Definition size_of (e : Elt) : nat :=
  match e with
  | EUuid => 16
  | EFlag | EU8 => 1
  | EU16 => 2
  | EU32 => 4
  | EU64 => 8
  | EOrderIndex => 16
  end.
Definition zsize (e : Elt) : Z := Z.of_nat (size_of e).

(** The tag is an [EntryKind::Kind], a [u8]. *)
Definition tag_size : Z := 1.

Inductive Item := INum (z : Z) | ILoc (l : OrderIndex).
Inductive Val := One (x : Item) | Many (xs : list Item).

(** The fields read, resp. the fields of a [Ref], in the order of the description. *)
Definition Env := list (string * Val).

Fixpoint assoc {A} (s : string) (E : list (string * A)) : option A :=
  match E with
  | [] => None
  | (i, v) :: E => if String.eqb s i then Some v else assoc s E
  end.

Definition counter (E : Env) (c : string) : option Z :=
  match assoc c E with Some (One (INum z)) => Some z | _ => None end.

(** The bytes of a value in memory. *)
Definition item_bytes (e : Elt) (x : Item) : list Z :=
  match e, x with
  | EUuid, INum z => rev (le_bytes 16 z)
  | EOrderIndex, ILoc l => le_bytes 8 (oi_order l) ++ le_bytes 8 (oi_entry l)
  | _, INum z => le_bytes (size_of e) z
  | _, ILoc _ => repeat 0 (size_of e)
  end.

(** The value at a pointer to [size_of e] bytes. *)
Definition item_of (e : Elt) (bs : list Z) : Item :=
  match e with
  | EUuid => INum (le_value (rev bs))
  | EOrderIndex => ILoc (mkOI (le_value (take 8 bs)) (le_value (drop 8 bs)))
  | _ => INum (le_value bs)
  end.

Fixpoint read_items (e : Elt) (n : nat) (bs : list Z) : list Item :=
  match n with
  | O => []
  | S n => item_of e (take (size_of e) bs) :: read_items e n (drop (size_of e) bs)
  end.

Definition size_var (f : Field) : option string :=
  match f_ty f with VarArray _ c => Some c | Path _ => None end.

Definition size_vars (fs : list Field) : list string := omap size_var fs.

Definition mem_str (s : string) (l : list string) : bool := existsb (String.eqb s) l.

(** ** Sizes *)

Definition min_size (t : Ty) : Z := match t with Path e => zsize e | VarArray _ _ => 0 end.

Definition err_size (E : Env) (t : Ty) : Z :=
  match t with
  | Path e => zsize e
  | VarArray e c => zsize e * default 0 (counter E c)
  end.

Definition usize_max : Z := u64_max.

Definition zsum (l : list Z) : Z := foldr Z.add 0 l.

Definition minsize (fs : list Field) : Z := zsum (map (fun f => min_size (f_ty f)) fs).

Definition min_len (s : list Variant) : Z :=
  foldl (fun variant_size v => Z.min variant_size (tag_size + minsize (v_body v))) usize_max s.

(** ** Reading *)

(** One field: [None] is the [break] to the end of the variant's loop. *)
Definition try_wrap_field (E : Env) (f : Field) (bs : list Z) : outcome (option (Env * list Z)) :=
  match f_ty f with
  | Path e =>
      if zlen bs <? zsize e then Done None
      else Done (Some (E ++ [(f_ident f, One (item_of e (take (size_of e) bs)))],
                       drop (size_of e) bs))
  | VarArray e c =>
      count ← unwrap (counter E c);
      let size := zsize e * count in
      if zlen bs <? size then Done None
      else Done (Some (E ++ [(f_ident f, Many (read_items e (Z.to_nat count) bs))],
                       drop (Z.to_nat size) bs))
  end.

(** All fields of a variant; the fields read before a [break] are kept, the error size looks
    at them. *)
Fixpoint try_wrap_body (fs : list Field) (E : Env) (bs : list Z) : outcome (Env * option (list Z)) :=
  match fs with
  | [] => Done (E, Some bs)
  | f :: fs =>
      r ← try_wrap_field E f bs;
      match r with
      | None => Done (E, None)
      | Some (E', bs') => try_wrap_body fs E' bs'
      end
  end.

(** A [Ref] has the fields that are not the length of an array. *)
Definition set_fields (fs : list Field) (E : Env) : Env :=
  List.filter (fun p => negb (mem_str p.1 (size_vars fs))) E.

Inductive TryRef (R : Type) :=
| Ok (r : R) (rest : list Z)
| NotEnoughBytes (n : Z)
| BadTag.
Arguments Ok {R} r rest.
Arguments NotEnoughBytes {R} n.
Arguments BadTag {R}.

Definition find_tag (s : list Variant) (tag : Z) : option Variant :=
  List.find (fun v => v_flag v =? tag) s.

Definition try_ref (s : list Variant) (bs : list Z) : outcome (TryRef (string * Env)) :=
  match bs with
  | [] => Done (NotEnoughBytes (min_len s))
  | tag :: bs =>
      match find_tag s tag with
      | None => Done BadTag
      | Some v =>
          '(E, r) ← try_wrap_body (v_body v) [] bs;
          Done (match r with
                | Some rest => Ok (v_ident v, set_fields (v_body v) E) rest
                | None => NotEnoughBytes
                            (tag_size + zsum (map (fun f => err_size E (f_ty f)) (v_body v)))
                end)
      end
  end.

(** ** Writing *)

(** [let count = &array.len();], for every array: where two arrays share a length field, the
    map from length fields to arrays keeps the later one. *)
Fixpoint count_of (fs : list Field) (rv : Env) (c : string) : option Z :=
  match fs with
  | [] => None
  | f :: fs =>
      match count_of fs rv c with
      | Some n => Some n
      | None =>
          match f_ty f, assoc (f_ident f) rv with
          | VarArray _ c', Some (Many xs) => if String.eqb c c' then Some (zlen xs) else None
          | _, _ => None
          end
      end
  end.

(** [*count as ty]: the length is truncated to the width of the field. *)
Definition fill_vec_with_counter (fs : list Field) (rv : Env) (f : Field) : outcome (list Z) :=
  match f_ty f with
  | Path e => n ← unwrap (count_of fs rv (f_ident f)); Done (item_bytes e (INum n))
  | VarArray _ _ => Panic
  end.

(** An array is written with the count of its length field; when it is shorter than that, the
    code reads past the end of the slice (undefined behaviour, [Panic] here). *)
Definition fill_vec_with_field (fs : list Field) (rv : Env) (f : Field) : outcome (list Z) :=
  match f_ty f, assoc (f_ident f) rv with
  | Path e, Some (One x) => Done (item_bytes e x)
  | VarArray e c, Some (Many xs) =>
      n ← unwrap (count_of fs rv c);
      _ ← assert_ (n <=? zlen xs);
      Done (flat_map (item_bytes e) (take (Z.to_nat n) xs))
  | _, _ => Panic
  end.

(** The slices that are appended one after the other. *)
Fixpoint fill_vec_body (fs0 : list Field) (rv : Env) (fs : list Field) : outcome (list (list Z)) :=
  match fs with
  | [] => Done []
  | f :: fs =>
      b ← (if mem_str (f_ident f) (size_vars fs0) then fill_vec_with_counter fs0 rv f
           else fill_vec_with_field fs0 rv f);
      bs ← fill_vec_body fs0 rv fs;
      Done (b :: bs)
  end.

Definition find_variant (s : list Variant) (name : string) : option Variant :=
  List.find (fun v => String.eqb (v_ident v) name) s.

Definition fill_slices (s : list Variant) (r : string * Env) : outcome (list (list Z)) :=
  v ← unwrap (find_variant s r.1);
  bs ← fill_vec_body (v_body v) r.2 (v_body v);
  Done ([v_flag v] :: bs).

Definition fill_vec (s : list Variant) (r : string * Env) (vec : list Z) : outcome (list Z) :=
  slices ← fill_slices s r; Done (vec ++ concat slices).

(** [__SliceVec::extend_from_slice] *)
Definition extend_from_slice (dst : list Z * Z) (slice : list Z) : outcome (list Z * Z) :=
  let '(data, len) := dst in
  let upto := len + zlen slice in
  _ ← assert_ (upto <=? zlen data);
  Done (take (Z.to_nat len) data ++ slice ++ drop (Z.to_nat upto) data, upto).

Fixpoint extend_all (dst : list Z * Z) (slices : list (list Z)) : outcome (list Z * Z) :=
  match slices with
  | [] => Done dst
  | b :: bs => dst' ← extend_from_slice dst b; extend_all dst' bs
  end.

Definition write_to (s : list Variant) (r : string * Env) (data : list Z) : outcome (list Z) :=
  slices ← fill_slices s r;
  '(data', _) ← extend_all (data, 0) slices;
  Done data'.

Definition size (fs : list Field) (rv : Env) (t : Ty) : outcome Z :=
  match t with
  | Path e => Done (zsize e)
  | VarArray e c => n ← unwrap (count_of fs rv c); Done (zsize e * n)
  end.

Fixpoint sum_sizes (fs0 : list Field) (rv : Env) (fs : list Field) : outcome Z :=
  match fs with
  | [] => Done 0
  | f :: fs => a ← size fs0 rv (f_ty f); b ← sum_sizes fs0 rv fs; Done (a + b)
  end.

Definition get_len (s : list Variant) (r : string * Env) : outcome Z :=
  v ← unwrap (find_variant s r.1);
  n ← sum_sizes (v_body v) r.2 (v_body v);
  Done (tag_size + n).

(** ** Well-formed values

    [fields_ok E fs full]: [full] lists a value of the right type and range for every field
    of [fs], the length fields included, and every array has the length its length field
    says. *)

Definition item_ok (e : Elt) (x : Item) : bool :=
  match e, x with
  | EOrderIndex, ILoc l => in_u64b (oi_order l) && in_u64b (oi_entry l)
  | EOrderIndex, INum _ => false
  | _, INum z => (0 <=? z) && (z <? 256 ^ zsize e)
  | _, ILoc _ => false
  end.

Definition val_ok (E : Env) (t : Ty) (v : Val) : bool :=
  match t, v with
  | Path e, One x => item_ok e x
  | VarArray e c, Many xs => bool_decide (counter E c = Some (zlen xs)) && forallb (item_ok e) xs
  | _, _ => false
  end.

Fixpoint fields_ok (E : Env) (fs : list Field) (full : Env) : bool :=
  match fs, full with
  | [], [] => true
  | f :: fs, (i, v) :: full =>
      String.eqb i (f_ident f) && val_ok E (f_ty f) v && fields_ok (E ++ [(i, v)]) fs full
  | _, _ => false
  end.

Definition enc_val (t : Ty) (v : Val) : list Z :=
  match t, v with
  | Path e, One x => item_bytes e x
  | VarArray e _, Many xs => flat_map (item_bytes e) xs
  | _, _ => []
  end.

Definition enc_all (fs : list Field) (full : Env) : list (list Z) :=
  zip_with (fun f p => enc_val (f_ty f) p.2) fs full.
Arguments enc_all : simpl never.

(** The description itself: distinct names, and every length field a number that is read
    before its array. *)
Definition numeric (e : Elt) : bool :=
  match e with EU8 | EU16 | EU32 | EU64 => true | _ => false end.

Fixpoint wf_body (ids seen : list string) (fs : list Field) : bool :=
  match fs with
  | [] => true
  | f :: fs =>
      negb (mem_str (f_ident f) ids) &&
      match f_ty f with
      | Path e => wf_body (f_ident f :: ids) (if numeric e then f_ident f :: seen else seen) fs
      | VarArray e c => mem_str c seen && wf_body (f_ident f :: ids) seen fs
      end
  end.

Definition wf_field (fs : list Field) (f : Field) : bool :=
  match f_ty f with
  | VarArray _ _ => negb (mem_str (f_ident f) (size_vars fs))
  | Path e => implb (mem_str (f_ident f) (size_vars fs)) (numeric e)
  end.

Definition wf_fields (fs : list Field) : bool := wf_body [] [] fs && forallb (wf_field fs) fs.

Lemma enc_all_cons f fs p full :
  concat (enc_all (f :: fs) (p :: full)) = enc_val (f_ty f) p.2 ++ concat (enc_all fs full).
Proof. done. Qed.

(** *** Single values *)

Lemma length_item_bytes e x : length (item_bytes e x) = size_of e.
Proof. by destruct e, x. Qed.

Lemma zsize_pos e : 0 < zsize e.
Proof. by destruct e. Qed.

Lemma item_of_bytes e x : item_ok e x = true -> item_of e (item_bytes e x) = x.
Proof.
  intros Hx. destruct e, x as [z|[o n]]; simpl in Hx; try discriminate Hx;
    try (apply andb_true_iff in Hx as [Hx1 Hx2]);
    rewrite ?in_u64b_spec, ?Z.leb_le, ?Z.ltb_lt in *.
  7: { cbn [item_bytes item_of oi_order oi_entry].
       rewrite take_app_length', drop_app_length' by (by rewrite length_le_bytes).
       unfold in_u64, u64_max in *. rewrite !le_value_bytes by lia. done. }
  all: cbn [item_bytes item_of]; rewrite ?rev_involutive, le_value_bytes; [done|split; [done|exact Hx2]].
Qed.

Lemma item_bytes_of e bs :
  Forall is_byte bs -> length bs = size_of e ->
  item_ok e (item_of e bs) = true /\ item_bytes e (item_of e bs) = bs.
Proof.
  intros Hb Hl.
  assert (Hr : Forall is_byte (rev bs)) by (by apply Forall_rev).
  pose proof (le_value_range bs Hb) as Hv. pose proof (le_value_range _ Hr) as Hvr.
  unfold zlen in *. rewrite length_rev in Hvr.
  assert (Hnum : (0 <=? le_value bs) && (le_value bs <? 256 ^ zsize e) = true).
  { unfold zsize. rewrite <-Hl. rewrite andb_true_iff, Z.leb_le, Z.ltb_lt. lia. }
  assert (Hnumr : (0 <=? le_value (rev bs)) && (le_value (rev bs) <? 256 ^ zsize e) = true).
  { unfold zsize. rewrite <-Hl. rewrite andb_true_iff, Z.leb_le, Z.ltb_lt. lia. }
  destruct e; cbn [item_of item_ok item_bytes oi_order oi_entry];
    try (split; [done|]; rewrite <-Hl; by apply le_bytes_value).
  - split; [done|]. change 16%nat with (size_of EUuid). rewrite <-Hl, <-(length_rev bs).
    rewrite le_bytes_value by done. apply rev_involutive.
  - simpl in Hl. assert (H8 : length (take 8 bs) = 8%nat) by (rewrite length_take; lia).
    assert (H8' : length (drop 8 bs) = 8%nat) by (rewrite length_drop; lia).
    assert (Ht : Forall is_byte (take 8 bs)) by (by apply Forall_take).
    assert (Hd : Forall is_byte (drop 8 bs)) by (by apply Forall_drop).
    pose proof (le_value_range _ Ht) as R1. pose proof (le_value_range _ Hd) as R2.
    unfold zlen in *. rewrite H8 in R1. rewrite H8' in R2. split.
    + rewrite andb_true_iff, !in_u64b_spec. unfold in_u64, u64_max. lia.
    + pose proof (le_bytes_value _ Ht) as B1. pose proof (le_bytes_value _ Hd) as B2.
      rewrite H8 in B1. rewrite H8' in B2. rewrite B1, B2. apply take_drop.
Qed.

(** *** Arrays *)

Lemma length_items e xs : length (flat_map (item_bytes e) xs) = (size_of e * length xs)%nat.
Proof.
  induction xs as [|x xs IH]; simpl; [lia|]. rewrite length_app, IH, length_item_bytes. lia.
Qed.

Lemma read_items_bytes e xs rest :
  forallb (item_ok e) xs = true ->
  read_items e (length xs) (flat_map (item_bytes e) xs ++ rest) = xs.
Proof.
  induction xs as [|x xs IH]; simpl; [done|]. intros [Hx Hxs]%andb_true_iff.
  rewrite <-app_assoc, take_app_length', drop_app_length' by (by rewrite length_item_bytes).
  by rewrite item_of_bytes, IH.
Qed.

Lemma items_of_bytes e n bs :
  Forall is_byte bs -> (size_of e * n <= length bs)%nat ->
  length (read_items e n bs) = n /\ forallb (item_ok e) (read_items e n bs) = true /\
  flat_map (item_bytes e) (read_items e n bs) = take (size_of e * n) bs.
Proof.
  revert bs. induction n as [|n IH]; intros bs Hb Hl; simpl.
  - by rewrite Nat.mul_0_r.
  - destruct (item_bytes_of e (take (size_of e) bs)) as [H1 H2].
    { by apply Forall_take. } { rewrite length_take. lia. }
    destruct (IH (drop (size_of e) bs)) as (I1 & I2 & I3).
    { by apply Forall_drop. } { rewrite length_drop. lia. }
    rewrite I1, H1, H2, I2, I3. split; [done|]. split; [done|].
    rewrite Nat.mul_succ_r, Nat.add_comm. by rewrite take_take_drop.
Qed.

(** *** Environments *)

Lemma assoc_app {A} s (E E' : list (string * A)) :
  assoc s (E ++ E') = match assoc s E with Some v => Some v | None => assoc s E' end.
Proof. induction E as [|[i v] E IH]; simpl; [done|]. by destruct String.eqb. Qed.

Lemma counter_app E E' c n : counter E c = Some n -> counter (E ++ E') c = Some n.
Proof. unfold counter. rewrite assoc_app. by destruct (assoc c E) as [[[]|]|]. Qed.

Lemma mem_str_spec s l : mem_str s l = true <-> s ∈ l.
Proof.
  unfold mem_str. rewrite existsb_exists. split.
  - intros (x & Hx & ->%String.eqb_eq). by apply list_elem_of_In.
  - intros Hs. exists s. split; [by apply list_elem_of_In|apply String.eqb_refl].
Qed.

Definition counters_nonneg (E : Env) : Prop := forall c n, counter E c = Some n -> 0 <= n.

Lemma val_ok_mono E E' t v : val_ok E t v = true -> val_ok (E ++ E') t v = true.
Proof.
  destruct t as [e|e c], v as [x|xs]; simpl; try done.
  rewrite !andb_true_iff, !bool_decide_eq_true. intros [Hc ?]. split; [|done].
  by apply counter_app.
Qed.

Lemma counters_nonneg_snoc E i t v :
  val_ok E t v = true -> counters_nonneg E -> counters_nonneg (E ++ [(i, v)]).
Proof.
  intros Hv HE c n. unfold counter. rewrite assoc_app. specialize (HE c).
  unfold counter in HE. destruct (assoc c E) as [w|] eqn:Ec; [apply HE|]. simpl.
  destruct (String.eqb c i); [|done]. destruct v as [[z|]|]; try done. intros [= <-].
  destruct t as [e|]; [|done]. destruct e; simpl in Hv; try done;
    apply andb_true_iff in Hv as [Hv _]; by apply Z.leb_le in Hv.
Qed.

(** *** Reading what was written *)

Lemma try_wrap_field_full E f v rest :
  val_ok E (f_ty f) v = true ->
  try_wrap_field E f (enc_val (f_ty f) v ++ rest) = Done (Some (E ++ [(f_ident f, v)], rest)).
Proof.
  unfold try_wrap_field. destruct (f_ty f) as [e|e c], v as [x|xs]; simpl; try done.
  - intros Hx. unfold zlen, zsize. rewrite length_app, length_item_bytes.
    rewrite (proj2 (Z.ltb_ge _ _)) by lia.
    rewrite take_app_length', drop_app_length' by (by rewrite length_item_bytes).
    by rewrite item_of_bytes.
  - rewrite andb_true_iff, bool_decide_eq_true. intros [-> Hxs]. simpl.
    unfold zlen, zsize. rewrite length_app, length_items.
    rewrite (proj2 (Z.ltb_ge _ _)) by lia. rewrite Nat2Z.id, read_items_bytes by done.
    rewrite drop_app_length'; [done|]. rewrite length_items. lia.
Qed.

Lemma try_wrap_body_full fs : forall E full rest,
  fields_ok E fs full = true ->
  try_wrap_body fs E (concat (enc_all fs full) ++ rest) = Done (E ++ full, Some rest).
Proof.
  induction fs as [|f fs IH]; intros E [|[i v] full] rest; cbn [fields_ok try_wrap_body]; try done.
  - by rewrite app_nil_r.
  - rewrite !andb_true_iff. intros [[->%String.eqb_eq Hv] Hfs].
    rewrite enc_all_cons, <-app_assoc, try_wrap_field_full by done. simpl.
    rewrite IH by done. by rewrite <-app_assoc.
Qed.

(** *** What was read *)

Lemma try_wrap_field_inv E f bs E' rest :
  counters_nonneg E -> Forall is_byte bs ->
  try_wrap_field E f bs = Done (Some (E', rest)) ->
  exists v, E' = E ++ [(f_ident f, v)] /\ val_ok E (f_ty f) v = true /\
            bs = enc_val (f_ty f) v ++ rest.
Proof.
  intros HE Hb. unfold try_wrap_field. destruct (f_ty f) as [e|e c].
  - destruct (zlen bs <? zsize e) eqn:El; [done|]. apply Z.ltb_ge in El. intros [= <- <-].
    unfold zlen, zsize in El. eexists; split; [done|]. cbn [val_ok enc_val].
    destruct (item_bytes_of e (take (size_of e) bs)) as [H1 H2].
    { by apply Forall_take. } { rewrite length_take. lia. }
    split; [done|]. by rewrite H2, take_drop.
  - destruct (counter E c) as [n|] eqn:Ec; [|done]. simpl. pose proof (HE _ _ Ec) as Hn.
    destruct (zlen bs <? zsize e * n) eqn:El; [done|]. apply Z.ltb_ge in El. intros [= <- <-].
    unfold zlen, zsize in El.
    destruct (items_of_bytes e (Z.to_nat n) bs Hb ltac:(lia)) as (H1 & H2 & H3).
    eexists; split; [done|]. cbn [val_ok enc_val]. rewrite H2, H3. split.
    + rewrite andb_true_r, bool_decide_eq_true. rewrite Ec. unfold zlen. rewrite H1.
      f_equal. lia.
    + replace (Z.to_nat (zsize e * n)) with (size_of e * Z.to_nat n)%nat
        by (unfold zsize; lia).
      by rewrite take_drop.
Qed.

Lemma try_wrap_body_inv fs : forall E bs E' rest,
  counters_nonneg E -> Forall is_byte bs ->
  try_wrap_body fs E bs = Done (E', Some rest) ->
  exists full, E' = E ++ full /\ fields_ok E fs full = true /\
               bs = concat (enc_all fs full) ++ rest.
Proof.
  induction fs as [|f fs IH]; intros E bs E' rest HE Hb; cbn [try_wrap_body].
  - intros [= <- <-]. exists []. by rewrite app_nil_r.
  - destruct (try_wrap_field E f bs) as [[[E1 bs1]|]|] eqn:Ef; simpl; try done. intros Hr.
    apply try_wrap_field_inv in Ef as (v & -> & Hv & ->); [|done..].
    apply Forall_app in Hb as [_ Hb].
    apply IH in Hr as (full & -> & Hok & ->); [|by eapply counters_nonneg_snoc|done].
    exists ((f_ident f, v) :: full). rewrite <-app_assoc. split; [done|].
    cbn [fields_ok]. rewrite String.eqb_refl, Hv, Hok. by rewrite enc_all_cons, <-app_assoc.
Qed.

(** *** Short reads *)

Definition err_sizes (E : Env) (fs : list Field) : Z := zsum (map (fun f => err_size E (f_ty f)) fs).

Lemma err_sizes_cons E f fs : err_sizes E (f :: fs) = err_size E (f_ty f) + err_sizes E fs.
Proof. done. Qed.

Lemma err_sizes_nonneg E fs : counters_nonneg E -> 0 <= err_sizes E fs.
Proof.
  intros HE. induction fs as [|f fs IH]; [done|]. rewrite err_sizes_cons.
  assert (0 <= err_size E (f_ty f)); [|lia]. destruct (f_ty f) as [e|e c]; simpl.
  - pose proof (zsize_pos e). lia.
  - specialize (HE c). pose proof (zsize_pos e). destruct (counter E c) as [n|]; simpl; [|lia].
    specialize (HE n eq_refl). nia.
Qed.

Lemma zlen_app {A} (l1 l2 : list A) : zlen (l1 ++ l2) = zlen l1 + zlen l2.
Proof. unfold zlen. rewrite length_app. lia. Qed.

Lemma zlen_nonneg {A} (l : list A) : 0 <= zlen l.
Proof. unfold zlen. lia. Qed.

(** The size of a value is the error size of its field once its length field is known. *)
Lemma zlen_enc_val E t v : val_ok E t v = true -> zlen (enc_val t v) = err_size E t.
Proof.
  destruct t as [e|e c], v as [x|xs]; simpl; try done.
  - intros _. unfold zlen, zsize. by rewrite length_item_bytes.
  - rewrite andb_true_iff, bool_decide_eq_true. intros [-> _]. simpl.
    unfold zlen, zsize. rewrite length_items. lia.
Qed.

Lemma try_wrap_body_grows fs : forall E bs E' r,
  try_wrap_body fs E bs = Done (E', r) -> exists more, E' = E ++ more.
Proof.
  induction fs as [|f fs IH]; intros E bs E' r; cbn [try_wrap_body].
  - intros [= <- <-]. exists []. by rewrite app_nil_r.
  - destruct (try_wrap_field E f bs) as [[[E1 bs1]|]|] eqn:Ef; simpl; try done.
    + intros (more & ->)%IH.
      assert (exists v, E1 = E ++ [v]) as (v & ->).
      { revert Ef. unfold try_wrap_field. destruct (f_ty f) as [e|e c].
        - destruct (_ <? _); [done|]. intros [= <- _]. by eexists.
        - destruct (counter E c); simpl; [|done]. destruct (_ <? _); [done|].
          intros [= <- _]. by eexists. }
      exists (v :: more). by rewrite <-app_assoc.
    + intros [= <- <-]. exists []. by rewrite app_nil_r.
Qed.

Lemma try_wrap_field_short E f bs :
  try_wrap_field E f bs = Done None -> zlen bs < err_size E (f_ty f).
Proof.
  unfold try_wrap_field. destruct (f_ty f) as [e|e c]; simpl.
  - destruct (zlen bs <? zsize e) eqn:El; [|done]. by apply Z.ltb_lt in El.
  - destruct (counter E c) as [n|]; simpl; [|done].
    destruct (zlen bs <? zsize e * n) eqn:El; [|done]. by apply Z.ltb_lt in El.
Qed.

Lemma err_size_mono E more t v :
  val_ok E t v = true -> err_size (E ++ more) t = err_size E t.
Proof.
  intros Hv. rewrite <-(zlen_enc_val E t v Hv). symmetry. apply zlen_enc_val.
  by apply val_ok_mono.
Qed.

(** A read that breaks off asks for more bytes than it was given. *)
Lemma try_wrap_body_short fs : forall E bs E',
  counters_nonneg E -> Forall is_byte bs ->
  try_wrap_body fs E bs = Done (E', None) -> zlen bs < err_sizes E' fs.
Proof.
  induction fs as [|f fs IH]; intros E bs E' HE Hb; cbn [try_wrap_body]; [done|].
  rewrite err_sizes_cons.
  destruct (try_wrap_field E f bs) as [[[E1 bs1]|]|] eqn:Ef; simpl; try done.
  - intros Hr. apply try_wrap_field_inv in Ef as (v & -> & Hv & ->); [|done..].
    apply Forall_app in Hb as [_ Hb]. destruct (try_wrap_body_grows _ _ _ _ _ Hr) as [more ->].
    apply IH in Hr; [|by eapply counters_nonneg_snoc|done].
    rewrite zlen_app, (zlen_enc_val _ _ _ Hv), <-app_assoc.
    rewrite (err_size_mono E _ _ _ Hv). rewrite <-app_assoc in Hr. lia.
  - intros [= <-]. apply try_wrap_field_short in Ef. pose proof (err_sizes_nonneg E fs HE). lia.
Qed.

(** On a prefix of the bytes of a packet the fields read are the packet's, so the size asked
    for is at most the packet's. *)
Lemma try_wrap_body_prefix fs : forall E full bs more E' r,
  counters_nonneg E -> Forall is_byte bs -> fields_ok E fs full = true ->
  concat (enc_all fs full) = bs ++ more ->
  try_wrap_body fs E bs = Done (E', r) -> exists tl, E ++ full = E' ++ tl.
Proof.
  induction fs as [|f fs IH]; intros E [|[i v] full] bs more E' r HE Hb; cbn [fields_ok try_wrap_body];
    try done.
  - intros _ _ [= <- <-]. by exists [].
  - rewrite !andb_true_iff, enc_all_cons. intros [[->%String.eqb_eq Hv] Hfs] Heq.
    destruct (try_wrap_field E f bs) as [[[E1 bs1]|]|] eqn:Ef; simpl; try done.
    + intros Hr. apply try_wrap_field_inv in Ef as (w & -> & Hw & ->); [|done..].
      pose proof (try_wrap_field_full E f w (bs1 ++ more) Hw) as F1.
      pose proof (try_wrap_field_full E f v (concat (enc_all fs full)) Hv) as F2.
      simpl in Heq. rewrite Heq, <-app_assoc, F1 in F2. simplify_eq.
      apply Forall_app in Hb as [_ Hb].
      eapply IH in Hr as [tl Htl]; [|by eapply counters_nonneg_snoc|done|done|done].
      exists tl. by rewrite <-Htl, <-app_assoc.
    + intros [= <- <-]. by eexists.
Qed.

(** [fields_ok] gives the facts about the single fields, against all values at once. *)
Definition field_fact (full : Env) (f : Field) (p : string * Val) : Prop :=
  p.1 = f_ident f /\ val_ok full (f_ty f) p.2 = true.

Lemma fields_ok_facts fs : forall E full,
  fields_ok E fs full = true -> Forall2 (field_fact (E ++ full)) fs full.
Proof.
  induction fs as [|f fs IH]; intros E [|[i v] full]; simpl; try done.
  rewrite !andb_true_iff. intros [[->%String.eqb_eq Hv] Hfs]. constructor.
  - split; [done|]. by apply val_ok_mono.
  - apply IH in Hfs. by rewrite <-app_assoc in Hfs.
Qed.

Lemma err_size_le E' tl t v :
  val_ok (E' ++ tl) t v = true -> err_size E' t <= zlen (enc_val t v).
Proof.
  intros Hv. rewrite (zlen_enc_val _ _ _ Hv). destruct t as [e|e c]; simpl; [lia|].
  destruct v as [|xs]; [done|]. simpl in Hv. rewrite andb_true_iff, bool_decide_eq_true in Hv.
  destruct Hv as [Hc _]. rewrite Hc. simpl. pose proof (zsize_pos e). pose proof (zlen_nonneg xs).
  destruct (counter E' c) as [n|] eqn:Ec; simpl; [|nia].
  pose proof (counter_app _ tl _ _ Ec) as Hc'. rewrite Hc in Hc'. by simplify_eq.
Qed.

Lemma err_sizes_le E' tl fs full :
  Forall2 (field_fact (E' ++ tl)) fs full ->
  err_sizes E' fs <= zlen (concat (enc_all fs full)).
Proof.
  induction 1 as [|f p fs full [_ Hv] _ IH]; [done|].
  rewrite err_sizes_cons, enc_all_cons, zlen_app. apply err_size_le in Hv. lia.
Qed.

(** *** No panic in reading *)

Lemma try_wrap_body_total fs : forall ids seen E bs,
  wf_body ids seen fs = true ->
  (forall s, is_Some (assoc s E) -> s ∈ ids) ->
  (forall c, c ∈ seen -> exists n, counter E c = Some n) ->
  exists r, try_wrap_body fs E bs = Done r.
Proof.
  induction fs as [|f fs IH]; intros ids seen E bs; cbn [wf_body try_wrap_body]; [by eexists|].
  rewrite andb_true_iff, negb_true_iff, <-not_true_iff_false, mem_str_spec.
  intros [Hfresh Hwf] Hids Hseen.
  assert (Hids' : forall v s, is_Some (assoc s (E ++ [(f_ident f, v)])) -> s ∈ f_ident f :: ids).
  { intros v s. rewrite assoc_app. specialize (Hids s). destruct (assoc s E) as [w|]; [set_solver|].
    simpl. destruct (String.eqb_spec s (f_ident f)) as [->|]; [set_solver|]. by intros [? [=]]. }
  assert (Hseen' : forall v c, c ∈ seen -> exists n, counter (E ++ [(f_ident f, v)]) c = Some n).
  { intros v c [n Hn]%Hseen. exists n. by apply counter_app. }
  assert (Hnew : assoc (f_ident f) E = None).
  { destruct (assoc (f_ident f) E) eqn:Ea; [|done]. exfalso. apply Hfresh, Hids. by rewrite Ea. }
  unfold try_wrap_field. destruct (f_ty f) as [e|e c].
  - destruct (_ <? _); simpl; [by eexists|]. eapply IH; [exact Hwf|apply Hids'|].
    destruct (numeric e) eqn:En; [|apply Hseen']. intros c [->|Hc]%elem_of_cons; [|by apply Hseen'].
    unfold counter. rewrite assoc_app, Hnew. simpl. rewrite String.eqb_refl.
    destruct e; try done; by eexists.
  - apply andb_true_iff in Hwf as [Hc Hwf]. apply mem_str_spec in Hc.
    destruct (Hseen c Hc) as [n ->]. simpl. destruct (_ <? _); simpl; [by eexists|].
    eapply IH; [exact Hwf|apply Hids'|apply Hseen'].
Qed.

(** *** Writing what was read *)

Lemma assoc_set_fields fs E s :
  assoc s (set_fields fs E) = if mem_str s (size_vars fs) then None else assoc s E.
Proof.
  unfold set_fields. induction E as [|[i v] E IH]; simpl; [by destruct mem_str|].
  destruct (mem_str i (size_vars fs)) eqn:Ei; simpl.
  - rewrite IH. destruct (String.eqb_spec s i) as [->|]; [|done]. by rewrite Ei.
  - destruct (String.eqb_spec s i) as [->|]; [by rewrite Ei|]. done.
Qed.

(** The facts used about each field of a well-formed packet. *)
Definition full_fact (fs0 : list Field) (full : Env) (f : Field) (p : string * Val) : Prop :=
  assoc (f_ident f) full = Some p.2 /\ val_ok full (f_ty f) p.2 = true /\ wf_field fs0 f = true.

Lemma size_vars_cons f fs :
  size_vars (f :: fs) =
    match f_ty f with VarArray _ c => c :: size_vars fs | Path _ => size_vars fs end.
Proof. unfold size_vars. simpl. unfold size_var at 1. by destruct (f_ty f). Qed.

Lemma count_of_full fs0 full fs ps c :
  Forall2 (full_fact fs0 full) fs ps ->
  (forall n, count_of fs (set_fields fs0 full) c = Some n -> counter full c = Some n) /\
  (c ∈ size_vars fs -> is_Some (count_of fs (set_fields fs0 full) c)).
Proof.
  induction 1 as [|f p fs ps (Ha & Hv & Hw) _ [IH1 IH2]]; cbn [count_of].
  { split; [done|]. by intros ?%elem_of_nil. }
  destruct (count_of fs (set_fields fs0 full) c) as [n|] eqn:Ec.
  { split; [done|]. by eexists. }
  rewrite assoc_set_fields, size_vars_cons. unfold wf_field in Hw.
  destruct (f_ty f) as [e|e c'].
  - split; [done|]. intros Hc%IH2. by apply is_Some_None in Hc.
  - apply negb_true_iff in Hw. rewrite Hw, Ha. destruct p as [i [x|xs]]; [done|]. simpl in Hv |- *.
    rewrite andb_true_iff, bool_decide_eq_true in Hv. destruct Hv as [Hv _].
    destruct (String.eqb_spec c c') as [->|Hne].
    + split; [by intros n [= <-]|]. by eexists.
    + split; [done|]. intros [?|Hc%IH2]%elem_of_cons; [done|]. by apply is_Some_None in Hc.
Qed.

Section Fill.
Context (fs0 : list Field) (full : Env).
Hypothesis Hall : Forall2 (full_fact fs0 full) fs0 full.

Lemma count_of_counter c : c ∈ size_vars fs0 -> count_of fs0 (set_fields fs0 full) c = counter full c.
Proof.
  intros Hc. destruct (count_of_full _ _ _ _ c Hall) as [H1 H2].
  destruct (H2 Hc) as [n Hn]. by rewrite Hn, (H1 n Hn).
Qed.

Lemma size_var_in f e c : f ∈ fs0 -> f_ty f = VarArray e c -> c ∈ size_vars fs0.
Proof.
  intros Hf Ht. unfold size_vars. apply list_elem_of_omap. exists f. split; [done|].
  unfold size_var. by rewrite Ht.
Qed.

Lemma fill_field_full f p :
  f ∈ fs0 -> full_fact fs0 full f p ->
  (if mem_str (f_ident f) (size_vars fs0) then fill_vec_with_counter fs0 (set_fields fs0 full) f
   else fill_vec_with_field fs0 (set_fields fs0 full) f) = Done (enc_val (f_ty f) p.2) /\
  size fs0 (set_fields fs0 full) (f_ty f) = Done (zlen (enc_val (f_ty f) p.2)).
Proof.
  intros Hf (Ha & Hv & Hw). rewrite (zlen_enc_val _ _ _ Hv).
  unfold fill_vec_with_counter, fill_vec_with_field. rewrite assoc_set_fields.
  destruct p as [i v]. simpl in *. unfold wf_field in Hw. destruct (f_ty f) as [e|e c] eqn:Ht.
  - destruct v as [x|]; [|done]. split; [|done].
    destruct (mem_str (f_ident f) (size_vars fs0)) eqn:Em.
    + apply mem_str_spec in Em. rewrite (count_of_counter _ Em). unfold counter. rewrite Ha.
      simpl in Hw, Hv. destruct x as [z|]; [done|]. by destruct e.
    + by rewrite Ha.
  - apply negb_true_iff in Hw. rewrite Hw, Ha. destruct v as [|xs]; [done|]. simpl.
    rewrite (count_of_counter c) by (by eapply size_var_in).
    simpl in Hv. rewrite andb_true_iff, bool_decide_eq_true in Hv. destruct Hv as [Hc _].
    rewrite Hc. simpl. rewrite Z.leb_refl. simpl. unfold zlen. rewrite Nat2Z.id, firstn_all. done.
Qed.

Lemma fill_body_full fs ps :
  fs ⊆ fs0 -> Forall2 (full_fact fs0 full) fs ps ->
  fill_vec_body fs0 (set_fields fs0 full) fs = Done (enc_all fs ps) /\
  sum_sizes fs0 (set_fields fs0 full) fs = Done (zlen (concat (enc_all fs ps))).
Proof.
  intros Hsub H2. induction H2 as [|f p fs ps Hf _ IH]; [done|].
  destruct IH as [IH1 IH2]; [set_solver|].
  destruct (fill_field_full f p) as [F1 F2]; [set_solver|done|].
  cbn [fill_vec_body sum_sizes]. rewrite F1, F2, IH1, IH2.
  by rewrite enc_all_cons, zlen_app.
Qed.
End Fill.

(** ** The codec of a whole description *)

Definition wf_schema (s : list Variant) : bool :=
  forallb (fun v => wf_fields (v_body v) && (0 <=? v_flag v) && (v_flag v <? 256)) s &&
  bool_decide (NoDup (map v_flag s)) && bool_decide (NoDup (map v_ident s)) && (0 <? min_len s).

Lemma find_unique {A B} (g : A -> B) (eqb : B -> B -> bool) (l : list A) (a : A) :
  (forall x y, eqb x y = true <-> x = y) -> NoDup (map g l) -> a ∈ l ->
  List.find (fun x => eqb (g x) (g a)) l = Some a.
Proof.
  intros Heqb. induction l as [|x l IH]; simpl; [by intros _ ?%elem_of_nil|].
  intros [Hx Hl]%NoDup_cons [->|Ha]%elem_of_cons.
  - by rewrite (proj2 (Heqb _ _) eq_refl).
  - destruct (eqb (g x) (g a)) eqn:E; [|by apply IH]. apply Heqb in E.
    exfalso. apply Hx. rewrite E. apply list_elem_of_In, in_map. by apply list_elem_of_In.
Qed.

Lemma find_tag_in s tag v : find_tag s tag = Some v -> v ∈ s /\ v_flag v = tag.
Proof.
  intros [Hin Heq]%find_some. split; [by apply list_elem_of_In|]. by apply Z.eqb_eq.
Qed.

Lemma wf_body_names fs : forall ids seen,
  wf_body ids seen fs = true ->
  NoDup (map f_ident fs) /\ (forall s, s ∈ map f_ident fs -> s ∉ ids).
Proof.
  induction fs as [|f fs IH]; intros ids seen; cbn [wf_body].
  { intros _. split; [constructor|]. by intros s ?%elem_of_nil. }
  rewrite andb_true_iff, negb_true_iff, <-not_true_iff_false, mem_str_spec. intros [Hf Hwf].
  assert (exists seen', wf_body (f_ident f :: ids) seen' fs = true) as [seen' H'].
  { destruct (f_ty f); [by eexists|]. apply andb_true_iff in Hwf as [_ Hwf]. by eexists. }
  apply IH in H' as [H1 H2]. simpl. split.
  - constructor; [|done]. intros Hin. apply (H2 _ Hin). set_solver.
  - intros s [->|Hs]%elem_of_cons; [done|]. specialize (H2 s Hs). set_solver.
Qed.

Lemma assoc_in (E : Env) i v : NoDup (map fst E) -> (i, v) ∈ E -> assoc i E = Some v.
Proof.
  induction E as [|[j w] E IH]; simpl; [by intros _ ?%elem_of_nil|].
  intros [Hj HE]%NoDup_cons [Heq|Hin]%elem_of_cons.
  - simplify_eq. by rewrite String.eqb_refl.
  - destruct (String.eqb_spec i j) as [->|]; [|by apply IH].
    exfalso. apply Hj. apply list_elem_of_In, in_map_iff. exists (j, v). split; [done|].
    by apply list_elem_of_In.
Qed.

Lemma field_facts_names G fs full :
  Forall2 (field_fact G) fs full -> map fst full = map f_ident fs.
Proof. induction 1 as [|f p fs ps [Hn _] _ IH]; simpl; [done|]. by rewrite Hn, IH. Qed.

Lemma fields_ok_full_facts fs full :
  wf_fields fs = true -> fields_ok [] fs full = true -> Forall2 (full_fact fs full) fs full.
Proof.
  unfold wf_fields. rewrite andb_true_iff. intros [Hwf Hfs] Hok.
  apply fields_ok_facts in Hok. simpl in Hok.
  assert (Hnd : NoDup (map fst full)).
  { rewrite (field_facts_names _ _ _ Hok). by apply wf_body_names in Hwf as [? _]. }
  apply Forall2_same_length_lookup. split; [by eapply Forall2_length|].
  intros k f [i v] Hf Hp. destruct (Forall2_lookup_lr _ _ _ _ _ _ Hok Hf Hp) as [Hi Hv].
  simpl in *. subst i. unfold full_fact. simpl. split; [|split; [done|]].
  - apply assoc_in; [done|]. by eapply list_elem_of_lookup_2.
  - rewrite forallb_forall in Hfs. apply Hfs, list_elem_of_In. by eapply list_elem_of_lookup_2.
Qed.

(** The bytes and the [Ref] of a variant with all its fields. *)
Definition packet_bytes (v : Variant) (full : Env) : list Z :=
  v_flag v :: concat (enc_all (v_body v) full).

Definition packet_ref (v : Variant) (full : Env) : string * Env :=
  (v_ident v, set_fields (v_body v) full).

Section Schema.
Context (s : list Variant).
Hypothesis Hwf : wf_schema s = true.

Lemma schema_variant v :
  v ∈ s -> find_tag s (v_flag v) = Some v /\ find_variant s (v_ident v) = Some v /\
           wf_fields (v_body v) = true /\ is_byte (v_flag v).
Proof.
  intros Hv. revert Hwf. unfold wf_schema.
  rewrite !andb_true_iff, !bool_decide_eq_true, forallb_forall.
  intros [[[Hall Ht] Hi] _]. specialize (Hall v (proj1 (list_elem_of_In _ _) Hv)).
  rewrite !andb_true_iff, Z.leb_le, Z.ltb_lt in Hall. unfold is_byte. split_and!; try tauto.
  - by apply (find_unique v_flag Z.eqb); [apply Z.eqb_eq|..].
  - by apply (find_unique v_ident String.eqb); [apply String.eqb_eq|..].
Qed.

Lemma codec_fill v full vec :
  v ∈ s -> fields_ok [] (v_body v) full = true ->
  fill_vec s (packet_ref v full) vec = Done (vec ++ packet_bytes v full) /\
  get_len s (packet_ref v full) = Done (zlen (packet_bytes v full)).
Proof.
  intros Hv Hok. destruct (schema_variant v Hv) as (_ & Hf & Hw & _).
  unfold fill_vec, fill_slices, get_len, packet_ref. simpl. rewrite Hf. simpl.
  destruct (fill_body_full (v_body v) full) with (fs := v_body v) (ps := full) as [H1 H2].
  1,3: by apply fields_ok_full_facts. { done. }
  rewrite H1, H2. simpl. split; [done|]. f_equal. unfold packet_bytes, zlen, tag_size. simpl.
  lia.
Qed.

(** The bytes of a packet are read back as the packet, whatever follows them. *)
Lemma codec_write_read v full rest :
  v ∈ s -> fields_ok [] (v_body v) full = true ->
  try_ref s (packet_bytes v full ++ rest) = Done (Ok (packet_ref v full) rest).
Proof.
  intros Hv Hok. destruct (schema_variant v Hv) as (Ht & _ & _ & _).
  unfold try_ref, packet_bytes. rewrite <-app_comm_cons, Ht, try_wrap_body_full by done. done.
Qed.

(** What is read is a packet of the description, and its bytes are the bytes read. *)
Lemma codec_read_write bs r rest :
  Forall is_byte bs -> try_ref s bs = Done (Ok r rest) ->
  exists v full, v ∈ s /\ fields_ok [] (v_body v) full = true /\
                 r = packet_ref v full /\ bs = packet_bytes v full ++ rest.
Proof.
  intros Hb. unfold try_ref. destruct bs as [|tag bs]; [done|].
  apply Forall_cons in Hb as [_ Hb].
  destruct (find_tag s tag) as [v|] eqn:Ef; [|done]. apply find_tag_in in Ef as [Hv <-].
  destruct (try_wrap_body (v_body v) [] bs) as [[E [rest'|]]|] eqn:Eb; simpl; try done.
  intros [= <- <-]. apply try_wrap_body_inv in Eb as (full & -> & Hok & ->); [|done..].
  by exists v, full.
Qed.

Lemma codec_total bs : exists x, try_ref s bs = Done x.
Proof.
  unfold try_ref. destruct bs as [|tag bs]; [by eexists|].
  destruct (find_tag s tag) as [v|] eqn:Ef; [|by eexists].
  apply find_tag_in in Ef as [Hv _]. destruct (schema_variant v Hv) as (_ & _ & Hw & _).
  unfold wf_fields in Hw. apply andb_true_iff in Hw as [Hw _].
  destruct (try_wrap_body_total (v_body v) [] [] [] bs Hw) as [[E r] ->]; [|by intros ? ?%elem_of_nil|].
  - intros i Hi. by apply is_Some_None in Hi.
  - by eexists.
Qed.

(** A short read asks for strictly more bytes than it was given... *)
Lemma codec_short bs n :
  Forall is_byte bs -> try_ref s bs = Done (NotEnoughBytes n) -> zlen bs < n.
Proof.
  intros Hb. unfold try_ref. destruct bs as [|tag bs].
  - intros [= <-]. revert Hwf. unfold wf_schema. rewrite !andb_true_iff, Z.ltb_lt.
    intros [_ ?]. done.
  - apply Forall_cons in Hb as [_ Hb]. destruct (find_tag s tag) as [v|]; [|done].
    destruct (try_wrap_body (v_body v) [] bs) as [[E [rest'|]]|] eqn:Eb; simpl; try done.
    intros [= <-]. apply try_wrap_body_short in Eb; [|done..].
    unfold err_sizes, tag_size in *. unfold zlen in *. simpl length. lia.
Qed.

Lemma minsize_le v full :
  fields_ok [] (v_body v) full = true ->
  tag_size + minsize (v_body v) <= zlen (packet_bytes v full).
Proof.
  intros Hok%fields_ok_facts. apply (err_sizes_le []) in Hok.
  assert (minsize (v_body v) = err_sizes [] (v_body v)) as ->.
  { unfold minsize, err_sizes. f_equal. apply map_ext. intros f. destruct (f_ty f); simpl; lia. }
  unfold packet_bytes, zlen, tag_size in *. simpl length. lia.
Qed.

Lemma min_len_le v : v ∈ s -> min_len s <= tag_size + minsize (v_body v).
Proof.
  clear Hwf. unfold min_len. generalize usize_max. induction s as [|w l IH]; intros m; simpl.
  { by intros ?%elem_of_nil. }
  intros [->|Hv]%elem_of_cons; [|by apply IH].
  assert (Hle : forall k, foldl (fun z u => Z.min z (tag_size + minsize (v_body u))) k l <= k).
  { clear. induction l as [|u l IH]; intros k; simpl; [lia|]. etrans; [apply IH|]. lia. }
  etrans; [apply Hle|]. lia.
Qed.

(** ... but not for more than the packet has. *)
Lemma codec_prefix v full bs more x :
  v ∈ s -> fields_ok [] (v_body v) full = true -> Forall is_byte bs ->
  packet_bytes v full = bs ++ more -> try_ref s bs = Done x ->
  match x with
  | Ok r rest => r = packet_ref v full /\ rest = [] /\ more = []
  | NotEnoughBytes n => n <= zlen (packet_bytes v full)
  | BadTag => False
  end.
Proof.
  intros Hv Hok Hb Heq Hx. destruct x as [r rest|n|].
  - apply codec_read_write in Hx as (w & full' & Hw & Hok' & -> & ->); [|done].
    pose proof (codec_write_read w full' (rest ++ more) Hw Hok') as H1.
    pose proof (codec_write_read v full [] Hv Hok) as H2.
    rewrite app_nil_r, Heq, <-app_assoc, H1 in H2.
    assert (packet_ref w full' = packet_ref v full) as -> by congruence.
    assert (rest ++ more = []) as Hnil by congruence.
    by apply app_eq_nil in Hnil as [-> ->].
  - revert Hx. destruct bs as [|tag bs]; simpl.
    + intros [= <-]. etrans; [by apply min_len_le|]. by apply minsize_le.
    + unfold packet_bytes in Heq. simpl in Heq. injection Heq as Ht Heq. subst tag.
      destruct (schema_variant v Hv) as (Ht & _ & _ & _). rewrite Ht.
      destruct (try_wrap_body (v_body v) [] bs) as [[E [rest'|]]|] eqn:Eb; simpl; try done.
      intros [= <-]. apply Forall_cons in Hb as [_ Hb].
      eapply try_wrap_body_prefix in Eb as [tl Htl]; [|done..]. simpl in Htl.
      pose proof (fields_ok_facts _ _ _ Hok) as Hfs. simpl in Hfs. rewrite Htl in Hfs at 1.
      apply err_sizes_le in Hfs. unfold err_sizes, tag_size, packet_bytes, zlen in *.
      simpl length. lia.
  - revert Hx. destruct bs as [|tag bs]; [done|].
    unfold packet_bytes in Heq. simpl in Heq. injection Heq as Ht Heq. subst tag. simpl.
    destruct (schema_variant v Hv) as (Ht & _ & _ & _). rewrite Ht.
    by destruct (try_wrap_body (v_body v) [] bs) as [[E [rest'|]]|].
Qed.
End Schema.

(** ** Writing in place *)

Lemma extend_all_spec slices : forall data pre,
  zlen pre + zlen (concat slices) <= zlen (pre ++ data) ->
  extend_all (pre ++ data, zlen pre) slices =
    Done (pre ++ concat slices ++ drop (length (concat slices)) data,
          zlen pre + zlen (concat slices)).
Proof.
  induction slices as [|b bs IH]; intros data pre Hlen; simpl.
  - rewrite Z.add_0_r. done.
  - cbn [concat] in Hlen. rewrite !zlen_app in Hlen |- *. pose proof (zlen_nonneg (concat bs)).
    rewrite (proj2 (Z.leb_le _ _)) by lia. simpl.
    replace (take (Z.to_nat (zlen pre)) (pre ++ data)) with pre
      by (unfold zlen; by rewrite Nat2Z.id, take_app_length).
    replace (drop (Z.to_nat (zlen pre + zlen b)) (pre ++ data)) with (drop (length b) data).
    2: { rewrite drop_app_ge by (unfold zlen; lia). f_equal. unfold zlen. lia. }
    rewrite app_assoc, <-zlen_app, IH.
    + rewrite zlen_app, length_app, drop_drop, <-!app_assoc. f_equal. f_equal. lia.
    + unfold zlen in *. rewrite !length_app, length_drop. lia.
Qed.

Lemma extend_all_short slices : forall data pre,
  zlen (pre ++ data) < zlen pre + zlen (concat slices) ->
  extend_all (pre ++ data, zlen pre) slices = Panic.
Proof.
  induction slices as [|b bs IH]; intros data pre Hlen; simpl.
  - rewrite zlen_app in Hlen. pose proof (zlen_nonneg data). change (zlen (concat [])) with 0 in Hlen. lia.
  - cbn [concat] in Hlen. rewrite !zlen_app in Hlen |- *.
    destruct (zlen pre + zlen b <=? zlen pre + zlen data) eqn:Eb; [|done]. simpl.
    apply Z.leb_le in Eb.
    replace (take (Z.to_nat (zlen pre)) (pre ++ data)) with pre
      by (unfold zlen; by rewrite Nat2Z.id, take_app_length).
    replace (drop (Z.to_nat (zlen pre + zlen b)) (pre ++ data)) with (drop (length b) data).
    2: { rewrite drop_app_ge by (unfold zlen; lia). f_equal. unfold zlen. lia. }
    rewrite app_assoc, <-zlen_app. apply IH.
    unfold zlen in *. rewrite ?length_app in Hlen. rewrite !length_app, length_drop. lia.
Qed.

(** [write_to] needs exactly the room [fill_vec] fills: it writes those bytes over the start of
    the slice and keeps the rest, and it panics when the slice is shorter. *)
Lemma codec_write_to s r data bytes :
  fill_vec s r [] = Done bytes ->
  write_to s r data =
    if zlen bytes <=? zlen data then Done (bytes ++ drop (length bytes) data) else Panic.
Proof.
  unfold fill_vec, write_to. intros H. apply bind_done in H as (sl & -> & [= <-]). simpl.
  change (data, 0) with ([] ++ data, zlen (A:=Z) []).
  destruct (zlen (concat sl) <=? zlen data) eqn:E.
  - apply Z.leb_le in E. rewrite extend_all_spec; [done|]. by simpl.
  - apply Z.leb_gt in E. rewrite extend_all_short; [done|]. by simpl.
Qed.
