(* ===== verification/Packets.v ===== *)
(** * The packets of the protocol ([fuzzy_log_packets/src/lib.rs])

    The kinds and flags of a packet ([EntryKind], [EntryFlag]), the description given to
    [define_packet!] ([Packet]), the typed variants with their accessors and conversions
    ([Ref], [Mut]) and the views of raw memory ([Entry], [MutEntry]), on top of the codec of
    [PacketCodec].  The theorems: writing and reading are inverse to each other, reading never
    panics and asks for more bytes only when it can make progress, the loop of
    [Entry::wrap_bytes] finds exactly the bytes of a packet, and the conversions between a
    packet and its replication form act on the bytes as intended. *)

From stdpp Require Import base list strings sets.
From Stdlib Require Import ZArith Lia.
From S2P Require Import Prelude PacketCodec.
Local Open Scope string_scope.
Local Open Scope list_scope.
Open Scope Z_scope.

(** ** Kinds and flags *)

Module EntryKind.
Definition Kind := Z.
Definition Invalid : Kind := 0x0.
Definition Data : Kind := 0x1.
Definition Multiput : Kind := 0x2.
Definition Read : Kind := 0x3.
Definition Lock : Kind := 0x4.
Definition Sentinel : Kind := 0x6.
Definition Skeens2ToReplica : Kind := 0x8.
Definition ToReplica : Kind := 0x10.
Definition SingleToReplica : Kind := Z.lor Data ToReplica.
Definition MultiputToReplica : Kind := Z.lor Multiput ToReplica.
Definition SentinelToReplica : Kind := Z.lor Sentinel ToReplica.
Definition FenceClient : Kind := 0x20.
Definition UpdateRecovery : Kind := 0x30.
Definition CheckSkeens1 : Kind := 0x40.
Definition GC : Kind := 0x50.
Definition Snapshot : Kind := 0x60.
Definition SnapshotToReplica : Kind := 0x70.

(** [bitflags]: [insert] is [|=], [remove] is [&= !] on the [u8]. *)
Definition insert (k other : Kind) : Kind := Z.lor k other.
Definition remove (k other : Kind) : Kind := Z.land k (255 - other).

Module EntryLayout.
Inductive t := Data | Multiput | Lock | Sentinel | Read | GC | Snapshot.
End EntryLayout.

Definition layout_kind (l : EntryLayout.t) : Kind :=
  match l with
  | EntryLayout.Data => Data
  | EntryLayout.Multiput => Multiput
  | EntryLayout.Lock => Lock
  | EntryLayout.Sentinel => Sentinel
  | EntryLayout.Read => Read
  | EntryLayout.GC => GC
  | EntryLayout.Snapshot => Snapshot
  end.

Definition is_write (l : EntryLayout.t) : bool :=
  match l with
  | EntryLayout.Data | EntryLayout.Multiput | EntryLayout.Sentinel => true
  | _ => false
  end.

(** [Kind::layout]; [Invalid] and the kinds without an arm panic. *)
Definition layout (k : Kind) : outcome EntryLayout.t :=
  if (k =? Data) || (k =? SingleToReplica) then Done EntryLayout.Data
  else if (k =? Multiput) || (k =? MultiputToReplica) then Done EntryLayout.Multiput
  else if (k =? Sentinel) || (k =? SentinelToReplica) then Done EntryLayout.Sentinel
  else if k =? Lock then Done EntryLayout.Lock
  else if k =? Read then Done EntryLayout.Read
  else if k =? GC then Done EntryLayout.GC
  else if k =? Snapshot then Done EntryLayout.Snapshot
  else Panic.
End EntryKind.

Module EntryFlag.
Definition Flag := Z.
Definition Nothing : Flag := 0x0.
Definition ReadSuccess : Flag := 0x1.
Definition NewMultiPut : Flag := 0x2.
Definition Skeens1Queued : Flag := 0x4.
Definition TakeLock : Flag := 0x8.
Definition Unlock : Flag := 0x10.
Definition NoRemote : Flag := 0x20.
Definition DirectWrite : Flag := 0x40.
Definition SnapshotAndFetch : Flag := 0x80.

Definition contains (f other : Flag) : bool := Z.land f other =? other.
Definition insert (f other : Flag) : Flag := Z.lor f other.
Definition remove (f other : Flag) : Flag := Z.land f (255 - other).
Definition is_taking_lock (f : Flag) : bool := contains f TakeLock.
End EntryFlag.

(** ** The description of the packets *)

Definition Packet : list Variant := [
  mkVariant "Read" EntryKind.Read [
    mkField "id" (Path EUuid); mkField "flags" (Path EFlag);
    mkField "data_bytes" (Path EU16); mkField "dependency_bytes" (Path EU16);
    mkField "loc" (Path EOrderIndex); mkField "horizon" (Path EOrderIndex);
    mkField "min" (Path EOrderIndex)];
  mkVariant "Single" EntryKind.Data [
    mkField "id" (Path EUuid); mkField "flags" (Path EFlag);
    mkField "data_bytes" (Path EU32); mkField "num_deps" (Path EU16);
    mkField "loc" (Path EOrderIndex); mkField "deps" (VarArray EOrderIndex "num_deps");
    mkField "data" (VarArray EU8 "data_bytes"); mkField "timestamp" (Path EU64)];
  mkVariant "Multi" EntryKind.Multiput [
    mkField "id" (Path EUuid); mkField "flags" (Path EFlag);
    mkField "data_bytes" (Path EU32); mkField "num_deps" (Path EU16);
    mkField "cols" (Path EU16); mkField "lock" (Path EU64);
    mkField "locs" (VarArray EOrderIndex "cols"); mkField "deps" (VarArray EOrderIndex "num_deps");
    mkField "data" (VarArray EU8 "data_bytes")];
  mkVariant "Senti" EntryKind.Sentinel [
    mkField "id" (Path EUuid); mkField "flags" (Path EFlag);
    mkField "data_bytes" (Path EU32); mkField "num_deps" (Path EU16);
    mkField "cols" (Path EU16); mkField "lock" (Path EU64);
    mkField "locs" (VarArray EOrderIndex "cols"); mkField "deps" (VarArray EOrderIndex "num_deps")];
  mkVariant "SingleToReplica" EntryKind.SingleToReplica [
    mkField "id" (Path EUuid); mkField "flags" (Path EFlag);
    mkField "data_bytes" (Path EU32); mkField "num_deps" (Path EU16);
    mkField "loc" (Path EOrderIndex); mkField "deps" (VarArray EOrderIndex "num_deps");
    mkField "data" (VarArray EU8 "data_bytes"); mkField "timestamp" (Path EU64);
    mkField "queue_num" (Path EU64)];
  mkVariant "MultiToReplica" EntryKind.MultiputToReplica [
    mkField "id" (Path EUuid); mkField "flags" (Path EFlag);
    mkField "data_bytes" (Path EU32); mkField "num_deps" (Path EU16);
    mkField "cols" (Path EU16); mkField "lock" (Path EU64);
    mkField "locs" (VarArray EOrderIndex "cols"); mkField "deps" (VarArray EOrderIndex "num_deps");
    mkField "data" (VarArray EU8 "data_bytes"); mkField "queue_nums" (VarArray EU64 "cols")];
  mkVariant "SentiToReplica" EntryKind.SentinelToReplica [
    mkField "id" (Path EUuid); mkField "flags" (Path EFlag);
    mkField "data_bytes" (Path EU32); mkField "num_deps" (Path EU16);
    mkField "cols" (Path EU16); mkField "lock" (Path EU64);
    mkField "locs" (VarArray EOrderIndex "cols"); mkField "deps" (VarArray EOrderIndex "num_deps");
    mkField "queue_nums" (VarArray EU64 "cols")];
  mkVariant "Skeens2ToReplica" EntryKind.Skeens2ToReplica [
    mkField "id" (Path EUuid); mkField "lock" (Path EU64); mkField "loc" (Path EOrderIndex)];
  mkVariant "GC" EntryKind.GC [
    mkField "id" (Path EUuid); mkField "flags" (Path EFlag);
    mkField "cols" (Path EU16); mkField "locs" (VarArray EOrderIndex "cols")];
  mkVariant "FenceClient" EntryKind.FenceClient [
    mkField "fencing_write" (Path EUuid); mkField "client_to_fence" (Path EUuid);
    mkField "fencing_client" (Path EUuid)];
  mkVariant "UpdateRecovery" EntryKind.UpdateRecovery [
    mkField "old_recoverer" (Path EUuid); mkField "write_id" (Path EUuid);
    mkField "flags" (Path EFlag); mkField "cols" (Path EU16); mkField "lock" (Path EU64);
    mkField "locs" (VarArray EOrderIndex "cols")];
  mkVariant "CheckSkeens1" EntryKind.CheckSkeens1 [
    mkField "id" (Path EUuid); mkField "flags" (Path EFlag);
    mkField "data_bytes" (Path EU16); mkField "dependency_bytes" (Path EU16);
    mkField "loc" (Path EOrderIndex)];
  mkVariant "Snapshot" EntryKind.Snapshot [
    mkField "id" (Path EUuid); mkField "flags" (Path EFlag);
    mkField "data_bytes" (Path EU32); mkField "num_deps" (Path EU16);
    mkField "cols" (Path EU16); mkField "lock" (Path EU64);
    mkField "locs" (VarArray EOrderIndex "cols")];
  mkVariant "SnapshotToReplica" EntryKind.SnapshotToReplica [
    mkField "id" (Path EUuid); mkField "flags" (Path EFlag);
    mkField "data_bytes" (Path EU32); mkField "num_deps" (Path EU16);
    mkField "cols" (Path EU16); mkField "lock" (Path EU64);
    mkField "locs" (VarArray EOrderIndex "cols"); mkField "queue_nums" (VarArray EU64 "cols")]
].

(** The generated enum [Ref]: the fields of each variant that are not the length of one of its
    arrays. *)
Inductive Ref :=
| Read (id flags data_bytes dependency_bytes : Z) (loc horizon min : OrderIndex)
| Single (id flags : Z) (loc : OrderIndex) (deps : list OrderIndex) (data : list Z) (timestamp : Z)
| Multi (id flags lock : Z) (locs deps : list OrderIndex) (data : list Z)
| Senti (id flags data_bytes lock : Z) (locs deps : list OrderIndex)
| SingleToReplica (id flags : Z) (loc : OrderIndex) (deps : list OrderIndex) (data : list Z)
    (timestamp queue_num : Z)
| MultiToReplica (id flags lock : Z) (locs deps : list OrderIndex) (data queue_nums : list Z)
| SentiToReplica (id flags data_bytes lock : Z) (locs deps : list OrderIndex) (queue_nums : list Z)
| Skeens2ToReplica (id lock : Z) (loc : OrderIndex)
| GC (id flags : Z) (locs : list OrderIndex)
| FenceClient (fencing_write client_to_fence fencing_client : Z)
| UpdateRecovery (old_recoverer write_id flags lock : Z) (locs : list OrderIndex)
| CheckSkeens1 (id flags data_bytes dependency_bytes : Z) (loc : OrderIndex)
| Snapshot (id flags data_bytes num_deps lock : Z) (locs : list OrderIndex)
| SnapshotToReplica (id flags data_bytes num_deps lock : Z) (locs : list OrderIndex)
    (queue_nums : list Z).

#[export] Instance Ref_eq_dec : EqDecision Ref.
Proof. solve_decision. Defined.

Definition num (z : Z) : Val := One (INum z).
Definition oi (l : OrderIndex) : Val := One (ILoc l).
Definition nums (zs : list Z) : Val := Many (INum <$> zs).
Definition ois (ls : list OrderIndex) : Val := Many (ILoc <$> ls).

(** The fields of a variant by name. *)
Definition ref_fields (r : Ref) : string * Env :=
  match r with
  | Read id flags data_bytes dependency_bytes loc horizon min =>
      ("Read", [("id", num id); ("flags", num flags); ("data_bytes", num data_bytes);
                ("dependency_bytes", num dependency_bytes); ("loc", oi loc);
                ("horizon", oi horizon); ("min", oi min)])
  | Single id flags loc deps data timestamp =>
      ("Single", [("id", num id); ("flags", num flags); ("loc", oi loc); ("deps", ois deps);
                  ("data", nums data); ("timestamp", num timestamp)])
  | Multi id flags lock locs deps data =>
      ("Multi", [("id", num id); ("flags", num flags); ("lock", num lock); ("locs", ois locs);
                 ("deps", ois deps); ("data", nums data)])
  | Senti id flags data_bytes lock locs deps =>
      ("Senti", [("id", num id); ("flags", num flags); ("data_bytes", num data_bytes);
                 ("lock", num lock); ("locs", ois locs); ("deps", ois deps)])
  | SingleToReplica id flags loc deps data timestamp queue_num =>
      ("SingleToReplica", [("id", num id); ("flags", num flags); ("loc", oi loc);
                           ("deps", ois deps); ("data", nums data);
                           ("timestamp", num timestamp); ("queue_num", num queue_num)])
  | MultiToReplica id flags lock locs deps data queue_nums =>
      ("MultiToReplica", [("id", num id); ("flags", num flags); ("lock", num lock);
                          ("locs", ois locs); ("deps", ois deps); ("data", nums data);
                          ("queue_nums", nums queue_nums)])
  | SentiToReplica id flags data_bytes lock locs deps queue_nums =>
      ("SentiToReplica", [("id", num id); ("flags", num flags); ("data_bytes", num data_bytes);
                          ("lock", num lock); ("locs", ois locs); ("deps", ois deps);
                          ("queue_nums", nums queue_nums)])
  | Skeens2ToReplica id lock loc =>
      ("Skeens2ToReplica", [("id", num id); ("lock", num lock); ("loc", oi loc)])
  | GC id flags locs => ("GC", [("id", num id); ("flags", num flags); ("locs", ois locs)])
  | FenceClient fencing_write client_to_fence fencing_client =>
      ("FenceClient", [("fencing_write", num fencing_write);
                       ("client_to_fence", num client_to_fence);
                       ("fencing_client", num fencing_client)])
  | UpdateRecovery old_recoverer write_id flags lock locs =>
      ("UpdateRecovery", [("old_recoverer", num old_recoverer); ("write_id", num write_id);
                          ("flags", num flags); ("lock", num lock); ("locs", ois locs)])
  | CheckSkeens1 id flags data_bytes dependency_bytes loc =>
      ("CheckSkeens1", [("id", num id); ("flags", num flags); ("data_bytes", num data_bytes);
                        ("dependency_bytes", num dependency_bytes); ("loc", oi loc)])
  | Snapshot id flags data_bytes num_deps lock locs =>
      ("Snapshot", [("id", num id); ("flags", num flags); ("data_bytes", num data_bytes);
                    ("num_deps", num num_deps); ("lock", num lock); ("locs", ois locs)])
  | SnapshotToReplica id flags data_bytes num_deps lock locs queue_nums =>
      ("SnapshotToReplica", [("id", num id); ("flags", num flags); ("data_bytes", num data_bytes);
                             ("num_deps", num num_deps); ("lock", num lock); ("locs", ois locs);
                             ("queue_nums", nums queue_nums)])
  end.

Definition get_num (E : Env) (s : string) : option Z :=
  match assoc s E with Some (One (INum z)) => Some z | _ => None end.
Definition get_oi (E : Env) (s : string) : option OrderIndex :=
  match assoc s E with Some (One (ILoc l)) => Some l | _ => None end.
Definition item_num (x : Item) : option Z := match x with INum z => Some z | _ => None end.
Definition item_oi (x : Item) : option OrderIndex := match x with ILoc l => Some l | _ => None end.
Definition get_nums (E : Env) (s : string) : option (list Z) :=
  match assoc s E with Some (Many xs) => mapM item_num xs | _ => None end.
Definition get_ois (E : Env) (s : string) : option (list OrderIndex) :=
  match assoc s E with Some (Many xs) => mapM item_oi xs | _ => None end.

(** The variant with the given fields: [Ref::variant { field: field.unwrap(), .. }]. *)
Definition ref_of (p : string * Env) : option Ref :=
  let '(name, E) := p in
  let n := get_num E in let l := get_oi E in let ns := get_nums E in let ls := get_ois E in
  if String.eqb name "Read" then
    id ← n "id"; flags ← n "flags"; db ← n "data_bytes"; dep ← n "dependency_bytes";
    loc ← l "loc"; horizon ← l "horizon"; min ← l "min";
    Some (Read id flags db dep loc horizon min)
  else if String.eqb name "Single" then
    id ← n "id"; flags ← n "flags"; loc ← l "loc"; deps ← ls "deps"; data ← ns "data";
    timestamp ← n "timestamp"; Some (Single id flags loc deps data timestamp)
  else if String.eqb name "Multi" then
    id ← n "id"; flags ← n "flags"; lock ← n "lock"; locs ← ls "locs"; deps ← ls "deps";
    data ← ns "data"; Some (Multi id flags lock locs deps data)
  else if String.eqb name "Senti" then
    id ← n "id"; flags ← n "flags"; db ← n "data_bytes"; lock ← n "lock"; locs ← ls "locs";
    deps ← ls "deps"; Some (Senti id flags db lock locs deps)
  else if String.eqb name "SingleToReplica" then
    id ← n "id"; flags ← n "flags"; loc ← l "loc"; deps ← ls "deps"; data ← ns "data";
    timestamp ← n "timestamp"; q ← n "queue_num";
    Some (SingleToReplica id flags loc deps data timestamp q)
  else if String.eqb name "MultiToReplica" then
    id ← n "id"; flags ← n "flags"; lock ← n "lock"; locs ← ls "locs"; deps ← ls "deps";
    data ← ns "data"; qs ← ns "queue_nums"; Some (MultiToReplica id flags lock locs deps data qs)
  else if String.eqb name "SentiToReplica" then
    id ← n "id"; flags ← n "flags"; db ← n "data_bytes"; lock ← n "lock"; locs ← ls "locs";
    deps ← ls "deps"; qs ← ns "queue_nums"; Some (SentiToReplica id flags db lock locs deps qs)
  else if String.eqb name "Skeens2ToReplica" then
    id ← n "id"; lock ← n "lock"; loc ← l "loc"; Some (Skeens2ToReplica id lock loc)
  else if String.eqb name "GC" then
    id ← n "id"; flags ← n "flags"; locs ← ls "locs"; Some (GC id flags locs)
  else if String.eqb name "FenceClient" then
    w ← n "fencing_write"; c ← n "client_to_fence"; f ← n "fencing_client";
    Some (FenceClient w c f)
  else if String.eqb name "UpdateRecovery" then
    o ← n "old_recoverer"; w ← n "write_id"; flags ← n "flags"; lock ← n "lock";
    locs ← ls "locs"; Some (UpdateRecovery o w flags lock locs)
  else if String.eqb name "CheckSkeens1" then
    id ← n "id"; flags ← n "flags"; db ← n "data_bytes"; dep ← n "dependency_bytes";
    loc ← l "loc"; Some (CheckSkeens1 id flags db dep loc)
  else if String.eqb name "Snapshot" then
    id ← n "id"; flags ← n "flags"; db ← n "data_bytes"; nd ← n "num_deps"; lock ← n "lock";
    locs ← ls "locs"; Some (Snapshot id flags db nd lock locs)
  else if String.eqb name "SnapshotToReplica" then
    id ← n "id"; flags ← n "flags"; db ← n "data_bytes"; nd ← n "num_deps"; lock ← n "lock";
    locs ← ls "locs"; qs ← ns "queue_nums"; Some (SnapshotToReplica id flags db nd lock locs qs)
  else None.

(** ** The generated functions on the packets *)

Definition try_ref (bs : list Z) : outcome (TryRef Ref) :=
  x ← PacketCodec.try_ref Packet bs;
  match x with
  | Ok p rest => r ← unwrap (ref_of p); Done (Ok r rest)
  | NotEnoughBytes n => Done (NotEnoughBytes n)
  | BadTag => Done BadTag
  end.

Definition fill_vec (r : Ref) (vec : list Z) : outcome (list Z) :=
  PacketCodec.fill_vec Packet (ref_fields r) vec.

Definition write_to (r : Ref) (data : list Z) : outcome (list Z) :=
  PacketCodec.write_to Packet (ref_fields r) data.

Definition len (r : Ref) : outcome Z := get_len Packet (ref_fields r).

(** [Var::try_var]: the variant of the tag, the first variant by default. *)
Definition try_var (bs : list Z) : string :=
  match bs with
  | tag :: _ => match find_tag Packet tag with Some v => v_ident v | None => "Read" end
  | [] => "Read"
  end.

(** ** [impl Packet::Ref] *)

(** [uuid::NAMESPACE_DNS] *)
Definition NAMESPACE_DNS : Z := 0x6ba7b8109dad11d180b400c04fd430c8.

Definition read (loc : OrderIndex) : Ref :=
  Read NAMESPACE_DNS EntryFlag.Nothing 0 0 loc loc loc.

Definition flag (r : Ref) : outcome EntryFlag.Flag :=
  match r with
  | Read _ flags _ _ _ _ _ | Single _ flags _ _ _ _ | SingleToReplica _ flags _ _ _ _ _
  | Multi _ flags _ _ _ _ | MultiToReplica _ flags _ _ _ _ _
  | Senti _ flags _ _ _ _ | SentiToReplica _ flags _ _ _ _ _
  | GC _ flags _ | UpdateRecovery _ _ flags _ _ | CheckSkeens1 _ flags _ _ _
  | Snapshot _ flags _ _ _ _ | SnapshotToReplica _ flags _ _ _ _ _ => Done flags
  | FenceClient _ _ _ => Done EntryFlag.Nothing
  | Skeens2ToReplica _ _ _ => Panic
  end.

Definition kind (r : Ref) : EntryKind.Kind :=
  match r with
  | Read _ _ _ _ _ _ _ => EntryKind.Read
  | Single _ _ _ _ _ _ => EntryKind.Data
  | Multi _ _ _ _ _ _ => EntryKind.Multiput
  | Senti _ _ _ _ _ _ => EntryKind.Sentinel
  | SingleToReplica _ _ _ _ _ _ _ => EntryKind.SingleToReplica
  | MultiToReplica _ _ _ _ _ _ _ => EntryKind.MultiputToReplica
  | SentiToReplica _ _ _ _ _ _ _ => EntryKind.SentinelToReplica
  | Skeens2ToReplica _ _ _ => EntryKind.Skeens2ToReplica
  | GC _ _ _ => EntryKind.GC
  | UpdateRecovery _ _ _ _ _ => EntryKind.UpdateRecovery
  | FenceClient _ _ _ => EntryKind.FenceClient
  | CheckSkeens1 _ _ _ _ _ => EntryKind.CheckSkeens1
  | Snapshot _ _ _ _ _ _ => EntryKind.Snapshot
  | SnapshotToReplica _ _ _ _ _ _ _ => EntryKind.SnapshotToReplica
  end.

Definition layout (r : Ref) : outcome EntryKind.EntryLayout.t := EntryKind.layout (kind r).

Definition id (r : Ref) : Z :=
  match r with
  | Read id _ _ _ _ _ _ | Single id _ _ _ _ _ | Multi id _ _ _ _ _ | Senti id _ _ _ _ _
  | SingleToReplica id _ _ _ _ _ _ | MultiToReplica id _ _ _ _ _ _ | SentiToReplica id _ _ _ _ _ _
  | Skeens2ToReplica id _ _ | GC id _ _ | CheckSkeens1 id _ _ _ _ => id
  | UpdateRecovery _ write_id _ _ _ => write_id
  | FenceClient fencing_write _ _ => fencing_write
  | Snapshot id _ _ _ _ _ | SnapshotToReplica id _ _ _ _ _ _ => id
  end.

Definition locs (r : Ref) : outcome (list OrderIndex) :=
  match r with
  | Read _ _ _ _ loc _ _ | Single _ _ loc _ _ _ | SingleToReplica _ _ loc _ _ _ _
  | Skeens2ToReplica _ _ loc | CheckSkeens1 _ _ _ _ loc => Done [loc]
  | Multi _ _ _ locs _ _ | Senti _ _ _ _ locs _ | MultiToReplica _ _ _ locs _ _ _
  | SentiToReplica _ _ _ _ locs _ _ | GC _ _ locs | UpdateRecovery _ _ _ _ locs
  | Snapshot _ _ _ _ _ locs | SnapshotToReplica _ _ _ _ _ locs _ => Done locs
  | FenceClient _ _ _ => Panic
  end.

Definition locs_and_node_nums (r : Ref) : outcome (list (OrderIndex * Z)) :=
  match r with
  | SingleToReplica _ _ loc _ _ _ queue_num => Done [(loc, queue_num)]
  | MultiToReplica _ _ _ locs _ _ queue_nums | SentiToReplica _ _ _ _ locs _ queue_nums
  | SnapshotToReplica _ _ _ _ _ locs queue_nums => Done (zip locs queue_nums)
  | _ => Panic
  end.

Definition data (r : Ref) : outcome (list Z) :=
  match r with
  | Multi _ _ _ _ _ data | Single _ _ _ _ data _
  | MultiToReplica _ _ _ _ _ data _ | SingleToReplica _ _ _ _ data _ _ => Done data
  | _ => Panic
  end.

Definition sentinel_entry_size (r : Ref) : outcome Z :=
  match r with
  | MultiToReplica id flags lock locs deps _ _ => len (Senti id flags 0 lock locs deps)
  | SentiToReplica id flags data_bytes lock locs deps _ =>
      len (Senti id flags data_bytes lock locs deps)
  | Multi id flags lock locs deps _ => len (Senti id flags 0 lock locs deps)
  | Senti _ _ _ _ _ _ => len r
  | _ => Panic
  end.

Definition lock_num (r : Ref) : outcome Z :=
  match r with
  | Multi _ _ lock _ _ _ | Senti _ _ _ lock _ _ | MultiToReplica _ _ lock _ _ _ _
  | SentiToReplica _ _ _ lock _ _ _ | Skeens2ToReplica _ lock _ | UpdateRecovery _ _ _ lock _
  | Snapshot _ _ _ _ lock _ | SnapshotToReplica _ _ _ _ lock _ _ => Done lock
  | SingleToReplica _ _ _ _ _ timestamp _ | Single _ _ _ _ _ timestamp => Done timestamp
  | Read _ _ _ _ _ _ _ => Done 0
  | GC _ _ _ | FenceClient _ _ _ | CheckSkeens1 _ _ _ _ _ => Panic
  end.

(** [V::unstore] is the client's decoding of the data. *)
Definition into_singleton_builder {V} (unstore : list Z -> V) (r : Ref)
  : outcome (V * list OrderIndex) :=
  match r with
  | SingleToReplica _ _ _ deps data _ _ | MultiToReplica _ _ _ _ deps data _
  | Multi _ _ _ _ deps data | Single _ _ _ deps data _ => Done (unstore data, deps)
  | _ => Panic
  end.

Definition dependencies (r : Ref) : outcome (list OrderIndex) :=
  match r with
  | Single _ _ _ deps _ _ | Multi _ _ _ _ deps _ | Senti _ _ _ _ _ deps
  | SingleToReplica _ _ _ deps _ _ _ | MultiToReplica _ _ _ _ deps _ _
  | SentiToReplica _ _ _ _ _ deps _ => Done deps
  | _ => Panic
  end.

Definition horizon (r : Ref) : outcome OrderIndex :=
  match r with
  | Read _ _ _ _ _ horizon _ => Done horizon
  | _ => Panic
  end.

Definition non_replicated_len (r : Ref) : outcome Z :=
  match r with
  | Read _ _ _ _ _ _ _ | Single _ _ _ _ _ _ | Multi _ _ _ _ _ _ | Senti _ _ _ _ _ _ | GC _ _ _
  | UpdateRecovery _ _ _ _ _ | CheckSkeens1 _ _ _ _ _
  | Snapshot _ _ _ _ _ _ | SnapshotToReplica _ _ _ _ _ _ _ => len r
  | SingleToReplica id flags loc deps data timestamp _ =>
      len (Single id flags loc deps data timestamp)
  | MultiToReplica id flags lock locs deps data _ => len (Multi id flags lock locs deps data)
  | SentiToReplica id flags data_bytes lock locs deps _ =>
      len (Senti id flags data_bytes lock locs deps)
  | Skeens2ToReplica _ _ _ | FenceClient _ _ _ => Panic
  end.

Definition with_deps (r : Ref) (new : list OrderIndex) : outcome Ref :=
  match r with
  | Single id flags loc _ data timestamp => Done (Single id flags loc new data timestamp)
  | Multi id flags lock locs _ data => Done (Multi id flags lock locs new data)
  | Senti id flags data_bytes lock locs _ => Done (Senti id flags data_bytes lock locs new)
  | SingleToReplica id flags loc _ data timestamp queue_num =>
      Done (SingleToReplica id flags loc new data timestamp queue_num)
  | MultiToReplica id flags lock locs _ data queue_nums =>
      Done (MultiToReplica id flags lock locs new data queue_nums)
  | SentiToReplica id flags data_bytes lock locs _ queue_nums =>
      Done (SentiToReplica id flags data_bytes lock locs new queue_nums)
  | _ => Panic
  end.

Definition single_skeens_to_replication (r : Ref) (time queue_num : Z) : outcome Ref :=
  match r with
  | Single id flags loc deps data _ => Done (SingleToReplica id flags loc deps data time queue_num)
  | _ => Panic
  end.

Definition multi_skeens_to_replication (r : Ref) (queue_nums : list Z) : outcome Ref :=
  match r with
  | Multi id flags lock locs deps data =>
      Done (MultiToReplica id flags lock locs deps data queue_nums)
  | Senti id flags data_bytes lock locs deps =>
      Done (SentiToReplica id flags data_bytes lock locs deps queue_nums)
  | Snapshot id flags data_bytes num_deps lock locs =>
      Done (SnapshotToReplica id flags data_bytes num_deps lock locs queue_nums)
  | _ => Panic
  end.

Definition to_unreplica (r : Ref) : outcome Ref :=
  match r with
  | MultiToReplica id flags lock locs deps data _ => Done (Multi id flags lock locs deps data)
  | SentiToReplica id flags data_bytes lock locs deps _ =>
      Done (Senti id flags data_bytes lock locs deps)
  | SnapshotToReplica id flags data_bytes num_deps lock locs _ =>
      Done (Snapshot id flags data_bytes num_deps lock locs)
  | SingleToReplica id flags loc deps data timestamp _ =>
      Done (Single id flags loc deps data timestamp)
  | _ => Panic
  end.

Definition queue_nums (r : Ref) : outcome (list Z) :=
  match r with
  | MultiToReplica _ _ _ _ _ _ queue_nums | SentiToReplica _ _ _ _ _ _ queue_nums
  | SnapshotToReplica _ _ _ _ _ _ queue_nums => Done queue_nums
  | _ => Panic
  end.

Definition to_vec (r : Ref) : outcome (list Z) := fill_vec r [].

Definition write_id_and_old_recoverer (r : Ref) : outcome (Z * Z) :=
  match r with
  | UpdateRecovery old_recoverer write_id _ _ _ => Done (write_id, old_recoverer)
  | _ => Panic
  end.

(** ** [impl Packet::Mut]

    A mutable reference to a field is modelled by the update of the variant it is used for:
    the new value of the field is computed from the old one by [f]. *)

Definition flag_mut (f : EntryFlag.Flag -> EntryFlag.Flag) (r : Ref) : outcome Ref :=
  match r with
  | Read id flags a b loc horizon min => Done (Read id (f flags) a b loc horizon min)
  | Single id flags loc deps data t => Done (Single id (f flags) loc deps data t)
  | Multi id flags lock locs deps data => Done (Multi id (f flags) lock locs deps data)
  | Senti id flags db lock locs deps => Done (Senti id (f flags) db lock locs deps)
  | SingleToReplica id flags loc deps data t q =>
      Done (SingleToReplica id (f flags) loc deps data t q)
  | MultiToReplica id flags lock locs deps data qs =>
      Done (MultiToReplica id (f flags) lock locs deps data qs)
  | SentiToReplica id flags db lock locs deps qs =>
      Done (SentiToReplica id (f flags) db lock locs deps qs)
  | GC id flags locs => Done (GC id (f flags) locs)
  | UpdateRecovery o w flags lock locs => Done (UpdateRecovery o w (f flags) lock locs)
  | CheckSkeens1 id flags a b loc => Done (CheckSkeens1 id (f flags) a b loc)
  | Snapshot id flags db nd lock locs => Done (Snapshot id (f flags) db nd lock locs)
  | SnapshotToReplica id flags db nd lock locs qs =>
      Done (SnapshotToReplica id (f flags) db nd lock locs qs)
  | Skeens2ToReplica _ _ _ | FenceClient _ _ _ => Panic
  end.

(** The update of the slice of locations; a slice keeps its length. *)
Definition locs_mut (f : list OrderIndex -> list OrderIndex) (r : Ref) : outcome Ref :=
  let one loc := default loc (head (f [loc])) in
  match r with
  | Read id flags a b loc horizon min => Done (Read id flags a b (one loc) horizon min)
  | Single id flags loc deps data t => Done (Single id flags (one loc) deps data t)
  | SingleToReplica id flags loc deps data t q =>
      Done (SingleToReplica id flags (one loc) deps data t q)
  | Skeens2ToReplica id lock loc => Done (Skeens2ToReplica id lock (one loc))
  | CheckSkeens1 id flags a b loc => Done (CheckSkeens1 id flags a b (one loc))
  | Multi id flags lock locs deps data => Done (Multi id flags lock (f locs) deps data)
  | Senti id flags db lock locs deps => Done (Senti id flags db lock (f locs) deps)
  | MultiToReplica id flags lock locs deps data qs =>
      Done (MultiToReplica id flags lock (f locs) deps data qs)
  | SentiToReplica id flags db lock locs deps qs =>
      Done (SentiToReplica id flags db lock (f locs) deps qs)
  | GC id flags locs => Done (GC id flags (f locs))
  | UpdateRecovery o w flags lock locs => Done (UpdateRecovery o w flags lock (f locs))
  | Snapshot id flags db nd lock locs => Done (Snapshot id flags db nd lock (f locs))
  | SnapshotToReplica id flags db nd lock locs qs =>
      Done (SnapshotToReplica id flags db nd lock (f locs) qs)
  | FenceClient _ _ _ => Panic
  end.

Definition lock_mut (f : Z -> Z) (r : Ref) : outcome Ref :=
  match r with
  | Multi id flags lock locs deps data => Done (Multi id flags (f lock) locs deps data)
  | Senti id flags db lock locs deps => Done (Senti id flags db (f lock) locs deps)
  | Skeens2ToReplica id lock loc => Done (Skeens2ToReplica id (f lock) loc)
  | MultiToReplica id flags lock locs deps data qs =>
      Done (MultiToReplica id flags (f lock) locs deps data qs)
  | SentiToReplica id flags db lock locs deps qs =>
      Done (SentiToReplica id flags db (f lock) locs deps qs)
  | UpdateRecovery o w flags lock locs => Done (UpdateRecovery o w flags (f lock) locs)
  | Snapshot id flags db nd lock locs => Done (Snapshot id flags db nd (f lock) locs)
  | SnapshotToReplica id flags db nd lock locs qs =>
      Done (SnapshotToReplica id flags db nd (f lock) locs qs)
  | Single id flags loc deps data t => Done (Single id flags loc deps data (f t))
  | SingleToReplica id flags loc deps data t q =>
      Done (SingleToReplica id flags loc deps data (f t) q)
  | Read _ _ _ _ _ _ _ | GC _ _ _ | FenceClient _ _ _ | CheckSkeens1 _ _ _ _ _ => Panic
  end.

Definition recoverer_is (id : Z) (r : Ref) : outcome Ref :=
  match r with
  | UpdateRecovery _ w flags lock locs => Done (UpdateRecovery id w flags lock locs)
  | _ => Panic
  end.

(** ** Views of raw memory *)

(** The loop of [Entry::wrap_bytes] (and of [MutEntry::wrap_bytes]): [memory] is what the
    pointer points to; a slice that ends beyond it is undefined behaviour, [Panic] here.
    [None]: [fuel] rounds were not enough. *)
Fixpoint wrap_loop `{Build} (fuel : nat) (size : Z) (memory : list Z) : option (outcome (list Z)) :=
  match fuel with
  | O => None
  | S fuel =>
      if zlen memory <? size then Some Panic
      else
        let slice := take (Z.to_nat size) memory in
        match try_ref slice with
        | Done (NotEnoughBytes n) => wrap_loop fuel n memory
        | Done BadTag | Panic => Some Panic
        | Done (Ok c _) =>
            Some (l ← len c; _ ← debug_assert (zlen slice =? l); Done slice)
        end
  end.

Definition wrap_bytes `{Build} (fuel : nat) (memory : list Z) : option (outcome (list Z)) :=
  wrap_loop fuel (min_len Packet) memory.

(** [Entry::contents] *)
Definition contents (inner : list Z) : outcome Ref :=
  x ← try_ref inner;
  match x with Ok r _ => Done r | _ => Panic end.

Definition to_non_replicated (inner : list Z) : outcome (list Z) :=
  match inner with
  | [] => Panic
  | kind :: rest => Done (EntryKind.remove kind EntryKind.ToReplica :: rest)
  end.

Definition to_replicated (inner : list Z) : outcome (list Z) :=
  match inner with
  | [] => Panic
  | kind :: rest => Done (EntryKind.insert kind EntryKind.ToReplica :: rest)
  end.

(** ** Well-formed packets

    [valid r]: every number fits its field, the length of every array fits its length field,
    and two arrays that share a length field ([locs] and [queue_nums]) are equally long. *)

Definition full_of (fs : list Field) (rv : Env) : Env :=
  map (fun f => (f_ident f,
                 if mem_str (f_ident f) (size_vars fs)
                 then num (default 0 (count_of fs rv (f_ident f)))
                 else default (num 0) (assoc (f_ident f) rv))) fs.

Definition variant_of (r : Ref) : Variant :=
  default (mkVariant "" 0 []) (find_variant Packet (ref_fields r).1).

Definition full (r : Ref) : Env := full_of (v_body (variant_of r)) (ref_fields r).2.

Definition valid (r : Ref) : bool := fields_ok [] (v_body (variant_of r)) (full r).

Definition bytes_of (r : Ref) : list Z := packet_bytes (variant_of r) (full r).

Lemma Packet_wf : wf_schema Packet = true.
Proof. vm_compute. reflexivity. Qed.

Lemma variant_of_in r : variant_of r ∈ Packet.
Proof. apply list_elem_of_In. destruct r; vm_compute; tauto. Qed.

Lemma packet_ref_full r : packet_ref (variant_of r) (full r) = ref_fields r.
Proof. by destruct r. Qed.

Lemma mapM_item_num zs : mapM item_num (INum <$> zs) = Some zs.
Proof. apply mapM_Some_2. rewrite Forall2_fmap_l. by apply Forall_Forall2_diag, Forall_true. Qed.

Lemma mapM_item_oi ls : mapM item_oi (ILoc <$> ls) = Some ls.
Proof. apply mapM_Some_2. rewrite Forall2_fmap_l. by apply Forall_Forall2_diag, Forall_true. Qed.

Lemma ref_of_fields r : ref_of (ref_fields r) = Some r.
Proof.
  destruct r; cbn; unfold get_num, get_oi, get_nums, get_ois; cbn;
    rewrite ?mapM_item_oi; cbn; rewrite ?mapM_item_oi; cbn; rewrite ?mapM_item_num; cbn;
    rewrite ?mapM_item_num; done.
Qed.

(** *** Every value of the description is a packet *)

Lemma ok_nums e xs : e <> EOrderIndex -> forallb (item_ok e) xs = true -> exists zs, xs = INum <$> zs.
Proof.
  intros He. induction xs as [|[z|l] xs IH]; simpl.
  - intros _. by exists [].
  - intros [_ [zs ->]%IH]%andb_true_iff. by exists (z :: zs).
  - by destruct e.
Qed.

Lemma ok_ois xs : forallb (item_ok EOrderIndex) xs = true -> exists ls, xs = ILoc <$> ls.
Proof.
  induction xs as [|[z|l] xs IH]; simpl; [by exists []|done|].
  intros [_ [ls ->]%IH]%andb_true_iff. by exists (l :: ls).
Qed.

Definition val_shape (t : Ty) (v : Val) : Prop :=
  match t with
  | Path EOrderIndex => exists l, v = oi l
  | Path _ => exists z, v = num z
  | VarArray EOrderIndex _ => exists ls, v = ois ls
  | VarArray _ _ => exists zs, v = nums zs
  end.

Lemma val_ok_shape E t v : val_ok E t v = true -> val_shape t v.
Proof.
  destruct t as [e|e c], v as [[z|l]|xs]; simpl; try done.
  - destruct e; intros; try done; by eexists.
  - destruct e; intros; try done; by eexists.
  - intros [_ H]%andb_true_iff. unfold nums, ois.
    destruct e; (apply ok_ois in H as [ls ->] || (apply ok_nums in H as [zs ->]; [|done])); by eexists.
Qed.

Fixpoint shaped (fs : list Field) (full : Env) : Prop :=
  match fs with
  | [] => full = []
  | f :: fs => exists v full', full = (f_ident f, v) :: full' /\ val_shape (f_ty f) v /\ shaped fs full'
  end.

Lemma fields_ok_shaped fs : forall E full, fields_ok E fs full = true -> shaped fs full.
Proof.
  induction fs as [|f fs IH]; intros E [|[i v] full]; simpl; try done.
  rewrite !andb_true_iff. intros [[->%String.eqb_eq Hv%val_ok_shape] Hfs%IH]. by eexists _, _.
Qed.

Lemma ref_of_shaped v full :
  v ∈ Packet -> shaped (v_body v) full ->
  exists r, ref_of (packet_ref v full) = Some r /\ ref_fields r = packet_ref v full /\
            variant_of r = v.
Proof.
  intros Hv Hs. apply list_elem_of_In in Hv. unfold Packet in Hv. simpl in Hv.
  repeat destruct Hv as [<-|Hv]; [..|done]; simpl in Hs;
    repeat match goal with
    | H : exists _, _ |- _ => destruct H
    | H : _ /\ _ |- _ => destruct H
    end; subst;
    unfold packet_ref, set_fields, size_vars; cbn; unfold get_num, get_oi, get_nums, get_ois; cbn;
    rewrite ?mapM_item_oi; cbn; rewrite ?mapM_item_oi; cbn; rewrite ?mapM_item_num; cbn;
    rewrite ?mapM_item_num; cbn; (eexists; split; [reflexivity|done]).
Qed.

Lemma full_of_set_fields fs full :
  wf_fields fs = true -> fields_ok [] fs full = true -> full_of fs (set_fields fs full) = full.
Proof.
  intros Hw Hok. pose proof (fields_ok_full_facts _ _ Hw Hok) as Hall.
  pose proof (field_facts_names _ _ _ (fields_ok_facts _ _ _ Hok)) as Hnames. simpl in *.
  unfold full_of.
  assert (Hsub : forall fs' ps, Forall2 (full_fact fs full) fs' ps -> map fst ps = map f_ident fs' ->
    map (fun f => (f_ident f,
                   if mem_str (f_ident f) (size_vars fs)
                   then num (default 0 (count_of fs (set_fields fs full) (f_ident f)))
                   else default (num 0) (assoc (f_ident f) (set_fields fs full)))) fs' = ps);
    [|by apply Hsub].
  induction 1 as [|f [i v] fs' ps (Ha & Hv & Hf) _ IH]; simpl; [done|].
  intros [= -> Hn]. rewrite IH by done. f_equal. f_equal. rewrite assoc_set_fields.
  destruct (mem_str (f_ident f) (size_vars fs)) eqn:Em; [|by rewrite Ha].
  apply mem_str_spec in Em. rewrite (count_of_counter fs full Hall _ Em). unfold counter.
  rewrite Ha. unfold wf_field in Hf. apply mem_str_spec in Em. rewrite Em in Hf. simpl in *.
  destruct (f_ty f) as [e|]; [|done]. destruct v as [[z|l]|]; try done. by destruct e.
Qed.

(** The packets of the description are the valid variants. *)
Lemma valid_packet v full0 :
  v ∈ Packet -> fields_ok [] (v_body v) full0 = true ->
  exists r, ref_of (packet_ref v full0) = Some r /\ valid r = true /\
            bytes_of r = packet_bytes v full0.
Proof.
  intros Hv Hok. destruct (ref_of_shaped v full0) as (r & H1 & H2 & H3); [done| |].
  { by eapply fields_ok_shaped. }
  destruct (schema_variant Packet Packet_wf v Hv) as (_ & _ & Hw & _).
  exists r. split; [done|]. unfold valid, bytes_of, full. rewrite H3, H2. simpl.
  by rewrite full_of_set_fields.
Qed.

(** *** The functions on valid packets *)

Lemma fill_valid r vec : valid r = true -> fill_vec r vec = Done (vec ++ bytes_of r).
Proof.
  intros Hr. unfold fill_vec. rewrite <-packet_ref_full.
  apply (codec_fill Packet Packet_wf); [apply variant_of_in|done].
Qed.

Lemma len_valid r : valid r = true -> len r = Done (zlen (bytes_of r)).
Proof.
  intros Hr. unfold len. rewrite <-packet_ref_full.
  apply (codec_fill Packet Packet_wf _ _ []); [apply variant_of_in|done].
Qed.

Lemma try_ref_valid r rest :
  valid r = true -> try_ref (bytes_of r ++ rest) = Done (Ok r rest).
Proof.
  intros Hr. unfold try_ref, bytes_of.
  rewrite (codec_write_read Packet Packet_wf) by (done || apply variant_of_in).
  rewrite packet_ref_full. unfold mbind, outcome_bind. by rewrite ref_of_fields.
Qed.

Lemma item_bytes_are_bytes e x : Forall is_byte (item_bytes e x).
Proof.
  assert (Hz : forall n, Forall is_byte (repeat 0 n)).
  { induction n; simpl; constructor; [|done]. unfold is_byte. lia. }
  destruct e, x; cbn [item_bytes]; auto using le_bytes_are_bytes, Forall_rev, Forall_app_2.
Qed.

Lemma packet_bytes_are_bytes v full0 : is_byte (v_flag v) -> Forall is_byte (packet_bytes v full0).
Proof.
  intros Ht. constructor; [done|]. generalize (v_body v) full0. clear.
  induction l as [|f fs IH]; intros [|p ps]; [constructor..|]. rewrite enc_all_cons.
  apply Forall_app. split; [|apply IH]. destruct (f_ty f) as [e|e c], p as [i [x|xs]]; simpl;
    try constructor; [apply item_bytes_are_bytes|].
  induction xs as [|x xs IHx]; simpl; [constructor|]. apply Forall_app.
  split; [apply item_bytes_are_bytes|done].
Qed.

Lemma bytes_of_are_bytes r : Forall is_byte (bytes_of r).
Proof.
  apply packet_bytes_are_bytes.
  by destruct (schema_variant Packet Packet_wf _ (variant_of_in r)) as (_ & _ & _ & ?).
Qed.

(** Reading a prefix of a packet: the packet itself, or a size between what was given and what
    the packet has. *)
Lemma try_ref_prefix r bs more :
  valid r = true -> bytes_of r = bs ++ more ->
  (try_ref bs = Done (Ok r []) /\ more = []) \/
  (exists n, try_ref bs = Done (NotEnoughBytes n) /\ zlen bs < n <= zlen (bytes_of r)).
Proof.
  intros Hr Heq. pose proof (bytes_of_are_bytes r) as Hb. rewrite Heq in Hb.
  apply Forall_app in Hb as [Hb _].
  destruct (codec_total Packet Packet_wf bs) as [x Hx].
  pose proof (codec_prefix Packet Packet_wf _ _ bs more x (variant_of_in r) Hr Hb Heq Hx) as Hp.
  unfold try_ref. rewrite Hx. destruct x as [p rest|n|]; [|simpl|done].
  - destruct Hp as (-> & -> & ->). left. rewrite packet_ref_full.
    unfold mbind, outcome_bind. by rewrite ref_of_fields.
  - right. exists n. split; [done|]. split; [|done]. by eapply codec_short; [apply Packet_wf|..].
Qed.

Lemma wrap_loop_valid `{Build} r rest : valid r = true -> forall fuel size,
  0 <= size <= zlen (bytes_of r) -> (Z.to_nat (zlen (bytes_of r) - size) < fuel)%nat ->
  wrap_loop fuel size (bytes_of r ++ rest) = Some (Done (bytes_of r)).
Proof.
  intros Hr. induction fuel as [|fuel IH]; intros size Hs Hf; [lia|]. cbn [wrap_loop].
  rewrite zlen_app. pose proof (zlen_nonneg rest). rewrite (proj2 (Z.ltb_ge _ _)) by lia.
  rewrite take_app_le by (unfold zlen in *; lia).
  assert (Hl : zlen (take (Z.to_nat size) (bytes_of r)) = size).
  { unfold zlen in *. rewrite length_take. lia. }
  destruct (try_ref_prefix r (take (Z.to_nat size) (bytes_of r)) (drop (Z.to_nat size) (bytes_of r)))
    as [[-> Hd]|(n & -> & Hn)]; [done|by rewrite take_drop| |].
  - assert (He : take (Z.to_nat size) (bytes_of r) = bytes_of r).
    { rewrite <-(take_drop (Z.to_nat size) (bytes_of r)) at 2. by rewrite Hd, app_nil_r. }
    rewrite He, len_valid by done. unfold mbind, outcome_bind.
    by rewrite Z.eqb_refl, debug_assert_true.
  - rewrite IH; [done|lia|]. lia.
Qed.

Lemma min_len_valid r : valid r = true -> 0 <= min_len Packet <= zlen (bytes_of r).
Proof.
  intros Hr. split; [by vm_compute|].
  etrans; [by apply min_len_le, (variant_of_in r)|]. by apply minsize_le.
Qed.

(** *** Replication forms

    The replication form of a packet is the packet with the kind's [ToReplica] bit set and the
    queue numbers behind it. *)

Lemma concat_enc_snoc fs f ps p :
  length fs = length ps ->
  concat (enc_all (fs ++ [f]) (ps ++ [p])) = concat (enc_all fs ps) ++ enc_val (f_ty f) p.2.
Proof.
  intros Hl. unfold enc_all. rewrite zip_with_app by done. rewrite concat_app. simpl.
  by rewrite app_nil_r.
Qed.

Lemma fields_ok_snoc fs : forall E f ps p,
  fields_ok E (fs ++ [f]) (ps ++ [p]) = true -> length fs = length ps ->
  fields_ok E fs ps = true.
Proof.
  induction fs as [|g fs IH]; intros E f [|[i v] ps] p; simpl; try done.
  rewrite !andb_true_iff. intros [[-> ->] Hr] [= Hl]. split; [done|]. by eapply IH.
Qed.

(** [locs] and [queue_nums] share their length field. *)
Lemma valid_cols r' ls qs :
  valid r' = true ->
  v_body (variant_of r') !! 6%nat = Some (mkField "locs" (VarArray EOrderIndex "cols")) ->
  full r' !! 6%nat = Some ("locs", ois ls) ->
  counter (full r') "cols" = Some (zlen (INum <$> qs)) ->
  zlen (INum <$> qs) = zlen (ILoc <$> ls).
Proof.
  intros Hv%fields_ok_facts Hf Hp Hc. destruct (Forall2_lookup_lr _ _ _ _ _ _ Hv Hf Hp) as [_ Hl].
  cbn [val_ok ois f_ty snd app] in Hl. rewrite andb_true_iff, bool_decide_eq_true in Hl.
  destruct Hl as [Hl _]. rewrite Hc in Hl. by simplify_eq.
Qed.

(** What the replication form adds to the fields of a packet. *)
Lemma replication_snoc r qs r' :
  multi_skeens_to_replication r qs = Done r' -> valid r' = true ->
  v_body (variant_of r') = (v_body (variant_of r) ++ [mkField "queue_nums" (VarArray EU64 "cols")])%list /\
  full r' = (full r ++ [("queue_nums", nums qs)])%list /\
  length (v_body (variant_of r)) = length (full r) /\
  v_flag (variant_of r) = EntryKind.remove (v_flag (variant_of r')) EntryKind.ToReplica /\
  v_flag (variant_of r') = EntryKind.insert (v_flag (variant_of r)) EntryKind.ToReplica.
Proof.
  destruct r; simpl; try done; intros [= <-] Hv; (split; [done|]); (split; [|done]);
    pose proof (valid_cols _ locs0 qs Hv eq_refl eq_refl eq_refl) as Hlen;
    unfold full; cbn; unfold num; by rewrite Hlen.
Qed.

Lemma replication_bytes r qs r' :
  multi_skeens_to_replication r qs = Done r' -> valid r' = true ->
  valid r = true /\ to_replicated (bytes_of r) = Done (take (length (bytes_of r)) (bytes_of r')) /\
  to_non_replicated (bytes_of r') = Done (bytes_of r ++ flat_map (le_bytes 8) qs).
Proof.
  intros Hm Hv. destruct (replication_snoc _ _ _ Hm Hv) as (Hb & Hf & Hl & Hk1 & Hk2).
  assert (Hq : concat (enc_all (v_body (variant_of r')) (full r')) =
               (concat (enc_all (v_body (variant_of r)) (full r)) ++ flat_map (le_bytes 8) qs)%list).
  { rewrite Hb, Hf, concat_enc_snoc by done. f_equal. simpl. clear.
    induction qs as [|q qs IH]; [done|]. cbn [flat_map fmap list_fmap]. by rewrite <-IH. }
  split; [|split].
  - unfold valid in *. rewrite Hb, Hf in Hv. by eapply fields_ok_snoc.
  - unfold bytes_of, packet_bytes. cbn [to_replicated length take]. rewrite <-Hk2, Hq.
    by rewrite take_app_length.
  - unfold bytes_of, packet_bytes. cbn [to_non_replicated]. by rewrite <-Hk1, Hq.
Qed.

Lemma length_to_non_replicated inner inner' :
  to_non_replicated inner = Done inner' -> length inner' = length inner.
Proof. destruct inner; [done|]. by intros [= <-]. Qed.

Lemma length_queue_nums qs : length (flat_map (le_bytes 8) qs) = (8 * length qs)%nat.
Proof.
  induction qs as [|q qs IH]; [done|]. cbn [flat_map length].
  rewrite length_app, length_le_bytes, IH. lia.
Qed.

Lemma replication_inverse r qs r' :
  multi_skeens_to_replication r qs = Done r' ->
  to_unreplica r' = Done r /\ queue_nums r' = Done qs /\
  non_replicated_len r' = len (if kind r =? EntryKind.Snapshot then r' else r).
Proof. destruct r; try discriminate; by intros [= <-]. Qed.

(** ** The theorems *)

(** C34.  Writing and reading a packet are inverse to each other: for every valid packet, whatever
    is in the vector before and whatever follows the packet in memory, [fill_vec] appends
    [len] bytes, [try_ref] reads them back as the same packet and leaves exactly what
    follows, and [write_to] puts the same bytes over the start of any slice that is long enough
    (and panics on a shorter one). *)
Theorem packet_roundtrip (r : Ref) (vec rest data : list Z) :
  valid r = true ->
  exists bytes,
    fill_vec r vec = Done (vec ++ bytes) /\ Forall is_byte bytes /\ len r = Done (zlen bytes) /\
    try_ref (bytes ++ rest) = Done (Ok r rest) /\
    write_to r data = if zlen bytes <=? zlen data then Done (bytes ++ drop (length bytes) data)
                      else Panic.
Proof.
  intros Hr. exists (bytes_of r).
  split_and!; auto using fill_valid, bytes_of_are_bytes, len_valid, try_ref_valid.
  apply codec_write_to. by apply (fill_valid r []).
Qed.

(** C35.  Reading arbitrary bytes never panics.  If a packet is found, it is valid and the bytes
    in front of the rest are exactly the bytes [fill_vec] writes for it (no two encodings of
    one packet); if more bytes are asked for, it is strictly more than were given; a bad tag
    means that the first byte is the kind of no variant. *)
Theorem packet_parse_exact (bs : list Z) :
  Forall is_byte bs ->
  exists x, try_ref bs = Done x /\
    match x with
    | Ok r rest => valid r = true /\ exists bytes, fill_vec r [] = Done bytes /\ bs = bytes ++ rest
    | NotEnoughBytes n => zlen bs < n
    | BadTag => exists tag tl, bs = tag :: tl /\ find_tag Packet tag = None
    end.
Proof.
  intros Hb. destruct (codec_total Packet Packet_wf bs) as [x Hx]. unfold try_ref. rewrite Hx.
  destruct x as [p rest|n|]; unfold mbind, outcome_bind.
  - apply codec_read_write in Hx as (v & full0 & Hv & Hok & -> & ->); [|done].
    destruct (valid_packet v full0 Hv Hok) as (r & -> & Hr & Hbytes). simpl.
    eexists; split; [done|]. split; [done|]. exists (bytes_of r).
    rewrite fill_valid by done. by rewrite Hbytes.
  - eexists; split; [done|]. by eapply codec_short; [apply Packet_wf|..].
  - eexists; split; [done|]. destruct bs as [|tag tl]; [done|]. exists tag, tl. split; [done|].
    revert Hx. unfold PacketCodec.try_ref. destruct (find_tag Packet tag) as [v|]; [|done].
    by destruct (try_wrap_body (v_body v) [] tl) as [[E [rest'|]]|].
Qed.

(** C36.  [Entry::wrap_bytes] on a pointer to a valid packet returns the slice with exactly the
    bytes of the packet, in both build profiles: its loop ends (one round per byte is more than
    enough), never reads past the packet, and its assertion holds. *)
Theorem wrap_bytes_finds_packet `{Build} (r : Ref) (rest : list Z) (fuel : nat) :
  valid r = true ->
  exists bytes, fill_vec r [] = Done bytes /\
    ((length bytes < fuel)%nat -> wrap_bytes fuel (bytes ++ rest) = Some (Done bytes)) /\
    contents bytes = Done r.
Proof.
  intros Hr. exists (bytes_of r). split; [by rewrite fill_valid|]. split.
  - intros Hf. apply wrap_loop_valid; [done|by apply min_len_valid|].
    pose proof (min_len_valid r Hr). unfold zlen in *. lia.
  - unfold contents. rewrite <-(app_nil_r (bytes_of r)), try_ref_valid by done. done.
Qed.

(** C37.  The replication form of a multi-append, sentinel or snapshot: [to_unreplica] gives
    the packet back, and on the bytes [MutEntry::to_non_replicated] turns the replication form
    into the packet followed by the 8-byte queue numbers, so the packet can be read from the
    buffer in place; [non_replicated_len] is its length, except for a snapshot, where it counts
    the queue numbers too. *)
Theorem replication_in_place (r : Ref) (qs : list Z) (r' : Ref) :
  multi_skeens_to_replication r qs = Done r' -> valid r' = true ->
  to_unreplica r' = Done r /\ queue_nums r' = Done qs /\
  exists bytes bytes' inner,
    fill_vec r [] = Done bytes /\ fill_vec r' [] = Done bytes' /\
    to_non_replicated bytes' = Done inner /\
    try_ref inner = Done (Ok r (flat_map (le_bytes 8) qs)) /\
    to_replicated bytes = Done (take (length bytes) bytes') /\
    non_replicated_len r' = Done (zlen bytes + if kind r =? EntryKind.Snapshot then 8 * zlen qs else 0).
Proof.
  intros Hm Hv. destruct (replication_bytes _ _ _ Hm Hv) as (Hr & Hto & Hfrom).
  destruct (replication_inverse _ _ _ Hm) as (H1 & H2 & Hnr). split; [done|]. split; [done|].
  exists (bytes_of r), (bytes_of r'), (bytes_of r ++ flat_map (le_bytes 8) qs).
  rewrite !fill_valid, try_ref_valid by done. split_and!; [done..|].
  apply length_to_non_replicated in Hfrom. rewrite length_app, length_queue_nums in Hfrom.
  rewrite Hnr. destruct (kind r =? EntryKind.Snapshot); rewrite len_valid by done.
  - apply (f_equal Done). unfold zlen. lia.
  - by rewrite Z.add_0_r.
Qed.

(** ** Witnesses *)

Definition sample_multi : Ref :=
  Multi 5 EntryFlag.TakeLock 7 [mkOI 2 3; mkOI 4 5] [mkOI 9 1] [1; 2; 255].

Lemma packet_roundtrip_witness :
  valid sample_multi = true /\
  exists bytes,
    fill_vec sample_multi [0] = Done ([0] ++ bytes) /\ Forall is_byte bytes /\
    len sample_multi = Done (zlen bytes) /\
    try_ref (bytes ++ [8; 8]) = Done (Ok sample_multi [8; 8]) /\
    write_to sample_multi [1] =
      if zlen bytes <=? zlen [1] then Done (bytes ++ drop (length bytes) [1]) else Panic.
Proof. split; [vm_compute; reflexivity|]. apply packet_roundtrip. vm_compute. reflexivity. Defined.

Lemma packet_parse_exact_witness :
  exists x, try_ref [EntryKind.Skeens2ToReplica; 7] = Done x /\
    match x with
    | Ok r rest => valid r = true /\ exists bytes,
        fill_vec r [] = Done bytes /\ [EntryKind.Skeens2ToReplica; 7] = bytes ++ rest
    | NotEnoughBytes n => zlen [EntryKind.Skeens2ToReplica; 7] < n
    | BadTag => exists tag tl, [EntryKind.Skeens2ToReplica; 7] = tag :: tl /\
                               find_tag Packet tag = None
    end.
Proof.
  apply packet_parse_exact. unfold EntryKind.Skeens2ToReplica, is_byte.
  repeat constructor; lia.
Defined.

Lemma wrap_bytes_finds_packet_witness :
  valid sample_multi = true /\
  exists bytes, fill_vec sample_multi [] = Done bytes /\
    ((length bytes < 200)%nat ->
     wrap_bytes (H := dev) 200 (bytes ++ [3; 4]) = Some (Done bytes)) /\
    contents bytes = Done sample_multi.
Proof.
  split; [vm_compute; reflexivity|]. apply (@wrap_bytes_finds_packet dev). vm_compute. reflexivity.
Defined.

Definition sample_multi_replica : Ref :=
  MultiToReplica 5 EntryFlag.TakeLock 7 [mkOI 2 3; mkOI 4 5] [mkOI 9 1] [1; 2; 255] [10; 11].

Lemma replication_in_place_witness :
  to_unreplica sample_multi_replica = Done sample_multi /\
  queue_nums sample_multi_replica = Done [10; 11] /\
  exists bytes bytes' inner,
    fill_vec sample_multi [] = Done bytes /\ fill_vec sample_multi_replica [] = Done bytes' /\
    to_non_replicated bytes' = Done inner /\
    try_ref inner = Done (Ok sample_multi (flat_map (le_bytes 8) [10; 11])) /\
    to_replicated bytes = Done (take (length bytes) bytes') /\
    non_replicated_len sample_multi_replica =
      Done (zlen bytes + if kind sample_multi =? EntryKind.Snapshot then 8 * zlen [10; 11] else 0).
Proof.
  apply (replication_in_place sample_multi [10; 11] sample_multi_replica);
    vm_compute; reflexivity.
Defined.

(** Two arrays that share a length field: when [queue_nums] is longer than [locs], [fill_vec]
    reads past the end of [locs]; when it is shorter, locations are silently dropped. *)
Example fill_reads_past_locs :
  fill_vec (MultiToReplica 5 0 7 [mkOI 2 3] [] [] [10; 11]) [] = Panic.
Proof. vm_compute. reflexivity. Qed.

(** Removing the [ToReplica] bit from a kind that is not a replication kind gives another
    kind: a recovery update becomes a fence, a collection a phase-1 check. *)
Example to_non_replicated_not_idempotent :
  EntryKind.remove EntryKind.UpdateRecovery EntryKind.ToReplica = EntryKind.FenceClient /\
  EntryKind.remove EntryKind.GC EntryKind.ToReplica = EntryKind.CheckSkeens1 /\
  EntryKind.layout EntryKind.SnapshotToReplica = Panic.
Proof. vm_compute. done. Qed.
