(* ===== verification/Trie.v ===== *)
(** * The index of a chain ([fuzzy_log_server/src/trie.rs])

    A chain stores its entries in a six-level trie: a root array of 16 edges, then six levels
    of segments of 1024 slots, the last one holding the pointers to the entries ([ValEdge]).
    [prep_append] does not walk the trie from the root: it keeps, per level, a shortcut to the
    next free slot, and opens new segments when the index crosses their boundaries.

    The segments live on a heap: a slot is named by the address of its segment and its index,
    and its content is a pointer (0 is null, a fresh segment is zeroed).  The theorems show that
    the shortcuts always point at the slot the index belongs to, so a trie that is filled with
    [prep_append] is, for every reader, the list of the appended pointers; that no call panics
    below the size of the address space; and the lock protocol. *)

From stdpp Require Import base gmap list strings.
From Stdlib Require Import ZArith Lia.
From S2P Require Import Prelude PacketCodec Packets.
Open Scope Z_scope.

(** ** Constants *)

Definition LEVEL_BYTES : Z := 8192.
Definition ARRAY_SIZE : Z := 8192 / 8.
Definition MASK : Z := ARRAY_SIZE - 1.
Definition SHIFT_LEN : Z := 10.
Definition ROOT_SHIFT : Z := 60.
Definition MAX_IN_BLOCK_SIZE : Z := LEVEL_BYTES / 2.

(** ** The heap and the root table *)

(** A pointer to a slot: the segment and the index in it.  The array of the root table is the
    segment [ROOT]. *)
Abbreviation Slot := (Z * Z)%type.
Definition ROOT : Z := 1.

(** [Shortcut]: the rest of a segment, from an index to its end. *)
Record Shortcut := mkShortcut { sc_seg : Z; sc_off : Z }.

(** A zeroed shortcut is an empty slice. *)
Definition no_shortcut : Shortcut := mkShortcut 0 ARRAY_SIZE.

Record RootTable := mkRoot {
  next_entry : Z;
  min_entry : Z;
  first_entry : Z;
  last_lock : Z;
  last_unlock : Z;
  shortcuts : gmap Z Shortcut;      (* l1 .. l6 *)
  heap : gmap Slot Z;               (* the slots that are not null *)
  fresh : Z;                        (* the address of the next segment *)
}.

Definition read_slot (t : RootTable) (s : Slot) : Z := default 0 (heap t !! s).

Definition write_slot (s : Slot) (v : Z) (t : RootTable) : RootTable :=
  {| next_entry := next_entry t; min_entry := min_entry t; first_entry := first_entry t;
     last_lock := last_lock t; last_unlock := last_unlock t; shortcuts := shortcuts t;
     heap := <[s := v]> (heap t); fresh := fresh t |}.

Definition shortcut (t : RootTable) (d : Z) : Shortcut := default no_shortcut (shortcuts t !! d).

Definition set_shortcut (d : Z) (sc : Shortcut) (t : RootTable) : RootTable :=
  {| next_entry := next_entry t; min_entry := min_entry t; first_entry := first_entry t;
     last_lock := last_lock t; last_unlock := last_unlock t;
     shortcuts := <[d := sc]> (shortcuts t); heap := heap t; fresh := fresh t |}.

Definition set_next_entry (n : Z) (t : RootTable) : RootTable :=
  {| next_entry := n; min_entry := min_entry t; first_entry := first_entry t;
     last_lock := last_lock t; last_unlock := last_unlock t; shortcuts := shortcuts t;
     heap := heap t; fresh := fresh t |}.

Definition set_locks (l u : Z) (t : RootTable) : RootTable :=
  {| next_entry := next_entry t; min_entry := min_entry t; first_entry := first_entry t;
     last_lock := l; last_unlock := u; shortcuts := shortcuts t; heap := heap t;
     fresh := fresh t |}.

(** [alloc_seg]: a zeroed segment at a new address. *)
Definition alloc_seg (t : RootTable) : RootTable * Z :=
  ({| next_entry := next_entry t; min_entry := min_entry t; first_entry := first_entry t;
      last_lock := last_lock t; last_unlock := last_unlock t; shortcuts := shortcuts t;
      heap := heap t; fresh := fresh t + 1 |}, fresh t).

(** [Trie::new]: the root table is zeroed. *)
Definition new : RootTable := mkRoot 0 0 0 0 0 ∅ ∅ (ROOT + 1).

(** ** Shortcuts *)

Definition cannot_append (sc : Shortcut) : bool := ARRAY_SIZE - sc_off sc =? 0.

(** [Shortcut::append] on the shortcut of level [d]: [split_first_mut().unwrap()]. *)
Definition shortcut_append (d : Z) (data : Z) (t : RootTable) : outcome (RootTable * Slot) :=
  let sc := shortcut t d in
  _ ← assert_ (negb (cannot_append sc));
  let place := (sc_seg sc, sc_off sc) in
  Done (set_shortcut d (mkShortcut (sc_seg sc) (sc_off sc + 1)) (write_slot place data t), place).

(** ** Keys *)

Definition level_index_for_key (key depth : Z) : Z :=
  Z.land (Z.shiftr key (ROOT_SHIFT - SHIFT_LEN * depth)) MASK.

Definition root_index (key : Z) : Z := Z.land (Z.shiftr key ROOT_SHIFT) MASK.

Arguments level_index_for_key : simpl never.
Arguments root_index : simpl never.

(** The bits of a key below a segment of level [d]. *)
Definition level_mask (d : Z) : Z :=
  match d with
  | 1 => 0x0FFFFFFFFFFFFFFF
  | 2 => 0x0003FFFFFFFFFFFF
  | 3 => 0x000000FFFFFFFFFF
  | 4 => 0x000000003FFFFFFF
  | 5 => 0x00000000000FFFFF
  | _ => 0x00000000000003FF
  end.

(** ** [prep_append] *)

(** "new l2": a segment for the root array. *)
Definition new_l1 `{Build} (t : RootTable) : outcome RootTable :=
  let n := next_entry t in
  if Z.land n (level_mask 1) =? 0 then
    _ ← debug_assert (cannot_append (shortcut t 1));
    let index := root_index n in
    _ ← assert_ (index <? 4);
    let '(t, seg) := alloc_seg t in
    Done (set_shortcut 1 (mkShortcut seg 0) (write_slot (ROOT, index) seg t))
  else Done t.

(** "new l3" and so on: a segment of level [d], entered through the shortcut of the level
    above. *)
Definition new_level `{Build} (d : Z) (t : RootTable) : outcome RootTable :=
  let n := next_entry t in
  if Z.land n (level_mask d) =? 0 then
    _ ← debug_assert (cannot_append (shortcut t d));
    let '(t, seg) := alloc_seg t in
    '(t, _) ← shortcut_append (d - 1) seg t;
    Done (set_shortcut d (mkShortcut seg 0) t)
  else Done t.

Definition prep_append `{Build} (val_ptr : Z) (t : RootTable) : outcome (RootTable * (Z * Slot)) :=
  let n := next_entry t in
  _ ← debug_assert (negb (n =? 0xFFFFFFFFFFFFFFFF));
  t ← new_l1 t;
  t ← new_level 2 t;
  t ← new_level 3 t;
  t ← new_level 4 t;
  t ← new_level 5 t;
  t ← new_level 6 t;
  n' ← add64 n 1;
  '(t, place) ← shortcut_append 6 val_ptr (set_next_entry n' t);
  Done (t, (n, place)).

(** ** Walking the trie *)

(** [index!]: the slot of the key in the segment an edge points to. *)
Definition index (t : RootTable) (edge : Slot) (k depth : Z) : option Slot :=
  let seg := read_slot t edge in
  if seg =? 0 then None else Some (seg, level_index_for_key k depth).

Definition get_entry_at (t : RootTable) (k : Z) : option Slot :=
  let l1 := (ROOT, root_index k) in
  l2 ← index t l1 k 1;
  l3 ← index t l2 k 2;
  l4 ← index t l3 k 3;
  l5 ← index t l4 k 4;
  l6 ← index t l5 k 5;
  index t l6 k 6.

(** [Trie::get]: the pointer of the entry, [None] where it is null ([ValEdge::try_packet]). *)
Definition get (t : RootTable) (k : Z) : option Z :=
  val_ptr ← get_entry_at t k;
  let v := read_slot t val_ptr in
  if v =? 0 then None else Some v.

(** [Trie::atomic_get], by a worker: also [None] below [min_entry]. *)
Definition atomic_get (t : RootTable) (k : Z) : option Z :=
  if k <? min_entry t then None else get t k.

(** [insert!]: as [index!], with a new segment where there is none. *)
Definition insert (edge : Slot) (k depth : Z) (t : RootTable) : RootTable * Slot :=
  let seg := read_slot t edge in
  if seg =? 0 then
    let '(t, seg) := alloc_seg t in
    (write_slot edge seg t, (seg, level_index_for_key k depth))
  else (t, (seg, level_index_for_key k depth)).

Definition prep_append_at `{Build} (key : Z) (t : RootTable) : outcome (RootTable * Slot) :=
  t ← (if next_entry t <=? key then n ← add64 key 1; Done (set_next_entry n t) else Done t);
  let '(t, l2) := insert (ROOT, root_index key) key 1 t in
  let '(t, l3) := insert l2 key 2 t in
  let '(t, l4) := insert l3 key 3 t in
  let '(t, l5) := insert l4 key 4 t in
  let '(t, l6) := insert l5 key 5 t in
  Done (insert l6 key 6 t).

(** [ValEdge::atomic_store] through a slot pointer, by the worker that finishes an append. *)
Definition atomic_store (s : Slot) (v : Z) (t : RootTable) : RootTable := write_slot s v t.

(** ** Lengths and bounds *)

Definition len (t : RootTable) : Z := next_entry t.
Definition horizon `{Build} (t : RootTable) : outcome Z := sub64 (next_entry t) 1.
Definition set_min (min : Z) (t : RootTable) : RootTable :=
  {| next_entry := next_entry t; min_entry := min; first_entry := first_entry t;
     last_lock := last_lock t; last_unlock := last_unlock t; shortcuts := shortcuts t;
     heap := heap t; fresh := fresh t |}.
Definition bounds (t : RootTable) : Z * Z := (min_entry t, next_entry t).

(** ** Locks *)

Definition is_locked (t : RootTable) : bool := negb (last_lock t =? last_unlock t).

Definition cannot_lock `{Build} (lock_num : Z) (t : RootTable) : outcome bool :=
  if is_locked t then Done true
  else n ← add64 (last_unlock t) 1; Done (negb (lock_num =? n)).

Definition increment_lock `{Build} (t : RootTable) : outcome RootTable :=
  l ← add64 (last_lock t) 1;
  u ← add64 (last_unlock t) 1;
  _ ← debug_assert (l =? u);
  Done (set_locks l (last_unlock t) t).

Definition unlock `{Build} (lock_num : Z) (t : RootTable) : outcome (RootTable * bool) :=
  if lock_num =? last_lock t then
    _ ← debug_assert (last_unlock t <=? last_lock t);
    Done (set_locks (last_lock t) lock_num t, true)
  else Done (t, false).

Definition lock_pair (t : RootTable) : Z * Z := (last_lock t, last_unlock t).

(** ** Storage for the entries

    The bytes of the entries live in a second trie ([byte_trie.rs]), which [AllocPtr] wraps;
    what it uses of that trie is the interface [ByteTrie]: [append] and [append_at] return a
    pointer to reserved bytes, [append] also their location.  Large entries get a box of their
    own. *)

Class ByteTrie (A : Type) := {
  bt_new : A;
  bt_append : A -> Z -> outcome (A * (Z * Z));     (* size; pointer and location *)
  bt_append_at : A -> Z -> Z -> outcome (A * Z);   (* location, size; pointer *)
  bt_box : A -> Z -> A * Z;                        (* a boxed slice of the given size *)
  bt_write : A -> Z -> list Z -> A;                (* bytes written through a pointer *)
  bt_bytes : A -> Z -> list Z;                     (* the memory a pointer points to *)
  bt_free_first : A -> Z -> A;                     (* drops the first blocks *)
  bt_free_box : A -> Z -> Z -> A;                  (* drops a boxed slice *)
  bt_free_rc : A -> Z -> Z -> A;                   (* drops a reference to a shared slice *)
}.

(** What is relied on.  [bt_ok a O]: [a] is a state of the allocator in which the ranges [O]
    (pointer and size) are reserved; [bt_used]: the bytes of memory taken so far.  Reserving a
    range takes memory that no other range has, at an even address (blocks and boxes are
    aligned, and all sizes asked for are even), and leaves the bytes of the others alone, as
    writing to a range does.  Entries shared by several chains live above [rc_base]. *)
Definition even_ptr (p : Z) : Prop := Z.land p 1 = 0 /\ 0 < p.
Definition rc_base : Z := 2 ^ 63.
Definition BYTES_LIMIT : Z := 2 ^ 62.

Class ByteTrieView (A : Type) := {
  bt_ok : A -> list (Z * Z) -> Prop;
  bt_used : A -> Z;
}.

Definition range_bytes `{ByteTrie A} (a : A) (q m : Z) : list Z := take (Z.to_nat m) (bt_bytes a q).

Definition reserved `{ByteTrie A, ByteTrieView A} (a : A) (O : list (Z * Z)) (a' : A) (p n : Z) : Prop :=
  bt_ok a' ((p, n) :: O) /\ even_ptr p /\ p < rc_base /\
  forall q m, (q, m) ∈ O -> q <> p /\ range_bytes a' q m = range_bytes a q m.

Class ByteTrieLaws (A : Type) `{ByteTrie A, !ByteTrieView A} : Prop := {
  bt_new_ok : bt_ok bt_new [];
  bt_new_used : bt_used bt_new = 0;
  bt_append_ok : forall a O n,
    bt_ok a O -> 0 < n <= MAX_IN_BLOCK_SIZE -> Z.land n 1 = 0 ->
    bt_used a + LEVEL_BYTES <= BYTES_LIMIT ->
    exists a' p loc, bt_append a n = Done (a', (p, loc)) /\ reserved a O a' p n /\
      bt_used a <= bt_used a' <= bt_used a + LEVEL_BYTES /\ (a = bt_new -> loc = 0);
  bt_box_ok : forall a O n,
    bt_ok a O -> 0 < n -> Z.land n 1 = 0 -> bt_used a + n <= BYTES_LIMIT ->
    exists a' p, bt_box a n = (a', p) /\ reserved a O a' p n /\
      bt_used a <= bt_used a' <= bt_used a + n;
  bt_write_ok : forall a O p n bs,
    bt_ok a O -> (p, n) ∈ O -> zlen bs <= n ->
    bt_ok (bt_write a p bs) O /\ bt_used (bt_write a p bs) = bt_used a /\
    range_bytes (bt_write a p bs) p (zlen bs) = bs /\
    forall q m, (q, m) ∈ O -> q <> p -> range_bytes (bt_write a p bs) q m = range_bytes a q m;
}.

(** [ValEdge]: a pointer whose lowest bit marks the end of an allocation. *)
Definition end_from_ptr (ptr : Z) : outcome Z :=
  _ ← assert_ (Z.land ptr 1 =? 0); Done (Z.lor ptr 1).
Definition mid_from_ptr (ptr : Z) : outcome Z :=
  _ ← assert_ (Z.land ptr 1 =? 0); Done ptr.
Definition edge_null : Z := 0.
Definition edge_ptr (v : Z) : Z := Z.land v (u64_max - 1).
Definition is_end (v : Z) : bool := negb (Z.land v 1 =? 0).

Record AppendSlot := mkAppendSlot {
  trie_entry : Slot; data_ptr : Z; data_size : Z; storage_loc : Z;
}.

Record Trie (A : Type) := mkTrie { root : RootTable; alloc : A }.
Arguments mkTrie {A} root alloc.
Arguments root {A} t.
Arguments alloc {A} t.

Section Storage.
Context {A : Type} `{ByteTrie A} `{Build}.

Definition trie_new : Trie A := mkTrie new bt_new.

(** [AllocPtr::prep_append] *)
Definition alloc_prep_append (storage_size : Z) (a : A) : outcome (A * (Z * Z)) :=
  if storage_size <=? MAX_IN_BLOCK_SIZE then bt_append a storage_size
  else let '(a, ptr) := bt_box a storage_size in Done (a, (ptr, u64_max)).

(** [AllocPtr::reserve_space]: sizes are rounded up to even. *)
Definition alloc_reserve_space (storage_size : Z) (a : A) : outcome (A * (Z * Z)) :=
  let alloc_size := if negb (Z.land storage_size 1 =? 0) then storage_size + 1 else storage_size in
  '(a, (ptr, loc)) ← alloc_prep_append alloc_size a;
  edge ← (if (loc mod LEVEL_BYTES =? 0) || (loc =? u64_max) then end_from_ptr ptr
          else mid_from_ptr ptr);
  Done (a, (edge, loc)).

(** [AllocPtr::alloc_at] *)
Definition alloc_at (start size : Z) (a : A) : outcome (A * Z) :=
  if start =? u64_max then
    let '(a, ptr) := bt_box a size in
    edge ← end_from_ptr ptr; Done (a, edge)
  else
    '(a, ptr) ← bt_append_at a start size;
    edge ← (if start mod LEVEL_BYTES =? 0 then end_from_ptr ptr else mid_from_ptr ptr);
    Done (a, edge).

Definition reserve_space (size : Z) (t : Trie A) : outcome (Trie A * (Z * Z)) :=
  '(a, r) ← alloc_reserve_space size (alloc t); Done (mkTrie (root t) a, r).

Definition reserve_space_at (storage_start size : Z) (t : Trie A) : outcome (Trie A * Z) :=
  '(a, v) ← alloc_at storage_start size (alloc t); Done (mkTrie (root t) a, v).

Definition partial_append (size : Z) (t : Trie A) : outcome (Trie A * AppendSlot) :=
  '(a, (val_ptr, loc)) ← alloc_reserve_space size (alloc t);
  '(r, (_, entry)) ← prep_append edge_null (root t);
  Done (mkTrie r a, mkAppendSlot entry val_ptr size loc).

Definition partial_append_at (key storage_start storage_size : Z) (t : Trie A)
  : outcome (Trie A * AppendSlot) :=
  '(r, entry) ← prep_append_at key (root t);
  '(a, val_ptr) ← alloc_at storage_start storage_size (alloc t);
  Done (mkTrie r a, mkAppendSlot entry val_ptr storage_size storage_start).

(** The bytes go to the reserved space, then the pointer is published in the slot. *)
Definition publish (slot : AppendSlot) (bytes : list Z) (t : Trie A) : Trie A :=
  mkTrie (atomic_store (trie_entry slot) (data_ptr slot) (root t))
         (bt_write (alloc t) (edge_ptr (data_ptr slot)) bytes).

(** [AppendSlot::finish_append]: the packet is [data]; what is read back is returned. *)
Definition finish_append (slot : AppendSlot) (data : list Z) (t : Trie A) : outcome (Trie A * list Z) :=
  _ ← assert_ (data_size slot =? zlen data);
  let t := publish slot data t in
  let written := take (Z.to_nat (data_size slot)) (bt_bytes (alloc t) (edge_ptr (data_ptr slot))) in
  _ ← (if debug_assertions then
         c ← contents written; c' ← contents data; assert_ (bool_decide (c = c'))
       else Done tt);
  Done (t, written).

(** [AppendSlot::finish_append_with_contents], with the bytes [write_to] writes. *)
Definition finish_append_with_contents (slot : AppendSlot) (contents : Packets.Ref) (t : Trie A)
  : outcome (Trie A) :=
  storage_size ← Packets.len contents;
  _ ← assert_ (data_size slot =? storage_size);
  bytes ← Packets.fill_vec contents [];
  Done (publish slot bytes t).

Definition write_byte (slot : AppendSlot) (data : Z) (t : Trie A) : outcome (Trie A) :=
  _ ← assert_ (data_size slot =? 1);
  _ ← assert_ (storage_loc slot =? 0);
  Done (publish slot [data] t).

(** ** Collection *)

(** [EntryVar::try_var] of the entry an edge points to. *)
Definition entry_var (a : A) (v : Z) : option string :=
  if edge_ptr v =? 0 then None else Some (try_var (take 1 (bt_bytes a (edge_ptr v)))).

Definition is_multi (a : A) (v : Z) : bool :=
  match entry_var a v with
  | Some var => String.eqb var "Multi"%string || String.eqb var "Senti"%string
  | None => false
  end.

Definition is_data (a : A) (v : Z) : bool :=
  match entry_var a v with Some var => String.eqb var "Single"%string | None => false end.

(** [as_packet().bytes().len()] *)
Definition entry_len (a : A) (v : Z) : outcome Z :=
  let bs := bt_bytes a (edge_ptr v) in
  match wrap_bytes (S (length bs)) bs with
  | Some (Done slice) => Done (zlen slice)
  | _ => Panic
  end.

Definition is_big (a : A) (v : Z) : outcome bool :=
  if is_data a v then n ← entry_len a v; Done (MAX_IN_BLOCK_SIZE <? n) else Done false.

(** The state of the loops of [delete_free]. *)
Record Sweep := mkSweep { sw_trie : Trie A; sw_next : Z; sw_removed : Z }.

Definition null_slot (s : Slot) (sw : Sweep) : Sweep :=
  mkSweep (mkTrie (write_slot s 0 (root (sw_trie sw))) (alloc (sw_trie sw)))
          (sw_next sw) (sw_removed sw).

Definition set_alloc (a : A) (sw : Sweep) : Sweep :=
  mkSweep (mkTrie (root (sw_trie sw)) a) (sw_next sw) (sw_removed sw).

(** The body of the innermost loop; [true] is [break 'remove]. *)
Definition free_slot (max : Z) (s : Slot) (sw : Sweep) : outcome (bool * Sweep) :=
  if max <=? sw_next sw then Done (true, sw)
  else
    let v := read_slot (root (sw_trie sw)) s in
    let a := alloc (sw_trie sw) in
    sw ← (if is_end v then
            if is_multi a v then
              n ← entry_len a v; Done (set_alloc (bt_free_rc a (edge_ptr v) n) sw)
            else
              big ← is_big a v;
              if (big : bool) then
                n ← entry_len a v; Done (set_alloc (bt_free_box a (edge_ptr v) n) sw)
              else Done (mkSweep (sw_trie sw) (sw_next sw) (sw_removed sw + 1))
          else Done sw);
    next ← add64 (sw_next sw) 1;
    let sw := null_slot s sw in
    Done (false, mkSweep (sw_trie sw) next (sw_removed sw)).

(** [for slot in segment]: stops at the first [break]. *)
Fixpoint sweep_slots (f : Slot -> Sweep -> outcome (bool * Sweep)) (seg : Z) (idxs : list nat)
    (sw : Sweep) : outcome (bool * Sweep) :=
  match idxs with
  | [] => Done (false, sw)
  | i :: idxs =>
      r ← f (seg, Z.of_nat i) sw;
      if (r.1 : bool) then Done r else sweep_slots f seg idxs r.2
  end.

(** [walk!]: the segments below an edge, [levels] of them above the last one; the edge of a
    segment that was walked to its end is set to [None]. *)
Fixpoint sweep_edge (levels : nat) (max : Z) (edge : Slot) (sw : Sweep) : outcome (bool * Sweep) :=
  let seg := read_slot (root (sw_trie sw)) edge in
  if seg =? 0 then Done (false, sw)
  else
    sweep_slots
      (match levels with
       | O => free_slot max
       | S levels => fun slot sw =>
           r ← sweep_edge levels max slot sw;
           Done (if (r.1 : bool) then r else (false, null_slot slot r.2))
       end) seg (seq 0 (Z.to_nat ARRAY_SIZE)) sw.

(** [for slot0 in self.root.array.iter_mut()] *)
Definition sweep_root (max : Z) (sw : Sweep) : outcome (bool * Sweep) :=
  sweep_slots (fun slot sw =>
    r ← sweep_edge 5 max slot sw;
    Done (if (r.1 : bool) then r else (false, null_slot slot r.2))) ROOT (seq 0 16) sw.

(** [Trie::delete_free].  A pass over the root array that does not reach [max] has set all its
    edges to [None], so the [while] loop around it never ends: this is [Panic] too. *)
Definition delete_free (t : Trie A) : outcome (Trie A) :=
  let max := min_entry (root t) in
  let sw := mkSweep t (first_entry (root t)) 0 in
  sw ← (if sw_next sw <? max then
          r ← sweep_root max sw;
          _ ← assert_ (r.1 || (max <=? sw_next r.2));
          Done r.2
        else Done sw);
  let r := root (sw_trie sw) in
  Done (mkTrie
    {| next_entry := next_entry r; min_entry := min_entry r; first_entry := min_entry r;
       last_lock := last_lock r; last_unlock := last_unlock r; shortcuts := shortcuts r;
       heap := heap r; fresh := fresh r |}
    (bt_free_first (alloc (sw_trie sw)) (sw_removed sw))).
End Storage.

(** ** Keys, segments and positions

    A slot of level [d] covers [pw d] keys; a segment of level [d] covers [pw (d - 1)]. *)

Definition pw (d : Z) : Z := 2 ^ (60 - 10 * d).
Definition cdiv (n m : Z) : Z := (n + m - 1) / m.
Arguments pw : simpl never.
Arguments cdiv : simpl never.

Lemma pw_pos d : 0 < pw d \/ 6 < d.
Proof.
  destruct (Z_le_gt_dec d 6); [left|lia]. apply Z.pow_pos_nonneg; lia.
Qed.

Lemma pw_step d : 1 <= d <= 6 -> pw (d - 1) = 1024 * pw d /\ 0 < pw d.
Proof.
  intros Hd. unfold pw. replace (60 - 10 * (d - 1)) with (10 + (60 - 10 * d)) by lia.
  rewrite Z.pow_add_r by lia. split; [done|]. apply Z.pow_pos_nonneg; lia.
Qed.

Lemma level_index_div k d :
  0 <= d <= 6 -> level_index_for_key k d = (k / pw d) mod 1024.
Proof.
  intros Hd. unfold level_index_for_key, pw. rewrite Z.shiftr_div_pow2 by (unfold ROOT_SHIFT, SHIFT_LEN; lia).
  change MASK with (Z.ones 10). rewrite Z.land_ones by lia. done.
Qed.

Lemma root_index_div k : 0 <= k < 2 ^ 64 -> root_index k = k / pw 0.
Proof.
  intros Hk. unfold root_index, pw. change MASK with (Z.ones 10).
  rewrite Z.land_ones, Z.shiftr_div_pow2 by (unfold ROOT_SHIFT; lia).
  change ROOT_SHIFT with 60. change (60 - 10 * 0) with 60. apply Z.mod_small.
  split; [apply Z.div_pos; lia|]. apply Z.div_lt_upper_bound; lia.
Qed.

Lemma level_mask_mod n d : 1 <= d <= 6 -> Z.land n (level_mask d) = n mod pw (d - 1).
Proof.
  intros Hd. unfold pw.
  assert (Hc : d = 1 \/ d = 2 \/ d = 3 \/ d = 4 \/ d = 5 \/ d = 6) by lia.
  repeat destruct Hc as [->|Hc]; [..|subst d]; unfold level_mask;
    [change 0x0FFFFFFFFFFFFFFF with (Z.ones 60)|change 0x0003FFFFFFFFFFFF with (Z.ones 50)
    |change 0x000000FFFFFFFFFF with (Z.ones 40)|change 0x000000003FFFFFFF with (Z.ones 30)
    |change 0x00000000000FFFFF with (Z.ones 20)|change 0x00000000000003FF with (Z.ones 10)];
    rewrite Z.land_ones by lia; done.
Qed.

(** Arithmetic of a boundary: [n] is a multiple of [m], or it is not. *)
Lemma cdiv_multiple n m : 0 < m -> n mod m = 0 -> cdiv n m = n / m.
Proof.
  intros Hm H0. unfold cdiv. rewrite (Z.div_mod n m) at 1 by lia. rewrite H0.
  replace (m * (n / m) + 0 + m - 1) with (m - 1 + n / m * m) by lia.
  rewrite Z.div_add, Z.div_small by lia. lia.
Qed.

Lemma cdiv_between n m : 0 < m -> n mod m <> 0 -> cdiv n m = n / m + 1.
Proof.
  intros Hm H0. unfold cdiv. pose proof (Z.mod_pos_bound n m Hm).
  rewrite (Z.div_mod n m) at 1 by lia.
  replace (m * (n / m) + n mod m + m - 1) with (n mod m - 1 + (n / m + 1) * m) by lia.
  rewrite Z.div_add, Z.div_small by lia. lia.
Qed.

Lemma cdiv_succ n m : 0 < m -> cdiv (n + 1) m = n / m + 1.
Proof.
  intros Hm. unfold cdiv. replace (n + 1 + m - 1) with (n + 1 * m) by lia.
  by rewrite Z.div_add by lia.
Qed.

Lemma pred_div_between n m : 0 < m -> n mod m <> 0 -> (n - 1) / m = n / m.
Proof.
  intros Hm H0. pose proof (Z.mod_pos_bound n m Hm). rewrite (Z.div_mod n m) at 1 by lia.
  replace (m * (n / m) + n mod m - 1) with (n mod m - 1 + n / m * m) by lia.
  rewrite Z.div_add, Z.div_small by lia. lia.
Qed.

Lemma pred_div_multiple n m : 0 < m -> n mod m = 0 -> (n - 1) / m = n / m - 1.
Proof.
  intros Hm H0. rewrite (Z.div_mod n m) at 1 by lia. rewrite H0.
  replace (m * (n / m) + 0 - 1) with (m - 1 + (n / m - 1) * m) by lia.
  rewrite Z.div_add, Z.div_small by lia. lia.
Qed.

Lemma div_div_1024 n m : 0 < m -> n / m / 1024 = n / (1024 * m).
Proof. intros Hm. rewrite Z.div_div by lia. by rewrite (Z.mul_comm m). Qed.

Lemma mod_1024_multiple n m : 0 < m -> n mod (1024 * m) = 0 -> n mod m = 0 /\ (n / m) mod 1024 = 0.
Proof.
  intros Hm H0. pose proof (Z.div_mod n (1024 * m) ltac:(lia)) as E. rewrite H0 in E.
  assert (n = n / (1024 * m) * 1024 * m) as E' by lia. split.
  - rewrite E'. apply Z.mod_mul. lia.
  - rewrite E', Z.div_mul, Z.mod_mul by lia. done.
Qed.

(** ** The invariant

    [G] names the segments: [G (d, p)] is the address of the segment of level [d] for the keys
    [k] with [k / pw (d - 1) = p]. *)

Abbreviation segs := (gmap (Z * Z) Z).

(** The edges of the segments on the heap are those of [G]. *)
Record HeapOK (G : segs) (h : gmap Slot Z) (f : Z) : Prop := {
  h_shape : forall d p a, G !! (d, p) = Some a -> 1 <= d <= 6 /\ 0 <= p /\ ROOT < a < f;
  h_inj : forall x y a, G !! x = Some a -> G !! y = Some a -> x = y;
  h_root : forall i, 0 <= i -> default 0 (h !! (ROOT, i)) = default 0 (G !! (1, i));
  h_edge : forall d p a j, 1 <= d < 6 -> G !! (d, p) = Some a -> 0 <= j < 1024 ->
    default 0 (h !! (a, j)) = default 0 (G !! (d + 1, p * 1024 + j));
  h_fresh : forall a j, f <= a -> h !! (a, j) = None;
  h_pos : ROOT < f;
}.

(** The parent slot of a segment. *)
Definition parent (G : segs) (d q : Z) (s : Slot) : Prop :=
  (d = 1 /\ s = (ROOT, q)) \/
  (1 < d /\ exists a, G !! (d - 1, q / 1024) = Some a /\ s = (a, q mod 1024)).

Lemma heap_add G h f d q s :
  HeapOK G h f -> 1 <= d <= 6 -> 0 <= q -> G !! (d, q) = None ->
  (forall j, 0 <= j < 1024 -> G !! (d + 1, q * 1024 + j) = None) ->
  parent G d q s ->
  HeapOK (<[(d, q) := f]> G) (<[s := f]> h) (f + 1).
Proof.
  intros [Hs Hi Hr He Hf Hp] Hd Hq Hnew Hkids Hpar.
  assert (Hsf : s.1 < f).
  { destruct Hpar as [[_ ->]|(_ & a & Ha & ->)]; simpl; [done|]. apply Hs in Ha. lia. }
  constructor.
  - intros e p a. rewrite lookup_insert_Some. intros [[[= <- <-] <-]|[_ Ha]]; [lia|].
    apply Hs in Ha. lia.
  - intros x y a. rewrite !lookup_insert_Some.
    intros [[<- <-]|[_ Hx]] [[<- Ha]|[_ Hy]]; [done|..|exact (Hi _ _ _ Hx Hy)].
    + destruct y. apply Hs in Hy. lia.
    + destruct x. apply Hs in Hx. lia.
  - intros i Hi0. destruct Hpar as [[-> ->]|(Hd1 & a & Ha & ->)].
    + destruct (decide (i = q)) as [->|Hne].
      * by rewrite !lookup_insert_eq.
      * rewrite !lookup_insert_ne by congruence. by apply Hr.
    + apply Hs in Ha. rewrite !lookup_insert_ne by (intros [=]; lia). by apply Hr.
  - intros e p a j He6. rewrite lookup_insert_Some. intros [[[= <- <-] <-]|[Hne Ha]] Hj.
    + rewrite (lookup_insert_ne h) by (intros ->; simpl in Hsf; lia).
      rewrite Hf by lia. rewrite lookup_insert_ne by (intros [=]; lia). by rewrite Hkids.
    + destruct Hpar as [[-> ->]|(Hd1 & b & Hb & ->)].
      * rewrite !lookup_insert_ne; [by apply He|intros [=]; lia|].
        intros [=]. apply Hs in Ha. lia.
      * destruct (decide ((e + 1, p * 1024 + j) = (d, q))) as [[= <- <-]|Hneq].
        -- rewrite Z.div_add_l, (Z.div_small j), Z.add_0_r in Hb by lia.
           replace (e + 1 - 1) with e in Hb by lia. rewrite Ha in Hb. injection Hb as <-.
           rewrite Z.add_comm, Z.mod_add, Z.mod_small by lia. by rewrite !lookup_insert_eq.
        -- rewrite lookup_insert_ne; [rewrite lookup_insert_ne by done; by apply He|].
           intros [= -> <-]. apply Hneq.
           pose proof (Hi _ _ _ Ha Hb) as [= -> ->].
           pose proof (Z.div_mod q 1024). f_equal; lia.
  - intros a j Hfa. rewrite lookup_insert_ne by (intros ->; simpl in Hsf; lia). apply Hf. lia.
  - lia.
Qed.

(** Which segments exist once the levels up to [d] are ready for key [n]. *)
Definition opened (d n : Z) (G : segs) : Prop :=
  forall e p, is_Some (G !! (e, p)) <->
    1 <= e <= 6 /\ 0 <= p /\ if e <=? d then p * pw (e - 1) <= n else p * pw (e - 1) < n.

(** Where the shortcut of level [e] is: behind the slot of [n] for the levels done, at it for
    level [d], at the first slot not used below. *)
Definition sc_ok (d n : Z) (G : segs) (e : Z) (sc : Shortcut) : Prop :=
  if e <=? d then
    G !! (e, n / pw (e - 1)) = Some (sc_seg sc) /\
    n / pw (e - 1) * 1024 + sc_off sc = if e =? d then cdiv n (pw e) else n / pw e + 1
  else
    (n = 0 /\ sc_off sc = 1024) \/
    (0 < n /\ G !! (e, (n - 1) / pw (e - 1)) = Some (sc_seg sc) /\
     (n - 1) / pw (e - 1) * 1024 + sc_off sc = cdiv n (pw e)).

Record Ready (d n : Z) (G : segs) (t : RootTable) : Prop := {
  r_next : next_entry t = n;
  r_range : 0 <= n < 2 ^ 62;
  r_open : opened d n G;
  r_heap : HeapOK G (heap t) (fresh t);
  r_vals : forall p a j, G !! (6, p) = Some a -> 0 <= j < 1024 -> n <= p * 1024 + j ->
    read_slot t (a, j) = 0;
  r_sc : forall e, 1 <= e <= 6 -> sc_ok d n G e (shortcut t e);
}.

Lemma shortcut_set d sc t e :
  shortcut (set_shortcut d sc t) e = if e =? d then sc else shortcut t e.
Proof.
  unfold shortcut, set_shortcut. simpl. destruct (Z.eqb_spec e d) as [->|Hne].
  - by rewrite lookup_insert_eq.
  - by rewrite lookup_insert_ne by done.
Qed.

(** Not at a boundary: the level is ready as it is. *)
Lemma ready_skip d n G t :
  1 <= d <= 6 -> n mod pw (d - 1) <> 0 -> Ready (d - 1) n G t -> Ready d n G t.
Proof.
  intros Hd Hmod [Hn Hr Ho Hh Hv Hsc]. destruct (pw_step d Hd) as [Hpw Hm].
  constructor; try done.
  - intros e p. rewrite (Ho e p). destruct (Z.eq_dec e d) as [->|Hne].
    + rewrite (proj2 (Z.leb_gt d (d - 1))), (proj2 (Z.leb_le d d)) by lia.
      assert (p * pw (d - 1) <> n); [|lia]. intros <-. apply Hmod, Z.mod_mul. lia.
    + assert ((e <=? d - 1) = (e <=? d)) as ->; [|done].
      destruct (Z.leb_spec e (d - 1)), (Z.leb_spec e d); lia.
  - intros e He. specialize (Hsc e He). unfold sc_ok in *.
    destruct (Z.leb_spec e (d - 1)) as [H1|H1].
    + rewrite (proj2 (Z.leb_le e d)), (proj2 (Z.eqb_neq e d)) by lia.
      destruct Hsc as [Ha Hb]. split; [done|]. rewrite Hb.
      destruct (Z.eqb_spec e (d - 1)) as [->|]; [|done]. apply cdiv_between; [lia|done].
    + destruct (Z.leb_spec e d) as [H2|H2]; [|done].
      assert (e = d) as -> by lia. rewrite Z.eqb_refl.
      destruct Hsc as [[-> _]|(H0 & Ha & Hb)]; [by rewrite Zmod_0_l in Hmod|].
      by rewrite pred_div_between in Ha, Hb by lia.
Qed.

(** At a boundary: the shortcut of the level is used up, and a fresh segment entered into its
    parent slot makes the level ready. *)
Lemma ready_full d n G t :
  1 <= d <= 6 -> n mod pw (d - 1) = 0 -> Ready (d - 1) n G t ->
  cannot_append (shortcut t d) = true.
Proof.
  intros Hd Hmod HR. pose proof (r_sc _ _ _ _ HR d Hd) as Hsc. unfold sc_ok in Hsc.
  destruct (pw_step d Hd) as [Hpw Hm]. rewrite (proj2 (Z.leb_gt d (d - 1))) in Hsc by lia.
  unfold cannot_append. apply Z.eqb_eq. change ARRAY_SIZE with 1024.
  destruct Hsc as [[_ ->]|(_ & _ & Hb)]; [done|].
  rewrite pred_div_multiple in Hb by lia. rewrite Hpw in *.
  destruct (mod_1024_multiple n (pw d) Hm Hmod) as [H1 H2].
  rewrite cdiv_multiple, <-div_div_1024 in Hb by lia.
  pose proof (Z.div_mod (n / pw d) 1024). lia.
Qed.

Lemma ready_open d n G t s t' :
  1 <= d <= 6 -> n mod pw (d - 1) = 0 -> Ready (d - 1) n G t ->
  parent G d (n / pw (d - 1)) s ->
  next_entry t' = n -> heap t' = <[s := fresh t]> (heap t) -> fresh t' = fresh t + 1 ->
  (forall e, 1 <= e <= 6 -> shortcut t' e =
     if e =? d then mkShortcut (fresh t) 0
     else if e =? d - 1 then mkShortcut (sc_seg (shortcut t e)) (sc_off (shortcut t e) + 1)
     else shortcut t e) ->
  Ready d n (<[(d, n / pw (d - 1)) := fresh t]> G) t'.
Proof.
  intros Hd Hmod [Hn Hr Ho Hh Hv Hsc] Hpar Hn' Hh' Hf' Hsc'.
  destruct (pw_step d Hd) as [Hpw Hm].
  set (q := n / pw (d - 1)) in *. assert (Hq : 0 <= q) by (apply Z.div_pos; lia).
  assert (Hqn : q * pw (d - 1) = n).
  { unfold q. pose proof (Z.div_mod n (pw (d - 1)) ltac:(lia)). lia. }
  assert (Hnew : G !! (d, q) = None).
  { destruct (G !! (d, q)) as [a|] eqn:E; [|done]. exfalso.
    assert (is_Some (G !! (d, q))) as H by (by eexists). apply Ho in H as (_ & _ & H).
    rewrite (proj2 (Z.leb_gt d (d - 1))) in H by lia. lia. }
  assert (Hkids : forall j, 0 <= j < 1024 -> G !! (d + 1, q * 1024 + j) = None).
  { intros j Hj. destruct (G !! (d + 1, q * 1024 + j)) as [a|] eqn:E; [|done]. exfalso.
    assert (is_Some (G !! (d + 1, q * 1024 + j))) as H by (by eexists).
    apply Ho in H as (H1 & _ & H). rewrite (proj2 (Z.leb_gt (d + 1) (d - 1))) in H by lia.
    replace (d + 1 - 1) with d in H by lia. nia. }
  assert (Hold : forall x, x <> (d, q) -> <[(d, q) := fresh t]> G !! x = G !! x).
  { intros x Hx. by rewrite lookup_insert_ne. }
  constructor; [done|done|..].
  - intros e p. destruct (decide ((e, p) = (d, q))) as [[= -> ->]|Hne].
    + rewrite lookup_insert_eq, (proj2 (Z.leb_le d d)) by lia. split; [intros _; lia|by eexists].
    + rewrite Hold by done. rewrite (Ho e p). destruct (Z.eq_dec e d) as [->|Hed].
      * rewrite (proj2 (Z.leb_gt d (d - 1))), (proj2 (Z.leb_le d d)) by lia.
        assert (p * pw (d - 1) <> n); [|lia]. intros Hpn. apply Hne. f_equal. nia.
      * assert ((e <=? d - 1) = (e <=? d)) as ->; [|done].
        destruct (Z.leb_spec e (d - 1)), (Z.leb_spec e d); lia.
  - rewrite Hh', Hf'. by apply heap_add.
  - intros p a j. unfold read_slot. rewrite Hh', lookup_insert_Some.
    intros [[[= Hd6 Hqp] <-]|[Hne Ha]] Hj Hk.
    + assert (s <> (fresh t, j)).
      { intros ->. destruct Hpar as [[Hd1 _]|(_ & b & Hb & [= Hfb _])]; [lia|].
        apply (h_shape _ _ _ Hh) in Hb. lia. }
      rewrite lookup_insert_ne by done. by rewrite (h_fresh _ _ _ Hh) by lia.
    + rewrite lookup_insert_ne; [by eapply Hv|]. intros ->.
      destruct Hpar as [[_ [= Har _]]|(Hd1 & b & Hb & [= <- _])].
      * apply (h_shape _ _ _ Hh) in Ha. lia.
      * pose proof (h_inj _ _ _ Hh _ _ _ Ha Hb) as [= ? _]. lia.
  - intros e He. rewrite Hsc' by done. specialize (Hsc e He). unfold sc_ok in *.
    destruct (Z.eqb_spec e d) as [->|Hed].
    + rewrite (proj2 (Z.leb_le d d)) by lia. simpl. split; [by rewrite lookup_insert_eq|].
      rewrite Hpw in Hmod. destruct (mod_1024_multiple n (pw d) Hm Hmod) as [H1 H2].
      rewrite cdiv_multiple by lia. rewrite Hpw, <-div_div_1024 by lia.
      pose proof (Z.div_mod (n / pw d) 1024). lia.
    + assert (Hle : (e <=? d - 1) = (e <=? d)).
      { destruct (Z.leb_spec e (d - 1)), (Z.leb_spec e d); lia. }
      rewrite Hle in Hsc. destruct (Z.leb_spec e d) as [H1|H1].
      * rewrite Hold by (intros [=]; lia).
        destruct (Z.eqb_spec e (d - 1)) as [He1|He1]; [|done].
        simpl. destruct Hsc as [Ha Hb]. split; [done|].
        rewrite cdiv_multiple in Hb by (rewrite He1; lia). lia.
      * rewrite (proj2 (Z.eqb_neq e (d - 1))) by lia.
        rewrite Hold by (intros [=]; lia). done.
Qed.

(** *** The steps of [prep_append] *)

(** What a step keeps: the locks and bounds, the segments, and the pointers stored so far. *)
Definition extends (G G' : segs) (t t' : RootTable) : Prop :=
  G ⊆ G' /\ lock_pair t' = lock_pair t /\ min_entry t' = min_entry t /\
  first_entry t' = first_entry t /\
  (forall p a j, G !! (6, p) = Some a -> read_slot t' (a, j) = read_slot t (a, j)).

Lemma extends_refl G t : extends G G t t.
Proof. by repeat split. Qed.

Lemma extends_trans G1 G2 G3 t1 t2 t3 :
  extends G1 G2 t1 t2 -> extends G2 G3 t2 t3 -> extends G1 G3 t1 t3.
Proof.
  intros (HG1 & Hl1 & Hm1 & Hf1 & Hv1) (HG2 & Hl2 & Hm2 & Hf2 & Hv2).
  split; [by etrans|]. rewrite Hl2, Hm2, Hf2. split_and!; [done..|].
  intros p a j Ha. rewrite <-(Hv1 p a j Ha). eapply Hv2. by eapply lookup_weaken.
Qed.

Lemma ready_opened d n G t s t' :
  Ready (d - 1) n G t -> 1 <= d <= 6 -> n mod pw (d - 1) = 0 ->
  parent G d (n / pw (d - 1)) s ->
  heap t' = <[s := fresh t]> (heap t) ->
  lock_pair t' = lock_pair t -> min_entry t' = min_entry t -> first_entry t' = first_entry t ->
  extends G (<[(d, n / pw (d - 1)) := fresh t]> G) t t'.
Proof.
  intros HR Hd Hmod Hpar Hh Hl Hm Hf. destruct (pw_step d Hd) as [Hpw Hpos].
  pose proof (r_heap _ _ _ _ HR) as Hok.
  split; [|split_and!; [done..|]].
  - apply insert_subseteq. destruct (G !! (d, n / pw (d - 1))) as [a|] eqn:E; [|done]. exfalso.
    assert (is_Some (G !! (d, n / pw (d - 1)))) as H by (by eexists).
    apply (r_open _ _ _ _ HR) in H as (_ & _ & H).
    rewrite (proj2 (Z.leb_gt d (d - 1))) in H by lia.
    pose proof (Z.div_mod n (pw (d - 1)) ltac:(lia)). lia.
  - intros p a j Ha. unfold read_slot. rewrite Hh, lookup_insert_ne; [done|]. intros ->.
    destruct Hpar as [[_ [= Har _]]|(Hd1 & b & Hb & [= <- _])].
    + apply (h_shape _ _ _ Hok) in Ha. lia.
    + pose proof (h_inj _ _ _ Hok _ _ _ Ha Hb) as [= ? _]. lia.
Qed.

Lemma new_l1_spec `{Build} n G t :
  Ready 0 n G t -> exists t' G', new_l1 t = Done t' /\ Ready 1 n G' t' /\ extends G G' t t'.
Proof.
  intros HR. unfold new_l1. rewrite (r_next _ _ _ _ HR), level_mask_mod by lia.
  pose proof (r_range _ _ _ _ HR) as Hn.
  destruct (Z.eqb_spec (n mod pw (1 - 1)) 0) as [Hmod|Hmod].
  - pose proof (ready_full 1 n G t ltac:(lia) Hmod HR) as Hfull. rewrite Hfull.
    rewrite debug_assert_true by done. cbn [mbind outcome_bind].
    rewrite root_index_div by lia.
    assert (Hi : n / pw 0 < 4) by (apply Z.div_lt_upper_bound; [done|]; change (pw 0) with (2 ^ 60); lia).
    rewrite (proj2 (Z.ltb_lt _ _) Hi). cbn [mbind outcome_bind assert_ alloc_seg].
    assert (Hpar : parent G 1 (n / pw (1 - 1)) (ROOT, n / pw 0)) by (by left).
    eexists _, _. split; [reflexivity|]. split.
    + eapply ready_open; [lia|done|done|exact Hpar|..]; [apply (r_next _ _ _ _ HR)|done|done|].
      intros e He. rewrite shortcut_set. destruct (Z.eqb_spec e 1); [done|].
      rewrite (proj2 (Z.eqb_neq e (1 - 1))) by lia. done.
    + by eapply ready_opened.
  - exists t, G. split; [done|]. split; [|apply extends_refl]. apply ready_skip; [lia|done|done].
Qed.

Lemma shortcut_append_ok d data t :
  sc_off (shortcut t d) < 1024 ->
  shortcut_append d data t =
    Done (set_shortcut d (mkShortcut (sc_seg (shortcut t d)) (sc_off (shortcut t d) + 1))
            (write_slot (sc_seg (shortcut t d), sc_off (shortcut t d)) data t),
          (sc_seg (shortcut t d), sc_off (shortcut t d))).
Proof.
  intros Ho. unfold shortcut_append, cannot_append. change ARRAY_SIZE with 1024.
  by rewrite (proj2 (Z.eqb_neq _ _)) by lia.
Qed.

Lemma new_level_spec `{Build} d n G t :
  2 <= d <= 6 -> Ready (d - 1) n G t ->
  exists t' G', new_level d t = Done t' /\ Ready d n G' t' /\ extends G G' t t'.
Proof.
  intros Hd HR. unfold new_level. rewrite (r_next _ _ _ _ HR), level_mask_mod by lia.
  destruct (pw_step (d - 1)) as [Hpw Hm]; [lia|].
  destruct (Z.eqb_spec (n mod pw (d - 1)) 0) as [Hmod|Hmod].
  - pose proof (ready_full d n G t ltac:(lia) Hmod HR) as Hfull. rewrite Hfull.
    rewrite debug_assert_true by done. cbn [mbind outcome_bind alloc_seg].
    set (t1 := mkRoot _ _ _ _ _ _ _ _).
    pose proof (r_sc _ _ _ _ HR (d - 1) ltac:(lia)) as Hsc. unfold sc_ok in Hsc.
    rewrite (proj2 (Z.leb_le (d - 1) (d - 1))), Z.eqb_refl in Hsc by lia.
    destruct Hsc as [Hseg Hoff]. rewrite cdiv_multiple in Hoff by lia.
    assert (Hq : n / pw (d - 1) / 1024 = n / pw (d - 1 - 1)).
    { by rewrite Hpw, div_div_1024 by lia. }
    pose proof (Z.div_mod (n / pw (d - 1)) 1024 ltac:(lia)) as Hdm.
    pose proof (Z.mod_pos_bound (n / pw (d - 1)) 1024 ltac:(lia)) as Hmb.
    assert (Ho : sc_off (shortcut t1 (d - 1)) = (n / pw (d - 1)) mod 1024).
    { change (shortcut t1 (d - 1)) with (shortcut t (d - 1)). lia. }
    rewrite shortcut_append_ok by lia. cbn [mbind outcome_bind].
    assert (Hpar : parent G d (n / pw (d - 1)) (sc_seg (shortcut t (d - 1)), sc_off (shortcut t1 (d - 1)))).
    { right. split; [lia|]. eexists. rewrite Hq, Ho. by split. }
    eexists _, _. split; [reflexivity|]. split.
    + eapply ready_open; [lia|done|done|exact Hpar|..]; [apply (r_next _ _ _ _ HR)|done|done|].
      intros e He. rewrite !shortcut_set. destruct (Z.eqb_spec e d); [done|].
      by destruct (Z.eqb_spec e (d - 1)) as [->|].
    + eapply ready_opened; [done|lia|done|exact Hpar|done..].
  - exists t, G. split; [done|]. split; [|apply extends_refl]. apply ready_skip; [lia|done|done].
Qed.

Lemma pw_5 : pw 5 = 1024.
Proof. done. Qed.

Lemma heap_write_val G h f p a j v :
  HeapOK G h f -> G !! (6, p) = Some a -> HeapOK G (<[(a, j) := v]> h) f.
Proof.
  intros [Hs Hi Hr He Hf Hp] Ha. pose proof (Hs _ _ _ Ha) as Hsa. constructor; try done.
  - intros i Hi0. rewrite lookup_insert_ne by (intros [=]; lia). by apply Hr.
  - intros d q b k Hd Hb Hk. rewrite lookup_insert_ne; [by apply He|].
    intros [= <- _]. pose proof (Hi _ _ _ Ha Hb) as [= ? _]. lia.
  - intros b k Hb. rewrite lookup_insert_ne by (intros [=]; lia). by apply Hf.
Qed.

(** The last step: the pointer goes into the slot of [n]. *)
Lemma ready_fill n G t v :
  Ready 6 n G t -> n + 1 < 2 ^ 62 ->
  exists a t', G !! (6, n / 1024) = Some a /\
    shortcut_append 6 v (set_next_entry (n + 1) t) = Done (t', (a, n mod 1024)) /\
    Ready 0 (n + 1) G t' /\ heap t' = <[(a, n mod 1024) := v]> (heap t) /\
    lock_pair t' = lock_pair t /\ min_entry t' = min_entry t /\ first_entry t' = first_entry t.
Proof.
  intros [Hn Hr Ho Hh Hv Hsc] Hlim. pose proof (Hsc 6 ltac:(lia)) as H6. unfold sc_ok in H6.
  cbn [Z.leb Z.eqb Z.compare Pos.compare Pos.compare_cont Pos.eqb] in H6.
  change (6 - 1) with 5 in H6. rewrite pw_5 in H6. change (pw 6) with 1 in H6.
  destruct H6 as [Hseg Hoff]. unfold cdiv in Hoff. rewrite Z.div_1_r in Hoff.
  assert (Hmod : sc_off (shortcut t 6) = n mod 1024).
  { pose proof (Z.div_mod n 1024 ltac:(lia)). lia. }
  pose proof (Z.mod_pos_bound n 1024 ltac:(lia)) as Hmb.
  exists (sc_seg (shortcut t 6)). rewrite shortcut_append_ok.
  2: { change (shortcut (set_next_entry (n + 1) t) 6) with (shortcut t 6). lia. }
  change (shortcut (set_next_entry (n + 1) t) 6) with (shortcut t 6). rewrite Hmod.
  eexists. split; [done|]. split; [reflexivity|]. split; [|done].
  constructor; [done|lia|..].
  - intros e p. rewrite (Ho e p). destruct (Z.leb_spec e 6), (Z.leb_spec e 0); lia.
  - by eapply heap_write_val.
  - intros p a j Ha Hj Hk. unfold read_slot. cbn [heap set_shortcut write_slot set_next_entry].
    rewrite lookup_insert_ne; [eapply Hv; [done|done|lia]|]. intros [= <- <-].
    pose proof (h_inj _ _ _ Hh _ _ _ Ha Hseg) as [= ->].
    pose proof (Z.div_mod n 1024 ltac:(lia)). lia.
  - intros e He. rewrite shortcut_set. specialize (Hsc e He). unfold sc_ok in *.
    rewrite (proj2 (Z.leb_le e 6)) in Hsc by lia. rewrite (proj2 (Z.leb_gt e 0)) by lia.
    right. replace (n + 1 - 1) with n by lia. split; [lia|].
    destruct (pw_step e He) as [_ Hpos]. rewrite cdiv_succ by done.
    destruct (Z.eqb_spec e 6) as [He6|He6]; [|done]. subst e.
    change (6 - 1) with 5 in *. rewrite pw_5.
    change (pw 6) with 1. rewrite Z.div_1_r. cbn [sc_seg sc_off].
    split; [done|]. pose proof (Z.div_mod n 1024 ltac:(lia)). lia.
Qed.

Lemma prep_append_spec `{Build} v n G t :
  Ready 0 n G t -> n + 1 < 2 ^ 62 ->
  exists t' G' a, prep_append v t = Done (t', (n, (a, n mod 1024))) /\
    Ready 0 (n + 1) G' t' /\ G ⊆ G' /\ G' !! (6, n / 1024) = Some a /\
    lock_pair t' = lock_pair t /\ read_slot t' (a, n mod 1024) = v /\
    (forall p b j, G !! (6, p) = Some b -> (b, j) <> (a, n mod 1024) ->
       read_slot t' (b, j) = read_slot t (b, j)).
Proof.
  intros HR Hlim. unfold prep_append. pose proof (r_range _ _ _ _ HR) as Hn.
  rewrite (r_next _ _ _ _ HR).
  rewrite (proj2 (Z.eqb_neq n _)) by lia. rewrite debug_assert_true by done.
  destruct (new_l1_spec n G t HR) as (t1 & G1 & E1 & R1 & X1).
  destruct (new_level_spec 2 n G1 t1 ltac:(lia) R1) as (t2 & G2 & E2 & R2 & X2).
  destruct (new_level_spec 3 n G2 t2 ltac:(lia) R2) as (t3 & G3 & E3 & R3 & X3).
  destruct (new_level_spec 4 n G3 t3 ltac:(lia) R3) as (t4 & G4 & E4 & R4 & X4).
  destruct (new_level_spec 5 n G4 t4 ltac:(lia) R4) as (t5 & G5 & E5 & R5 & X5).
  destruct (new_level_spec 6 n G5 t5 ltac:(lia) R5) as (t6 & G6 & E6 & R6 & X6).
  destruct (ready_fill n G6 t6 v R6 Hlim) as (a & t7 & Ha & E7 & R7 & Hh7 & L7 & _ & _).
  assert (X : extends G G6 t t6) by eauto 8 using extends_trans.
  destruct X as (HG & Hl & _ & _ & Hvals).
  cbn [mbind outcome_bind]. rewrite E1. cbn [mbind outcome_bind]. rewrite E2.
  cbn [mbind outcome_bind]. rewrite E3. cbn [mbind outcome_bind]. rewrite E4.
  cbn [mbind outcome_bind]. rewrite E5. cbn [mbind outcome_bind]. rewrite E6.
  cbn [mbind outcome_bind]. rewrite add64_ok by (unfold in_u64, u64_max; lia).
  cbn [mbind outcome_bind]. rewrite E7. cbn [mbind outcome_bind].
  exists t7, G6, a. split; [done|]. split; [done|]. split; [done|]. split; [done|].
  split; [by rewrite L7|]. unfold read_slot at 1. rewrite Hh7, lookup_insert_eq.
  split; [done|]. intros p b j Hb Hne. unfold read_slot at 1.
  rewrite Hh7, lookup_insert_ne by done. by eapply Hvals.
Qed.

(** *** Walking *)

Lemma walk_step n G t k d s :
  Ready 0 n G t -> 0 <= k -> 1 <= d <= 6 ->
  read_slot t s = default 0 (G !! (d, k / pw (d - 1))) ->
  match G !! (d, k / pw (d - 1)) with
  | None => index t s k d = None
  | Some a => index t s k d = Some (a, (k / pw d) mod 1024) /\
      (d < 6 -> forall d', d' = d + 1 ->
       read_slot t (a, (k / pw d) mod 1024) = default 0 (G !! (d', k / pw (d' - 1))))
  end.
Proof.
  intros HR Hk Hd Hs. pose proof (r_heap _ _ _ _ HR) as Hh. unfold index. rewrite Hs.
  destruct (pw_step d Hd) as [Hpw Hm].
  destruct (G !! (d, k / pw (d - 1))) as [a|] eqn:Ea; [|done].
  change (default 0 (Some a)) with a.
  pose proof (h_shape _ _ _ Hh _ _ _ Ea) as (_ & _ & Har).
  rewrite (proj2 (Z.eqb_neq a 0)) by (unfold ROOT in *; lia).
  rewrite level_index_div by lia. split; [done|]. intros Hd6 d' ->.
  unfold read_slot. rewrite (h_edge _ _ _ Hh d _ a) by (done || lia || apply Z.mod_pos_bound; lia).
  replace (d + 1 - 1) with d by lia. do 3 f_equal.
  rewrite Hpw, <-div_div_1024 by lia. pose proof (Z.div_mod (k / pw d) 1024 ltac:(lia)). lia.
Qed.

(** When a segment on the way is missing, the last one is. *)
Lemma opened_none n G d k :
  opened 0 n G -> 1 <= d <= 6 -> 0 <= k -> G !! (d, k / pw (d - 1)) = None ->
  G !! (6, k / pw 5) = None.
Proof.
  intros Ho Hd Hk Hnone. destruct (G !! (6, k / pw 5)) as [a|] eqn:E; [|done]. exfalso.
  assert (H6 : is_Some (G !! (6, k / pw 5))) by (by eexists).
  apply Ho in H6 as (_ & _ & H6). cbn [Z.leb Z.compare] in H6. change (6 - 1) with 5 in H6.
  assert (is_Some (G !! (d, k / pw (d - 1)))) as [b Hb]; [|congruence].
  apply Ho. rewrite (proj2 (Z.leb_gt d 0)) by lia.
  destruct (pw_step d Hd) as [Hpw Hm]. split; [done|]. split; [apply Z.div_pos; lia|].
  assert (Hdvd : (pw 5 | pw (d - 1))).
  { unfold pw. exists (2 ^ (50 - 10 * (d - 1))). rewrite <-Z.pow_add_r by lia. f_equal. lia. }
  destruct Hdvd as [c Hc]. rewrite Hc in *. rewrite pw_5 in *. assert (0 < c) by lia.
  rewrite (Z.mul_comm c 1024), <-Z.div_div by lia.
  pose proof (Z.mul_div_le (k / 1024) c ltac:(lia)). lia.
Qed.

(** One level down, or the end of the walk. *)
Ltac walk_down H d d' :=
  let W := fresh "W" in
  lazymatch goal with
  | HR : Ready 0 ?n ?G ?t, Hstop : forall d, _ -> _ -> ?G !! (6, ?k / 1024) = None |- _ =>
      pose proof (walk_step n G t k d _ HR ltac:(lia) ltac:(lia) H) as W; clear H;
      destruct (G !! (d, k / pw (d - 1))) eqn:?;
      [destruct W as [-> W]; pose proof (W ltac:(lia) d' eq_refl) as H; clear W;
       cbn [mbind option_bind]
      |rewrite W; cbn [mbind option_bind]; by rewrite (Hstop d ltac:(lia))]
  end.

Lemma get_entry_at_spec n G t k :
  Ready 0 n G t -> 0 <= k < 2 ^ 64 ->
  get_entry_at t k = (a ← G !! (6, k / 1024); Some (a, k mod 1024)).
Proof.
  intros HR Hk. pose proof (r_open _ _ _ _ HR) as Ho. unfold get_entry_at.
  rewrite root_index_div by lia.
  assert (H0 : read_slot t (ROOT, k / pw 0) = default 0 (G !! (1, k / pw (1 - 1)))).
  { unfold read_slot. rewrite (h_root _ _ _ (r_heap _ _ _ _ HR)); [done|]. apply Z.div_pos; [lia|done]. }
  assert (Hstop : forall d, 1 <= d <= 6 -> G !! (d, k / pw (d - 1)) = None -> G !! (6, k / 1024) = None).
  { intros d Hd Hnone. rewrite <-pw_5. eapply opened_none; [done|exact Hd|lia|done]. }
  walk_down H0 1 2. walk_down H0 2 3. walk_down H0 3 4. walk_down H0 4 5. walk_down H0 5 6.
  pose proof (walk_step n G t k 6 _ HR ltac:(lia) ltac:(lia) H0) as Hlast.
  change (6 - 1) with 5 in Hlast. rewrite pw_5 in *. change (pw 6) with 1 in Hlast.
  rewrite Z.div_1_r in Hlast.
  destruct (G !! (6, k / 1024)) as [a|]; [by destruct Hlast as [-> _]|done].
Qed.

(** ** The trie as a list *)

(** The pointers stored, and the slots handed out, by index. *)
Definition represents (t : RootTable) (vals : list Z) (slots : list Slot) : Prop :=
  exists G, Ready 0 (Z.of_nat (length vals)) G t /\ length slots = length vals /\
    forall k v, vals !! k = Some v ->
      exists a, G !! (6, Z.of_nat k / 1024) = Some a /\
        slots !! k = Some (a, Z.of_nat k mod 1024) /\
        read_slot t (a, Z.of_nat k mod 1024) = v.

Lemma represents_new : represents new [] [].
Proof.
  exists ∅. split; [|done]. constructor; [done|done|..].
  - intros e p. rewrite lookup_empty. split; [by intros [? ?]|]. intros (He & Hp & Hlt).
    exfalso. destruct (pw_step e He) as [Hpw Hm]. rewrite (proj2 (Z.leb_gt e 0)) in Hlt by lia.
    change (Z.of_nat (length [])) with 0 in Hlt. nia.
  - constructor; intros; rewrite ?lookup_empty in *; done.
  - intros p a j Ha. by rewrite lookup_empty in Ha.
  - intros e He. unfold sc_ok. rewrite (proj2 (Z.leb_gt e 0)) by lia. by left.
Qed.

Lemma slot_index G h f k k' a :
  HeapOK G h f -> 0 <= k -> 0 <= k' ->
  G !! (6, k / 1024) = Some a -> G !! (6, k' / 1024) = Some a -> k mod 1024 = k' mod 1024 -> k = k'.
Proof.
  intros Hh Hk Hk' Ha Ha' Hm. pose proof (h_inj _ _ _ Hh _ _ _ Ha Ha') as [= Hd].
  pose proof (Z.div_mod k 1024). pose proof (Z.div_mod k' 1024). lia.
Qed.

Lemma represents_append `{Build} v t vals slots :
  represents t vals slots -> Z.of_nat (length vals) + 1 < 2 ^ 62 ->
  exists t' s, prep_append v t = Done (t', (Z.of_nat (length vals), s)) /\
    represents t' (vals ++ [v]) (slots ++ [s]) /\ lock_pair t' = lock_pair t.
Proof.
  intros (G & HR & Hl & Hvals) Hlim.
  destruct (prep_append_spec v _ _ _ HR Hlim) as (t' & G' & a & E & HR' & HG & Ha & Hlock & Hnew & Hold).
  eexists t', _. split; [exact E|]. split; [|done]. exists G'.
  rewrite !length_app, Nat2Z.inj_add. simpl. split; [done|]. split; [lia|].
  intros k w. rewrite lookup_app_Some. intros [Hk|[Hge Hk]].
  - destruct (Hvals k w Hk) as (b & Hb & Hs & Hr). exists b.
    pose proof (lookup_lt_Some _ _ _ Hk) as Hlt.
    split; [by eapply lookup_weaken|]. split; [by apply lookup_app_l_Some|].
    rewrite (Hold _ _ _ Hb); [done|]. intros [= -> Hm].
    pose proof (slot_index _ _ _ (Z.of_nat k) (Z.of_nat (length vals)) a (r_heap _ _ _ _ HR')
      ltac:(lia) ltac:(lia) (lookup_weaken _ _ _ _ Hb HG) Ha Hm). lia.
  - apply list_lookup_singleton_Some in Hk as [Hk ->].
    assert (k = length vals) as -> by lia. exists a. split; [done|]. split; [|done].
    rewrite lookup_app_r by lia. by rewrite Hl, Nat.sub_diag.
Qed.

Lemma represents_store t vals slots k s v :
  represents t vals slots -> slots !! k = Some s ->
  represents (atomic_store s v t) (<[k := v]> vals) slots.
Proof.
  intros (G & HR & Hl & Hvals) Hs. exists G. rewrite length_insert.
  assert (exists w, vals !! k = Some w) as [w Hw].
  { apply lookup_lt_is_Some. rewrite <-Hl. by eapply lookup_lt_Some. }
  destruct (Hvals k w Hw) as (a & Ha & Hs' & _). rewrite Hs in Hs'. simplify_eq.
  split; [|split; [done|]].
  - destruct HR as [Hn Hr Ho Hh Hv Hsc]. constructor; try done; [by eapply heap_write_val|].
    intros p b j Hb Hj Hge. unfold read_slot, atomic_store. cbn [heap write_slot].
    rewrite lookup_insert_ne; [by eapply Hv|]. intros [= <- <-].
    pose proof (h_inj _ _ _ Hh _ _ _ Ha Hb) as [= <-].
    pose proof (lookup_lt_Some _ _ _ Hw). pose proof (Z.div_mod (Z.of_nat k) 1024 ltac:(lia)). lia.
  - intros i u. destruct (decide (i = k)) as [->|Hne].
    + rewrite list_lookup_insert_eq by (by eapply lookup_lt_Some). intros [= <-]. exists a.
      split; [done|]. split; [done|]. unfold read_slot, atomic_store. cbn [heap write_slot].
      by rewrite lookup_insert_eq.
    + rewrite list_lookup_insert_ne by done. intros Hu.
      destruct (Hvals i u Hu) as (b & Hb & Hsb & Hrb). exists b. split; [done|]. split; [done|].
      unfold read_slot, atomic_store. cbn [heap write_slot]. rewrite lookup_insert_ne; [done|].
      intros [= -> Hm]. apply Hne.
      pose proof (slot_index _ _ _ (Z.of_nat k) (Z.of_nat i) b (r_heap _ _ _ _ HR)
        ltac:(lia) ltac:(lia) Ha Hb Hm). lia.
Qed.

(** Changes of the locks do not touch the entries. *)
Lemma represents_locks t vals slots l u :
  represents t vals slots -> represents (set_locks l u t) vals slots.
Proof. intros (G & [Hn Hr Ho Hh Hv Hsc] & Hl & Hvals). by exists G. Qed.

Lemma represents_lookup t vals slots k :
  represents t vals slots -> (0 <= k < 2 ^ 64)%Z ->
  get t k = (v ← vals !! Z.to_nat k; if v =? 0 then None else Some v) /\
  (k < Z.of_nat (length vals) -> get_entry_at t k = slots !! Z.to_nat k).
Proof.
  intros (G & HR & Hl & Hvals) Hk. unfold get. rewrite (get_entry_at_spec _ _ _ _ HR Hk).
  destruct (vals !! Z.to_nat k) as [v|] eqn:Ev; cbn [mbind option_bind].
  - destruct (Hvals _ _ Ev) as (a & Ha & Hs & Hr). rewrite Z2Nat.id in Ha, Hs, Hr by lia.
    rewrite Ha. cbn [mbind option_bind]. by rewrite Hr, Hs.
  - apply lookup_ge_None in Ev. split; [|lia].
    destruct (G !! (6, k / 1024)) as [a|] eqn:Ea; cbn [mbind option_bind]; [|done].
    rewrite (r_vals _ _ _ _ HR _ _ _ Ea); [done|apply Z.mod_pos_bound; lia|].
    pose proof (Z.div_mod k 1024 ltac:(lia)). lia.
Qed.

(** ** Tries that are filled with [prep_append]

    [trie_reach t vals slots]: the states of the index of a chain, with the pointers stored and
    the slots handed out so far.  Appends hand out slots (with a null pointer, or a pointer that
    is already known); a slot that was handed out may be stored through at any later time and in
    any order; the lock operations interleave freely. *)

Definition LIMIT : Z := 2 ^ 62.

Inductive trie_reach `{Build} : RootTable -> list Z -> list Slot -> Prop :=
| reach_new : trie_reach new [] []
| reach_append t vals slots v t' i s :
    trie_reach t vals slots -> len t + 1 < LIMIT ->
    prep_append v t = Done (t', (i, s)) -> trie_reach t' (vals ++ [v]) (slots ++ [s])
| reach_store t vals slots k s v :
    trie_reach t vals slots -> slots !! k = Some s ->
    trie_reach (atomic_store s v t) (<[k := v]> vals) slots
| reach_lock t vals slots t' :
    trie_reach t vals slots -> increment_lock t = Done t' -> trie_reach t' vals slots
| reach_unlock t vals slots n t' b :
    trie_reach t vals slots -> unlock n t = Done (t', b) -> trie_reach t' vals slots.

Lemma trie_reach_represents `{Build} t vals slots :
  trie_reach t vals slots -> represents t vals slots.
Proof.
  induction 1 as [|t vals slots v t' i s _ IH Hlim E|t vals slots k s v _ IH Hs
                  |t vals slots t' _ IH E|t vals slots n t' b _ IH E].
  - apply represents_new.
  - assert (Hlen : len t = Z.of_nat (length vals)).
    { destruct IH as (G & HR & _). apply (r_next _ _ _ _ HR). }
    unfold LIMIT in Hlim. rewrite Hlen in Hlim.
    destruct (represents_append v _ _ _ IH Hlim) as (t1 & s1 & E1 & HR & _).
    rewrite E in E1. by simplify_eq.
  - by eapply represents_store.
  - unfold increment_lock in E. inv_done. by apply represents_locks.
  - unfold unlock in E. destruct (n =? last_lock t); inv_done; [by apply represents_locks|done].
Qed.

Lemma represents_nodup t vals slots : represents t vals slots -> NoDup slots.
Proof.
  intros (G & HR & Hl & Hvals). apply NoDup_alt. intros i j s Hi Hj.
  assert (Hv : forall k, slots !! k = Some s -> exists v, vals !! k = Some v).
  { intros k Hk. apply lookup_lt_is_Some. rewrite <-Hl. by eapply lookup_lt_Some. }
  destruct (Hv i Hi) as [v Hvi]. destruct (Hv j Hj) as [w Hwj].
  destruct (Hvals _ _ Hvi) as (a & Ha & Hsa & _). destruct (Hvals _ _ Hwj) as (b & Hb & Hsb & _).
  rewrite Hi in Hsa. rewrite Hj in Hsb. injection Hsa as ->. injection Hsb as <- Hm.
  pose proof (slot_index _ _ _ (Z.of_nat i) (Z.of_nat j) a (r_heap _ _ _ _ HR)
    ltac:(lia) ltac:(lia) Ha Hb Hm). lia.
Qed.

(** C25.  For its readers the trie is the log: in every reachable state the length is the number
    of appends, [get] returns exactly the pointer stored for an index (nothing where none is
    stored, nothing beyond the end), the slot of an index never moves, no two indices share a
    slot, and the next append does not panic (in either profile) and gets the next index. *)
Theorem trie_refines_log `{Build} (t : RootTable) (vals : list Z) (slots : list Slot) :
  trie_reach t vals slots ->
  len t = Z.of_nat (length vals) /\ length slots = length vals /\ NoDup slots /\
  (forall k, 0 <= k < 2 ^ 64 ->
     get t k = (v ← vals !! Z.to_nat k; if v =? 0 then None else Some v) /\
     (k < len t -> get_entry_at t k = slots !! Z.to_nat k)) /\
  (len t + 1 < LIMIT -> forall v, exists t' s,
     prep_append v t = Done (t', (len t, s)) /\ s ∉ slots).
Proof.
  intros HR%trie_reach_represents.
  assert (Hlen : len t = Z.of_nat (length vals)).
  { destruct HR as (G & HR & _). apply (r_next _ _ _ _ HR). }
  rewrite Hlen. split; [done|]. split; [by destruct HR as (? & _ & ? & _)|].
  split; [by eapply represents_nodup|]. split.
  - intros k Hk. by apply (represents_lookup t vals slots).
  - intros Hlim v. destruct (represents_append v _ _ _ HR Hlim) as (t' & s & E & HR' & _).
    exists t', s. split; [done|]. apply represents_nodup, NoDup_app in HR' as (_ & Hnin & _).
    intros Hin. apply (Hnin s Hin). by left.
Qed.

(** ** Locks *)

Definition locks_ok (t : RootTable) : Prop :=
  0 <= last_unlock t <= last_lock t /\ last_lock t <= last_unlock t + 1 /\ last_lock t < u64_max.

(** The lock of a chain is a counter that is taken and released in turn: an unlocked chain
    can be locked with exactly the number after the last released one, which makes it locked; a
    locked chain cannot be locked; it is released by exactly the number it was locked with, and
    other numbers change nothing. *)
Theorem trie_lock_protocol `{Build} (t : RootTable) (n : Z) :
  locks_ok t ->
  cannot_lock n t = Done (is_locked t || negb (n =? last_unlock t + 1)) /\
  (cannot_lock n t = Done false ->
     exists t', increment_lock t = Done t' /\ is_locked t' = true /\ last_lock t' = n /\
                (n < u64_max -> locks_ok t')) /\
  exists t', unlock n t = Done (t', n =? last_lock t) /\ locks_ok t' /\
    (if n =? last_lock t then is_locked t' = false /\ last_lock t' = last_lock t else t' = t).
Proof.
  intros (Hu & Hl & Hmax). unfold u64_max in Hmax.
  assert (Hc : cannot_lock n t = Done (is_locked t || negb (n =? last_unlock t + 1))).
  { unfold cannot_lock. destruct (is_locked t); simpl; [done|].
    by rewrite add64_ok by (unfold in_u64, u64_max; lia). }
  rewrite Hc. split; [done|]. split.
  - intros [= Hf]. apply orb_false_iff in Hf as [Hlk Hn]. unfold is_locked in Hlk.
    apply negb_false_iff, Z.eqb_eq in Hlk. apply negb_false_iff, Z.eqb_eq in Hn. subst n.
    unfold increment_lock. rewrite Hlk, add64_ok by (unfold in_u64, u64_max; lia). simpl.
    rewrite Z.eqb_refl, debug_assert_true by done. simpl. eexists. split; [done|]. simpl.
    unfold is_locked, locks_ok, u64_max. simpl.
    split; [by rewrite (proj2 (Z.eqb_neq _ _)) by lia|]. split; [done|]. lia.
  - unfold unlock. destruct (Z.eqb_spec n (last_lock t)) as [->|Hne].
    + rewrite debug_assert_true by (apply Z.leb_le; lia). simpl. eexists. split; [done|].
      unfold locks_ok, is_locked, u64_max. simpl. rewrite Z.eqb_refl. split; [lia|done].
    + exists t. split; [done|]. split; [|done]. unfold locks_ok, u64_max. lia.
Qed.

(** ** Writes at a given index

    [prep_append_at] moves [next_entry] but not the shortcuts.  A later [prep_append] then
    returns one index and writes the slot of another one. *)

Definition at_then_append : outcome (RootTable * (Z * Slot)) :=
  '(t, _) ← prep_append (H := dev) 10 new;
  '(t, _) ← prep_append_at (H := dev) 1 t;
  prep_append (H := dev) 30 t.

(** After an append (index 0) and a write at index 1, the next append returns index 2 but
    stores its entry in the slot of index 1: a reader finds it at 1 and nothing at 2. *)
Theorem append_after_write_at_misplaced :
  exists t s, at_then_append = Done (t, (2, s)) /\
    get t 1 = Some 30 /\ get t 2 = None /\ get_entry_at t 1 = Some s.
Proof. eexists _, _. split; [vm_compute; reflexivity|]. vm_compute. done. Qed.

(** ** Witnesses *)

Fixpoint append_all `{Build} (vs : list Z) (t : RootTable) (slots : list Slot)
  : outcome (RootTable * list Slot) :=
  match vs with
  | [] => Done (t, slots)
  | v :: vs => '(t, (_, s)) ← prep_append v t; append_all vs t (slots ++ [s])
  end.

Lemma append_all_reach `{Build} vs : forall t vals slots t' slots',
  trie_reach t vals slots -> Z.of_nat (length vals + length vs) + 1 < LIMIT ->
  append_all vs t slots = Done (t', slots') -> trie_reach t' (vals ++ vs) slots'.
Proof.
  induction vs as [|v vs IH]; intros t vals slots t' slots' HR Hlim E; simpl in E.
  - inv_done. by rewrite app_nil_r.
  - apply bind_done in E as ([t1 [i s]] & E1 & E). simpl in Hlim.
    rewrite (cons_middle v vals vs), app_assoc. eapply IH; [|rewrite length_app; simpl; lia|exact E].
    eapply reach_append; [exact HR| |exact E1].
    destruct (trie_reach_represents _ _ _ HR) as (G & HRd & _).
    unfold len. rewrite (r_next _ _ _ _ HRd). lia.
Qed.

Definition demo_trie : RootTable * list Slot :=
  match append_all (H := dev) [10; 0; 20] new [] with Done r => r | Panic => (new, []) end.

Lemma demo_trie_reach : trie_reach (H := dev) demo_trie.1 [10; 0; 20] demo_trie.2.
Proof.
  apply (append_all_reach (H := dev) [10; 0; 20] new [] []); [apply reach_new|done|].
  vm_compute. reflexivity.
Qed.

Lemma trie_refines_log_witness :
  len demo_trie.1 = 3 /\ NoDup demo_trie.2 /\
  get demo_trie.1 0 = Some 10 /\ get demo_trie.1 1 = None /\ get demo_trie.1 2 = Some 20 /\
  get demo_trie.1 3 = None.
Proof.
  destruct (@trie_refines_log dev demo_trie.1 [10; 0; 20] demo_trie.2 demo_trie_reach)
    as (Hlen & _ & Hnd & Hget & _).
  split; [exact Hlen|]. split; [exact Hnd|].
  split; [exact (proj1 (Hget 0 ltac:(lia)))|]. split; [exact (proj1 (Hget 1 ltac:(lia)))|].
  split; [exact (proj1 (Hget 2 ltac:(lia)))|exact (proj1 (Hget 3 ltac:(lia)))].
Defined.

Lemma trie_lock_protocol_witness :
  locks_ok new /\
  cannot_lock (H := dev) 1 new = Done (is_locked new || negb (1 =? last_unlock new + 1)) /\
  exists t', unlock (H := dev) 1 new = Done (t', 1 =? last_lock new).
Proof.
  assert (Hok : locks_ok new) by (unfold locks_ok, u64_max; simpl; lia).
  split; [exact Hok|].
  destruct (@trie_lock_protocol dev new 1 Hok) as (H1 & _ & t' & H2 & _).
  split; [exact H1|]. exists t'. exact H2.
Defined.
