(* ===== verification/ByteTrie.v ===== *)
(** * The byte allocator of a chain ([fuzzy_log_server/src/byte_trie.rs])

    The entries of a chain are stored in blocks of 8192 bytes, at consecutive locations; the
    blocks hang in a radix tree of five levels over the location.  [append] takes the next
    bytes of the current block through a shortcut per level, [append_at] (the replicas) walks
    the tree from its root.

    A node of the tree is named by its path from the root (the indices taken at each level);
    a shortcut, which points into an array, is the path of the array and an offset.  Blocks
    are boxes: the addresses are those of a system allocator that hands out fresh memory.  The
    state of the allocator with the memory, [Alloc], implements the interface [ByteTrie] of
    [Trie], and its laws are proved here. *)

From stdpp Require Import base gmap list fin_maps.
From Stdlib Require Import ZArith Lia.
From S2P Require Import Prelude PacketCodec Trie.
Open Scope Z_scope.

Module BT.

Definition LEVEL_BYTES : Z := 8192.
Definition ARRAY_SIZE : Z := 8192 / 8.

Definition L1_MASK : Z := 0x001FFFFFFFFFFFFF.
Definition L2_MASK : Z := 0x000007FFFFFFFFFF.
Definition L3_MASK : Z := 0x00000001FFFFFFFF.
Definition L4_MASK : Z := 0x00000000007FFFFF.
Definition VAL_MASK : Z := 0x0000000000001FFF.

Definition SHIFTS (depth : nat) : Z := default 0 ([53; 43; 33; 23; 13; 0] !! depth).
Definition MASKS (depth : nat) : Z := default 0 ([0x3FF; 0x3FF; 0x3FF; 0x3FF; 0x3FF; 0x1FFF] !! depth).

Abbreviation Path := (list Z).

(** A shortcut is the path of an array and an offset in it.  The levels of the shortcuts: 0 to 4
    for [storage_l0] to [storage_l4], 5 for [storage_val]; one that is not there is the zeroed
    shortcut, of length 0. *)
Record RootTable := mkRoot {
  stored_bytes : Z;
  shortcuts : gmap nat (Path * Z);
  segs : gset Path;               (* the arrays that are there *)
  blocks : gmap Path Z;           (* the blocks that are there, with their addresses *)
}.

Definition level_len (d : nat) : Z := if (d =? 5)%nat then LEVEL_BYTES else ARRAY_SIZE.

Definition sc_len (d : nat) (r : RootTable) : Z :=
  match shortcuts r !! d with Some (_, off) => level_len d - off | None => 0 end.

Definition cannot_append (d : nat) (r : RootTable) : bool := sc_len d r =? 0.

Definition set_shortcut (d : nat) (sc : Path * Z) (r : RootTable) : RootTable :=
  mkRoot (stored_bytes r) (<[d := sc]> (shortcuts r)) (segs r) (blocks r).

Definition set_stored (n : Z) (r : RootTable) : RootTable :=
  mkRoot n (shortcuts r) (segs r) (blocks r).

(** Storing a box at a place drops what was there, with everything below it. *)
Definition put_seg (p : Path) (r : RootTable) : RootTable :=
  mkRoot (stored_bytes r) (shortcuts r)
    ({[ p ]} ∪ filter (fun q => ~ p `prefix_of` q) (segs r))
    (filter (fun kv => ~ p `prefix_of` kv.1) (blocks r)).

Definition put_block (p : Path) (addr : Z) (r : RootTable) : RootTable :=
  mkRoot (stored_bytes r) (shortcuts r) (segs r) (<[p := addr]> (blocks r)).

(** [Shortcut::append]: the place taken; the shortcut moves on. *)
Definition take_place (d : nat) (r : RootTable) : outcome (RootTable * Path) :=
  match shortcuts r !! d with
  | Some (p, off) =>
      _ ← assert_ (off <? level_len d);
      Done (set_shortcut d (p, off + 1) r, p ++ [off])
  | None => Panic
  end.

(** [Shortcut<u8>::reserve]; the zeroed shortcut has no bytes (sizes are not 0). *)
Definition reserve (size : Z) (r : RootTable) : outcome (RootTable * (Path * Z)) :=
  match shortcuts r !! 5%nat with
  | Some (p, off) =>
      _ ← assert_ (size <=? LEVEL_BYTES - off);
      Done (set_shortcut 5 (p, off + size) r, (p, off))
  | None => Panic
  end.

Definition index (k : Z) (depth : nat) : Z := Z.land (Z.shiftr k (SHIFTS depth)) (MASKS depth).

(** [Trie::new]: the array of the root is there, and [storage_l0] points to it. *)
Definition new : RootTable := mkRoot 0 {[ 0%nat := ([], 0) ]} {[ [] ]} ∅.

(** [round_up_to_next] *)
Definition round_up_to_next `{Build} (unrounded target_alignment : Z) : outcome Z :=
  s ← add64 unrounded target_alignment;
  s ← sub64 s 1;
  Done (Z.ldiff s (target_alignment - 1)).

(** The block [if start_byte & L<d>_MASK == 0 {..}] of [append], for an array. *)
Definition new_level `{Build} (d : nat) (mask start_byte : Z) (r : RootTable) : outcome RootTable :=
  if Z.land start_byte mask =? 0 then
    _ ← debug_assert (cannot_append d r);
    '(r, place) ← take_place (d - 1) r;
    Done (set_shortcut d (place, 0) (put_seg place r))
  else Done r.

(** The part of [append] after the check that the range lies in one block.  [addr] is the
    address of the block that is allocated, if one is; the result is the block and the offset
    of the range, and whether the block is new. *)
Definition append_in `{Build} (addr : Z) (start_byte size : Z) (r : RootTable)
  : outcome (RootTable * (Path * Z) * bool) :=
  _ ← debug_assert (negb (stored_bytes r =? u64_max));
  r ← new_level 1 L1_MASK start_byte r;
  r ← new_level 2 L2_MASK start_byte r;
  r ← new_level 3 L3_MASK start_byte r;
  r ← new_level 4 L4_MASK start_byte r;
  if Z.land start_byte VAL_MASK =? 0 then
    _ ← debug_assert (cannot_append 5 r);
    '(r, place) ← take_place 4 r;
    let r := put_block place addr r in
    _ ← assert_ (size <=? LEVEL_BYTES);
    n ← add64 (stored_bytes r) size;
    Done (set_shortcut 5 (place, size) (set_stored n r), (place, 0), true)
  else
    n ← add64 (stored_bytes r) size;
    '(r, place) ← reserve size (set_stored n r);
    Done (r, place, false).

(** [RootTable::append].  The call that fills the rest of a block ends at its last byte, so it
    does not recurse again ([fill]). *)
Definition append_with `{Build} (fill : Z -> RootTable -> outcome RootTable)
    (addr : Z) (size : Z) (r : RootTable) : outcome (RootTable * (Path * Z) * Z * bool) :=
  _ ← assert_ (size <=? LEVEL_BYTES);
  let start_byte := stored_bytes r in
  end_byte ← add64 start_byte size;
  end_byte ← sub64 end_byte 1;
  '(r, start_byte) ←
    (if (1 <? size) && negb (Z.ldiff start_byte VAL_MASK =? Z.ldiff end_byte VAL_MASK) then
       new_start ← round_up_to_next start_byte LEVEL_BYTES;
       rem ← sub64 new_start start_byte;
       r ← fill rem r;
       Done (r, new_start)
     else Done (r, start_byte));
  '(r, place, fresh) ← append_in addr start_byte size r;
  Done (r, place, start_byte, fresh).

Definition append `{Build} (addr : Z) (size : Z) (r : RootTable)
  : outcome (RootTable * (Path * Z) * Z * bool) :=
  append_with (fun rem r =>
    '(r, _, _, _) ← append_with (fun _ _ => Panic) addr rem r; Done r) addr size r.

(** [insert!]: the place of the location in the array at [p], which is allocated if needed. *)
Definition insert_level (p : Path) (k : Z) (depth : nat) (r : RootTable) : RootTable * Path :=
  (if bool_decide (p ∈ segs r) then r else put_seg p r, p ++ [index k depth]).

(** [RootTable::insert] *)
Definition insert `{Build} (addr : Z) (loc size : Z) (r : RootTable)
  : outcome (RootTable * (Path * Z) * bool) :=
  e ← add64 loc size;
  let r := if stored_bytes r <? e then set_stored e r else r in
  let '(r, l1) := insert_level [] loc 0 r in
  let '(r, l2) := insert_level l1 loc 1 r in
  let '(r, l3) := insert_level l2 loc 2 r in
  let '(r, l4) := insert_level l3 loc 3 r in
  let '(r, lv) := insert_level l4 loc 4 r in
  let val_start := index loc 5 in
  let fresh := bool_decide (blocks r !! lv = None) in
  let r := if fresh then put_block lv addr r else r in
  _ ← assert_ (val_start + size <=? LEVEL_BYTES);
  Done (r, (lv, val_start), fresh).

(** [RootTable::get], [get_mut]: the block and the offset. *)
Definition get_level (p : Path) (k : Z) (depth : nat) (r : RootTable) : option Path :=
  if bool_decide (p ∈ segs r) then Some (p ++ [index k depth]) else None.

Definition get (loc size : Z) (r : RootTable) : outcome (option (Path * Z)) :=
  match
    (l1 ← get_level [] loc 0 r; l2 ← get_level l1 loc 1 r; l3 ← get_level l2 loc 2 r;
     l4 ← get_level l3 loc 3 r; lv ← get_level l4 loc 4 r;
     _ ← blocks r !! lv; Some lv)
  with
  | Some lv =>
      _ ← assert_ (index loc 5 + size <=? LEVEL_BYTES);
      Done (Some (lv, index loc 5))
  | None => Done None
  end.

Definition len (r : RootTable) : Z := stored_bytes r.

(** [Trie::free_first].  [for slotv in ..]: the blocks of an array, in order. *)
Record Freed := mkFreed { fr_root : RootTable; fr_next : Z }.

Definition drop_at (p : Path) (r : RootTable) : RootTable :=
  mkRoot (stored_bytes r) (shortcuts r) (filter (fun q => ~ p `prefix_of` q) (segs r))
    (filter (fun kv => ~ p `prefix_of` kv.1) (blocks r)).

Fixpoint walk_slots (f : Path -> Freed -> bool * Freed) (p : Path) (idxs : list nat) (s : Freed)
  : bool * Freed :=
  match idxs with
  | [] => (false, s)
  | i :: idxs =>
      let r := f (p ++ [Z.of_nat i]) s in
      if r.1 then r else walk_slots f p idxs r.2
  end.

(** [walk!]: [true] is [return]; an array that was walked to its end is dropped. *)
Fixpoint walk (levels : nat) (num_blocks : Z) (p : Path) (s : Freed) : bool * Freed :=
  if bool_decide (p ∈ segs (fr_root s)) then
    walk_slots
      (match levels with
       | O => fun p s =>
           if num_blocks <=? fr_next s then (true, s)
           else (false, mkFreed (drop_at p (fr_root s)) (fr_next s + 1))
       | S levels => fun p s =>
           let r := walk levels num_blocks p s in
           if r.1 then r else (false, mkFreed (drop_at p (fr_root r.2)) (fr_next r.2))
       end) p (seq 0 (Z.to_nat ARRAY_SIZE)) s
  else (false, s).

Definition free_first (num_blocks : Z) (r : RootTable) : RootTable :=
  fr_root (walk 4 num_blocks [] (mkFreed r 0)).2.

(** ** Locations, digits and paths

    The location of a byte has a digit of ten bits per level of the tree; an element of level
    [d] covers [gran d] bytes. *)

Definition gran (d : nat) : Z := 2 ^ (53 - 10 * Z.of_nat d).
Definition digit (d : nat) (b : Z) : Z := (b / gran d) mod 1024.
Definition path (n : nat) (b : Z) : Path := (fun d => digit d b) <$> seq 0 n.

Lemma gran_pos d : (d <= 4)%nat -> 0 < gran d.
Proof. intros Hd. apply Z.pow_pos_nonneg; lia. Qed.

Lemma gran_S d : (d < 4)%nat -> gran d = 1024 * gran (S d).
Proof.
  intros Hd. unfold gran. change 1024 with (2 ^ 10). rewrite <-Z.pow_add_r by lia. f_equal. lia.
Qed.

Lemma digit_bound d b : 0 <= digit d b < 1024.
Proof. apply Z.mod_pos_bound. lia. Qed.

Lemma path_S n b : path (S n) b = path n b ++ [digit n b].
Proof. unfold path. by rewrite seq_S, fmap_app. Qed.

Lemma index_digit b d : (d <= 4)%nat -> index b d = digit d b.
Proof.
  intros Hd. unfold index, digit, gran. assert (HM : MASKS d = Z.ones 10).
  { do 5 (destruct d as [|d]; [done|]). lia. }
  assert (HS : SHIFTS d = 53 - 10 * Z.of_nat d).
  { do 5 (destruct d as [|d]; [done|]). lia. }
  rewrite HM, HS, Z.land_ones, Z.shiftr_div_pow2 by lia. done.
Qed.

Lemma index_val b : 0 <= b -> index b 5 = b mod LEVEL_BYTES.
Proof.
  intros Hb. unfold index. change (MASKS 5) with (Z.ones 13). change (SHIFTS 5) with 0.
  by rewrite Z.shiftr_0_r, Z.land_ones by lia.
Qed.

(** Going to the next byte: the quotient stays, or moves on at a multiple. *)
Lemma div_same b g : 0 < g -> b mod g <> 0 -> (b - 1) / g = b / g.
Proof.
  intros Hg Hm. pose proof (Z.div_mod b g ltac:(lia)) as E. pose proof (Z.mod_pos_bound b g Hg).
  symmetry. apply (Z.div_unique _ _ _ (b mod g - 1)); lia.
Qed.

Lemma div_next b g : 0 < g -> b mod g = 0 -> (b - 1) / g = b / g - 1.
Proof.
  intros Hg Hm. pose proof (Z.div_mod b g ltac:(lia)) as E.
  symmetry. apply (Z.div_unique _ _ _ (g - 1)); lia.
Qed.

(** A multiple of the granule of a level is one of the finer levels. *)
Lemma mod_finer d b : (d < 4)%nat -> b mod gran d = 0 -> b mod gran (S d) = 0.
Proof.
  intros Hd Hm. pose proof (gran_pos (S d) ltac:(lia)). rewrite gran_S in Hm by done.
  apply Z.mod_divide in Hm as [k ->]; [|lia]. apply Z.mod_divide; [lia|]. exists (k * 1024). lia.
Qed.

Lemma div_coarser d b : (d < 4)%nat -> b / gran d = (b / gran (S d)) / 1024.
Proof.
  intros Hd. pose proof (gran_pos (S d) ltac:(lia)). rewrite gran_S by done.
  rewrite Z.mul_comm, Z.div_div by lia. done.
Qed.

Lemma path_same n b : (n <= 4)%nat -> b mod gran n <> 0 -> path (S n) (b - 1) = path (S n) b.
Proof.
  induction n as [|n IH]; intros Hn Hm; rewrite (path_S _ b), path_S.
  - unfold path, digit. simpl. by rewrite div_same by (done || by apply gran_pos).
  - assert (Hd : digit (S n) (b - 1) = digit (S n) b).
    { unfold digit. by rewrite div_same by (done || apply gran_pos; lia). }
    rewrite Hd. f_equal. destruct (Z.eq_dec (b mod gran n) 0) as [Hz|Hnz].
    + exfalso. apply Hm, mod_finer; [lia|done].
    + apply IH; [lia|done].
Qed.

(** The prefix above the level at which [b] starts a new element. *)
Lemma path_above n b : (n <= 4)%nat -> (n = 0%nat \/ b mod gran (n - 1) <> 0) -> path n (b - 1) = path n b.
Proof.
  intros Hn [->|Hm]; [done|]. destruct n as [|n]; [done|]. simpl in Hm. rewrite Nat.sub_0_r in Hm.
  apply path_same; [lia|done].
Qed.

Lemma digit_next d b :
  (d <= 4)%nat -> 0 < b < 2 ^ 63 -> b mod gran d = 0 -> (d = 0%nat \/ b mod gran (d - 1) <> 0) ->
  digit d b = digit d (b - 1) + 1.
Proof.
  intros Hd Hb Hm Hup. pose proof (gran_pos d Hd) as Hg. unfold digit. rewrite div_next by done.
  set (q := b / gran d). assert (Hq : q mod 1024 <> 0).
  { destruct Hup as [->|Hup].
    - assert (q * gran 0 = b). { unfold q. pose proof (Z.div_mod b (gran 0) ltac:(lia)). lia. }
      change (gran 0) with (2 ^ 53) in *. assert (0 < q < 1024) by lia. rewrite Z.mod_small; lia.
    - destruct d as [|d]; [simpl in *; congruence|]. simpl in Hup. rewrite Nat.sub_0_r in Hup.
      intros Hz. apply Hup. rewrite gran_S by lia. apply Z.mod_divide in Hz as [k Hk]; [|lia].
      assert (Hbq : b = q * gran (S d)). { unfold q. pose proof (Z.div_mod b (gran (S d)) ltac:(lia)). lia. }
      apply Z.mod_divide; [lia|]. exists k. rewrite Hbq, Hk. lia. }
  pose proof (Z.div_mod q 1024 ltac:(lia)). pose proof (Z.mod_pos_bound q 1024 ltac:(lia)).
  assert (Hp : (q - 1) mod 1024 = q mod 1024 - 1); [|lia].
  symmetry. apply (Z.mod_unique _ _ (q / 1024)); lia.
Qed.

Lemma digit_zero d b : (d < 4)%nat -> b mod gran d = 0 -> digit (S d) b = 0.
Proof.
  intros Hd Hm. pose proof (gran_pos (S d) ltac:(lia)). unfold digit.
  rewrite gran_S in Hm by done. apply Z.mod_divide in Hm as [k ->]; [|lia].
  replace (k * (1024 * gran (S d))) with (k * 1024 * gran (S d)) by lia.
  rewrite Z.div_mul by lia. apply Z.mod_mul. lia.
Qed.

Lemma digit_last d b : (d < 4)%nat -> 0 < b -> b mod gran d = 0 -> digit (S d) (b - 1) = 1023.
Proof.
  intros Hd Hb Hm. pose proof (gran_pos (S d) ltac:(lia)) as Hg. unfold digit.
  rewrite div_next by (done || by apply mod_finer).
  rewrite gran_S in Hm by done. apply Z.mod_divide in Hm as [k ->]; [|lia].
  replace (k * (1024 * gran (S d))) with (k * 1024 * gran (S d)) by lia.
  rewrite Z.div_mul by lia. symmetry. apply (Z.mod_unique _ _ (k - 1)); lia.
Qed.

(** ** The shortcuts and the tree after [b] bytes *)

(** Every shortcut points behind the element of the last byte. *)
Definition closed (d : nat) (b : Z) (r : RootTable) : Prop :=
  shortcuts r !! d = if b =? 0 then (if (d =? 0)%nat then Some ([], 0) else None)
                     else Some (path d (b - 1), digit d (b - 1) + 1).

Definition val_closed (b : Z) (r : RootTable) : Prop :=
  shortcuts r !! 5%nat = if b =? 0 then None
                         else Some (path 5 (b - 1), (b - 1) mod LEVEL_BYTES + 1).

(** The tree has the arrays and the blocks of the first [b] bytes. *)
Definition tree_ok (b : Z) (r : RootTable) : Prop :=
  [] ∈ segs r /\
  forall x, 0 <= x < b -> (forall d, (d <= 4)%nat -> path d x ∈ segs r) /\ is_Some (blocks r !! path 5 x).

Record WF (r : RootTable) : Prop := {
  wf_range : 0 <= stored_bytes r < 2 ^ 63;
  wf_levels : forall d, (d <= 4)%nat -> closed d (stored_bytes r) r;
  wf_val : val_closed (stored_bytes r) r;
  wf_tree : tree_ok (stored_bytes r) r;
}.

Lemma new_wf : WF new.
Proof.
  constructor; simpl; [lia| | |].
  - intros d Hd. unfold closed. simpl. destruct d as [|d]; [done|]. simpl. by rewrite lookup_singleton_ne.
  - unfold val_closed. simpl. by rewrite lookup_singleton_ne.
  - split; [set_solver|]. simpl. intros x Hx. lia.
Qed.

(** Level [d] can take the element of byte [b], or has it already. *)
Definition open (d : nat) (b : Z) (r : RootTable) : Prop :=
  shortcuts r !! d =
    Some (path d b, if b mod gran d =? 0 then digit d b else digit d b + 1).

Lemma closed_open d b r :
  (d <= 4)%nat -> 0 <= b < 2 ^ 63 -> closed d b r ->
  (d = 0%nat \/ b mod gran (d - 1) <> 0) -> open d b r.
Proof.
  unfold closed, open. intros Hd Hb -> Hup. destruct (Z.eqb_spec b 0) as [->|Hb0].
  - destruct d as [|d]; [done|]. destruct Hup as [Hup|Hup]; [done|]. by rewrite Z.mod_0_l in Hup by (pose proof (gran_pos (S d - 1)%nat ltac:(lia)); lia).
  - rewrite path_above by done. destruct (Z.eqb_spec (b mod gran d) 0) as [Hm|Hm].
    + do 2 f_equal. by rewrite (digit_next d b) by (done || lia).
    + do 3 f_equal. unfold digit. by rewrite div_same by (done || by apply gran_pos).
Qed.

Lemma closed_full d b r :
  (0 < d <= 4)%nat -> 0 <= b -> closed d b r -> b mod gran (d - 1) = 0 -> cannot_append d r = true.
Proof.
  unfold closed, cannot_append, sc_len. intros Hd Hb -> Hm. destruct d as [|d]; [lia|].
  simpl in Hm. rewrite Nat.sub_0_r in Hm. destruct (Z.eqb_spec b 0) as [->|Hb0]; [done|].
  rewrite digit_last by (done || lia). unfold level_len.
  destruct (Nat.eqb_spec (S d) 5); [lia|done].
Qed.

(** No array or block of an earlier byte hangs below the element that starts at [b]. *)
Lemma path_prefix_div n m x b :
  (n <= 5)%nat -> path n b `prefix_of` path m x -> (n <= m)%nat /\ forall d, (d < n)%nat -> digit d x = digit d b.
Proof.
  intros Hn Hp. pose proof (prefix_length _ _ Hp) as Hl. unfold path in Hl. rewrite !length_fmap, !length_seq in Hl.
  split; [done|]. intros d Hd. assert (Hb : path n b !! d = Some (digit d b)).
  { unfold path. rewrite list_lookup_fmap, lookup_seq_lt by lia. done. }
  apply (prefix_lookup_Some _ _ _ _ Hb) in Hp. unfold path in Hp.
  rewrite list_lookup_fmap, lookup_seq_lt in Hp by lia. simpl in Hp. congruence.
Qed.

Lemma digits_div n x b :
  (n <= 4)%nat -> 0 <= x < 2 ^ 63 -> 0 <= b < 2 ^ 63 ->
  (forall d, (d < S n)%nat -> digit d x = digit d b) -> x / gran n = b / gran n.
Proof.
  intros Hn Hx Hb. induction n as [|n IH]; intros Hd.
  - specialize (Hd 0%nat ltac:(lia)). unfold digit in Hd. change (gran 0) with (2 ^ 53) in *.
    rewrite !Z.mod_small in Hd by (split; [apply Z.div_pos; lia|apply Z.div_lt_upper_bound; lia]). done.
  - assert (E : x / gran n = b / gran n) by (apply IH; [lia|intros; apply Hd; lia]).
    rewrite !(div_coarser n) in E by lia. specialize (Hd (S n) ltac:(lia)). unfold digit in Hd.
    rewrite (Z.div_mod (x / gran (S n)) 1024), (Z.div_mod (b / gran (S n)) 1024) by lia. lia.
Qed.

Lemma no_prefix n m x b :
  (n <= 4)%nat -> 0 <= x < b -> b < 2 ^ 63 -> b mod gran n = 0 -> ~ path (S n) b `prefix_of` path m x.
Proof.
  intros Hn Hx Hb Hm [_ Hd]%path_prefix_div; [|lia].
  pose proof (digits_div n x b Hn ltac:(lia) ltac:(lia) Hd) as E.
  pose proof (gran_pos n Hn) as Hg. pose proof (Z.div_mod b (gran n) ltac:(lia)).
  pose proof (Z.mul_div_le x (gran n) Hg). pose proof (Z.div_mod x (gran n) ltac:(lia)).
  pose proof (Z.mod_pos_bound x (gran n) Hg). rewrite Hm in *. rewrite E in *. lia.
Qed.

Lemma put_seg_tree n b r :
  (n <= 3)%nat -> 0 <= b < 2 ^ 63 -> b mod gran n = 0 -> tree_ok b r -> tree_ok b (put_seg (path (S n) b) r).
Proof.
  intros Hn Hb Hm [Hr Ht]. split.
  - simpl. apply elem_of_union_r, elem_of_filter. split; [|done].
    intros Hp. apply prefix_length in Hp. rewrite path_S, length_app in Hp. simpl in Hp. lia.
  - intros x Hx. destruct (Ht x Hx) as [Hs [a Ha]]. split.
    + intros d Hd. simpl. apply elem_of_union_r, elem_of_filter. split; [|by apply Hs].
      apply no_prefix; lia.
    + exists a. simpl. apply map_lookup_filter_Some. split; [done|]. simpl. apply no_prefix; lia.
Qed.

(** ** Appending *)

(** The levels up to [d] are prepared for the byte [b]. *)
Record Ready (d : nat) (b : Z) (r0 r : RootTable) : Prop := {
  rd_done : forall e, (e < d)%nat -> shortcuts r !! e = Some (path e b, digit e b + 1);
  rd_open : open d b r;
  rd_later : forall e, (d < e)%nat -> shortcuts r !! e = shortcuts r0 !! e;
  rd_segs : forall e, (e <= d)%nat -> path e b ∈ segs r;
  rd_tree : tree_ok b r;
  rd_stored : stored_bytes r = stored_bytes r0;
  rd_blocks : forall x, 0 <= x < b -> blocks r !! path 5 x = blocks r0 !! path 5 x;
}.

Lemma ready_start r : WF r -> Ready 0 (stored_bytes r) r r.
Proof.
  intros [Hb Hl _ Ht]. constructor.
  - intros e He. lia.
  - apply closed_open; [lia|done|apply Hl; lia|by left].
  - done.
  - intros e He. replace e with 0%nat by lia. apply (proj1 Ht).
  - done.
  - done.
  - done.
Qed.

Lemma ready_take d b r0 r :
  (d <= 4)%nat -> Ready d b r0 r -> b mod gran d = 0 ->
  take_place d r = Done (set_shortcut d (path d b, digit d b + 1) r, path (S d) b).
Proof.
  intros Hd HR Hm. unfold take_place. rewrite (rd_open _ _ _ _ HR), Hm. simpl.
  pose proof (digit_bound d b). assert (Hl : level_len d = 1024).
  { unfold level_len. by destruct (Nat.eqb_spec d 5); [lia|]. }
  rewrite Hl, (proj2 (Z.ltb_lt _ _)) by lia. simpl. by rewrite path_S.
Qed.

Lemma ready_step `{Build} d b r0 r mask :
  (d < 4)%nat -> WF r0 -> b = stored_bytes r0 -> Ready d b r0 r ->
  mask = Z.ones (53 - 10 * Z.of_nat d) ->
  exists r', new_level (S d) mask b r = Done r' /\ Ready (S d) b r0 r'.
Proof.
  intros Hd HW Hb HR ->. pose proof (wf_range _ HW) as Hr. rewrite <-Hb in Hr.
  unfold new_level. rewrite Z.land_ones by lia. fold (gran d).
  pose proof (wf_levels _ HW (S d) ltac:(lia)) as Hc. rewrite <-Hb in Hc.
  destruct (Z.eqb_spec (b mod gran d) 0) as [Hm|Hm].
  - rewrite debug_assert_true.
    2:{ unfold cannot_append, sc_len. rewrite (rd_later _ _ _ _ HR) by lia.
        apply (closed_full (S d) b r0); [lia|lia|done|]. by rewrite Nat.sub_succ, Nat.sub_0_r. }
    rewrite done_bind, Nat.sub_succ, Nat.sub_0_r, (ready_take d b r0 r) by (done || lia). simpl.
    eexists. split; [done|]. destruct HR as [Hdn Hop Hlt Hsg Htr Hst Hbl]. constructor; simpl.
    + intros e He. rewrite lookup_insert_ne by lia. destruct (decide (e = d)) as [->|].
      * by rewrite lookup_insert_eq.
      * rewrite lookup_insert_ne by lia. apply Hdn. lia.
    + unfold open. simpl. rewrite lookup_insert_eq, mod_finer, digit_zero by done. done.
    + intros e He. rewrite !lookup_insert_ne by lia. apply Hlt. lia.
    + intros e He. destruct (decide (e = S d)) as [->|]; [set_solver|].
      apply elem_of_union_r, elem_of_filter. split; [|apply Hsg; lia].
      intros Hp%prefix_length. unfold path in Hp. rewrite !length_fmap, !length_seq in Hp. lia.
    + apply (put_seg_tree d b (set_shortcut d (path d b, digit d b + 1) r)); [lia|done|done|done].
    + done.
    + intros x Hx. rewrite <-Hbl by done. destruct (proj2 (proj2 Htr x Hx)) as [a Ha]. rewrite Ha.
      apply map_lookup_filter_Some. split; [done|]. simpl. by apply no_prefix; [lia|lia|lia|].
  - exists r. split; [done|]. destruct HR as [Hdn Hop Hlt Hsg Htr Hst Hbl].
    assert (Hb0 : b <> 0).
    { intros ->. apply Hm, Z.mod_0_l. pose proof (gran_pos d ltac:(lia)). lia. }
    constructor; try done.
    + intros e He. destruct (decide (e = d)) as [->|]; [|apply Hdn; lia].
      unfold open in Hop. by rewrite (proj2 (Z.eqb_neq _ _) Hm) in Hop.
    + unfold open. rewrite Hlt by lia. apply (closed_open (S d) b r0); [lia|done|done|].
      right. by rewrite Nat.sub_succ, Nat.sub_0_r.
    + intros e He. apply Hlt. lia.
    + intros e He. destruct (decide (e = S d)) as [->|]; [|apply Hsg; lia].
      rewrite <-path_same by (done || lia). apply Htr; lia.
Qed.

(** Bytes of one block have the same path. *)
Lemma digit_block d x y : (d <= 4)%nat -> x / LEVEL_BYTES = y / LEVEL_BYTES -> digit d x = digit d y.
Proof.
  intros Hd E. unfold digit. change LEVEL_BYTES with (gran 4) in E.
  assert (Hk : forall k, (k <= 4)%nat -> x / gran (4 - k) = y / gran (4 - k)).
  { induction k as [|k IH]; intros Hk; [done|].
    rewrite !(div_coarser (4 - S k)) by lia. replace (S (4 - S k)) with (4 - k)%nat by lia.
    by rewrite IH by lia. }
  specialize (Hk (4 - d)%nat ltac:(lia)). replace (4 - (4 - d))%nat with d in Hk by lia. by rewrite Hk.
Qed.

Lemma path_block n x y : (n <= 5)%nat -> x / LEVEL_BYTES = y / LEVEL_BYTES -> path n x = path n y.
Proof.
  intros Hn E. apply list_fmap_ext. intros i d [-> Hi]%lookup_seq. apply digit_block; [lia|done].
Qed.

Lemma same_block b i : 0 <= i -> b mod LEVEL_BYTES + i < LEVEL_BYTES -> (b + i) / LEVEL_BYTES = b / LEVEL_BYTES.
Proof.
  intros Hi Hlt. pose proof (Z.div_mod b LEVEL_BYTES ltac:(done)) as E.
  pose proof (Z.mod_pos_bound b LEVEL_BYTES ltac:(done)).
  symmetry. apply (Z.div_unique _ _ _ (b mod LEVEL_BYTES + i)); unfold LEVEL_BYTES in *; lia.
Qed.

Lemma same_block_mod b i :
  0 <= i -> b mod LEVEL_BYTES + i < LEVEL_BYTES -> (b + i) mod LEVEL_BYTES = b mod LEVEL_BYTES + i.
Proof.
  intros Hi Hlt. pose proof (same_block b i Hi Hlt) as E. pose proof (Z.mod_pos_bound b LEVEL_BYTES ltac:(done)).
  rewrite !Z.mod_eq by done. rewrite E. lia.
Qed.

(** After a range of the block of [b] was taken. *)
Lemma wf_build b size r :
  0 <= b -> 0 < size -> b mod LEVEL_BYTES + size <= LEVEL_BYTES -> b + size < 2 ^ 63 ->
  stored_bytes r = b + size ->
  (forall d, (d <= 4)%nat -> shortcuts r !! d = Some (path d b, digit d b + 1)) ->
  shortcuts r !! 5%nat = Some (path 5 b, b mod LEVEL_BYTES + size) ->
  (forall e, (e <= 4)%nat -> path e b ∈ segs r) -> tree_ok b r -> is_Some (blocks r !! path 5 b) -> WF r.
Proof.
  intros Hb Hs Hin Hlim Hst Hd Hv Hsg [Hroot Ht] Hbl.
  assert (Hsame : forall i, 0 <= i < size -> (b + i) / LEVEL_BYTES = b / LEVEL_BYTES)
    by (intros; apply same_block; lia).
  assert (Hlast : b + size - 1 = b + (size - 1)) by lia.
  constructor; rewrite Hst.
  - lia.
  - intros d Hd4. unfold closed. rewrite (proj2 (Z.eqb_neq _ _)), Hlast by lia.
    assert (E : (b + (size - 1)) / LEVEL_BYTES = b / LEVEL_BYTES) by (apply Hsame; lia).
    by rewrite Hd, (path_block d _ _ ltac:(lia) E), (digit_block d _ _ Hd4 E).
  - unfold val_closed. rewrite (proj2 (Z.eqb_neq _ _)), Hlast by lia.
    assert (E : (b + (size - 1)) / LEVEL_BYTES = b / LEVEL_BYTES) by (apply Hsame; lia).
    rewrite Hv, (path_block 5 _ _ ltac:(lia) E), same_block_mod by lia.
    do 2 f_equal. lia.
  - split; [done|]. intros x Hx. destruct (Z.lt_ge_cases x b) as [Hlt|Hge]; [apply (Ht x); lia|].
    assert (E : x / LEVEL_BYTES = b / LEVEL_BYTES) by (replace x with (b + (x - b)) by lia; apply Hsame; lia).
    split; [|by rewrite (path_block 5 x b ltac:(lia) E)].
    intros d Hd4. rewrite (path_block d x b ltac:(lia) E). by apply Hsg.
Qed.

Lemma path_len n b : length (path n b) = n.
Proof. unfold path. by rewrite length_fmap, length_seq. Qed.

(** The place of byte [b], for a range that stays in its block. *)
Lemma append_in_spec `{Build} addr size r :
  WF r -> 0 < size -> stored_bytes r mod LEVEL_BYTES + size <= LEVEL_BYTES ->
  stored_bytes r + size < 2 ^ 63 ->
  exists r', append_in addr (stored_bytes r) size r =
      Done (r', (path 5 (stored_bytes r), stored_bytes r mod LEVEL_BYTES),
            stored_bytes r mod LEVEL_BYTES =? 0) /\
    WF r' /\ stored_bytes r' = stored_bytes r + size /\
    blocks r' !! path 5 (stored_bytes r) =
      (if stored_bytes r mod LEVEL_BYTES =? 0 then Some addr else blocks r !! path 5 (stored_bytes r)) /\
    (forall x, 0 <= x < stored_bytes r -> path 5 x <> path 5 (stored_bytes r) ->
       blocks r' !! path 5 x = blocks r !! path 5 x).
Proof.
  intros HW Hs Hin Hlim. pose proof (wf_range _ HW) as Hr. set (b := stored_bytes r) in *.
  unfold append_in. rewrite debug_assert_true by (apply negb_true_iff, Z.eqb_neq; unfold u64_max; lia).
  rewrite done_bind. pose proof (ready_start r HW) as R0. fold b in R0.
  destruct (ready_step 0 b r r L1_MASK ltac:(lia) HW eq_refl R0 eq_refl) as (r1 & -> & R1). rewrite done_bind.
  destruct (ready_step 1 b r r1 L2_MASK ltac:(lia) HW eq_refl R1 eq_refl) as (r2 & -> & R2). rewrite done_bind.
  destruct (ready_step 2 b r r2 L3_MASK ltac:(lia) HW eq_refl R2 eq_refl) as (r3 & -> & R3). rewrite done_bind.
  destruct (ready_step 3 b r r3 L4_MASK ltac:(lia) HW eq_refl R3 eq_refl) as (r4 & -> & R4). rewrite done_bind.
  change VAL_MASK with (Z.ones 13). rewrite Z.land_ones by lia. change (2 ^ 13) with LEVEL_BYTES.
  pose proof (wf_val _ HW) as Hv. unfold val_closed in Hv. fold b in Hv.
  rewrite <-(rd_later _ _ _ _ R4) in Hv by lia. pose proof (rd_stored _ _ _ _ R4) as Hst. fold b in Hst.
  destruct (Z.eqb_spec (b mod LEVEL_BYTES) 0) as [Hm|Hm].
  - rewrite debug_assert_true.
    2:{ unfold cannot_append, sc_len. rewrite Hv. destruct (Z.eqb_spec b 0); [done|].
        simpl. apply Z.eqb_eq. replace ((b - 1) mod LEVEL_BYTES) with (LEVEL_BYTES - 1); [done|].
        apply (Z.mod_unique _ _ (b / LEVEL_BYTES - 1)); [unfold LEVEL_BYTES; lia|].
        pose proof (Z.div_mod b LEVEL_BYTES ltac:(done)). lia. }
    rewrite done_bind, (ready_take 4 b r r4) by (done || lia). rewrite done_bind.
    rewrite Hm in Hin. rewrite (proj2 (Z.leb_le _ _)) by lia. cbn [assert_]. rewrite done_bind.
    cbn [put_block stored_bytes set_shortcut]. rewrite Hst, add64_ok by (unfold in_u64, u64_max; lia).
    rewrite done_bind, Hm. eexists. split; [reflexivity|]. split.
    + apply (wf_build b size); simpl; try done; try lia.
      * intros d Hd. rewrite lookup_insert_ne by lia. destruct (decide (d = 4%nat)) as [->|].
        -- by rewrite lookup_insert_eq.
        -- rewrite lookup_insert_ne by lia. apply (rd_done _ _ _ _ R4). lia.
      * rewrite lookup_insert_eq, Hm. do 2 f_equal.
      * intros e He. apply (rd_segs _ _ _ _ R4). lia.
      * split; [apply (rd_tree _ _ _ _ R4)|]. simpl. intros x Hx.
        destruct (proj2 (rd_tree _ _ _ _ R4) x Hx) as [Hsg Hbl]. split; [done|].
        by apply lookup_insert_is_Some'; right.
      * rewrite lookup_insert_eq. by eexists.
    + simpl. split; [done|]. split; [by rewrite lookup_insert_eq|]. intros x Hx Hne.
      rewrite lookup_insert_ne by done. by apply (rd_blocks _ _ _ _ R4).
  - rewrite Hst, add64_ok by (unfold in_u64, u64_max; lia). rewrite done_bind.
    assert (Hb0 : b <> 0) by (intros ->; by apply Hm).
    rewrite (proj2 (Z.eqb_neq _ _) Hb0) in Hv.
    pose proof (path_same 4 b ltac:(lia) Hm) as Hp. rewrite Hp in Hv.
    assert (Hoff : (b - 1) mod LEVEL_BYTES + 1 = b mod LEVEL_BYTES).
    { pose proof (Z.div_mod b LEVEL_BYTES ltac:(done)). pose proof (Z.mod_pos_bound b LEVEL_BYTES ltac:(done)).
      rewrite <-(Z.mod_unique (b - 1) LEVEL_BYTES (b / LEVEL_BYTES) (b mod LEVEL_BYTES - 1));
        unfold LEVEL_BYTES in *; lia. }
    rewrite Hoff in Hv. unfold reserve. cbn [set_stored shortcuts]. rewrite Hv.
    rewrite (proj2 (Z.leb_le _ _)) by lia. cbn [assert_]. rewrite !done_bind.
    eexists. split; [reflexivity|].
    pose proof (rd_open _ _ _ _ R4) as Ho. unfold open in Ho. rewrite (proj2 (Z.eqb_neq _ _)) in Ho by done.
    assert (Hbl : is_Some (blocks r4 !! path 5 b)).
    { rewrite <-Hp. apply (rd_tree _ _ _ _ R4). lia. }
    split.
    + apply (wf_build b size); simpl; try done; try lia.
      * intros d Hd. rewrite lookup_insert_ne by lia. destruct (decide (d = 4%nat)) as [->|]; [done|].
        apply (rd_done _ _ _ _ R4). lia.
      * by rewrite lookup_insert_eq.
      * intros e He. apply (rd_segs _ _ _ _ R4). lia.
      * apply (rd_tree _ _ _ _ R4).
    + simpl. split; [done|]. split.
      * rewrite <-Hp. apply (rd_blocks _ _ _ _ R4). lia.
      * intros x Hx _. by apply (rd_blocks _ _ _ _ R4).
Qed.

Lemma ldiff_block x : Z.ldiff x VAL_MASK = x / LEVEL_BYTES * LEVEL_BYTES.
Proof.
  change VAL_MASK with (Z.ones 13). rewrite Z.ldiff_ones_r, Z.shiftl_mul_pow2, Z.shiftr_div_pow2 by lia. done.
Qed.

(** The check of [append] that a range lies in one block. *)
Lemma crosses_spec b size :
  0 <= b -> 0 < size <= LEVEL_BYTES ->
  (1 <? size) && negb (Z.ldiff b VAL_MASK =? Z.ldiff (b + size - 1) VAL_MASK) =
  negb (b mod LEVEL_BYTES + size <=? LEVEL_BYTES).
Proof.
  intros Hb Hs. rewrite !ldiff_block. pose proof (Z.mod_pos_bound b LEVEL_BYTES ltac:(done)) as Hm.
  destruct (Z.leb_spec (b mod LEVEL_BYTES + size) LEVEL_BYTES) as [Hin|Hout]; simpl.
  - replace (b + size - 1) with (b + (size - 1)) by lia. rewrite same_block by lia.
    rewrite Z.eqb_refl. apply andb_false_r.
  - rewrite (proj2 (Z.ltb_lt 1 size)) by lia. simpl. apply negb_true_iff, Z.eqb_neq.
    assert (E : (b + size - 1) / LEVEL_BYTES = b / LEVEL_BYTES + 1); [|unfold LEVEL_BYTES in *; lia].
    symmetry. apply (Z.div_unique _ _ _ (b mod LEVEL_BYTES + size - 1 - LEVEL_BYTES)); [lia|].
    pose proof (Z.div_mod b LEVEL_BYTES ltac:(done)). lia.
Qed.

(** Where the next range of [size] bytes starts. *)
Definition start_of (size : Z) (r : RootTable) : Z :=
  let b := stored_bytes r in
  if b mod LEVEL_BYTES + size <=? LEVEL_BYTES then b else (b / LEVEL_BYTES + 1) * LEVEL_BYTES.

Record Appended (addr size : Z) (r r' : RootTable) : Prop := {
  ap_wf : WF r';
  ap_stored : stored_bytes r' = start_of size r + size;
  ap_block : blocks r' !! path 5 (start_of size r) =
    (if start_of size r mod LEVEL_BYTES =? 0 then Some addr else blocks r !! path 5 (start_of size r));
  ap_others : forall x, 0 <= x < stored_bytes r -> path 5 x <> path 5 (start_of size r) ->
    blocks r' !! path 5 x = blocks r !! path 5 x;
}.

(** An append that stays in the current block, whatever [fill] is. *)
Lemma append_stays `{Build} fill addr size r :
  WF r -> 0 < size <= LEVEL_BYTES -> stored_bytes r + size < 2 ^ 63 ->
  stored_bytes r mod LEVEL_BYTES + size <= LEVEL_BYTES ->
  exists r', append_with fill addr size r =
      Done (r', (path 5 (stored_bytes r), stored_bytes r mod LEVEL_BYTES), stored_bytes r,
            stored_bytes r mod LEVEL_BYTES =? 0) /\ Appended addr size r r'.
Proof.
  intros HW Hs Hlim Hin. pose proof (wf_range _ HW) as Hr.
  assert (Es : start_of size r = stored_bytes r).
  { unfold start_of. by rewrite (proj2 (Z.leb_le _ _) Hin). }
  unfold append_with. rewrite (proj2 (Z.leb_le _ _)) by lia. cbn [assert_]. rewrite done_bind.
  rewrite add64_ok, done_bind by (unfold in_u64, u64_max; lia).
  rewrite sub64_ok, done_bind by (unfold in_u64, u64_max; lia).
  rewrite crosses_spec, (proj2 (Z.leb_le _ _) Hin) by lia. cbn [negb]. rewrite done_bind.
  destruct (append_in_spec addr size r HW ltac:(lia) Hin Hlim) as (r' & -> & HW' & Hst & Hbl & Hot).
  rewrite done_bind. exists r'. split; [done|]. constructor; rewrite ?Es; done.
Qed.

Lemma append_spec `{Build} addr size r :
  WF r -> 0 < size <= LEVEL_BYTES -> stored_bytes r + LEVEL_BYTES + size < 2 ^ 63 ->
  exists r', append addr size r =
      Done (r', (path 5 (start_of size r), start_of size r mod LEVEL_BYTES), start_of size r,
            start_of size r mod LEVEL_BYTES =? 0) /\ Appended addr size r r'.
Proof.
  intros HW Hs Hlim. pose proof (wf_range _ HW) as Hr. set (b := stored_bytes r) in *.
  pose proof (Z.mod_pos_bound b LEVEL_BYTES ltac:(done)) as Hmb. pose proof (Z.div_mod b LEVEL_BYTES ltac:(done)) as Hdm.
  destruct (Z.le_gt_cases (b mod LEVEL_BYTES + size) LEVEL_BYTES) as [Hin|Hout].
  { destruct (append_stays (fun rem r => '(r, _, _, _) ← append_with (fun _ _ => Panic) addr rem r; Done r)
      addr size r HW Hs ltac:(unfold LEVEL_BYTES in *; lia) Hin) as (r' & E & HA).
    exists r'. unfold append. rewrite E. unfold start_of. fold b. by rewrite (proj2 (Z.leb_le _ _) Hin). }
  assert (Es : start_of size r = (b / LEVEL_BYTES + 1) * LEVEL_BYTES).
  { unfold start_of. fold b. by rewrite (proj2 (Z.leb_gt _ _) Hout). }
  set (st := (b / LEVEL_BYTES + 1) * LEVEL_BYTES) in *.
  assert (Hst : b < st <= b + LEVEL_BYTES) by (unfold st, LEVEL_BYTES in *; lia).
  assert (Hsm : st mod LEVEL_BYTES = 0) by (apply Z.mod_mul; done).
  assert (Hrem : b mod LEVEL_BYTES + (st - b) = LEVEL_BYTES) by (unfold st; lia).
  destruct (append_stays (fun _ _ => Panic) addr (st - b) r HW ltac:(lia) ltac:(fold b; lia) ltac:(fold b; lia))
    as (r1 & E1 & HA1).
  assert (Es1 : start_of (st - b) r = b).
  { unfold start_of. fold b. by rewrite (proj2 (Z.leb_le _ _)) by lia. }
  destruct HA1 as [HW1 Hst1 Hbl1 Hot1]. rewrite Es1 in *. replace (b + (st - b)) with st in Hst1 by lia.
  assert (Hb0 : b mod LEVEL_BYTES <> 0) by lia. rewrite (proj2 (Z.eqb_neq _ _) Hb0) in Hbl1.
  unfold append, append_with at 1. rewrite (proj2 (Z.leb_le _ _)) by lia. cbn [assert_]. rewrite done_bind.
  fold b. rewrite add64_ok, done_bind by (unfold in_u64, u64_max; lia).
  rewrite sub64_ok, done_bind by (unfold in_u64, u64_max; lia).
  rewrite crosses_spec, (proj2 (Z.leb_gt _ _) Hout) by lia. cbn [negb].
  assert (Hru : round_up_to_next b LEVEL_BYTES = Done st).
  { unfold round_up_to_next. rewrite add64_ok, done_bind by (unfold in_u64, u64_max, LEVEL_BYTES in *; lia).
    rewrite sub64_ok, done_bind by (unfold in_u64, u64_max, LEVEL_BYTES in *; lia). f_equal.
    change (LEVEL_BYTES - 1) with VAL_MASK. rewrite ldiff_block. unfold st. f_equal.
    symmetry. apply (Z.div_unique _ _ _ (b mod LEVEL_BYTES - 1)); unfold LEVEL_BYTES in *; lia. }
  rewrite Hru, done_bind, sub64_ok, done_bind by (unfold in_u64, u64_max; lia).
  rewrite E1, !done_bind.
  destruct (append_in_spec addr size r1 HW1 ltac:(lia) ltac:(rewrite Hst1, Hsm; lia) ltac:(rewrite Hst1; lia))
    as (r2 & E2 & HW2 & Hst2 & Hbl2 & Hot2).
  rewrite Hst1 in *. rewrite E2, done_bind. exists r2. rewrite Es. split; [done|]. constructor; rewrite ?Es.
  - done.
  - done.
  - rewrite Hbl2, Hsm. done.
  - intros x Hx Hne. rewrite Hot2 by (done || lia).
    destruct (decide (path 5 x = path 5 b)) as [Ep|]; [by rewrite Ep, Hbl1|by apply Hot1].
Qed.

End BT.

(** ** The allocator with the memory *)

Record Alloc := mkAlloc { table : BT.RootTable; mem : gmap Z Z; used : Z }.

(** The system allocator hands out addresses from [BASE] on; new memory is zero. *)
Definition BASE : Z := 4096.
Definition next_addr (a : Alloc) : Z := BASE + used a.

Definition alloc_append `{Build} (a : Alloc) (size : Z) : outcome (Alloc * (Z * Z)) :=
  '(r, (p, off), loc, fresh) ← BT.append (next_addr a) size (table a);
  addr ← unwrap (BT.blocks r !! p);
  Done (mkAlloc r (mem a) (if (fresh : bool) then used a + BT.LEVEL_BYTES else used a), (addr + off, loc)).

Definition alloc_append_at `{Build} (a : Alloc) (loc size : Z) : outcome (Alloc * Z) :=
  '(r, (p, off), fresh) ← BT.insert (next_addr a) loc size (table a);
  addr ← unwrap (BT.blocks r !! p);
  Done (mkAlloc r (mem a) (if (fresh : bool) then used a + BT.LEVEL_BYTES else used a), addr + off).

Definition alloc_box (a : Alloc) (n : Z) : Alloc * Z :=
  (mkAlloc (table a) (mem a) (used a + n + n mod 2), next_addr a).

Fixpoint write_mem (p : Z) (bs : list Z) (m : gmap Z Z) : gmap Z Z :=
  match bs with
  | [] => m
  | b :: bs => write_mem (p + 1) bs (<[p := b]> m)
  end.

Definition read_mem (m : gmap Z Z) (i : Z) : Z := default 0 (m !! i).

#[export] Instance alloc_ops `{Build} : ByteTrie Alloc := {|
  bt_new := mkAlloc BT.new ∅ 0;
  bt_append := alloc_append;
  bt_append_at := alloc_append_at;
  bt_box := alloc_box;
  bt_write := fun a p bs => mkAlloc (table a) (write_mem p bs (mem a)) (used a);
  bt_bytes := fun a p => read_mem (mem a) <$> seqZ p (next_addr a - p);
  bt_free_first := fun a n => mkAlloc (BT.free_first n (table a)) (mem a) (used a);
  bt_free_box := fun a _ _ => a;
  bt_free_rc := fun a _ _ => a;
|}.

(** Memory is handed out up to [next_addr]. *)
Definition ceil (b : Z) : Z := (b + BT.LEVEL_BYTES - 1) / BT.LEVEL_BYTES * BT.LEVEL_BYTES.

Definition apart (q m q' m' : Z) : Prop := q + m <= q' \/ q' + m' <= q.

(** The free rest of the current block, and the ranges that are reserved. *)
Record AllocOK (a : Alloc) (O : list (Z * Z)) : Prop := {
  ao_wf : BT.WF (table a);
  ao_used : ceil (BT.stored_bytes (table a)) <= used a;
  ao_even : used a mod 2 = 0 /\ BT.stored_bytes (table a) mod 2 = 0;
  ao_ranges : forall q m, (q, m) ∈ O -> BASE <= q /\ 0 < m /\ q + m <= next_addr a;
  ao_apart : forall q m q' m', (q, m) ∈ O -> (q', m') ∈ O -> (q, m) <> (q', m') -> apart q m q' m';
  ao_current : BT.stored_bytes (table a) > 0 -> exists base,
    let b := BT.stored_bytes (table a) in
    BT.blocks (table a) !! BT.path 5 (b - 1) = Some base /\ base mod 2 = 0 /\
    BASE <= base /\ base + BT.LEVEL_BYTES <= next_addr a /\
    forall q m, (q, m) ∈ O ->
      apart q m (base + ((b - 1) mod BT.LEVEL_BYTES + 1)) (BT.LEVEL_BYTES - ((b - 1) mod BT.LEVEL_BYTES + 1));
}.

#[export] Instance alloc_view : ByteTrieView Alloc := {| bt_ok := AllocOK; bt_used := used |}.

(** *** Bytes of a range *)

Lemma range_bytes_mem `{Build} a q m :
  0 <= m -> q + m <= next_addr a -> range_bytes a q m = read_mem (mem a) <$> seqZ q m.
Proof.
  intros Hm Hq. unfold range_bytes. cbn [bt_bytes alloc_ops].
  replace (next_addr a - q) with (m + (next_addr a - q - m)) by lia.
  rewrite seqZ_app, fmap_app, take_app_length' by (rewrite ?length_fmap, ?length_seqZ; lia). done.
Qed.

Lemma write_mem_other bs : forall p m i, i < p \/ p + zlen bs <= i -> write_mem p bs m !! i = m !! i.
Proof.
  unfold zlen. induction bs as [|b bs IH]; intros p m i Hi; [done|]. cbn [write_mem length] in *.
  rewrite IH by lia. apply lookup_insert_ne. lia.
Qed.

Lemma read_write_mem bs : forall p m, read_mem (write_mem p bs m) <$> seqZ p (zlen bs) = bs.
Proof.
  induction bs as [|b bs IH]; intros p m; [done|].
  assert (Hz : zlen (b :: bs) = Z.succ (zlen bs)) by (unfold zlen; cbn [length]; lia).
  rewrite Hz, seqZ_cons by (unfold zlen; lia). rewrite Z.pred_succ. cbn [fmap list_fmap write_mem].
  f_equal.
  - unfold read_mem. rewrite write_mem_other by lia. by rewrite lookup_insert_eq.
  - replace (Z.succ p) with (p + 1) by lia. apply IH.
Qed.

Lemma alloc_write_ok `{Build} a O p n bs :
  AllocOK a O -> (p, n) ∈ O -> zlen bs <= n ->
  AllocOK (bt_write a p bs) O /\ range_bytes (bt_write a p bs) p (zlen bs) = bs /\
  forall q m, (q, m) ∈ O -> q <> p -> range_bytes (bt_write a p bs) q m = range_bytes a q m.
Proof.
  intros HO Hp Hl. pose proof (zlen_nonneg bs) as Hz. destruct (ao_ranges _ _ HO p n Hp) as (Hb & Hn & He).
  split; [by destruct HO|]. split.
  - rewrite range_bytes_mem by (cbn; unfold next_addr in *; cbn; lia). cbn. apply read_write_mem.
  - intros q m Hq Hne. destruct (ao_ranges _ _ HO q m Hq) as (Hqb & Hqn & Hqe).
    rewrite !range_bytes_mem by (cbn; unfold next_addr in *; cbn; lia). cbn.
    apply list_fmap_ext. intros i x Hx. apply lookup_seqZ in Hx as [-> Hi]. unfold read_mem.
    rewrite write_mem_other; [done|].
    destruct (ao_apart _ _ HO p n q m Hp Hq) as [?|?]; [congruence|lia|lia].
Qed.

(** *** Reserving *)

(** Where an append starts: at a new block, or in the current one. *)
Lemma start_cases size r :
  BT.WF r -> 0 < size <= BT.LEVEL_BYTES ->
  let b := BT.stored_bytes r in let st := BT.start_of size r in
  b <= st /\ st mod BT.LEVEL_BYTES + size <= BT.LEVEL_BYTES /\
  ((st mod BT.LEVEL_BYTES = 0 /\ st = ceil b /\ ceil (st + size) = st + BT.LEVEL_BYTES) \/
   (st mod BT.LEVEL_BYTES <> 0 /\ st = b /\ ceil (b + size) = ceil b)).
Proof.
  intros HW Hs b st. pose proof (BT.wf_range _ HW) as Hr. fold b in Hr.
  pose proof (Z.mod_pos_bound b BT.LEVEL_BYTES ltac:(done)) as Hm.
  pose proof (Z.div_mod b BT.LEVEL_BYTES ltac:(done)) as Hd.
  assert (Hceil : forall k i, 0 < i <= BT.LEVEL_BYTES -> ceil (k * BT.LEVEL_BYTES + i) = (k + 1) * BT.LEVEL_BYTES).
  { intros k i Hi. unfold ceil. f_equal. symmetry.
    apply (Z.div_unique _ _ _ (i - 1)); unfold BT.LEVEL_BYTES in *; lia. }
  assert (Hceil0 : forall k, ceil (k * BT.LEVEL_BYTES) = k * BT.LEVEL_BYTES).
  { intros k. unfold ceil. f_equal. symmetry.
    apply (Z.div_unique _ _ _ (BT.LEVEL_BYTES - 1)); unfold BT.LEVEL_BYTES in *; lia. }
  unfold st, BT.start_of. fold b. destruct (Z.leb_spec (b mod BT.LEVEL_BYTES + size) BT.LEVEL_BYTES) as [Hin|Hout].
  - split; [lia|]. split; [lia|]. destruct (Z.eq_dec (b mod BT.LEVEL_BYTES) 0) as [Hz|Hz].
    + left. split; [done|]. replace b with (b / BT.LEVEL_BYTES * BT.LEVEL_BYTES) by lia.
      rewrite Hceil0, Hceil by lia. split; lia.
    + right. split; [done|]. split; [done|].
      replace b with (b / BT.LEVEL_BYTES * BT.LEVEL_BYTES + b mod BT.LEVEL_BYTES) at 2 by lia.
      replace (b + size) with (b / BT.LEVEL_BYTES * BT.LEVEL_BYTES + (b mod BT.LEVEL_BYTES + size)) by lia.
      rewrite !Hceil by lia. done.
  - rewrite Z.mod_mul by done. split; [unfold BT.LEVEL_BYTES in *; lia|]. split; [lia|]. left. split; [done|].
    rewrite Hceil by lia. split; [|lia].
    replace b with (b / BT.LEVEL_BYTES * BT.LEVEL_BYTES + b mod BT.LEVEL_BYTES) at 2 by lia.
    rewrite Hceil by lia. done.
Qed.

Lemma even_land p : p mod 2 = 0 <-> Z.land p 1 = 0.
Proof. change 1 with (Z.ones 1) at 1. rewrite Z.land_ones by lia. done. Qed.

Lemma block_range b m : 0 < m -> b mod BT.LEVEL_BYTES + m <= BT.LEVEL_BYTES ->
  BT.path 5 (b + m - 1) = BT.path 5 b /\ (b + m - 1) mod BT.LEVEL_BYTES + 1 = b mod BT.LEVEL_BYTES + m.
Proof.
  intros Hm Hin. replace (b + m - 1) with (b + (m - 1)) by lia. split.
  - apply BT.path_block; [lia|]. apply BT.same_block; lia.
  - rewrite BT.same_block_mod by lia. lia.
Qed.

(** The address of the range: that of a new block, or of the rest of the current one. *)
Lemma alloc_append_place `{Build} a O n :
  AllocOK a O -> 0 < n <= BT.LEVEL_BYTES -> n mod 2 = 0 -> used a + BT.LEVEL_BYTES <= BYTES_LIMIT ->
  exists a' base, let st := BT.start_of n (table a) in
    alloc_append a n = Done (a', (base + st mod BT.LEVEL_BYTES, st)) /\
    BT.Appended (next_addr a) n (table a) (table a') /\ mem a' = mem a /\
    used a' = (if st mod BT.LEVEL_BYTES =? 0 then used a + BT.LEVEL_BYTES else used a) /\
    BT.blocks (table a') !! BT.path 5 st = Some base /\ base mod 2 = 0 /\ BASE <= base /\
    base + BT.LEVEL_BYTES <= next_addr a' /\
    forall q m, (q, m) ∈ O -> apart q m (base + st mod BT.LEVEL_BYTES) (BT.LEVEL_BYTES - st mod BT.LEVEL_BYTES).
Proof.
  intros HO Hn Hne Hlim. pose proof (ao_wf _ _ HO) as HW. set (r := table a) in *.
  destruct (start_cases n r HW Hn) as (Hle & Hfit & Hcase). pose proof (ao_used _ _ HO) as Hu. fold r in Hu.
  assert (Hb : BT.stored_bytes r <= used a).
  { unfold ceil in Hu. pose proof (Z.div_mod (BT.stored_bytes r + BT.LEVEL_BYTES - 1) BT.LEVEL_BYTES ltac:(done)).
    pose proof (Z.mod_pos_bound (BT.stored_bytes r + BT.LEVEL_BYTES - 1) BT.LEVEL_BYTES ltac:(done)).
    unfold BT.LEVEL_BYTES in *. lia. }
  destruct (BT.append_spec (next_addr a) n r HW Hn) as (r' & E & HA).
  { unfold BYTES_LIMIT, BT.LEVEL_BYTES in *. lia. }
  unfold alloc_append. fold r. rewrite E, done_bind. pose proof (BT.ap_block _ _ _ _ HA) as Hbl.
  pose proof (ao_even _ _ HO) as [Hev _].
  set (st := BT.start_of n r) in *. destruct Hcase as [(Hz & Hst & _)|(Hz & Hst & _)].
  - rewrite Hz in *. change (0 =? 0) with true in *. cbv iota in Hbl. rewrite Hbl. cbn [unwrap]. rewrite done_bind.
    eexists _, (next_addr a). split; [reflexivity|]. cbn [table mem used]. split; [done|]. split; [done|]. split; [done|].
    split; [done|]. unfold next_addr, BASE in *. cbn [used].
    split; [rewrite Z.add_mod, Hev by lia; done|]. split; [pose proof (BT.wf_range _ HW); lia|]. split; [lia|].
    intros q m Hq. destruct (ao_ranges _ _ HO q m Hq) as (_ & _ & He). unfold next_addr, BASE in He. left. lia.
  - assert (Hb0 : BT.stored_bytes r > 0).
    { pose proof (BT.wf_range _ HW). destruct (Z.eq_dec (BT.stored_bytes r) 0) as [Eb|]; [|lia].
      rewrite Hst, Eb in Hz. by rewrite Z.mod_0_l in Hz. }
    destruct (ao_current _ _ HO Hb0) as (base & Hbase & Hbe & Hlo & Hhi & Hap). fold r in Hbase, Hap.
    rewrite (proj2 (Z.eqb_neq _ _) Hz) in *.
    assert (Hp : BT.path 5 (BT.stored_bytes r - 1) = BT.path 5 st).
    { rewrite Hst. apply BT.path_same; [lia|]. by rewrite Hst in Hz. }
    assert (Ho : (BT.stored_bytes r - 1) mod BT.LEVEL_BYTES + 1 = st mod BT.LEVEL_BYTES).
    { rewrite Hst. pose proof (Z.mod_pos_bound (BT.stored_bytes r) BT.LEVEL_BYTES ltac:(done)).
      pose proof (Z.div_mod (BT.stored_bytes r) BT.LEVEL_BYTES ltac:(done)). rewrite Hst in Hz.
      rewrite <-(Z.mod_unique (BT.stored_bytes r - 1) BT.LEVEL_BYTES (BT.stored_bytes r / BT.LEVEL_BYTES)
        (BT.stored_bytes r mod BT.LEVEL_BYTES - 1)); unfold BT.LEVEL_BYTES in *; lia. }
    rewrite Hp in Hbase. rewrite Ho in Hap. rewrite Hbase in Hbl. rewrite Hbl. cbn [unwrap]. rewrite done_bind.
    eexists _, base. split; [reflexivity|]. cbn [table mem used]. unfold next_addr in *. cbn [used]. by split_and!.
Qed.

Lemma alloc_append_ok `{Build} a O n :
  AllocOK a O -> 0 < n <= MAX_IN_BLOCK_SIZE -> Z.land n 1 = 0 -> used a + LEVEL_BYTES <= BYTES_LIMIT ->
  exists a' p loc, alloc_append a n = Done (a', (p, loc)) /\ reserved a O a' p n /\
    used a <= used a' <= used a + LEVEL_BYTES /\ (a = bt_new -> loc = 0).
Proof.
  intros HO Hn Hev%even_land Hlim. change LEVEL_BYTES with BT.LEVEL_BYTES in *.
  assert (Hn' : 0 < n <= BT.LEVEL_BYTES) by (split; [lia|]; etrans; [apply Hn|]; done).
  pose proof (ao_wf _ _ HO) as HW. destruct (start_cases n (table a) HW Hn') as (Hle & Hfit & Hcase).
  destruct (alloc_append_place a O n HO Hn' Hev Hlim) as (a' & base & E & HA & Hmem & Hused & Hbl & Hbe & Hlo & Hhi & Hap).
  set (st := BT.start_of n (table a)) in *. set (off := st mod BT.LEVEL_BYTES) in *.
  assert (Hoff : 0 <= off < BT.LEVEL_BYTES) by (by apply Z.mod_pos_bound).
  pose proof (ao_even _ _ HO) as [Heu Hes]. destruct HA as [HW' Hst' _ Hoth].
  assert (Hste : st mod 2 = 0).
  { destruct Hcase as [(_ & -> & _)|(_ & -> & _)]; [|done]. unfold ceil, BT.LEVEL_BYTES.
    rewrite Z.mul_mod by lia. change (8192 mod 2) with 0. by rewrite Z.mul_0_r. }
  assert (Hoe : off mod 2 = 0).
  { unfold off. rewrite Z.mod_mod_divide; [done|by exists 4096]. }
  assert (Hu : used a <= used a' <= used a + BT.LEVEL_BYTES).
  { rewrite Hused. unfold BT.LEVEL_BYTES. destruct (off =? 0); lia. }
  exists a', (base + off), st. split; [done|]. split; [|split; [done|]].
  2:{ intros ->. destruct Hcase as [(_ & Hs & _)|(_ & Hs & _)]; rewrite Hs; by vm_compute. }
  assert (Hnew : forall q m, (q, m) ∈ O -> apart q m (base + off) n).
  { intros q m Hq. destruct (Hap q m Hq); [left|right]; lia. }
  split; [|split; [|split]].
  - constructor.
    + done.
    + rewrite Hst', Hused. pose proof (ao_used _ _ HO). fold off.
      destruct Hcase as [(Hz & Hs & Hc)|(Hz & Hs & Hc)]; fold off in Hz; fold st.
      * rewrite Hz, Hc, Hs. simpl. lia.
      * rewrite (proj2 (Z.eqb_neq _ _) Hz), Hs, Hc. done.
    + rewrite Hst', Hused. fold st. split.
      * destruct (off =? 0); [|done]. rewrite Z.add_mod, Heu by lia. done.
      * rewrite Z.add_mod, Hste, Hev by lia. done.
    + intros q m [[= -> ->]|Hq]%elem_of_cons; [unfold next_addr in *; lia|].
      destruct (ao_ranges _ _ HO q m Hq) as (? & ? & ?). unfold next_addr in *. lia.
    + intros q m q' m' [[= -> ->]|Hq]%elem_of_cons [[= -> ->]|Hq']%elem_of_cons Hne; [done| | |].
      * destruct (Hnew q' m' Hq'); [right|left]; lia.
      * by apply Hnew.
      * by apply (ao_apart _ _ HO).
    + intros _. exists base. cbv zeta. rewrite Hst'. fold st.
      destruct (block_range st n ltac:(lia) Hfit) as [Hp Hm]. rewrite Hp, Hm. fold off.
      split_and!; [done..|]. intros q m [[= -> ->]|Hq]%elem_of_cons; [left; lia|].
      destruct (Hap q m Hq); [left|right]; lia.
  - split; [apply even_land; rewrite Z.add_mod, Hbe, Hoe by lia; done|]. unfold BASE in *. lia.
  - unfold next_addr, rc_base, BYTES_LIMIT, BASE, BT.LEVEL_BYTES in *. lia.
  - intros q m Hq. destruct (ao_ranges _ _ HO q m Hq) as (? & Hm & ?). split.
    + intros ->. destruct (Hnew _ _ Hq); lia.
    + rewrite !range_bytes_mem by (unfold next_addr in *; lia). by rewrite Hmem.
Qed.

Lemma alloc_box_ok `{Build} a O n :
  AllocOK a O -> 0 < n -> Z.land n 1 = 0 -> used a + n <= BYTES_LIMIT ->
  exists a' p, alloc_box a n = (a', p) /\ reserved a O a' p n /\ used a <= used a' <= used a + n.
Proof.
  intros HO Hn Hev%even_land Hlim. unfold alloc_box. rewrite Hev, Z.add_0_r.
  eexists _, _. split; [reflexivity|]. cbn [used]. split; [|lia].
  pose proof (ao_even _ _ HO) as [Heu Hes]. pose proof (BT.wf_range _ (ao_wf _ _ HO)) as Hr.
  pose proof (ao_used _ _ HO) as Hu.
  assert (Hu0 : 0 <= used a).
  { unfold ceil in Hu. etrans; [|exact Hu]. apply Z.mul_nonneg_nonneg; [apply Z.div_pos|];
      unfold BT.LEVEL_BYTES; lia. }
  split; [|split; [|split]].
  - constructor; cbn [table used].
    + apply HO.
    + lia.
    + split; [rewrite Z.add_mod, Heu, Hev by lia; done|done].
    + intros q m [[= -> ->]|Hq]%elem_of_cons; [unfold next_addr, BASE; cbn; lia|].
      destruct (ao_ranges _ _ HO q m Hq) as (? & ? & ?). unfold next_addr in *. cbn. lia.
    + intros q m q' m' [[= -> ->]|Hq]%elem_of_cons [[= -> ->]|Hq']%elem_of_cons Hne; [done| | |by apply (ao_apart _ _ HO)].
      * destruct (ao_ranges _ _ HO q' m' Hq') as (? & ? & ?). right. lia.
      * destruct (ao_ranges _ _ HO q m Hq) as (? & ? & ?). left. lia.
    + intros Hb. destruct (ao_current _ _ HO Hb) as (base & Hbl & Hbe & Hlo & Hhi & Hap).
      exists base. cbv zeta. unfold next_addr in *. cbn [used].
      split_and!; [done..|lia|]. intros q m [[= -> ->]|Hq]%elem_of_cons; [right; lia|by apply Hap].
  - unfold even_ptr, next_addr, BASE. split; [apply even_land; rewrite Z.add_mod, Heu by lia; done|lia].
  - unfold next_addr, rc_base, BYTES_LIMIT, BASE in *. lia.
  - intros q m Hq. destruct (ao_ranges _ _ HO q m Hq) as (? & Hm & ?). split.
    + unfold next_addr in *. lia.
    + rewrite !range_bytes_mem by (unfold next_addr in *; cbn; lia). done.
Qed.

#[export] Instance alloc_laws `{Build} : ByteTrieLaws Alloc.
Proof.
  constructor.
  - constructor; cbn.
    + apply BT.new_wf.
    + by vm_compute.
    + done.
    + intros q m Hq. by apply not_elem_of_nil in Hq.
    + intros q m q' m' Hq. by apply not_elem_of_nil in Hq.
    + lia.
  - done.
  - intros a O n. apply alloc_append_ok.
  - intros a O n. apply alloc_box_ok.
  - intros a O p n bs HO Hp Hl. destruct (alloc_write_ok a O p n bs HO Hp Hl) as (? & ? & ?). done.
Qed.

(** ** Locations *)

Lemma get_stored size r x :
  BT.WF r -> 0 <= x < BT.stored_bytes r -> x mod BT.LEVEL_BYTES + size <= BT.LEVEL_BYTES ->
  BT.get x size r = Done (Some (BT.path 5 x, x mod BT.LEVEL_BYTES)).
Proof.
  intros HW Hx Hs. destruct (proj2 (BT.wf_tree _ HW) x Hx) as [Hseg Hbl].
  assert (Hl : forall d, (d <= 4)%nat -> BT.get_level (BT.path d x) x d r = Some (BT.path (S d) x)).
  { intros d Hd. unfold BT.get_level. rewrite bool_decide_true by (by apply Hseg).
    by rewrite BT.index_digit, BT.path_S. }
  unfold BT.get. change (@nil Z) with (BT.path 0 x).
  do 5 (rewrite Hl by lia; cbn [mbind option_bind]). destruct Hbl as [addr ->]. cbn [mbind option_bind].
  rewrite BT.index_val, (proj2 (Z.leb_le _ _)) by lia. done.
Qed.

Lemma insert_stored `{Build} addr size r x :
  BT.WF r -> 0 <= x -> 0 < size -> x + size <= BT.stored_bytes r -> x mod BT.LEVEL_BYTES + size <= BT.LEVEL_BYTES ->
  BT.insert addr x size r = Done (r, (BT.path 5 x, x mod BT.LEVEL_BYTES), false).
Proof.
  intros HW Hx0 Hs0 Hx Hs. destruct (proj2 (BT.wf_tree _ HW) x ltac:(lia)) as [Hseg Hbl].
  pose proof (BT.wf_range _ HW) as Hr.
  assert (Hl : forall d, (d <= 4)%nat -> BT.insert_level (BT.path d x) x d r = (r, BT.path (S d) x)).
  { intros d Hd. unfold BT.insert_level. rewrite bool_decide_true by (by apply Hseg).
    by rewrite BT.index_digit, BT.path_S. }
  unfold BT.insert. rewrite add64_ok, done_bind by (unfold in_u64, u64_max; lia).
  rewrite (proj2 (Z.ltb_ge _ _)) by lia. change (@nil Z) with (BT.path 0 x).
  rewrite !Hl by lia. destruct Hbl as [b Hb]. rewrite Hb. rewrite bool_decide_false by done.
  rewrite BT.index_val, (proj2 (Z.leb_le _ _)) by lia. done.
Qed.

(** A run of appends: the places and locations handed out. *)
Fixpoint appends `{Build} (addrs : list Z) (sizes : list Z) (r : BT.RootTable)
  : outcome (BT.RootTable * list (Z * (list Z * Z))) :=
  match sizes, addrs with
  | size :: sizes, addr :: addrs =>
      '(r, place, loc, _) ← BT.append addr size r;
      '(r, rest) ← appends addrs sizes r;
      Done (r, (loc, place) :: rest)
  | _, _ => Done (r, [])
  end.

(** The ranges [(loc, size)] follow each other from [from] on, each in one block. *)
Fixpoint laid_out (from : Z) (ranges : list (Z * Z)) : Prop :=
  match ranges with
  | [] => True
  | (loc, size) :: ranges =>
      from <= loc /\ loc mod BT.LEVEL_BYTES + size <= BT.LEVEL_BYTES /\ laid_out (loc + size) ranges
  end.

Lemma laid_out_in ranges : forall from loc size,
  laid_out from ranges -> Forall (fun ls => 0 < ls.2) ranges -> (loc, size) ∈ ranges ->
  from <= loc /\ loc mod BT.LEVEL_BYTES + size <= BT.LEVEL_BYTES.
Proof.
  induction ranges as [|[l s] ranges IH]; intros from loc size Hl Hf Hin; [by apply not_elem_of_nil in Hin|].
  destruct Hl as (H1 & H2 & H3). apply Forall_cons in Hf as [Hs Hf]. simpl in Hs.
  apply elem_of_cons in Hin as [[= -> ->]|Hin]; [done|].
  destruct (IH _ _ _ H3 Hf Hin). split; [lia|done].
Qed.

Lemma appends_spec `{Build} sizes : forall addrs r,
  BT.WF r -> length addrs = length sizes -> Forall (fun size => 0 < size <= BT.LEVEL_BYTES) sizes ->
  BT.stored_bytes r + Z.of_nat (length sizes) * (2 * BT.LEVEL_BYTES) < 2 ^ 63 ->
  exists r' out, appends addrs sizes r = Done (r', out) /\ BT.WF r' /\
    length out = length sizes /\ laid_out (BT.stored_bytes r) (zip out.*1 sizes) /\
    BT.stored_bytes r <= BT.stored_bytes r' /\
    Forall (fun ls => ls.1 + ls.2 <= BT.stored_bytes r') (zip out.*1 sizes) /\
    Forall (fun lp => lp.2 = (BT.path 5 lp.1, lp.1 mod BT.LEVEL_BYTES)) out.
Proof.
  induction sizes as [|size sizes IH]; intros addrs r HW Hla Hf Hlim; destruct addrs as [|addr addrs]; try done.
  { exists r, []. by split_and!. }
  apply Forall_cons in Hf as [Hs Hf]. cbn [length] in Hlim.
  destruct (start_cases size r HW Hs) as (Hle & Hfit & Hcase).
  destruct (BT.append_spec addr size r HW Hs) as (r1 & E & [HW1 Hst1 _ _]).
  { unfold BT.LEVEL_BYTES in *. lia. }
  assert (Hsto : BT.start_of size r <= BT.stored_bytes r + BT.LEVEL_BYTES).
  { unfold BT.start_of in *. pose proof (Z.div_mod (BT.stored_bytes r) BT.LEVEL_BYTES ltac:(done)).
    pose proof (Z.mod_pos_bound (BT.stored_bytes r) BT.LEVEL_BYTES ltac:(done)).
    destruct (_ <=? _); unfold BT.LEVEL_BYTES in *; lia. }
  destruct (IH addrs r1 HW1) as (r' & out & E' & HW' & Hlo & Hlay & Hst & Hend & Hpl).
  { simpl in Hla. lia. }
  { done. }
  { rewrite Hst1. unfold BT.LEVEL_BYTES in *. lia. }
  cbn [appends]. rewrite E, done_bind, E', done_bind. eexists _, _. split; [reflexivity|].
  cbn [fmap list_fmap zip_with fst]. split_and!; [done|simpl; lia| |rewrite Hst1 in Hst; lia| |].
  - split; [done|]. split; [done|]. by rewrite <-Hst1.
  - constructor; [simpl; lia|done].
  - by constructor.
Qed.

(** C26.  Where a location leads: after any sequence of appends from an empty allocator, the
    ranges lie one after the other, each within a block, and walking the tree to the location
    of one of them ([get], and [append_at] of a replica) ends at the very bytes the append
    returned, without a change to the tree. *)
Theorem byte_trie_locations `{Build} (addrs sizes : list Z) :
  length addrs = length sizes -> Forall (fun size => 0 < size <= BT.LEVEL_BYTES) sizes ->
  Z.of_nat (length sizes) * (2 * BT.LEVEL_BYTES) < 2 ^ 63 ->
  exists r out, appends addrs sizes BT.new = Done (r, out) /\ length out = length sizes /\
    laid_out 0 (zip out.*1 sizes) /\
    forall i loc place size, out !! i = Some (loc, place) -> sizes !! i = Some size ->
      BT.get loc size r = Done (Some place) /\
      forall addr, BT.insert addr loc size r = Done (r, place, false).
Proof.
  intros Hla Hf Hlim.
  destruct (appends_spec sizes addrs BT.new BT.new_wf Hla Hf) as (r & out & E & HW & Hlo & Hlay & _ & Hend & Hpl); [done|].
  exists r, out. split_and!; [done..|]. intros i loc place size Ho Hsz.
  assert (Hin : (loc, size) ∈ zip out.*1 sizes).
  { apply (list_elem_of_lookup_2 _ i). apply lookup_zip_with_Some.
    exists loc, size. by rewrite list_lookup_fmap, Ho. }
  rewrite Forall_forall in Hend. rewrite Forall_forall in Hpl. rewrite Forall_forall in Hf.
  pose proof (Hend _ Hin) as He. simpl in He.
  pose proof (Hpl _ (list_elem_of_lookup_2 _ _ _ Ho)) as Hp. simpl in Hp. subst place.
  pose proof (Hf _ (list_elem_of_lookup_2 _ _ _ Hsz)) as Hs.
  destruct (laid_out_in _ 0 loc size Hlay) as [Hl0 Hb].
  { apply Forall_forall. intros [l s] Hls. apply elem_of_zip_r in Hls. simpl. by apply Hf. }
  { done. }
  split; [apply get_stored; [done|lia|done]|]. intros addr. apply insert_stored; [done|lia|lia|lia|done].
Qed.

Lemma byte_trie_locations_witness :
  exists r out, appends (H := dev) [1; 2; 3; 4] [4096; 4000; 200; 8192] BT.new = Done (r, out) /\
    out.*1 = [0; 4096; 8192; 16384] /\
    BT.get 8192 200 r = Done (Some ([0; 0; 0; 0; 1], 0)).
Proof.
  destruct (byte_trie_locations (H := dev) [1; 2; 3; 4] [4096; 4000; 200; 8192])
    as (r & out & E & _ & _ & Hget).
  - reflexivity.
  - repeat (constructor; [split; [reflexivity|discriminate]|]). constructor.
  - reflexivity.
  - exists r, out. split; [exact E|]. vm_compute in E. injection E as <- <-.
    split; [reflexivity|]. exact (proj1 (Hget 2%nat 8192 ([0; 0; 0; 0; 1], 0) 200 eq_refl eq_refl)).
Defined.

#[local] Existing Instance dev.

(** Collecting twice: the second pass starts to count at [first_entry] but walks the segment
    from its first slot, so the entries between the two bounds stay. *)
Definition collect_twice : outcome (Trie Alloc) :=
  '(r, _) ← append_all [10; 12; 14; 16; 18; 20; 22; 24] new [];
  t ← delete_free (mkTrie (set_min 3 r) bt_new);
  delete_free (mkTrie (set_min 6 (root t)) (alloc t)).

Example second_collection_leaves_entries :
  exists t, collect_twice = Done t /\ first_entry (root t) = 6 /\
    get (root t) 2 = None /\ get (root t) 3 = Some 16 /\ get (root t) 5 = Some 20.
Proof. eexists. split; [vm_compute; reflexivity|]. vm_compute. done. Qed.

(** Collecting beyond the slots that exist never returns. *)
Example collection_beyond_the_end_hangs :
  delete_free (mkTrie (set_min 1 new) (bt_new (A := Alloc))) = Panic.
Proof. vm_compute. reflexivity. Qed.
