(* ===== verification/OrderingThread.v ===== *)
(** * The ordering thread of a server ([fuzzy_log_server/src/ordering_thread.rs], [lib.rs])

    One thread per server owns the chains: it receives requests ([handle_op]), replicated
    operations ([handle_replication]) and recovery requests ([handle_recovery]), gives every
    append its place in the chains it goes to, directly or through the Skeens state of the
    chain, and tells the workers what to write where ([ToWorker]).

    Every handler is a function of the state [ServerLog] in the monad [M] (state, and panic).
    The contents of a buffer are modelled by the packet in it ([Packets.Ref]), pointers into
    the trie of a chain by the chain and the slot, and the storage that is shared between the
    ordering thread and the workers ([SkeensMultiStorage], an [Arc]) by a handle into a store.
    The chains are in an [evmap], refreshed after every insert by this, its only writer: a map. *)

From stdpp Require Import base gmap list.
From Stdlib Require Import ZArith Lia.
From S2P Require Import Prelude PacketCodec Packets Trie DequeMap Skeens.
Open Scope Z_scope.

(** ** Messages and storage ([lib.rs]) *)

Inductive Troption (L R : Type) := TNone | TLeft (l : L) | TRight (r : R).
Arguments TNone {L R}.
Arguments TLeft {L R} l.
Arguments TRight {L R} r.

Definition unwrap_left {L R} (x : Troption L R) : outcome L :=
  match x with TLeft l => Done l | _ => Panic end.
Definition unwrap_right {L R} (x : Troption L R) : outcome R :=
  match x with TRight r => Done r | _ => Panic end.

(** A pointer to a slot of the trie of a chain; null is [None]. *)
Definition TriePtr : Type := option (Z * (Z * Z)).

(** The contents of a [SkeensMultiStorage]: the timestamps, the queue indices, the size of the
    entry, and of the sentinel (where there is one) the size and the pointers written over it. *)
Record MultiStorage := mkStorage {
  ms_timestamps : list Z;
  ms_queue_indicies : list Z;
  ms_entry_size : Z;
  ms_senti : option (Z * list TriePtr);
}.

(** [Box<(RcSlice, RcSlice)>]: a handle of the first slice, the sizes, and the pointers written
    over the second slice. *)
Record SlicePair := mkSlices {
  sp_handle : Z; sp_multi : Z; sp_senti : Z; sp_pointers : list TriePtr;
}.

(** [SkeensMultiStorage::new] *)
Definition storage_new (num_locs entry_size : Z) (sentinel_size : option Z) : MultiStorage :=
  mkStorage (replicate (Z.to_nat num_locs) 0) (replicate (Z.to_nat num_locs) 0) entry_size
            ((fun s => (s, [])) <$> sentinel_size).

(** An [AppendSlot] of the trie of a chain. *)
Definition ChainSlot : Type := Z * AppendSlot.

Inductive ToWorker (T : Type) :=
| Write (buffer : Ref) (slot : ChainSlot) (t : T)
| MultiReplica (buffer : Ref) (storage : SlicePair) (t : T) (num_places : Z)
| MultiFastPath (buffer : Ref) (storage : Z) (t : T)
| Skeens1 (buffer : Ref) (storage : Z) (t : T)
| SkeensFinished (loc : OrderIndex) (trie_slot : TriePtr) (storage : Z) (timestamp : Z) (t : T)
| SnapSkeensFinished (loc : OrderIndex) (storage : Z) (timestamp : Z) (t : T)
| SnapshotSkeens1 (buffer : Ref) (storage : Z) (t : T)
| SnapshotSkeens1Replica (buffer : Ref) (storage : Z) (t : T)
| SingleServerSkeens1 (storage : Z) (t : T)
| SingleSkeens (buffer : Ref) (storage : Z) (storage_loc time queue_num : Z) (t : T)
| DelayedSingle (index : Z) (trie_slot : TriePtr) (storage : Z) (timestamp : Z) (t : T)
| Skeens1Replica (buffer : Ref) (storage : Z) (t : T)
| Skeens2MultiReplica (loc : OrderIndex) (trie_slot : TriePtr) (timestamp : Z) (storage : Z) (t : T)
| Skeens2SnapReplica (loc : OrderIndex) (timestamp : Z) (storage : Z) (t : T)
| Skeens1SingleReplica (buffer : Ref) (storage storage_loc : Z) (t : T)
| Skeens2SingleReplica (index : Z) (trie_slot : TriePtr) (storage : Z) (timestamp : Z) (t : T)
| ReadEntry (entry : Z) (buffer : Ref) (t : T)
| EmptyRead (last : Z) (buffer : Ref) (t : T)
| Reply (buffer : Ref) (t : T)
| ReturnBuffer (buffer : Ref) (t : T)
| GotRecovery (buffer : Ref) (t : T)
| DidntGetRecovery (buffer : Ref) (id : Z) (t : T)
| ContinueRecovery (buffer : Ref) (t : T)
| EndRecovery (buffer : Ref) (t : T).
Arguments Write {T} buffer slot t.
Arguments MultiReplica {T} buffer storage t num_places.
Arguments MultiFastPath {T} buffer storage t.
Arguments Skeens1 {T} buffer storage t.
Arguments SkeensFinished {T} loc trie_slot storage timestamp t.
Arguments SnapSkeensFinished {T} loc storage timestamp t.
Arguments SnapshotSkeens1 {T} buffer storage t.
Arguments SnapshotSkeens1Replica {T} buffer storage t.
Arguments SingleServerSkeens1 {T} storage t.
Arguments SingleSkeens {T} buffer storage storage_loc time queue_num t.
Arguments DelayedSingle {T} index trie_slot storage timestamp t.
Arguments Skeens1Replica {T} buffer storage t.
Arguments Skeens2MultiReplica {T} loc trie_slot timestamp storage t.
Arguments Skeens2SnapReplica {T} loc timestamp storage t.
Arguments Skeens1SingleReplica {T} buffer storage storage_loc t.
Arguments Skeens2SingleReplica {T} index trie_slot storage timestamp t.
Arguments ReadEntry {T} entry buffer t.
Arguments EmptyRead {T} last buffer t.
Arguments Reply {T} buffer t.
Arguments ReturnBuffer {T} buffer t.
Arguments GotRecovery {T} buffer t.
Arguments DidntGetRecovery {T} buffer id t.
Arguments ContinueRecovery {T} buffer t.
Arguments EndRecovery {T} buffer t.

(** [ToWorker::get_associated_data] *)
Definition get_associated_data {T} (m : ToWorker T) : T :=
  match m with
  | Write _ _ t | MultiReplica _ _ t _ | MultiFastPath _ _ t | Skeens1 _ _ t
  | SkeensFinished _ _ _ _ t | SnapSkeensFinished _ _ _ t | SnapshotSkeens1 _ _ t
  | SnapshotSkeens1Replica _ _ t | SingleServerSkeens1 _ t | SingleSkeens _ _ _ _ _ t
  | DelayedSingle _ _ _ _ t | Skeens1Replica _ _ t | Skeens2MultiReplica _ _ _ _ t
  | Skeens2SnapReplica _ _ _ t | Skeens1SingleReplica _ _ _ t | Skeens2SingleReplica _ _ _ _ t
  | ReadEntry _ _ t | EmptyRead _ _ t | Reply _ t | ReturnBuffer _ t
  | GotRecovery _ t | DidntGetRecovery _ _ t | ContinueRecovery _ t | EndRecovery _ t => t
  end.

Inductive ToReplicate :=
| RData (buffer : Ref) (storage_loc : Z)
| RMulti (buffer : Ref) (storage : SlicePair)
| RSkeens1 (buffer : Ref) (storage : Z)
| RSingleSkeens1 (buffer : Ref) (storage_loc : Z)
| RSnapshotSkeens1 (buffer : Ref) (storage : Z)
| RSkeens2 (buffer : Ref)
| RUnLock (buffer : Ref)
| RGC (buffer : Ref)
| RTasRecoverer (buffer : Ref) (recoverer : Z * list OrderIndex).

Inductive Recovery :=
| TasRecoverer (buffer : Ref) (recoverer : Z * list OrderIndex)
| CheckSkeens1Recovery (buffer : Ref).

(** ** The state *)

Section Thread.
Context `{Build} {T A : Type} `{ByteTrie A}.

Abbreviation Skeens := (SkeensState Z T Z Z).

Record Chain := mkChain { trie : Trie A; skeens : Skeens }.

Record ServerLog := mkServer {
  log : gmap Z Chain;
  total_servers : Z;
  this_server_num : Z;
  to_workers : list (ToWorker T);      (* the messages sent, in order *)
  storages : gmap Z MultiStorage;      (* the shared storages, by handle *)
}.

Definition M (X : Type) : Type := ServerLog -> outcome (ServerLog * X).
#[export] Instance M_ret : MRet M := fun X x s => Done (s, x).
#[export] Instance M_bind : MBind M := fun X Y k m s =>
  match m s with Done (s', x) => k x s' | Panic => Panic end.

Definition lift {X} (o : outcome X) : M X := fun s => x ← o; Done (s, x).
Definition gets {X} (f : ServerLog -> X) : M X := fun s => Done (s, f s).
Definition panic {X} : M X := fun _ => Panic.

Definition send_to_worker (m : ToWorker T) : M unit := fun s =>
  Done (mkServer (log s) (total_servers s) (this_server_num s) (to_workers s ++ [m]) (storages s), tt).

Definition put_chain (o : Z) (c : Chain) : M unit := fun s =>
  Done (mkServer (<[o := c]> (log s)) (total_servers s) (this_server_num s) (to_workers s)
          (storages s), tt).

Definition put_storage (h : Z) (m : MultiStorage) : M unit := fun s =>
  Done (mkServer (log s) (total_servers s) (this_server_num s) (to_workers s)
          (<[h := m]> (storages s)), tt).

Definition get_chain (o : Z) : M (option Chain) := gets (fun s => log s !! o).

(** The contents of a storage; a handle that is not in the store does not exist. *)
Definition get_storage (h : Z) : M MultiStorage := fun s =>
  m ← unwrap (storages s !! h); Done (s, m).

(** [ServerLog::new] *)
Definition server_new (this_server_num total_servers : Z) : outcome ServerLog :=
  _ ← assert_ (this_server_num <=? total_servers);
  Done (mkServer ∅ total_servers this_server_num [] ∅).

(** The remainder by zero panics. *)
Definition stores_chain (chain : Z) : M bool := fun s =>
  _ ← assert_ (negb (total_servers s =? 0));
  Done (s, chain mod total_servers s =? this_server_num s).

(** [chain == order::from(0) || !self.stores_chain(chain)] *)
Definition not_here (chain : Z) : M bool :=
  if chain =? 0 then mret true else stored ← stores_chain chain; mret (negb stored).

(** A new chain starts with an entry of one byte. *)
Definition new_chain : outcome Chain :=
  '(t, slot) ← partial_append 1 trie_new;
  t ← write_byte slot EntryKind.Read t;
  Done (mkChain t Skeens.new).

Definition ensure_chain (o : Z) : M Chain :=
  c ← get_chain o;
  match c with
  | Some c => mret c
  | None => c ← lift new_chain; _ ← put_chain o c; mret c
  end.

(** A call on the trie, resp. the Skeens state, of a chain that is there. *)
Definition on_trie {X} (o : Z) (f : Trie A -> outcome (Trie A * X)) : M X :=
  c ← ensure_chain o;
  '(t, x) ← lift (f (trie c));
  _ ← put_chain o (mkChain t (skeens c));
  mret x.

Definition on_skeens {X} (o : Z) (f : Skeens -> outcome (X * Skeens)) : M X :=
  c ← ensure_chain o;
  '(x, k) ← lift (f (skeens c));
  _ ← put_chain o (mkChain (trie c) k);
  mret x.

Definition trie_prep_append (t : Trie A) : outcome (Trie A * (Z * (Z * Z))) :=
  '(r, x) ← prep_append edge_null (root t); Done (mkTrie r (alloc t), x).

Definition trie_prep_append_at (key : Z) (t : Trie A) : outcome (Trie A * (Z * Z)) :=
  '(r, x) ← prep_append_at key (root t); Done (mkTrie r (alloc t), x).

(** ** [impl Chain] *)

Definition needs_skeens_single (c : Chain) : bool := negb (Skeens.is_empty (skeens c)).

Definition handle_skeens_single (o : Z) (buffer : Ref) (timestamp : Z) (t : T)
  : M (Z * Z * Z * Z) :=
  size ← lift (Packets.len buffer);
  let id := Packets.id buffer in
  '(slot, storage_loc) ← on_trie o (reserve_space size);
  r ← on_skeens o (fun k => add_single_append k id timestamp slot t);
  match r with
  | SAR_NewAppend ts queue_num => mret (slot, storage_loc, ts, queue_num)
  | _ => panic
  end.

(** The index in the first location is set, the buffer with the new contents is returned. *)
Definition set_first_loc (e : Z) (ls : list OrderIndex) : list OrderIndex :=
  match ls with l :: ls => mkOI (oi_order l) e :: ls | [] => [] end.

Definition append_data (o : Z) (buffer : Ref) : M (Ref * ChainSlot) :=
  c ← ensure_chain o;
  let index := Trie.len (root (trie c)) in
  buffer ← lift (flag_mut (fun f => EntryFlag.insert f EntryFlag.ReadSuccess) buffer);
  ls ← lift (Packets.locs buffer);
  _ ← lift (assert_ (negb (bool_decide (ls = []))));
  buffer ← lift (locs_mut (set_first_loc index) buffer);
  size ← lift (Packets.len buffer);
  slot ← on_trie o (partial_append size);
  mret (buffer, (o, slot)).

Definition write_data (o index size : Z) : M ChainSlot :=
  c ← ensure_chain o;
  slot ← (if Trie.len (root (trie c)) =? index then on_trie o (partial_append size)
          else on_trie o (partial_append_at index u64_max size));
  mret (o, slot).

Definition timestamp_for_multi (o id storage : Z) (is_sentinel : bool) (t : T)
  : M ((Z * Z) + Z) :=
  r ← on_skeens o (fun k => add_multi_append k id storage is_sentinel t);
  mret (match r with
        | SAR_NewAppend ts num => inl (ts, num)
        | SAR_OldPhase1 ts | SAR_Phase2 ts => inr ts
        end).

Definition timestamp_for_snap (o id storage : Z) (t : T) : M ((Z * Z) + Z) :=
  r ← on_skeens o (fun k => add_snapshot k id storage t);
  mret (match r with
        | SAR_NewAppend ts num => inl (ts, num)
        | SAR_OldPhase1 ts | SAR_Phase2 ts => inr ts
        end).

(** [unwrap] on the result of the two functions above. *)
Definition unwrap_ok {X Y} (r : X + Y) : M X :=
  match r with inl x => mret x | inr _ => panic end.

(** The sentinel of an empty chain needs an entry to stand behind. *)
Definition blank_senti (chain : Z) : Ref :=
  Senti 0 EntryFlag.ReadSuccess 0 0 [mkOI chain 1] [].

Definition horizon_or_add_blank (chain : Z) (t : Trie A) : outcome (Trie A * Z) :=
  horizon ← Trie.horizon (root t);
  if 0 <? horizon then Done (t, horizon)
  else
    size ← Packets.len (blank_senti chain);
    '(t, slot) ← partial_append size t;
    t ← finish_append_with_contents slot (blank_senti chain) t;
    h ← Trie.horizon (root t);
    Done (t, h).

(** What the flush of the Skeens state does with a delivered append. *)
Definition deliver (o : Z) (g : GotMax Z T Z Z) : M unit :=
  match g with
  | G_SimpleSingle timestamp storage t _ | G_Single timestamp _ storage t _ =>
      '(loc, ptr) ← on_trie o trie_prep_append;
      send_to_worker (DelayedSingle loc (Some (o, ptr)) storage timestamp t)
  | G_Multi timestamp storage t _ =>
      '(loc, ptr) ← on_trie o trie_prep_append;
      send_to_worker (SkeensFinished (mkOI o loc) (Some (o, ptr)) storage timestamp t)
  | G_Senti timestamp storage t _ =>
      loc ← on_trie o (horizon_or_add_blank o);
      send_to_worker (SkeensFinished (mkOI o loc) None storage timestamp t)
  | G_Snap timestamp storage t _ =>
      c ← ensure_chain o;
      loc ← lift (Trie.horizon (root (trie c)));
      send_to_worker (SnapSkeensFinished (mkOI o loc) storage timestamp t)
  end.

Fixpoint deliver_all (o : Z) (gs : list (GotMax Z T Z Z)) : M unit :=
  match gs with
  | [] => mret tt
  | g :: gs => _ ← deliver o g; deliver_all o gs
  end.

(** [finish_multi], with the messages its callback sends. *)
Definition finish_multi (o id max_timestamp : Z) : M unit :=
  r ← on_skeens o (fun k => set_max_timestamp k id max_timestamp);
  match r with
  | SMR_Ok => mret tt
  | SMR_Duplicate _ | SMR_NotWaiting => panic
  | SMR_NeedsFlush =>
      gs ← on_skeens o (fun k => flush_got_max_timestamp k);
      deliver_all o gs
  end.

(** ** Skeens multi-appends *)

(** The loop of [new_multiappend_round1]: the timestamps and queue indices, per location. *)
Fixpoint round1_locs (id storage : Z) (distinguish_sentinels is_sentinel : bool) (t : T)
    (ls : list OrderIndex) : M (list (Z * Z)) :=
  match ls with
  | [] => mret []
  | l :: ls =>
      let chain := oi_order l in
      skip ← not_here chain;
      if (skip : bool) then
        rest ← round1_locs id storage distinguish_sentinels (is_sentinel || (chain =? 0)) t ls;
        mret ((0, 0) :: rest)
      else
        r ← timestamp_for_multi chain id storage (distinguish_sentinels && is_sentinel) t;
        x ← unwrap_ok r;
        rest ← round1_locs id storage distinguish_sentinels is_sentinel t ls;
        mret (x :: rest)
  end.

(** The first [n] elements of the slices are replaced. *)
Definition fill_storage (xs : list (Z * Z)) (m : MultiStorage) : MultiStorage :=
  mkStorage (xs.*1 ++ drop (length xs) (ms_timestamps m))
            (xs.*2 ++ drop (length xs) (ms_queue_indicies m)) (ms_entry_size m) (ms_senti m).

(** [[..locs.len()]] *)
Definition check_slices (n : Z) (m : MultiStorage) : M unit :=
  _ ← lift (assert_ (n <=? zlen (ms_timestamps m)));
  lift (assert_ (n <=? zlen (ms_queue_indicies m))).

Definition new_multiappend_round1 (buffer : Ref) (storage : Z) (distinguish_sentinels : bool) (t : T)
  : M unit :=
  ls ← lift (Packets.locs buffer);
  m ← get_storage storage;
  _ ← check_slices (zlen ls) m;
  xs ← round1_locs (Packets.id buffer) storage distinguish_sentinels false t ls;
  m ← get_storage storage;
  put_storage storage (fill_storage xs m).

(** The loop of [new_multiappend_round2]: the new locations. *)
Fixpoint round2_locs (id max_timestamp : Z) (ls : list OrderIndex) : M (list OrderIndex) :=
  match ls with
  | [] => mret []
  | l :: ls =>
      let chain := oi_order l in
      skip ← not_here chain;
      if (skip : bool) then
        rest ← round2_locs id max_timestamp ls;
        mret (mkOI chain 0 :: rest)
      else
        c ← get_chain chain;
        _ ← lift (unwrap c);
        _ ← finish_multi chain id max_timestamp;
        rest ← round2_locs id max_timestamp ls;
        mret (l :: rest)
  end.

Definition new_multiappend_round2 (kind : EntryFlag.Flag) (buffer : Ref) : M Ref :=
  _ ← lift (assert_ (EntryFlag.contains kind EntryFlag.Unlock));
  max_timestamp ← lift (lock_num buffer);
  ls ← lift (Packets.locs buffer);
  ls' ← round2_locs (Packets.id buffer) max_timestamp ls;
  lift (locs_mut (fun _ => ls') buffer).

Definition Storage : Type := Troption Z SlicePair.

Definition handle_new_multiappend (kind : EntryFlag.Flag) (buffer : Ref) (storage : Storage) (t : T)
  : M unit :=
  _ ← lift (assert_ (EntryFlag.contains kind EntryFlag.TakeLock));
  if EntryFlag.contains kind EntryFlag.Unlock then
    buffer ← new_multiappend_round2 kind buffer;
    send_to_worker (ReturnBuffer buffer t)
  else
    storage ← lift (unwrap_left storage);
    _ ← new_multiappend_round1 buffer storage false t;
    send_to_worker (Skeens1 buffer storage t).

(** ** Multi-appends to this server only *)

(** The loop that decides whether the fast path is taken. *)
Fixpoint single_server_needs (ls : list OrderIndex) (needs_lock needs_skeens : bool)
  : M (bool * bool) :=
  match ls with
  | [] => mret (needs_lock, needs_skeens)
  | l :: ls =>
      let c := oi_order l in
      stored ← stores_chain c;
      _ ← lift (assert_ stored);
      if c =? 0 then single_server_needs ls needs_lock needs_skeens
      else
        chain ← ensure_chain c;
        single_server_needs ls (needs_lock || is_locked (root (trie chain)))
                               (needs_skeens || needs_skeens_single chain)
  end.

(** The loop of the fast path: the new locations, and the pointers written ([None]: the cell is
    left as it is). *)
Fixpoint fast_path_locs (is_sentinel : bool) (ls : list OrderIndex)
  : M (list (OrderIndex * option TriePtr)) :=
  match ls with
  | [] => mret []
  | l :: ls =>
      let o := oi_order l in
      skip ← not_here o;
      if (skip : bool) then
        rest ← fast_path_locs (is_sentinel || (o =? 0)) ls;
        mret ((mkOI o 0, Some None) :: rest)
      else if negb is_sentinel then
        '(index, ptr) ← on_trie o trie_prep_append;
        rest ← fast_path_locs is_sentinel ls;
        mret ((mkOI o index, Some (Some (o, ptr))) :: rest)
      else
        horizon ← on_trie o (horizon_or_add_blank o);
        rest ← fast_path_locs is_sentinel ls;
        mret ((mkOI o horizon, None) :: rest)
  end.

(** Writing cells of the pointer slice. *)
Fixpoint write_pointers (ws : list (option TriePtr)) (cells : list TriePtr) : list TriePtr :=
  match ws with
  | [] => cells
  | w :: ws => default (default None (head cells)) w :: write_pointers ws (tail cells)
  end.

Definition single_server_single_append_fast_path (buffer : Ref) (storage : Z) (t : T) : M unit :=
  m ← get_storage storage;
  '(len, cells) ← lift (unwrap (ms_senti m));
  ls ← lift (Packets.locs buffer);
  _ ← lift (assert_ (zlen ls <=? len));
  xs ← fast_path_locs false ls;
  buffer ← lift (locs_mut (fun _ => xs.*1) buffer);
  m ← get_storage storage;
  _ ← put_storage storage
        (mkStorage (ms_timestamps m) (ms_queue_indicies m) (ms_entry_size m)
           (Some (len, write_pointers xs.*2 cells)));
  send_to_worker (MultiFastPath buffer storage t).

Definition single_server_local_skeens (kind : EntryFlag.Flag) (buffer : Ref) (storage : Z) (t : T)
  : M unit :=
  _ ← new_multiappend_round1 buffer storage true t;
  m ← get_storage storage;
  _ ← send_to_worker (SingleServerSkeens1 storage t);
  max_timestamp ← lift (unwrap (match ms_timestamps m with
                                | [] => None
                                | ts :: tss => Some (foldl Z.max ts tss)
                                end));
  buffer ← lift (lock_mut (fun _ => max_timestamp) buffer);
  buffer ← lift (flag_mut (fun f => EntryFlag.insert f EntryFlag.Unlock) buffer);
  buffer ← new_multiappend_round2 (EntryFlag.insert kind EntryFlag.Unlock) buffer;
  send_to_worker (ReturnBuffer buffer t).

Definition handle_single_server_append (kind : EntryFlag.Flag) (buffer : Ref) (storage : Storage) (t : T)
  : M unit :=
  ls ← lift (Packets.locs buffer);
  '(needs_lock, needs_skeens) ← single_server_needs ls false false;
  _ ← lift (debug_assert (negb (needs_lock && needs_skeens)));
  storage ← lift (unwrap_left storage);
  if negb needs_lock && negb needs_skeens then single_server_single_append_fast_path buffer storage t
  else single_server_local_skeens kind buffer storage t.

(** [multi_append_lock_failed] (not called any more) *)
Fixpoint lock_failed_locs (ls : list OrderIndex) : M (list OrderIndex) :=
  match ls with
  | [] => mret []
  | l :: ls =>
      let o := oi_order l in
      skip ← not_here o;
      l' ← (if (skip : bool) then mret l
            else c ← ensure_chain o;
                 mret (if is_locked (root (trie c)) then mkOI o u64_max else l));
      rest ← lock_failed_locs ls;
      mret (l' :: rest)
  end.

Definition multi_append_lock_failed (buffer : Ref) (t : T) : M unit :=
  ls ← lift (Packets.locs buffer);
  ls' ← lock_failed_locs ls;
  buffer ← lift (locs_mut (fun _ => ls') buffer);
  send_to_worker (Reply buffer t).

(** ** Multi-appends with locks (the old protocol) *)

Definition no_loc : OrderIndex := mkOI 0 0.

(** The loop of the unlock request: whether all locks were released. *)
Fixpoint unlock_locs (ls : list OrderIndex) (all_unlocked : bool) : M bool :=
  match ls with
  | [] => mret all_unlocked
  | l :: ls =>
      if bool_decide (l = no_loc) then unlock_locs ls all_unlocked
      else
        stored ← stores_chain (oi_order l);
        if (stored : bool) then
          b ← on_trie (oi_order l) (fun t =>
                '(r, b) ← unlock (oi_entry l) (root t); Done (mkTrie r (alloc t), b));
          unlock_locs ls (all_unlocked && b)
        else unlock_locs ls all_unlocked
  end.

(** How one of the loops that look up the indices ends: at the end of the locations, at the
    separator of the sentinels, or at a lock that cannot be taken. *)
Inductive HorizonEnd := AtEnd | AtSentinels | LockFailed.

(** [before_sentinels]: the loop ['update_append_horizon], which stops at the separator; else
    ['senti_horizon].  The locations visited with their new indices, those not visited, how the
    loop ended, and the number of places. *)
Fixpoint horizon_locs (before_sentinels takes_lock : bool) (ls : list OrderIndex) (num_places : Z)
  : M (list OrderIndex * list OrderIndex * HorizonEnd * Z) :=
  match ls with
  | [] => mret ([], [], AtEnd, num_places)
  | l :: ls =>
      if bool_decide (l = no_loc) && before_sentinels then mret ([l], ls, AtSentinels, num_places)
      else
        _ ← lift (assert_ (negb (bool_decide (l = no_loc))));
        stored ← stores_chain (oi_order l);
        if (stored : bool) then
          c ← ensure_chain (oi_order l);
          cannot ← (if takes_lock then lift (cannot_lock (oi_entry l) (root (trie c)))
                    else mret false);
          if (cannot : bool) then mret ([mkOI (oi_order l) u64_max], ls, LockFailed, num_places)
          else
            let next_entry := Trie.len (root (trie c)) in
            _ ← lift (assert_ (0 <? next_entry));
            '(seen, rest, e, n) ← horizon_locs before_sentinels takes_lock ls (num_places + 1);
            mret (mkOI (oi_order l) next_entry :: seen, rest, e, n)
        else
          '(seen, rest, e, n) ← horizon_locs before_sentinels takes_lock ls num_places;
          mret (mkOI (oi_order l) 0 :: seen, rest, e, n)
  end.

(** ['emplace] and the loop over the sentinels: the pointers to the slots. *)
Fixpoint emplace_locs (stop_at_separator takes_lock : bool) (ls : list OrderIndex) : M (list TriePtr) :=
  match ls with
  | [] => mret []
  | l :: ls =>
      if bool_decide (l = no_loc) && stop_at_separator then mret []
      else
        stored ← stores_chain (oi_order l);
        if (stored : bool) then
          _ ← lift (assert_ (negb (oi_entry l =? 0)));
          ptr ← on_trie (oi_order l) (fun t =>
                  r ← (if takes_lock then increment_lock (root t) else Done (root t));
                  '(t, (_, ptr)) ← trie_prep_append (mkTrie r (alloc t));
                  Done (t, ptr));
          rest ← emplace_locs stop_at_separator takes_lock ls;
          mret (Some (oi_order l, ptr) :: rest)
        else emplace_locs stop_at_separator takes_lock ls
  end.

Definition handle_old_multiappend (kind : EntryFlag.Flag) (buffer : Ref) (storage : Storage) (t : T)
  : M unit :=
  let takes_lock := EntryFlag.contains kind EntryFlag.TakeLock in
  ls ← lift (Packets.locs buffer);
  if EntryFlag.contains kind EntryFlag.Unlock then
    all_unlocked ← unlock_locs ls true;
    buffer ← (if (all_unlocked : bool)
              then lift (flag_mut (fun f => EntryFlag.insert f EntryFlag.ReadSuccess) buffer)
              else mret buffer);
    send_to_worker (Reply buffer t)
  else
    '(seen, rest, e, n) ← horizon_locs true takes_lock ls 0;
    '(ls, ssi, failed, num_places) ←
      (match e with
       | AtEnd => mret (seen, None, false, n)
       | LockFailed => mret (seen ++ rest, None, true, n)
       | AtSentinels =>
           '(seen', rest', e', n') ← horizon_locs false takes_lock rest n;
           mret (seen ++ seen' ++ rest', Some (length seen),
                 match e' with LockFailed => true | _ => false end, n')
       end);
    buffer ← lift (locs_mut (fun _ => ls) buffer);
    if (failed : bool) then send_to_worker (Reply buffer t)
    else
      slices ← lift (unwrap_right storage);
      size ← lift (Packets.len buffer);
      _ ← lift (debug_assert (sp_multi slices =? size));
      senti ← lift (sentinel_entry_size buffer);
      _ ← lift (debug_assert (sp_senti slices =? senti));
      buffer ← lift (flag_mut (fun f => EntryFlag.insert f EntryFlag.ReadSuccess) buffer);
      ps ← emplace_locs true takes_lock ls;
      ps' ← (match ssi with
             | Some i => emplace_locs false takes_lock (drop i ls)
             | None => mret []
             end);
      send_to_worker
        (MultiReplica buffer (mkSlices (sp_handle slices) (sp_multi slices) (sp_senti slices) (ps ++ ps')) t num_places).

Definition handle_multiappend (kind : EntryFlag.Flag) (buffer : Ref) (storage : Storage) (t : T)
  : M unit :=
  if EntryFlag.contains kind EntryFlag.DirectWrite then panic
  else if negb (EntryFlag.contains kind EntryFlag.TakeLock)
  then handle_single_server_append kind buffer storage t
  else if EntryFlag.contains kind EntryFlag.NewMultiPut
  then handle_new_multiappend kind buffer storage t
  else handle_old_multiappend kind buffer storage t.

(** ** Snapshots *)

Fixpoint snapshot_locs (ls : list OrderIndex) : M (list OrderIndex) :=
  match ls with
  | [] => mret []
  | l :: ls =>
      let o := oi_order l in
      skip ← not_here o;
      i ← (if (skip : bool) then mret 0
           else c ← get_chain o;
                match c with
                | Some c => lift (Trie.horizon (root (trie c)))
                | None => mret 0
                end);
      rest ← snapshot_locs ls;
      mret (mkOI o i :: rest)
  end.

Definition handle_single_server_snapshot (buffer : Ref) (t : T) : M unit :=
  buffer ← lift (flag_mut (fun f => EntryFlag.insert f EntryFlag.ReadSuccess) buffer);
  ls ← lift (Packets.locs buffer);
  ls' ← snapshot_locs ls;
  buffer ← lift (locs_mut (fun _ => ls') buffer);
  send_to_worker (Reply buffer t).

(** The loop of [skeens_snapshot_round1]; [None]: the cells are left as they are. *)
Fixpoint snap_round1_locs (id storage : Z) (t : T) (ls : list OrderIndex)
  : M (list (option (Z * Z))) :=
  match ls with
  | [] => mret []
  | l :: ls =>
      stored ← stores_chain (oi_order l);
      x ← (if (stored : bool) then
             r ← timestamp_for_snap (oi_order l) id storage t;
             x ← unwrap_ok r;
             mret (Some x)
           else mret None);
      rest ← snap_round1_locs id storage t ls;
      mret (x :: rest)
  end.

Fixpoint overwrite {X} (ws : list (option X)) (cells : list X) : list X :=
  match ws, cells with
  | w :: ws, c :: cells => default c w :: overwrite ws cells
  | _, _ => cells
  end.

Definition skeens_snapshot_round1 (kind : EntryFlag.Flag) (buffer : Ref) (storage : Z) (t : T)
  : M unit :=
  _ ← lift (assert_ (negb (EntryFlag.contains kind EntryFlag.Unlock)));
  ls ← lift (Packets.locs buffer);
  m ← get_storage storage;
  _ ← check_slices (zlen ls) m;
  xs ← snap_round1_locs (Packets.id buffer) storage t ls;
  m ← get_storage storage;
  put_storage storage
    (mkStorage (overwrite (map (fmap fst) xs) (ms_timestamps m))
       (overwrite (map (fmap snd) xs) (ms_queue_indicies m)) (ms_entry_size m) (ms_senti m)).

Definition handle_skeens_snapshot (kind : EntryFlag.Flag) (buffer : Ref) (storage : Storage) (t : T)
  : M unit :=
  _ ← lift (assert_ (EntryFlag.contains kind EntryFlag.TakeLock));
  if EntryFlag.contains kind EntryFlag.Unlock then
    buffer ← new_multiappend_round2 kind buffer;
    send_to_worker (ReturnBuffer buffer t)
  else
    storage ← lift (unwrap_left storage);
    _ ← skeens_snapshot_round1 kind buffer storage t;
    send_to_worker (SnapshotSkeens1 buffer storage t).

Definition handle_snapshot (kind : EntryFlag.Flag) (buffer : Ref) (storage : Storage) (t : T)
  : M unit :=
  if negb (EntryFlag.contains kind EntryFlag.TakeLock) then handle_single_server_snapshot buffer t
  else
    _ ← lift (assert_ (EntryFlag.contains kind EntryFlag.NewMultiPut));
    handle_skeens_snapshot kind buffer storage t.

(** ** Collection *)

Definition on_existing (o : Z) (f : Trie A -> outcome (Trie A)) : M unit :=
  c ← get_chain o;
  match c with
  | Some c => t ← lift (f (trie c)); put_chain o (mkChain t (skeens c))
  | None => mret tt
  end.

Fixpoint for_each_loc (f : OrderIndex -> M unit) (ls : list OrderIndex) : M unit :=
  match ls with
  | [] => mret tt
  | l :: ls => _ ← f l; for_each_loc f ls
  end.

Definition handle_gc (buffer : Ref) (t : T) : M unit :=
  ls ← lift (Packets.locs buffer);
  _ ← for_each_loc (fun l => on_existing (oi_order l)
        (fun t => Done (mkTrie (set_min (oi_entry l) (root t)) (alloc t)))) ls;
  _ ← for_each_loc (fun l => on_existing (oi_order l) delete_free) ls;
  send_to_worker (Reply buffer t).

(** ** Requests *)

Definition first_loc (buffer : Ref) : M OrderIndex :=
  ls ← lift (Packets.locs buffer); lift (unwrap (head ls)).

Definition handle_read (buffer : Ref) (t : T) : M unit :=
  l ← first_loc buffer;
  c ← get_chain (oi_order l);
  match c with
  | None => send_to_worker (EmptyRead 0 buffer t)
  | Some lg =>
      match Trie.get (root (trie lg)) (oi_entry l) with
      | None =>
          n ← lift (sub64 (Trie.len (root (trie lg))) 1);
          send_to_worker (EmptyRead n buffer t)
      | Some packet => send_to_worker (ReadEntry packet buffer t)
      end
  end.

Definition handle_data (buffer : Ref) (t : T) : M unit :=
  l ← first_loc buffer;
  let chain := oi_order l in
  min_timestamp ← lift (lock_num buffer);
  flags ← lift (Packets.flag buffer);
  size ← lift (Packets.len buffer);
  stored ← (if debug_assertions then stores_chain chain else mret true);
  _ ← lift (debug_assert stored);
  if EntryFlag.contains flags EntryFlag.DirectWrite then
    slot ← write_data chain (oi_entry l) size;
    send_to_worker (Write buffer slot t)
  else
    need ← on_skeens chain (fun k => need_single_at k min_timestamp);
    if (need : bool) then
      '(slot, storage_loc, time, queue_num) ← handle_skeens_single chain buffer min_timestamp t;
      send_to_worker (SingleSkeens buffer slot storage_loc time queue_num t)
    else
      '(buffer, slot) ← append_data chain buffer;
      send_to_worker (Write buffer slot t).

Definition handle_op (buffer : Ref) (storage : Storage) (t : T) : M unit :=
  flags ← lift (Packets.flag buffer);
  layout ← lift (EntryKind.layout (Packets.kind buffer));
  match layout with
  | EntryKind.EntryLayout.Multiput | EntryKind.EntryLayout.Sentinel =>
      handle_multiappend flags buffer storage t
  | EntryKind.EntryLayout.Snapshot => handle_snapshot flags buffer storage t
  | EntryKind.EntryLayout.Read => handle_read buffer t
  | EntryKind.EntryLayout.Data => handle_data buffer t
  | EntryKind.EntryLayout.Lock => panic
  | EntryKind.EntryLayout.GC => handle_gc buffer t
  end.

(** ** Replication *)

Fixpoint rep_skeens1_locs (id storage : Z) (is_single_server is_sentinel : bool) (t : T)
    (ls : list (OrderIndex * Z)) : M unit :=
  match ls with
  | [] => mret tt
  | (l, node_num) :: ls =>
      let o := oi_order l in
      skip ← not_here o;
      if (skip : bool) then
        rep_skeens1_locs id storage is_single_server (is_sentinel || (o =? 0)) t ls
      else
        _ ← on_skeens o (fun k => replicate_multi_append_round1 k (oi_entry l) node_num id storage
                                    (is_single_server && is_sentinel) t);
        rep_skeens1_locs id storage is_single_server is_sentinel t ls
  end.

Fixpoint rep_snapshot_locs (id storage : Z) (t : T) (ls : list (OrderIndex * Z)) : M unit :=
  match ls with
  | [] => mret tt
  | (l, node_num) :: ls =>
      let o := oi_order l in
      skip ← not_here o;
      _ ← (if (skip : bool) then mret true
           else on_skeens o (fun k => replicate_snapshot_round1 k (oi_entry l) node_num id storage t));
      rep_snapshot_locs id storage t ls
  end.

(** What a replica does with an append its Skeens state delivers. *)
Definition replica_deliver (o : Z) (r : ReplicatedSkeens T Z Z) : M unit :=
  match r with
  | RS_Multi index storage max_timestamp t =>
      slot ← on_trie o (trie_prep_append_at index);
      send_to_worker (Skeens2MultiReplica (mkOI o index) (Some (o, slot)) max_timestamp storage t)
  | RS_Senti index storage max_timestamp t =>
      send_to_worker (Skeens2MultiReplica (mkOI o index) None max_timestamp storage t)
  | RS_Snap index storage max_timestamp t =>
      send_to_worker (Skeens2SnapReplica (mkOI o index) max_timestamp storage t)
  | RS_Single index storage max_timestamp t =>
      slot ← on_trie o (trie_prep_append_at index);
      send_to_worker (Skeens2SingleReplica index (Some (o, slot)) storage max_timestamp t)
  end.

Fixpoint replica_deliver_all (o : Z) (rs : list (ReplicatedSkeens T Z Z)) : M unit :=
  match rs with
  | [] => mret tt
  | r :: rs => _ ← replica_deliver o r; replica_deliver_all o rs
  end.

Definition rep_skeens2_loc (id max_timestamp : Z) (l : OrderIndex) : M unit :=
  let o := oi_order l in
  skip ← not_here o;
  if (skip : bool) then mret tt
  else
    rs ← on_skeens o (fun k => replicate_round2 k id max_timestamp (oi_entry l));
    replica_deliver_all o rs.

(** The loop over the locations of a replicated multi-append: where the sentinels start, and
    the number of places. *)
Fixpoint rep_places (before_sentinels : bool) (i : nat) (ls : list OrderIndex) (num_places : Z)
  : M (option nat * Z) :=
  match ls with
  | [] => mret (None, num_places)
  | l :: ls =>
      if bool_decide (l = no_loc) && before_sentinels then
        '(_, n) ← rep_places false (S i) ls num_places; mret (Some (S i), n)
      else
        _ ← lift (assert_ (negb (bool_decide (l = no_loc))));
        stored ← stores_chain (oi_order l);
        rep_places before_sentinels (S i) ls (if (stored : bool) then num_places + 1 else num_places)
  end.

Fixpoint rep_emplace_locs (stop_at_separator : bool) (ls : list OrderIndex) : M (list TriePtr) :=
  match ls with
  | [] => mret []
  | l :: ls =>
      if bool_decide (l = no_loc) && stop_at_separator then mret []
      else
        stored ← stores_chain (oi_order l);
        if (stored : bool) then
          _ ← lift (assert_ (negb (oi_entry l =? 0)));
          ptr ← on_trie (oi_order l) (trie_prep_append_at (oi_entry l));
          rest ← rep_emplace_locs stop_at_separator ls;
          mret (Some (oi_order l, ptr) :: rest)
        else rep_emplace_locs stop_at_separator ls
  end.

Definition handle_replication (to_replicate : ToReplicate) (t : T) : M unit :=
  match to_replicate with
  | RData buffer storage_loc =>
      l ← first_loc buffer;
      stored ← (if debug_assertions then stores_chain (oi_order l) else mret true);
      _ ← lift (debug_assert stored);
      size ← lift (Packets.len buffer);
      slot ← on_trie (oi_order l) (partial_append_at (oi_entry l) storage_loc size);
      send_to_worker (Write buffer (oi_order l, slot) t)
  | RSingleSkeens1 buffer storage_loc =>
      ls ← lift (locs_and_node_nums buffer);
      '(l, node_num) ← lift (unwrap (head ls));
      size ← lift (non_replicated_len buffer);
      ts ← lift (lock_num buffer);
      storage ← on_trie (oi_order l) (reserve_space_at storage_loc size);
      _ ← on_skeens (oi_order l) (fun k =>
            replicate_single_append_round1 k ts node_num (Packets.id buffer) storage t);
      send_to_worker (Skeens1SingleReplica buffer storage storage_loc t)
  | RSkeens1 buffer storage =>
      flags ← lift (Packets.flag buffer);
      ls ← lift (locs_and_node_nums buffer);
      _ ← rep_skeens1_locs (Packets.id buffer) storage
            (negb (EntryFlag.contains flags EntryFlag.TakeLock)) false t ls;
      send_to_worker (Skeens1Replica buffer storage t)
  | RSnapshotSkeens1 buffer storage =>
      ls ← lift (locs_and_node_nums buffer);
      _ ← rep_snapshot_locs (Packets.id buffer) storage t ls;
      send_to_worker (SnapshotSkeens1Replica buffer storage t)
  | RSkeens2 buffer =>
      max_timestamp ← lift (lock_num buffer);
      _ ← lift (assert_ (0 <? max_timestamp));
      ls ← lift (Packets.locs buffer);
      _ ← for_each_loc (rep_skeens2_loc (Packets.id buffer) max_timestamp) ls;
      send_to_worker (ReturnBuffer buffer t)
  | RMulti buffer storage =>
      ls ← lift (Packets.locs buffer);
      flags ← lift (Packets.flag buffer);
      '(ssi, num_places) ← rep_places true 0 ls 0;
      ps ← rep_emplace_locs true ls;
      ps' ← (match ssi with
             | Some i => if EntryFlag.contains flags EntryFlag.TakeLock
                         then rep_emplace_locs false (drop i ls) else mret []
             | None => mret []
             end);
      send_to_worker
        (MultiReplica buffer (mkSlices (sp_handle storage) (sp_multi storage) (sp_senti storage) (ps ++ ps')) t num_places)
  | RUnLock _ => panic
  | RGC buffer => handle_gc buffer t
  | RTasRecoverer buffer recoverer =>
      '(write_id, _) ← lift (write_id_and_old_recoverer buffer);
      index ← lift (lock_num buffer);
      l ← lift (unwrap (head recoverer.2));
      res ← on_skeens (oi_order l) (fun k => Done (replicate_recoverer k write_id recoverer index));
      send_to_worker (match res with
                      | inr _ => GotRecovery buffer t
                      | inl id => DidntGetRecovery buffer (default uuid_nil id) t
                      end)
  end.

(** ** Recovery *)

Definition handle_recovery (recovery : Recovery) (t : T) : M unit :=
  match recovery with
  | TasRecoverer buffer recoverer =>
      '(write_id, old_recoverer) ← lift (write_id_and_old_recoverer buffer);
      let old_recoverer := if old_recoverer =? uuid_nil then None else Some old_recoverer in
      l ← lift (unwrap (head recoverer.2));
      res ← on_skeens (oi_order l) (fun k => tas_recoverer k write_id recoverer old_recoverer);
      match res with
      | inr i => buffer ← lift (lock_mut (fun _ => i) buffer); send_to_worker (GotRecovery buffer t)
      | inl id => send_to_worker (DidntGetRecovery buffer (default uuid_nil id) t)
      end
  | CheckSkeens1Recovery buffer =>
      l ← first_loc buffer;
      c ← get_chain (oi_order l);
      still_there ← (match c with
                     | Some c => lift (check_skeens1 (skeens c) (Packets.id buffer) (oi_entry l))
                     | None => mret false
                     end);
      send_to_worker (if (still_there : bool) then ContinueRecovery buffer t else EndRecovery buffer t)
  end.

End Thread.
Arguments Chain : clear implicits.
Arguments ServerLog : clear implicits.
