(* ===== verification/OrderingInv.v ===== *)
(** * Running the ordering thread: its chains and its monad

    What the handlers of [OrderingThread] need to know of a chain: the invariant of its Skeens
    state ([sk_ok], from [SkeensInv]) through each call the handlers make, and that of its trie
    ([tr_ok], from [Trie]) through each append; and a weakest-precondition predicate [wp] for
    the monad of the handlers. *)

From stdpp Require Import base gmap list sorting.
From Stdlib Require Import ZArith Lia.
From S2P Require Import Prelude PacketCodec Packets Trie DequeMap Skeens SkeensInv SkeensOrder.
From S2P Require Import OrderingThread.
Open Scope Z_scope.

(** ** The Skeens state of a chain *)

Section SkeensFacts.
Context `{Build} {U T MS VE : Type} `{UuidLaws U}.
Abbreviation Sk := (SkeensState U T MS VE).

(** The invariant of [SkeensInv], with the number of appends that are still in it. *)
Definition sk_ok (k : Sk) (pending : nat) : Prop :=
  exists qs hist calls, Inv k qs hist calls /\ quiescent k qs /\ pending = length (pending_ids k qs).

Lemma sk_new : sk_ok Skeens.new 0.
Proof. exists [], [], []. split; [apply inv_new|]. split; [apply quiescent_new|done]. Qed.

Lemma step_ok_pending k qs hist calls ids out k' calls' :
  step_ok k qs hist calls ids out k' calls' ->
  exists p', sk_ok k' p' /\ (length out + p' = length ids + length (pending_ids k qs))%nat.
Proof.
  intros (qs' & HI & Hq & Hperm). exists (length (pending_ids k' qs')).
  split; [by exists qs', (hist ++ out), calls'|].
  apply Permutation_length in Hperm. rewrite !length_app, length_fmap in Hperm. done.
Qed.

(** The append [id] can be queued: it is not known, and there is a timestamp and an index for it. *)
Definition fresh (k : Sk) (id : U) : Prop := room k /\ append_status k !! id = None.

Lemma sk_need_single k p ts :
  sk_ok k p -> ts + 1 < u64_max ->
  exists b k', need_single_at k ts = Done (b, k') /\ sk_ok k' p /\
    (b = true -> k' = k /\ negb (Hash.is_empty (phase1_queue k)) = true).
Proof.
  intros (qs & hist & calls & HI & Hq & ->) Hts. unfold need_single_at.
  pose proof (inv_last _ _ _ _ HI) as Hlast. rewrite (proj2 (Z.ltb_lt _ _)) by lia. simpl.
  destruct (is_empty k || (ts <=? last_flush k)) eqn:E.
  - destruct (bump_spec _ _ _ _ ts HI) as (n & -> & HI' & _); [lia|]. simpl.
    eexists false, _. split; [reflexivity|]. split; [|done]. by exists qs, hist, calls.
  - eexists true, k. split; [done|]. split; [by exists qs, hist, calls|].
    intros _. split; [done|]. apply orb_false_iff in E as [E _].
    rewrite (is_empty_spec _ _ _ _ HI Hq) in E. rewrite (rep_is_empty _ _ (inv_rep _ _ _ _ HI)).
    by destruct qs.
Qed.

Lemma sk_add_single k p id ts storage t :
  sk_ok k p -> fresh k id -> ts + 1 < u64_max ->
  negb (Hash.is_empty (phase1_queue k)) = true ->
  exists ts' n k', add_single_append k id ts storage t = Done (SAR_NewAppend ts' n, k') /\
    sk_ok k' (S p).
Proof.
  intros (qs & hist & calls & HI & Hq & ->) [[Hr1 Hr2] Hid] Hts Hne. unfold add_single_append.
  rewrite (inv_check_empty _ _ _ _ HI Hq). simpl. rewrite Hne. simpl.
  destruct (bump_spec _ _ _ _ ts HI) as (n & -> & HI' & _ & _ & Hmax); [lia|].
  rewrite done_bind. change (append_status (set_next n k)) with (append_status k). rewrite Hid.
  destruct (queue_append_step (set_next n k) qs hist calls id
    (fun ts n => W_SimpleSingle ts n storage t id) AS_Singleton) as (k' & -> & Hst & _); try done.
  - split; simpl; [|done]. lia.
  - intros ->. rewrite (rep_is_empty _ _ (inv_rep _ _ _ _ HI)) in Hne. done.
  - simpl. apply step_ok_pending in Hst as (p' & Hp' & Hlen). simpl in Hlen.
    do 3 eexists. split; [done|]. by replace (S (length (pending_ids k qs))) with p' by done.
Qed.

(** The last entry of the queue, waiting for its final timestamp. *)
Lemma inv_phase1_last (k : Sk) qs hist calls ts w :
  Inv k (qs ++ [(ts, w)]) hist calls -> has_max w = false ->
  phase1_timestamp k (w_get_id w) = Some ts.
Proof.
  intros HI Hm. assert (Hl : (qs ++ [(ts, w)]) !! length qs = Some (ts, w)).
  { by rewrite lookup_app_r, Nat.sub_diag by lia. }
  pose proof (inv_entry _ _ _ _ HI _ _ _ Hl) as He.
  pose proof (entry_waiting_ts _ _ _ _ He Hm) as Hts.
  unfold phase1_timestamp. rewrite (inv_status_q _ _ _ _ HI _ _ _ Hl).
  assert (Hs : status_of (Hash.start (phase1_queue k) + Z.of_nat (length qs)) w =
               AS_Phase1 (Hash.start (phase1_queue k) + Z.of_nat (length qs))) by (by destruct w).
  rewrite Hs, (proj2 (rep_lookup _ _ _ w (inv_rep _ _ _ _ HI))).
  - by destruct w; simpl in *; subst.
  - split; [lia|]. replace (Z.to_nat _) with (length qs) by lia. by rewrite list_lookup_fmap, Hl.
Qed.

(** The body of [add_multi_append] and [add_snapshot] on a new id. *)
Lemma sk_add k p id mk :
  sk_ok k p -> room k -> append_status k !! id = None ->
  (forall calls ts n, w_get_id (mk ts n) = id /\ entry_ok calls n ts (mk ts n) /\
     w_ts (mk ts n) = ts /\ AS_Phase1 n = status_of n (mk ts n)) ->
  (forall ts n, has_max (mk ts n) = false) ->
  exists k', (_ ← check_empty k;
     r ← match append_status k !! id with
         | Some status => r ← known_append k status; Done (r, k)
         | None => queue_append k id mk AS_Phase1
         end;
     _ ← check_empty r.2; Done r) =
       Done (SAR_NewAppend (next_timestamp k) (Hash.next (phase1_queue k)), k') /\ sk_ok k' (S p) /\
    phase1_timestamp k' id = Some (next_timestamp k).
Proof.
  intros (qs & hist & calls & HI & Hq & ->) Hr Hid Hmk Hmax.
  rewrite (inv_check_empty _ _ _ _ HI Hq). simpl. rewrite Hid.
  destruct (queue_append_step k qs hist calls id mk AS_Phase1 HI Hq Hr Hid) as (k' & E & Hst & Hc & _);
    [done|done|].
  destruct (queue_append_spec k qs hist calls id mk AS_Phase1 HI Hr Hid) as (k2 & E2 & HI2 & _); [done|].
  rewrite E in E2. injection E2 as <-. rewrite E.
  simpl. rewrite Hc. simpl. apply step_ok_pending in Hst as (p' & Hp' & Hlen). simpl in Hlen.
  eexists. split; [done|]. split; [by replace (S (length (pending_ids k qs))) with p' by done|].
  destruct (Hmk calls (next_timestamp k) (Hash.next (phase1_queue k))) as (<- & _).
  by apply (inv_phase1_last _ _ _ _ _ _ HI2).
Qed.

Lemma sk_add_multi k p id storage sentinel t :
  sk_ok k p -> fresh k id ->
  exists k', add_multi_append k id storage sentinel t =
      Done (SAR_NewAppend (next_timestamp k) (Hash.next (phase1_queue k)), k') /\
    sk_ok k' (S p) /\ phase1_timestamp k' id = Some (next_timestamp k).
Proof.
  intros Hk [Hr Hid]. unfold add_multi_append.
  apply (sk_add k p id (fun ts n => if sentinel then W_Senti ts n storage t id else W_Multi ts n storage t id));
    by destruct sentinel.
Qed.

Lemma sk_add_snapshot k p id storage t :
  sk_ok k p -> fresh k id ->
  exists k', add_snapshot k id storage t =
      Done (SAR_NewAppend (next_timestamp k) (Hash.next (phase1_queue k)), k') /\
    sk_ok k' (S p) /\ phase1_timestamp k' id = Some (next_timestamp k).
Proof. intros Hk [Hr Hid]. by apply (sk_add k p id (fun ts n => W_Snap ts n storage t id)). Qed.

(** The number of appends in the state, computed. *)
Definition pending_count (k : Sk) : nat :=
  (base.size (Hash.data (phase1_queue k)) + length (got_max_timestamp k))%nat.

Lemma sk_pending k p : sk_ok k p -> p = pending_count k.
Proof.
  intros (qs & hist & calls & HI & _ & ->). unfold pending_ids, pending_count.
  rewrite length_app, !length_fmap, (rep_size _ _ (inv_rep _ _ _ _ HI)). by rewrite length_fmap.
Qed.

(** A final timestamp for an append that waits for it is neither a duplicate nor unexpected. *)
Lemma set_max_waiting (k : Sk) p id mts ts r k' :
  sk_ok k p -> phase1_timestamp k id = Some ts -> set_max_timestamp k id mts = Done (r, k') ->
  r = SMR_Ok \/ r = SMR_NeedsFlush.
Proof.
  unfold phase1_timestamp, set_max_timestamp. intros (qs & hist & calls & HI & _ & _) Hp E.
  apply bind_done in E as (u & _ & E). apply bind_done in E as (k0 & Hb & E).
  assert (Hk0 : exists n, k0 = set_next n k).
  { unfold bump in Hb. destruct (_ <=? _); inv_done; [by eexists|].
    exists (next_timestamp k0). by destruct k0. }
  destruct Hk0 as [n ->]. cbn [append_status set_next phase1_queue] in E.
  destruct (append_status k !! id) as [[i| |]|]; try done.
  destruct (Hash.data (phase1_queue k) !! i) as [w|] eqn:Ew; [|done].
  rewrite (rep_index _ _ _ _ (inv_rep _ _ _ _ HI) Ew), done_bind in E.
  apply bind_done in E as (x & Hx & E). apply bind_done in Hx as (y & Hy & Hx).
  assert (exists w', y = inr w') as [w' ->].
  { destruct w; simpl in Hp, Hy; try done; inv_done; by eexists. }
  apply bind_done in Hx as (q & _ & Hx). injection Hx as <-. cbn [fst snd] in E.
  apply bind_done in E as (st' & _ & E). apply bind_done in E as (c & _ & E).
  injection E as <- _. destruct c; auto.
Qed.

(** What [finish_multi] does with the Skeens state. *)
Lemma sk_finish (k : Sk) p id mts ts :
  sk_ok k p -> phase1_timestamp k id = Some ts -> ts <= mts < u64_max ->
  exists r k1, set_max_timestamp k id mts = Done (r, k1) /\
    ((r = SMR_Ok /\ sk_ok k1 p) \/
     (r = SMR_NeedsFlush /\ exists gs k2 p', flush_got_max_timestamp k1 = Done (gs, k2) /\
        sk_ok k2 p' /\ (length gs + p' = p)%nat)).
Proof.
  intros Hk Hp Hts. pose proof Hk as (qs & hist & calls & HI & Hq & Hn).
  destruct (exec_finish_spec k qs hist calls id mts HI Hq) as (out & k' & E & Hst).
  { split; [lia|]. intros t Ht. rewrite Hp in Ht. injection Ht as <-. lia. }
  simpl in E. apply bind_done in E as ([r k1] & Er & E). exists r, k1. split; [done|].
  apply step_ok_pending in Hst as (p' & Hp' & Hlen). simpl in Hlen.
  destruct (set_max_waiting _ _ _ _ _ _ _ Hk Hp Er) as [->| ->]; simpl in E.
  - left. injection E as <- <-. split; [done|]. simpl in Hlen. by subst.
  - right. split; [done|]. exists out, k', p'. split_and!; [done|done|]. by subst.
Qed.

End SkeensFacts.

Section Inv.
Context `{Build} {T A : Type} `{ByteTrie A, !ByteTrieView A, !ByteTrieLaws A}.

Abbreviation Server := (ServerLog T A).
Abbreviation MM := (M (T := T) (A := A)).

(** ** Running a handler *)

Definition wp {X} (m : MM X) (Q : X -> Server -> Prop) (s : Server) : Prop :=
  exists s' x, m s = Done (s', x) /\ Q x s'.

Lemma wp_mono {X} (m : MM X) Q Q' s :
  wp m Q s -> (forall x s', Q x s' -> Q' x s') -> wp m Q' s.
Proof. intros (s' & x & E & HQ) HQQ. exists s', x. split; [done|]. by apply HQQ. Qed.

Lemma wp_ret {X} (x : X) Q s : Q x s -> wp (mret x) Q s.
Proof. intros HQ. by exists s, x. Qed.

Lemma wp_bind {X Y} (m : MM X) (k : X -> MM Y) Q s :
  wp m (fun x s' => wp (k x) Q s') s -> wp (m ≫= k) Q s.
Proof.
  intros (s1 & x & E1 & s2 & y & E2 & HQ). exists s2, y. split; [|done].
  unfold mbind, M_bind. by rewrite E1.
Qed.

Lemma wp_lift {X} (o : outcome X) x Q s : o = Done x -> Q x s -> wp (lift o) Q s.
Proof. intros -> HQ. by exists s, x. Qed.

Definition with_log (l : gmap Z (Chain T A)) (s : Server) : Server :=
  mkServer l (total_servers s) (this_server_num s) (to_workers s) (storages s).

Definition with_msgs (ms : list (ToWorker T)) (s : Server) : Server :=
  mkServer (log s) (total_servers s) (this_server_num s) ms (storages s).

Definition with_storages (st : gmap Z MultiStorage) (s : Server) : Server :=
  mkServer (log s) (total_servers s) (this_server_num s) (to_workers s) st.

Lemma wp_send m Q s : Q tt (with_msgs (to_workers s ++ [m]) s) -> wp (send_to_worker m) Q s.
Proof. intros HQ. by eexists _, _. Qed.

Lemma wp_stores_chain c Q s :
  total_servers s <> 0 -> Q (c mod total_servers s =? this_server_num s) s ->
  wp (stores_chain c) Q s.
Proof.
  intros Ht HQ. eexists s, _. split; [|exact HQ]. unfold stores_chain.
  by rewrite (proj2 (Z.eqb_neq _ _) Ht).
Qed.

Lemma wp_not_here c Q s :
  total_servers s <> 0 -> Q ((c =? 0) || negb (c mod total_servers s =? this_server_num s)) s ->
  wp (not_here c) Q s.
Proof.
  intros Ht HQ. unfold not_here. destruct (c =? 0); [by apply wp_ret|].
  by apply wp_bind, wp_stores_chain, wp_ret.
Qed.

Lemma wp_get_chain o Q s : Q (log s !! o) s -> wp (get_chain o) Q s.
Proof. intros HQ. by eexists _, _. Qed.

Lemma wp_get_storage h m Q s : storages s !! h = Some m -> Q m s -> wp (get_storage h) Q s.
Proof. intros Hh HQ. exists s, m. unfold get_storage. by rewrite Hh. Qed.

Lemma wp_put_storage h m Q s :
  Q tt (with_storages (<[h := m]> (storages s)) s) -> wp (put_storage h m) Q s.
Proof. intros HQ. by eexists _, _. Qed.

(** The chain [ensure_chain] returns. *)
Definition cur (s : Server) (o : Z) (c : Chain T A) : Prop :=
  log s !! o = Some c \/ (log s !! o = None /\ new_chain = Done c).

Lemma wp_ensure_chain o c Q s :
  cur s o c -> Q c (with_log (<[o := c]> (log s)) s) -> wp (ensure_chain o) Q s.
Proof.
  intros Hc HQ. unfold ensure_chain. apply wp_bind, wp_get_chain.
  destruct Hc as [Hc|[Hn Hc]].
  - rewrite Hc. apply wp_ret. replace s with (with_log (<[o := c]> (log s)) s); [done|].
    rewrite insert_id by done. by destruct s.
  - rewrite Hn. apply wp_bind. eapply wp_lift; [exact Hc|]. apply wp_bind.
    eexists _, tt. split; [reflexivity|]. by apply wp_ret.
Qed.

Lemma wp_on_trie {X} o c (f : Trie A -> outcome (Trie A * X)) t' x Q s :
  cur s o c -> f (trie c) = Done (t', x) ->
  Q x (with_log (<[o := mkChain t' (skeens c)]> (log s)) s) -> wp (on_trie o f) Q s.
Proof.
  intros Hc Hf HQ. unfold on_trie. apply wp_bind. eapply wp_ensure_chain; [exact Hc|].
  apply wp_bind. eapply wp_lift; [exact Hf|]. apply wp_bind.
  eexists _, tt. split; [reflexivity|]. apply wp_ret.
  unfold with_log in *. simpl. by rewrite insert_insert_eq.
Qed.

Lemma wp_on_skeens {X} o c (f : SkeensState Z T Z Z -> outcome (X * SkeensState Z T Z Z)) k' x Q s :
  cur s o c -> f (skeens c) = Done (x, k') ->
  Q x (with_log (<[o := mkChain (trie c) k']> (log s)) s) -> wp (on_skeens o f) Q s.
Proof.
  intros Hc Hf HQ. unfold on_skeens. apply wp_bind. eapply wp_ensure_chain; [exact Hc|].
  apply wp_bind. eapply wp_lift; [exact Hf|]. apply wp_bind.
  eexists _, tt. split; [reflexivity|]. apply wp_ret.
  unfold with_log in *. simpl. by rewrite insert_insert_eq.
Qed.

(** ** The trie of a chain *)

(** [vals] are the pointers of the entries, [slots] their places, [O] the ranges of bytes that
    are reserved. *)
Record tr_rep (t : Trie A) (vals : list Z) (slots : list Slot) (O : list (Z * Z)) : Prop := {
  tr_root : represents (root t) vals slots;
  tr_unlocked : is_locked (root t) = false;
  tr_alloc : bt_ok (alloc t) O;
}.

Definition tr_ok (t : Trie A) (n : Z) : Prop :=
  exists vals slots O, tr_rep t vals slots O /\ n = Z.of_nat (length vals) /\ 1 <= n.

(** [t'] has the entries and the bytes of [t], and perhaps more. *)
Definition grows (t t' : Trie A) : Prop :=
  forall vals slots O, tr_rep t vals slots O -> exists vals' slots' O',
    tr_rep t' vals' slots' O' /\ vals `prefix_of` vals' /\ slots `prefix_of` slots' /\ O ⊆ O' /\
    forall q m, (q, m) ∈ O -> range_bytes (alloc t') q m = range_bytes (alloc t) q m.

Lemma grows_refl t : grows t t.
Proof. intros vals slots O Ht. by exists vals, slots, O. Qed.

Lemma grows_trans t1 t2 t3 : grows t1 t2 -> grows t2 t3 -> grows t1 t3.
Proof.
  intros G1 G2 vals slots O Ht. destruct (G1 _ _ _ Ht) as (v1 & s1 & O1 & Ht1 & Hv1 & Hs1 & HO1 & Hb1).
  destruct (G2 _ _ _ Ht1) as (v2 & s2 & O2 & Ht2 & Hv2 & Hs2 & HO2 & Hb2).
  exists v2, s2, O2. split_and!; [done|by etrans|by etrans|by etrans|].
  intros q m Hq. rewrite Hb2 by (by apply HO1). by apply Hb1.
Qed.

Definition t_used (t : Trie A) : Z := bt_used (alloc t).

Lemma tr_len t n : tr_ok t n -> Trie.len (root t) = n.
Proof. intros (vals & slots & O & [(G & HR & _) _ _] & -> & _). apply (r_next _ _ _ _ HR). Qed.

Lemma is_locked_eq t t' : lock_pair t' = lock_pair t -> is_locked t' = is_locked t.
Proof. unfold lock_pair, is_locked. by intros [= -> ->]. Qed.

Lemma tr_horizon t n : tr_ok t n -> Trie.horizon (root t) = Done (n - 1).
Proof.
  intros Ht. pose proof (tr_len _ _ Ht) as Hl.
  destruct Ht as (vals & slots & O & [(G & HR & _) _ _] & Hn & H1).
  unfold Trie.horizon, Trie.len in *. rewrite Hl. pose proof (r_range _ _ _ _ HR).
  apply sub64_ok. unfold in_u64, u64_max. lia.
Qed.

(** *** Slots *)

Lemma represents_length t vals slots : represents t vals slots -> length slots = length vals.
Proof. by intros (G & _ & Hl & _). Qed.

Lemma represents_bound t vals slots : represents t vals slots -> Z.of_nat (length vals) < 2 ^ 63.
Proof. intros (G & HR & _). pose proof (r_range _ _ _ _ HR). lia. Qed.

(** The slots of a trie are a function of it. *)
Lemma represents_slots t vals slots k s :
  represents t vals slots -> slots !! k = Some s -> get_entry_at t (Z.of_nat k) = Some s.
Proof.
  intros HR Hk. pose proof (lookup_lt_Some _ _ _ Hk) as Hlt. rewrite (represents_length _ _ _ HR) in Hlt.
  pose proof (represents_bound _ _ _ HR).
  rewrite (proj2 (represents_lookup _ _ _ (Z.of_nat k) HR ltac:(lia))) by lia. by rewrite Nat2Z.id.
Qed.

(** The place [i] of the trie is the slot [s]. *)
Definition handed (t : Trie A) (i : Z) (s : Slot) : Prop :=
  0 <= i < Trie.len (root t) /\ get_entry_at (root t) i = Some s.

Lemma handed_lookup t vals slots O i s :
  tr_rep t vals slots O -> handed t i s -> slots !! Z.to_nat i = Some s /\ i = Z.of_nat (Z.to_nat i).
Proof.
  intros [HR _ _] [Hi He]. pose proof (represents_bound _ _ _ HR) as Hb.
  assert (Hlen : Trie.len (root t) = Z.of_nat (length vals)).
  { destruct HR as (G & HR & _). apply (r_next _ _ _ _ HR). }
  rewrite (proj2 (represents_lookup _ _ _ i HR ltac:(lia))) in He by lia. split; [done|lia].
Qed.

Lemma rep_len t vals slots O : tr_rep t vals slots O -> Trie.len (root t) = Z.of_nat (length vals).
Proof. intros [(G & HR & _) _ _]. apply (r_next _ _ _ _ HR). Qed.

Lemma handed_at t vals slots O k s :
  tr_rep t vals slots O -> slots !! k = Some s -> handed t (Z.of_nat k) s.
Proof.
  intros HR Hk. split; [|by eapply represents_slots; [apply HR|]]. rewrite (rep_len _ _ _ _ HR).
  rewrite <-(represents_length _ _ _ (tr_root _ _ _ _ HR)). pose proof (lookup_lt_Some _ _ _ Hk). lia.
Qed.

Lemma handed_grows t t' n i s : tr_ok t n -> handed t i s -> grows t t' -> handed t' i s.
Proof.
  intros (vals & slots & O & HR & _) Hh Hg. destruct (handed_lookup _ _ _ _ _ _ HR Hh) as [Hk Hi].
  destruct (Hg _ _ _ HR) as (vals' & slots' & O' & HR' & _ & Hs' & _). rewrite Hi.
  eapply handed_at; [exact HR'|]. by eapply prefix_lookup_Some.
Qed.

(** The next place of the trie, with a null pointer in it. *)
Lemma rep_append t vals slots O :
  tr_rep t vals slots O -> Z.of_nat (length vals) + 1 < LIMIT ->
  exists r s, prep_append edge_null (root t) = Done (r, (Z.of_nat (length vals), s)) /\
    represents r (vals ++ [edge_null]) (slots ++ [s]) /\ is_locked r = false.
Proof.
  intros [HR Hl Ha] Hlim. destruct (represents_append edge_null _ _ _ HR Hlim) as (r & s & E & HR' & Hlock).
  exists r, s. split_and!; [done|done|]. by rewrite (is_locked_eq _ _ Hlock).
Qed.

Lemma tr_prep t n :
  tr_ok t n -> n + 1 < LIMIT ->
  exists t' s, trie_prep_append t = Done (t', (n, s)) /\ tr_ok t' (n + 1) /\ grows t t' /\
    t_used t' = t_used t /\ handed t' n s.
Proof.
  intros (vals & slots & O & HR & -> & H1) Hlim.
  destruct (rep_append _ _ _ _ HR Hlim) as (r & s & E & HR' & Hlock).
  exists (mkTrie r (alloc t)), s. unfold trie_prep_append. rewrite E. split; [done|]. split; [|split; [|split; [done|]]].
  - exists (vals ++ [edge_null]), (slots ++ [s]), O. destruct HR. split; [done|]. rewrite length_app. simpl. lia.
  - intros vals2 slots2 O2 HR2. assert (Hn : Z.of_nat (length vals2) = Z.of_nat (length vals)).
    { rewrite <-(tr_len t (Z.of_nat (length vals))) by (by exists vals, slots, O).
      destruct HR2 as [(G & HG & _) _ _]. symmetry. apply (r_next _ _ _ _ HG). }
    destruct (rep_append _ _ _ _ HR2 ltac:(lia)) as (r2 & s2 & E2 & HR2' & Hlock2).
    rewrite E in E2. injection E2 as <- _ <-. exists (vals2 ++ [edge_null]), (slots2 ++ [s]), O2.
    destruct HR2. split_and!; [done|by eexists|by eexists|done|done].
  - apply (handed_at (mkTrie r (alloc t)) (vals ++ [edge_null]) (slots ++ [s]) O); [by destruct HR|].
    rewrite <-(represents_length _ _ _ (tr_root _ _ _ _ HR)). by rewrite lookup_app_r, Nat.sub_diag by lia.
Qed.

(** *** Reserving bytes *)

Definition alloc_size (size : Z) : Z := if negb (Z.land size 1 =? 0) then size + 1 else size.

(** What an entry can cost: the rest of a block is lost, or it gets a box of its own. *)
Definition cost (size : Z) : Z := Z.max LEVEL_BYTES (size + 1).

Lemma land_1 n : Z.land n 1 = n mod 2.
Proof. change 1 with (Z.ones 1) at 1. by rewrite Z.land_ones. Qed.

Lemma alloc_size_spec size :
  0 < size -> size <= alloc_size size <= size + 1 /\ Z.land (alloc_size size) 1 = 0.
Proof.
  intros Hs. unfold alloc_size. rewrite !land_1. pose proof (Z.mod_pos_bound size 2 ltac:(lia)).
  destruct (Z.eqb_spec (size mod 2) 0) as [E|E]; cbn [negb]; rewrite ?land_1; [lia|].
  split; [lia|]. rewrite Z.add_mod by done. replace (size mod 2) with 1 by lia. done.
Qed.

Lemma edge_ptr_bit p i : 0 <= i -> Z.testbit (edge_ptr p) i = Z.testbit p i && ((1 <=? i) && (i <? 64)).
Proof.
  intros Hi. unfold edge_ptr. rewrite Z.land_spec. f_equal.
  replace (u64_max - 1) with (Z.shiftl (Z.ones 63) 1) by done.
  rewrite Z.shiftl_spec by done. destruct (Z.leb_spec 1 i); [|by rewrite Z.testbit_neg_r by lia].
  rewrite Z.testbit_ones by lia. destruct (Z.leb_spec 0 (i - 1)), (Z.ltb_spec (i - 1) 63), (Z.ltb_spec i 64); lia.
Qed.

(** The pointer behind an edge, whatever its mark. *)
Lemma edge_ptr_mark p m :
  Z.land p 1 = 0 -> 0 <= p < 2 ^ 64 -> m = 0 \/ m = 1 -> edge_ptr (Z.lor p m) = p.
Proof.
  intros Heven Hp Hm. apply Z.bits_inj'. intros i Hi. rewrite edge_ptr_bit, Z.lor_spec by done.
  destruct (Z.eq_dec i 0) as [->|Hi0].
  - rewrite land_1 in Heven. by rewrite andb_false_r, Z.bit0_odd, Zodd_mod, Heven.
  - rewrite (proj2 (Z.leb_le 1 i)) by lia. replace (Z.testbit m i) with false.
    + rewrite orb_false_r. destruct (Z.ltb_spec i 64); [by rewrite andb_true_r|].
      rewrite andb_false_r. symmetry. destruct (Z.eq_dec p 0) as [->|]; [apply Z.testbit_0_l|].
      apply Z.bits_above_log2; [lia|]. apply Z.log2_lt_pow2; [lia|].
      pose proof (Z.pow_le_mono_r 2 64 i). lia.
    + symmetry. destruct Hm as [->| ->]; [apply Z.testbit_0_l|]. apply Z.bits_above_log2; [lia|].
      change (Z.log2 1) with 0. lia.
Qed.

Lemma mark_ok (b : bool) p :
  even_ptr p -> p < rc_base ->
  exists v, (if b then end_from_ptr p else mid_from_ptr p) = Done v /\ edge_ptr v = p /\ v <> 0.
Proof.
  intros [Hev Hp0] Hp. unfold rc_base in Hp. unfold end_from_ptr, mid_from_ptr. rewrite Hev. cbn [Z.eqb assert_].
  rewrite done_bind. destruct b; rewrite ?done_bind; eexists; (split; [reflexivity|]).
  - split; [apply edge_ptr_mark; [done|lia|by right]|]. rewrite Z.lor_eq_0_iff. lia.
  - split; [|lia]. rewrite <-(Z.lor_0_r p) at 1. apply edge_ptr_mark; [done|lia|by left].
Qed.

Lemma reserve_ok (size : Z) (a : A) O :
  bt_ok a O -> 0 < size -> bt_used a + cost size <= BYTES_LIMIT ->
  exists a' v loc, alloc_reserve_space size a = Done (a', (v, loc)) /\
    reserved a O a' (edge_ptr v) (alloc_size size) /\ v <> 0 /\
    bt_used a <= bt_used a' <= bt_used a + cost size /\ (a = bt_new -> size = 1 -> loc = 0).
Proof.
  intros Ha Hs Hu. unfold alloc_reserve_space. fold (alloc_size size).
  destruct (alloc_size_spec size Hs) as [Hn Hev]. set (n := alloc_size size) in *.
  assert (exists a' p loc, alloc_prep_append n a = Done (a', (p, loc)) /\ reserved a O a' p n /\
    bt_used a <= bt_used a' <= bt_used a + cost size /\ (a = bt_new -> size = 1 -> loc = 0)) as
    (a' & p & loc & E & Hr & Hu' & Hl).
  { unfold alloc_prep_append. destruct (Z.leb_spec n MAX_IN_BLOCK_SIZE) as [Hm|Hm].
    - destruct (bt_append_ok a O n Ha) as (a' & p & loc & E & Hr & Hu' & Hl);
        [lia|done|unfold cost in *; lia|].
      exists a', p, loc. split_and!; [done|done|lia|unfold cost; lia|]. intros Hb _. by apply Hl.
    - destruct (bt_box_ok a O n Ha) as (a' & p & E & Hr & Hu'); [lia|done|unfold cost in *; lia|].
      rewrite E. exists a', p, u64_max. split_and!; [done|done|lia|unfold cost; lia|].
      intros _ ->. change (8192 / 2 < n) in Hm. change (8192 / 2) with 4096 in Hm. lia. }
  rewrite E, done_bind. pose proof Hr as (_ & Hep & Hb & _).
  destruct (mark_ok ((loc mod LEVEL_BYTES =? 0) || (loc =? u64_max)) p Hep Hb) as (v & -> & Hv & Hv0).
  rewrite done_bind. exists a', v, loc. rewrite Hv. split_and!; try done; lia.
Qed.

(** Ranges that were reserved are kept. *)
Lemma grows_alloc t a' v n :
  (forall O, bt_ok (alloc t) O -> reserved (alloc t) O a' v n) -> grows t (mkTrie (root t) a').
Proof.
  intros Hr vals slots O [HR Hl Ha]. destruct (Hr _ Ha) as (Ha' & _ & _ & Hb).
  exists vals, slots, ((v, n) :: O). split_and!; [done|done|done|set_solver|]. intros q m Hq. by apply Hb.
Qed.

Lemma tr_reserve t n size :
  tr_ok t n -> 0 < size -> t_used t + cost size <= BYTES_LIMIT ->
  exists t' v loc, reserve_space size t = Done (t', (v, loc)) /\ tr_ok t' n /\ grows t t' /\
    t_used t <= t_used t' <= t_used t + cost size.
Proof.
  intros (vals & slots & O & [HR Hl Ha] & Hn & H1) Hs Hu. unfold reserve_space.
  destruct (reserve_ok size (alloc t) O Ha Hs Hu) as (a' & v & loc & E & Hr & _ & Hu' & _).
  rewrite E, done_bind. exists (mkTrie (root t) a'), v, loc. split_and!; [done| | |exact (proj1 Hu')|exact (proj2 Hu')].
  - exists vals, slots, ((edge_ptr v, alloc_size size) :: O). by destruct Hr as (? & _).
  - apply (grows_alloc t a' (edge_ptr v) (alloc_size size)). intros O' Ha'.
    destruct (reserve_ok size (alloc t) O' Ha' Hs Hu) as (a2 & v2 & l2 & E2 & Hr2 & _).
    rewrite E in E2. by injection E2 as <- <- <-.
Qed.

(** *** Appends *)

(** The slot of an append that is not finished: the place [k] and [data_size] bytes are its own. *)
Definition claims (t : Trie A) (vals : list Z) (slots : list Slot) (O : list (Z * Z)) (slot : AppendSlot)
    (k : nat) : Prop :=
  tr_rep t vals slots O /\ slots !! k = Some (trie_entry slot) /\
  (data_ptr slot <> 0 /\ edge_ptr (data_ptr slot) < rc_base) /\
  (edge_ptr (data_ptr slot), alloc_size (data_size slot)) ∈ O /\ 0 < data_size slot.

Lemma rep_partial t vals slots O size :
  tr_rep t vals slots O -> Z.of_nat (length vals) + 1 < LIMIT -> 0 < size ->
  t_used t + cost size <= BYTES_LIMIT ->
  exists t' slot O', partial_append size t = Done (t', slot) /\ data_size slot = size /\
    O' = (edge_ptr (data_ptr slot), alloc_size size) :: O /\
    claims t' (vals ++ [edge_null]) (slots ++ [trie_entry slot]) O' slot (length slots) /\
    t_used t <= t_used t' <= t_used t + cost size /\
    (forall q m, (q, m) ∈ O -> q <> edge_ptr (data_ptr slot) /\
       range_bytes (alloc t') q m = range_bytes (alloc t) q m) /\
    (alloc t = bt_new -> size = 1 -> storage_loc slot = 0).
Proof.
  intros HR Hlim Hs Hu. unfold partial_append.
  destruct (reserve_ok size (alloc t) O (tr_alloc _ _ _ _ HR) Hs Hu) as (a' & v & loc & E & Hr & Hv & Hu' & Hl).
  rewrite E, done_bind. destruct (rep_append _ _ _ _ HR Hlim) as (r & s & -> & HR' & Hlock).
  rewrite done_bind. destruct Hr as (Ha & _ & Hrc & Hb).
  eexists _, _, _. split; [reflexivity|]. cbn [data_size data_ptr trie_entry storage_loc].
  split; [done|]. split; [done|]. split; [|split; [exact Hu'|by split]].
  split; [done|]. split; [by rewrite lookup_app_r, Nat.sub_diag by lia|]. split; [done|]. split; [by left|done].
Qed.

(** Finishing an append stores the pointer in its place and writes only its bytes. *)
Lemma rep_publish t vals slots O slot k bytes :
  claims t vals slots O slot k -> zlen bytes <= data_size slot ->
  tr_rep (publish slot bytes t) (<[k := data_ptr slot]> vals) slots O /\
  t_used (publish slot bytes t) = t_used t /\
  range_bytes (alloc (publish slot bytes t)) (edge_ptr (data_ptr slot)) (zlen bytes) = bytes /\
  forall q m, (q, m) ∈ O -> q <> edge_ptr (data_ptr slot) ->
    range_bytes (alloc (publish slot bytes t)) q m = range_bytes (alloc t) q m.
Proof.
  intros ([HR Hl Ha] & Hk & Hp & HO & Hs) Hlen. pose proof (alloc_size_spec _ Hs) as [Hn _].
  destruct (bt_write_ok _ _ _ _ bytes Ha HO ltac:(lia)) as (Ha' & Hu & Hb & Hq).
  split_and!; try done. constructor; [by apply represents_store|done|done].
Qed.

Lemma tr_partial t n size :
  tr_ok t n -> n + 1 < LIMIT -> 0 < size -> t_used t + cost size <= BYTES_LIMIT ->
  exists t' slot, partial_append size t = Done (t', slot) /\ tr_ok t' (n + 1) /\ data_size slot = size /\
    grows t t' /\ t_used t <= t_used t' <= t_used t + cost size /\
    exists vals slots O, claims t' vals slots O slot (Z.to_nat n).
Proof.
  intros (vals & slots & O & HR & -> & H1) Hlim Hs Hu.
  destruct (rep_partial _ _ _ _ _ HR Hlim Hs Hu) as (t' & slot & O' & E & Hsz & HO & Hc & Hu' & Hb & _).
  assert (Hls : length slots = length vals).
  { destruct (tr_root _ _ _ _ HR) as (G & HG & Hrest). by destruct_and? Hrest. }
  exists t', slot. split_and!; [done| |done| |lia|lia|].
  - eexists _, _, _. split; [apply Hc|]. rewrite length_app. simpl. lia.
  - intros vals2 slots2 O2 HR2. assert (Hn : Z.of_nat (length vals2) = Z.of_nat (length vals)).
    { rewrite <-(tr_len t (Z.of_nat (length vals))) by (by exists vals, slots, O).
      destruct HR2 as [(G & HG & _) _ _]. symmetry. apply (r_next _ _ _ _ HG). }
    destruct (rep_partial _ _ _ _ size HR2) as (t2 & slot2 & O2' & E2 & _ & HO2 & Hc2 & _ & Hb2 & _);
      [lia|done..|].
    rewrite E in E2. injection E2 as <- <-. eexists _, _, _. split; [apply Hc2|].
    split_and!; [by eexists|by eexists|subst; set_solver|]. intros q m Hq. by apply Hb2.
  - eexists _, _, _. rewrite Nat2Z.id, <-Hls. exact Hc.
Qed.

(** An append that is finished at once. *)
Lemma tr_partial_publish t size vals slots O :
  tr_rep t vals slots O -> Z.of_nat (length vals) + 1 < LIMIT -> 0 < size ->
  t_used t + cost size <= BYTES_LIMIT ->
  exists t' slot, partial_append size t = Done (t', slot) /\ data_size slot = size /\
    (alloc t = bt_new -> size = 1 -> storage_loc slot = 0) /\
    forall bytes, zlen bytes <= size -> tr_ok (publish slot bytes t') (Z.of_nat (length vals) + 1) /\
      t_used t <= t_used (publish slot bytes t') <= t_used t + cost size /\ grows t (publish slot bytes t').
Proof.
  intros HR Hlim Hs Hu.
  destruct (rep_partial _ _ _ _ _ HR Hlim Hs Hu) as (t' & slot & O' & E & Hsz & HO & Hc & Hu' & Hb & Hl).
  exists t', slot. split_and!; [done..|]. intros bytes Hlen.
  destruct (rep_publish _ _ _ _ _ _ bytes Hc ltac:(lia)) as (HR' & Hu2 & _ & _). rewrite Hu2.
  split_and!; [|lia|lia|].
  - eexists _, _, _. split; [exact HR'|]. rewrite length_insert, length_app. simpl. lia.
  - intros vals2 slots2 O2 HR2. assert (Hn : Z.of_nat (length vals2) = Z.of_nat (length vals)).
    { destruct HR as [(G & HG & _) _ _], HR2 as [(G2 & HG2 & _) _ _].
      by rewrite <-(r_next _ _ _ _ HG), <-(r_next _ _ _ _ HG2). }
    destruct (rep_partial _ _ _ _ size HR2) as (t2 & slot2 & O2' & E2 & _ & HO2 & Hc2 & _ & Hb2 & _);
      [lia|done..|].
    rewrite E in E2. injection E2 as <- <-.
    destruct (rep_publish _ _ _ _ _ _ bytes Hc2 ltac:(lia)) as (HR2' & _ & _ & Hq2).
    assert (Hls : length slots2 = length vals2).
    { destruct (tr_root _ _ _ _ HR2) as (G & HG & Hrest). by destruct_and? Hrest. }
    rewrite Hls, insert_app_r_alt, Nat.sub_diag in HR2' by lia.
    eexists _, _, _. split; [exact HR2'|]. split_and!; [by eexists|by eexists|subst; set_solver|].
    intros q m Hq. destruct (Hb2 q m Hq) as [Hne <-]. apply Hq2; [subst; by right|done].
Qed.

Definition NEW_USED : Z := LEVEL_BYTES.

Lemma new_chain_ok : exists c : Chain T A, new_chain = Done c /\ tr_ok (trie c) 1 /\
  skeens c = Skeens.new /\ t_used (trie c) <= NEW_USED.
Proof.
  unfold new_chain.
  destruct (tr_partial_publish trie_new 1 [] [] []) as (t & slot & -> & Hs & Hloc & Hp).
  - constructor; [apply represents_new|done|apply bt_new_ok].
  - done.
  - done.
  - unfold t_used, trie_new. cbn [alloc]. by rewrite bt_new_used.
  - destruct (Hp [EntryKind.Read]) as (Ht & Hu & _); [done|]. rewrite done_bind. unfold write_byte.
    rewrite Hs, (Hloc eq_refl eq_refl). cbn [Z.eqb assert_ Pos.eqb]. rewrite !done_bind.
    eexists. split; [reflexivity|]. cbn [trie skeens]. split_and!; [exact Ht|done|].
    assert (E0 : t_used trie_new = 0) by apply bt_new_used. rewrite E0 in Hu. unfold NEW_USED. exact (proj2 Hu).
Qed.

Lemma blank_valid o : in_u64 o -> valid (blank_senti o) = true.
Proof.
  intros Ho%in_u64b_spec. unfold valid, full, variant_of, blank_senti.
  cbn -[in_u64b]. by rewrite Ho.
Qed.

Lemma blank_cost o : cost (zlen (bytes_of (blank_senti o))) = LEVEL_BYTES.
Proof. reflexivity. Qed.

Lemma tr_blank o t n :
  tr_ok t n -> n + 1 < LIMIT -> t_used t + LEVEL_BYTES <= BYTES_LIMIT -> in_u64 o ->
  exists t' n', horizon_or_add_blank o t = Done (t', n' - 1) /\ tr_ok t' n' /\ n <= n' <= n + 1 /\
    t_used t <= t_used t' <= t_used t + LEVEL_BYTES /\ grows t t'.
Proof.
  intros Ht Hlim Hu Ho. unfold horizon_or_add_blank. rewrite (tr_horizon _ _ Ht), done_bind.
  destruct (Z.ltb_spec 0 (n - 1)) as [Hpos|Hpos].
  { exists t, n. split; [done|]. split; [done|]. split; [lia|]. split; [unfold LEVEL_BYTES; lia|]. apply grows_refl. }
  pose proof (blank_valid o Ho) as Hv. rewrite (len_valid _ Hv), done_bind.
  destruct Ht as (vals & slots & O & HR & -> & H1).
  destruct (tr_partial_publish t (zlen (bytes_of (blank_senti o))) vals slots O HR Hlim)
    as (t' & slot & -> & Hs & _ & Hp).
  { unfold zlen, bytes_of, packet_bytes. cbn [length]. lia. }
  { by rewrite blank_cost. }
  rewrite done_bind. unfold finish_append_with_contents. rewrite (len_valid _ Hv), done_bind.
  rewrite Hs, Z.eqb_refl. cbn [assert_]. rewrite done_bind, (fill_valid _ [] Hv), !done_bind.
  rewrite blank_cost in Hp.
  destruct (Hp (bytes_of (blank_senti o)) ltac:(lia)) as (Ht & Hu' & Hg).
  cbn [app]. rewrite (tr_horizon _ _ Ht), done_bind.
  eexists _, _. split; [reflexivity|]. split; [exact Ht|]. split; [lia|]. by split.
Qed.

(** *** What a worker does *)

Definition trie_store (s : Slot) (v : Z) (t : Trie A) : Trie A := mkTrie (atomic_store s v (root t)) (alloc t).
Definition trie_copy (p : Z) (bytes : list Z) (t : Trie A) : Trie A := mkTrie (root t) (bt_write (alloc t) p bytes).

Lemma rep_store t vals slots O k s v :
  tr_rep t vals slots O -> slots !! k = Some s -> tr_rep (trie_store s v t) (<[k := v]> vals) slots O.
Proof. intros [HR Hl Ha] Hk. constructor; [by apply represents_store|done|done]. Qed.

Lemma rep_copy t vals slots O p n bytes :
  tr_rep t vals slots O -> (p, n) ∈ O -> zlen bytes <= n -> tr_rep (trie_copy p bytes t) vals slots O.
Proof. intros [HR Hl Ha] Hp Hn. constructor; [done|done|]. by eapply bt_write_ok. Qed.

Lemma publish_eq slot bytes (t : Trie A) :
  publish slot bytes t = trie_store (trie_entry slot) (data_ptr slot) (trie_copy (edge_ptr (data_ptr slot)) bytes t).
Proof. done. Qed.

Lemma tr_rep_ok t vals slots O k s :
  tr_rep t vals slots O -> slots !! k = Some s -> tr_ok t (Z.of_nat (length vals)).
Proof.
  intros HR Hk. exists vals, slots, O. split; [done|]. split; [done|].
  apply lookup_lt_Some in Hk. rewrite (represents_length _ _ _ (tr_root _ _ _ _ HR)) in Hk. lia.
Qed.

Lemma trie_store_ok t n vals slots O i s v :
  tr_rep t vals slots O -> handed t i s -> n = Z.of_nat (length vals) -> tr_ok (trie_store s v t) n.
Proof.
  intros HR Hh ->. destruct (handed_lookup _ _ _ _ _ _ HR Hh) as [Hk _].
  pose proof (tr_rep_ok _ _ _ _ _ _ (rep_store _ _ _ _ _ _ v HR Hk) Hk) as Hok. by rewrite length_insert in Hok.
Qed.

Lemma trie_copy_ok t n vals slots O p m bytes :
  tr_ok t n -> tr_rep t vals slots O -> (p, m) ∈ O -> zlen bytes <= m -> tr_ok (trie_copy p bytes t) n.
Proof.
  intros Hn HR Hp Hm. exists vals, slots, O. split; [by eapply rep_copy|].
  rewrite <-(rep_len _ _ _ _ HR), (tr_len _ _ Hn). split; [done|]. by destruct Hn as (? & ? & ? & _ & _ & ?).
Qed.

End Inv.
