(* ===== verification/OrderingSafety.v ===== *)
(** * What a server guarantees

    The invariant [srv_inv] of the ordering thread: every chain has a well-formed trie and a
    Skeens state that satisfies its own invariant, and the places given to the appends of a
    chain, in the order in which the workers are told about them, are strictly increasing and
    below the length of the chain.  Requests that respect the protocol ([op_ok]) never make the
    thread panic, and keep the invariant. *)

From stdpp Require Import base gmap list sorting strings.
From Stdlib Require Import ZArith Lia.
From S2P Require Import Prelude PacketCodec Packets Trie DequeMap Skeens SkeensInv SkeensOrder.
From S2P Require Import ByteTrie OrderingThread OrderingInv.
Open Scope Z_scope.

Section Safety.
Context `{Build} {T A : Type} `{ByteTrie A, !ByteTrieView A, !ByteTrieLaws A}.

Abbreviation Server := (ServerLog T A).

(** ** The places a message gives *)

(** The indices in chain [o] of a multi-append that took the fast path: those of its locations
    before the sentinels. *)
Fixpoint fast_placed (o : Z) (is_sentinel : bool) (ls : list OrderIndex) : list Z :=
  match ls with
  | [] => []
  | l :: ls =>
      if oi_order l =? 0 then fast_placed o true ls
      else (if negb is_sentinel && (oi_order l =? o) then [oi_entry l] else [])
             ++ fast_placed o is_sentinel ls
  end.

Definition placed (o : Z) (m : ToWorker T) : list Z :=
  match m with
  | Write buffer (c, _) _ =>
      match Packets.locs buffer with
      | Done (l :: _) => if c =? o then [oi_entry l] else []
      | _ => []
      end
  | MultiFastPath buffer _ _ =>
      match Packets.locs buffer with Done ls => fast_placed o false ls | Panic => [] end
  | DelayedSingle index (Some (c, _)) _ _ _ => if c =? o then [index] else []
  | SkeensFinished loc (Some (c, _)) _ _ _ => if c =? o then [oi_entry loc] else []
  | _ => []
  end.

Definition positions (o : Z) (ms : list (ToWorker T)) : list Z := flat_map (placed o) ms.

(** ** The invariant *)

(** The next index of a chain; a chain that is not there starts with one entry. *)
Definition chain_len (s : Server) (o : Z) : Z :=
  match log s !! o with Some c => Trie.len (root (trie c)) | None => 1 end.

Definition cur_skeens (s : Server) (o : Z) : SkeensState Z T Z Z :=
  match log s !! o with Some c => skeens c | None => Skeens.new end.

(** The bytes of memory a chain has taken. *)
Definition chain_used (s : Server) (o : Z) : Z :=
  match log s !! o with Some c => t_used (trie c) | None => NEW_USED end.

Definition room_for (s : Server) (o : Z) (n b : Z) : Prop :=
  chain_len s o + n < LIMIT /\ chain_used s o + b <= BYTES_LIMIT.

(** Every chain of [s] is in [s'], with at least its entries and its bytes. *)
Definition srv_grows (s s' : Server) : Prop :=
  forall o c, log s !! o = Some c -> exists c', log s' !! o = Some c' /\ grows (trie c) (trie c').

Lemma srv_grows_refl s : srv_grows s s.
Proof. intros o c Hc. exists c. split; [done|]. apply grows_refl. Qed.

Lemma srv_grows_trans s1 s2 s3 : srv_grows s1 s2 -> srv_grows s2 s3 -> srv_grows s1 s3.
Proof.
  intros G1 G2 o c Hc. destruct (G1 o c Hc) as (c1 & Hc1 & Hg1). destruct (G2 o c1 Hc1) as (c2 & Hc2 & Hg2).
  exists c2. split; [done|]. by eapply grows_trans.
Qed.

(** The chains are compared with those of an earlier state, [base]. *)
Variable base : Server.

(** [pend o]: places of chain [o] that are taken, but not sent to the workers yet. *)
Record srv_inv (s : Server) (pend : Z -> list Z) : Prop := {
  si_total : total_servers s <> 0;
  si_chain : forall o c, log s !! o = Some c ->
    exists n p, tr_ok (trie c) n /\ sk_ok (skeens c) p;
  si_grows : srv_grows base s;
  si_sorted : forall o, StronglySorted Z.lt (positions o (to_workers s) ++ pend o);
  si_range : forall o, Forall (fun i => 1 <= i < chain_len s o) (positions o (to_workers s) ++ pend o);
}.

Definition none : Z -> list Z := fun _ => [].
Definition pend_add (pend : Z -> list Z) (o i : Z) : Z -> list Z :=
  fun o' => if o =? o' then pend o' ++ [i] else pend o'.

(** [s'] is [s] up to the chains [os], and the messages. *)
Record frame (os : list Z) (s s' : Server) : Prop := {
  fr_total : total_servers s' = total_servers s;
  fr_this : this_server_num s' = this_server_num s;
  fr_storages : storages s' = storages s;
  fr_log : forall o, o ∉ os -> log s' !! o = log s !! o;
}.

Lemma frame_refl os s : frame os s s.
Proof. done. Qed.

Lemma frame_trans os1 os2 os s s1 s2 :
  frame os1 s s1 -> frame os2 s1 s2 -> (forall o, o ∈ os1 \/ o ∈ os2 -> o ∈ os) -> frame os s s2.
Proof.
  intros F1 F2 Hos. constructor.
  - by rewrite (fr_total _ _ _ F2), (fr_total _ _ _ F1).
  - by rewrite (fr_this _ _ _ F2), (fr_this _ _ _ F1).
  - by rewrite (fr_storages _ _ _ F2), (fr_storages _ _ _ F1).
  - intros o Ho. rewrite (fr_log _ _ _ F2), (fr_log _ _ _ F1); [done| |]; intros Hi; apply Ho; auto.
Qed.

Lemma frame_put o c s : frame [o] s (with_log (<[o := c]> (log s)) s).
Proof. constructor; try done. intros o' Ho. simpl. rewrite lookup_insert_ne; set_solver. Qed.

Lemma frame_msgs os s s' ms : frame os s s' -> frame os s (with_msgs ms s').
Proof. intros []. by constructor. Qed.

Lemma frame_len os s s' o : frame os s s' -> o ∉ os -> chain_len s' o = chain_len s o.
Proof. intros F Ho. unfold chain_len. by rewrite (fr_log _ _ _ F). Qed.

Lemma frame_used os s s' o : frame os s s' -> o ∉ os -> chain_used s' o = chain_used s o.
Proof. intros F Ho. unfold chain_used. by rewrite (fr_log _ _ _ F). Qed.

Lemma srv_cur s pend o :
  srv_inv s pend -> exists c, cur s o c /\ tr_ok (trie c) (chain_len s o) /\
    sk_ok (skeens c) (pending_count (skeens c)) /\ skeens c = cur_skeens s o /\
    t_used (trie c) <= chain_used s o.
Proof.
  intros HI. unfold cur, chain_len, cur_skeens, chain_used. destruct (log s !! o) as [c|] eqn:Eo.
  - exists c. split; [by left|]. destruct (si_chain _ _ HI o c Eo) as (n & p & Ht & Hk).
    rewrite (tr_len _ _ Ht). split; [done|]. by rewrite <-(sk_pending _ _ Hk).
  - destruct (new_chain_ok (T := T)) as (c & Hc & Ht & Hk & Hu). exists c. split; [by right|]. split; [done|].
    split; [|done]. rewrite Hk. apply sk_new.
Qed.

(** [t] continues the trie of the chain, where there is one. *)
Definition cur_grows (s : Server) (o : Z) (t : Trie A) : Prop :=
  forall c, log s !! o = Some c -> grows (trie c) t.

Lemma cur_grow s o c t : cur s o c -> grows (trie c) t -> cur_grows s o t.
Proof. intros [Hc|[Hc _]] Hg c' Hc'; rewrite Hc in Hc'; [by injection Hc' as <-|done]. Qed.

Lemma cur_same s o c : cur s o c -> cur_grows s o (trie c).
Proof. intros Hc. eapply cur_grow; [done|apply grows_refl]. Qed.

Lemma srv_range_le s pend (s' : Server) ms o :
  Forall (fun i => 1 <= i < chain_len s o) (positions o ms ++ pend o) -> chain_len s o <= chain_len s' o ->
  Forall (fun i => 1 <= i < chain_len s' o) (positions o ms ++ pend o).
Proof. intros HF Hle. eapply Forall_impl; [exact HF|]. simpl. lia. Qed.

Lemma chain_len_put s o c o' n :
  tr_ok (trie c) n ->
  chain_len (with_log (<[o := c]> (log s)) s) o' = if o =? o' then n else chain_len s o'.
Proof.
  intros Ht. unfold chain_len. simpl. destruct (Z.eqb_spec o o') as [->|Hne].
  - rewrite lookup_insert_eq. by apply tr_len.
  - by rewrite lookup_insert_ne.
Qed.

Lemma chain_used_put s o c o' :
  chain_used (with_log (<[o := c]> (log s)) s) o' = if o =? o' then t_used (trie c) else chain_used s o'.
Proof.
  unfold chain_used. simpl. destruct (Z.eqb_spec o o') as [->|Hne].
  - by rewrite lookup_insert_eq.
  - by rewrite lookup_insert_ne.
Qed.

Lemma srv_put s pend o c n p :
  srv_inv s pend -> cur_grows s o (trie c) -> tr_ok (trie c) n -> sk_ok (skeens c) p -> chain_len s o <= n ->
  srv_inv (with_log (<[o := c]> (log s)) s) pend.
Proof.
  intros HI Hg Ht Hk Hle. constructor; simpl.
  - apply HI.
  - intros o' c' [[<- <-]|[_ Hl]]%lookup_insert_Some; [by exists n, p|by apply (si_chain _ _ HI o')].
  - eapply srv_grows_trans; [apply HI|]. intros o' c' Hc'. simpl. destruct (decide (o = o')) as [<-|Hne].
    + exists c. rewrite lookup_insert_eq. split; [done|]. by apply Hg.
    + exists c'. rewrite lookup_insert_ne by done. split; [done|]. apply grows_refl.
  - apply HI.
  - intros o'. apply (srv_range_le s); [apply HI|]. rewrite (chain_len_put _ _ _ _ _ Ht).
    destruct (Z.eqb_spec o o'); [subst|]; lia.
Qed.

(** The next index of a chain is taken. *)
Lemma srv_take s pend o c p :
  srv_inv s pend -> cur_grows s o (trie c) -> tr_ok (trie c) (chain_len s o + 1) -> sk_ok (skeens c) p ->
  1 <= chain_len s o ->
  srv_inv (with_log (<[o := c]> (log s)) s) (pend_add pend o (chain_len s o)).
Proof.
  intros HI Hg Ht Hk H1. pose proof (srv_put _ _ o c _ p HI Hg Ht Hk ltac:(lia)) as HI'.
  constructor; [apply HI'|apply HI'|apply HI'| |]; intros o'; unfold pend_add;
    (destruct (Z.eqb_spec o o'); [subst o'|apply HI']); rewrite app_assoc.
  - apply StronglySorted_snoc; [apply HI|]. intros y Hy.
    pose proof (si_range _ _ HI o) as HF. rewrite Forall_forall in HF. by apply HF.
  - apply Forall_app. split; [apply HI'|]. constructor; [|done].
    rewrite (chain_len_put _ _ _ _ _ Ht), Z.eqb_refl. lia.
Qed.

Lemma srv_send s pend pend' m :
  srv_inv s pend -> (forall o, pend o = placed o m ++ pend' o) ->
  srv_inv (with_msgs (to_workers s ++ [m]) s) pend'.
Proof.
  intros HI Hp.
  assert (E : forall o, positions o (to_workers s ++ [m]) ++ pend' o = positions o (to_workers s) ++ pend o).
  { intros o. unfold positions. rewrite flat_map_app, Hp. simpl. by rewrite app_nil_r, <-app_assoc. }
  constructor; simpl; [apply HI|apply HI|apply HI| |]; intros o; rewrite E; apply HI.
Qed.

Lemma srv_send_silent s pend m :
  srv_inv s pend -> (forall o, placed o m = []) -> srv_inv (with_msgs (to_workers s ++ [m]) s) pend.
Proof. intros HI Hm. eapply srv_send; [done|]. intros o. by rewrite Hm. Qed.

Lemma srv_storages s pend st : srv_inv s pend -> srv_inv (with_storages st s) pend.
Proof. intros []. by constructor. Qed.

Lemma srv_pos s pend o : srv_inv s pend -> 1 <= chain_len s o.
Proof.
  intros HI. destruct (srv_cur _ _ o HI) as (c & _ & Ht & _).
  by destruct Ht as (vals & slots & O & _ & _ & H1).
Qed.

(** ** Delivering what the Skeens state releases *)

(** What a step on chain [o] keeps while an append is delivered. *)
Definition delivered_at (o : Z) (s s' : Server) : Prop :=
  srv_inv s' none /\ frame [o] s s' /\ chain_len s' o <= chain_len s o + 1 /\
  chain_used s' o <= chain_used s o + LEVEL_BYTES /\ cur_skeens s' o = cur_skeens s o.

(** A step on the trie of a chain that ends with a message. *)
Lemma delivered_put o s (c : Chain T A) t' n m :
  srv_inv (with_msgs (to_workers s ++ [m]) (with_log (<[o := mkChain t' (skeens c)]> (log s)) s)) none ->
  tr_ok t' n -> n <= chain_len s o + 1 -> t_used t' <= chain_used s o + LEVEL_BYTES ->
  skeens c = cur_skeens s o ->
  delivered_at o s (with_msgs (to_workers s ++ [m]) (with_log (<[o := mkChain t' (skeens c)]> (log s)) s)).
Proof.
  intros HI Ht Hn Hu Ek. split_and!; [exact HI|apply frame_msgs, frame_put| | |].
  - change (chain_len (with_log (<[o := mkChain t' (skeens c)]> (log s)) s) o <= chain_len s o + 1).
    rewrite (chain_len_put _ _ (mkChain t' (skeens c)) _ _ Ht), Z.eqb_refl. lia.
  - change (chain_used (with_log (<[o := mkChain t' (skeens c)]> (log s)) s) o <= chain_used s o + LEVEL_BYTES).
    by rewrite chain_used_put, Z.eqb_refl.
  - rewrite <-Ek. unfold cur_skeens. simpl. by rewrite lookup_insert_eq.
Qed.

Lemma cur_skeens_put s o c : cur_skeens (with_log (<[o := c]> (log s)) s) o = skeens c.
Proof. unfold cur_skeens. simpl. by rewrite lookup_insert_eq. Qed.

(** The places of a message for chain [o], when one place of [o] is pending. *)
Lemma pend_add_none o i : forall o', pend_add none o i o' = (if o =? o' then [i] else []) ++ none o'.
Proof. intros o'. unfold pend_add, none. by destruct (o =? o'). Qed.

(** Taking the next place and telling the workers. *)
Lemma wp_take_send o mk s :
  srv_inv s none -> chain_len s o + 1 < LIMIT ->
  (forall i ptr o', placed o' (mk i ptr) = if o =? o' then [i] else []) ->
  wp ('(loc, ptr) ← on_trie o trie_prep_append; send_to_worker (mk loc ptr))
     (fun _ s' => delivered_at o s s') s.
Proof.
  intros HI Hlim Hmk. destruct (srv_cur _ _ o HI) as (c & Hc & Ht & Hk & Ek & Hu).
  destruct (tr_prep _ _ Ht Hlim) as (t' & ptr & E & Ht' & Hg & Hu' & _).
  apply wp_bind. eapply wp_on_trie; [exact Hc|exact E|]. apply wp_send.
  pose proof (srv_take _ _ o (mkChain t' (skeens c)) _ HI (cur_grow _ _ _ _ Hc Hg) Ht' Hk (srv_pos _ _ o HI)) as HI'.
  eapply (delivered_put o s c t'); [|exact Ht'|lia|unfold LEVEL_BYTES; lia|done].
  apply (srv_send _ _ _ _ HI'). intros o'. by rewrite pend_add_none, Hmk.
Qed.

Lemma wp_deliver o g s :
  srv_inv s none -> room_for s o 1 LEVEL_BYTES -> in_u64 o ->
  wp (deliver o g) (fun _ s' => delivered_at o s s') s.
Proof.
  intros HI [Hlim Hby] Ho. destruct (srv_cur _ _ o HI) as (c & Hc & Ht & Hk & Ek & Hu).
  destruct g; cbn [deliver].
  - by apply (wp_take_send o (fun loc ptr => SkeensFinished (mkOI o loc) (Some (o, ptr)) _ _ _)).
  - destruct (tr_blank o _ _ Ht Hlim ltac:(lia) Ho) as (t' & n & E & Ht' & Hn & Hu' & Hg).
    apply wp_bind. eapply wp_on_trie; [exact Hc|exact E|]. apply wp_send.
    eapply (delivered_put o s c t'); [|exact Ht'|lia|lia|done].
    apply (srv_send_silent (with_log _ s)); [|done].
    by eapply srv_put; [exact HI|eapply cur_grow|exact Ht'|exact Hk|lia].
  - apply wp_bind. eapply wp_ensure_chain; [exact Hc|]. apply wp_bind.
    eapply wp_lift; [by apply (tr_horizon _ _ Ht)|]. apply wp_send.
    destruct c as [tc kc]. cbn [trie skeens] in *.
    eapply (delivered_put o s (mkChain tc kc) tc); [|exact Ht|lia|unfold LEVEL_BYTES; lia|done].
    apply (srv_send_silent (with_log _ s)); [|done].
    by eapply srv_put; [exact HI|apply (cur_same _ _ (mkChain tc kc))|exact Ht|exact Hk|lia].
  - by apply (wp_take_send o (fun loc ptr => DelayedSingle loc (Some (o, ptr)) _ _ _)).
  - by apply (wp_take_send o (fun loc ptr => DelayedSingle loc (Some (o, ptr)) _ _ _)).
Qed.

(** Room for [n] deliveries. *)
Definition room_deliver (s : Server) (o : Z) (n : nat) : Prop :=
  room_for s o (Z.of_nat n) (Z.of_nat n * LEVEL_BYTES).

Lemma wp_deliver_all o gs : forall s,
  srv_inv s none -> room_deliver s o (length gs) -> in_u64 o ->
  wp (deliver_all o gs) (fun _ s' => srv_inv s' none /\ frame [o] s s') s.
Proof.
  unfold room_deliver, room_for.
  induction gs as [|g gs IH]; intros s HI [Hlim Hby] Ho; cbn [deliver_all length] in *; [by apply wp_ret|].
  apply wp_bind. eapply wp_mono; [apply wp_deliver; [done|split; unfold LEVEL_BYTES in *; lia|done]|].
  intros _ s1 (HI1 & F1 & Hl1 & Hb1 & _). eapply wp_mono; [apply IH; [done|split; unfold LEVEL_BYTES in *; lia|done]|].
  intros _ s2 (HI2 & F2). split; [done|]. eapply frame_trans; [done..|]. naive_solver.
Qed.

(** The append [id] waits in the chain for a final timestamp, for which [mts] will do. *)
Definition waits (id mts : Z) (c : option (Chain T A)) : Prop :=
  match c with
  | Some c => exists ts, phase1_timestamp (skeens c) id = Some ts /\ ts <= mts < u64_max /\
      Trie.len (root (trie c)) + Z.of_nat (pending_count (skeens c)) < LIMIT /\
      t_used (trie c) + Z.of_nat (pending_count (skeens c)) * LEVEL_BYTES <= BYTES_LIMIT
  | None => False
  end.

Lemma wp_finish_multi o id mts s :
  srv_inv s none -> waits id mts (log s !! o) -> in_u64 o ->
  wp (finish_multi o id mts) (fun _ s' => srv_inv s' none /\ frame [o] s s') s.
Proof.
  intros HI Hw Ho. destruct (log s !! o) as [c|] eqn:Eo; [|done].
  destruct Hw as (ts & Hts & Hle & Hlim & Hby). assert (Hc : cur s o c) by (by left).
  destruct (si_chain _ _ HI o c Eo) as (n & p & Ht & Hk).
  rewrite (tr_len _ _ Ht), <-(sk_pending _ _ Hk) in Hlim. rewrite <-(sk_pending _ _ Hk) in Hby.
  assert (Hcl : chain_len s o = n) by (unfold chain_len; rewrite Eo; by apply tr_len).
  destruct (sk_finish _ _ _ _ _ Hk Hts Hle) as (r & k1 & E & Hr).
  unfold finish_multi. apply wp_bind. eapply wp_on_skeens; [exact Hc|exact E|].
  destruct Hr as [[-> Hk1]|[-> (gs & k2 & p' & Ef & Hk2 & Hlen)]].
  - apply wp_ret. split; [|apply frame_put]. by eapply srv_put; [exact HI|apply (cur_same _ _ c)|exact Ht|exact Hk1|lia].
  - apply wp_bind. eapply (wp_on_skeens o (mkChain (trie c) k1)); [left; apply lookup_insert_eq|exact Ef|].
    cbn [with_log log trie]. rewrite insert_insert_eq.
    change (wp (deliver_all o gs) (fun _ s' => srv_inv s' none /\ frame [o] s s')
      (with_log (<[o := mkChain (trie c) k2]> (log s)) s)).
    eapply wp_mono; [apply wp_deliver_all; [|  |done]|].
    + by eapply srv_put; [exact HI|apply (cur_same _ _ c)|exact Ht|exact Hk2|lia].
    + unfold room_deliver, room_for.
      rewrite (chain_len_put _ _ (mkChain (trie c) k2) _ _ Ht), chain_used_put, Z.eqb_refl.
      cbn [trie]. unfold LEVEL_BYTES in *. lia.
    + intros _ s' [HI' F']. split; [done|]. eapply frame_trans; [apply frame_put|exact F'|naive_solver].
Qed.

(** ** The two rounds of a Skeens append *)

Definition stored (s : Server) (o : Z) : bool := o mod total_servers s =? this_server_num s.

(** The chains of a request this server works on; [zero]: chain 0 is one of them. *)
Definition touched (zero : bool) (s : Server) (ls : list OrderIndex) : list Z :=
  filter (fun o => (zero || negb (o =? 0)) && stored s o = true) (oi_order <$> ls).

Lemma touched_cons zero s l ls :
  touched zero s (l :: ls) =
    if (zero || negb (oi_order l =? 0)) && stored s (oi_order l)
    then oi_order l :: touched zero s ls else touched zero s ls.
Proof.
  unfold touched. rewrite fmap_cons, filter_cons.
  destruct (decide _) as [Hd|Hd]; [by rewrite Hd|]. by rewrite (not_true_is_false _ Hd).
Qed.

Lemma touched_frame zero os s s' ls : frame os s s' -> touched zero s' ls = touched zero s ls.
Proof. intros F. unfold touched, stored. by rewrite (fr_total _ _ _ F), (fr_this _ _ _ F). Qed.

Lemma touched_in zero s l ls : l ∈ touched zero s ls -> exists x, x ∈ ls /\ oi_order x = l.
Proof. intros [_ [x [-> Hx]]%list_elem_of_fmap]%list_elem_of_filter. by exists x. Qed.

Definition chains_u64 (ls : list OrderIndex) : Prop := Forall (fun l => in_u64 (oi_order l)) ls.

Lemma wp_round2 id mts ls : forall s,
  srv_inv s none -> chains_u64 ls -> NoDup (touched false s ls) ->
  (forall o, o ∈ touched false s ls -> waits id mts (log s !! o)) ->
  wp (round2_locs id mts ls)
     (fun ls' s' => srv_inv s' none /\ frame (touched false s ls) s s') s.
Proof.
  induction ls as [|l ls IH]; intros s HI Hu Hnd Hw; [by apply wp_ret|].
  apply Forall_cons in Hu as [Ho Hu]. cbn [round2_locs]. apply wp_bind, wp_not_here; [apply HI|].
  fold (stored s (oi_order l)). rewrite touched_cons in *.
  assert (Eb : (oi_order l =? 0) || negb (stored s (oi_order l)) =
               negb ((false || negb (oi_order l =? 0)) && stored s (oi_order l))).
  { by destruct (oi_order l =? 0), (stored s (oi_order l)). }
  rewrite Eb. destruct (_ && _) eqn:Ed; simpl.
  - apply NoDup_cons in Hnd as [Hni Hnd]. apply wp_bind, wp_get_chain, wp_bind.
    pose proof (Hw _ (list_elem_of_here _ _)) as Hwo.
    destruct (log s !! oi_order l) as [c|] eqn:Eo; [|done].
    eapply wp_lift; [done|]. rewrite <-Eo in Hwo. apply wp_bind.
    eapply wp_mono; [by apply wp_finish_multi|]. intros _ s1 [HI1 F1]. apply wp_bind.
    pose proof (touched_frame false _ _ _ ls F1) as Et.
    eapply wp_mono; [apply IH; [done|done|by rewrite Et|]|].
    + rewrite Et. intros o Hin. rewrite (fr_log _ _ _ F1) by set_solver. apply Hw. by right.
    + rewrite Et. intros ls' s2 [HI2 F2]. apply wp_ret. split; [done|].
      eapply frame_trans; [exact F1|exact F2|]. set_solver.
  - apply wp_bind. eapply wp_mono; [by apply IH|]. intros ls' s' ?. by apply wp_ret.
Qed.

(** The append [id] can be queued in the chain. *)
Definition accepts (id : Z) (c : option (Chain T A)) : Prop :=
  match c with Some c => fresh (skeens c) id | None => True end.

(** The timestamp and queue index a chain hands out. *)
Definition given (s : Server) (o : Z) : Z * Z :=
  (next_timestamp (cur_skeens s o), Hash.next (phase1_queue (cur_skeens s o))).

Definition queued_at (id : Z) (s s' : Server) (o : Z) : Prop :=
  exists c, log s' !! o = Some c /\
    phase1_timestamp (skeens c) id = Some (next_timestamp (cur_skeens s o)) /\
    chain_len s' o = chain_len s o /\ chain_used s' o <= chain_used s o /\
    pending_count (skeens c) = S (pending_count (cur_skeens s o)).

Lemma fresh_new (id : Z) : fresh (Skeens.new : SkeensState Z T Z Z) id.
Proof. split; [done|]. apply lookup_empty. Qed.

Lemma accepts_cur s o c id : accepts id (log s !! o) -> cur s o c -> skeens c = cur_skeens s o -> fresh (skeens c) id.
Proof.
  unfold accepts, cur_skeens. intros Ha [Hc|[Hc _]] Hk; rewrite Hc in *; [done|].
  rewrite Hk. apply fresh_new.
Qed.

(** A call that queues the append [id] in chain [o]. *)
Lemma wp_queue o id (f : SkeensState Z T Z Z -> outcome (SkeensAppendRes * SkeensState Z T Z Z)) s Q :
  srv_inv s none -> accepts id (log s !! o) ->
  (forall k p, sk_ok k p -> fresh k id ->
     exists k', f k = Done (SAR_NewAppend (next_timestamp k) (Hash.next (phase1_queue k)), k') /\
       sk_ok k' (S p) /\ phase1_timestamp k' id = Some (next_timestamp k)) ->
  (forall s', srv_inv s' none -> frame [o] s s' -> queued_at id s s' o ->
     Q (SAR_NewAppend (given s o).1 (given s o).2) s') ->
  wp (on_skeens o f) Q s.
Proof.
  intros HI Ha Hf HQ. destruct (srv_cur _ _ o HI) as (c & Hc & Ht & Hk & Ek & Hu).
  destruct (Hf _ _ Hk (accepts_cur _ _ _ _ Ha Hc Ek)) as (k' & E & Hk' & Hp).
  eapply wp_on_skeens; [exact Hc|exact E|]. unfold given in HQ. rewrite <-Ek in HQ. apply HQ.
  - by eapply srv_put; [exact HI|apply (cur_same _ _ c)|exact Ht|exact Hk'|lia].
  - apply frame_put.
  - exists (mkChain (trie c) k'). rewrite <-Ek. split_and!; [apply lookup_insert_eq|done| | |].
    + rewrite (chain_len_put _ _ (mkChain (trie c) k') _ _ Ht). by rewrite Z.eqb_refl.
    + by rewrite chain_used_put, Z.eqb_refl.
    + symmetry. apply (sk_pending _ _ Hk').
Qed.

(** What round 1 writes for a location. *)
Definition given_loc (s : Server) (l : OrderIndex) : Z * Z :=
  if (oi_order l =? 0) || negb (stored s (oi_order l)) then (0, 0) else given s (oi_order l).

Lemma cur_skeens_frame os s s' o : frame os s s' -> o ∉ os -> cur_skeens s' o = cur_skeens s o.
Proof. intros F Ho. unfold cur_skeens. by rewrite (fr_log _ _ _ F). Qed.

Lemma given_frame s s' o ls :
  frame [o] s s' -> o ∉ touched false s ls -> given_loc s' <$> ls = given_loc s <$> ls.
Proof.
  intros F Ho. apply list_fmap_ext. intros i l Hl. unfold given_loc.
  replace (stored s' (oi_order l)) with (stored s (oi_order l))
    by (unfold stored; by rewrite (fr_total _ _ _ F), (fr_this _ _ _ F)).
  destruct ((oi_order l =? 0) || _) eqn:Eb; [done|]. unfold given.
  rewrite (cur_skeens_frame _ _ _ _ F); [done|]. intros Heq%list_elem_of_singleton. apply Ho. rewrite <-Heq.
  unfold touched. apply list_elem_of_filter. apply orb_false_iff in Eb as [-> ->%negb_false_iff].
  split; [done|]. apply list_elem_of_fmap_2. by eapply list_elem_of_lookup_2.
Qed.

Lemma queued_frame id s s1 s2 o os :
  queued_at id s s1 o -> frame os s1 s2 -> o ∉ os -> queued_at id s s2 o.
Proof.
  intros (c & Hl & Hp & Hc & Hb & Hn) F Ho. exists c.
  rewrite (fr_log _ _ _ F), (frame_len _ _ _ _ F), (frame_used _ _ _ _ F) by done. done.
Qed.

Lemma queued_before id s s1 s2 o os :
  frame os s s1 -> o ∉ os -> queued_at id s1 s2 o -> queued_at id s s2 o.
Proof.
  intros F Ho (c & Hl & Hp & Hc & Hb & Hn). exists c.
  rewrite (cur_skeens_frame _ _ _ _ F Ho) in Hp, Hn.
  by rewrite (frame_len _ _ _ _ F Ho) in Hc; rewrite (frame_used _ _ _ _ F Ho) in Hb.
Qed.

Lemma wp_round1 id storage ds t ls : forall s senti,
  srv_inv s none -> NoDup (touched false s ls) ->
  (forall o, o ∈ touched false s ls -> accepts id (log s !! o)) ->
  wp (round1_locs id storage ds senti t ls)
     (fun xs s' => srv_inv s' none /\ frame (touched false s ls) s s' /\ xs = given_loc s <$> ls /\
        forall o, o ∈ touched false s ls -> queued_at id s s' o) s.
Proof.
  induction ls as [|l ls IH]; intros s senti HI Hnd Ha.
  { apply wp_ret. split_and!; [done|done|done|]. intros o Hin. by apply not_elem_of_nil in Hin. }
  cbn [round1_locs fmap list_fmap]. apply wp_bind, wp_not_here; [apply HI|].
  fold (stored s (oi_order l)). rewrite touched_cons in *. unfold given_loc at 1.
  assert (Eb : (oi_order l =? 0) || negb (stored s (oi_order l)) =
               negb ((false || negb (oi_order l =? 0)) && stored s (oi_order l))).
  { by destruct (oi_order l =? 0), (stored s (oi_order l)). }
  rewrite Eb. destruct (_ && _) eqn:Ed; simpl.
  - apply NoDup_cons in Hnd as [Hni Hnd]. apply wp_bind. unfold timestamp_for_multi.
    apply wp_bind. eapply (wp_queue _ id); [done|by apply Ha; left|by intros; apply sk_add_multi|].
    intros s1 HI1 F1 Hq1. apply wp_ret, wp_bind, wp_ret, wp_bind.
    pose proof (touched_frame false _ _ _ ls F1) as Et.
    eapply wp_mono; [apply IH; [done|by rewrite Et|]|].
    + rewrite Et. intros o Hin. rewrite (fr_log _ _ _ F1) by set_solver. apply Ha. by right.
    + rewrite Et. intros xs s2 (HI2 & F2 & -> & Hq). apply wp_ret. split_and!; [done| | |].
      * eapply frame_trans; [exact F1|exact F2|]. set_solver.
      * by rewrite (given_frame s s1 (oi_order l)).
      * intros o [->|Hin]%elem_of_cons; [by eapply queued_frame|].
        eapply queued_before; [exact F1|set_solver|by apply Hq].
  - apply wp_bind. eapply wp_mono; [by apply IH|]. intros xs s' (? & ? & -> & ?). by apply wp_ret.
Qed.

(** ** Facts on the packets of the requests *)

Lemma valid_chains r ls :
  valid r = true -> v_body (variant_of r) !! 6%nat = Some (mkField "locs"%string (VarArray EOrderIndex "cols"%string)) ->
  full r !! 6%nat = Some ("locs"%string, ois ls) -> chains_u64 ls.
Proof.
  intros Hv%fields_ok_facts Hf Hp. destruct (Forall2_lookup_lr _ _ _ _ _ _ Hv Hf Hp) as [_ Hl].
  cbn [val_ok ois f_ty snd app] in Hl. rewrite andb_true_iff in Hl. destruct Hl as [_ Hl].
  apply Forall_forall. intros l Hin. rewrite forallb_forall in Hl.
  assert (Hi : item_ok EOrderIndex (ILoc l) = true).
  { apply Hl, list_elem_of_In, list_elem_of_fmap_2, Hin. }
  cbn [item_ok] in Hi. apply andb_true_iff in Hi as [Hi _]. by apply in_u64b_spec.
Qed.

Lemma flag_lor_ok f : item_ok EFlag (INum f) = true -> item_ok EFlag (INum (Z.lor f 1)) = true.
Proof.
  simpl. change (256 ^ zsize EFlag) with 256. rewrite !andb_true_iff, !Z.leb_le, !Z.ltb_lt. intros [Hf0 Hf1].
  split; [apply Z.lor_nonneg; lia|]. destruct (Z.eq_dec f 0) as [->|Hf]; [done|].
  change 256 with (2 ^ 8) in *. apply Z.log2_lt_pow2.
  - assert (Z.lor f 1 <> 0) by (rewrite Z.lor_eq_0_iff; lia).
    assert (0 <= Z.lor f 1) by (apply Z.lor_nonneg; lia). lia.
  - rewrite Z.log2_lor by lia. apply Z.max_lub_lt; [apply Z.log2_lt_pow2; lia|done].
Qed.

(** The packet [append_data] writes is as valid as the one it got. *)
Lemma valid_single id flags loc deps data ts i :
  valid (Single id flags loc deps data ts) = true -> in_u64 i ->
  valid (Single id (Z.lor flags 1) (mkOI (oi_order loc) i) deps data ts) = true.
Proof.
  unfold valid, full, variant_of. cbn -[item_ok Z.lor zlen forallb ois]. intros Hv Hi.
  revert Hv. rewrite !andb_true_iff. intros Hv. destruct_and? Hv.
  assert (Hl : item_ok EOrderIndex (ILoc (mkOI (oi_order loc) i)) = true).
  { cbn [item_ok] in *. rewrite andb_true_iff in *. split; [by destruct_and?|]. by apply in_u64b_spec. }
  split_and!; first [assumption | by apply flag_lor_ok | done].
Qed.

Lemma bytes_pos r : 0 < zlen (bytes_of r).
Proof. unfold bytes_of, packet_bytes, zlen. cbn [length]. lia. Qed.

(** ** Single appends and reads *)

(** The bytes a packet takes in memory. *)
Definition packet_cost (r : Ref) : Z := cost (zlen (bytes_of r)).

(** [slot] is the unfinished append of place [i] in chain [o]. *)
Definition claimed (s : Server) (o i : Z) (slot : AppendSlot) : Prop :=
  exists c vals slots O, log s !! o = Some c /\ claims (trie c) vals slots O slot (Z.to_nat i).

Lemma cost_same r r' : zlen (bytes_of r) = zlen (bytes_of r') -> packet_cost r = packet_cost r'.
Proof. unfold packet_cost. by intros ->. Qed.

Lemma single_bytes id flags flags' loc loc' deps data ts :
  zlen (bytes_of (Single id flags loc deps data ts)) = zlen (bytes_of (Single id flags' loc' deps data ts)).
Proof. unfold bytes_of, packet_bytes, zlen. reflexivity. Qed.

Lemma wp_append_data o id flags loc deps data ts s Q :
  srv_inv s none -> room_for s o 1 (packet_cost (Single id flags loc deps data ts)) ->
  valid (Single id flags loc deps data ts) = true ->
  (forall s' slot, srv_inv s' (pend_add none o (chain_len s o)) -> to_workers s' = to_workers s ->
     claimed s' o (chain_len s o) slot ->
     data_size slot = zlen (bytes_of (Single id (Z.lor flags 1) (mkOI (oi_order loc) (chain_len s o)) deps data ts)) ->
     Q (Single id (Z.lor flags 1) (mkOI (oi_order loc) (chain_len s o)) deps data ts, (o, slot)) s') ->
  wp (append_data o (Single id flags loc deps data ts)) Q s.
Proof.
  intros HI [Hr Hby] Hv HQ. destruct (srv_cur _ _ o HI) as (c & Hc & Ht & Hk & Ek & Hu).
  pose proof (srv_pos _ _ o HI) as Hpos.
  unfold append_data. apply wp_bind. eapply wp_ensure_chain; [exact Hc|].
  rewrite (tr_len _ _ Ht). apply wp_bind. eapply wp_lift; [reflexivity|].
  apply wp_bind. eapply wp_lift; [reflexivity|]. apply wp_bind. eapply wp_lift; [by rewrite bool_decide_false|].
  apply wp_bind. eapply wp_lift; [reflexivity|].
  cbn [default set_first_loc head]. change (Z.lor flags EntryFlag.ReadSuccess) with (Z.lor flags 1).
  apply wp_bind. eapply wp_lift.
  { apply len_valid, valid_single; [done|]. unfold in_u64, u64_max, LIMIT in *. lia. }
  set (r' := Single id (Z.lor flags 1) (mkOI (oi_order loc) (chain_len s o)) deps data ts) in *.
  destruct (tr_partial _ _ _ Ht Hr (bytes_pos r')) as (t' & slot & E & Ht' & Hsz & Hg & _ & Hcl).
  { fold (packet_cost r'). rewrite (cost_same r' (Single id flags loc deps data ts)) by apply single_bytes. lia. }
  apply wp_bind. eapply (wp_on_trie o c); [left; apply lookup_insert_eq|exact E|]. apply wp_ret.
  cbn [with_log log skeens]. rewrite insert_insert_eq.
  apply HQ; [|done| |done].
  - eapply (srv_take s none o (mkChain t' (skeens c))); try done. by eapply cur_grow.
  - destruct Hcl as (vals & slots & O & Hcl). exists (mkChain t' (skeens c)), vals, slots, O.
    split; [apply lookup_insert_eq|exact Hcl].
Qed.

Lemma wp_skeens_single o id flags loc deps data ts t s Q :
  srv_inv s none -> valid (Single id flags loc deps data ts) = true ->
  room_for s o 1 (packet_cost (Single id flags loc deps data ts)) ->
  fresh (cur_skeens s o) id -> ts + 1 < u64_max ->
  negb (Hash.is_empty (phase1_queue (cur_skeens s o))) = true ->
  (forall s' slot storage_loc time n, srv_inv s' none -> Q (slot, storage_loc, time, n) s') ->
  wp (handle_skeens_single o (Single id flags loc deps data ts) ts t) Q s.
Proof.
  intros HI Hv [Hr Hby] Hf Hts Hne HQ. destruct (srv_cur _ _ o HI) as (c & Hc & Ht & Hk & Ek & Hu).
  rewrite <-Ek in *. unfold handle_skeens_single. apply wp_bind.
  eapply wp_lift; [by apply len_valid|].
  destruct (tr_reserve _ _ _ Ht (bytes_pos (Single id flags loc deps data ts))) as (t' & v & sl & E & Ht' & Hg & _).
  { fold (packet_cost (Single id flags loc deps data ts)). lia. }
  destruct (sk_add_single _ _ id ts v t Hk Hf Hts Hne) as (ts' & n & k' & E' & Hk').
  apply wp_bind. eapply wp_on_trie; [exact Hc|exact E|].
  apply wp_bind. eapply (wp_on_skeens o (mkChain t' (skeens c))); [left; apply lookup_insert_eq|exact E'|].
  apply wp_ret. cbn [with_log log trie]. rewrite insert_insert_eq.
  apply HQ. eapply (srv_put s none o (mkChain t' k')); [done|by eapply cur_grow|exact Ht'|exact Hk'|lia].
Qed.

(** The packet of a single append with its place in it. *)
Definition placed_single (id flags : Z) (loc : OrderIndex) (deps : list OrderIndex) (data : list Z) (ts i : Z) : Ref :=
  Single id (Z.lor flags 1) (mkOI (oi_order loc) i) deps data ts.

(** The append got the next place of its chain at once: a worker is told to write it. *)
Definition written_next (s s' : Server) (o : Z) (r : Ref) (t : T) : Prop :=
  exists slot, to_workers s' = to_workers s ++ [Write r (o, slot) t] /\
    claimed s' o (chain_len s o) slot /\ data_size slot = zlen (bytes_of r).

Lemma wp_handle_data id flags loc deps data ts t s :
  srv_inv s none -> valid (Single id flags loc deps data ts) = true ->
  EntryFlag.contains flags EntryFlag.DirectWrite = false -> stored s (oi_order loc) = true ->
  accepts id (log s !! oi_order loc) -> ts + 1 < u64_max ->
  room_for s (oi_order loc) 1 (packet_cost (Single id flags loc deps data ts)) ->
  wp (handle_data (Single id flags loc deps data ts) t)
     (fun _ s' => srv_inv s' none /\
        forall k', need_single_at (cur_skeens s (oi_order loc)) ts = Done (false, k') ->
          written_next s s' (oi_order loc)
            (placed_single id flags loc deps data ts (chain_len s (oi_order loc))) t) s.
Proof.
  intros HI Hv Hd Hst Ha Hts Hr. unfold handle_data, first_loc.
  apply wp_bind, wp_bind. eapply wp_lift; [reflexivity|]. eapply wp_lift; [reflexivity|].
  apply wp_bind. eapply wp_lift; [reflexivity|]. apply wp_bind. eapply wp_lift; [reflexivity|].
  apply wp_bind. eapply wp_lift; [by apply len_valid|]. apply wp_bind.
  assert (Hs : wp (if debug_assertions then stores_chain (oi_order loc) else mret true)
                  (fun b s' => b = true /\ s' = s) s).
  { destruct debug_assertions; [|by apply wp_ret].
    apply wp_stores_chain; [apply HI|]. by rewrite <-Hst. }
  eapply wp_mono; [exact Hs|]. intros b s' [-> ->]. apply wp_bind.
  eapply wp_lift; [by apply debug_assert_true|]. rewrite Hd.
  destruct (srv_cur _ _ (oi_order loc) HI) as (c & Hc & Ht & Hk & Ek & Hu).
  destruct (sk_need_single _ _ _ Hk Hts) as (b & k' & E & Hk' & Hb).
  apply wp_bind. eapply wp_on_skeens; [exact Hc|exact E|].
  set (s1 := with_log _ s).
  assert (HI1 : srv_inv s1 none).
  { eapply (srv_put s none _ (mkChain (trie c) k')); [done|by apply (cur_same _ _ c)|exact Ht|exact Hk'|lia]. }
  assert (Hr1 : room_for s1 (oi_order loc) 1 (packet_cost (Single id flags loc deps data ts))).
  { destruct Hr as [Hr Hby]. unfold room_for, s1.
    rewrite (chain_len_put _ _ (mkChain (trie c) k') _ _ Ht), chain_used_put, Z.eqb_refl. cbn [trie]. lia. }
  destruct b.
  - destruct Hb as [-> Hne]; [done|]. apply wp_bind.
    assert (Ec : cur_skeens s1 (oi_order loc) = skeens c)
      by apply (cur_skeens_put s _ (mkChain (trie c) (skeens c))).
    apply wp_skeens_single; [done|done|done| |done| |]; rewrite ?Ec; [by eapply accepts_cur|done|].
    intros s2 slot sl time n HI2. apply wp_send. split; [by apply srv_send_silent|].
    intros k2 E2. rewrite <-Ek, E in E2. done.
  - apply wp_bind. apply wp_append_data; [done|done|done|].
    intros s2 slot HI2 Hm Hcl Hsz. apply wp_send.
    assert (Hlen : chain_len s1 (oi_order loc) = chain_len s (oi_order loc)).
    { unfold s1. by rewrite (chain_len_put _ _ (mkChain (trie c) k') _ _ Ht), Z.eqb_refl. }
    rewrite Hlen in *. split.
    + eapply srv_send; [exact HI2|]. intros o. by rewrite pend_add_none.
    + intros k2 _. exists slot. split; [by rewrite Hm|]. split; [|done].
      destruct Hcl as (c' & vals & slots & O & Hc' & Hcl). by exists c', vals, slots, O.
Qed.

Lemma wp_handle_read r loc t s :
  srv_inv s none -> Packets.locs r = Done [loc] ->
  wp (handle_read r t) (fun _ s' => srv_inv s' none) s.
Proof.
  intros HI Hr. unfold handle_read, first_loc. apply wp_bind, wp_bind. eapply wp_lift; [exact Hr|].
  eapply wp_lift; [reflexivity|]. apply wp_bind, wp_get_chain.
  destruct (log s !! oi_order loc) as [c|] eqn:Eo.
  - destruct (Trie.get _ _); [by apply wp_send, srv_send_silent|].
    destruct (si_chain _ _ HI _ _ Eo) as (n & p & Ht & _). apply wp_bind. eapply wp_lift.
    + by apply (tr_horizon _ _ Ht).
    + by apply wp_send, srv_send_silent.
  - by apply wp_send, srv_send_silent.
Qed.

(** ** Requests on several chains *)

(** The three packets such a request comes in. *)
Definition multi_locs (r : Ref) : option (list OrderIndex) :=
  match r with
  | Multi _ _ _ locs _ _ | Senti _ _ _ _ locs _ | Snapshot _ _ _ _ _ locs => Some locs
  | _ => None
  end.

Definition lock_of (r : Ref) : Z :=
  match r with Multi _ _ lock _ _ _ | Senti _ _ _ lock _ _ | Snapshot _ _ _ _ lock _ => lock | _ => 0 end.

Lemma multi_locs_locs r ls : multi_locs r = Some ls -> Packets.locs r = Done ls.
Proof. destruct r; simpl; try done; by intros [= ->]. Qed.

Lemma multi_lock r ls : multi_locs r = Some ls -> lock_num r = Done (lock_of r).
Proof. by destruct r. Qed.

Lemma multi_locs_mut f r ls :
  multi_locs r = Some ls -> exists r', locs_mut f r = Done r' /\ multi_locs r' = Some (f ls).
Proof. destruct r; simpl; try done; intros [= ->]; by eexists. Qed.

Lemma multi_lock_mut v r ls :
  multi_locs r = Some ls ->
  exists r', lock_mut (fun _ => v) r = Done r' /\ multi_locs r' = Some ls /\ lock_of r' = v /\
    Packets.id r' = Packets.id r.
Proof. destruct r; simpl; try done; intros [= ->]; by eexists. Qed.

Lemma multi_flag_mut f r ls :
  multi_locs r = Some ls ->
  exists r', flag_mut f r = Done r' /\ multi_locs r' = Some ls /\ lock_of r' = lock_of r /\
    Packets.id r' = Packets.id r.
Proof. destruct r; simpl; try done; intros [= ->]; by eexists. Qed.

Lemma multi_chains r ls : valid r = true -> multi_locs r = Some ls -> chains_u64 ls.
Proof. intros Hv. destruct r; simpl; try done; intros [= <-]; by apply (valid_chains _ _ Hv). Qed.

(** Round 2: every chain of the request waits for the final timestamp. *)
Definition round2_ok (s : Server) (id mts : Z) (ls : list OrderIndex) : Prop :=
  NoDup (touched false s ls) /\ forall o, o ∈ touched false s ls -> waits id mts (log s !! o).

Lemma wp_new_round2 kind r ls s :
  srv_inv s none -> EntryFlag.contains kind EntryFlag.Unlock = true -> multi_locs r = Some ls ->
  chains_u64 ls -> round2_ok s (Packets.id r) (lock_of r) ls ->
  wp (new_multiappend_round2 kind r) (fun _ s' => srv_inv s' none) s.
Proof.
  intros HI Hk Hls Hu [Hnd Hw]. unfold new_multiappend_round2. rewrite Hk.
  apply wp_bind. eapply wp_lift; [done|]. apply wp_bind. eapply wp_lift; [by eapply multi_lock|].
  apply wp_bind. eapply wp_lift; [by apply multi_locs_locs|].
  apply wp_bind. eapply wp_mono; [by apply wp_round2|]. intros ls' s' [HI' _].
  destruct (multi_locs_mut (fun _ => ls') r ls Hls) as (r' & E & _). by eapply wp_lift.
Qed.

(** Round 1: the storage is there, with cells for the locations; every chain takes the append. *)
Definition round1_ok (zero : bool) (s : Server) (id h : Z) (ls : list OrderIndex) : Prop :=
  (exists m, storages s !! h = Some m /\ length (ms_timestamps m) = length ls /\
     length (ms_queue_indicies m) = length ls) /\
  NoDup (touched zero s ls) /\
  forall o, o ∈ touched zero s ls -> fresh (cur_skeens s o) id.

Lemma accepts_fresh s o id : fresh (cur_skeens s o) id -> accepts id (log s !! o).
Proof. unfold cur_skeens, accepts. by destruct (log s !! o). Qed.

Lemma wp_check_slices {X} (ls : list X) m Q (s : Server) :
  length (ms_timestamps m) = length ls -> length (ms_queue_indicies m) = length ls ->
  Q tt s -> wp (check_slices (zlen ls) m) Q s.
Proof.
  intros Hl1 Hl2 HQ. unfold check_slices, zlen. rewrite Hl1, Hl2, Z.leb_refl.
  apply wp_bind. eapply wp_lift; [done|]. by eapply wp_lift.
Qed.

(** Round 1 leaves in the storage, for each location of a chain of this server, the timestamp
    and the queue index the chain handed out, and zeros elsewhere. *)
Definition round1_done (s : Server) (id h : Z) (ls : list OrderIndex) (s' : Server) : Prop :=
  srv_inv s' none /\ total_servers s' = total_servers s /\ this_server_num s' = this_server_num s /\
  (forall o, o ∈ touched false s ls -> queued_at id s s' o) /\
  exists m, storages s' !! h = Some m /\ ms_timestamps m = fst <$> (given_loc s <$> ls) /\
    ms_queue_indicies m = snd <$> (given_loc s <$> ls).

Lemma wp_new_round1 r h ds t ls s :
  srv_inv s none -> multi_locs r = Some ls -> round1_ok false s (Packets.id r) h ls ->
  wp (new_multiappend_round1 r h ds t) (fun _ s' => round1_done s (Packets.id r) h ls s') s.
Proof.
  intros HI Hls ((m & Hm & H1 & H2) & Hnd & Ha). unfold new_multiappend_round1.
  apply wp_bind. eapply wp_lift; [by apply multi_locs_locs|].
  apply wp_bind. eapply wp_get_storage; [done|]. apply wp_bind, wp_check_slices; [done..|].
  apply wp_bind. eapply wp_mono; [apply wp_round1; [done|done|]|].
  { intros o Ho. by apply accepts_fresh, Ha. }
  intros xs s' (HI' & F & Hx & Hq). apply wp_bind.
  eapply wp_get_storage; [by rewrite (fr_storages _ _ _ F)|]. apply wp_put_storage.
  split_and!; [by apply srv_storages|by destruct F|by destruct F|done|].
  eexists. split; [apply lookup_insert_eq|]. subst xs. unfold fill_storage. simpl.
  rewrite !drop_ge by (rewrite length_fmap; lia). by rewrite !app_nil_r.
Qed.

(** ** Multi-appends to this server only *)

(** The same chains, some of them created. *)
Record same_chains (s s' : Server) : Prop := {
  sc_total : total_servers s' = total_servers s;
  sc_this : this_server_num s' = this_server_num s;
  sc_storages : storages s' = storages s;
  sc_len : forall o, chain_len s' o = chain_len s o;
  sc_used : forall o, chain_used s' o <= chain_used s o;
  sc_skeens : forall o, cur_skeens s' o = cur_skeens s o;
}.

Lemma same_chains_trans s s1 s2 : same_chains s s1 -> same_chains s1 s2 -> same_chains s s2.
Proof. intros S1 S2. constructor; intros; (etrans; [apply S2|apply S1]). Qed.

Lemma same_touched zero s s' ls : same_chains s s' -> touched zero s' ls = touched zero s ls.
Proof. intros S. unfold touched, stored. by rewrite (sc_total _ _ S), (sc_this _ _ S). Qed.

Lemma wp_ensure o s Q :
  srv_inv s none ->
  (forall c s', srv_inv s' none -> same_chains s s' -> is_locked (root (trie c)) = false ->
     skeens c = cur_skeens s o -> Q c s') ->
  wp (ensure_chain o) Q s.
Proof.
  intros HI HQ. destruct (srv_cur _ _ o HI) as (c & Hc & Ht & Hk & Ek & Hu).
  eapply wp_ensure_chain; [exact Hc|]. apply HQ; [| | |done].
  - by eapply srv_put; [done|apply (cur_same _ _ c)|exact Ht|exact Hk|lia].
  - constructor; try done; intros o'.
    + rewrite (chain_len_put _ _ _ _ _ Ht). by destruct (Z.eqb_spec o o'); [subst|].
    + rewrite chain_used_put. by destruct (Z.eqb_spec o o'); [subst|].
    + unfold cur_skeens. simpl. destruct (decide (o = o')) as [<-|Hne];
        [by rewrite lookup_insert_eq|by rewrite lookup_insert_ne].
  - destruct Ht as (? & ? & ? & HR & _). by destruct HR.
Qed.

(** Nothing waits in the chains of the locations. *)
Definition idle (s : Server) (ls : list OrderIndex) : Prop :=
  Forall (fun l => oi_order l = 0 \/ Skeens.is_empty (cur_skeens s (oi_order l)) = true) ls.

Lemma wp_needs ls : forall b s,
  srv_inv s none -> Forall (fun l => stored s (oi_order l) = true) ls ->
  wp (single_server_needs ls false b)
     (fun r s' => r.1 = false /\ srv_inv s' none /\ same_chains s s' /\ (idle s ls -> r.2 = b)) s.
Proof.
  induction ls as [|l ls IH]; intros b s HI Hs; [by apply wp_ret|].
  apply Forall_cons in Hs as [Hl Hs]. cbn [single_server_needs].
  apply wp_bind, wp_stores_chain; [apply HI|]. fold (stored s (oi_order l)). rewrite Hl.
  apply wp_bind. eapply wp_lift; [done|]. destruct (Z.eqb_spec (oi_order l) 0) as [E0|E0].
  { eapply wp_mono; [by apply IH|]. intros r s' (? & ? & ? & Hr). split_and!; [done..|].
    intros [_ Hi]%Forall_cons. by apply Hr. }
  apply wp_bind, wp_ensure; [done|]. intros c s1 HI1 S1 Hlock Ek. rewrite Hlock.
  eapply wp_mono; [apply IH; [done|]|].
  - eapply Forall_impl; [exact Hs|]. intros x. unfold stored. by rewrite (sc_total _ _ S1), (sc_this _ _ S1).
  - intros r s2 (Hr & HI2 & S2 & Hi2). split_and!; [done|done|by eapply same_chains_trans|].
    intros [[?|Hi] His]%Forall_cons; [done|]. rewrite Hi2.
    + unfold needs_skeens_single. by rewrite Ek, Hi, orb_false_r.
    + eapply Forall_impl; [exact His|]. intros x. cbn beta. by rewrite (sc_skeens _ _ S1).
Qed.

Lemma srv_ext s pend pend' : (forall o, pend o = pend' o) -> srv_inv s pend -> srv_inv s pend'.
Proof. intros E []. constructor; try done; intros o; by rewrite <-E. Qed.

(** What the rest of the locations needs is still there after a step on chain [o]. *)
Lemma fast_step o s s' ls :
  frame [o] s s' -> chain_len s' o <= chain_len s o + 1 -> chain_used s' o <= chain_used s o + LEVEL_BYTES ->
  Forall (fun x => stored s (oi_order x) = true) ls ->
  Forall (fun x => room_for s (oi_order x) (zlen ls + 1) ((zlen ls + 1) * LEVEL_BYTES)) ls ->
  Forall (fun x => stored s' (oi_order x) = true) ls /\
  Forall (fun x => room_for s' (oi_order x) (zlen ls) (zlen ls * LEVEL_BYTES)) ls.
Proof.
  intros F Hle Hus Hs Hrs. split.
  - eapply Forall_impl; [exact Hs|]. intros x. unfold stored. by rewrite (fr_total _ _ _ F), (fr_this _ _ _ F).
  - eapply Forall_impl; [exact Hrs|]. unfold room_for. intros x Hx. cbn beta in Hx.
    destruct (decide (oi_order x = o)) as [E|E]; [rewrite E; rewrite E in Hx; lia|].
    rewrite (frame_len _ _ _ _ F), (frame_used _ _ _ _ F) by set_solver. unfold LEVEL_BYTES in *. lia.
Qed.

(** The chain of the location after a step on its trie. *)
Lemma fast_put o s (c : Chain T A) t' n ls :
  tr_ok t' n -> n <= chain_len s o + 1 -> t_used t' <= chain_used s o + LEVEL_BYTES ->
  Forall (fun x => stored s (oi_order x) = true) ls ->
  Forall (fun x => room_for s (oi_order x) (zlen ls + 1) ((zlen ls + 1) * LEVEL_BYTES)) ls ->
  let s' := with_log (<[o := mkChain t' (skeens c)]> (log s)) s in
  Forall (fun x => stored s' (oi_order x) = true) ls /\
  Forall (fun x => room_for s' (oi_order x) (zlen ls) (zlen ls * LEVEL_BYTES)) ls.
Proof.
  intros Ht Hn Hu Hs Hr s'. apply (fast_step o s); [apply frame_put| | |done|done].
  - unfold s'. rewrite (chain_len_put _ _ (mkChain t' (skeens c)) _ _ Ht), Z.eqb_refl. lia.
  - unfold s'. by rewrite chain_used_put, Z.eqb_refl.
Qed.

Definition handed_in (s : Server) (o i : Z) (p : Slot) : Prop :=
  exists c, log s !! o = Some c /\ handed (trie c) i p.

Lemma handed_in_grows s s' pend o i p : srv_inv s pend -> srv_grows s s' -> handed_in s o i p -> handed_in s' o i p.
Proof.
  intros HI Hg (c & Hc & Hh). destruct (Hg o c Hc) as (c' & Hc' & Hgc).
  destruct (si_chain _ _ HI o c Hc) as (n & q & Hn & _). exists c'. split; [done|]. by eapply handed_grows.
Qed.

Lemma srv_grows_put s o c t :
  cur s o c -> grows (trie c) t -> srv_grows s (with_log (<[o := mkChain t (skeens c)]> (log s)) s).
Proof.
  intros Hc Hg o' c' Hc'. simpl. destruct (decide (o = o')) as [<-|Hne].
  - eexists. rewrite lookup_insert_eq. split; [done|]. simpl. by eapply cur_grow.
  - exists c'. rewrite lookup_insert_ne by done. split; [done|]. apply grows_refl.
Qed.

(** Before the separator, every location got a place, whose slot is in its cell. *)
Fixpoint fast_cells (s : Server) (xs : list (OrderIndex * option TriePtr)) : Prop :=
  match xs with
  | [] => True
  | x :: xs =>
      if oi_order x.1 =? 0 then x.1 = no_loc
      else (exists p, x.2 = Some (Some (oi_order x.1, p)) /\ handed_in s (oi_order x.1) (oi_entry x.1) p) /\
           fast_cells s xs
  end.

Lemma fast_cells_log s ms st xs : fast_cells s xs -> fast_cells (with_msgs ms (with_storages st s)) xs.
Proof. by induction xs as [|x xs IH]; [|cbn [fast_cells]; destruct (_ =? _); [|intros [? ?]; split; auto]]. Qed.

(** The locations, with entries that are in range. *)
Definition same_orders (ls : list OrderIndex) (xs : list OrderIndex) : Prop :=
  Forall2 (fun l x => oi_order x = oi_order l /\ in_u64 (oi_entry x)) ls xs.

(** The fast path: one place per location before the sentinels. *)
Lemma wp_fast ls : forall senti pend s,
  srv_inv s pend -> chains_u64 ls -> Forall (fun l => stored s (oi_order l) = true) ls ->
  Forall (fun l => room_for s (oi_order l) (zlen ls) (zlen ls * LEVEL_BYTES)) ls ->
  wp (fast_path_locs senti ls)
     (fun xs s' => srv_inv s' (fun o => pend o ++ fast_placed o senti xs.*1) /\
        storages s' = storages s /\ srv_grows s s' /\ same_orders ls xs.*1 /\
        (senti = false -> fast_cells s' xs)) s.
Proof.
  induction ls as [|l ls IH]; intros senti pend s HI Hu Hs Hr.
  { apply wp_ret. split_and!; [|done|apply srv_grows_refl|constructor|done].
    eapply srv_ext; [|done]. intros o. simpl. by rewrite app_nil_r. }
  apply Forall_cons in Hu as [Ho Hu]. apply Forall_cons in Hs as [Hl Hs]. apply Forall_cons in Hr as [Hr Hrs].
  assert (Hz : zlen (l :: ls) = zlen ls + 1) by (unfold zlen; cbn [length]; lia).
  pose proof (zlen_nonneg ls) as Hz0. rewrite Hz in *.
  cbn [fast_path_locs]. apply wp_bind, wp_not_here; [apply HI|]. fold (stored s (oi_order l)). rewrite Hl.
  rewrite orb_false_r. destruct (oi_order l =? 0) eqn:E0; [|destruct senti; simpl].
  - rewrite orb_true_r. apply wp_bind. eapply wp_mono; [apply (IH true pend); [done..|]|].
    { eapply Forall_impl; [exact Hrs|]. unfold room_for. intros x. unfold LEVEL_BYTES. cbn beta. lia. }
    intros xs s' (HI' & Hst & Hg & Ho' & _). apply wp_ret. cbn [fmap list_fmap fast_placed fst oi_order fast_cells].
    rewrite E0. split_and!; [done|done|done| |].
    + constructor; [|done]. by split.
    + intros _. apply Z.eqb_eq in E0. by rewrite E0.
  - destruct (srv_cur _ _ (oi_order l) HI) as (c & Hc & Ht & Hk & Ek & Hu0). destruct Hr as [Hr Hby].
    destruct (tr_blank (oi_order l) _ _ Ht ltac:(lia) ltac:(unfold LEVEL_BYTES in *; lia) Ho)
      as (t' & n & E & Ht' & Hn & Hu' & Hg).
    apply wp_bind. eapply wp_on_trie; [exact Hc|exact E|].
    destruct (fast_put (oi_order l) s c t' n ls Ht') as [Hs' Hr']; [lia|lia|done..|].
    apply wp_bind. eapply wp_mono; [apply (IH true pend); [|done..]|].
    { by eapply srv_put; [exact HI|eapply cur_grow|exact Ht'|exact Hk|lia]. }
    intros xs s' (HI' & Hst & Hgs & Ho' & _). apply wp_ret. cbn [fmap list_fmap fast_placed fst oi_order].
    rewrite E0. split_and!; [done|done| | |done].
    + eapply srv_grows_trans; [by eapply srv_grows_put|exact Hgs].
    + constructor; [|done]. split; [done|]. pose proof (srv_pos _ _ (oi_order l) HI).
      unfold in_u64, u64_max, LIMIT in *. cbn. lia.
  - destruct (srv_cur _ _ (oi_order l) HI) as (c & Hc & Ht & Hk & Ek & Hu0). destruct Hr as [Hr Hby].
    destruct (tr_prep _ _ Ht ltac:(lia)) as (t' & ptr & E & Ht' & Hg & Hu' & Hh).
    apply wp_bind. eapply wp_on_trie; [exact Hc|exact E|].
    destruct (fast_put (oi_order l) s c t' _ ls Ht') as [Hs' Hr']; [lia|unfold LEVEL_BYTES; lia|done..|].
    apply wp_bind. eapply wp_mono; [apply (IH false); [|done..]|].
    { eapply (srv_take s pend _ (mkChain t' (skeens c))); [done|by eapply cur_grow|done..|]. by eapply srv_pos. }
    intros xs s' (HI' & Hst & Hgs & Ho' & Hcells). apply wp_ret.
    cbn [fmap list_fmap fast_placed fst snd oi_order oi_entry fast_cells]. rewrite E0. split_and!; [|done| | |].
    + eapply srv_ext; [|exact HI']. intros o. unfold pend_add. simpl.
      by destruct (oi_order l =? o); [rewrite <-app_assoc|].
    + eapply srv_grows_trans; [by eapply srv_grows_put|exact Hgs].
    + constructor; [|done]. split; [done|]. pose proof (srv_pos _ _ (oi_order l) HI).
      unfold in_u64, u64_max, LIMIT in *. cbn. lia.
    + intros _. split; [|by apply Hcells]. exists ptr. split; [done|]. eapply handed_in_grows; [|exact Hgs|].
      * eapply (srv_take s pend _ (mkChain t' (skeens c))); [done|by eapply cur_grow|done..|]. by eapply srv_pos.
      * eexists. split; [apply lookup_insert_eq|exact Hh].
Qed.

(** The message of the fast path: the locations of the packet have their places, and the cells of
    the storage the slots. *)
Definition fast_sent (s' : Server) (r : Ref) (h : Z) (t : T) (ls : list OrderIndex) : Prop :=
  exists xs r' m size cells, locs_mut (fun _ => xs.*1) r = Done r' /\
    last (to_workers s') = Some (MultiFastPath r' h t) /\ same_orders ls xs.*1 /\ fast_cells s' xs /\
    storages s' !! h = Some m /\ ms_senti m = Some (size, write_pointers xs.*2 cells) /\ zlen ls <= size.

Lemma wp_fast_path r h t ls m size cells s :
  srv_inv s none -> multi_locs r = Some ls -> chains_u64 ls ->
  Forall (fun l => stored s (oi_order l) = true) ls ->
  Forall (fun l => room_for s (oi_order l) (zlen ls) (zlen ls * LEVEL_BYTES)) ls ->
  storages s !! h = Some m -> ms_senti m = Some (size, cells) -> zlen ls <= size ->
  wp (single_server_single_append_fast_path r h t) (fun _ s' => srv_inv s' none /\ fast_sent s' r h t ls) s.
Proof.
  intros HI Hls Hu Hs Hr Hm Hse Hsz. unfold single_server_single_append_fast_path.
  apply wp_bind. eapply wp_get_storage; [exact Hm|]. rewrite Hse.
  apply wp_bind. eapply wp_lift; [reflexivity|]. apply wp_bind. eapply wp_lift; [by apply multi_locs_locs|].
  apply wp_bind. eapply wp_lift; [by rewrite (proj2 (Z.leb_le _ _) Hsz)|].
  apply wp_bind. eapply wp_mono; [by apply (wp_fast ls false none)|]. intros xs s' (HI' & Hst & _ & Ho & Hcells).
  destruct (multi_locs_mut (fun _ => xs.*1) r ls Hls) as (r' & E & Hr').
  apply wp_bind. eapply wp_lift; [exact E|]. apply wp_bind. eapply wp_get_storage; [by rewrite Hst|].
  apply wp_bind, wp_put_storage, wp_send. split.
  - eapply srv_send; [by apply srv_storages|]. intros o. simpl. by rewrite (multi_locs_locs _ _ Hr'), app_nil_r.
  - eexists xs, r', _, size, cells. split; [done|]. split; [apply last_snoc|]. split; [done|].
    split; [by apply fast_cells_log, Hcells|]. split; [apply lookup_insert_eq|]. by split.
Qed.

Lemma contains_insert k f : EntryFlag.contains (EntryFlag.insert k f) f = true.
Proof.
  unfold EntryFlag.contains, EntryFlag.insert. apply Z.eqb_eq. apply Z.bits_inj'. intros i _.
  rewrite Z.land_spec, Z.lor_spec. by destruct (Z.testbit k i), (Z.testbit f i).
Qed.

Lemma foldl_max_spec (tss : list Z) : forall ts,
  (forall x, x ∈ ts :: tss -> x <= foldl Z.max ts tss) /\ foldl Z.max ts tss ∈ ts :: tss.
Proof.
  induction tss as [|y tss IH]; intros ts; cbn [foldl].
  - split; [|by left]. intros x ->%list_elem_of_singleton. lia.
  - destruct (IH (Z.max ts y)) as [IH1 IH2]. split.
    + pose proof (IH1 _ (list_elem_of_here _ _)). intros x [->|[->|Hx]%elem_of_cons]%elem_of_cons; [lia..|].
      apply IH1. by right.
    + apply elem_of_cons in IH2 as [->|IH2]; [|by do 2 right].
      destruct (Z.max_spec ts y) as [[_ ->]|[_ ->]]; [right; left|left].
Qed.

Lemma fresh_timestamp s o (id : Z) : fresh (cur_skeens s o) id -> next_timestamp (cur_skeens s o) < u64_max.
Proof. by intros [[Hr _] _]. Qed.

(** The timestamps round 1 handed out, and their maximum. *)
Lemma given_in s o ls :
  o ∈ touched false s ls -> next_timestamp (cur_skeens s o) ∈ fst <$> (given_loc s <$> ls).
Proof.
  intros [Hd (l & -> & Hl)%list_elem_of_fmap]%list_elem_of_filter.
  apply list_elem_of_fmap. exists (given s (oi_order l)). split; [done|].
  apply list_elem_of_fmap. exists l. split; [|done]. unfold given_loc. cbn in Hd.
  apply andb_true_iff in Hd as [Hd1 Hd2]. by rewrite Hd2, (proj1 (negb_true_iff _) Hd1).
Qed.

Lemma given_max s id ls ts tss :
  fst <$> (given_loc s <$> ls) = ts :: tss ->
  (forall o, o ∈ touched false s ls -> fresh (cur_skeens s o) id) ->
  foldl Z.max ts tss < u64_max /\
  forall o, o ∈ touched false s ls -> next_timestamp (cur_skeens s o) <= foldl Z.max ts tss.
Proof.
  intros E Hf. destruct (foldl_max_spec tss ts) as [Hle Hin]. rewrite <-E in Hle, Hin. split.
  - apply list_elem_of_fmap in Hin as (x & -> & (l & -> & Hl)%list_elem_of_fmap).
    unfold given_loc. destruct ((oi_order l =? 0) || _) eqn:Eb; [done|]. cbn [given fst].
    apply (fresh_timestamp _ _ id), Hf. apply list_elem_of_filter.
    apply orb_false_iff in Eb as [-> ->%negb_false_iff]. split; [done|]. by apply list_elem_of_fmap_2.
  - intros o Ho. by apply Hle, given_in.
Qed.

(** Room for the new append and for all that wait. *)
Definition room_pending (s : Server) (o : Z) : Prop :=
  room_deliver s o (S (pending_count (cur_skeens s o))).

Lemma queued_waits id s s' o mts :
  queued_at id s s' o -> room_pending s o -> next_timestamp (cur_skeens s o) <= mts < u64_max ->
  waits id mts (log s' !! o).
Proof.
  intros (c & Hl & Hp & Hc & Hb & Hn) [Hr Hby] Hm. rewrite Hl. exists (next_timestamp (cur_skeens s o)).
  unfold chain_len in Hc at 1. unfold chain_used in Hb at 1. rewrite Hl in Hc, Hb. rewrite Hc, Hn.
  split_and!; [done|lia|lia|done|lia].
Qed.

Lemma wp_local_skeens kind r h t ls s :
  srv_inv s none -> multi_locs r = Some ls -> chains_u64 ls -> ls <> [] ->
  round1_ok false s (Packets.id r) h ls -> (forall o, o ∈ touched false s ls -> room_pending s o) ->
  wp (single_server_local_skeens kind r h t) (fun _ s' => srv_inv s' none) s.
Proof.
  intros HI Hls Hu Hne Hok Hr. unfold single_server_local_skeens.
  apply wp_bind. eapply wp_mono; [by apply wp_new_round1|].
  intros _ s1 (HI1 & Htot & Hthis & Hq & m & Hm & Hts & _).
  apply wp_bind. eapply wp_get_storage; [exact Hm|]. apply wp_bind, wp_send.
  set (s2 := with_msgs _ s1). assert (HI2 : srv_inv s2 none) by (by apply srv_send_silent).
  destruct (ms_timestamps m) as [|ts tss]; [by destruct ls|].
  apply wp_bind. eapply wp_lift; [reflexivity|].
  destruct Hok as (_ & Hnd & Hf). destruct (given_max _ _ _ _ _ (eq_sym Hts) Hf) as [Hlt Hle].
  destruct (multi_lock_mut (foldl Z.max ts tss) r ls Hls) as (r1 & E1 & Hls1 & Hlk1 & Hid1).
  apply wp_bind. eapply wp_lift; [exact E1|].
  destruct (multi_flag_mut (fun f => EntryFlag.insert f EntryFlag.Unlock) r1 ls Hls1)
    as (r2 & E2 & Hls2 & Hlk2 & Hid2).
  apply wp_bind. eapply wp_lift; [exact E2|].
  apply wp_bind. eapply wp_mono; [apply (wp_new_round2 _ _ ls); [done|apply contains_insert|done|done|]|].
  - rewrite Hlk2, Hlk1, Hid2, Hid1. assert (Et : touched false s2 ls = touched false s ls).
    { unfold touched, stored, s2. simpl. by rewrite Htot, Hthis. }
    split; rewrite Et; [done|]. intros o Ho. apply (queued_waits _ s); [by apply Hq|by apply Hr|].
    split; [by apply Hle|done].
  - intros r3 s3 HI3. by apply wp_send, srv_send_silent.
Qed.

(** A multi-append to chains of this server only. *)
Record local_ok (s : Server) (id h : Z) (ls : list OrderIndex) : Prop := {
  lo_nonempty : ls <> [];
  lo_stored : Forall (fun l => stored s (oi_order l) = true) ls;
  lo_round1 : round1_ok false s id h ls;
  lo_pending : forall o, o ∈ touched false s ls -> room_pending s o;
  lo_room : Forall (fun l => room_for s (oi_order l) (zlen ls) (zlen ls * LEVEL_BYTES)) ls;
  lo_senti : exists m size cells, storages s !! h = Some m /\ ms_senti m = Some (size, cells) /\
    zlen ls <= size;
}.

Lemma room_same s s' o n b : same_chains s s' -> room_for s o n b -> room_for s' o n b.
Proof.
  intros S [Hr Hb]. pose proof (sc_used _ _ S o). unfold room_for. rewrite (sc_len _ _ S). lia.
Qed.

Lemma local_ok_same s s' id h ls : same_chains s s' -> local_ok s id h ls -> local_ok s' id h ls.
Proof.
  intros S [Hne Hs (Hm & Hnd & Hf) Hp Hr Hse]. pose proof (same_touched false _ _ ls S) as Et. constructor.
  - done.
  - eapply Forall_impl; [exact Hs|]. intros l. unfold stored. by rewrite (sc_total _ _ S), (sc_this _ _ S).
  - unfold round1_ok. rewrite (sc_storages _ _ S), Et. split_and!; [done|done|].
    intros o Ho. rewrite (sc_skeens _ _ S). by apply Hf.
  - rewrite Et. intros o Ho. unfold room_pending, room_deliver. rewrite (sc_skeens _ _ S).
    eapply room_same; [done|]. by apply Hp.
  - eapply Forall_impl; [exact Hr|]. intros l. by apply room_same.
  - by rewrite (sc_storages _ _ S).
Qed.

Lemma wp_single_server_append kind r h t ls s :
  srv_inv s none -> multi_locs r = Some ls -> chains_u64 ls -> local_ok s (Packets.id r) h ls ->
  wp (handle_single_server_append kind r (TLeft h) t)
     (fun _ s' => srv_inv s' none /\ (idle s ls -> fast_sent s' r h t ls)) s.
Proof.
  intros HI Hls Hu Hlo. unfold handle_single_server_append.
  apply wp_bind. eapply wp_lift; [by apply multi_locs_locs|].
  apply wp_bind. eapply wp_mono; [by apply wp_needs, Hlo|]. intros [lock sk] s1 (El & HI1 & S1 & Hi).
  cbn in El. subst lock. apply (local_ok_same _ _ _ _ _ S1) in Hlo as Hlo1. clear Hlo.
  apply wp_bind. eapply wp_lift; [by apply debug_assert_true|].
  apply wp_bind. eapply wp_lift; [reflexivity|]. destruct Hlo1 as [Hne Hs Hr1 Hp Hr (m & sz & cs & Hm & Hse & Hz)].
  destruct sk; simpl.
  - eapply wp_mono; [by eapply wp_local_skeens|]. intros u s' HI'. split; [done|]. by intros Hidle%Hi.
  - eapply wp_mono; [by eapply wp_fast_path|]. intros _ s' [HI' Hf]. by split.
Qed.

(** ** Snapshots *)

Lemma wp_snapshot_locs ls : forall s, srv_inv s none -> wp (snapshot_locs ls) (fun _ s' => s' = s) s.
Proof.
  induction ls as [|l ls IH]; intros s HI; [by apply wp_ret|]. cbn [snapshot_locs].
  apply wp_bind, wp_not_here; [apply HI|]. apply wp_bind.
  assert (Hrest : forall i : Z, wp (rest ← snapshot_locs ls; mret (mkOI (oi_order l) i :: rest))
            (fun _ s' => s' = s) s).
  { intros i. apply wp_bind. eapply wp_mono; [by apply IH|]. intros rest s' ->. by apply wp_ret. }
  destruct (_ || _); [by apply wp_ret|]. apply wp_bind, wp_get_chain.
  destruct (log s !! oi_order l) as [c|] eqn:Eo; [|by apply wp_ret].
  destruct (si_chain _ _ HI _ _ Eo) as (n & p & Ht & _).
  eapply wp_lift; [by apply (tr_horizon _ _ Ht)|done].
Qed.

Lemma wp_single_server_snapshot r t ls s :
  srv_inv s none -> multi_locs r = Some ls ->
  wp (handle_single_server_snapshot r t) (fun _ s' => srv_inv s' none) s.
Proof.
  intros HI Hls. unfold handle_single_server_snapshot.
  destruct (multi_flag_mut (fun f => EntryFlag.insert f EntryFlag.ReadSuccess) r ls Hls) as (r1 & E1 & Hls1 & _).
  apply wp_bind. eapply wp_lift; [exact E1|]. apply wp_bind. eapply wp_lift; [by apply multi_locs_locs|].
  apply wp_bind. eapply wp_mono; [by apply wp_snapshot_locs|]. intros ls' s' ->.
  destruct (multi_locs_mut (fun _ => ls') r1 ls Hls1) as (r2 & E2 & _).
  apply wp_bind. eapply wp_lift; [exact E2|]. by apply wp_send, srv_send_silent.
Qed.

Lemma wp_snap_round1 id storage t ls : forall s,
  srv_inv s none -> NoDup (touched true s ls) ->
  (forall o, o ∈ touched true s ls -> accepts id (log s !! o)) ->
  wp (snap_round1_locs id storage t ls)
     (fun _ s' => srv_inv s' none /\ frame (touched true s ls) s s') s.
Proof.
  induction ls as [|l ls IH]; intros s HI Hnd Ha; [by apply wp_ret|].
  cbn [snap_round1_locs]. apply wp_bind, wp_stores_chain; [apply HI|].
  fold (stored s (oi_order l)). rewrite touched_cons in *. cbn [orb andb] in *.
  destruct (stored s (oi_order l)).
  - apply NoDup_cons in Hnd as [Hni Hnd]. apply wp_bind, wp_bind. unfold timestamp_for_snap.
    apply wp_bind. eapply (wp_queue _ id); [done|by apply Ha; left|by intros; apply sk_add_snapshot|].
    intros s1 HI1 F1 _. apply wp_ret, wp_bind, wp_ret, wp_ret, wp_bind.
    pose proof (touched_frame true _ _ _ ls F1) as Et.
    eapply wp_mono; [apply IH; [done|by rewrite Et|]|].
    + rewrite Et. intros o Hin. rewrite (fr_log _ _ _ F1) by set_solver. apply Ha. by right.
    + rewrite Et. intros xs s2 (HI2 & F2). apply wp_ret. split; [done|].
      eapply frame_trans; [exact F1|exact F2|]. set_solver.
  - apply wp_bind, wp_ret, wp_bind. eapply wp_mono; [by apply IH|]. intros xs s' ?. by apply wp_ret.
Qed.

Lemma wp_skeens_snapshot_round1 kind r h t ls s :
  srv_inv s none -> EntryFlag.contains kind EntryFlag.Unlock = false -> multi_locs r = Some ls ->
  round1_ok true s (Packets.id r) h ls ->
  wp (skeens_snapshot_round1 kind r h t) (fun _ s' => srv_inv s' none) s.
Proof.
  intros HI Hu Hls ((m & Hm & Hl1 & Hl2) & Hnd & Ha). unfold skeens_snapshot_round1. rewrite Hu.
  apply wp_bind. eapply wp_lift; [done|]. apply wp_bind. eapply wp_lift; [by apply multi_locs_locs|].
  apply wp_bind. eapply wp_get_storage; [done|]. apply wp_bind, wp_check_slices; [done..|].
  apply wp_bind. eapply wp_mono; [apply wp_snap_round1; [done|done|]|].
  { intros o Ho. by apply accepts_fresh, Ha. }
  intros xs s' [HI' F]. apply wp_bind. eapply wp_get_storage; [by rewrite (fr_storages _ _ _ F)|].
  by apply wp_put_storage, srv_storages.
Qed.

(** ** Requests that respect the protocol *)

Definition flags_of (r : Ref) : EntryFlag.Flag := match Packets.flag r with Done f => f | Panic => 0 end.

(** A request in the Skeens protocol: a first round for an id its chains do not know, or a
    second round for an id they wait for. *)
Definition skeens_ok (zero : bool) (s : Server) (r : Ref) (storage : Storage) (ls : list OrderIndex) : Prop :=
  EntryFlag.contains (flags_of r) EntryFlag.NewMultiPut = true /\
  if EntryFlag.contains (flags_of r) EntryFlag.Unlock
  then round2_ok s (Packets.id r) (lock_of r) ls
  else exists h, storage = TLeft h /\ round1_ok zero s (Packets.id r) h ls.

Definition op_ok (s : Server) (r : Ref) (storage : Storage) : Prop :=
  valid r = true /\
  match r with
  | Read _ _ _ _ _ _ _ => True
  | Single id flags loc _ _ timestamp =>
      EntryFlag.contains flags EntryFlag.DirectWrite = false /\ stored s (oi_order loc) = true /\
      fresh (cur_skeens s (oi_order loc)) id /\ timestamp + 1 < u64_max /\
      room_for s (oi_order loc) 1 (packet_cost r)
  | Multi _ flags _ locs _ _ | Senti _ flags _ _ locs _ =>
      EntryFlag.contains flags EntryFlag.DirectWrite = false /\
      if EntryFlag.contains flags EntryFlag.TakeLock then skeens_ok false s r storage locs
      else exists h, storage = TLeft h /\ local_ok s (Packets.id r) h locs
  | Snapshot _ flags _ _ _ locs =>
      if EntryFlag.contains flags EntryFlag.TakeLock then skeens_ok true s r storage locs else True
  | _ => False
  end.

Lemma wp_multiappend r storage t ls s :
  srv_inv s none -> multi_locs r = Some ls -> chains_u64 ls ->
  EntryFlag.contains (flags_of r) EntryFlag.DirectWrite = false ->
  (if EntryFlag.contains (flags_of r) EntryFlag.TakeLock then skeens_ok false s r storage ls
   else exists h, storage = TLeft h /\ local_ok s (Packets.id r) h ls) ->
  wp (handle_multiappend (flags_of r) r storage t) (fun _ s' => srv_inv s' none) s.
Proof.
  intros HI Hls Hu Hd Hok. unfold handle_multiappend. rewrite Hd.
  destruct (EntryFlag.contains (flags_of r) EntryFlag.TakeLock) eqn:Et; cbn [negb].
  - destruct Hok as [Hn Hok]. rewrite Hn. unfold handle_new_multiappend. rewrite Et.
    apply wp_bind. eapply wp_lift; [done|].
    destruct (EntryFlag.contains (flags_of r) EntryFlag.Unlock) eqn:Eu.
    + apply wp_bind. eapply wp_mono; [by eapply wp_new_round2|]. intros r' s' HI'.
      by apply wp_send, srv_send_silent.
    + destruct Hok as (h & -> & Hok). apply wp_bind. eapply wp_lift; [reflexivity|].
      apply wp_bind. eapply wp_mono; [by apply wp_new_round1|]. intros u s' HR. destruct HR as (HI' & _).
      by apply wp_send, srv_send_silent.
  - destruct Hok as (h & -> & Hok). eapply wp_mono; [by eapply wp_single_server_append|]. by intros _ s' [? _].
Qed.

Lemma wp_handle_snapshot r storage t ls s :
  srv_inv s none -> multi_locs r = Some ls -> chains_u64 ls ->
  (if EntryFlag.contains (flags_of r) EntryFlag.TakeLock then skeens_ok true s r storage ls else True) ->
  wp (handle_snapshot (flags_of r) r storage t) (fun _ s' => srv_inv s' none) s.
Proof.
  intros HI Hls Hu Hok. unfold handle_snapshot.
  destruct (EntryFlag.contains (flags_of r) EntryFlag.TakeLock) eqn:Et; cbn [negb].
  - destruct Hok as [Hn Hok]. rewrite Hn. unfold handle_skeens_snapshot. rewrite Et.
    apply wp_bind. eapply wp_lift; [done|]. apply wp_bind. eapply wp_lift; [done|].
    destruct (EntryFlag.contains (flags_of r) EntryFlag.Unlock) eqn:Eu.
    + apply wp_bind. eapply wp_mono; [by eapply wp_new_round2|]. intros r' s' HI'.
      by apply wp_send, srv_send_silent.
    + destruct Hok as (h & -> & Hok). apply wp_bind. eapply wp_lift; [reflexivity|].
      apply wp_bind. eapply wp_mono; [by eapply wp_skeens_snapshot_round1|]. intros u s' HI'.
      by apply wp_send, srv_send_silent.
  - by eapply wp_single_server_snapshot.
Qed.

Lemma wp_handle_op r storage t s :
  srv_inv s none -> op_ok s r storage ->
  wp (handle_op r storage t) (fun _ s' => srv_inv s' none) s.
Proof.
  intros HI [Hv Hok]. unfold handle_op.
  destruct r; try done; apply wp_bind; (eapply wp_lift; [reflexivity|]); apply wp_bind;
    (eapply wp_lift; [reflexivity|]).
  - by eapply wp_handle_read.
  - destruct Hok as (Hd & Hs & Hf & Ht & Hr). eapply wp_mono; [apply wp_handle_data; try done; by apply accepts_fresh|].
    by intros _ s' [HI' _].
  - destruct Hok as [Hd Hok].
    by apply (wp_multiappend (Multi id flags lock locs deps data) storage t locs s HI eq_refl
      (multi_chains _ _ Hv eq_refl)).
  - destruct Hok as [Hd Hok].
    by apply (wp_multiappend (Senti id flags data_bytes lock locs deps) storage t locs s HI eq_refl
      (multi_chains _ _ Hv eq_refl)).
  - by apply (wp_handle_snapshot (Snapshot id flags data_bytes num_deps lock locs) storage t locs s HI
      eq_refl (multi_chains _ _ Hv eq_refl)).
Qed.

(** The first round of a multi-append, as a request. *)
Lemma wp_round1_op id flags lock ls deps data h t s :
  let r := Multi id flags lock ls deps data in
  srv_inv s none -> EntryFlag.contains flags EntryFlag.DirectWrite = false ->
  EntryFlag.contains flags EntryFlag.TakeLock = true ->
  EntryFlag.contains flags EntryFlag.NewMultiPut = true ->
  EntryFlag.contains flags EntryFlag.Unlock = false -> round1_ok false s id h ls ->
  wp (handle_op r (TLeft h) t)
     (fun _ s' => exists s1, round1_done s id h ls s1 /\ s' = with_msgs (to_workers s1 ++ [Skeens1 r h t]) s1) s.
Proof.
  intros r HI Hd Ht Hn Hu Hok. unfold handle_op. apply wp_bind. eapply wp_lift; [reflexivity|].
  apply wp_bind. eapply wp_lift; [reflexivity|]. unfold handle_multiappend. rewrite Hd, Ht, Hn. cbn [negb].
  unfold handle_new_multiappend. rewrite Ht, Hu. apply wp_bind. eapply wp_lift; [done|].
  apply wp_bind. eapply wp_lift; [reflexivity|].
  apply wp_bind. eapply wp_mono; [by apply (wp_new_round1 r h false t ls)|]. intros u s1 Hs1.
  apply wp_send. by exists s1.
Qed.

End Safety.

(** ** Reachable servers *)

Section Reach.
Context `{Build} {T A : Type} `{ByteTrie A, !ByteTrieView A, !ByteTrieLaws A}.

Abbreviation Server := (ServerLog T A).

Lemma srv_rebase (base s : Server) pend : srv_inv base s pend -> srv_inv s s pend.
Proof. intros []. constructor; try done. apply srv_grows_refl. Qed.

Definition put_trie (o : Z) (t : Trie A) (s : Server) : Server :=
  match log s !! o with
  | Some c => with_log (<[o := mkChain t (skeens c)]> (log s)) s
  | None => s
  end.

(** A change of a trie that keeps its places. *)
Lemma srv_put_trie s o c t n :
  srv_inv s s none -> log s !! o = Some c -> tr_ok (trie c) n -> tr_ok t n ->
  srv_inv (put_trie o t s) (put_trie o t s) none.
Proof.
  intros HI Hc Hn Ht. unfold put_trie. rewrite Hc. destruct (si_chain _ _ _ HI o c Hc) as (n' & p & Hn' & Hk).
  assert (n' = n) as -> by (by rewrite <-(tr_len _ _ Hn'), <-(tr_len _ _ Hn)).
  assert (Hlen : forall o', chain_len (with_log (<[o := mkChain t (skeens c)]> (log s)) s) o' = chain_len s o').
  { intros o'. rewrite (chain_len_put _ _ (mkChain t (skeens c)) _ _ Ht). destruct (Z.eqb_spec o o') as [<-|]; [|done].
    unfold chain_len. by rewrite Hc, (tr_len _ _ Hn). }
  constructor; simpl.
  - apply HI.
  - intros o' c' [[<- <-]|[_ Hl]]%lookup_insert_Some; [by exists n, p|by apply (si_chain _ _ _ HI o')].
  - apply srv_grows_refl.
  - apply HI.
  - intros o'. rewrite Hlen. apply HI.
Qed.

(** A server that was created and received requests that respect the protocol, while the other
    threads changed what they share with it: the storages, the entries of the tries (through a
    slot that was handed out) and the bytes that were reserved. *)
Inductive srv_reach : Server -> Prop :=
| sr_new n total s : total <> 0 -> server_new n total = Done s -> srv_reach s
| sr_storages s st : srv_reach s -> srv_reach (with_storages st s)
| sr_store s o c i sl v :
    srv_reach s -> log s !! o = Some c -> handed (trie c) i sl ->
    srv_reach (put_trie o (trie_store sl v (trie c)) s)
| sr_copy s o c vals slots O p n bytes :
    srv_reach s -> log s !! o = Some c -> tr_rep (trie c) vals slots O -> (p, n) ∈ O -> zlen bytes <= n ->
    srv_reach (put_trie o (trie_copy p bytes (trie c)) s)
| sr_op s r storage t s' :
    srv_reach s -> op_ok s r storage -> handle_op r storage t s = Done (s', tt) -> srv_reach s'.

Lemma srv_reach_inv s : srv_reach s -> srv_inv s s none.
Proof.
  induction 1 as [n total s Ht E|s st _ IH|s o c i sl v _ IH Hc Hh|s o c vals slots O p n bytes _ IH Hc HR Hp Hn
    |s r storage t s' _ IH Hok E].
  - unfold server_new in E. inv_done. constructor; simpl; [done| | | |].
    + intros o c Hc. by rewrite lookup_empty in Hc.
    + apply srv_grows_refl.
    + intros o. constructor.
    + intros o. constructor.
  - eapply srv_rebase. by apply srv_storages.
  - destruct (si_chain _ _ _ IH _ _ Hc) as (n & p & Hn & _). pose proof Hn as (vals & slots & O & HR & -> & H1).
    eapply srv_put_trie; [done|done|exact Hn|]. eapply trie_store_ok; [done|done|done].
  - destruct (si_chain _ _ _ IH _ _ Hc) as (len & q & Hlen & _).
    eapply srv_put_trie; [done|done|exact Hlen|]. by eapply trie_copy_ok.
  - destruct (wp_handle_op s r storage t s IH Hok) as (s1 & [] & E1 & HI1).
    rewrite E in E1. injection E1 as <-. by eapply srv_rebase.
Qed.

End Reach.

(** ** Theorems *)

Section Theorems.
Context `{Build} {T A : Type} `{ByteTrie A, !ByteTrieView A, !ByteTrieLaws A}.

(** C23.  The ordering thread does not panic: a reachable server handles every read, single
    append, first or second round of a multi-append or a snapshot and every single-server
    multi-append or snapshot that respects the protocol, and ends in a reachable state. *)
Theorem server_no_panic (s : ServerLog T A) (r : Ref) (storage : Storage) (t : T) :
  srv_reach s -> op_ok s r storage ->
  exists s', handle_op r storage t s = Done (s', tt) /\ srv_reach s'.
Proof.
  intros Hs Hok. destruct (wp_handle_op s r storage t s (srv_reach_inv s Hs) Hok) as (s' & [] & E & _).
  exists s'. split; [done|]. by eapply sr_op.
Qed.

(** C4.  Per chain, the places a reachable server gives to appends, in the order in which it
    tells the workers to write them, are strictly increasing: no place is given twice, whether
    by a single append, through the Skeens state or on the fast path, and every place lies in
    the chain. *)
Theorem places_increase (s : ServerLog T A) (o : Z) :
  srv_reach s ->
  StronglySorted Z.lt (positions o (to_workers s)) /\
  Forall (fun i => 1 <= i < chain_len s o) (positions o (to_workers s)).
Proof.
  intros HI%srv_reach_inv. pose proof (si_sorted _ _ _ HI o) as Hs. pose proof (si_range _ _ _ HI o) as Hr.
  unfold none in *. by rewrite app_nil_r in Hs, Hr.
Qed.

(** C24.  The first round of a multi-append leaves in the shared storage, for each location, the
    clock and the next queue index of its chain when this server has the chain, and zeros
    otherwise; and the chains then wait for the second round: it is accepted with any final
    timestamp that is at least the ones handed out. *)
Theorem round1_hands_out (s : ServerLog T A) (id flags lock h : Z) (ls deps : list OrderIndex)
    (data : list Z) (t : T) :
  let r := Multi id flags lock ls deps data in
  srv_reach s -> op_ok s r (TLeft h) ->
  EntryFlag.contains flags EntryFlag.TakeLock = true ->
  EntryFlag.contains flags EntryFlag.Unlock = false ->
  exists s' m, handle_op r (TLeft h) t s = Done (s', tt) /\ storages s' !! h = Some m /\
    ms_timestamps m = fst <$> (given_loc s <$> ls) /\
    ms_queue_indicies m = snd <$> (given_loc s <$> ls) /\
    forall mts, Forall (fun ts => ts <= mts) (ms_timestamps m) -> mts < u64_max ->
      (forall o, o ∈ touched false s ls -> room_pending s o) -> round2_ok s' id mts ls.
Proof.
  intros r Hs [Hv [Hd Hok]] Htl Hul. apply srv_reach_inv in Hs. rewrite Htl in Hok. destruct Hok as [Hn Hok].
  cbn [flags_of r Packets.flag] in Hn, Hok. rewrite Hul in Hok. destruct Hok as (h' & [= <-] & Hok).
  destruct (wp_round1_op s id flags lock ls deps data h t s Hs Hd Htl Hn Hul Hok)
    as (s' & [] & E & s1 & (HI1 & Htot & Hthis & Hq & m & Hm & Ht & Hqi) & ->).
  eexists _, m. split; [exact E|]. split_and!; [done..|]. intros mts Hle Hlt Hr.
  assert (Et : forall ms, touched false (with_msgs ms s1) ls = touched false s ls).
  { intros ms. unfold touched, stored. simpl. by rewrite Htot, Hthis. }
  destruct Hok as (_ & Hnd & _). split; rewrite Et; [done|]. intros o Ho.
  apply (queued_waits _ s); [by apply Hq|by apply Hr|]. split; [|done].
  rewrite Forall_forall in Hle. apply Hle. rewrite Ht. by apply given_in.
Qed.

End Theorems.

(** ** Witnesses: one server, a single append, a multi-append to two chains with a single append
    between its two rounds, and a multi-append that takes the fast path *)

Module Demo.

#[local] Existing Instance dev.

Definition step (r : Ref) (storage : Storage) (s : ServerLog unit Alloc) : ServerLog unit Alloc :=
  match handle_op r storage tt s with Done (s', _) => s' | Panic => s end.

Definition s0 : ServerLog unit Alloc :=
  with_storages {[1 := storage_new 2 100 None; 2 := storage_new 2 100 (Some 100)]}
    (mkServer ∅ 1 0 [] ∅).

Definition single1 : Ref := Single 7 0 (mkOI 1 0) [] [1] 0.
Definition round1 : Ref := Multi 8 0xA 0 [mkOI 1 0; mkOI 2 0] [] [5].
Definition single2 : Ref := Single 9 0 (mkOI 1 0) [] [6] 1.
Definition round2 : Ref := Multi 8 0x1A 1 [mkOI 1 0; mkOI 2 0] [] [5].
Definition fast : Ref := Multi 10 0 0 [mkOI 1 0; mkOI 3 0] [] [4].

Definition s1 := step single1 TNone s0.
Definition s2 := step round1 (TLeft 1) s1.
Definition s3 := step single2 TNone s2.
Definition s4 := step round2 TNone s3.
Definition s5 := step fast (TLeft 2) s4.

Lemma reach0 : srv_reach s0.
Proof. apply sr_storages. by apply (sr_new 0 1). Qed.

Ltac comp := vm_compute; reflexivity.
Ltac fresh_tac := split; [split; comp|comp].
Ltac room_tac := split; [comp|vm_compute; discriminate].

Lemma ok1 : op_ok s0 single1 TNone.
Proof. split; [comp|]. split; [comp|]. split; [comp|]. split; [fresh_tac|]. split; [comp|room_tac]. Qed.

Lemma ok2 : op_ok s1 round1 (TLeft 1).
Proof.
  split; [comp|]. split; [comp|]. split; [comp|]. exists 1. split; [done|]. split; [|split].
  - eexists. split; [comp|]. split; comp.
  - apply (bool_decide_unpack _). by vm_compute.
  - intros o Ho. assert (Ho' : o ∈ [1; 2]) by exact Ho.
    apply elem_of_cons in Ho' as [->|Ho']; [fresh_tac|]. apply list_elem_of_singleton in Ho' as ->. fresh_tac.
Qed.

Lemma reach1 : srv_reach s1.
Proof. eapply (sr_op s0 single1 TNone tt); [apply reach0|apply ok1|]. comp. Qed.

Lemma reach2 : srv_reach s2.
Proof. eapply (sr_op s1 round1 (TLeft 1) tt); [apply reach1|apply ok2|]. comp. Qed.

Lemma ok3 : op_ok s2 single2 TNone.
Proof. split; [comp|]. split; [comp|]. split; [comp|]. split; [fresh_tac|]. split; [comp|room_tac]. Qed.

Lemma reach3 : srv_reach s3.
Proof. eapply (sr_op s2 single2 TNone tt); [apply reach2|apply ok3|]. comp. Qed.

Definition waitsb (id mts : Z) (c : option (Chain unit Alloc)) : bool :=
  match c with
  | Some c =>
      match phase1_timestamp (skeens c) id with
      | Some ts => (ts <=? mts) && (mts <? u64_max) &&
          (Trie.len (root (trie c)) + Z.of_nat (pending_count (skeens c)) <? LIMIT) &&
          (t_used (trie c) + Z.of_nat (pending_count (skeens c)) * LEVEL_BYTES <=? BYTES_LIMIT)
      | None => false
      end
  | None => false
  end.

Lemma waitsb_ok id mts c : waitsb id mts c = true -> waits id mts c.
Proof.
  destruct c as [c|]; [|done]. simpl. destruct (phase1_timestamp _ _) as [ts|]; [|done].
  rewrite !andb_true_iff, !Z.leb_le, !Z.ltb_lt. intros [[[Hl Hm] Hr] Hb]. exists ts. by split_and!.
Qed.

Lemma ok4 : op_ok s3 round2 TNone.
Proof.
  split; [comp|]. split; [comp|]. split; [comp|]. split.
  - apply (bool_decide_unpack _). by vm_compute.
  - intros o Ho. assert (Ho' : o ∈ [1; 2]) by exact Ho.
    apply elem_of_cons in Ho' as [->|Ho'].
    + apply waitsb_ok. comp.
    + apply list_elem_of_singleton in Ho' as ->. apply waitsb_ok. comp.
Qed.

Lemma reach4 : srv_reach s4.
Proof. eapply (sr_op s3 round2 TNone tt); [apply reach3|apply ok4|]. comp. Qed.

Lemma ok5 : op_ok s4 fast (TLeft 2).
Proof.
  split; [comp|]. split; [comp|]. exists 2. split; [done|].
  assert (Ht : forall o, o ∈ touched false s4 [mkOI 1 0; mkOI 3 0] -> o = 1 \/ o = 3).
  { intros o Ho. assert (Ho' : o ∈ [1; 3]) by exact Ho.
    apply elem_of_cons in Ho' as [->|Ho']; [by left|]. apply list_elem_of_singleton in Ho'. by right. }
  split; [done|repeat constructor| | |repeat (constructor; [room_tac|]); constructor|].
  - split; [|split].
    + eexists. split; [comp|]. split; comp.
    + apply (bool_decide_unpack _). by vm_compute.
    + intros o [->| ->]%Ht; fresh_tac.
  - intros o [->| ->]%Ht; room_tac.
  - do 3 eexists. split; [comp|]. split; [reflexivity|]. by vm_compute.
Qed.

Lemma reach5 : srv_reach s5.
Proof. eapply (sr_op s4 fast (TLeft 2) tt); [apply reach4|apply ok5|]. comp. Qed.

End Demo.

#[local] Existing Instance dev.

Lemma server_no_panic_witness :
  exists s', handle_op Demo.round2 TNone tt Demo.s3 = Done (s', tt) /\ srv_reach s'.
Proof. exact (server_no_panic Demo.s3 Demo.round2 TNone tt Demo.reach3 Demo.ok4). Defined.

Lemma places_increase_witness :
  positions 1 (to_workers Demo.s5) = [1; 2; 3; 4] /\ positions 2 (to_workers Demo.s5) = [1] /\
  StronglySorted Z.lt (positions 1 (to_workers Demo.s5)).
Proof.
  split; [vm_compute; reflexivity|]. split; [vm_compute; reflexivity|].
  exact (proj1 (places_increase Demo.s5 1 Demo.reach5)).
Defined.

Lemma round1_hands_out_witness :
  exists s' m, handle_op Demo.round1 (TLeft 1) tt Demo.s1 = Done (s', tt) /\
    storages s' !! 1 = Some m /\ ms_timestamps m = [1; 1] /\ ms_queue_indicies m = [0; 0].
Proof.
  destruct (round1_hands_out Demo.s1 8 0xA 0 1 [mkOI 1 0; mkOI 2 0] [] [5] tt
    Demo.reach1 Demo.ok2 eq_refl eq_refl) as (s' & m & H1 & H2 & H3 & H4 & _).
  exists s', m. split; [exact H1|]. split; [exact H2|]. split; [exact H3|exact H4].
Defined.
