(* ===== verification/WorkerThread.v ===== *)
(** * The workers of a server ([fuzzy_log_server/src/worker_thread.rs])

    The ordering thread gives an append its place; a worker writes it.  [handle_to_worker2]
    handles a message of the ordering thread: it copies the packet to the memory reserved for
    it, publishes its pointer in the trie, and sends an answer, to the client or to the next
    replica.  [handle_read] answers a read without the ordering thread.

    A worker runs in the monad [W] over the memory it shares with the ordering thread: the tries
    of the chains and the storages (in [ServerLog]), and the bytes of the shared slices
    ([RcSlice]) of a storage, by its handle.  Reading or storing through a pointer that is null
    or was never written is undefined behaviour: [Panic]. *)

From stdpp Require Import base gmap list strings.
From Stdlib Require Import ZArith Lia.
From S2P Require Import Prelude PacketCodec Packets Trie Skeens OrderingThread.
Open Scope Z_scope.

(** What a handler asks to be sent. *)
Inductive ToSend :=
| SendNothing
| SendContents (c : Ref)
| SendOldContents (c : Ref) (loc : Z)
| SendSlice (bytes : list Z)
| SendStaticSlice (bytes : list Z)
| SendRead (bytes : list Z)
| SendOldReplication (bytes : list Z) (loc : Z).

(** The two shared slices of a storage; the second one, when it holds a sentinel. *)
Record Slices := mkShared { st0 : list Z; st1 : option (list Z) }.

(** The address of a slice: [RcSlice::into_ptr]. *)
Definition st0_ptr (h : Z) : Z := rc_base + 4 * h.
Definition st1_ptr (h : Z) : Z := rc_base + 4 * h + 2.

(** The slice an address belongs to. *)
Definition slice_at (m : gmap Z Slices) (p : Z) : list Z :=
  match m !! ((p - rc_base) / 4) with
  | Some s => if (p - rc_base) mod 4 =? 0 then st0 s else default [] (st1 s)
  | None => []
  end.

(** [bytes_as_entry_mut] and the changes made through it: a slice keeps its length. *)
Definition edit (f : Ref -> outcome Ref) (bytes : list Z) : outcome (list Z) :=
  r ← contents bytes; r ← f r; write_to r bytes.

(** [Entry::wrap_bytes] on memory: the bytes of the packet that starts there. *)
Definition packet_at `{Build} (memory : list Z) : outcome (list Z) :=
  match wrap_bytes (S (length memory)) memory with Some o => o | None => Panic end.

(** [slice.copy_from_slice(bytes)] *)
Definition copy_from_slice (slice bytes : list Z) : outcome (list Z) :=
  _ ← assert_ (zlen slice =? zlen bytes); Done bytes.

(** [locs.iter().position(|oi| oi.0 == chain)], with [expect]. *)
Fixpoint position (f : OrderIndex -> bool) (ls : list OrderIndex) : option nat :=
  match ls with
  | [] => None
  | l :: ls => if f l then Some O else S <$> position f ls
  end.

Definition set_entry (i : nat) (e : Z) (ls : list OrderIndex) : list OrderIndex :=
  alter (fun l => mkOI (oi_order l) e) i ls.

(** [for i in 0..locs.len() { locs[i].1 = entry::from(ts[i]) }] *)
Definition set_entries (ts : list Z) (ls : list OrderIndex) : outcome (list OrderIndex) :=
  _ ← assert_ (zlen ls <=? zlen ts);
  Done (zip_with (fun l e => mkOI (oi_order l) e) ls ts).

(** [locs_mut] with an update that can panic. *)
Definition locs_mut_try (f : list OrderIndex -> outcome (list OrderIndex)) (r : Ref) : outcome Ref :=
  ls ← Packets.locs r; ls ← f ls; locs_mut (fun _ => ls) r.

Definition insert_flag (f : EntryFlag.Flag) (r : Ref) : outcome Ref :=
  flag_mut (fun k => EntryFlag.insert k f) r.
Definition remove_flag (f : EntryFlag.Flag) (r : Ref) : outcome Ref :=
  flag_mut (fun k => EntryFlag.remove k f) r.

(** Cell [i] of the pointers written over a slice. *)
Definition set_pointer (i : nat) (p : TriePtr) (cells : list TriePtr) : list TriePtr :=
  <[i := p]> (cells ++ replicate (S i - length cells) None).

Section Worker.
Context `{Build} {T A : Type} `{ByteTrie A}.

Record Shared := mkMem { srv : ServerLog T A; slices : gmap Z Slices }.

Definition W (X : Type) : Type := Shared -> outcome (Shared * X).
#[export] Instance W_ret : MRet W := fun X x s => Done (s, x).
#[export] Instance W_bind : MBind W := fun X Y k m s =>
  match m s with Done (s', x) => k x s' | Panic => Panic end.

Definition try {X} (o : outcome X) : W X := fun s => x ← o; Done (s, x).

(** A chain the message points into: it is there. *)
Definition the_chain (o : Z) : W (Chain T A) := fun s =>
  c ← unwrap (log (srv s) !! o); Done (s, c).

(** [chains.get_and(&chain, ..)] *)
Definition find_chain (o : Z) : W (option (Chain T A)) := fun s => Done (s, log (srv s) !! o).

Definition set_trie (o : Z) (t : Trie A) : W unit := fun s =>
  c ← unwrap (log (srv s) !! o);
  Done (mkMem (mkServer (<[o := mkChain t (skeens c)]> (log (srv s))) (total_servers (srv s))
                 (this_server_num (srv s)) (to_workers (srv s)) (storages (srv s))) (slices s), tt).

Definition storage_of (h : Z) : W MultiStorage := fun s =>
  m ← unwrap (storages (srv s) !! h); Done (s, m).

Definition set_storage (h : Z) (m : MultiStorage) : W unit := fun s =>
  Done (mkMem (mkServer (log (srv s)) (total_servers (srv s)) (this_server_num (srv s))
                 (to_workers (srv s)) (<[h := m]> (storages (srv s)))) (slices s), tt).

Definition slices_of (h : Z) : W Slices := fun s =>
  m ← unwrap (slices s !! h); Done (s, m).

Definition set_slices (h : Z) (m : Slices) : W unit := fun s =>
  Done (mkMem (srv s) (<[h := m]> (slices s)), tt).

(** The memory behind the pointer of an edge of chain [o]. *)
Definition load (o v : Z) : W (list Z) := fun s =>
  let p := edge_ptr v in
  if rc_base <=? p then Done (s, slice_at (slices s) p)
  else c ← unwrap (log (srv s) !! o); Done (s, bt_bytes (alloc (trie c)) p).

(** [ptr::copy_nonoverlapping] to the bytes behind an edge of chain [o]. *)
Definition copy_to (o v : Z) (bytes : list Z) : W unit :=
  c ← the_chain o;
  set_trie o (mkTrie (root (trie c)) (bt_write (alloc (trie c)) (edge_ptr v) bytes)).

(** [ValEdge::atomic_store] *)
Definition store_edge (slot : TriePtr) (v : Z) : W unit :=
  match slot with
  | None => try Panic
  | Some (o, s) =>
      c ← the_chain o;
      set_trie o (mkTrie (atomic_store s v (root (trie c))) (alloc (trie c)))
  end.

(** [st0.copy_from_slice(..)] *)
Definition fill_st0 (h : Z) (bytes : list Z) : W unit :=
  m ← slices_of h;
  b ← try (copy_from_slice (st0 m) bytes);
  set_slices h (mkShared b (st1 m)).

Definition edit_st0 (h : Z) (f : Ref -> outcome Ref) : W unit :=
  m ← slices_of h;
  b ← try (edit f (st0 m));
  set_slices h (mkShared b (st1 m)).

(** What the handlers return: the buffer, and the one thing that is sent. *)
Definition Answer : Type := option Ref * (ToSend * T).

Definition first_order (r : Ref) : W Z :=
  ls ← try (Packets.locs r);
  l ← try (unwrap (head ls));
  mret (oi_order l).

(** ** Single entries *)

(** [ToWorker::Write] *)
Definition finish_write (continue_replication : bool) (buffer : Ref) (slot : ChainSlot) (t : T) : W Answer :=
  let '(o, slot) := slot in
  c ← the_chain o;
  bytes ← try (to_vec buffer);
  '(tr, ret) ← try (finish_append slot bytes (trie c));
  _ ← set_trie o tr;
  mret (Some buffer, (if continue_replication then SendOldReplication ret (storage_loc slot)
                      else SendStaticSlice ret, t)).

(** [ToWorker::SingleSkeens] *)
Definition finish_single_skeens (continue_replication : bool) (buffer : Ref)
    (storage storage_loc time queue_num : Z) (t : T) : W Answer :=
  o ← first_order buffer;
  buffer ← try (lock_mut (fun _ => time) buffer);
  buffer ← try (insert_flag EntryFlag.ReadSuccess buffer);
  bytes ← try (to_vec buffer);
  _ ← copy_to o storage bytes;
  buffer ← try (insert_flag EntryFlag.Skeens1Queued buffer);
  if continue_replication then
    c ← try (single_skeens_to_replication buffer time queue_num);
    mret (Some buffer, (SendOldContents c storage_loc, t))
  else mret (Some buffer, (SendNothing, t)).

(** [ToWorker::Skeens1SingleReplica] *)
Definition finish_single_replica (continue_replication : bool) (buffer : Ref)
    (storage storage_loc : Z) (t : T) : W Answer :=
  o ← first_order buffer;
  len ← try (non_replicated_len buffer);
  bytes ← try (to_vec buffer);
  bytes ← try (to_non_replicated (take (Z.to_nat len) bytes));
  bytes ← try (edit (fun r => r ← remove_flag EntryFlag.Skeens1Queued r;
                              insert_flag EntryFlag.ReadSuccess r) bytes);
  _ ← copy_to o storage bytes;
  mret (Some buffer, (if continue_replication then SendOldContents buffer storage_loc
                      else SendNothing, t)).

(** [ToWorker::DelayedSingle], [ToWorker::Skeens2SingleReplica] *)
Definition finish_delayed_single (continue_replication : bool) (index : Z) (trie_slot : TriePtr)
    (storage timestamp : Z) (t : T) : W Answer :=
  _ ← try (assert_ (0 <? timestamp));
  '(o, _) ← try (unwrap trie_slot);
  memory ← load o storage;
  bytes ← try (packet_at memory);
  r ← try (contents bytes);
  ls ← try (Packets.locs r);
  l ← try (unwrap (head ls));
  r ← try (locs_mut (set_first_loc index) r);
  r ← try (lock_mut (fun _ => timestamp) r);
  flags ← try (Packets.flag r);
  _ ← try (debug_assert (EntryFlag.contains flags EntryFlag.ReadSuccess));
  ret ← try (write_to r bytes);
  _ ← copy_to o storage ret;
  _ ← store_edge trie_slot storage;
  mret (None, (if continue_replication
               then SendContents (Skeens2ToReplica (Packets.id r) timestamp (mkOI (oi_order l) index))
               else SendStaticSlice ret, t)).

(** ** Reads *)

(** [ToWorker::Read] *)
Definition finish_read (read : Z) (buffer : Ref) (t : T) : W Answer :=
  o ← first_order buffer;
  memory ← load o read;
  bytes ← try (packet_at memory);
  mret (Some buffer, (SendRead bytes, t)).

Definition empty_read (buffer : Ref) (loc : OrderIndex) (horizon min : Z) : Ref :=
  Read (Packets.id buffer) EntryFlag.Nothing 0 0 loc (mkOI (oi_order loc) horizon) (mkOI (oi_order loc) min).

(** [ToWorker::EmptyRead] *)
Definition finish_empty_read (last_valid_loc : Z) (buffer : Ref) (t : T) : W Answer :=
  ls ← try (Packets.locs buffer);
  l ← try (unwrap (head ls));
  mret (Some buffer, (SendContents (empty_read buffer l last_valid_loc 0), t)).

(** [handle_read]: the answer of a worker that serves a read itself. *)
Definition handle_read (buffer : Ref) : W (list Z + Ref) :=
  ls ← try (Packets.locs buffer);
  l ← try (unwrap (head ls));
  _ ← try (debug_assert (0 <? oi_entry l));
  c ← find_chain (oi_order l);
  match c with
  | Some c =>
      match atomic_get (root (trie c)) (oi_entry l) with
      | Some v =>
          memory ← load (oi_order l) v;
          bytes ← try (packet_at memory);
          mret (inl bytes)
      | None =>
          let '(start, stop) := bounds (root (trie c)) in
          mret (inr (empty_read buffer l (Z.max 0 (stop - 1)) start))
      end
  | None => mret (inr (empty_read buffer l 0 0))
  end.

(** ** Entries of several chains *)

(** The loop of [ToWorker::MultiReplica] over the places. *)
Fixpoint store_places (v : Z) (num_places : nat) (ls : list OrderIndex) (places : list TriePtr) : W unit :=
  match num_places with
  | O => mret tt
  | S num_places =>
      l ← try (unwrap (head ls));
      if bool_decide (l = no_loc) then mret tt
      else
        p ← try (unwrap (head places));
        _ ← store_edge p v;
        store_places v num_places (tail ls) (tail places)
  end.

Definition finish_multi_replica (continue_replication : bool) (buffer : Ref) (storage : SlicePair) (t : T)
    (num_places : Z) : W Answer :=
  bytes ← try (to_vec buffer);
  _ ← try (assert_ (zlen bytes <=? sp_multi storage));
  let h := sp_handle storage in
  _ ← set_slices h (mkShared (bytes ++ replicate (Z.to_nat (sp_multi storage) - length bytes) 0) None);
  ls ← try (Packets.locs buffer);
  _ ← try (debug_assert (num_places <=? zlen ls));
  edge ← try (end_from_ptr (st0_ptr h));
  _ ← store_places edge (Z.to_nat num_places) ls (sp_pointers storage);
  mret (Some buffer, (if continue_replication then SendOldReplication bytes u64_max
                      else SendStaticSlice bytes, t)).

(** The loop of [ToWorker::MultiFastPath]. *)
Fixpoint fast_stores (v : Z) (ls : list OrderIndex) (pointers : list TriePtr) : W unit :=
  match ls, pointers with
  | [], _ => mret tt
  | l :: ls, pointers =>
      if bool_decide (l = no_loc) then mret tt
      else
        p ← try (unwrap (head pointers));
        _ ← (match p with None => mret tt | Some _ => store_edge p v end);
        fast_stores v ls (tail pointers)
  end.

(** [ToWorker::MultiFastPath] *)
Definition finish_fast_path (continue_replication : bool) (buffer : Ref) (h : Z) (t : T) : W Answer :=
  buffer ← try (insert_flag EntryFlag.ReadSuccess buffer);
  bytes ← try (to_vec buffer);
  _ ← fill_st0 h bytes;
  m ← storage_of h;
  '(len, cells) ← try (unwrap (ms_senti m));
  ls ← try (Packets.locs buffer);
  _ ← try (assert_ (zlen ls <=? len));
  edge ← try (end_from_ptr (st0_ptr h));
  _ ← fast_stores edge ls cells;
  mret (Some buffer, (if continue_replication then SendOldReplication bytes 0 else SendSlice bytes, t)).

(** [ToWorker::SingleServerSkeens1] *)
Definition finish_single_server_skeens1 (continue_replication : bool) (h : Z) (t : T) : W Answer :=
  m ← storage_of h;
  _ ← edit_st0 h (insert_flag EntryFlag.ReadSuccess);
  if continue_replication then
    s ← slices_of h;
    c ← try (contents (st0 s));
    c ← try (insert_flag EntryFlag.Skeens1Queued c);
    c ← try (locs_mut_try (set_entries (ms_timestamps m)) c);
    c ← try (multi_skeens_to_replication c (ms_queue_indicies m));
    _ ← edit_st0 h (fun c => c ← remove_flag EntryFlag.Skeens1Queued c;
                             locs_mut (fun ls => (fun l => mkOI (oi_order l) 0) <$> ls) c);
    mret (None, (SendContents c, t))
  else mret (None, (SendNothing, t)).

(** [ToWorker::Skeens1], [ToWorker::SnapshotSkeens1] *)
Definition finish_skeens1 (continue_replication : bool) (buffer : Ref) (h : Z) (t : T) : W Answer :=
  m ← storage_of h;
  buffer ← try (insert_flag EntryFlag.ReadSuccess buffer);
  bytes ← try (to_vec buffer);
  _ ← fill_st0 h bytes;
  buffer ← try (insert_flag EntryFlag.Skeens1Queued buffer);
  buffer ← try (locs_mut_try (set_entries (ms_timestamps m)) buffer);
  if continue_replication then
    c ← try (multi_skeens_to_replication buffer (ms_queue_indicies m));
    mret (Some buffer, (SendContents c, t))
  else
    bytes ← try (to_vec buffer);
    mret (Some buffer, (SendSlice bytes, t)).

(** The index of the chain's location, with its entry set; [unique]: the message holds the last
    reference of the storage, so that [Arc::try_unwrap] succeeds. *)
Definition set_loc (chain e : Z) (r : Ref) : outcome (Ref * nat) :=
  ls ← Packets.locs r;
  i ← unwrap (position (fun l => oi_order l =? chain) ls);
  r ← locs_mut (set_entry i e) r;
  Done (r, i).

Fixpoint store_all (v : Z) (pointers : list TriePtr) : W unit :=
  match pointers with
  | [] => mret tt
  | p :: pointers => _ ← store_edge p v; store_all v pointers
  end.

Definition handle_single_server_skeens_finished (unique : bool) (loc : OrderIndex) (slot : TriePtr)
    (h timestamp : Z) (t : T) (continue_replication : bool) : W Answer :=
  s ← slices_of h;
  m ← storage_of h;
  c ← try (contents (st0 s));
  '(c', index) ← try (set_loc (oi_order loc) (oi_entry loc) c);
  b ← try (write_to c' (st0 s));
  _ ← set_slices h (mkShared b (st1 s));
  ls ← try (Packets.locs c);
  let num_locs := length ls in
  _ ← (if negb (bool_decide (slot = None)) then
         '(len, cells) ← try (unwrap (ms_senti m));
         _ ← try (assert_ (Z.of_nat num_locs <=? len));
         set_storage h (mkStorage (ms_timestamps m) (ms_queue_indicies m) (ms_entry_size m)
                          (Some (len, set_pointer index slot cells)))
       else mret tt);
  _ ← (if unique then
         m ← storage_of h;
         '(len, cells) ← try (unwrap (ms_senti m));
         _ ← try (assert_ (Z.of_nat num_locs <=? len));
         edge ← try (end_from_ptr (st0_ptr h));
         store_all edge (take num_locs (cells ++ replicate (num_locs - length cells) None))
       else mret tt);
  if continue_replication
  then mret (None, (SendContents (Skeens2ToReplica (Packets.id c) timestamp loc), t))
  else r ← try (contents b); mret (None, (SendContents r, t)).

(** [ToWorker::SkeensFinished], [ToWorker::Skeens2MultiReplica] *)
Definition finish_skeens2 (unique continue_replication : bool) (loc : OrderIndex) (trie_slot : TriePtr)
    (h timestamp : Z) (t : T) : W Answer :=
  s ← slices_of h;
  c ← try (contents (st0 s));
  flags ← try (Packets.flag c);
  if negb (EntryFlag.contains flags EntryFlag.TakeLock) then
    handle_single_server_skeens_finished unique loc trie_slot h timestamp t continue_replication
  else
    c ← try (lock_mut (fun _ => timestamp) c);
    '(c', i) ← try (set_loc (oi_order loc) (oi_entry loc) c);
    b0 ← try (write_to c' (st0 s));
    '(b1, is_sentinel) ←
      (match st1 s with
       | Some senti =>
           r ← try (contents senti);
           ls1 ← try (Packets.locs r);
           _ ← try (assert_ (Z.of_nat i <? zlen ls1));
           r ← try (locs_mut (set_entry i (oi_entry loc)) r);
           r ← try (lock_mut (fun _ => timestamp) r);
           b1 ← try (write_to r senti);
           ls ← try (Packets.locs c');
           s_i ← try (unwrap (position (fun l => bool_decide (l = no_loc)) ls));
           mret (Some b1, (s_i <? i)%nat)
       | None => mret (None, false)
       end : W (option (list Z) * bool));
    _ ← set_slices h (mkShared b0 b1);
    edge ← try (end_from_ptr (if (is_sentinel : bool) then st1_ptr h else st0_ptr h));
    _ ← store_edge trie_slot edge;
    mret (None, (if continue_replication
                 then SendContents (Skeens2ToReplica (Packets.id c) timestamp loc)
                 else if unique then SendSlice b0 else SendNothing, t)).

(** [ToWorker::Skeens1Replica] *)
Definition finish_skeens1_replica (continue_replication : bool) (buffer : Ref) (h : Z) (t : T) : W Answer :=
  m ← storage_of h;
  len ← try (non_replicated_len buffer);
  bytes ← try (to_vec buffer);
  _ ← fill_st0 h (take (Z.to_nat len) bytes);
  s ← slices_of h;
  b ← try (to_non_replicated (st0 s));
  c ← try (contents b);
  ls ← try (Packets.locs c);
  _ ← try (assert_ (zlen ls <=? zlen (ms_timestamps m)));
  c ← try (locs_mut (fun ls => (fun l => mkOI (oi_order l) 0) <$> ls) c);
  c ← try (remove_flag EntryFlag.Skeens1Queued c);
  flags ← try (Packets.flag c);
  b ← try (write_to c b);
  _ ← set_slices h (mkShared b (st1 s));
  qs ← try (queue_nums buffer);
  _ ← set_storage h
        (mkStorage ((oi_entry <$> ls) ++ drop (length ls) (ms_timestamps m))
                   (take (length (ms_queue_indicies m)) qs ++ drop (length qs) (ms_queue_indicies m))
                   (ms_entry_size m) (ms_senti m));
  if continue_replication then mret (Some buffer, (SendSlice bytes, t))
  else if EntryFlag.contains flags EntryFlag.TakeLock then
    c ← try (to_unreplica buffer); mret (Some buffer, (SendContents c, t))
  else mret (Some buffer, (SendNothing, t)).

(** ** Snapshots *)

(** [ToWorker::SnapshotSkeens1Replica] *)
Definition finish_snapshot_replica (continue_replication : bool) (buffer : Ref) (h : Z) (t : T) : W Answer :=
  m ← storage_of h;
  ls ← try (Packets.locs buffer);
  qs ← try (queue_nums buffer);
  _ ← set_storage h
        (mkStorage (take (length (ms_timestamps m)) (oi_entry <$> ls) ++ drop (length ls) (ms_timestamps m))
                   (take (length (ms_queue_indicies m)) qs ++ drop (length qs) (ms_queue_indicies m))
                   (ms_entry_size m) (ms_senti m));
  if continue_replication then bytes ← try (to_vec buffer); mret (Some buffer, (SendSlice bytes, t))
  else c ← try (to_unreplica buffer); mret (Some buffer, (SendContents c, t)).

(** [ToWorker::SnapSkeensFinished], [ToWorker::Skeens2SnapReplica] *)
Definition finish_snapshot2 (unique continue_replication : bool) (loc : OrderIndex) (h timestamp : Z) (t : T)
  : W Answer :=
  s ← slices_of h;
  c ← try (contents (st0 s));
  '(c', _) ← try (set_loc (oi_order loc) (oi_entry loc) c);
  b ← try (write_to c' (st0 s));
  _ ← set_slices h (mkShared b (st1 s));
  mret (None, (if continue_replication
               then SendContents (Skeens2ToReplica (Packets.id c) timestamp loc)
               else if unique then SendSlice b else SendNothing, t)).

(** ** Recovery, and buffers that go back *)

Definition send_buffer (buffer : Ref) (t : T) : W Answer :=
  bytes ← try (to_vec buffer); mret (Some buffer, (SendSlice bytes, t)).

Definition handle_to_worker2 (unique continue_replication : bool) (msg : ToWorker T) : W Answer :=
  let k := continue_replication in
  match msg with
  | ReturnBuffer buffer t => mret (Some buffer, (SendNothing, t))
  | Reply buffer t => send_buffer buffer t
  | ReadEntry read buffer t => finish_read read buffer t
  | EmptyRead last_valid_loc buffer t => finish_empty_read last_valid_loc buffer t
  | Write buffer slot t => finish_write k buffer slot t
  | SingleSkeens buffer storage storage_loc time queue_num t =>
      finish_single_skeens k buffer storage storage_loc time queue_num t
  | Skeens1SingleReplica buffer storage storage_loc t => finish_single_replica k buffer storage storage_loc t
  | DelayedSingle index trie_slot storage timestamp t
  | Skeens2SingleReplica index trie_slot storage timestamp t =>
      finish_delayed_single k index trie_slot storage timestamp t
  | MultiReplica buffer storage t num_places => finish_multi_replica k buffer storage t num_places
  | MultiFastPath buffer storage t => finish_fast_path k buffer storage t
  | SingleServerSkeens1 storage t => finish_single_server_skeens1 k storage t
  | Skeens1 buffer storage t | SnapshotSkeens1 buffer storage t => finish_skeens1 k buffer storage t
  | SkeensFinished loc trie_slot storage timestamp t
  | Skeens2MultiReplica loc trie_slot timestamp storage t =>
      finish_skeens2 unique k loc trie_slot storage timestamp t
  | Skeens1Replica buffer storage t => finish_skeens1_replica k buffer storage t
  | SnapshotSkeens1Replica buffer storage t => finish_snapshot_replica k buffer storage t
  | SnapSkeensFinished loc storage timestamp t
  | Skeens2SnapReplica loc timestamp storage t => finish_snapshot2 unique k loc storage timestamp t
  | GotRecovery buffer t | ContinueRecovery buffer t =>
      buffer ← try (insert_flag EntryFlag.ReadSuccess buffer); send_buffer buffer t
  | DidntGetRecovery buffer id t =>
      buffer ← try (remove_flag EntryFlag.ReadSuccess buffer);
      buffer ← try (recoverer_is id buffer);
      send_buffer buffer t
  | EndRecovery buffer t => send_buffer buffer t
  end.

End Worker.
Arguments Shared T A : clear implicits.
