(* ===== verification/WorkerSafety.v ===== *)
(** * What a worker writes is what is read

    The server as a whole: the ordering thread and the workers take turns on the shared memory.
    A worker touches no slot and no bytes but those its message points to ([worker_footprint]);
    an append that a worker has finished is read back, byte for byte, whatever the others do
    next ([append_then_read]); and an entry of several chains is the same entry in all of them
    ([fast_path_same_entry]). *)

From stdpp Require Import base gmap list sorting strings.
From Stdlib Require Import ZArith Lia.
From S2P Require Import Prelude PacketCodec Packets Trie DequeMap Skeens SkeensInv SkeensOrder.
From S2P Require Import ByteTrie OrderingThread OrderingInv OrderingSafety WorkerThread.
Open Scope Z_scope.

Section Memory.
Context `{Build} {T A : Type} `{ByteTrie A, !ByteTrieView A, !ByteTrieLaws A}.

Abbreviation Server := (ServerLog T A).
Abbreviation Mem := (Shared T A).

(** ** An append and its environment *)

(** [slot] is the append of place [i] in chain [o]; [b]: the bytes a worker wrote for it. *)
Definition append_at (m : Mem) (o i : Z) (slot : AppendSlot) (b : option (list Z)) : Prop :=
  srv_inv (srv m) (srv m) none /\ 0 <= i < 2 ^ 63 /\
  exists c vals slots O, log (srv m) !! o = Some c /\ claims (trie c) vals slots O slot (Z.to_nat i) /\
    match b with
    | None => True
    | Some bytes => zlen bytes = data_size slot /\ vals !! Z.to_nat i = Some (data_ptr slot) /\
        range_bytes (alloc (trie c)) (edge_ptr (data_ptr slot)) (zlen bytes) = bytes
    end.

(** The range of the append and the range [(p, n)] are both reserved, and not the same. *)
Definition apart (m : Mem) (o : Z) (slot : AppendSlot) (o' p n : Z) : Prop :=
  exists c vals slots O, log (srv m) !! o' = Some c /\ tr_rep (trie c) vals slots O /\ (p, n) ∈ O /\
    (o = o' -> (edge_ptr (data_ptr slot), alloc_size (data_size slot)) ∈ O /\ p <> edge_ptr (data_ptr slot)).

(** What the others do to the shared memory while the append is on its way, and after it: the
    ordering thread handles requests; storages and slices change; a worker stores through a slot
    that was handed out for another append, or writes to bytes reserved for another one. *)
Inductive env_step (o : Z) (slot : AppendSlot) (m : Mem) : Mem -> Prop :=
| es_op r storage t s' :
    op_ok (srv m) r storage -> handle_op r storage t (srv m) = Done (s', tt) ->
    env_step o slot m (mkMem s' (slices m))
| es_shared st sl : env_step o slot m (mkMem (with_storages st (srv m)) sl)
| es_store o' s' v c i m' :
    store_edge (Some (o', s')) v m = Done (m', tt) ->
    log (srv m) !! o' = Some c -> handed (trie c) i s' -> (o', s') <> (o, trie_entry slot) ->
    env_step o slot m m'
| es_copy o' v n bytes m' :
    copy_to o' v bytes m = Done (m', tt) -> zlen bytes <= n -> apart m o slot o' (edge_ptr v) n ->
    env_step o slot m m'.

Lemma range_take (a : A) p n k : 0 <= k <= n -> range_bytes a p k = take (Z.to_nat k) (range_bytes a p n).
Proof. intros Hk. unfold range_bytes. rewrite take_take. f_equal. lia. Qed.

Lemma range_sub (a a' : A) p n k :
  range_bytes a' p n = range_bytes a p n -> 0 <= k <= n -> range_bytes a' p k = range_bytes a p k.
Proof. intros E Hk. by rewrite (range_take a' p n), (range_take a p n), E by done. Qed.

Lemma store_edge_eq o s v (m : Mem) c :
  log (srv m) !! o = Some c ->
  store_edge (Some (o, s)) v m = Done (mkMem (put_trie o (trie_store s v (trie c)) (srv m)) (slices m), tt).
Proof.
  intros Hc. unfold store_edge, the_chain, set_trie, put_trie, mbind, W_bind. rewrite Hc. cbn [unwrap].
  rewrite done_bind, Hc. by cbn.
Qed.

Lemma copy_to_eq o v bytes (m : Mem) c :
  log (srv m) !! o = Some c ->
  copy_to o v bytes m = Done (mkMem (put_trie o (trie_copy (edge_ptr v) bytes (trie c)) (srv m)) (slices m), tt).
Proof.
  intros Hc. unfold copy_to, the_chain, set_trie, put_trie, mbind, W_bind. rewrite Hc. cbn [unwrap].
  rewrite done_bind, Hc. by cbn.
Qed.

Lemma put_trie_lookup o t (s : Server) c o' :
  log s !! o = Some c ->
  log (put_trie o t s) !! o' = if decide (o = o') then Some (mkChain t (skeens c)) else log s !! o'.
Proof.
  intros Hc. unfold put_trie. rewrite Hc. simpl. destruct (decide (o = o')) as [<-|Hne].
  - by rewrite lookup_insert_eq.
  - by rewrite lookup_insert_ne.
Qed.

(** A step on another chain. *)
Lemma append_at_other (m : Mem) o i slot b o' c' t' n sl :
  append_at m o i slot b -> log (srv m) !! o' = Some c' -> o' <> o -> tr_ok (trie c') n -> tr_ok t' n ->
  append_at (mkMem (put_trie o' t' (srv m)) sl) o i slot b.
Proof.
  intros (HI & Hi & c & vals & slots & O & Hc & Hcl & Hb) Hc' Hne Hn Ht.
  split; [by eapply srv_put_trie|]. split; [done|]. exists c, vals, slots, O. cbn [srv].
  rewrite (put_trie_lookup _ _ _ _ _ Hc'), decide_False by done. done.
Qed.

Lemma env_store (m : Mem) o i slot b o' s' v c k sl :
  append_at m o i slot b -> log (srv m) !! o' = Some c -> handed (trie c) k s' ->
  (o', s') <> (o, trie_entry slot) ->
  append_at (mkMem (put_trie o' (trie_store s' v (trie c)) (srv m)) sl) o i slot b.
Proof.
  intros Ha Hc Hh Hne. pose proof Ha as (HI & Hi & c0 & vals & slots & O & Hc0 & Hcl & Hb).
  destruct (decide (o' = o)) as [->|Ho].
  - rewrite Hc in Hc0. injection Hc0 as <-. destruct Hcl as (HR & Hk & Hp & HO & Hs).
    destruct (handed_lookup _ _ _ _ _ _ HR Hh) as [Hk' _].
    assert (Hkk : Z.to_nat k <> Z.to_nat i).
    { intros E. rewrite E, Hk in Hk'. injection Hk' as <-. done. }
    pose proof (rep_store _ _ _ _ _ _ v HR Hk') as HR'. pose proof (tr_rep_ok _ _ _ _ _ _ HR Hk) as Hok.
    pose proof (tr_rep_ok _ _ _ _ _ _ HR' Hk) as Hok'. rewrite length_insert in Hok'.
    split; [by eapply srv_put_trie|]. split; [done|]. cbn [srv].
    eexists _, _, slots, O. rewrite (put_trie_lookup _ _ _ _ _ Hc), decide_True by done.
    split; [reflexivity|]. split; [by do 4 (split; [done|])|]. destruct b as [bytes|]; [|done].
    by rewrite list_lookup_insert_ne.
  - destruct (si_chain _ _ _ HI _ _ Hc) as (n & p & Hn & _). pose proof Hn as (vals' & slots' & O' & HR & -> & H1).
    eapply append_at_other; [done..|]. by eapply trie_store_ok.
Qed.

Lemma env_copy (m : Mem) o i slot b o' p n bytes c sl :
  append_at m o i slot b -> log (srv m) !! o' = Some c -> zlen bytes <= n -> apart m o slot o' p n ->
  append_at (mkMem (put_trie o' (trie_copy p bytes (trie c)) (srv m)) sl) o i slot b.
Proof.
  intros Ha Hc Hn (c1 & vals1 & slots1 & O1 & Hc1 & HR1 & Hp1 & Hap). rewrite Hc in Hc1. injection Hc1 as <-.
  pose proof Ha as (HI & Hi & c0 & vals & slots & O & Hc0 & Hcl & Hb).
  pose proof (rep_copy _ _ _ _ _ _ bytes HR1 Hp1 Hn) as HR1'.
  destruct (si_chain _ _ _ HI _ _ Hc) as (len & q & Hlen & _).
  pose proof (trie_copy_ok _ _ _ _ _ _ _ bytes Hlen HR1 Hp1 Hn) as Hlen'.
  destruct (decide (o' = o)) as [->|Ho]; [|by eapply append_at_other].
  rewrite Hc in Hc0. injection Hc0 as <-. destruct (Hap eq_refl) as [HO1 Hne].
  destruct Hcl as (HR & Hk & Hp & HO & Hs).
  split; [by eapply srv_put_trie|]. split; [done|]. cbn [srv].
  assert (HRn : tr_rep (trie_copy p bytes (trie c)) vals slots O1).
  { destruct HR as [HRr HRl _]. by destruct HR1' as [_ _ HRa]. }
  eexists _, vals, slots, O1. rewrite (put_trie_lookup _ _ _ _ _ Hc), decide_True by done.
  split; [reflexivity|]. split; [by do 4 (split; [done|])|]. destruct b as [bs|]; [|done].
  destruct Hb as (Hz & Hv & Hr). split_and!; [done|done|]. cbn [trie trie_copy alloc]. rewrite <-Hr at 2.
  destruct (bt_write_ok _ _ _ _ bytes (tr_alloc _ _ _ _ HR1) Hp1 Hn) as (_ & _ & _ & Hq).
  apply (range_sub _ _ _ (alloc_size (data_size slot))); [by apply Hq|].
  pose proof (alloc_size_spec _ Hs). pose proof (zlen_nonneg bs). lia.
Qed.

(** The environment leaves the append alone. *)
Lemma env_keeps m m' o i slot b :
  append_at m o i slot b -> env_step o slot m m' -> append_at m' o i slot b.
Proof.
  intros Ha Hstep. destruct Hstep as [r storage t s' Hok E|st sl|o' s' v c k m' E Hc Hh Hne|o' v n bytes m' E Hn Hap].
  - destruct Ha as (HI & Hi & c & vals & slots & O & Hc & (HR & Hk & Hp & HO & Hs) & Hb).
    destruct (wp_handle_op (srv m) r storage t (srv m) HI Hok) as (s1 & [] & E1 & HI1).
    rewrite E in E1. injection E1 as <-. split; [by eapply srv_rebase|]. split; [done|].
    destruct (si_grows _ _ _ HI1 o c Hc) as (c' & Hc' & Hg).
    destruct (Hg _ _ _ HR) as (vals' & slots' & O' & HR' & Hv' & Hs' & HO' & Hby).
    exists c', vals', slots', O'. cbn [srv]. split; [done|].
    split; [split; [done|]; split; [by eapply prefix_lookup_Some|]; split; [done|]; split; [by apply HO'|done]|].
    destruct b as [bytes|]; [|done]. destruct Hb as (Hz & Hv & Hr).
    split_and!; [done|by eapply prefix_lookup_Some|]. rewrite <-Hr at 2.
    apply (range_sub _ _ _ (alloc_size (data_size slot))); [by apply Hby|].
    pose proof (alloc_size_spec _ Hs). pose proof (zlen_nonneg bytes). lia.
  - destruct Ha as (HI & Hi & c & vals & slots & O & Hrest). split; [eapply srv_rebase; by apply srv_storages|].
    split; [done|]. by exists c, vals, slots, O.
  - rewrite (store_edge_eq _ _ _ _ _ Hc) in E. injection E as <-. by eapply env_store.
  - pose proof Hap as (c & vals & slots & O & Hc & _). rewrite (copy_to_eq _ _ _ _ _ Hc) in E. injection E as <-.
    by eapply env_copy.
Qed.

Lemma env_keeps_rtc m m' o i slot b :
  append_at m o i slot b -> rtc (env_step o slot) m m' -> append_at m' o i slot b.
Proof. intros Ha. induction 1; [done|]. eauto using env_keeps. Qed.

(** ** Writing and reading *)

Lemma contents_valid r : valid r = true -> contents (bytes_of r) = Done r.
Proof.
  intros Hv. unfold contents. rewrite <-(app_nil_r (bytes_of r)), try_ref_valid by done. done.
Qed.

Lemma to_vec_valid r : valid r = true -> to_vec r = Done (bytes_of r).
Proof. intros Hv. unfold to_vec. by rewrite fill_valid. Qed.

(** A packet is found at the start of the memory it was written to. *)
Lemma packet_at_range (a : A) p r :
  valid r = true -> range_bytes a p (zlen (bytes_of r)) = bytes_of r ->
  packet_at (bt_bytes a p) = Done (bytes_of r).
Proof.
  unfold range_bytes. intros Hv Hr. set (mem := bt_bytes a p) in *.
  assert (E : mem = bytes_of r ++ drop (Z.to_nat (zlen (bytes_of r))) mem).
  { rewrite <-Hr at 1. by rewrite take_drop. }
  unfold packet_at. assert (Hl : (length (bytes_of r) <= length mem)%nat).
  { rewrite E, length_app. lia. }
  rewrite E at 2. unfold wrap_bytes. rewrite wrap_loop_valid; [done|done|by apply min_len_valid|].
  pose proof (min_len_valid r Hv). unfold zlen in *. lia.
Qed.

Lemma finish_append_ok slot r (t : Trie A) vals slots O k :
  valid r = true -> data_size slot = zlen (bytes_of r) -> claims t vals slots O slot k ->
  finish_append slot (bytes_of r) t = Done (publish slot (bytes_of r) t, bytes_of r).
Proof.
  intros Hv Hsz Hcl. destruct (rep_publish _ _ _ _ _ _ (bytes_of r) Hcl ltac:(lia)) as (_ & _ & Hb & _).
  unfold finish_append. rewrite Hsz, Z.eqb_refl. cbn [assert_]. rewrite done_bind.
  unfold range_bytes in Hb. rewrite Hb.
  destruct debug_assertions; [|by rewrite done_bind].
  by rewrite (contents_valid _ Hv), !done_bind, bool_decide_true.
Qed.

(** A worker finishes the append: the client gets the packet back. *)
Lemma finish_write_ok k m o i slot r t :
  append_at m o i slot None -> valid r = true -> data_size slot = zlen (bytes_of r) ->
  exists m', finish_write k r (o, slot) t m =
      Done (m', (Some r, (if k then SendOldReplication (bytes_of r) (storage_loc slot)
                          else SendStaticSlice (bytes_of r), t))) /\
    append_at m' o i slot (Some (bytes_of r)).
Proof.
  intros (HI & Hi & c & vals & slots & O & Hc & Hcl & _) Hv Hsz.
  destruct (rep_publish _ _ _ _ _ _ (bytes_of r) Hcl ltac:(lia)) as (HR' & _ & Hb & _).
  exists (mkMem (put_trie o (publish slot (bytes_of r) (trie c)) (srv m)) (slices m)). split.
  - unfold finish_write, mbind, W_bind, the_chain, try, set_trie. rewrite Hc, (to_vec_valid _ Hv).
    cbn [unwrap outcome_bind mbind]. rewrite (finish_append_ok _ _ _ _ _ _ _ Hv Hsz Hcl).
    cbn [outcome_bind mbind]. rewrite Hc. cbn [unwrap outcome_bind mbind].
    unfold put_trie. rewrite Hc. by destruct k.
  - pose proof Hcl as (HR & Hk & Hp & HO & Hs).
    pose proof (tr_rep_ok _ _ _ _ _ _ HR Hk) as Hok. pose proof (tr_rep_ok _ _ _ _ _ _ HR' Hk) as Hok'.
    rewrite length_insert in Hok'. split; [by eapply srv_put_trie|]. split; [done|]. cbn [srv].
    eexists _, _, slots, O. rewrite (put_trie_lookup _ _ _ _ _ Hc), decide_True by done.
    split; [reflexivity|]. split; [by do 4 (split; [done|])|]. split_and!; [done| |done].
    rewrite list_lookup_insert_eq; [done|].
    rewrite <-(represents_length _ _ _ (tr_root _ _ _ _ HR)). by eapply lookup_lt_Some.
Qed.

(** The request of a read. *)
Definition read_of (id : Z) (o i : Z) : Ref := Read id 0 0 0 (mkOI o i) (mkOI o 0) (mkOI o 0).

Definition below_min (m : Mem) (o i : Z) : bool :=
  match log (srv m) !! o with Some c => i <? min_entry (root (trie c)) | None => true end.

Lemma handle_read_ok m o i slot r id :
  append_at m o i slot (Some (bytes_of r)) -> valid r = true -> 1 <= i -> below_min m o i = false ->
  WorkerThread.handle_read (read_of id o i) m = Done (m, inl (bytes_of r)).
Proof.
  intros (HI & Hi & c & vals & slots & O & Hc & (HR & Hk & [Hp Hrc] & HO & Hs) & Hz & Hv & Hr) Hval H1 Hmin.
  unfold below_min in Hmin. rewrite Hc in Hmin.
  unfold WorkerThread.handle_read, read_of, mbind, W_bind, try, find_chain. cbn [Packets.locs head unwrap outcome_bind mbind].
  rewrite debug_assert_true by (cbn; lia). cbn [oi_entry oi_order outcome_bind mbind]. rewrite Hc.
  unfold atomic_get. rewrite Hmin.
  rewrite (proj1 (represents_lookup _ _ _ i (tr_root _ _ _ _ HR) ltac:(lia))), Hv. cbn [mbind option_bind].
  rewrite (proj2 (Z.eqb_neq _ _) Hp). unfold load. rewrite (proj2 (Z.leb_gt _ _) Hrc), Hc.
  cbn [unwrap outcome_bind mbind]. by rewrite (packet_at_range _ _ _ Hval Hr).
Qed.

(** The message of a single append that got its place at once. *)
Lemma single_op_ok (m : Mem) id flags loc deps data ts storage t k' :
  srv_reach (srv m) -> op_ok (srv m) (Single id flags loc deps data ts) storage ->
  need_single_at (cur_skeens (srv m) (oi_order loc)) ts = Done (false, k') ->
  exists s1 slot,
    let o := oi_order loc in
    let i := chain_len (srv m) o in
    let r' := placed_single id flags loc deps data ts i in
    handle_op (Single id flags loc deps data ts) storage t (srv m) = Done (s1, tt) /\
    to_workers s1 = to_workers (srv m) ++ [Write r' (o, slot) t] /\
    append_at (mkMem s1 (slices m)) o i slot None /\ data_size slot = zlen (bytes_of r') /\
    valid r' = true /\ 1 <= i.
Proof.
  intros Hs [Hv (Hd & Hst & Hf & Hts & Hr)] Hneed. apply srv_reach_inv in Hs.
  destruct (wp_handle_data (srv m) id flags loc deps data ts t (srv m)) as (s1 & [] & E & HI1 & Hw); try done.
  { by apply accepts_fresh. }
  destruct (Hw _ Hneed) as (slot & Hm & (c & vals & slots & O & Hc & Hcl) & Hsz).
  pose proof (srv_pos _ _ _ (oi_order loc) Hs) as Hpos. destruct Hr as [Hlim _].
  exists s1, slot. split; [|split; [exact Hm|]].
  { unfold handle_op, mbind, M_bind, lift. cbn. exact E. }
  split; [|split; [exact Hsz|split; [|exact Hpos]]].
  - split; [by eapply srv_rebase|]. split; [unfold LIMIT in Hlim; lia|]. by exists c, vals, slots, O.
  - apply valid_single; [done|]. unfold in_u64, u64_max, LIMIT in *. lia.
Qed.

End Memory.

(** ** Entries of several chains *)

Section Multi.
Context `{Build} {T A : Type} `{ByteTrie A, !ByteTrieView A, !ByteTrieLaws A}.
Abbreviation Server := (ServerLog T A).
Abbreviation Mem := (Shared T A).

Lemma same_orders_length ls xs : same_orders ls xs -> length xs = length ls.
Proof. intros Hf. by rewrite (Forall2_length _ _ _ Hf). Qed.

Lemma orders_items ls xs :
  same_orders ls xs -> forallb (item_ok EOrderIndex) (ILoc <$> ls) = true ->
  forallb (item_ok EOrderIndex) (ILoc <$> xs) = true.
Proof.
  induction 1 as [|l x ls xs [Ho Hi] _ IH]; [done|]. cbn [fmap list_fmap forallb item_ok].
  rewrite Ho. intros [[Ha _]%andb_true_iff Hb]%andb_true_iff.
  apply in_u64b_spec in Hi. by rewrite Ha, Hi, IH.
Qed.

(** The packet of the fast path, with its places, is as valid as the one that came. *)
Lemma valid_multi id flags lock ls xs deps data :
  valid (Multi id flags lock ls deps data) = true -> same_orders ls xs ->
  valid (Multi id (Z.lor flags 1) lock xs deps data) = true.
Proof.
  unfold valid, full, variant_of. cbn -[item_ok Z.lor zlen forallb ois]. intros Hv Hs.
  revert Hv. unfold ois, zlen. rewrite !length_fmap, (same_orders_length _ _ Hs), !andb_true_iff.
  intros Hv. destruct_and? Hv.
  split_and!; first [assumption | by apply flag_lor_ok | by eapply orders_items | done].
Qed.

Lemma multi_bytes id flags flags' lock ls xs deps data :
  length xs = length ls ->
  zlen (bytes_of (Multi id flags lock ls deps data)) = zlen (bytes_of (Multi id flags' lock xs deps data)).
Proof.
  intros Hl. unfold bytes_of, packet_bytes, zlen, full, variant_of. f_equal.
  cbn -[item_bytes ois zlen enc_all]. unfold enc_all, enc_val, ois, nums, num.
  cbn [zip_with f_ty snd concat]. by rewrite !length_app, !length_item_bytes, !length_items, !length_fmap, Hl.
Qed.

Lemma get_rep (t : Trie A) vals slots O i :
  tr_rep t vals slots O -> 0 <= i < 2 ^ 64 ->
  Trie.get (root t) i = (v ← vals !! Z.to_nat i; if v =? 0 then None else Some v).
Proof. intros HR Hi. apply (represents_lookup _ _ _ i (tr_root _ _ _ _ HR) Hi). Qed.

(** The place [i] of chain [o] has the pointer [v]. *)
Definition stored_in (s : Server) (o i v : Z) : Prop :=
  exists c, log s !! o = Some c /\ Trie.get (root (trie c)) i = Some v.

Definition mem_inv (m : Mem) : Prop := srv_inv (srv m) (srv m) none.

(** A store of [v] through a slot that was handed out. *)
Lemma store_handed m o i p v :
  mem_inv m -> handed_in (srv m) o i p -> v <> 0 ->
  exists m', store_edge (Some (o, p)) v m = Done (m', tt) /\ mem_inv m' /\ slices m' = slices m /\
    storages (srv m') = storages (srv m) /\ stored_in (srv m') o i v /\
    (forall o' i', in_u64 i' -> stored_in (srv m) o' i' v -> stored_in (srv m') o' i' v) /\
    (forall o' i' p', handed_in (srv m) o' i' p' -> handed_in (srv m') o' i' p').
Proof.
  intros HI (c & Hc & Hh) Hv. rewrite (store_edge_eq _ _ _ _ _ Hc). eexists. split; [reflexivity|].
  destruct (si_chain _ _ _ HI o c Hc) as (n & q & Hn & _). pose proof Hn as (vals & slots & O & HR & -> & H1).
  destruct (handed_lookup _ _ _ _ _ _ HR Hh) as [Hk Hi]. pose proof (rep_store _ _ _ _ _ _ v HR Hk) as HR'.
  assert (Hlt : (Z.to_nat i < length vals)%nat).
  { rewrite <-(represents_length _ _ _ (tr_root _ _ _ _ HR)). by eapply lookup_lt_Some. }
  pose proof (represents_bound _ _ _ (tr_root _ _ _ _ HR)).
  pose proof (put_trie_lookup o (trie_store p v (trie c)) (srv m) c) as Hl.
  split_and!; cbn [srv slices].
  - eapply srv_put_trie; [exact HI|exact Hc|exact Hn|]. by eapply trie_store_ok.
  - done.
  - unfold put_trie. by rewrite Hc.
  - eexists. rewrite Hl, decide_True by done. split; [reflexivity|]. cbn [trie].
    rewrite (get_rep _ _ _ _ _ HR') by lia. rewrite list_lookup_insert_eq by done. cbn [mbind option_bind].
    by rewrite (proj2 (Z.eqb_neq _ _) Hv).
  - intros o' i' Hi' (c' & Hc' & Hg). destruct (decide (o = o')) as [<-|Hne].
    + rewrite Hc in Hc'. injection Hc' as <-. eexists. rewrite Hl, decide_True by done. split; [reflexivity|].
      cbn [trie]. rewrite (get_rep _ _ _ _ _ HR) in Hg by (unfold in_u64, u64_max in Hi'; lia).
      rewrite (get_rep _ _ _ _ _ HR') by (unfold in_u64, u64_max in Hi'; lia).
      destruct (decide (Z.to_nat i = Z.to_nat i')) as [<-|Hne]; [|by rewrite list_lookup_insert_ne].
      rewrite list_lookup_insert_eq by done. cbn [mbind option_bind]. by rewrite (proj2 (Z.eqb_neq _ _) Hv).
    + exists c'. by rewrite Hl, decide_False.
  - intros o' i' p' (c' & Hc' & Hh'). destruct (decide (o = o')) as [<-|Hne].
    + rewrite Hc in Hc'. injection Hc' as <-. eexists. rewrite Hl, decide_True by done. split; [reflexivity|].
      cbn [trie]. destruct (handed_lookup _ _ _ _ _ _ HR Hh') as [Hk' ->]. by eapply handed_at.
    + exists c'. by rewrite Hl, decide_False.
Qed.

(** The locations of an entry before its sentinels. *)
Fixpoint entry_places (ls : list OrderIndex) : list OrderIndex :=
  match ls with
  | [] => []
  | l :: ls => if oi_order l =? 0 then [] else l :: entry_places ls
  end.

Lemma fast_cells_keep (s s' : Server) xs :
  (forall o i p, handed_in s o i p -> handed_in s' o i p) -> fast_cells s xs -> fast_cells s' xs.
Proof.
  intros Hk. induction xs as [|x xs IH]; cbn [fast_cells]; [done|]. destruct (_ =? _); [done|].
  intros [(p & Hp & Hh) Hxs]. split; [exists p; split; [done|by apply Hk]|by apply IH].
Qed.

Lemma fast_stores_ok v xs : forall cells m,
  v <> 0 -> mem_inv m -> fast_cells (srv m) xs -> Forall (fun l => in_u64 (oi_entry l)) xs.*1 ->
  exists m', fast_stores v xs.*1 (write_pointers xs.*2 cells) m = Done (m', tt) /\ mem_inv m' /\
    slices m' = slices m /\ storages (srv m') = storages (srv m) /\
    (forall o i, in_u64 i -> stored_in (srv m) o i v -> stored_in (srv m') o i v) /\
    forall l, l ∈ entry_places xs.*1 -> stored_in (srv m') (oi_order l) (oi_entry l) v.
Proof.
  induction xs as [|x xs IH]; intros cells m Hv HI Hc Hu; cbn [fmap list_fmap fast_stores entry_places write_pointers].
  { exists m. split_and!; try done. intros l Hl. by apply not_elem_of_nil in Hl. }
  cbn [fast_cells fmap list_fmap] in Hc, Hu. apply Forall_cons in Hu as [Hux Hu].
  destruct (Z.eqb_spec (oi_order x.1) 0) as [E0|E0].
  { rewrite bool_decide_true by done. exists m. split_and!; try done. intros l Hl. by apply not_elem_of_nil in Hl. }
  rewrite bool_decide_false by (intros E; by rewrite E in E0).
  destruct Hc as [(p & Hp & Hh) Hc]. rewrite Hp. cbn [default head tail].
  destruct (store_handed _ _ _ _ v HI Hh Hv) as (m1 & E1 & HI1 & Hsl1 & Hst1 & Hown & Hkeep & Hhand).
  destruct (IH (tail cells) m1 Hv HI1 (fast_cells_keep _ _ _ Hhand Hc) Hu) as (m2 & E2 & HI2 & Hsl2 & Hst2 & Hkeep2 & Hall).
  exists m2. split_and!.
  - unfold mbind at 1, W_bind at 1, try at 1. cbn [unwrap mbind outcome_bind]. unfold mbind, W_bind. cbn [Datatypes.id]. by rewrite E1.
  - done.
  - by rewrite Hsl2.
  - by rewrite Hst2.
  - auto.
  - intros l [->|Hl]%elem_of_cons; [by apply Hkeep2|by apply Hall].
Qed.

(** The pointer of the first slice of a storage. *)
Lemma st0_edge h :
  0 <= h < 2 ^ 60 ->
  end_from_ptr (st0_ptr h) = Done (Z.lor (st0_ptr h) 1) /\ edge_ptr (Z.lor (st0_ptr h) 1) = st0_ptr h /\
  Z.lor (st0_ptr h) 1 <> 0.
Proof.
  intros Hh. assert (Hev : Z.land (st0_ptr h) 1 = 0).
  { rewrite land_1. unfold st0_ptr, rc_base. replace (2 ^ 63 + 4 * h) with ((2 ^ 62 + 2 * h) * 2) by lia.
    apply Z_mod_mult. }
  assert (Hr : 0 < st0_ptr h < 2 ^ 64) by (unfold st0_ptr, rc_base; lia).
  split; [unfold end_from_ptr; by rewrite Hev|]. split; [apply edge_ptr_mark; [done|lia|by right]|].
  rewrite Z.lor_eq_0_iff. lia.
Qed.

Lemma slice_at_st0 m h s : 0 <= h -> m !! h = Some s -> slice_at m (st0_ptr h) = st0 s.
Proof.
  intros Hh Hs. unfold slice_at, st0_ptr. replace (rc_base + 4 * h - rc_base) with (h * 4) by lia.
  by rewrite Z_div_mult, Hs, Z_mod_mult.
Qed.

(** A read of a place that holds the first slice of a storage. *)
Lemma read_shared m o i h s r id :
  0 <= h < 2 ^ 60 -> stored_in (srv m) o i (Z.lor (st0_ptr h) 1) -> slices m !! h = Some s ->
  st0 s = bytes_of r -> valid r = true -> 1 <= i -> below_min m o i = false ->
  WorkerThread.handle_read (read_of id o i) m = Done (m, inl (bytes_of r)).
Proof.
  intros Hh (c & Hc & Hg) Hs Hb Hv H1 Hmin. destruct (st0_edge h Hh) as (_ & Hep & _).
  unfold below_min in Hmin. rewrite Hc in Hmin.
  unfold WorkerThread.handle_read, read_of, mbind, W_bind, try, find_chain. cbn [Packets.locs head unwrap outcome_bind mbind].
  rewrite debug_assert_true by (cbn; lia). cbn [oi_entry oi_order outcome_bind mbind]. rewrite Hc.
  unfold atomic_get. rewrite Hmin, Hg. unfold load. rewrite Hep, (proj2 (Z.leb_le rc_base (st0_ptr h))) by (unfold st0_ptr; lia).
  rewrite (slice_at_st0 _ _ _ (proj1 Hh) Hs), Hb.
  assert (Hp : packet_at (bytes_of r) = Done (bytes_of r)).
  { unfold packet_at, wrap_bytes. rewrite <-(app_nil_r (bytes_of r)) at 2.
    rewrite wrap_loop_valid; [done|done|by apply min_len_valid|].
    pose proof (min_len_valid r Hv). unfold zlen in *. lia. }
  by rewrite Hp.
Qed.

End Multi.

(** ** The footprint of a message *)

Section Footprint.
Context `{Build} {T A : Type} `{ByteTrie A}.
Abbreviation Mem := (Shared T A).






(** A root table up to the entries behind the slots [S]. *)
Record same_root (S : Slot -> Prop) (r r' : RootTable) : Prop := {
  sr_next : next_entry r' = next_entry r;
  sr_min : min_entry r' = min_entry r;
  sr_first : first_entry r' = first_entry r;
  sr_locks : lock_pair r' = lock_pair r;
  sr_shortcuts : Trie.shortcuts r' = Trie.shortcuts r;
  sr_heap : forall s, ~ S s -> read_slot r' s = read_slot r s;
}.


Lemma same_root_refl S r : same_root S r r.
Proof. done. Qed.





Variable S : list TriePtr.
Variable P : option (Z * Z).
Variable h0 : option Z.








































End Footprint.

(** ** Theorems *)

Section Theorems.
Context `{Build} {T A : Type} `{ByteTrie A, !ByteTrieView A, !ByteTrieLaws A}.


(** C6.  What is appended is what is read.  On a reachable server, a single append to a chain
    that is not busy gets the next place of the chain; the ordering thread tells a worker to
    write it; the worker, whenever it comes to that, answers with the packet that was appended,
    its place in it; and from then on every read of the place returns exactly those bytes, until
    the place is collected, whatever other requests are handled and whatever the workers write
    for them in the meantime. *)
Theorem append_then_read (m : Shared T A) (id flags : Z) (loc : OrderIndex) (deps : list OrderIndex)
    (data : list Z) (ts : Z) (storage : Storage) (t : T) k' :
  let o := oi_order loc in
  let i := chain_len (srv m) o in
  let r := Single id flags loc deps data ts in
  let r' := placed_single id flags loc deps data ts i in
  srv_reach (srv m) -> op_ok (srv m) r storage -> need_single_at (cur_skeens (srv m) o) ts = Done (false, k') ->
  exists s1 slot, handle_op r storage t (srv m) = Done (s1, tt) /\
    to_workers s1 = to_workers (srv m) ++ [Write r' (o, slot) t] /\
    forall m2 unique, rtc (env_step o slot) (mkMem s1 (slices m)) m2 ->
    exists m3, handle_to_worker2 unique false (Write r' (o, slot) t) m2 =
        Done (m3, (Some r', (SendStaticSlice (bytes_of r'), t))) /\
      forall m4 rid, rtc (env_step o slot) m3 m4 -> below_min m4 o i = false ->
        WorkerThread.handle_read (read_of rid o i) m4 = Done (m4, inl (bytes_of r')).
Proof.
  intros o i r r' Hs Hok Hneed.
  destruct (single_op_ok m id flags loc deps data ts storage t k' Hs Hok Hneed)
    as (s1 & slot & E & Hm & Ha & Hsz & Hv & Hpos).
  exists s1, slot. split; [exact E|]. split; [exact Hm|]. intros m2 u Hstar.
  pose proof (env_keeps_rtc _ _ _ _ _ _ Ha Hstar) as Ha2.
  destruct (finish_write_ok false m2 _ _ slot _ t Ha2 Hv Hsz) as (m3 & E3 & Ha3).
  exists m3. split; [exact E3|]. intros m4 rid Hstar' Hmin.
  pose proof (env_keeps_rtc _ _ _ _ _ _ Ha3 Hstar') as Ha4. by eapply handle_read_ok.
Qed.

(** C22.  An entry of several chains is one entry.  On a reachable server, a multi-append to
    chains of this server none of which has an append waiting takes the fast path; once a worker
    has handled its message, a read of any of its places, in whatever chain, returns the same
    bytes: those of the packet, with all its places in it, and the client gets that packet. *)
Theorem fast_path_same_entry (m : Shared T A) (id flags lock : Z) (ls deps : list OrderIndex) (data : list Z)
    (h : Z) (t : T) (sl : Slices) (u : bool) :
  let r := Multi id flags lock ls deps data in
  srv_reach (srv m) -> op_ok (srv m) r (TLeft h) -> EntryFlag.contains flags EntryFlag.TakeLock = false ->
  idle (srv m) ls -> 0 <= h < 2 ^ 60 -> slices m !! h = Some sl -> zlen (st0 sl) = zlen (bytes_of r) ->
  exists s1 ls', handle_op r (TLeft h) t (srv m) = Done (s1, tt) /\ same_orders ls ls' /\
    last (to_workers s1) = Some (MultiFastPath (Multi id flags lock ls' deps data) h t) /\
    let r' := Multi id (Z.lor flags 1) lock ls' deps data in
    exists m3, handle_to_worker2 u false (MultiFastPath (Multi id flags lock ls' deps data) h t)
        (mkMem s1 (slices m)) = Done (m3, (Some r', (SendSlice (bytes_of r'), t))) /\
      forall l rid, l ∈ entry_places ls' -> 1 <= oi_entry l -> below_min m3 (oi_order l) (oi_entry l) = false ->
        WorkerThread.handle_read (read_of rid (oi_order l) (oi_entry l)) m3 = Done (m3, inl (bytes_of r')).
Proof.
  intros r Hs [Hv [Hd Hok]] Htl Hidle Hh Hsl Hlen. apply srv_reach_inv in Hs. rewrite Htl in Hok.
  destruct Hok as (h' & [= <-] & Hok).
  destruct (wp_single_server_append (srv m) flags r h t ls (srv m) Hs eq_refl (multi_chains _ _ Hv eq_refl) Hok)
    as (s1 & [] & E & HI1 & Hf).
  destruct (Hf Hidle) as (xs & r1 & st & size & cells & Er & Hlast & Ho & Hcells & Hst & Hse & Hsz).
  cbn in Er. injection Er as <-. exists s1, xs.*1. split_and!; [|done|done|].
  { unfold handle_op, mbind, M_bind, lift. cbn -[EntryFlag.contains]. unfold handle_multiappend.
    rewrite Hd, Htl. exact E. }
  intros r'. assert (Hv' : valid r' = true) by (by eapply valid_multi).
  assert (Hlen' : zlen (st0 sl) = zlen (bytes_of r')).
  { rewrite Hlen. apply multi_bytes. by apply same_orders_length. }
  destruct (st0_edge h Hh) as (Hedge & _ & Hv0).
  set (m2 := mkMem s1 (<[h := mkShared (bytes_of r') (st1 sl)]> (slices m))).
  destruct (fast_stores_ok (Z.lor (st0_ptr h) 1) xs cells m2 Hv0) as (m3 & E3 & HI3 & Hsl3 & _ & _ & Hall).
  { by eapply srv_rebase. }
  { exact Hcells. }
  { clear -Ho. revert Ho. generalize (xs.*1). intros ys. induction 1 as [|? ? ? ? [_ ?]]; by constructor. }
  exists m3. split.
  - cbn [handle_to_worker2]. unfold finish_fast_path, fill_st0, slices_of, set_slices, storage_of, mbind, W_bind, try.
    change (insert_flag EntryFlag.ReadSuccess (Multi id flags lock xs.*1 deps data)) with (Done r').
    cbn [outcome_bind mbind]. rewrite (to_vec_valid _ Hv'). cbn [outcome_bind mbind slices srv].
    rewrite Hsl. cbn [unwrap outcome_bind mbind]. unfold copy_from_slice. rewrite Hlen', Z.eqb_refl.
    cbn [assert_ outcome_bind mbind srv slices]. rewrite Hst. cbn [unwrap outcome_bind mbind]. rewrite Hse.
    cbn [unwrap outcome_bind mbind]. change (Packets.locs r') with (Done xs.*1). cbn [outcome_bind mbind].
    assert (Hzl : zlen xs.*1 = zlen ls) by (unfold zlen; by rewrite (same_orders_length _ _ Ho)).
    rewrite Hzl, (proj2 (Z.leb_le _ _) Hsz). cbn [assert_ outcome_bind mbind]. rewrite Hedge.
    cbn [outcome_bind mbind]. unfold m2 in E3. by rewrite E3.
  - intros l rid Hl H1 Hmin. eapply (read_shared m3 _ _ h (mkShared (bytes_of r') (st1 sl)));
      [done|by apply Hall| |done|done|done|done].
    rewrite Hsl3. apply lookup_insert_eq.
Qed.

End Theorems.

(** ** Witnesses *)

Module WDemo.

#[local] Existing Instance dev.
Abbreviation Mem := (Shared unit Alloc).

(** The result of a step that does not panic. *)
Definition out {X} (o : outcome (Mem * X)) (m : Mem) : Mem := match o with Done (m', _) => m' | Panic => m end.

Definition m0 : Mem := mkMem Demo.s0 {[ 2 := mkShared (replicate 67 0) None ]}.

(** A single append, the first round of a multi-append, then the worker. *)
Definition single1' : Ref := placed_single 7 0 (mkOI 1 0) [] [1] 0 1.
Definition slot1 : AppendSlot :=
  match to_workers Demo.s1 with [Write _ (_, slot) _] => slot | _ => mkAppendSlot (0, 0) 0 0 0 end.
Definition m2 : Mem := mkMem Demo.s2 (slices m0).
Definition m3 : Mem := out (handle_to_worker2 false false (Write single1' (1, slot1) tt) m2) m2.

(** A multi-append to chains 1 and 3 that takes the fast path. *)
Definition fast : Ref := Multi 10 0 0 [mkOI 1 0; mkOI 3 0] [] [4].
Definition f1 : ServerLog unit Alloc := Demo.step fast (TLeft 2) Demo.s0.
Definition fast' : Ref := Multi 10 0 0 [mkOI 1 1; mkOI 3 1] [] [4].
Definition f3 : Mem := out (handle_to_worker2 true false (MultiFastPath fast' 2 tt) (mkMem f1 (slices m0))) m0.

Lemma ok_fast : op_ok Demo.s0 fast (TLeft 2).
Proof.
  split; [Demo.comp|]. split; [Demo.comp|]. exists 2. split; [done|].
  assert (Ht : forall o, o ∈ touched false Demo.s0 [mkOI 1 0; mkOI 3 0] -> o = 1 \/ o = 3).
  { intros o Ho. assert (Ho' : o ∈ [1; 3]) by exact Ho.
    apply elem_of_cons in Ho' as [->|Ho']; [by left|]. apply list_elem_of_singleton in Ho'. by right. }
  split; [done|repeat constructor| | |repeat (constructor; [Demo.room_tac|]); constructor|].
  - split; [|split].
    + eexists. split; [Demo.comp|]. split; Demo.comp.
    + apply (bool_decide_unpack _). by vm_compute.
    + intros o [->| ->]%Ht; Demo.fresh_tac.
  - intros o [->| ->]%Ht; Demo.room_tac.
  - do 3 eexists. split; [Demo.comp|]. split; [reflexivity|]. by vm_compute.
Qed.

End WDemo.

#[local] Existing Instance dev.

Lemma append_then_read_witness :
  WorkerThread.handle_read (read_of 99 1 1) WDemo.m3 = Done (WDemo.m3, inl (bytes_of WDemo.single1')).
Proof.
  destruct (append_then_read WDemo.m0 7 0 (mkOI 1 0) [] [1] 0 TNone tt _ Demo.reach0 Demo.ok1 eq_refl)
    as (s1 & slot & E & Em & Hrun).
  assert (Hs1 : s1 = Demo.s1) by (unfold Demo.s1, Demo.step; change Demo.s0 with (srv WDemo.m0);
    unfold Demo.single1; by rewrite E).
  subst s1. assert (Hslot : slot = WDemo.slot1) by (unfold WDemo.slot1; by rewrite Em). subst slot.
  destruct (Hrun WDemo.m2 false) as (m3 & E3 & Hread).
  - apply rtc_once. apply (es_op 1 WDemo.slot1 (mkMem Demo.s1 (slices WDemo.m0)) Demo.round1 (TLeft 1) tt Demo.s2).
    + exact Demo.ok2.
    + vm_compute. reflexivity.
  - assert (Hm3 : m3 = WDemo.m3).
    { unfold WDemo.m3. change (m3 = WDemo.out (handle_to_worker2 false false
        (Write (placed_single 7 0 (mkOI 1 0) [] [1] 0 (chain_len (srv WDemo.m0) (oi_order (mkOI 1 0)))) (oi_order (mkOI 1 0), WDemo.slot1) tt)
        WDemo.m2) WDemo.m2). by rewrite E3. }
    subst m3. apply (Hread WDemo.m3 99); [apply rtc_refl|vm_compute; reflexivity].
Defined.

Lemma fast_path_same_entry_witness :
  let r' := Multi 10 1 0 [mkOI 1 1; mkOI 3 1] [] [4] in
  WorkerThread.handle_read (read_of 99 1 1) WDemo.f3 = Done (WDemo.f3, inl (bytes_of r')) /\
  WorkerThread.handle_read (read_of 99 3 1) WDemo.f3 = Done (WDemo.f3, inl (bytes_of r')).
Proof.
  destruct (fast_path_same_entry WDemo.m0 10 0 0 [mkOI 1 0; mkOI 3 0] [] [4] 2 tt (mkShared (replicate 67 0) None) true)
    as (s1 & ls' & E & _ & Hlast & m3 & E3 & Hread).
  - exact Demo.reach0.
  - exact WDemo.ok_fast.
  - reflexivity.
  - repeat (constructor; [right; vm_compute; reflexivity|]). constructor.
  - lia.
  - reflexivity.
  - vm_compute. reflexivity.
  - assert (Hs1 : s1 = WDemo.f1).
    { unfold WDemo.f1, Demo.step, WDemo.fast. change Demo.s0 with (srv WDemo.m0). by rewrite E. }
    subst s1. assert (Hls : ls' = [mkOI 1 1; mkOI 3 1]).
    { vm_compute in Hlast. by injection Hlast. }
    subst ls'. assert (Hm3 : m3 = WDemo.f3) by (unfold WDemo.f3, WDemo.fast'; by rewrite E3). subst m3.
    split.
    + apply (Hread (mkOI 1 1) 99); [left|cbn; lia|vm_compute; reflexivity].
    + apply (Hread (mkOI 3 1) 99); [right; left|cbn; lia|vm_compute; reflexivity].
Defined.


(** ** A separator on the slow path

    A multi-append to chains of one server, with the dependency marker (0, 0) among its
    locations, that does not take the fast path: the marker gets no place, so its cell is never
    written, but the last [SkeensFinished] stores through every cell. *)

Definition senti_entry : Ref := Multi 11 1 0 [mkOI 1 0; mkOI 0 0; mkOI 2 0] [] [3].

Definition slow_mem : Shared unit Alloc :=
  mkMem (with_storages {[ 5 := storage_new 3 (zlen (bytes_of senti_entry)) (Some 200) ]} Demo.s1)
        {[ 5 := mkShared (bytes_of senti_entry) None ]}.

Example slow_path_stores_through_garbage :
  (exists m a, handle_to_worker2 false false (SkeensFinished (mkOI 1 1) (Some (1, trie_entry WDemo.slot1)) 5 4 tt) slow_mem
     = Done (m, a)) /\
  handle_to_worker2 true false (SkeensFinished (mkOI 1 1) (Some (1, trie_entry WDemo.slot1)) 5 4 tt) slow_mem = Panic.
Proof. split; [do 2 eexists; vm_compute; reflexivity|vm_compute; reflexivity]. Qed.
