(* ===== verification/ClientLog.v ===== *)
(** * The client's log ([fuzzy_log_client/src/fuzzy_log/mod.rs])

    One thread per client turns what the servers send into the order the application sees.  It
    takes snapshots of the chains the application is interested in, fetches the entries up to
    them ([PerColor] says which), holds back an entry until the entry before it in its chain and
    all the entries it happens after are returned ([blockers]), collects the places of an entry
    of several chains ([blocked_multiappends]), and returns what is ready ([return_entry]).

    [ThreadLog] is the state of the thread, and every method a function in the monad [L] over it.
    An entry (a [Vec<u8>] read through [bytes_as_entry]) is modelled by its packet; an entry that
    is held back is shared ([Rc]) by all it waits for, so the [Rc]s are modelled by a store with
    reference counts.  The queues to the store and to the application are the lists of what was
    sent; they can be gone.  [returned] and [skipped] are not in the code: they record, in order, the
    places that were marked as returned and as skippable.  The cache of buffers is left out: a
    buffer is cleared before it is used again. *)

From stdpp Require Import base gmap sets list sorting.
From Stdlib Require Import ZArith Lia.
From S2P Require Import Prelude PacketCodec Packets RangeMap ClientRangeTree PerColor.
Open Scope Z_scope.

#[export] Instance ref_view : EntryView Ref Z := {|
  entry_locs r := match Packets.locs r with Done ls => ls | Panic => [] end;
  entry_id := Packets.id;
|}.

Inductive NoRemoteStyle := NoConnection | EnsureRead | Atomic.
#[export] Instance NoRemoteStyle_eq_dec : EqDecision NoRemoteStyle.
Proof. solve_decision. Defined.

Record Error := mkError { error_num : Z; server : Z; error : Z }.

(** What the application is sent: an entry, the answer to a snapshot, the end of a snapshot (an
    empty vector), an error. *)
Inductive Returned := RetEntry (val : Ref) | RetSnapshot (msg : Ref) | RetDone | RetErr (e : Error).

(** What the application is told of its appends. *)
Inductive Wrote := WroteOk (id : Z) (locs : list OrderIndex) | WroteErr (e : Error).

Inductive FromStore :=
| WriteComplete (id : Z) (locs : list OrderIndex)
| ReadComplete (loc : OrderIndex) (msg : Ref)
| IoError (kind server : Z).

Inductive FromClient :=
| SnapshotAndPrefetch (chain : Z)
| MultiSnapshotAndPrefetch (chains : list Z)
| StrongSnapshotAndPrefetch (id : Z) (chains : list OrderIndex)   (* [id]: the new random id *)
| PerformAppend (msg : Ref)
| ReturnBuffer
| ReadUntil (loc : OrderIndex)
| Fastforward (loc : OrderIndex)
| Rewind (loc : OrderIndex)
| StopAckingWrites
| Shutdown.

Inductive Message := MFromStore (m : FromStore) | MFromClient (m : FromClient).

Inductive MultiSearch :=
| Finished (msg : Ref)
| InProgress
| EarlySentinel
| BeyondHorizon (msg : Ref)
| Repeat
| WaitForDeps (msg : Ref).

Abbreviation Chain := (PC.PerColor Z Ref unit).

Record ThreadLog := mkLog {
  to_store : list Ref;
  blockers : gmap (Z * Z) (list nat);
  blocked_multiappends : gmap Z Ref;
  per_chains : gmap Z Chain;
  ready_reads : list Returned;
  finished_writes : list Wrote;
  no_longer_blocked : list OrderIndex;
  num_snapshots : Z;
  num_errors : Z;
  fetch_boring_multis : bool;
  ack_writes : bool;
  return_snapshots : bool;
  no_remote_style : NoRemoteStyle;
  finished : bool;
  prefetch_size : Z;
  last_seen_entries : gmap Z Z;
  my_colors_chains : gset Z;
  rcs : gmap nat (Z * Ref);            (* the live [Rc]s: reference count and value *)
  next_rc : nat;
  store_gone : bool;
  reader_gone : bool;
  writer_gone : bool;
  returned : list (OrderIndex * Ref);  (* the places marked as returned, with their entries *)
  skipped : list OrderIndex;           (* the places marked as skippable *)
}.

Definition set_to_store v s := mkLog v (blockers s) (blocked_multiappends s) (per_chains s) (ready_reads s) (finished_writes s) (no_longer_blocked s) (num_snapshots s) (num_errors s) (fetch_boring_multis s) (ack_writes s) (return_snapshots s) (no_remote_style s) (finished s) (prefetch_size s) (last_seen_entries s) (my_colors_chains s) (rcs s) (next_rc s) (store_gone s) (reader_gone s) (writer_gone s) (returned s) (skipped s).
Definition set_blockers v s := mkLog (to_store s) v (blocked_multiappends s) (per_chains s) (ready_reads s) (finished_writes s) (no_longer_blocked s) (num_snapshots s) (num_errors s) (fetch_boring_multis s) (ack_writes s) (return_snapshots s) (no_remote_style s) (finished s) (prefetch_size s) (last_seen_entries s) (my_colors_chains s) (rcs s) (next_rc s) (store_gone s) (reader_gone s) (writer_gone s) (returned s) (skipped s).
Definition set_multis v s := mkLog (to_store s) (blockers s) v (per_chains s) (ready_reads s) (finished_writes s) (no_longer_blocked s) (num_snapshots s) (num_errors s) (fetch_boring_multis s) (ack_writes s) (return_snapshots s) (no_remote_style s) (finished s) (prefetch_size s) (last_seen_entries s) (my_colors_chains s) (rcs s) (next_rc s) (store_gone s) (reader_gone s) (writer_gone s) (returned s) (skipped s).
Definition set_chains v s := mkLog (to_store s) (blockers s) (blocked_multiappends s) v (ready_reads s) (finished_writes s) (no_longer_blocked s) (num_snapshots s) (num_errors s) (fetch_boring_multis s) (ack_writes s) (return_snapshots s) (no_remote_style s) (finished s) (prefetch_size s) (last_seen_entries s) (my_colors_chains s) (rcs s) (next_rc s) (store_gone s) (reader_gone s) (writer_gone s) (returned s) (skipped s).
Definition set_ready v s := mkLog (to_store s) (blockers s) (blocked_multiappends s) (per_chains s) v (finished_writes s) (no_longer_blocked s) (num_snapshots s) (num_errors s) (fetch_boring_multis s) (ack_writes s) (return_snapshots s) (no_remote_style s) (finished s) (prefetch_size s) (last_seen_entries s) (my_colors_chains s) (rcs s) (next_rc s) (store_gone s) (reader_gone s) (writer_gone s) (returned s) (skipped s).
Definition set_writes v s := mkLog (to_store s) (blockers s) (blocked_multiappends s) (per_chains s) (ready_reads s) v (no_longer_blocked s) (num_snapshots s) (num_errors s) (fetch_boring_multis s) (ack_writes s) (return_snapshots s) (no_remote_style s) (finished s) (prefetch_size s) (last_seen_entries s) (my_colors_chains s) (rcs s) (next_rc s) (store_gone s) (reader_gone s) (writer_gone s) (returned s) (skipped s).
Definition set_no_longer v s := mkLog (to_store s) (blockers s) (blocked_multiappends s) (per_chains s) (ready_reads s) (finished_writes s) v (num_snapshots s) (num_errors s) (fetch_boring_multis s) (ack_writes s) (return_snapshots s) (no_remote_style s) (finished s) (prefetch_size s) (last_seen_entries s) (my_colors_chains s) (rcs s) (next_rc s) (store_gone s) (reader_gone s) (writer_gone s) (returned s) (skipped s).
Definition set_num_snapshots v s := mkLog (to_store s) (blockers s) (blocked_multiappends s) (per_chains s) (ready_reads s) (finished_writes s) (no_longer_blocked s) v (num_errors s) (fetch_boring_multis s) (ack_writes s) (return_snapshots s) (no_remote_style s) (finished s) (prefetch_size s) (last_seen_entries s) (my_colors_chains s) (rcs s) (next_rc s) (store_gone s) (reader_gone s) (writer_gone s) (returned s) (skipped s).
Definition set_num_errors v s := mkLog (to_store s) (blockers s) (blocked_multiappends s) (per_chains s) (ready_reads s) (finished_writes s) (no_longer_blocked s) (num_snapshots s) v (fetch_boring_multis s) (ack_writes s) (return_snapshots s) (no_remote_style s) (finished s) (prefetch_size s) (last_seen_entries s) (my_colors_chains s) (rcs s) (next_rc s) (store_gone s) (reader_gone s) (writer_gone s) (returned s) (skipped s).
Definition set_ack_writes v s := mkLog (to_store s) (blockers s) (blocked_multiappends s) (per_chains s) (ready_reads s) (finished_writes s) (no_longer_blocked s) (num_snapshots s) (num_errors s) (fetch_boring_multis s) v (return_snapshots s) (no_remote_style s) (finished s) (prefetch_size s) (last_seen_entries s) (my_colors_chains s) (rcs s) (next_rc s) (store_gone s) (reader_gone s) (writer_gone s) (returned s) (skipped s).
Definition set_finished v s := mkLog (to_store s) (blockers s) (blocked_multiappends s) (per_chains s) (ready_reads s) (finished_writes s) (no_longer_blocked s) (num_snapshots s) (num_errors s) (fetch_boring_multis s) (ack_writes s) (return_snapshots s) (no_remote_style s) v (prefetch_size s) (last_seen_entries s) (my_colors_chains s) (rcs s) (next_rc s) (store_gone s) (reader_gone s) (writer_gone s) (returned s) (skipped s).
Definition set_prefetch v s := mkLog (to_store s) (blockers s) (blocked_multiappends s) (per_chains s) (ready_reads s) (finished_writes s) (no_longer_blocked s) (num_snapshots s) (num_errors s) (fetch_boring_multis s) (ack_writes s) (return_snapshots s) (no_remote_style s) (finished s) v (last_seen_entries s) (my_colors_chains s) (rcs s) (next_rc s) (store_gone s) (reader_gone s) (writer_gone s) (returned s) (skipped s).
Definition set_last_seen v s := mkLog (to_store s) (blockers s) (blocked_multiappends s) (per_chains s) (ready_reads s) (finished_writes s) (no_longer_blocked s) (num_snapshots s) (num_errors s) (fetch_boring_multis s) (ack_writes s) (return_snapshots s) (no_remote_style s) (finished s) (prefetch_size s) v (my_colors_chains s) (rcs s) (next_rc s) (store_gone s) (reader_gone s) (writer_gone s) (returned s) (skipped s).
Definition set_rcs m n s := mkLog (to_store s) (blockers s) (blocked_multiappends s) (per_chains s) (ready_reads s) (finished_writes s) (no_longer_blocked s) (num_snapshots s) (num_errors s) (fetch_boring_multis s) (ack_writes s) (return_snapshots s) (no_remote_style s) (finished s) (prefetch_size s) (last_seen_entries s) (my_colors_chains s) m n (store_gone s) (reader_gone s) (writer_gone s) (returned s) (skipped s).
Definition set_gone a b c s := mkLog (to_store s) (blockers s) (blocked_multiappends s) (per_chains s) (ready_reads s) (finished_writes s) (no_longer_blocked s) (num_snapshots s) (num_errors s) (fetch_boring_multis s) (ack_writes s) (return_snapshots s) (no_remote_style s) (finished s) (prefetch_size s) (last_seen_entries s) (my_colors_chains s) (rcs s) (next_rc s) (store_gone s || a) (reader_gone s || b) (writer_gone s || c) (returned s) (skipped s).
Definition set_trace v s := mkLog (to_store s) (blockers s) (blocked_multiappends s) (per_chains s) (ready_reads s) (finished_writes s) (no_longer_blocked s) (num_snapshots s) (num_errors s) (fetch_boring_multis s) (ack_writes s) (return_snapshots s) (no_remote_style s) (finished s) (prefetch_size s) (last_seen_entries s) (my_colors_chains s) (rcs s) (next_rc s) (store_gone s) (reader_gone s) (writer_gone s) v (skipped s).
Definition set_skipped v s := mkLog (to_store s) (blockers s) (blocked_multiappends s) (per_chains s) (ready_reads s) (finished_writes s) (no_longer_blocked s) (num_snapshots s) (num_errors s) (fetch_boring_multis s) (ack_writes s) (return_snapshots s) (no_remote_style s) (finished s) (prefetch_size s) (last_seen_entries s) (my_colors_chains s) (rcs s) (next_rc s) (store_gone s) (reader_gone s) (writer_gone s) (returned s) v.

(** ** The monad *)

Definition L (X : Type) : Type := ThreadLog -> outcome (ThreadLog * X).
#[export] Instance L_ret : MRet L := fun X x s => Done (s, x).
#[export] Instance L_bind : MBind L := fun X Y k m s =>
  match m s with Done (s', x) => k x s' | Panic => Panic end.

Definition pure {X} (o : outcome X) : L X := fun s => x ← o; Done (s, x).
Definition get {X} (f : ThreadLog -> X) : L X := fun s => Done (s, f s).
Definition modify (f : ThreadLog -> ThreadLog) : L unit := fun s => Done (f s, tt).

Definition when (b : bool) (m : L unit) : L unit := if b then m else mret tt.

Fixpoint for_each {X} (xs : list X) (f : X -> L unit) : L unit :=
  match xs with [] => mret tt | x :: xs => _ ← f x; for_each xs f end.

(** [self.per_chains.get_mut(&o).map(f)] *)
Definition on_chain {X} (o : Z) (f : Chain -> outcome (X * Chain)) : L (option X) := fun s =>
  match per_chains s !! o with
  | None => Done (s, None)
  | Some pc => '(x, pc) ← f pc; Done (set_chains (<[o := pc]> (per_chains s)) s, Some x)
  end.

(** [self.per_chains.get(&o)] *)
Definition chain_get (o : Z) : L (option Chain) := get (fun s => per_chains s !! o).

(** [self.per_chains.entry(o).or_insert_with(|| PerColor::new(o))] *)
Definition chain_or_new (o : Z) : L unit := fun s =>
  match per_chains s !! o with
  | None => Done (set_chains (<[o := PC.new o]> (per_chains s)) s, tt)
  | Some _ => Done (s, tt)
  end.

Definition upd (f : Chain -> outcome Chain) (pc : Chain) : outcome (unit * Chain) := pc ← f pc; Done (tt, pc).
Definition pure_upd {X} (f : Chain -> X * Chain) (pc : Chain) : outcome (X * Chain) := Done (f pc).

(** ** Sending *)

(** [self.to_store.send(packet).expect("store hung up")] *)
Definition send_store (packet : Ref) : L unit :=
  gone ← get store_gone;
  if (gone : bool) then pure Panic else modify (fun s => set_to_store (to_store s ++ [packet]) s).

(** [if self.to_store.send(packet).is_err() { self.finished = true }] *)
Definition try_send_store (packet : Ref) : L unit :=
  gone ← get store_gone;
  if (gone : bool) then modify (set_finished true) else modify (fun s => set_to_store (to_store s ++ [packet]) s).

(** [if self.ready_reads.send(..).is_err() { self.finished = true }] *)
Definition try_send_ready (r : Returned) : L unit :=
  gone ← get reader_gone;
  if (gone : bool) then modify (set_finished true) else modify (fun s => set_ready (ready_reads s ++ [r]) s).

(** [self.ready_reads.send(..).expect("client gone")] *)
Definition send_ready (r : Returned) : L unit :=
  gone ← get reader_gone;
  if (gone : bool) then pure Panic else modify (fun s => set_ready (ready_reads s ++ [r]) s).

(** ** Shared entries *)

Definition rc_new (val : Ref) : L nat := fun s =>
  Done (set_rcs (<[next_rc s := (1, val)]> (rcs s)) (S (next_rc s)) s, next_rc s).

Definition rc_get (rc : nat) : L Ref := fun s =>
  '(_, val) ← unwrap (rcs s !! rc); Done (s, val).

Definition rc_clone (rc : nat) : L unit := fun s =>
  '(n, val) ← unwrap (rcs s !! rc); Done (set_rcs (<[rc := (n + 1, val)]> (rcs s)) (next_rc s) s, tt).

Definition rc_drop (rc : nat) : L unit := fun s =>
  '(n, val) ← unwrap (rcs s !! rc);
  Done (set_rcs (if n =? 1 then delete rc (rcs s) else <[rc := (n - 1, val)]> (rcs s)) (next_rc s) s, tt).

(** [Rc::try_unwrap]: the value, when there is no other reference. *)
Definition rc_try_unwrap (rc : nat) : L (option Ref) := fun s =>
  '(n, val) ← unwrap (rcs s !! rc);
  if n =? 1 then Done (set_rcs (delete rc (rcs s)) (next_rc s) s, Some val) else Done (s, None).

(** [self.blockers.entry(loc).or_insert_with(Vec::new).push(..)] *)
Definition block_on (loc : OrderIndex) (rc : nat) : L unit :=
  let k := (oi_order loc, oi_entry loc) in
  modify (fun s => set_blockers (<[k := default [] (blockers s !! k) ++ [rc]]> (blockers s)) s).

(** [if *e < i { *e = i }] on the entry of [last_seen_entries] *)
Definition saw (o i : Z) : L unit :=
  modify (fun s => set_last_seen (<[o := Z.max (default 0 (last_seen_entries s !! o)) i]> (last_seen_entries s)) s).

(** ** Fetching *)

Section Log.
Context `{Build}.

(** [fetch_next] and [make_read_packet] *)
Definition make_read_packet (chain index : Z) : Ref :=
  Read uuid_nil EntryFlag.Nothing 0 0 (mkOI chain index) (mkOI 0 0) (mkOI 0 0).

Definition fetch_next (chain low high : Z) : L unit :=
  x ← on_chain chain (upd (fun pc => PC.fetching_range pc low high tt));
  _ ← pure (unwrap x);
  stop ← pure (add64 high 1);
  for_each (seqZ low (stop - low)) (fun next => try_send_store (make_read_packet chain next)).

Definition fetch_snapshot (chain : Z) : L unit := send_store (make_read_packet chain u64_max).

Definition fetch_strong_snapshot (id : Z) (chains : list OrderIndex) : L unit :=
  send_store (Snapshot id EntryFlag.Nothing 0 0 0 chains).

(** How much to fetch at once ([prefetch]). *)
Definition to_prefetch (max_prefetch buffering : Z) (next : PC.NextToFetch) : outcome (option (Z * Z)) :=
  match next with
  | PC.NTF_None => Done None
  | PC.AboveHorizon low high =>
      d ← sub64 high low; num ← add64 d 1;
      let num := Z.min num max_prefetch in
      if num =? 0 then Done None
      else if buffering <? num then
        num ← sub64 num buffering;
        e ← add64 low num; e ← sub64 e 1;
        Done (Some (low, Z.min high e))
      else Done None
  | PC.BelowHorizon low high =>
      d ← sub64 high low; num ← add64 d 1;
      let num := Z.max num max_prefetch in
      if num =? 0 then Done None
      else if buffering <? num then
        num ← sub64 num buffering;
        e ← add64 high num; e ← sub64 e 1;
        Done (Some (low, Z.min high e))
      else Done None
  end.

Definition prefetch (chain : Z) : L unit :=
  x ← on_chain chain (fun pc => PC.increment_outstanding_snapshots pc tt);
  _ ← pure (unwrap x);
  c ← chain_get chain;
  pc ← pure (unwrap c);
  next ← pure (PC.next_range_to_fetch pc);
  max_prefetch ← get prefetch_size;
  f ← pure (to_prefetch max_prefetch (PC.currently_buffering pc) next);
  match f with Some (low, high) => fetch_next chain low high | None => mret tt end.

(** ** Returning entries *)

(** [enqueue_packet]: the entry waits for the one before it in its chain. *)
Definition enqueue_packet (loc : OrderIndex) (packet : nat) : L unit :=
  _ ← pure (assert_ (1 <? oi_entry loc));
  c ← chain_get (oi_order loc);
  _ ← (if debug_assertions then
         pc ← pure (unwrap c);
         next ← pure (PC.next_return_is pc (oi_entry loc));
         pure (assert_ (negb next && negb (PC.has_returned pc (oi_entry loc))))
       else mret tt);
  prior ← pure (sub64 (oi_entry loc) 1);
  _ ← rc_clone packet;
  _ ← block_on (mkOI (oi_order loc) prior) packet;
  rc_drop packet.

(** [pc.set_returned(i)], with the record of it. *)
Definition mark_returned (o i : Z) (val : Ref) : L bool :=
  x ← on_chain o (fun pc => pc ← PC.set_returned pc i; Done (PC.is_interesting pc, pc));
  b ← pure (unwrap x);
  _ ← modify (fun s => set_trace (returned s ++ [(mkOI o i, val)]) s);
  mret b.

(** [pc.mark_as_skippable(i)] (through [f]), with the record of it. *)
Definition mark_skipped (o i : Z) (f : Chain -> outcome Chain) : L (option unit) :=
  x ← on_chain o (upd f);
  _ ← modify (fun s => set_skipped (skipped s ++ [mkOI o i]) s);
  mret x.

Definition return_entry_at (loc : OrderIndex) (val : Ref) : L bool :=
  let o := oi_order loc in
  let i := oi_entry loc in
  c ← chain_get o;
  match c with
  | None => mret false
  | Some pc =>
      if PC.has_returned pc i then mret false
      else if negb (PC.is_within_snapshot pc i) then
        _ ← on_chain o (upd (fun pc => PC.block_on_snapshot pc val)); mret false
      else
        _ ← pure (assert_ (0 <? i));
        is_interesting ← mark_returned o i val;
        colors ← get my_colors_chains;
        _ ← when (is_interesting && bool_decide (o ∈ colors)) (saw o i);
        _ ← when is_interesting (try_send_ready (RetEntry val));
        mret true
  end.

(** The first loop of [return_entry]: whether the entry may not be returned (twice), and the last
    place of it that is beyond the snapshot. *)
Fixpoint check_return (ls : list OrderIndex) (checking_sentinels : bool) (should_block_on : option OrderIndex)
  : L (bool * option OrderIndex) :=
  match ls with
  | [] => mret (true, should_block_on)
  | l :: ls =>
      if oi_order l =? 0 then check_return ls true should_block_on
      else
        c ← chain_get (oi_order l);
        match c with
        | None => check_return ls checking_sentinels should_block_on
        | Some pc =>
            if PC.has_returned pc (oi_entry l) && negb checking_sentinels then mret (false, None)
            else if negb (PC.has_returned pc (oi_entry l)) && checking_sentinels then pure Panic
            else check_return ls checking_sentinels
                   (if negb (PC.is_within_snapshot pc (oi_entry l)) then Some l else should_block_on)
        end
  end.

(** The second loop: every place before the sentinels is returned. *)
Fixpoint mark_all (val : Ref) (ls : list OrderIndex) (is_interesting : bool) : L bool :=
  match ls with
  | [] => mret is_interesting
  | l :: ls =>
      if oi_order l =? 0 then mret is_interesting
      else
        c ← chain_get (oi_order l);
        match c with
        | None => mark_all val ls is_interesting
        | Some pc =>
            _ ← pure (debug_assert (PC.is_within_snapshot pc (oi_entry l)));
            b ← mark_returned (oi_order l) (oi_entry l) val;
            mark_all val ls (is_interesting || b)
        end
  end.

Definition return_entry (val : Ref) : L (option (list OrderIndex)) :=
  _ ← pure (Packets.flag val);
  ls ← pure (Packets.locs val);
  '(ok, should_block_on) ← check_return ls false None;
  if negb ok then mret None
  else match should_block_on with
  | Some l =>
      c ← chain_get (oi_order l);
      pc ← pure (unwrap c);
      is_next ← pure (PC.next_return_is pc (oi_entry l));
      if (is_next : bool) then
        _ ← on_chain (oi_order l) (upd (fun pc => PC.block_on_snapshot pc val)); mret None
      else
        rc ← rc_new val; _ ← enqueue_packet l rc; mret None
  | None =>
      is_interesting ← mark_all val ls false;
      colors ← get my_colors_chains;
      _ ← for_each ls (fun l => when (is_interesting && bool_decide (oi_order l ∈ colors)) (saw (oi_order l) (oi_entry l)));
      _ ← when is_interesting (try_send_ready (RetEntry val));
      mret (Some ls)
  end.

(** The entries that waited for [loc]. *)
Definition try_return_blocked_by (loc : OrderIndex) : L unit :=
  let k := (oi_order loc, oi_entry loc) in
  b ← get (fun s => blockers s !! k);
  match b with
  | None => mret tt
  | Some blocked =>
      _ ← modify (fun s => set_blockers (delete k (blockers s)) s);
      for_each blocked (fun rc =>
        v ← rc_try_unwrap rc;
        match v with
        | Some val =>
            ls ← pure (Packets.locs val);
            _ ← modify (fun s => set_no_longer (no_longer_blocked s ++ ls) s);
            _ ← return_entry val; mret tt
        | None => rc_drop rc
        end)
  end.

(** [while let Some(loc) = self.no_longer_blocked.pop()] *)
Fixpoint unblock_rest (fuel : nat) : L unit :=
  match fuel with
  | O => pure Panic
  | S fuel =>
      ls ← get no_longer_blocked;
      match list.last ls with
      | None => mret tt
      | Some loc =>
          _ ← modify (set_no_longer (take (length ls - 1) ls));
          _ ← try_return_blocked_by loc;
          unblock_rest fuel
      end
  end.

(** The number of rounds of the loop: any number will do as long as it ends in time. *)
Context (fuel : nat).

Definition stop_blocking_on (locs : list OrderIndex) : L unit :=
  _ ← for_each locs (fun loc => if oi_order loc =? 0 then mret tt else try_return_blocked_by loc);
  unblock_rest fuel.

(** [if let Some(val) = unblocked { .. }] *)
Definition return_unblocked (unblocked : option Ref) : L unit :=
  match unblocked with
  | None => mret tt
  | Some val =>
      locs ← return_entry val;
      match locs with Some locs => stop_blocking_on locs | None => mret tt end
  end.

(** ** What an entry waits for *)

Definition fetch_blocker_at (chain index : Z) : L unit :=
  x ← on_chain chain (fun pc =>
        let '(ub, pc) := PC.update_horizon pc index in
        next ← PC.next_range_to_fetch pc; Done ((ub, next), pc));
  match x with
  | None => mret tt
  | Some (unblocked, to_fetch) =>
      _ ← (match to_fetch with
           | PC.BelowHorizon low high => fetch_next chain low high
           | _ => mret tt
           end);
      return_unblocked unblocked
  end.

(** The loop over the dependencies, of [add_blockers] and [add_blockers_at]. *)
Definition block_on_deps (deps : list OrderIndex) (packet : nat) : L unit :=
  for_each deps (fun d =>
    c ← chain_get (oi_order d);
    match c with
    | Some pc =>
        if PC.has_returned pc (oi_entry d) then mret tt
        else
          _ ← rc_clone packet;
          _ ← block_on d packet;
          fetch_blocker_at (oi_order d) (oi_entry d)
    | None => mret tt
    end).

(** The first loop of [add_blockers]: is the entry needed, and next in one of its chains? *)
Fixpoint block_on_prior (ls : list OrderIndex) (packet : nat) (needed try_ret : bool) : L (bool * bool) :=
  match ls with
  | [] => mret (needed, try_ret)
  | l :: ls =>
      if oi_order l =? 0 then block_on_prior ls packet needed try_ret
      else
        c ← chain_get (oi_order l);
        match c with
        | None => block_on_prior ls packet needed try_ret
        | Some pc =>
            is_next ← pure (PC.next_return_is pc (oi_entry l));
            if PC.has_returned pc (oi_entry l) then block_on_prior ls packet needed try_ret
            else
              _ ← (if (is_next : bool) then mret tt
                   else _ ← rc_clone packet; enqueue_packet l packet);
              block_on_prior ls packet true (try_ret || is_next)
        end
  end.

Definition add_blockers (packet : nat) : L bool :=
  val ← rc_get packet;
  deps ← pure (Packets.dependencies val);
  locs ← pure (Packets.locs val);
  '(needed, try_ret) ← block_on_prior locs packet false false;
  if negb needed then mret false
  else _ ← block_on_deps deps packet; mret try_ret.

Definition add_blockers_at (loc : OrderIndex) (packet : nat) : L bool :=
  val ← rc_get packet;
  deps ← pure (Packets.dependencies val);
  c ← chain_get (oi_order loc);
  pc ← pure (unwrap c);
  try_ret ← pure (PC.next_return_is pc (oi_entry loc));
  if PC.has_returned pc (oi_entry loc) then mret false
  else
    _ ← (if (try_ret : bool) then mret tt else _ ← rc_clone packet; enqueue_packet loc packet);
    _ ← block_on_deps deps packet;
    mret try_ret.

Fixpoint sentinels (ls : list OrderIndex) : list OrderIndex :=
  match ls with [] => [] | l :: ls => if oi_order l =? 0 then ls else sentinels ls end.

(** [wait_for_deps]: the entry waits for its sentinels. *)
Fixpoint wait_for (ls : list OrderIndex) (packet : nat) (is_blocked : bool) : L bool :=
  match ls with
  | [] => mret (negb is_blocked)
  | l :: ls =>
      c ← chain_get (oi_order l);
      let block := match c with Some pc => negb (PC.has_returned pc (oi_entry l)) | None => false end in
      _ ← when block (_ ← block_on l packet; rc_clone packet);
      wait_for ls packet (is_blocked || block)
  end.

Definition wait_for_deps (packet : nat) : L bool :=
  val ← rc_get packet;
  locs ← pure (Packets.locs val);
  wait_for (sentinels locs) packet false.

Definition fetch_blockers_if_needed (packet : nat) : L unit :=
  val ← rc_get packet;
  deps ← pure (Packets.dependencies val);
  for_each deps (fun d => fetch_blocker_at (oi_order d) (oi_entry d)).

Definition try_returning_at (loc : OrderIndex) (packet : nat) : L unit :=
  v ← rc_try_unwrap packet;
  match v with
  | Some e =>
      r ← return_entry_at loc e;
      when r (stop_blocking_on [loc])
  | None => _ ← fetch_blockers_if_needed packet; rc_drop packet
  end.

Definition try_returning (packet : nat) : L unit :=
  v ← rc_try_unwrap packet;
  match v with
  | Some e =>
      locs ← return_entry e;
      match locs with Some locs => stop_blocking_on locs | None => mret tt end
  | None => _ ← fetch_blockers_if_needed packet; rc_drop packet
  end.

Definition ensure_read (read_loc : OrderIndex) (packet : nat) : L unit :=
  val ← rc_get packet;
  let id := Packets.id val in
  first ← on_chain (oi_order read_loc) (pure_upd (fun pc => PC.got_no_remote pc id));
  match first with
  | Some true =>
      ls ← pure (Packets.locs val);
      for_each ls (fun l =>
        if oi_order l =? oi_order read_loc then mret tt
        else
          boring ← get fetch_boring_multis;
          if (boring : bool) then pure Panic
          else _ ← on_chain (oi_order l) (pure_upd (fun pc => (tt, PC.add_no_remote pc id))); mret tt)
  | _ => mret tt
  end.

(** ** Fetching on *)

Definition server_is_finished (chain : Z) : L bool :=
  c ← chain_get chain;
  pc ← pure (unwrap c);
  _ ← pure (assert_ (negb (negb (PC.has_outstanding_reads pc) && PC.has_pending_reads_reqs pc)));
  _ ← pure (assert_ (negb (PC.is_searching_for_multi pc && negb (PC.has_outstanding_reads pc))));
  mret (PC.is_finished pc).

Definition continue_fetch_if_needed (chain : Z) : L bool :=
  c ← chain_get chain;
  match c with
  | None => mret true
  | Some pc =>
      to_fetch ← pure (PC.next_range_to_fetch pc);
      '(fetch, unblocked) ←
        (match to_fetch with
         | PC.BelowHorizon low high => mret (Some (low, high), None)
         | PC.AboveHorizon low _ =>
             more ← pure (PC.has_more_multi_search_than_outstanding_reads pc);
             if (more : bool) then
               ub ← on_chain chain PC.increment_horizon;
               mret (Some (low, low), mjoin ub)
             else mret (None, None)
         | PC.NTF_None => mret (None, None)
         end : L (option (Z * Z) * option Ref));
      _ ← (match fetch with Some (low, high) => fetch_next chain low high | None => mret tt end);
      _ ← return_unblocked unblocked;
      server_is_finished chain
  end.

(** No chain holds the handle any more. *)
Definition finshed_reading : L bool :=
  get (fun s => forallb (fun pc => negb (PC.has_read_state pc)) (map_to_list (per_chains s)).*2).

Definition continue_fetch (chain : Z) : L unit :=
  finished_server ← continue_fetch_if_needed chain;
  if (finished_server : bool) then
    _ ← on_chain chain (upd (fun pc => _ ← debug_assert (PC.is_finished pc); PC.set_finished_reading pc));
    all ← finshed_reading;
    when all
      (num_completeds ← get num_snapshots;
       _ ← modify (set_num_snapshots 0);
       for_each (seqZ 0 num_completeds) (fun _ => try_send_ready RetDone))
  else mret tt.

(** ** Entries of several chains *)

Definition fetch_multi_parts (id chain index : Z) (multi_server : bool) : L (option Z) :=
  boring ← get fetch_boring_multis;
  c ← chain_get chain;
  _ ← pure (assert_ (bool_decide (is_Some c) || boring));
  _ ← chain_or_new chain;
  x ← on_chain chain (fun pc =>
        let '(early_sentinel, pc) := PC.take_early_sentinel pc id in
        let potential_new_horizon := default index early_sentinel in
        if negb (index =? 0) then
          let '(unblocked, pc) := PC.update_horizon pc potential_new_horizon in
          pc ← (if multi_server then PC.mark_as_already_fetched pc index else Done pc);
          Done ((unblocked, early_sentinel), pc)
        else if bool_decide (is_Some early_sentinel) then Done ((None, early_sentinel), pc)
        else pc ← PC.increment_multi_search pc tt; Done ((None, None), pc));
  '(unblocked, early_sentinel) ← pure (unwrap x);
  _ ← continue_fetch_if_needed chain;
  _ ← return_unblocked unblocked;
  mret early_sentinel.

(** The loop over the places of a first part: the places, is the entry complete, must it wait for
    its sentinels. *)
Fixpoint first_part (id : Z) (multi_server fastpath is_sentinel : bool) (ls : list OrderIndex)
  : L (list OrderIndex * bool * bool) :=
  match ls with
  | [] => mret ([], true, false)
  | l :: ls =>
      let o := oi_order l in
      let i := oi_entry l in
      if o =? 0 then
        '(ls, fin, wait) ← first_part id multi_server fastpath true ls; mret (l :: ls, fin, wait)
      else
        c ← chain_get o;
        boring ← get fetch_boring_multis;
        if negb (bool_decide (is_Some c)) && negb boring then
          '(ls, fin, wait) ← first_part id multi_server fastpath is_sentinel ls; mret (l :: ls, fin, wait)
        else
          early_sentinel ← fetch_multi_parts id o i multi_server;
          '(l, fin1, wait1) ←
            (match early_sentinel with
             | Some loc =>
                 _ ← pure (assert_ (negb (loc =? 0))); mret (mkOI o loc, true, false)
             | None =>
                 if negb (i =? 0) then
                   if (is_sentinel : bool) then
                     if (fastpath : bool) then
                       c ← chain_get o;
                       w ← (match c with Some pc => pure (PC.can_return pc i) | None => mret false end);
                       mret (l, true, w)
                     else _ ← mark_skipped o i (fun pc => PC.mark_as_skippable pc i); mret (l, true, false)
                   else mret (l, true, false)
                 else mret (l, false, false)
             end : L (OrderIndex * bool * bool));
          '(ls, fin, wait) ← first_part id multi_server fastpath is_sentinel ls;
          mret (l :: ls, fin1 && fin, wait1 || wait)
  end.

(** The loop over the places of a later part. *)
Fixpoint later_part (is_sentinel : bool) (my_locs new_locs : list OrderIndex) : L (list OrderIndex * bool) :=
  match my_locs, new_locs with
  | my :: my_locs, new :: new_locs =>
      _ ← pure (assert_ (oi_order my =? oi_order new));
      if oi_order my =? 0 then
        '(ls, fin) ← later_part true my_locs new_locs; mret (my :: ls, fin)
      else
        my ← (if (oi_entry my =? 0) && negb (oi_entry new =? 0) then
                _ ← chain_or_new (oi_order new);
                _ ← on_chain (oi_order new) (upd PC.decrement_multi_search);
                _ ← (if negb is_sentinel
                     then on_chain (oi_order new) (upd (fun pc => PC.mark_as_already_fetched pc (oi_entry new)))
                     else mark_skipped (oi_order new) (oi_entry new) (fun pc => PC.mark_as_skippable pc (oi_entry new)));
                mret new
              else if negb (oi_entry my =? 0) && negb (oi_entry new =? 0) then
                _ ← pure (debug_assert (bool_decide (my = new)));
                _ ← when is_sentinel
                      (_ ← mark_skipped (oi_order new) (oi_entry new) (fun pc => PC.mark_as_skippable pc (oi_entry new)); mret tt);
                mret my
              else mret my);
        '(ls, fin) ← later_part is_sentinel my_locs new_locs;
        mret (my :: ls, negb (oi_entry my =? 0) && fin)
  | my_locs, _ => mret (my_locs, true)
  end.

Definition update_multi_part_read (read_loc : OrderIndex) (msg : Ref) (is_sentinel : bool) : L MultiSearch :=
  let id := Packets.id msg in
  flags ← pure (Packets.flag msg);
  ls ← pure (Packets.locs msg);
  let is_multi_server := EntryFlag.contains flags EntryFlag.TakeLock in
  later ← get (fun s => blocked_multiappends s !! id);
  match later with
  | None =>
      if negb is_sentinel then
        c ← chain_get (oi_order read_loc);
        pc ← pure (unwrap c);
        if negb (PC.is_within_snapshot pc (oi_entry read_loc)) then
          mret (if forallb (fun l => (oi_order l =? 0) || negb (oi_entry l =? 0)) ls
                then Finished msg else BeyondHorizon msg)
        else if PC.has_returned pc (oi_entry read_loc) then mret (BeyondHorizon msg)
        else
          '(ls, fin, wait) ← first_part id is_multi_server (negb is_multi_server) false ls;
          msg ← pure (locs_mut (fun _ => ls) msg);
          if (fin : bool) then mret (if (wait : bool) then WaitForDeps msg else Finished msg)
          else
            _ ← modify (fun s => set_multis (<[id := msg]> (blocked_multiappends s)) s);
            mret InProgress
      else
        x ← mark_skipped (oi_order read_loc) (oi_entry read_loc)
               (fun pc => PC.add_early_sentinel pc id (oi_entry read_loc));
        _ ← pure (unwrap x);
        mret EarlySentinel
  | Some val =>
      _ ← (if debug_assertions then
             c ← chain_get (oi_order read_loc);
             pc ← pure (unwrap c);
             _ ← pure (assert_ (PC.is_within_snapshot pc (oi_entry read_loc)));
             if negb is_sentinel then
               d ← pure (Packets.data val); d' ← pure (Packets.data msg);
               pure (assert_ (bool_decide (d = d')))
             else mret tt
           else mret tt);
      my_locs ← pure (Packets.locs val);
      '(my_locs, fin) ← later_part false my_locs ls;
      val ← pure (locs_mut (fun _ => my_locs) val);
      if (fin : bool) then
        _ ← modify (fun s => set_multis (delete id (blocked_multiappends s)) s); mret (Finished val)
      else
        _ ← modify (fun s => set_multis (<[id := val]> (blocked_multiappends s)) s); mret InProgress
  end.

(** ** Messages *)

(** The new size of a prefetch, from how far the snapshot moved. *)
Definition next_prefetch (new_horizon old_horizon prefetch : Z) : Z :=
  as_u32 (Z.max 0 (new_horizon - old_horizon) / 3 + 2 * prefetch / 3).

Definition got_entry_at (loc : OrderIndex) (try_ret_needed : bool) (packet : nat) : L unit :=
  try_ret ← add_blockers_at loc packet;
  if try_ret || negb try_ret_needed then try_returning_at loc packet else rc_drop packet.

Definition handle_multi_read (read_loc : OrderIndex) (msg : Ref) (is_sentinel : bool) : L unit :=
  status ← update_multi_part_read read_loc msg is_sentinel;
  match status with
  | InProgress | EarlySentinel | Repeat => mret tt
  | BeyondHorizon _ =>
      _ ← chain_or_new (oi_order read_loc);
      _ ← on_chain (oi_order read_loc) (upd (fun pc => PC.overread_at pc (oi_entry read_loc))); mret tt
  | WaitForDeps msg =>
      packet ← rc_new msg;
      try1 ← wait_for_deps packet;
      try2 ← add_blockers packet;
      if try1 && try2 then try_returning packet else rc_drop packet
  | Finished msg =>
      packet ← rc_new msg;
      try_ret ← add_blockers packet;
      if (try_ret : bool) then try_returning packet else rc_drop packet
  end.

Definition handle_completed_read (read_loc : OrderIndex) (msg : Ref) : L unit :=
  let o := oi_order read_loc in
  let i := oi_entry read_loc in
  flag ← pure (Packets.flag msg);
  layout ← pure (EntryKind.layout (Packets.kind msg));
  style ← get no_remote_style;
  snaps ← get return_snapshots;
  _ ← (match layout with
       | EntryKind.EntryLayout.Snapshot =>
           _ ← pure (debug_assert (EntryFlag.contains flag EntryFlag.ReadSuccess));
           _ ← pure (Packets.locs msg);
           ub ← on_chain o (fun pc => PC.give_new_snapshot pc i);
           _ ← return_unblocked (mjoin ub);
           when snaps (send_ready (RetSnapshot msg))
       | EntryKind.EntryLayout.Read =>
           _ ← pure (debug_assert (negb (EntryFlag.contains flag EntryFlag.ReadSuccess)));
           ls ← pure (Packets.locs msg);
           _ ← pure (debug_assert (bool_decide (head ls = Some read_loc)));
           if i <? u64_max then
             _ ← on_chain o (upd (fun pc => PC.overread_at pc i)); mret tt
           else
             c ← chain_get o;
             ub ← (match c with
                   | None => mret None
                   | Some pc =>
                       l ← pure (unwrap (head ls));
                       _ ← pure (assert_ (oi_entry l =? u64_max));
                       h ← pure (Packets.horizon msg);
                       _ ← modify (fun s => set_prefetch
                             (next_prefetch (oi_entry h) (PC.current_snap pc) (prefetch_size s)) s);
                       on_chain o (fun pc => PC.give_new_snapshot pc (oi_entry h))
                   end : L (option (option Ref)));
             _ ← return_unblocked (mjoin ub);
             when snaps (send_ready (RetSnapshot msg))
       | EntryKind.EntryLayout.Data =>
           _ ← pure (debug_assert (EntryFlag.contains flag EntryFlag.ReadSuccess));
           needed ← on_chain o (fun pc => PC.got_read pc i);
           when (default false needed) (packet ← rc_new msg; got_entry_at read_loc true packet)
       | EntryKind.EntryLayout.Multiput =>
           if negb (bool_decide (style = Atomic)) && EntryFlag.contains flag EntryFlag.NoRemote then
             needed ← (if i =? 0 then mret (Some false) else on_chain o (fun pc => PC.got_read pc i));
             when (default false needed)
               (packet ← rc_new msg;
                _ ← when (bool_decide (style = EnsureRead)) (ensure_read read_loc packet);
                got_entry_at read_loc false packet)
           else
             _ ← pure (debug_assert (EntryFlag.contains flag EntryFlag.ReadSuccess));
             needed ← on_chain o (fun pc => PC.got_read pc i);
             when (default false needed) (handle_multi_read read_loc msg false)
       | EntryKind.EntryLayout.Sentinel =>
           _ ← pure (debug_assert (EntryFlag.contains flag EntryFlag.ReadSuccess));
           needed ← on_chain o (fun pc => PC.got_read pc i);
           when (default false needed) (handle_multi_read read_loc msg true)
       | EntryKind.EntryLayout.Lock | EntryKind.EntryLayout.GC => pure Panic
       end);
  continue_fetch o.

Definition handle_from_store (msg : FromStore) : L bool :=
  match msg with
  | WriteComplete id locs =>
      colors ← get my_colors_chains;
      _ ← for_each locs (fun l => when (bool_decide (oi_order l ∈ colors)) (saw (oi_order l) (oi_entry l)));
      ack ← get ack_writes;
      gone ← get writer_gone;
      _ ← when ack (if (gone : bool) then modify (set_finished true)
                    else modify (fun s => set_writes (finished_writes s ++ [WroteOk id locs]) s));
      mret true
  | ReadComplete loc msg => _ ← handle_completed_read loc msg; mret true
  | IoError kind server =>
      n ← get num_errors;
      n' ← pure (add64 n 1);
      _ ← modify (set_num_errors n');
      let err := mkError n server kind in
      ack ← get ack_writes;
      gone ← get writer_gone;
      _ ← when ack (if (gone : bool) then modify (set_finished true)
                    else modify (fun s => set_writes (finished_writes s ++ [WroteErr err]) s));
      _ ← try_send_ready (RetErr err);
      mret true
  end.

(** [binary_search] of a slice of places, which are ordered by chain and then by entry. *)
Definition oi_leb (a b : OrderIndex) : bool :=
  (oi_order a <? oi_order b) || ((oi_order a =? oi_order b) && (oi_entry a <=? oi_entry b)).

Fixpoint search_from (fuel : nat) (ls : list OrderIndex) (x : OrderIndex) (base size : nat) : nat :=
  match fuel with
  | O => base
  | S fuel =>
      if decide (size <= 1)%nat then base
      else
        let half := (size / 2)%nat in
        let mid := (base + half)%nat in
        search_from fuel ls x
          (match ls !! mid with Some y => if oi_leb y x then mid else base | None => base end)
          (size - half)
  end.

Definition binary_search (ls : list OrderIndex) (x : OrderIndex) : bool :=
  match ls !! search_from (length ls) ls x 0 (length ls) with
  | Some y => bool_decide (y = x)
  | None => false
  end.

(** [sort_unstable_by_key(|oi| oi.0)] *)
Definition by_chain (a b : OrderIndex) : Prop := oi_order a <= oi_order b.
#[export] Instance by_chain_dec : RelDecision by_chain := fun a b => Z_le_dec (oi_order a) (oi_order b).

(** The new dependencies of an append: the last entries seen of the client's own chains, but for
    the chains it goes to; the chains are sorted. *)
Definition happens_after (seen : gmap Z Z) (locs : list OrderIndex) : list OrderIndex :=
  merge_sort by_chain
    (filter (fun oi => binary_search locs (mkOI (oi_order oi) 0) = false)
       ((fun oi => mkOI oi.1 oi.2) <$> map_to_list seen)).

Definition saturating_add1 (n : Z) : Z := Z.min u64_max (n + 1).

Definition snapshot_chains (chains : list Z) : L unit :=
  for_each chains (fun chain => _ ← fetch_snapshot chain; prefetch chain).

Definition handle_from_client (msg : FromClient) : L bool :=
  match msg with
  | SnapshotAndPrefetch chain =>
      _ ← modify (fun s => set_num_snapshots (saturating_add1 (num_snapshots s)) s);
      chains ← get (fun s => if negb (chain =? 0) then [chain]
                             else (filter (fun pc => PC.is_interesting pc.2 = true) (map_to_list (per_chains s))).*1);
      _ ← snapshot_chains chains; mret true
  | MultiSnapshotAndPrefetch chains =>
      _ ← modify (fun s => set_num_snapshots (saturating_add1 (num_snapshots s)) s);
      _ ← snapshot_chains chains; mret true
  | StrongSnapshotAndPrefetch id chains =>
      _ ← modify (fun s => set_num_snapshots (saturating_add1 (num_snapshots s)) s);
      _ ← fetch_strong_snapshot id chains;
      _ ← for_each chains (fun l => prefetch (oi_order l)); mret true
  | PerformAppend msg =>
      colors ← get my_colors_chains;
      msg ← (if negb (bool_decide (colors = ∅)) then
               locs ← pure (Packets.locs msg);
               seen ← get last_seen_entries;
               _ ← modify (set_last_seen ∅);
               pure (with_deps msg (happens_after seen locs))
             else
               l ← pure (Packets.layout msg);
               _ ← pure (assert_ (match l with
                                  | EntryKind.EntryLayout.Data | EntryKind.EntryLayout.Multiput => true
                                  | _ => false end));
               mret msg);
      _ ← send_store msg; mret true
  | ReturnBuffer => mret true
  | ReadUntil loc =>
      let chain := oi_order loc in
      _ ← modify (fun s => set_num_snapshots (saturating_add1 (num_snapshots s)) s);
      _ ← chain_or_new chain;
      ub ← on_chain chain (fun pc =>
             '(_, pc) ← PC.increment_outstanding_snapshots pc tt; PC.give_new_snapshot pc (oi_entry loc));
      _ ← return_unblocked (mjoin ub);
      _ ← continue_fetch chain;
      mret true
  | Fastforward loc =>
      _ ← chain_or_new (oi_order loc);
      _ ← on_chain (oi_order loc) (fun pc => PC.give_new_snapshot pc (oi_entry loc)); mret true
  | Rewind loc =>
      _ ← chain_or_new (oi_order loc);
      _ ← on_chain (oi_order loc) (upd (fun pc => PC.rewind_to pc (oi_entry loc))); mret true
  | StopAckingWrites => _ ← modify (set_ack_writes false); mret true
  | Shutdown => _ ← modify (set_finished true); mret false
  end.

Definition handle_message (msg : Message) : L bool :=
  match msg with
  | MFromClient msg => handle_from_client msg
  | MFromStore msg => handle_from_store msg
  end.

(** What happens to the thread: a message arrives, or the other side of one of its queues goes. *)
Inductive Event := Arrives (msg : Message) | StoreGone | ReaderGone | WriterGone.

(** [run]: the messages until the thread has to stop ([recv_timeout] only waits again). *)
Fixpoint run (evs : list Event) : L unit :=
  fin ← get finished;
  if (fin : bool) then mret tt
  else match evs with
  | [] => mret tt
  | Arrives msg :: evs =>
      go ← handle_message msg;
      if (go : bool) then run evs else mret tt
  | StoreGone :: evs => _ ← modify (set_gone true false false); run evs
  | ReaderGone :: evs => _ ← modify (set_gone false true false); run evs
  | WriterGone :: evs => _ ← modify (set_gone false false true); run evs
  end.

End Log.

(** ** The builder *)

Definition build (chains : list Z) (my_colors : gset Z) (fetch_boring ack return_snaps : bool)
    (style : NoRemoteStyle) : ThreadLog :=
  mkLog [] ∅ ∅ (list_to_map ((fun c => (c, PC.interesting c)) <$> chains)) [] [] [] 0 0 fetch_boring ack
    return_snaps style false 1 ∅ my_colors ∅ 0 false false false [] [].
