(* ===== verification/ClientOrder.v ===== *)
(** * The client returns every chain in order, without gaps

    What holds of the client's log ([ClientLog]) after any run, whatever the store and the
    application send it (a rewind apart), in both build profiles: the places of a chain are
    returned in increasing order, each at most once, within the snapshot, and only after
    everything before them in the chain is returned or skipped; and the application is sent the
    entries that were returned and that it is interested in, each once.

    The proof goes up the layers: a call of the range tree never loses a returned index
    ([tstep]), nor does a call of [PerColor] ([pstep]), and so every function of the log keeps
    the invariant ([log_inv]), which the rules of [keeps] compose. *)

From stdpp Require Import base gmap sets list sorting.
From Stdlib Require Import ZArith Lia.
From S2P Require Import Prelude PacketCodec Packets RangeMap ClientRangeTree PerColor ClientLog.
Open Scope Z_scope.

(** ** Range trees

    [RT.tree_ok] needs the caller to set only states that change; the following does not. *)

Abbreviation Ret := RT.ReturnedToClient.
Definition is_ret (t : RT.RangeTree) (q : Z) : Prop := holds (RT.inner t) q Ret.
Definition is_marked (t : RT.RangeTree) (q : Z) : Prop := is_ret t q \/ holds (RT.inner t) q RT.Skip.

Record tiled (t : RT.RangeTree) : Prop := {
  td_tiles : tiles 0 u64_max (RT.inner t);
  td_zero : is_ret t 0;
  td_down : forall q q', is_ret t q -> 0 <= q' <= q -> is_ret t q';
}.

(** [t'] keeps what is returned in [t]; only the indices of [new] become returned or skipped. *)
Record tstep (new : Z -> Prop) (t t' : RT.RangeTree) : Prop := {
  ts_tiled : tiled t';
  ts_ret : forall q, is_ret t q -> is_ret t' q;
  ts_marked : forall q, is_marked t' q -> is_marked t q \/ new q;
}.

Lemma tstep_refl new t : tiled t -> tstep new t t.
Proof. intros Ht. split; [done|done|by left]. Qed.

Lemma is_returned_ret t q : tiled t -> RT.is_returned t q = true <-> is_ret t q.
Proof.
  intros Ht. unfold is_ret. rewrite <- (bt_get_holds _ _ _ _ _ (td_tiles t Ht)).
  unfold RT.is_returned. destruct (bt_get _ _) as [[]|]; naive_solver.
Qed.

Lemma bt_remove_inv {V} lo hi (l : list (Range * V)) p r v m :
  tiles lo hi l -> bt_remove l (point p) = Some (r, v, m) ->
  exists l1 l2, l = l1 ++ (r, v) :: l2 /\ m = l1 ++ l2 /\ first r <= p <= last r.
Proof.
  revert lo m. induction l as [|[r' v'] l IH]; intros lo m Ht; simpl; [done|].
  simpl in Ht. destruct Ht as (<- & Hr & Ht).
  destruct (decide (p < first r')) as [?|?]; [|destruct (decide (p <= last r')) as [?|?]].
  - by rewrite cmp_below by (simpl; lia).
  - rewrite cmp_overlap by (simpl; lia). intros [= -> -> ->]. exists [], m. split; [done|]. split; [done|lia].
  - rewrite cmp_above by (simpl; lia). destruct (bt_remove l (point p)) as [[[r1 v1] m1]|] eqn:E; [|done].
    intros [= -> -> <-]. destruct (IH _ _ Ht eq_refl) as (l1 & l2 & -> & -> & ?).
    by exists ((r', v') :: l1), l2.
Qed.

Lemma tiled_updated t t' c d k :
  tiled t -> tiles 0 u64_max (RT.inner t') -> RT.updated t t' c d k ->
  (forall q, c <= q <= d -> ~ is_ret t q) ->
  (k = Ret -> c = d /\ is_ret t (c - 1)) ->
  tstep (fun q => c <= q <= d /\ (k = Ret \/ k = RT.Skip)) t t'.
Proof.
  intros Ht Ht' (Hout & Hin & Horig) Hnot Hk.
  assert (Hkeep : forall q, is_ret t q -> is_ret t' q).
  { intros q Hq. destruct (Hout q _ Hq) as (v' & Hv' & [<-|[? _]]); [|done..].
    intros Hcd. by apply (Hnot q). }
  split; [split|done|].
  - done.
  - apply Hkeep, Ht.
  - intros q q' (r & Hr & Hq) Hq'. destruct (decide (first r <= q')) as [?|?]; [exists r; split; [done|lia]|].
    destruct (Horig r _ Hr) as (x & Hx & [[Hcd Hkk]|[_ Hh]]).
    + destruct (Hk (eq_sym Hkk)) as [-> Hprev]. apply Hkeep, (td_down t Ht (d - 1)); [done|lia].
    + apply Hkeep, (td_down t Ht x); [done|lia].
  - intros q Hm. assert (Hb : 0 <= q <= u64_max) by (destruct Hm as [Hm|Hm]; by eapply holds_bound in Hm).
    assert (Hval : forall v, holds (RT.inner t') q v -> is_marked t' q -> v = Ret \/ v = RT.Skip).
    { intros v Hv [Hr|Hs]; [left|right]; by eapply (holds_unique _ _ _ q). }
    destruct (decide (c <= q <= d)) as [Hcd|Hcd].
    + right. split; [done|]. destruct (Hin q Hcd) as (v' & Hv' & Hup).
      destruct (Hval v' Hv' Hm); destruct Hup as [->|[-> ?]]; auto; simplify_eq.
    + left. destruct (holds_total _ _ _ q (td_tiles t Ht) Hb) as [v Hv].
      destruct (Hout q v Hv Hcd) as (v' & Hv' & Hup).
      destruct (Hval v' Hv' Hm) as [-> | ->]; destruct Hup as [->|[-> ?]]; simplify_eq; unfold is_marked, is_ret; auto.
Qed.

#[local] Existing Instance RT.Kind_merging.
#[local] Existing Instance RT.kind_merge_laws.

Section Tree.
Context `{Build}.
Implicit Types t : RT.RangeTree.

Lemma set_point_tiled t p k b t' :
  tiled t -> (k = Ret -> is_ret t (p - 1)) -> RT.set_point_as t p k = Done (b, t') ->
  tstep (fun q => q = p /\ (k = Ret \/ k = RT.Skip)) t t' /\ (k = Ret -> b = true -> is_ret t' p).
Proof.
  intros Ht Hk Hs. unfold RT.set_point_as, remove_from_map in Hs. pose proof (td_tiles t Ht) as Htl.
  destruct (bt_remove _ _) as [[[r old] m]|] eqn:E; [|done]. cbn [unwrap mbind outcome_bind] in Hs.
  destruct (bt_remove_inv _ _ _ _ _ _ _ Htl E) as (l1 & l2 & El & -> & Hp).
  destruct (RT.is_prior old k) eqn:Hpr; cbn [negb] in Hs; cycle 1.
  { rewrite bt_insert_tiles in Hs by (by rewrite <- El). rewrite <- El in Hs.
    destruct t; simpl in *. injection Hs as <- <-. split; [|done]. by apply tstep_refl. }
  apply bind_done in Hs as (? & _ & Hs). apply bind_done in Hs as (? & _ & Hs).
  apply bind_done in Hs as (n_out & _ & Hs). apply bind_done in Hs as (n_buf & _ & Hs).
  rewrite El in Htl. pose proof Htl as (_ & H1 & H2)%tiles_mid.
  pose proof (tiles_le _ _ _ H1). pose proof (tiles_le _ _ _ H2). destruct r as [ra rb]; simpl in *.
  rewrite split_at_rest in Hs by lia; cbn [mbind outcome_bind] in Hs.
  destruct (place_spec (veq := RT.kind_eq) (vup := RT.kind_up) l1 l2 ra rb old p p k Htl)
    as (z & Hz & _ & Htz & Hout & Hin & _ & Horig); [lia..|].
  unfold point in Hs. rewrite Hz in Hs; cbn [mbind outcome_bind] in Hs. injection Hs as <- <-.
  assert (Hup : RT.updated t (RT.mkTree z n_out n_buf) p p k) by (rewrite <- El in *; by split).
  assert (Hold : forall q, p <= q <= p -> ~ is_ret t q).
  { intros q Hq Hr. replace q with p in Hr by lia. unfold is_ret in Hr. rewrite El in Hr.
    assert (old = Ret) as ->; [|by destruct k].
    eapply (holds_unique _ _ _ p); [exact Htl| |exact Hr]. exists (mkRange ra rb). split; [set_solver|done]. }
  split; [|intros -> _].
  - destruct (tiled_updated t (RT.mkTree z n_out n_buf) p p k Ht Htz Hup Hold) as [? ? Hm]; [auto|].
    split; [done..|]. intros q [?|[? ?]]%Hm; [by left|right]. split; [lia|done].
  - destruct Hup as (_ & Hin' & _). destruct (Hin' p) as (v & Hv & [<-|[? _]]); [lia|done..].
Qed.

Lemma set_range_tiled t low high t' :
  tiled t -> RT.set_range_as_sent t low high = Done t' -> tstep (fun _ => False) t t'.
Proof.
  intros Ht Hs. unfold RT.set_range_as_sent, range_new, remove_from_map in Hs. pose proof (td_tiles t Ht) as Htl.
  apply bind_done in Hs as (? & _ & Hs). apply bind_done in Hs as (rg & Hrg & Hs).
  apply bind_done in Hrg as (? & Hle%assert_done%Z.leb_le & [= <-]).
  apply bind_done in Hs as ([[r old] m] & E%unwrap_done & Hs).
  destruct (bt_remove_inv _ _ _ _ _ _ _ Htl E) as (l1 & l2 & El & -> & Hp).
  apply bind_done in Hs as (? & ->%assert_done%bool_decide_eq_true & Hs).
  apply bind_done in Hs as (? & Hsp%assert_done & Hs). unfold spans in Hsp. simpl in Hsp.
  apply andb_true_iff in Hsp as [Hl%Z.leb_le Hh%Z.leb_le].
  apply bind_done in Hs as (? & _ & Hs). apply bind_done in Hs as (n_out & _ & Hs).
  rewrite El in Htl. pose proof Htl as (_ & H1 & H2)%tiles_mid.
  pose proof (tiles_le _ _ _ H1). pose proof (tiles_le _ _ _ H2). destruct r as [ra rb]; simpl in *.
  rewrite remove_rest in Hs by lia; cbn [mbind outcome_bind] in Hs.
  destruct (place_spec (veq := RT.kind_eq) (vup := RT.kind_up) l1 l2 ra rb RT.KNone low high RT.SentToServer Htl)
    as (z & Hz & _ & Htz & Hout & Hin & _ & Horig); [lia..|].
  rewrite Hz in Hs; cbn [mbind outcome_bind] in Hs. apply bind_done in Hs as (? & _ & [= <-]).
  assert (Hup : RT.updated t (RT.mkTree z n_out (RT.num_buffered t)) low high RT.SentToServer)
    by (rewrite <- El in *; by split).
  destruct (tiled_updated t (RT.mkTree z n_out (RT.num_buffered t)) low high _ Ht Htz Hup) as [? ? Hm]; [|done|].
  - intros q Hq Hr. unfold is_ret in Hr. rewrite El in Hr.
    assert (RT.KNone = Ret); [|done].
    eapply (holds_unique _ _ _ q); [exact Htl| |exact Hr]. exists (mkRange ra rb). split; [set_solver|simpl; lia].
  - split; [done..|]. intros q [?|[_ [? | ?]]]%Hm; [by left|done..].
Qed.

End Tree.

(** ** One chain *)

Section Chain.
Context `{Build}.
Implicit Types (pc : Chain).

Abbreviation tree := (PC.read_status (U := Z) (B := Ref) (RH := unit)).

(** A call keeps what is returned, does not take the snapshot back, and marks only [new]. *)
Definition pstep (new : Z -> Prop) pc pc' : Prop :=
  tstep new (tree pc) (tree pc') /\ PC.last_snapshot pc <= PC.last_snapshot pc' /\
  PC.is_interesting pc' = PC.is_interesting pc.

Definition chain_ok {X} (new : Z -> Prop) (f : Chain -> outcome (X * Chain)) : Prop :=
  forall pc x pc', tiled (tree pc) -> f pc = Done (x, pc') -> pstep new pc pc'.

Abbreviation quiet := (fun _ : Z => False).

Lemma pstep_same new pc pc' :
  tiled (tree pc) -> tree pc' = tree pc -> PC.last_snapshot pc <= PC.last_snapshot pc' ->
  PC.is_interesting pc' = PC.is_interesting pc -> pstep new pc pc'.
Proof. intros Ht Htr ??. unfold pstep. rewrite Htr. split; [by apply tstep_refl|done]. Qed.

Lemma pstep_trans new pc1 pc2 pc3 : pstep new pc1 pc2 -> pstep new pc2 pc3 -> pstep new pc1 pc3.
Proof.
  intros ([_ R1 M1] & S1 & I1) ([T2 R2 M2] & S2 & I2). split; [|split; [lia|congruence]].
  split; [done|auto|]. intros q [[?|?]%M1|?]%M2; auto.
Qed.

Lemma pstep_set_tree new pc t : tstep new (tree pc) t -> pstep new pc (PC.set_tree t pc).
Proof. intros Ht. split; [done|]. simpl. split; [lia|done]. Qed.

Lemma upd_ok new (f : Chain -> outcome Chain) :
  (forall pc pc', tiled (tree pc) -> f pc = Done pc' -> pstep new pc pc') -> chain_ok new (upd f).
Proof. intros Hf pc x pc' Ht Hs. unfold upd in Hs. inv_done. by apply Hf. Qed.

Lemma point_quiet t p k x :
  RT.set_point_as t p k = Done x -> tiled t -> k <> Ret -> k <> RT.Skip -> tstep quiet t x.2.
Proof.
  destruct x as [b t']. intros Hs Ht H1 H2. destruct (set_point_tiled t p k b t' Ht ltac:(done) Hs) as [[? ? Hm] _].
  split; [done..|]. intros q [?|[_ [?|?]]]%Hm; [by left|done..].
Qed.

Lemma got_read_ok i : chain_ok quiet (fun pc => PC.got_read pc i).
Proof.
  intros pc b pc' Ht Hs. unfold PC.got_read, RT.set_point_as_recvd in Hs. inv_done.
  apply pstep_set_tree. by eapply point_quiet.
Qed.

Lemma overread_at_ok i : chain_ok quiet (upd (fun pc => PC.overread_at pc i)).
Proof.
  apply upd_ok. intros pc pc' Ht Hs. unfold PC.overread_at, RT.set_point_as_none in Hs. inv_done.
  apply pstep_set_tree. by eapply point_quiet.
Qed.

Lemma already_fetched_ok pc i pc' :
  tiled (tree pc) -> PC.mark_as_already_fetched pc i = Done pc' -> pstep quiet pc pc'.
Proof.
  intros Ht Hs. unfold PC.mark_as_already_fetched, RT.set_point_as_recvd in Hs. inv_done.
  apply pstep_set_tree. by eapply point_quiet.
Qed.

Lemma skippable_ok pc i pc' :
  tiled (tree pc) -> PC.mark_as_skippable pc i = Done pc' -> pstep (fun q => q = i) pc pc'.
Proof.
  intros Ht Hs. unfold PC.mark_as_skippable, RT.set_point_as_skip in Hs. inv_done.
  apply pstep_set_tree. match goal with Hs : RT.set_point_as _ _ _ = Done ?x |- _ => destruct x as [b t'];
    destruct (set_point_tiled _ i RT.Skip b t' Ht ltac:(done) Hs) as [[? ? Hm] _] end.
  split; [done..|]. intros q [?|[? _]]%Hm; [by left|by right].
Qed.

Lemma early_sentinel_ok pc id i pc' :
  tiled (tree pc) -> PC.add_early_sentinel pc id i = Done pc' -> pstep (fun q => q = i) pc pc'.
Proof.
  intros Ht Hs. unfold PC.add_early_sentinel in Hs. inv_done.
  apply skippable_ok in Hs; [|done]. eapply pstep_trans; [|exact Hs]. by apply pstep_same.
Qed.

Lemma fetching_ok low high : chain_ok quiet (upd (fun pc => PC.fetching_range pc low high tt)).
Proof.
  apply upd_ok. intros pc pc' Ht Hs. unfold PC.fetching_range in Hs. inv_done.
  apply set_range_tiled in H1; [|by destruct (PC.is_being_read pc)].
  apply (pstep_trans _ _ (match PC.is_being_read pc with
    | None => PC.set_read (Some (PC.read_state_new tt)) pc | Some _ => pc end)).
  - apply pstep_same; [done|by destruct (PC.is_being_read pc)..|]. by destruct (PC.is_being_read pc).
  - by apply pstep_set_tree.
Qed.

Lemma horizon_ok pc n : tiled (tree pc) -> pstep quiet pc (PC.update_horizon pc n).2.
Proof.
  intros Ht. unfold PC.update_horizon. destruct (Z.ltb_spec (PC.last_snapshot pc) n); [|by apply pstep_same].
  destruct (PC.entry_is_unblocked _ _ _); apply pstep_same; simpl; done || lia.
Qed.

Lemma increment_horizon_ok : chain_ok quiet PC.increment_horizon.
Proof.
  intros pc x pc' Ht Hs. unfold PC.increment_horizon in Hs. inv_done.
  pose proof (horizon_ok pc x0 Ht) as Hh. by rewrite Hs in Hh.
Qed.

Lemma new_snapshot_ok n : chain_ok quiet (fun pc => PC.give_new_snapshot pc n).
Proof.
  intros pc x pc' Ht Hs. unfold PC.give_new_snapshot, PC.decrement_outstanding_snapshots in Hs. inv_done.
  set (pc1 := PC.set_read _ pc) in Hs. cbn [snd] in Hs.
  assert (Hpc1 : pstep quiet pc pc1) by by apply pstep_same.
  destruct (n <=? PC.last_snapshot pc1).
  - injection Hs as <- <-. eapply pstep_trans; [exact Hpc1|]. case_match; by apply pstep_same.
  - eapply pstep_trans; [exact Hpc1|]. pose proof (horizon_ok pc1 n Ht) as Hh. injection Hs as Hs. by rewrite Hs in Hh.
Qed.

Lemma more_snapshots_ok : chain_ok quiet (fun pc => PC.increment_outstanding_snapshots pc tt).
Proof. intros pc x pc' Ht Hs. unfold PC.increment_outstanding_snapshots in Hs. inv_done. by apply pstep_same. Qed.

Lemma block_on_snapshot_ok val : chain_ok quiet (upd (fun pc => PC.block_on_snapshot pc val)).
Proof. apply upd_ok. intros pc pc' Ht Hs. unfold PC.block_on_snapshot in Hs. inv_done. by apply pstep_same. Qed.

Lemma decrement_multi_ok : chain_ok quiet (upd PC.decrement_multi_search).
Proof.
  apply upd_ok. intros pc pc' Ht Hs. unfold PC.decrement_multi_search in Hs. inv_done.
  case_match; by apply pstep_same.
Qed.

Lemma increment_multi_ok pc pc' :
  tiled (tree pc) -> PC.increment_multi_search pc tt = Done pc' -> pstep quiet pc pc'.
Proof. intros Ht Hs. unfold PC.increment_multi_search in Hs. inv_done. by apply pstep_same. Qed.

Lemma finished_reading_ok :
  chain_ok quiet (upd (fun pc => _ ← debug_assert (PC.is_finished pc); PC.set_finished_reading pc)).
Proof. apply upd_ok. intros pc pc' Ht Hs. unfold PC.set_finished_reading in Hs. inv_done. by apply pstep_same. Qed.

Lemma set_point_bound t p k b t' :
  tiled t -> RT.set_point_as t p k = Done (b, t') -> 0 <= p <= u64_max.
Proof.
  intros Ht Hs. unfold RT.set_point_as, remove_from_map in Hs.
  apply bind_done in Hs as ([[r old] m] & E%unwrap_done & _).
  destruct (bt_remove_inv _ _ _ _ _ _ _ (td_tiles t Ht) E) as (l1 & l2 & El & _ & Hp).
  apply (holds_bound 0 u64_max (RT.inner t) p old (td_tiles t Ht)). exists r. rewrite El. split; [set_solver|done].
Qed.

(** An index is returned right after the one before it, and not twice. *)
Lemma set_returned_ok pc i pc' :
  tiled (tree pc) -> PC.set_returned pc i = Done pc' ->
  pstep (fun q => q = i) pc pc' /\ is_ret (tree pc') i /\ ~ is_ret (tree pc) i /\
  is_ret (tree pc) (i - 1) /\ 0 < i <= PC.last_snapshot pc.
Proof.
  intros Ht Hs. unfold PC.set_returned, PC.next_return_is, RT.next_return_is, RT.set_point_as_returned in Hs.
  inv_done. destruct x4 as [b t']. cbn [fst snd] in *. subst b.
  pose proof (set_point_bound _ _ _ _ _ Ht H5) as Hi. pose proof (td_tiles _ Ht) as Htl.
  assert (Hnot : ~ is_ret (tree pc) i).
  { intros Hr. apply (bt_get_holds _ _ _ _ _ Htl) in Hr. rewrite Hr in H1. by destruct (bt_get _ _) as [[]|]. }
  assert (i <> 0) by (intros ->; by apply Hnot, td_zero).
  rewrite sub64_ok in H3 by (unfold in_u64; lia). injection H3 as <-.
  assert (Hprev : is_ret (tree pc) (i - 1)).
  { apply (bt_get_holds _ _ _ _ _ Htl). destruct (bt_get _ (point (i - 1))) as [[]|], (bt_get _ _) as [[]|]; done. }
  destruct (set_point_tiled _ i Ret true t' Ht (fun _ => Hprev) H5) as [[? ? Hm] Hret].
  assert (Hp : pstep (fun q => q = i) pc (PC.set_tree t' pc)).
  { apply pstep_set_tree. split; [done..|]. intros q [?|[? _]]%Hm; [by left|by right]. }
  split; [|split; [|split; [done|split; [done|lia]]]].
  - destruct (PC.is_finished _); [|done]. eapply pstep_trans; [exact Hp|]. by apply pstep_same.
  - destruct (PC.is_finished _); by apply Hret.
Qed.

End Chain.

(** ** The log *)

Abbreviation tree := (PC.read_status (U := Z) (B := Ref) (RH := unit)).
Abbreviation quiet := (fun _ : Z => False).

(** The places returned so far, of all chains and of one. *)
Definition places (s : ThreadLog) : list OrderIndex := (returned s).*1.
Definition places_of (o : Z) (s : ThreadLog) : list Z :=
  oi_entry <$> filter (fun l => oi_order l = o) (places s).

(** The entries the application was sent. *)
Definition entries (rs : list Returned) : list Ref :=
  omap (fun r => match r with RetEntry val => Some val | _ => None end) rs.

(** *** Returned together

    The record of the returned places, by entries: a group is the places that one entry was
    returned for at once.  An entry of one chain is returned place by place; so is a multi-append
    that is read at each of its places apart ([NoRemote]).  Any other entry is returned at once for
    the places before its separator: for all that are in chains the application is interested in,
    and for those that are in other chains the client reads. *)
Fixpoint before_separator (ls : list OrderIndex) : list OrderIndex :=
  match ls with [] => [] | l :: ls => if oi_order l =? 0 then [] else l :: before_separator ls end.

Definition interests (s : ThreadLog) (o : Z) : bool :=
  match per_chains s !! o with Some pc => PC.is_interesting pc | None => false end.

Definition apart (style : NoRemoteStyle) (val : Ref) : bool :=
  match EntryKind.layout (Packets.kind val), Packets.flag val with
  | Done EntryKind.EntryLayout.Data, _ => true
  | Done EntryKind.EntryLayout.Multiput, Done flag =>
      negb (bool_decide (style = Atomic)) && EntryFlag.contains flag EntryFlag.NoRemote
  | _, _ => false
  end.

Abbreviation Group := (list OrderIndex * Ref)%type.

Definition group_ok (style : NoRemoteStyle) (int : Z -> bool) (g : Group) : Prop :=
  apart style g.2 = true /\ length g.1 = 1%nat \/
  exists ls, Packets.locs g.2 = Done ls /\ g.1 `sublist_of` before_separator ls /\
    forall l, l ∈ before_separator ls -> int (oi_order l) = true -> l ∈ g.1.

Definition of_group (g : Group) : list (OrderIndex * Ref) := (fun l => (l, g.2)) <$> g.1.

(** The entries that are to be sent: once for each group with a place the application is interested in. *)
Definition to_show (int : Z -> bool) (gs : list Group) : list Ref :=
  (filter (fun g : Group => existsb (fun l => int (oi_order l)) g.1 = true) gs).*2.

(** [returned] falls into groups, the last of them, [pend], not finished; the entries of the others
    were sent. *)
Definition grouped (style : NoRemoteStyle) (pend : option Group) (s : ThreadLog) : Prop :=
  exists gs, Forall (group_ok style (interests s)) gs /\ returned s = (gs ++ option_list pend) ≫= of_group /\
    entries (ready_reads s) `prefix_of` to_show (interests s) gs /\
    (reader_gone s = false -> entries (ready_reads s) = to_show (interests s) gs).

Lemma to_show_ext int int' gs : (forall o, int o = int' o) -> to_show int gs = to_show int' gs.
Proof.
  intros E. unfold to_show. f_equal. apply list_filter_iff. intros g.
  assert (existsb (fun l => int (oi_order l)) g.1 = existsb (fun l => int' (oi_order l)) g.1) as ->; [|done].
  induction g.1 as [|l ls IH]; simpl; [done|]. by rewrite E, IH.
Qed.

Lemma grouped_ext style pend s s' :
  (forall o, interests s' o = interests s o) -> returned s' = returned s ->
  entries (ready_reads s') = entries (ready_reads s) -> (reader_gone s' = false -> reader_gone s = false) ->
  grouped style pend s -> grouped style pend s'.
Proof.
  intros E1 E2 E3 E4 (gs & H1 & H2 & H3 & H4). exists gs. rewrite E2, E3, (to_show_ext _ _ gs E1). split_and!; auto.
  eapply Forall_impl; [exact H1|]. intros g [?|(ls & Hl & Hs & Hall)]; [by left|right].
  exists ls. split_and!; [done..|]. intros l. rewrite E1. apply Hall.
Qed.

Lemma interests_insert s o pc pc' :
  per_chains s !! o = Some pc -> PC.is_interesting pc' = PC.is_interesting pc ->
  forall o', interests (set_chains (<[o := pc']> (per_chains s)) s) o' = interests s o'.
Proof.
  intros Hpc E o'. unfold interests. simpl. destruct (decide (o' = o)) as [->|Hne].
  - by rewrite lookup_insert_eq, Hpc.
  - by rewrite lookup_insert_ne.
Qed.

(** What is shared under a name stays what it is. *)
Definition rc_is (tr : option (nat * Ref)) (s : ThreadLog) : Prop :=
  match tr with
  | Some (k, val) => (k < next_rc s)%nat /\ forall n v, rcs s !! k = Some (n, v) -> v = val
  | None => True
  end.

(** The invariant; [pend] is an entry some places of which are marked as returned, but which is
    still to be sent; [tr] a shared entry that is kept track of. *)
Record log_inv (style : NoRemoteStyle) (tr : option (nat * Ref)) (pend : option Group) (s : ThreadLog) : Prop := {
  li_tiled : forall o pc, per_chains s !! o = Some pc -> tiled (tree pc);
  li_marked : forall o pc q, per_chains s !! o = Some pc -> is_marked (tree pc) q ->
    q = 0 \/ mkOI o q ∈ places s \/ mkOI o q ∈ skipped s;
  li_ret : forall l, l ∈ places s -> exists pc, per_chains s !! oi_order l = Some pc /\
    is_ret (tree pc) (oi_entry l) /\ 0 < oi_entry l <= PC.last_snapshot pc;
  li_sorted : forall o, StronglySorted Z.lt (places_of o s);
  li_grouped : grouped style pend s;
  li_style : no_remote_style s = style;
  li_rc : rc_is tr s;
}.

(** Only these parts of the state matter. *)
Definition same_view (s s' : ThreadLog) : Prop :=
  per_chains s' = per_chains s /\ returned s' = returned s /\ skipped s' = skipped s /\
  entries (ready_reads s') = entries (ready_reads s) /\ (reader_gone s' = false -> reader_gone s = false) /\
  no_remote_style s' = no_remote_style s /\ (forall tr, rc_is tr s -> rc_is tr s').

Section Inv.
Context (style : NoRemoteStyle).

Abbreviation log_inv := (log_inv style).
Abbreviation li_tiled := (li_tiled style _).
Abbreviation li_marked := (li_marked style _).
Abbreviation li_ret := (li_ret style _).

Lemma inv_view tr pend s s' : same_view s s' -> log_inv tr pend s -> log_inv tr pend s'.
Proof.
  intros (E1 & E2 & E3 & E4 & E5 & E6 & E7) HI.
  assert (Ep : places s' = places s) by (unfold places; by rewrite E2).
  split; rewrite ?E1, ?E3, ?Ep; try apply HI.
  - intros o. unfold places_of. rewrite Ep. apply HI.
  - apply (grouped_ext _ _ s); [|done..|apply HI]. intros o. unfold interests. by rewrite E1.
  - rewrite E6. apply HI.
  - apply E7, HI.
Qed.

(** A chain makes a step that marks nothing but what is recorded as skipped. *)
Lemma inv_chain tr pend s o pc pc' new sk :
  log_inv tr pend s -> per_chains s !! o = Some pc -> pstep new pc pc' ->
  (forall q, new q -> mkOI o q ∈ sk) ->
  log_inv tr pend (set_skipped (skipped s ++ sk) (set_chains (<[o := pc']> (per_chains s)) s)).
Proof.
  intros HI Hpc ([Ht Hr Hm] & Hsn & Hin) Hnew. split; simpl; try apply HI.
  - intros o' pc1. destruct (decide (o' = o)) as [->|Hne].
    + rewrite lookup_insert_eq. by intros [= <-].
    + rewrite lookup_insert_ne by done. apply HI.
  - intros o' pc1 q. destruct (decide (o' = o)) as [->|Hne].
    + rewrite lookup_insert_eq. intros [= <-] [Hq|Hq]%Hm.
      * destruct (li_marked _ _ HI o pc q Hpc Hq) as [?|[?|?]]; [auto..|right; right]. set_solver.
      * right; right. apply elem_of_app. right. auto.
    + rewrite lookup_insert_ne by done. intros Hp Hq.
      destruct (li_marked _ _ HI o' pc1 q Hp Hq) as [?|[?|?]]; [auto..|right; right]. set_solver.
  - intros l Hl. destruct (li_ret _ _ HI l Hl) as (pc1 & Hp & Hret & Hb).
    destruct (decide (oi_order l = o)) as [E|Hne].
    + rewrite E in *. rewrite Hpc in Hp. injection Hp as <-. exists pc'.
      rewrite lookup_insert_eq. split; [done|]. split; [by apply Hr|lia].
    + exists pc1. by rewrite lookup_insert_ne by done.
  - apply (grouped_ext _ _ s); [|done..|apply HI]. exact (interests_insert s o pc pc' Hpc Hin).
Qed.

Lemma inv_quiet tr pend s o pc pc' :
  log_inv tr pend s -> per_chains s !! o = Some pc -> pstep quiet pc pc' ->
  log_inv tr pend (set_chains (<[o := pc']> (per_chains s)) s).
Proof.
  intros HI Hpc Hst. eapply inv_view; [|exact (inv_chain tr pend s o pc pc' quiet [] HI Hpc Hst ltac:(done))].
  split_and!; try done. simpl. by rewrite app_nil_r.
Qed.

Lemma new_tiled : tiled RT.new.
Proof.
  split; [apply RT.new_ok..|]. intros q q' (r & [[= ->]|[[= ]|[]%elem_of_nil]%elem_of_cons]%elem_of_cons & Hq) ?.
  simpl in Hq. replace q' with 0 by lia. apply RT.new_ok.
Qed.

Lemma new_marked q : is_marked RT.new q -> q = 0.
Proof.
  intros [(r & Hin & Hq)|(r & Hin & Hq)];
    apply elem_of_cons in Hin as [[= ->]|[[= ]|[]%elem_of_nil]%elem_of_cons]; simpl in *; lia.
Qed.

(** A new chain, which nobody is interested in. *)
Lemma inv_new_chain tr pend s o :
  log_inv tr pend s -> per_chains s !! o = None -> log_inv tr pend (set_chains (<[o := PC.new o]> (per_chains s)) s).
Proof.
  intros HI Hnone. split; simpl; try apply HI.
  - intros o' pc. destruct (decide (o' = o)) as [->|Hne].
    + rewrite lookup_insert_eq. intros [= <-]. apply new_tiled.
    + rewrite lookup_insert_ne by done. apply HI.
  - intros o' pc q. destruct (decide (o' = o)) as [->|Hne].
    + rewrite lookup_insert_eq. intros [= <-] Hq. left. by apply new_marked.
    + rewrite lookup_insert_ne by done. apply HI.
  - intros l Hl. destruct (li_ret _ _ HI l Hl) as (pc & Hp & ?). exists pc. split; [|done].
    rewrite lookup_insert_ne; [done|]. intros E. by rewrite E, Hp in Hnone.
  - apply (grouped_ext _ _ s); [|done..|apply HI]. intros o'. unfold interests. simpl. destruct (decide (o' = o)) as [->|Hne].
    + by rewrite lookup_insert_eq, Hnone.
    + by rewrite lookup_insert_ne.
Qed.

Section LogInv.
Context `{Build}.

(** The next place of a chain is marked as returned. *)
Lemma inv_mark tr ls s o (pc pc' : Chain) i val :
  log_inv tr (Some (ls, val)) s -> per_chains s !! o = Some pc -> PC.set_returned pc i = Done pc' ->
  log_inv tr (Some (ls ++ [mkOI o i], val))
    (set_trace (returned s ++ [(mkOI o i, val)]) (set_chains (<[o := pc']> (per_chains s)) s)).
Proof.
  intros HI Hpc Hset.
  destruct (set_returned_ok pc i pc' (li_tiled _ _ HI o pc Hpc) Hset)
    as (([Ht Hr Hm] & Hsn & Hin) & Hri & Hnot & Hprev & Hi).
  assert (Hpl : places (set_trace (returned s ++ [(mkOI o i, val)]) (set_chains (<[o := pc']> (per_chains s)) s))
                = places s ++ [mkOI o i]).
  { unfold places. simpl. by rewrite fmap_app. }
  split; simpl; rewrite ?Hpl.
  - intros o' pc1. destruct (decide (o' = o)) as [->|Hne].
    + rewrite lookup_insert_eq. by intros [= <-].
    + rewrite lookup_insert_ne by done. apply HI.
  - intros o' pc1 q. destruct (decide (o' = o)) as [->|Hne].
    + rewrite lookup_insert_eq. intros [= <-] [Hq| ->]%Hm; [|right; left; set_solver].
      destruct (li_marked _ _ HI o pc q Hpc Hq) as [?|[?|?]]; [auto| |auto]. right; left. set_solver.
    + rewrite lookup_insert_ne by done. intros Hp Hq.
      destruct (li_marked _ _ HI o' pc1 q Hp Hq) as [?|[?|?]]; [auto| |auto]. right; left. set_solver.
  - intros l [Hl| ->%list_elem_of_singleton]%elem_of_app; [|exists pc'; rewrite lookup_insert_eq; simpl; split_and!; done || lia].
    destruct (li_ret _ _ HI l Hl) as (pc1 & Hp & Hret & Hb).
    destruct (decide (oi_order l = o)) as [E|Hne].
    + rewrite E in *. rewrite Hpc in Hp. injection Hp as <-. exists pc'.
      rewrite lookup_insert_eq. split; [done|]. split; [by apply Hr|lia].
    + exists pc1. by rewrite lookup_insert_ne by done.
  - intros o'. unfold places_of. rewrite Hpl, filter_app, fmap_app.
    destruct (decide (o' = o)) as [->|Hne].
    + rewrite filter_cons_True, filter_nil by done. apply StronglySorted_snoc; [apply HI|].
      intros y (l & -> & [E Hl]%list_elem_of_filter)%list_elem_of_fmap. simpl.
      destruct (li_ret _ _ HI l Hl) as (pc1 & Hp & Hret & Hb). rewrite E, Hpc in Hp. injection Hp as <-.
      destruct (decide (oi_entry l < i)) as [?|?]; [done|]. exfalso. apply Hnot.
      apply (td_down _ (li_tiled _ _ HI o pc Hpc) (oi_entry l)); [done|lia].
    + rewrite filter_cons_False, filter_nil by (simpl; congruence). rewrite app_nil_r. apply HI.
  - destruct (li_grouped _ _ _ _ HI) as (gs & H1 & H2 & H3 & H4). pose proof (interests_insert s o pc pc' Hpc Hin) as Hint.
    set (s' := set_trace _ _). change (forall o', interests s' o' = interests s o') in Hint.
    exists gs. rewrite (to_show_ext _ _ gs Hint). split_and!; [|simpl; rewrite H2|done..].
    + eapply Forall_impl; [exact H1|]. intros g [?|(all & Hl & Hs & Hall)]; [by left|right].
      exists all. split_and!; [done..|]. intros l. rewrite Hint. apply Hall.
    + rewrite !bind_app. simpl. unfold of_group at 4. simpl. by rewrite fmap_app, !app_nil_r, app_assoc.
  - apply HI.
  - apply HI.
Qed.

(** *** Functions that keep the invariant *)

Definition triple {X} (p : option Group) (m : L X) (q : X -> option Group) : Prop :=
  forall tr s s' x, log_inv tr p s -> m s = Done (s', x) -> log_inv tr (q x) s'.

Abbreviation keeps p m := (triple p m (fun _ => p)).

Lemma bind_L {X Y} (m : L X) (k : X -> L Y) s s' y :
  (m ≫= k) s = Done (s', y) -> exists s1 x, m s = Done (s1, x) /\ k x s1 = Done (s', y).
Proof. unfold mbind, L_bind. destruct (m s) as [[s1 x]|]; [|done]. intros. by exists s1, x. Qed.

Lemma triple_bind {X Y} p (m : L X) q (k : X -> L Y) r :
  triple p m q -> (forall x, triple (q x) (k x) r) -> triple p (m ≫= k) r.
Proof. intros Hm Hk tr s s' y HI (s1 & x & H1 & H2)%bind_L. eapply Hk; [|done]. by eapply Hm. Qed.

Lemma keeps_bind {X Y} p (m : L X) (k : X -> L Y) q :
  keeps p m -> (forall x, triple p (k x) q) -> triple p (m ≫= k) q.
Proof. apply triple_bind. Qed.

Lemma triple_ret {X} p (x : X) (q : X -> option Group) : q x = p -> triple p (mret x) q.
Proof. intros E tr s s' y HI [= <- <-]. by rewrite E. Qed.

Lemma keeps_ret {X} p (x : X) : keeps p (mret x).
Proof. by apply triple_ret. Qed.

Lemma keeps_pure {X} p (o : outcome X) : keeps p (pure o).
Proof. intros tr s s' x HI Hs. unfold pure in Hs. destruct o; [|done]. by injection Hs as <- _. Qed.

Lemma keeps_get {X} p (f : ThreadLog -> X) : keeps p (get f).
Proof. intros tr s s' x HI [= <- _]. done. Qed.

Lemma keeps_modify p f : (forall s, same_view s (f s)) -> keeps p (modify f).
Proof. intros Hf tr s s' x HI [= <- _]. by eapply inv_view. Qed.

Lemma keeps_when p b m : keeps p m -> keeps p (when b m).
Proof. destruct b; [done|]. intros _. apply keeps_ret. Qed.

Lemma keeps_for_each {X} p (xs : list X) f : (forall x, keeps p (f x)) -> keeps p (for_each xs f).
Proof. intros Hf. induction xs; simpl; [apply keeps_ret|]. by apply keeps_bind. Qed.

Lemma keeps_on_chain {X} p o (f : Chain -> outcome (X * Chain)) : chain_ok quiet f -> keeps p (on_chain o f).
Proof.
  intros Hf tr s s' x HI Hs. unfold on_chain in Hs. destruct (per_chains s !! o) as [pc|] eqn:E.
  - apply bind_done in Hs as ([y pc'] & Hy & [= <- _]).
    eapply inv_quiet; [done..|]. eapply Hf; [|done]. by eapply li_tiled.
  - by injection Hs as <- _.
Qed.

Lemma keeps_chain_or_new p o : keeps p (chain_or_new o).
Proof.
  intros tr s s' x HI Hs. unfold chain_or_new in Hs. destruct (per_chains s !! o) eqn:E; injection Hs as <- _; [done|].
  by apply inv_new_chain.
Qed.

Lemma keeps_mark_skipped p o i f :
  (forall pc pc', tiled (tree pc) -> f pc = Done pc' -> pstep (fun q => q = i) pc pc') ->
  keeps p (mark_skipped o i f).
Proof.
  intros Hf tr s s' x HI Hs. unfold mark_skipped in Hs. apply bind_L in Hs as (s1 & y & Hy & Hs).
  injection Hs as <- _. unfold on_chain in Hy. destruct (per_chains s !! o) as [pc|] eqn:E.
  - apply bind_done in Hy as ([[] pc'] & Hu & [= <- _]). unfold upd in Hu. inv_done.
    eapply inv_view; [|eapply (inv_chain tr p s o pc pc' _ [mkOI o i]); [done..|eapply Hf; [by eapply li_tiled|done]|]].
    + by split_and!.
    + intros q ->. set_solver.
  - injection Hy as <- _. split; try apply HI. intros o' pc q Hp Hq.
    destruct (li_marked _ _ HI o' pc q Hp Hq) as [?|[?|?]]; [auto..|right; right]. simpl. set_solver.
Qed.

Lemma mark_returned_spec tr ls o i val s s' b :
  log_inv tr (Some (ls, val)) s -> mark_returned o i val s = Done (s', b) ->
  log_inv tr (Some (ls ++ [mkOI o i], val)) s' /\ b = interests s' o /\ (forall o', interests s' o' = interests s o').
Proof.
  intros HI Hs. unfold mark_returned in Hs. apply bind_L in Hs as (s1 & y & Hy & Hs).
  apply bind_L in Hs as (s2 & b' & Hb & Hs). apply bind_L in Hs as (s3 & [] & Hm & Hs).
  injection Hs as <- <-. injection Hm as <-. unfold pure in Hb. apply bind_done in Hb as (b'' & ->%unwrap_done & [= <- <-]).
  unfold on_chain in Hy. destruct (per_chains s !! o) as [pc|] eqn:E; [|done].
  apply bind_done in Hy as ([b1 pc'] & Hu & [= <- ->]). apply bind_done in Hu as (pc1 & Hset & [= <- <-]).
  split; [exact (inv_mark tr ls s o pc pc1 i val HI E Hset)|]. split.
  - unfold interests. simpl. by rewrite lookup_insert_eq.
  - destruct (set_returned_ok pc i pc1 (li_tiled _ _ HI o pc E) Hset) as ((_ & _ & Hin) & _).
    exact (interests_insert s o pc pc1 E Hin).
Qed.

Lemma triple_run {X} tr p (m : L X) s s' x : log_inv tr p s -> m s = Done (s', x) -> keeps p m -> log_inv tr p s'.
Proof. intros HI Hs Hm. by eapply Hm. Qed.

(** *** The rules, applied *)

Create HintDb keeps.
Hint Resolve keeps_ret keeps_pure keeps_get keeps_chain_or_new : keeps.
Hint Resolve got_read_ok overread_at_ok fetching_ok increment_horizon_ok new_snapshot_ok more_snapshots_ok
  block_on_snapshot_ok decrement_multi_ok finished_reading_ok : keeps.

Ltac keep :=
  repeat (intros; cbn beta iota;
    first
      [ solve [eauto 2 with keeps]
      | apply keeps_bind
      | apply keeps_when
      | apply keeps_for_each
      | apply keeps_modify; intros; by split_and!
      | apply keeps_on_chain; solve [eauto 2 with keeps]
      | match goal with |- triple _ (match ?x with _ => _ end) _ => destruct x end ]).

Lemma keeps_skip p o i : keeps p (mark_skipped o i (fun pc => PC.mark_as_skippable pc i)).
Proof. apply keeps_mark_skipped. intros pc pc'. apply skippable_ok. Qed.
Lemma keeps_early_sentinel p o id i : keeps p (mark_skipped o i (fun pc => PC.add_early_sentinel pc id i)).
Proof. apply keeps_mark_skipped. intros pc pc'. apply early_sentinel_ok. Qed.
Hint Resolve keeps_skip keeps_early_sentinel : keeps.

Lemma keeps_try_send_store p r : keeps p (try_send_store r).
Proof. unfold try_send_store. keep. Qed.
Lemma keeps_send_store p r : keeps p (send_store r).
Proof. unfold send_store. keep. Qed.

(** Anything but an entry may be sent at any time. *)
Lemma keeps_send_other p r :
  (forall val, r <> RetEntry val) -> keeps p (try_send_ready r) /\ keeps p (send_ready r).
Proof.
  intros Hr. assert (Hv : forall s, same_view s (set_ready (ready_reads s ++ [r]) s)).
  { intros s. split_and!; try done; simpl. unfold entries. rewrite omap_app; simpl.
    destruct r as [v| | |]; [by destruct (Hr v)|by rewrite app_nil_r..]. }
  split; unfold try_send_ready, send_ready; keep; by apply keeps_modify.
Qed.

(** A group is finished: its entry is sent when the application is interested in a place of it. *)
Lemma finish_group tr ls val s s' x :
  log_inv tr (Some (ls, val)) s -> group_ok style (interests s) (ls, val) ->
  when (existsb (fun l => interests s (oi_order l)) ls) (try_send_ready (RetEntry val)) s = Done (s', x) ->
  log_inv tr None s'.
Proof.
  intros HI Hg Hs. destruct (li_grouped _ _ _ _ HI) as (gs & H1 & H2 & H3 & H4).
  assert (Hshow : to_show (interests s) (gs ++ [(ls, val)]) = to_show (interests s) gs ++
            (if existsb (fun l => interests s (oi_order l)) ls then [val] else [])).
  { unfold to_show. rewrite filter_app, fmap_app. f_equal. simpl.
    destruct (existsb _ ls) eqn:E; [by rewrite filter_cons_True|by rewrite filter_cons_False, filter_nil by (simpl; congruence)]. }
  assert (Hret : returned s = ((gs ++ [(ls, val)]) ++ []) ≫= of_group) by (by rewrite app_nil_r).
  assert (Hall : Forall (group_ok style (interests s)) (gs ++ [(ls, val)])) by (apply Forall_app; split; [done|by apply Forall_singleton]).
  destruct (existsb _ ls); cbn [when] in Hs; cycle 1.
  { injection Hs as <- _. split; try apply HI. exists (gs ++ [(ls, val)]). rewrite Hshow, (app_nil_r (to_show _ _)). by split_and!. }
  unfold try_send_ready in Hs. apply bind_L in Hs as (s1 & gone & [= <- <-] & Hs).
  destruct (reader_gone s) eqn:Eg; injection Hs as <- _; split; try apply HI; exists (gs ++ [(ls, val)]);
    (split; [exact Hall|]); (split; [exact Hret|]);
    rewrite (to_show_ext _ (interests s)), Hshow by done; simpl.
  - split; [by apply prefix_app_r|]. by rewrite Eg.
  - unfold entries. rewrite omap_app. simpl. fold (entries (ready_reads s)). by rewrite (H4 eq_refl).
Qed.

Lemma rc_is_set (tr : option (nat * Ref)) s m k n v n' v' :
  rcs s !! k = Some (n, v) -> (m = delete k (rcs s) \/ m = <[k := (n', v')]> (rcs s) /\ v' = v) ->
  rc_is tr s -> rc_is tr (set_rcs m (next_rc s) s).
Proof.
  intros Hk Hm. destruct tr as [[k' val]|]; [|done]. intros [Hlt Hv]. split; [done|]. simpl. intros n1 v1.
  destruct Hm as [->|[-> ->]]; (destruct (decide (k' = k)) as [->|Hne];
    [rewrite ?lookup_delete_eq, ?lookup_insert_eq|rewrite ?lookup_delete_ne, ?lookup_insert_ne by done; apply Hv]); [done|].
  intros [= <- <-]. by eapply Hv.
Qed.

Lemma keeps_rc_new p val : keeps p (rc_new val).
Proof.
  intros tr s s' x HI [= <- _]. eapply inv_view; [|done]. split_and!; try done.
  intros [[k v]|]; [|done]. intros [Hlt Hv]. split; simpl; [lia|]. intros n v'. rewrite lookup_insert_ne by lia. apply Hv.
Qed.
Lemma keeps_rc_get p rc : keeps p (rc_get rc).
Proof. intros tr s s' x HI Hs. unfold rc_get in Hs. by apply bind_done in Hs as ([] & _ & [= <- _]). Qed.
Lemma keeps_rc_clone p rc : keeps p (rc_clone rc).
Proof.
  intros tr s s' x HI Hs. unfold rc_clone in Hs. apply bind_done in Hs as ([n v] & Hk%unwrap_done & [= <- _]).
  eapply inv_view; [|done]. split_and!; try done. intros tr'. eapply rc_is_set; [done|by right].
Qed.
Lemma keeps_rc_drop p rc : keeps p (rc_drop rc).
Proof.
  intros tr s s' x HI Hs. unfold rc_drop in Hs. apply bind_done in Hs as ([n v] & Hk%unwrap_done & [= <- _]).
  eapply inv_view; [|done]. split_and!; try done. intros tr'.
  destruct (n =? 1); (eapply rc_is_set; [done|]); [by left|by right].
  Unshelve. all: done.
Qed.
Lemma keeps_rc_try_unwrap p rc : keeps p (rc_try_unwrap rc).
Proof.
  intros tr s s' x HI Hs. unfold rc_try_unwrap in Hs. apply bind_done in Hs as ([n val] & Hk%unwrap_done & Hs).
  destruct (n =? 1); injection Hs as <- _; [|done]. eapply inv_view; [|done]. split_and!; try done.
  intros tr'. eapply (rc_is_set _ _ _ _ _ _ n val); [done|by left].
Qed.

Hint Resolve keeps_try_send_store keeps_send_store keeps_rc_new keeps_rc_get keeps_rc_clone keeps_rc_drop
  keeps_rc_try_unwrap : keeps.

Lemma keeps_block_on p loc rc : keeps p (block_on loc rc).
Proof. unfold block_on. keep. Qed.
Lemma keeps_saw p o i : keeps p (saw o i).
Proof. unfold saw. keep. Qed.
Lemma keeps_chain_get p o : keeps p (chain_get o).
Proof. apply keeps_get. Qed.
Hint Resolve keeps_block_on keeps_saw keeps_chain_get : keeps.

Lemma keeps_fetch_next p c low high : keeps p (fetch_next c low high).
Proof. unfold fetch_next. keep. Qed.
Hint Resolve keeps_fetch_next : keeps.
Lemma keeps_prefetch p c : keeps p (prefetch c).
Proof. unfold prefetch. keep. Qed.
Lemma keeps_enqueue p loc rc : keeps p (enqueue_packet loc rc).
Proof. unfold enqueue_packet. keep. Qed.
Hint Resolve keeps_prefetch keeps_enqueue : keeps.

(** *** Returning an entry *)

(** An entry is returned: its places are marked, which is noted, and it is sent. *)
Lemma finish_return {X} tr val (m : L bool) (note : bool -> gset Z -> L unit) (x y : X) s s' :
  log_inv tr None s ->
  (forall s1 b, m s = Done (s1, b) -> exists ls, log_inv tr (Some (ls, val)) s1 /\
     group_ok style (interests s1) (ls, val) /\ b = existsb (fun l => interests s1 (oi_order l)) ls) ->
  (forall b c s1 s2 u, note b c s1 = Done (s2, u) -> same_view s1 s2) ->
  (b ← m; colors ← get my_colors_chains; _ ← note b colors;
   _ ← when b (try_send_ready (RetEntry val)); mret x) s = Done (s', y) -> log_inv tr None s'.
Proof.
  intros HI Hm Hn Hs. apply bind_L in Hs as (s1 & b & H1 & Hs). destruct (Hm s1 b H1) as (ls & HI1 & Hg & ->).
  apply bind_L in Hs as (s2 & colors & [= <- <-] & Hs). apply bind_L in Hs as (s3 & u & H3%Hn & Hs).
  apply bind_L in Hs as (s4 & u' & H4 & [= <- _]).
  assert (Hint : interests s1 = interests s3) by (unfold interests; by rewrite (proj1 H3)).
  rewrite Hint in Hg, H4. by eapply finish_group; [eapply inv_view|..].
Qed.

(** Nothing is returned before the first place of an entry is marked. *)
Lemma open_group tr val s : log_inv tr None s -> log_inv tr (Some ([], val)) s.
Proof.
  intros HI. split; try apply HI. destruct (li_grouped _ _ _ _ HI) as (gs & H1 & H2 & H3). exists gs.
  split; [done|]. split; [|done]. by rewrite H2, !bind_app.
Qed.

Lemma saw_view o i s s' u : saw o i s = Done (s', u) -> same_view s s'.
Proof. intros [= <- _]. by split_and!. Qed.

Lemma same_view_refl s : same_view s s.
Proof. by split_and!. Qed.

Lemma same_view_trans s1 s2 s3 : same_view s1 s2 -> same_view s2 s3 -> same_view s1 s3.
Proof. intros (?&?&?&?&?&?&?) (?&?&?&?&?&?&?). split_and!; try congruence; auto. Qed.

Lemma when_saw_view b o i s s' u : when b (saw o i) s = Done (s', u) -> same_view s s'.
Proof. destruct b; [apply saw_view|]. intros [= <- _]. apply same_view_refl. Qed.

Lemma return_entry_at_spec tr loc val s s' r :
  apart style val = true -> log_inv tr None s -> return_entry_at loc val s = Done (s', r) -> log_inv tr None s'.
Proof.
  intros Ha HI Hs. unfold return_entry_at in Hs. apply bind_L in Hs as (s1 & c & [= <- <-] & Hs).
  destruct (per_chains s !! oi_order loc) as [pc|]; [|by injection Hs as <- _].
  destruct (PC.has_returned pc _); [by injection Hs as <- _|]. destruct (negb _).
  { apply bind_L in Hs as (s1 & y & Hy & [= <- _]). exact (keeps_on_chain None _ _ (block_on_snapshot_ok val) tr s s1 y HI Hy). }
  apply bind_L in Hs as (s1 & u & Hu & Hs). unfold pure in Hu. apply bind_done in Hu as (? & _ & [= <- _]).
  eapply (finish_return tr val (mark_returned (oi_order loc) (oi_entry loc) val)
    (fun b colors => when (b && bool_decide (oi_order loc ∈ colors)) (saw (oi_order loc) (oi_entry loc)))); [exact HI| | |exact Hs].
  - intros s1 b Hb. destruct (mark_returned_spec tr [] _ _ _ _ _ _ (open_group tr val s HI) Hb) as (HI1 & -> & _).
    eexists. split; [exact HI1|]. split; [by left|]. simpl. by rewrite orb_false_r.
  - intros b c s1 s2 u'. apply when_saw_view.
Qed.

Lemma keeps_check_return p ls c sb : keeps p (check_return ls c sb).
Proof. revert c sb. induction ls as [|l ls IH]; intros c sb; simpl; keep; apply IH. Qed.

Lemma mark_all_spec tr val ls acc b0 s s' b :
  log_inv tr (Some (acc, val)) s -> mark_all val ls b0 s = Done (s', b) ->
  exists new, log_inv tr (Some (acc ++ new, val)) s' /\ new `sublist_of` before_separator ls /\
    (forall l, l ∈ before_separator ls -> interests s' (oi_order l) = true -> l ∈ new) /\
    b = b0 || existsb (fun l => interests s' (oi_order l)) new /\ (forall o, interests s' o = interests s o).
Proof.
  revert acc b0 s. induction ls as [|l ls IH]; intros acc b0 s HI Hs; simpl in *.
  { injection Hs as <- <-. exists []. rewrite app_nil_r, orb_false_r. by split_and!. }
  destruct (oi_order l =? 0).
  { injection Hs as <- <-. exists []. rewrite app_nil_r, orb_false_r. by split_and!. }
  apply bind_L in Hs as (s1 & c & [= <- <-] & Hs). destruct (per_chains s !! oi_order l) as [pc|] eqn:E; cycle 1.
  { destruct (IH _ _ _ HI Hs) as (new & H1 & H2 & H3 & H4 & H5). exists new. split_and!; [done|by constructor| |done..].
    intros l' [->|Hl']%elem_of_cons; [|by apply H3]. rewrite H5. unfold interests. by rewrite E. }
  apply bind_L in Hs as (s1 & u & Hu & Hs). unfold pure in Hu. apply bind_done in Hu as (? & _ & [= <- _]).
  apply bind_L in Hs as (s1 & b1 & Hb & Hs).
  destruct (mark_returned_spec tr acc _ _ _ _ _ _ HI Hb) as (HI1 & -> & Hint). destruct l as [o i]. cbn [oi_order oi_entry] in *.
  destruct (IH _ _ _ HI1 Hs) as (new & H1 & H2 & H3 & -> & H5). exists (mkOI o i :: new). split_and!.
  - by rewrite cons_middle, app_assoc.
  - by constructor.
  - intros l' [->|Hl']%elem_of_cons; [by left|right; by apply H3].
  - simpl. by rewrite H5, orb_assoc.
  - intros o'. by rewrite H5.
Qed.

Hint Resolve keeps_check_return : keeps.

Lemma for_saw_view b colors (ls : list OrderIndex) s s' u :
  for_each ls (fun l => when (b && bool_decide (oi_order l ∈ (colors : gset Z))) (saw (oi_order l) (oi_entry l))) s = Done (s', u) ->
  same_view s s'.
Proof.
  revert s. induction ls as [|l ls IH]; intros s Hs; simpl in Hs; [injection Hs as <- _; apply same_view_refl|].
  apply bind_L in Hs as (s1 & x & H1%when_saw_view & H2%IH). by eapply same_view_trans.
Qed.

Lemma keeps_return_entry val : keeps None (return_entry val).
Proof.
  intros tr s s' r HI Hs. unfold return_entry in Hs. apply bind_L in Hs as (s1 & f & Hf & Hs).
  unfold pure in Hf. apply bind_done in Hf as (? & _ & [= <- _]).
  apply bind_L in Hs as (s1 & ls' & Hl & Hs). unfold pure in Hl. apply bind_done in Hl as (ls & Hl & [= <- <-]).
  apply bind_L in Hs as (s1 & [ok sb] & Hc & Hs). eapply keeps_check_return in Hc; [|exact HI]. clear HI.
  destruct (negb ok); [by injection Hs as <- _|]. destruct sb as [l|].
  { refine (triple_run _ _ _ _ _ _ Hc Hs _). keep. }
  eapply (finish_return tr val (mark_all val ls false) (fun b colors => for_each ls (fun l =>
    when (b && bool_decide (oi_order l ∈ colors)) (saw (oi_order l) (oi_entry l))))); [exact Hc| | |exact Hs].
  - intros s2 b Hb. destruct (mark_all_spec tr val ls [] false s1 s2 b (open_group tr val s1 Hc) Hb) as (new & H1 & H2 & H3 & H4 & _).
    exists new. split; [done|]. split; [|done]. right. by exists ls.
  - intros b c s2 s3 u. apply for_saw_view.
Qed.

Hint Resolve keeps_return_entry : keeps.

(** *** The handlers *)

Context (fuel : nat).

Lemma keeps_blocked_by loc : keeps None (try_return_blocked_by loc).
Proof. unfold try_return_blocked_by. keep. Qed.
Hint Resolve keeps_blocked_by : keeps.

Lemma keeps_unblock_rest n : keeps None (unblock_rest n).
Proof. induction n; simpl; keep. Qed.
Hint Resolve keeps_unblock_rest : keeps.

Lemma keeps_stop_blocking locs : keeps None (stop_blocking_on fuel locs).
Proof. unfold stop_blocking_on. keep. Qed.
Hint Resolve keeps_stop_blocking : keeps.

Lemma keeps_return_unblocked v : keeps None (return_unblocked fuel v).
Proof. unfold return_unblocked. keep. Qed.
Hint Resolve keeps_return_unblocked : keeps.

Lemma keeps_fetch_blocker c i : keeps None (fetch_blocker_at fuel c i).
Proof.
  unfold fetch_blocker_at. keep. apply keeps_on_chain. intros pc x pc' Ht Hs.
  pose proof (horizon_ok pc i Ht) as Hh. destruct (PC.update_horizon pc i) as [ub pc1].
  apply bind_done in Hs as (next & _ & [= <- <-]). exact Hh.
Qed.
Hint Resolve keeps_fetch_blocker : keeps.

Lemma keeps_block_on_deps deps rc : keeps None (block_on_deps fuel deps rc).
Proof. unfold block_on_deps. keep. Qed.
Lemma keeps_block_on_prior ls rc b1 b2 : keeps None (block_on_prior ls rc b1 b2).
Proof. revert b1 b2. induction ls as [|l ls IH]; intros b1 b2; simpl; keep; apply IH. Qed.
Hint Resolve keeps_block_on_deps keeps_block_on_prior : keeps.

Lemma keeps_add_blockers rc : keeps None (add_blockers fuel rc).
Proof. unfold add_blockers. keep. Qed.
Lemma keeps_add_blockers_at loc rc : keeps None (add_blockers_at fuel loc rc).
Proof. unfold add_blockers_at. keep. Qed.
Lemma keeps_wait_for ls rc b : keeps None (wait_for ls rc b).
Proof. revert b. induction ls as [|l ls IH]; intros b; simpl; keep; apply IH. Qed.
Hint Resolve keeps_add_blockers keeps_add_blockers_at keeps_wait_for : keeps.

Lemma keeps_wait_for_deps rc : keeps None (wait_for_deps rc).
Proof. unfold wait_for_deps. keep. Qed.
Lemma keeps_fetch_blockers rc : keeps None (fetch_blockers_if_needed fuel rc).
Proof. unfold fetch_blockers_if_needed. keep. Qed.
Hint Resolve keeps_wait_for_deps keeps_fetch_blockers : keeps.

(** A shared entry that may be returned place by place is returned at one. *)
Lemma try_returning_at_spec tr loc rc val s s' x :
  apart style val = true -> log_inv (Some (rc, val)) None s -> log_inv tr None s ->
  try_returning_at fuel loc rc s = Done (s', x) -> log_inv tr None s'.
Proof.
  intros Ha Hrc HI Hs. unfold try_returning_at in Hs. apply bind_L in Hs as (s1 & v & Hv & Hs).
  pose proof (keeps_rc_try_unwrap None rc tr s s1 v HI Hv) as HI1. destruct v as [e|].
  - assert (e = val) as ->.
    { unfold rc_try_unwrap in Hv. apply bind_done in Hv as ([n v] & Hk%unwrap_done & Hv).
      destruct (n =? 1); [|done]. injection Hv as _ <-. by eapply (li_rc _ _ _ _ Hrc). }
    apply bind_L in Hs as (s2 & r & Hr & Hs). apply return_entry_at_spec with (tr := tr) in Hr; [|done..].
    refine (triple_run _ _ _ _ _ _ Hr Hs _). keep.
  - refine (triple_run _ _ _ _ _ _ HI1 Hs _). keep.
Qed.

Lemma got_entry_spec tr loc b rc val s s' x :
  apart style val = true -> log_inv (Some (rc, val)) None s -> log_inv tr None s ->
  got_entry_at fuel loc b rc s = Done (s', x) -> log_inv tr None s'.
Proof.
  intros Ha Hrc HI Hs. unfold got_entry_at in Hs. apply bind_L in Hs as (s1 & t & Ht & Hs).
  pose proof (keeps_add_blockers_at loc rc _ _ _ _ Hrc Ht) as Hrc1. pose proof (keeps_add_blockers_at loc rc _ _ _ _ HI Ht) as HI1.
  destruct (t || negb b); [by eapply try_returning_at_spec|by eapply (keeps_rc_drop None rc)].
Qed.

(** An entry that arrives is shared under a name of its own. *)
Lemma fresh_rc tr p val s s' rc :
  log_inv tr p s -> rc_new val s = Done (s', rc) -> log_inv (Some (rc, val)) p s' /\ log_inv tr p s'.
Proof.
  intros HI Hs. pose proof (keeps_rc_new p val tr s s' rc HI Hs) as HI'. split; [|done]. split; try apply HI'.
  injection Hs as <- <-. split; simpl; [lia|]. intros n v. rewrite lookup_insert_eq. by intros [= _ <-].
Qed.

Lemma keeps_try_returning rc : keeps None (try_returning fuel rc).
Proof. unfold try_returning. keep. Qed.
Hint Resolve keeps_try_returning : keeps.

Lemma no_remote_ok {X} (f : Chain -> X * Chain) :
  (forall pc, tree (f pc).2 = tree pc /\ PC.last_snapshot (f pc).2 = PC.last_snapshot pc /\
    PC.is_interesting (f pc).2 = PC.is_interesting pc) -> chain_ok quiet (pure_upd f).
Proof.
  intros Hf pc x pc' Ht [= Hs]. destruct (Hf pc) as (H1 & H2 & H3). rewrite Hs in *. simpl in *.
  apply pstep_same; [done..|lia|done].
Qed.

Lemma keeps_ensure_read loc rc : keeps None (ensure_read loc rc).
Proof. unfold ensure_read. keep; apply keeps_on_chain, no_remote_ok; done. Qed.

Lemma keeps_server_is_finished c : keeps None (server_is_finished c).
Proof. unfold server_is_finished. keep. Qed.
Hint Resolve keeps_ensure_read keeps_server_is_finished : keeps.

Lemma keeps_continue_if_needed c : keeps None (continue_fetch_if_needed fuel c).
Proof. unfold continue_fetch_if_needed. keep. Qed.
Hint Resolve keeps_continue_if_needed : keeps.

Lemma keeps_done : keeps None (try_send_ready RetDone).
Proof. by apply keeps_send_other. Qed.
Lemma keeps_err e : keeps None (try_send_ready (RetErr e)).
Proof. by apply keeps_send_other. Qed.
Lemma keeps_snapshot m : keeps None (send_ready (RetSnapshot m)).
Proof. by apply keeps_send_other. Qed.
Hint Resolve keeps_done keeps_err keeps_snapshot : keeps.

Lemma keeps_continue c : keeps None (continue_fetch fuel c).
Proof. unfold continue_fetch, finshed_reading. keep. Qed.
Hint Resolve keeps_continue : keeps.

Lemma keeps_fetch_multi_parts id c i ms : keeps None (fetch_multi_parts fuel id c i ms).
Proof.
  unfold fetch_multi_parts. keep. apply keeps_on_chain. intros pc y pc' Ht Hs.
  unfold PC.take_early_sentinel in Hs. set (pc1 := PC.set_found _ pc) in Hs.
  assert (Hpc1 : pstep quiet pc pc1) by by apply pstep_same.
  eapply pstep_trans; [exact Hpc1|]. destruct (negb (i =? 0)).
  - pose proof (horizon_ok pc1 (default i (PC.found_but_unused_multiappends pc !! id)) Ht) as Hh.
    destruct (PC.update_horizon pc1 _) as [ub pc2]. apply bind_done in Hs as (pc3 & Hm & [= <- <-]).
    destruct ms; [|by injection Hm as <-]. eapply pstep_trans; [exact Hh|].
    eapply already_fetched_ok; [apply Hh|exact Hm].
  - destruct (bool_decide _); [injection Hs as <- <-; by apply pstep_same|].
    apply bind_done in Hs as (pc2 & Hm & [= <- <-]). by eapply increment_multi_ok.
Qed.
Hint Resolve keeps_fetch_multi_parts : keeps.

Lemma keeps_first_part id ms fp sen ls : keeps None (first_part fuel id ms fp sen ls).
Proof. revert sen. induction ls as [|l ls IH]; intros sen; simpl; keep; apply IH. Qed.

Lemma keeps_later_part sen ls ls' : keeps None (later_part sen ls ls').
Proof.
  revert sen ls'. induction ls as [|l ls IH]; intros sen [|l' ls']; simpl; keep; try apply IH;
    apply keeps_on_chain, upd_ok; intros; by eapply already_fetched_ok.
Qed.
Hint Resolve keeps_first_part keeps_later_part : keeps.

Lemma keeps_update_multi loc msg sen : keeps None (update_multi_part_read fuel loc msg sen).
Proof. unfold update_multi_part_read. keep. Qed.
Hint Resolve keeps_update_multi : keeps.

Lemma keeps_multi_read loc msg sen : keeps None (handle_multi_read fuel loc msg sen).
Proof. unfold handle_multi_read. keep. Qed.
Hint Resolve keeps_multi_read : keeps.

Lemma keeps_new_entry loc b msg (m : nat -> L unit) :
  apart style msg = true -> (forall rc, keeps None (m rc)) ->
  keeps None (packet ← rc_new msg; _ ← m packet; got_entry_at fuel loc b packet).
Proof.
  intros Ha Hm tr s s' x HI Hs. apply bind_L in Hs as (s1 & rc & H1 & Hs). destruct (fresh_rc _ _ _ _ _ _ HI H1) as [Hrc HI1].
  apply bind_L in Hs as (s2 & u & H2 & Hs).
  eapply got_entry_spec; [done|by eapply Hm|by eapply Hm|done].
Qed.

Lemma keeps_new_single loc b msg :
  apart style msg = true -> keeps None (packet ← rc_new msg; got_entry_at fuel loc b packet).
Proof.
  intros Ha tr s s' x HI Hs. apply bind_L in Hs as (s1 & rc & H1 & Hs). destruct (fresh_rc _ _ _ _ _ _ HI H1) as [Hrc HI1].
  by eapply got_entry_spec.
Qed.

Lemma keeps_completed_read loc msg : keeps None (handle_completed_read fuel loc msg).
Proof.
  intros tr s s' x HI Hs. unfold handle_completed_read in Hs.
  apply bind_L in Hs as (s1 & f & Hf & Hs). unfold pure in Hf. apply bind_done in Hf as (flag & Hf & [= <- <-]).
  apply bind_L in Hs as (s1 & l & Hl & Hs). unfold pure in Hl. apply bind_done in Hl as (layout & Hl & [= <- <-]).
  apply bind_L in Hs as (s1 & st & [= <- <-] & Hs). apply bind_L in Hs as (s1 & snaps & [= <- <-] & Hs).
  rewrite (li_style _ _ _ _ HI) in Hs. refine (triple_run _ _ _ _ _ _ HI Hs _). apply keeps_bind; [|keep]. clear HI.
  destruct layout; try (by keep).
  - pose proof (keeps_new_single loc true msg ltac:(unfold apart; by rewrite Hl)). keep.
  - destruct (_ && _) eqn:Ea; [|keep].
    assert (Hn : keeps None (packet ← rc_new msg; _ ← when (bool_decide (style = EnsureRead)) (ensure_read loc packet);
      got_entry_at fuel loc false packet)) by (apply keeps_new_entry; [unfold apart; by rewrite Hl, Hf|keep]).
    keep.
Qed.
Hint Resolve keeps_completed_read : keeps.

Lemma keeps_from_store msg : keeps None (handle_from_store fuel msg).
Proof. unfold handle_from_store. keep. Qed.

Definition is_rewind (msg : FromClient) : bool := match msg with Rewind _ => true | _ => false end.

Lemma keeps_from_client msg : is_rewind msg = false -> keeps None (handle_from_client fuel msg).
Proof.
  intros Hr. unfold handle_from_client, snapshot_chains, fetch_snapshot, fetch_strong_snapshot.
  destruct msg; try done; keep.
  apply keeps_on_chain. intros pc y pc' Ht Hs. apply bind_done in Hs as ([n pc1] & Hi & Hs).
  pose proof (more_snapshots_ok pc n pc1 Ht Hi) as H1. eapply pstep_trans; [exact H1|].
  eapply new_snapshot_ok; [apply H1|exact Hs].
Qed.

End LogInv.
End Inv.

(** ** Runs *)

Definition no_rewind (ev : Event) : bool :=
  match ev with Arrives (MFromClient msg) => negb (is_rewind msg) | _ => true end.

Lemma build_inv chains colors boring ack snaps style :
  log_inv style None None (build chains colors boring ack snaps style).
Proof.
  assert (Hc : forall o (pc : Chain), per_chains (build chains colors boring ack snaps style) !! o = Some pc ->
    tree pc = RT.new).
  { intros o pc (c & [= -> ->] & _)%elem_of_list_to_map_2%list_elem_of_fmap. done. }
  split.
  - intros o pc ->%Hc. apply new_tiled.
  - intros o pc q ->%Hc Hq. left. by apply new_marked.
  - intros l []%elem_of_nil.
  - intros o. constructor.
  - by exists [].
  - done.
  - done.
Qed.

Section Runs.
Context `{Build} (fuel : nat).

Lemma run_inv style evs s s' x :
  forallb no_rewind evs = true -> log_inv style None None s -> run fuel evs s = Done (s', x) ->
  log_inv style None None s'.
Proof.
  revert s. induction evs as [|ev evs IH]; intros s Hev HI Hs; simpl in Hs;
    apply bind_L in Hs as (s1 & fin & [= <- <-] & Hs); destruct (finished s);
    try (injection Hs as <- _; exact HI).
  simpl in Hev. apply andb_true_iff in Hev as [H1 H2]. destruct ev as [msg| | |].
  2,3,4: apply bind_L in Hs as (s2 & [] & [= <-] & Hs); eapply IH; [done| |done]; eapply inv_view; [|done];
    split_and!; try done; simpl; rewrite ?orb_false_r; done || by destruct (reader_gone s).
  apply bind_L in Hs as (s2 & go & Hm & Hs).
  assert (HI2 : log_inv style None None s2).
  { destruct msg as [msg|msg]; simpl in Hm.
    - eapply keeps_from_store; done.
    - apply negb_true_iff in H1. by eapply (keeps_from_client style fuel msg H1). }
  destruct go; [by eapply IH|by injection Hs as <- _].
Qed.

(** C7.  The application sees every chain in order, without gaps, and every entry once: in any run of
    the client's log that returns (it does not panic, nor run out of the bound [fuel] on the loop
    that unblocks entries), in both build profiles, whatever the store and the application send, but
    for a rewind, and whichever queue hangs up: the places of a chain are returned in increasing
    order, so none twice; a returned place lies within the snapshot, and everything before it in its
    chain was returned or is skipped (the place of a sentinel).  What was returned falls into groups,
    one after the other, the places an entry was returned for at once.  An entry of several chains
    makes one group, with all its places before the separator in chains the application is
    interested in (but for one that is read at each place apart, as an entry of one chain is).  The
    application is sent exactly the entries of the groups, in order and once each, that have a place
    in a chain it is interested in; the first of them when it is gone. *)
Theorem client_returns_in_order chains colors boring ack snaps style evs s' :
  forallb no_rewind evs = true ->
  run fuel evs (build chains colors boring ack snaps style) = Done (s', tt) ->
  (forall o, StronglySorted Z.lt (places_of o s')) /\
  (forall o i, mkOI o i ∈ places s' -> exists pc, per_chains s' !! o = Some pc /\
     0 < i <= PC.last_snapshot pc /\
     forall j, 1 <= j < i -> mkOI o j ∈ places s' \/ mkOI o j ∈ skipped s') /\
  exists groups, returned s' = groups ≫= of_group /\ Forall (group_ok style (interests s')) groups /\
    entries (ready_reads s') `prefix_of` to_show (interests s') groups /\
    (reader_gone s' = false -> entries (ready_reads s') = to_show (interests s') groups).
Proof.
  intros Hev Hrun. pose proof (run_inv _ _ _ _ _ Hev (build_inv _ _ _ _ _ _) Hrun) as HI. split_and!.
  - apply HI.
  - intros o i Hi. destruct (li_ret _ _ _ _ HI _ Hi) as (pc & Hp & Hret & Hb). simpl in *.
    exists pc. split; [done|]. split; [done|]. intros j Hj.
    destruct (li_marked _ _ _ _ HI o pc j Hp) as [?|?]; [|lia|done].
    left. apply (td_down _ (li_tiled _ _ _ _ HI o pc Hp) i); [done|lia].
  - destruct (li_grouped _ _ _ _ HI) as (gs & H1 & H2 & H3 & H4). rewrite app_nil_r in H2. by exists gs.
Qed.

End Runs.

(** ** Runs, evaluated *)

Module Demo.

Definition single (id o i : Z) (deps : list OrderIndex) : Ref :=
  Single id EntryFlag.ReadSuccess (mkOI o i) deps [id] 0.
Definition client (m : FromClient) : Event := Arrives (MFromClient m).
Definition got (o i : Z) (r : Ref) : Event := Arrives (MFromStore (ReadComplete (mkOI o i) r)).

(** The answer to a snapshot of [o]: its last entry is [n]. *)
Definition snapshot (o n : Z) : Event :=
  got o u64_max (Read uuid_nil EntryFlag.Nothing 0 0 (mkOI o u64_max) (mkOI o n) (mkOI 0 0)).

Definition start (chains : list Z) : ThreadLog := build chains ∅ false false false NoConnection.

(** The application asks for chain 5; its first entry arrives before the snapshot, which allows
    it and the second. *)
Definition two_entries : list Event :=
  [client (SnapshotAndPrefetch 5); got 5 1 (single 11 5 1 []); snapshot 5 2; got 5 2 (single 12 5 2 [])].

Definition after (b : Build) (evs : list Event) (chains : list Z) : option ThreadLog :=
  match run (H := b) 10 evs (start chains) with Done (s, _) => Some s | Panic => None end.

(** An entry of chains 1 and 2, which is read in both of them. *)
Definition both : Ref := Multi 20 EntryFlag.ReadSuccess 0 [mkOI 1 1; mkOI 2 1] [] [20].
Definition read_both : list Event :=
  [client (SnapshotAndPrefetch 1); client (SnapshotAndPrefetch 2); snapshot 1 1; snapshot 2 1; got 1 1 both; got 2 1 both].

Lemma after_is_run b evs chains s' : after b evs chains = Some s' -> run (H := b) 10 evs (start chains) = Done (s', tt).
Proof. unfold after. destruct (run _ _ _) as [[s1 []]|]; [|done]. by intros [= ->]. Qed.

(** Two entries of a chain are returned in order; the entry of two chains has two places and is sent
    once: in one group. *)
Lemma client_returns_in_order_witness :
  (exists s', run (H := dev) 10 two_entries (start [5]) = Done (s', tt) /\
    places_of 5 s' = [1; 2] /\ StronglySorted Z.lt (places_of 5 s') /\
    ready_reads s' = [RetEntry (single 11 5 1 []); RetEntry (single 12 5 2 []); RetDone]) /\
  (exists s' groups, run (H := dev) 10 read_both (start [1; 2]) = Done (s', tt) /\
    places s' = [mkOI 1 1; mkOI 2 1] /\ returned s' = groups ≫= of_group /\
    to_show (interests s') groups = [both] /\ ready_reads s' = [RetEntry both; RetDone; RetDone]).
Proof.
  split.
  - destruct (after dev two_entries [5]) as [s'|] eqn:E; [|by vm_compute in E].
    pose proof (after_is_run _ _ _ _ E) as Hr. exists s'. split; [exact Hr|]. split; [|split].
    + vm_compute in E. injection E as <-. vm_compute. reflexivity.
    + apply (proj1 (client_returns_in_order (H := dev) 10 [5] ∅ false false false NoConnection two_entries s'
        ltac:(vm_compute; reflexivity) Hr)).
    + vm_compute in E. injection E as <-. vm_compute. reflexivity.
  - destruct (after dev read_both [1; 2]) as [s'|] eqn:E; [|by vm_compute in E].
    pose proof (after_is_run _ _ _ _ E) as Hr.
    destruct (client_returns_in_order (H := dev) 10 [1; 2] ∅ false false false NoConnection read_both s'
      ltac:(vm_compute; reflexivity) Hr) as (_ & _ & groups & H1 & _ & _ & H2).
    vm_compute in E. injection E as <-. eexists _, groups. split; [exact Hr|]. split; [vm_compute; reflexivity|].
    split; [exact H1|]. split; [|vm_compute; reflexivity]. rewrite <- (H2 eq_refl). reflexivity.
Defined.

(** An entry [multi] of chains 1 and 2, and an entry of chain 3 that happens after it. *)
Definition multi : Ref := Multi 20 EntryFlag.ReadSuccess 0 [mkOI 1 2; mkOI 2 1] [] [20].
Definition later : Ref := single 30 3 1 [mkOI 2 1].

(** Two snapshots of chain 1 find one entry, and prefetch the second place; by the time that read
    is served, [multi] is there. *)
Definition early_multi : list Event :=
  [client (SnapshotAndPrefetch 1); client (SnapshotAndPrefetch 1); client (ReadUntil (mkOI 3 1));
   snapshot 1 1; snapshot 1 1; got 3 1 later; got 1 2 multi; got 1 1 (single 10 1 1 [])].

(** An entry can be returned before an entry it happens after: in this run of the client, in
    both build profiles, [later] waits for place 1 of chain 2, which [multi] holds; [multi] has
    place 2 of chain 1 too, beyond the snapshot, and is read early.  When place 1 of chain 1 is
    returned, [multi] stops waiting for it and goes on to wait for the snapshot, but its places are
    already on the list of those that hold nothing back: [later] is returned, and sent to the
    application, while neither place of [multi] is. *)
Theorem client_breaks_dependency :
  forall b, exists s, after b early_multi [1; 2; 3] = Some s /\
    dependencies later = Done [mkOI 2 1] /\ locs multi = Done [mkOI 1 2; mkOI 2 1] /\
    PC.is_interesting <$> per_chains s !! 2 = Some true /\
    ready_reads s = [RetEntry (single 10 1 1 []); RetEntry later] /\
    places s = [mkOI 1 1; mkOI 3 1].
Proof.
  intros [[]]; eexists; (split; [vm_compute; reflexivity|]); split_and!; vm_compute; reflexivity.
Qed.

(** [Fastforward] gives a chain a new snapshot without having asked for one: on a chain that is
    not being read the thread panics. *)
Example fastforward_panics : after dev [client (Fastforward (mkOI 1 4))] [1] = None.
Proof. vm_compute. reflexivity. Qed.

(** Otherwise the entry that waited for the snapshot is dropped: the first entry of the chain is
    neither returned nor held back any more. *)
Example fastforward_loses_entry :
  exists s, after dev [client (SnapshotAndPrefetch 1); got 1 1 (single 10 1 1 []); client (Fastforward (mkOI 1 4))] [1]
    = Some s /\ ready_reads s = [] /\ returned s = [] /\ blockers s = ∅ /\
    PC.blocked_on_new_snapshot <$> per_chains s !! 1 = Some None.
Proof. eexists. split; [vm_compute; reflexivity|]. split_and!; vm_compute; reflexivity. Qed.

End Demo.
