(* ===== verification/ClientStore.v ===== *)
(** * The client's connection to the servers ([fuzzy_log_client/src/store.rs])

    The store sends the requests of the client's log ([ClientLog]) to the servers and hands it
    their answers.  An append to chains of one server goes out as it is; one that spans servers
    goes through the two rounds of Skeens' algorithm: every server is asked for a timestamp for
    each of its chains ([add_skeens1]), and when all have answered, the largest is sent to all of
    them ([send_skeens2]), which answer with the places.  A strong snapshot that spans servers
    does the same.

    [StoreInner] is the state, and every method a function in the monad [St] over it.  A buffer
    is modelled by the packet in it.  The buffers and sets of a write in progress are in
    [Rc<RefCell<..>>], but at any time only the write's [WriteState] (or [SK2Send]) owns them: the
    clones made to send to several servers are dropped at once.  The bytes of a multi-append that
    is sent as a sentinel keep the data behind the packet and are turned back by
    [slice_to_multi]; the model keeps the multi-append.  The streams are the tokens of the
    reactor, [sent] is what was written to them, [client] what the log was told.  The cache of
    buffers and the statistics are left out. *)

From stdpp Require Import base gmap sets list.
From Stdlib Require Import ZArith Lia.
From S2P Require Import Prelude PacketCodec Packets.
Open Scope Z_scope.

Inductive WriteState :=
| SingleServer (buf : Ref)
| Skeens1 (buf : Ref) (remaining_servers : gset Z) (timestamps : list Z) (is_sentinel : bool)
| Skeens2 (buf : Ref) (remaining_servers : gset Z) (max_ts : Z)
| SnapshotSkeens1 (buf : Ref) (remaining_servers : gset Z) (timestamps : list Z)
| SnapshotSkeens2 (buf : Ref) (remaining_servers : gset Z) (max_ts : Z)
| GCWrite (buf : Ref).

Record SK2Send := mkSK2 { sk_buf : Ref; sk_max_ts : Z; sk_servers : list Z; sk_is_snapshot : bool }.

(** The calls of [AsyncStoreClient]. *)
Inductive ToClient :=
| OnFinishedRead (read_loc : OrderIndex) (read_packet : Ref)
| OnFinishedWrite (write_id : Z) (write_locs : list OrderIndex).

(** The number of servers is positive: with none the first request divides by zero. *)
Record StoreInner := mkStore {
  sent_writes : gmap Z WriteState;
  sent_reads : gmap (Z * Z) Z;
  max_timestamp_seen : gmap Z Z;
  num_chain_servers : positive;
  is_unreplicated : bool;
  new_multi : bool;
  reads_my_writes : bool;
  finished : bool;
  pending_skeens2 : list SK2Send;
  streams : gset Z;
  sent : list (Z * Ref);
  client : list ToClient;
  client_gone : bool;
}.

Definition set_sent_writes v s := mkStore v (sent_reads s) (max_timestamp_seen s) (num_chain_servers s) (is_unreplicated s) (new_multi s) (reads_my_writes s) (finished s) (pending_skeens2 s) (streams s) (sent s) (client s) (client_gone s).
Definition set_sent_reads v s := mkStore (sent_writes s) v (max_timestamp_seen s) (num_chain_servers s) (is_unreplicated s) (new_multi s) (reads_my_writes s) (finished s) (pending_skeens2 s) (streams s) (sent s) (client s) (client_gone s).
Definition set_timestamps v s := mkStore (sent_writes s) (sent_reads s) v (num_chain_servers s) (is_unreplicated s) (new_multi s) (reads_my_writes s) (finished s) (pending_skeens2 s) (streams s) (sent s) (client s) (client_gone s).
Definition set_finished v s := mkStore (sent_writes s) (sent_reads s) (max_timestamp_seen s) (num_chain_servers s) (is_unreplicated s) (new_multi s) (reads_my_writes s) v (pending_skeens2 s) (streams s) (sent s) (client s) (client_gone s).
Definition set_pending v s := mkStore (sent_writes s) (sent_reads s) (max_timestamp_seen s) (num_chain_servers s) (is_unreplicated s) (new_multi s) (reads_my_writes s) (finished s) v (streams s) (sent s) (client s) (client_gone s).
Definition set_streams v s := mkStore (sent_writes s) (sent_reads s) (max_timestamp_seen s) (num_chain_servers s) (is_unreplicated s) (new_multi s) (reads_my_writes s) (finished s) (pending_skeens2 s) v (sent s) (client s) (client_gone s).
Definition set_sent v s := mkStore (sent_writes s) (sent_reads s) (max_timestamp_seen s) (num_chain_servers s) (is_unreplicated s) (new_multi s) (reads_my_writes s) (finished s) (pending_skeens2 s) (streams s) v (client s) (client_gone s).
Definition set_client v s := mkStore (sent_writes s) (sent_reads s) (max_timestamp_seen s) (num_chain_servers s) (is_unreplicated s) (new_multi s) (reads_my_writes s) (finished s) (pending_skeens2 s) (streams s) (sent s) v (client_gone s).
Definition set_client_gone v s := mkStore (sent_writes s) (sent_reads s) (max_timestamp_seen s) (num_chain_servers s) (is_unreplicated s) (new_multi s) (reads_my_writes s) (finished s) (pending_skeens2 s) (streams s) (sent s) (client s) v.

(** ** The monad *)

Definition St (X : Type) : Type := StoreInner -> outcome (StoreInner * X).
#[export] Instance St_ret : MRet St := fun X x s => Done (s, x).
#[export] Instance St_bind : MBind St := fun X Y k m s =>
  match m s with Done (s', x) => k x s' | Panic => Panic end.

Definition pure {X} (o : outcome X) : St X := fun s => x ← o; Done (s, x).
Definition get {X} (f : StoreInner -> X) : St X := fun s => Done (s, f s).
Definition modify (f : StoreInner -> StoreInner) : St unit := fun s => Done (f s, tt).
Definition when (b : bool) (m : St unit) : St unit := if b then m else mret tt.

Fixpoint for_each {X} (xs : list X) (f : X -> St unit) : St unit :=
  match xs with [] => mret tt | x :: xs => _ ← f x; for_each xs f end.

(** [self.sent_writes.insert(id, v)] and [remove(&id)] *)
Definition insert_write (id : Z) (v : WriteState) : St unit :=
  modify (fun s => set_sent_writes (<[id := v]> (sent_writes s)) s).
Definition remove_write (id : Z) : St (option WriteState) :=
  v ← get (fun s => sent_writes s !! id);
  _ ← modify (fun s => set_sent_writes (delete id (sent_writes s)) s);
  mret v.

(** [inner.mutate(token, |ps| ps.add_writes(&[packet, receiver]))]: [false] without that stream. *)
Definition send_to (token : Z) (packet : Ref) : St bool :=
  known ← get (fun s => bool_decide (token ∈ streams s));
  _ ← when known (modify (fun s => set_sent (sent s ++ [(token, packet)]) s));
  mret known.

(** The result of a call of the client: [true] when it is gone. *)
Definition tell (c : ToClient) : St bool :=
  gone ← get client_gone;
  _ ← when (negb gone) (modify (fun s => set_client (client s ++ [c]) s));
  mret gone.

(** [if e.is_err() { self.finished = true }] *)
Definition tell_or_finish (c : ToClient) : St unit :=
  gone ← tell c; when gone (modify (set_finished true)).

(** [let mts = entry(o).or_insert(max_ts); if max_ts >= *mts { *mts = max_ts }] *)
Definition saw_timestamp (o max_ts : Z) : St unit :=
  modify (fun s => set_timestamps
    (<[o := Z.max max_ts (default max_ts (max_timestamp_seen s !! o))]> (max_timestamp_seen s)) s).

(** ** Servers *)

Definition write_server_for_chain (chain : Z) (num_servers : positive) : Z := chain mod Z.pos num_servers.

Definition read_server_for_chain (chain : Z) (num_servers : positive) (unreplicated : bool) : Z :=
  if unreplicated then write_server_for_chain chain num_servers
  else chain mod Z.pos num_servers + Z.pos num_servers.

Definition is_write_server_for (chain tok : Z) (num_servers : positive) : bool :=
  write_server_for_chain chain num_servers =? tok.

Definition read_server_for_write_server (s : StoreInner) (write_server : Z) : Z :=
  if is_unreplicated s then write_server else write_server + Z.pos (num_chain_servers s).

(** [OrderIndex(0, 0)], the separator before the sentinels. *)
Definition separator : OrderIndex := mkOI 0 0.

Definition is_single_node_append (s : StoreInner) (locs : list OrderIndex) : bool :=
  match filter (fun l => l <> separator) locs with
  | [] => true
  | c :: cs => forallb (fun c' => write_server_for_chain (oi_order c') (num_chain_servers s)
                                    =? write_server_for_chain (oi_order c) (num_chain_servers s)) cs
  end.

(** The servers of the chains, in increasing order. *)
Definition servers_for (n : positive) (locs : list OrderIndex) : list Z :=
  filter (fun i => Exists (fun l => write_server_for_chain (oi_order l) n = i)
                     (filter (fun l => l <> separator) locs))
    (seqZ 0 (Z.pos n)).

(** ** Packets *)

Definition kind_contains (k other : EntryKind.Kind) : bool := Z.land k other =? other.

(** [slice_to_sentinel]: the tag byte is overwritten.  The kinds that have the fields of a
    sentinel where a sentinel has them read as one; a snapshot does when it has no dependencies. *)
Definition slice_to_sentinel (r : Ref) : outcome Ref :=
  match r with
  | Multi id flags lock locs deps data | MultiToReplica id flags lock locs deps data _ =>
      Done (Senti id flags (Z.of_nat (length data)) lock locs deps)
  | Senti id flags data_bytes lock locs deps | SentiToReplica id flags data_bytes lock locs deps _ =>
      Done (Senti id flags data_bytes lock locs deps)
  | Snapshot id flags data_bytes num_deps lock locs =>
      if num_deps =? 0 then Done (Senti id flags data_bytes lock locs []) else Panic
  | _ => Panic
  end.

(** [slice_to_multi], likewise, of bytes that have the data. *)
Definition slice_to_multi (r : Ref) : outcome Ref :=
  match r with
  | Multi id flags lock locs deps data | MultiToReplica id flags lock locs deps data _ =>
      Done (Multi id flags lock locs deps data)
  | _ => Panic
  end.

(** [*i = 0] in every place *)
Definition clear_locs (ls : list OrderIndex) : list OrderIndex := (fun l => mkOI (oi_order l) 0) <$> ls.

Section Store.
Context `{Build}.

(** [u16] addition *)
Definition add16 (a b : Z) : outcome Z :=
  if a + b <? 65536 then Done (a + b) else if debug_assertions then Panic else Done ((a + b) mod 65536).

(** ** Requests *)

Definition get_servers_for_multi (msg : Ref) : St (list Z) :=
  l ← pure (Packets.layout msg);
  _ ← pure (debug_assert (match l with
        | EntryKind.EntryLayout.Multiput | EntryKind.EntryLayout.Sentinel
        | EntryKind.EntryLayout.GC | EntryKind.EntryLayout.Snapshot => true | _ => false end));
  ls ← pure (Packets.locs msg);
  get (fun s => servers_for (num_chain_servers s) ls).

Definition is_multi (w : WriteState) : bool :=
  match w with
  | Skeens1 _ _ _ _ | Skeens2 _ _ _ | SnapshotSkeens1 _ _ _ | SnapshotSkeens2 _ _ _ => true
  | SingleServer _ | GCWrite _ => false
  end.

Definition add_single_server_send (token : Z) (msg : Ref) : St (option bool) :=
  known ← send_to token msg;
  if negb known then mret None
  else
    let sent := SingleServer msg in
    l ← pure (Packets.layout msg);
    _ ← (match l with
         | EntryKind.EntryLayout.Read =>
             ls ← pure (Packets.locs msg);
             loc ← pure (unwrap (head ls));
             let k := (oi_order loc, oi_entry loc) in
             n ← get (fun s => default 0 (sent_reads s !! k));
             n ← pure (add16 n 1);
             modify (fun s => set_sent_reads (<[k := n]> (sent_reads s)) s)
         | EntryKind.EntryLayout.Snapshot => when (is_multi sent) (insert_write (Packets.id msg) sent)
         | _ => insert_write (Packets.id msg) sent
         end);
    mret (Some true).

Definition prep_skeens1 (msg : Ref) : St (list Z * gset Z * list Z) :=
  ls ← pure (Packets.locs msg);
  let timestamps := replicate (length ls) 0 in
  servers ← get_servers_for_multi msg;
  remaining_servers ← get (fun s => list_to_set (read_server_for_write_server s <$> servers));
  mret (servers, remaining_servers, timestamps).

(** [take_while(|oi| oi != OrderIndex(0, 0))] *)
Fixpoint before_separator (ls : list OrderIndex) : list OrderIndex :=
  match ls with [] => [] | l :: ls => if bool_decide (l = separator) then [] else l :: before_separator ls end.

(** The loop of [add_skeens1]; the flag of the first server it was sent to is returned. *)
Fixpoint send_skeens1 (msg : Ref) (servers : list Z) (send : option bool) : St (option bool) :=
  match servers with
  | [] => mret send
  | s :: servers =>
      known ← get (fun st => bool_decide (s ∈ streams st));
      if negb known then send_skeens1 msg servers send
      else
        n ← get num_chain_servers;
        ls ← pure (Packets.locs msg);
        let is_data := existsb (fun l => is_write_server_for (oi_order l) s n)
                         (before_separator ls) in
        l ← pure (Packets.layout msg);
        _ ← pure (debug_assert (match l with
              | EntryKind.EntryLayout.Multiput | EntryKind.EntryLayout.Sentinel => true | _ => false end));
        f ← pure (Packets.flag msg);
        _ ← pure (debug_assert (EntryFlag.contains f EntryFlag.TakeLock));
        msg ← pure (flag_mut (fun f => EntryFlag.insert f EntryFlag.TakeLock) msg);
        _ ← pure (debug_assert (is_data || bool_decide (separator ∈ ls)));
        p ← pure (if is_data then slice_to_multi msg else slice_to_sentinel msg);
        _ ← send_to s p;
        send_skeens1 msg servers (match send with Some b => Some b | None => Some (negb is_data) end)
  end.

Definition add_skeens1 (msg : Ref) : St unit :=
  '(servers, remaining_servers, timestamps) ← prep_skeens1 msg;
  send ← send_skeens1 msg servers None;
  msg ← pure (flag_mut (fun f => EntryFlag.insert f EntryFlag.TakeLock) msg);
  match send with
  | Some is_sentinel =>
      insert_write (Packets.id msg) (Skeens1 msg remaining_servers timestamps is_sentinel)
  | None => mret tt
  end.

(** A packet goes to all of [servers]: was any of them there? *)
Fixpoint send_all (msg : Ref) (servers : list Z) (send : bool) : St bool :=
  match servers with
  | [] => mret send
  | s :: servers => known ← send_to s msg; send_all msg servers (send || known)
  end.

Definition add_snapshot_skeens1 (msg : Ref) : St unit :=
  '(servers, remaining_servers, timestamps) ← prep_skeens1 msg;
  send ← send_all msg servers false;
  when send (insert_write (Packets.id msg) (SnapshotSkeens1 msg remaining_servers timestamps)).

Definition add_sk2 (buf : Ref) (max_ts : Z) (is_snapshot : bool) : St unit :=
  servers ← get_servers_for_multi buf;
  modify (fun s => set_pending (pending_skeens2 s ++ [mkSK2 buf max_ts servers is_snapshot]) s).

(** The packet of the second round. *)
Definition round2_packet (buf : Ref) (max_ts : Z) : outcome Ref :=
  buf ← slice_to_sentinel buf;
  buf ← flag_mut (fun f => EntryFlag.insert f (EntryFlag.insert EntryFlag.Unlock EntryFlag.NewMultiPut)) buf;
  buf ← locs_mut clear_locs buf;
  lock_mut (fun _ => max_ts) buf.

Definition send_skeens2 (p : SK2Send) : St unit :=
  buf ← pure (round2_packet (sk_buf p) (sk_max_ts p));
  remaining_servers ← get (fun s => list_to_set (read_server_for_write_server s <$> sk_servers p));
  send ← send_all buf (sk_servers p) false;
  when send (insert_write (Packets.id buf)
    (if sk_is_snapshot p then SnapshotSkeens2 buf remaining_servers (sk_max_ts p)
     else Skeens2 buf remaining_servers (sk_max_ts p))).

Definition after_work : St unit :=
  pending_sk2 ← get pending_skeens2;
  _ ← modify (set_pending []);
  _ ← for_each pending_sk2 send_skeens2;
  modify (set_pending []).

(** A message of the client: [None] is an empty one; the result says whether to go on. *)
Definition handle_new_request (msg : option Ref) : St bool :=
  match msg with
  | None => _ ← modify (set_finished true); mret false
  | Some msg =>
      l ← pure (Packets.layout msg);
      ls ← pure (Packets.locs msg);
      match l with
      | EntryKind.EntryLayout.Read =>
          loc ← pure (unwrap (head ls));
          s ← get (fun s => read_server_for_chain (oi_order loc) (num_chain_servers s) (is_unreplicated s));
          sent ← add_single_server_send s msg;
          pure (unwrap sent)
      | EntryKind.EntryLayout.Data =>
          loc ← pure (unwrap (head ls));
          f ← pure (Packets.flag msg);
          ts ← get (fun s => default 0 (max_timestamp_seen s !! oi_order loc));
          msg ← pure (if negb (EntryFlag.contains f EntryFlag.DirectWrite) then lock_mut (fun _ => ts) msg else Done msg);
          s ← get (fun s => write_server_for_chain (oi_order loc) (num_chain_servers s));
          sent ← add_single_server_send s msg;
          pure (unwrap sent)
      | EntryKind.EntryLayout.Multiput =>
          f ← pure (Packets.flag msg);
          single ← get (fun s => is_single_node_append s ls);
          if EntryFlag.contains f EntryFlag.DirectWrite then
            servers ← get_servers_for_multi msg;
            _ ← for_each servers (fun s => _ ← add_single_server_send s msg; mret tt);
            mret true
          else if (single : bool) then
            msg ← pure (lock_mut (fun _ => 1) msg);
            loc ← pure (unwrap (head ls));
            s ← get (fun s => write_server_for_chain (oi_order loc) (num_chain_servers s));
            sent ← add_single_server_send s msg;
            pure (unwrap sent)
          else
            nm ← get new_multi;
            if (nm : bool) then
              msg ← pure (flag_mut (fun f => EntryFlag.insert f
                      (EntryFlag.insert EntryFlag.TakeLock EntryFlag.NewMultiPut)) msg);
              msg ← pure (locs_mut clear_locs msg);
              _ ← add_skeens1 msg;
              mret true
            else pure Panic
      | EntryKind.EntryLayout.Snapshot =>
          single ← get (fun s => is_single_node_append s ls);
          if (single : bool) then
            loc ← pure (unwrap (head ls));
            s ← get (fun s => read_server_for_chain (oi_order loc) (num_chain_servers s) (is_unreplicated s));
            sent ← add_single_server_send s msg;
            pure (unwrap sent)
          else
            nm ← get new_multi;
            _ ← pure (assert_ nm);
            msg ← pure (flag_mut (fun f => EntryFlag.insert f
                    (EntryFlag.insert EntryFlag.TakeLock EntryFlag.NewMultiPut)) msg);
            _ ← add_snapshot_skeens1 msg;
            mret true
      | EntryKind.EntryLayout.GC | EntryKind.EntryLayout.Sentinel | EntryKind.EntryLayout.Lock => pure Panic
      end
  end.

(** ** Answers *)

(** [skeens_finished]: the timestamps of one server; the servers and timestamps that are left, and
    the largest timestamp when it was the last one. *)
Fixpoint fill_timestamps (mine : OrderIndex -> bool) (ls : list OrderIndex) (i : nat) (ts : list Z)
  : outcome (list Z) :=
  match ls with
  | [] => Done ts
  | oi :: ls =>
      if negb (oi_order oi =? 0) && mine oi then
        t ← unwrap (ts !! i);
        _ ← assert_ (t =? 0);
        _ ← assert_ (0 <? oi_entry oi);
        fill_timestamps mine ls (S i) (<[i := oi_entry oi]> ts)
      else fill_timestamps mine ls (S i) ts
  end.

Definition max_of (ts : list Z) : outcome Z :=
  match ts with [] => Panic | t :: ts => Done (foldr Z.max t ts) end.

Definition skeens_finished (token : Z) (packet : Ref) (remaining : gset Z) (timestamps : list Z)
  : St (option Z * gset Z * list Z) :=
  if negb (bool_decide (token ∈ remaining)) then mret (None, remaining, timestamps)
  else
    let remaining := remaining ∖ {[token]} in
    ls ← pure (Packets.locs packet);
    n ← get num_chain_servers;
    unreplicated ← get is_unreplicated;
    ts ← pure (fill_timestamps (fun l => read_server_for_chain (oi_order l) n unreplicated =? token) ls 0 timestamps);
    if bool_decide (remaining = ∅) then
      max_ts ← pure (max_of ts);
      _ ← for_each ls (fun l => saw_timestamp (oi_order l) max_ts);
      mret (Some max_ts, remaining, ts)
    else mret (None, remaining, ts).

(** The loop of the second round: the places of the write, those of the packet (which go to the
    reader of the write), and whether every place is known. *)
Fixpoint fill_places (mine : OrderIndex -> bool) (from locs : list OrderIndex)
  : outcome (list OrderIndex * list OrderIndex * bool) :=
  match from, locs with
  | [], _ => Done ([], locs, true)
  | _ :: _, [] => Panic
  | loc :: from, my :: locs =>
      if oi_order my =? 0 then
        '(from, locs, fin) ← fill_places mine from locs; Done (loc :: from, my :: locs, fin)
      else if mine loc && negb (oi_entry loc =? 0) then
        '(from, locs, fin) ← fill_places mine from locs; Done (loc :: from, loc :: locs, fin)
      else if oi_entry my =? 0 then
        '(from, locs, fin) ← fill_places mine from locs; Done (loc :: from, my :: locs, false)
      else
        '(from, locs, fin) ← fill_places mine from locs; Done (my :: from, my :: locs, fin)
  end.

Definition no_zero (ls : list OrderIndex) : bool :=
  forallb (fun l => (oi_order l =? 0) || negb (oi_entry l =? 0)) ls.

(** [fill_locs] of a write to one server: the places and how many are known. *)
Fixpoint fill_locs (mine : OrderIndex -> bool) (from locs : list OrderIndex) : outcome (list OrderIndex * Z) :=
  match from, locs with
  | [], _ => Done (locs, 0)
  | _ :: _, [] => Panic
  | loc :: from, my :: locs =>
      '(locs, filled) ← fill_locs mine from locs;
      if oi_order my =? 0 then Done (my :: locs, filled + 1)
      else if mine loc && negb (oi_entry loc =? 0) then Done (loc :: locs, filled + 1)
      else if negb (oi_entry my =? 0) then Done (my :: locs, filled + 1)
      else Done (my :: locs, filled)
  end.

(** The loop of a snapshot. *)
Fixpoint fill_snapshot (mine : OrderIndex -> bool) (from locs : list OrderIndex) : outcome (list OrderIndex) :=
  match from, locs with
  | [], _ => Done locs
  | _ :: _, [] => Panic
  | loc :: from, my :: locs =>
      ls ← fill_snapshot mine from locs;
      Done ((if negb (oi_order my =? 0) && mine loc then loc else my) :: ls)
  end.

Definition from_server (token : Z) : St (OrderIndex -> bool) :=
  get (fun s l => read_server_for_chain (oi_order l) (num_chain_servers s) (is_unreplicated s) =? token).

(** Each of the places, until the client is gone. *)
Fixpoint tell_snapshot (ls : list OrderIndex) (b : Ref) : St unit :=
  match ls with
  | [] => mret tt
  | l :: ls =>
      gone ← tell (OnFinishedRead l b);
      if (gone : bool) then modify (set_finished true) else tell_snapshot ls b
  end.

Definition finish_skeens1 (token : Z) (packet buf : Ref) (remaining : gset Z) (timestamps : list Z)
    (is_sentinel : bool) : St unit :=
  nm ← get new_multi;
  _ ← pure (assert_ (kind_contains (Packets.kind packet) EntryKind.Multiput));
  _ ← pure (assert_ nm);
  '(ready, remaining, timestamps) ← skeens_finished token packet remaining timestamps;
  match ready with
  | Some max_ts => add_sk2 buf max_ts false
  | None => insert_write (Packets.id packet) (Skeens1 buf remaining timestamps is_sentinel)
  end.

Definition finish_snapshot_skeens1 (token : Z) (packet buf : Ref) (remaining : gset Z) (timestamps : list Z)
    : St unit :=
  nm ← get new_multi;
  _ ← pure (assert_ (kind_contains (Packets.kind packet) EntryKind.Snapshot));
  _ ← pure (assert_ nm);
  '(ready, remaining, timestamps) ← skeens_finished token packet remaining timestamps;
  match ready with
  | Some max_ts => add_sk2 buf max_ts true
  | None => insert_write (Packets.id packet) (SnapshotSkeens1 buf remaining timestamps)
  end.

(** The packet with its places filled in, if the write is complete. *)
Definition finish_skeens2 (token : Z) (packet buf : Ref) (remaining : gset Z) (max_ts : Z) : St (option Ref) :=
  nm ← get new_multi;
  _ ← pure (assert_ nm);
  locs ← pure (Packets.locs buf);
  from ← pure (Packets.locs packet);
  mine ← from_server token;
  '(from, locs, finished_writes) ← pure (fill_places mine from locs);
  buf ← pure (locs_mut (fun _ => locs) buf);
  packet ← pure (locs_mut (fun _ => from) packet);
  if (finished_writes : bool) then
    _ ← pure (assert_ (no_zero locs));
    _ ← pure (assert_ (no_zero from));
    _ ← for_each locs (fun l => saw_timestamp (oi_order l) max_ts);
    _ ← tell_or_finish (OnFinishedWrite (Packets.id packet) locs);
    mret (Some packet)
  else
    _ ← insert_write (Packets.id packet) (Skeens2 buf remaining max_ts); mret None.

Definition finish_snapshot_skeens2 (token : Z) (packet buf : Ref) (remaining : gset Z) (max_ts : Z) : St unit :=
  nm ← get new_multi;
  _ ← pure (assert_ nm);
  let remaining := remaining ∖ {[token]} in
  let finished_writes := bool_decide (remaining = ∅) in
  buf ← pure (if finished_writes then flag_mut (fun f => EntryFlag.insert f EntryFlag.ReadSuccess) buf else Done buf);
  locs ← pure (Packets.locs buf);
  from ← pure (Packets.locs packet);
  mine ← from_server token;
  locs ← pure (fill_snapshot mine from locs);
  buf ← pure (locs_mut (fun _ => locs) buf);
  if finished_writes then tell_snapshot locs buf
  else insert_write (Packets.id packet) (SnapshotSkeens2 buf remaining max_ts).

Definition finish_single_server (token : Z) (packet buf : Ref) : St bool :=
  locs ← pure (Packets.locs buf);
  from ← pure (Packets.locs packet);
  mine ← from_server token;
  '(locs, filled) ← pure (fill_locs mine from locs);
  buf ← pure (locs_mut (fun _ => locs) buf);
  if filled <? Z.of_nat (length from) then
    _ ← insert_write (Packets.id packet) (SingleServer buf); mret false
  else
    max_ts ← pure (lock_num packet);
    _ ← for_each from (fun l => saw_timestamp (oi_order l) max_ts);
    _ ← tell_or_finish (OnFinishedWrite (Packets.id packet) from);
    mret true.

(** [Some (packet, my_write)] is [Ok(my_write)], [None] is [Err(())]. *)
Definition handle_completed_write (token : Z) (packet : Ref) : St (option (Ref * bool)) :=
  let id := Packets.id packet in
  let kind := Packets.kind packet in
  flag ← pure (Packets.flag packet);
  v ← remove_write id;
  match v with
  | Some (Skeens1 buf remaining timestamps is_sentinel) =>
      _ ← when (EntryFlag.contains flag EntryFlag.Skeens1Queued)
            (finish_skeens1 token packet buf remaining timestamps is_sentinel);
      mret None
  | Some (Skeens2 buf remaining max_ts) =>
      r ← finish_skeens2 token packet buf remaining max_ts;
      mret ((fun p => (p, true)) <$> r)
  | Some (SnapshotSkeens1 buf remaining timestamps) =>
      _ ← when (EntryFlag.contains flag EntryFlag.Skeens1Queued)
            (finish_snapshot_skeens1 token packet buf remaining timestamps);
      mret None
  | Some (SnapshotSkeens2 buf remaining max_ts) =>
      _ ← finish_snapshot_skeens2 token packet buf remaining max_ts; mret None
  | Some (SingleServer buf) =>
      ok ← finish_single_server token packet buf;
      mret (if (ok : bool) then Some (packet, true) else None)
  | Some (GCWrite _) => mret None
  | None =>
      l ← pure (EntryKind.layout kind);
      mret (match l with
            | EntryKind.EntryLayout.Data | EntryKind.EntryLayout.Multiput | EntryKind.EntryLayout.Sentinel
            | EntryKind.EntryLayout.Read => Some (packet, false)
            | EntryKind.EntryLayout.Snapshot =>
                if EntryFlag.contains flag EntryFlag.TakeLock then None else Some (packet, false)
            | EntryKind.EntryLayout.Lock | EntryKind.EntryLayout.GC => None
            end)
  end.

(** [sent_reads]: was a read of this place asked for?  One less is. *)
Definition take_read (oi : OrderIndex) : St bool :=
  let k := (oi_order oi, oi_entry oi) in
  c ← get (fun s => sent_reads s !! k);
  match c with
  | None => mret false
  | Some n =>
      _ ← pure (assert_ (negb (oi_entry oi =? 0)));
      let n' := if 0 <? n then n - 1 else n in
      _ ← modify (fun s => set_sent_reads
            (if n' =? 0 then delete k (sent_reads s) else <[k := n']> (sent_reads s)) s);
      mret (0 <? n)
  end.

(** The loop of [handle_completed_read]: was the packet needed? *)
Fixpoint give_reads (packet : Ref) (is_sentinel my_write read_success : bool) (max_ts : Z)
    (ls : list OrderIndex) (is_sentinel_loc was_needed : bool) : St bool :=
  match ls with
  | [] => mret was_needed
  | oi :: ls =>
      if bool_decide (oi = separator) then
        give_reads packet is_sentinel my_write read_success max_ts ls true was_needed
      else
        _ ← pure (assert_ (negb (my_write && (oi_entry oi =? 0))));
        _ ← when read_success (saw_timestamp (oi_order oi) max_ts);
        if is_sentinel && negb is_sentinel_loc then
          give_reads packet is_sentinel my_write read_success max_ts ls is_sentinel_loc was_needed
        else
          needed ← take_read oi;
          rmw ← get reads_my_writes;
          if needed || (my_write && rmw) then
            _ ← pure (assert_ (negb (oi_entry oi =? 0)));
            _ ← tell_or_finish (OnFinishedRead oi packet);
            give_reads packet is_sentinel my_write read_success max_ts ls is_sentinel_loc true
          else give_reads packet is_sentinel my_write read_success max_ts ls is_sentinel_loc was_needed
  end.

Definition handle_completed_read (packet : Ref) (my_write : bool) : St bool :=
  l ← pure (Packets.layout packet);
  ls ← pure (Packets.locs packet);
  match l with
  | EntryKind.EntryLayout.Snapshot =>
      _ ← for_each ls (fun oi => tell_or_finish (OnFinishedRead oi packet)); mret true
  | _ =>
      max_ts ← pure (lock_num packet);
      flag ← pure (Packets.flag packet);
      give_reads packet (match l with EntryKind.EntryLayout.Sentinel => true | _ => false end) my_write
        (EntryFlag.contains flag EntryFlag.ReadSuccess) max_ts ls false false
  end.

Definition handle_completion (token : Z) (packet : Ref) : St unit :=
  w ← handle_completed_write token packet;
  match w with
  | Some (packet, my_write) => _ ← handle_completed_read packet my_write; mret tt
  | None => mret tt
  end.

(** A packet of a server. *)
Definition handle_message (token : Z) (packet : Ref) : St unit :=
  let kind := Packets.kind packet in
  flag ← pure (Packets.flag packet);
  if EntryFlag.contains flag EntryFlag.ReadSuccess then
    when (negb (EntryFlag.contains flag EntryFlag.Unlock) || EntryFlag.contains flag EntryFlag.NewMultiPut)
      (handle_completion token packet)
  else
    l ← pure (EntryKind.layout kind);
    if match l with EntryKind.EntryLayout.Read => true | _ => false end
       && negb (EntryFlag.contains flag EntryFlag.TakeLock)
    then _ ← handle_completed_read packet false; mret tt
    else pure Panic.

(** ** Runs: what the reactor calls *)

Inductive Event :=
| Request (msg : option Ref)       (* a message of the client *)
| Disconnected                     (* the client dropped its sender *)
| Receive (token : Z) (packet : Ref)
| AfterWork
| ClientGone                       (* the client dropped its receiver *)
| StreamGone (token : Z).          (* the reactor dropped a stream *)

Definition step (ev : Event) : St unit :=
  match ev with
  | Request msg => _ ← handle_new_request msg; mret tt
  | Disconnected => modify (set_finished true)
  | Receive token packet => handle_message token packet
  | AfterWork => after_work
  | ClientGone => modify (set_client_gone true)
  | StreamGone token => modify (fun s => set_streams (streams s ∖ {[token]}) s)
  end.

Definition run (evs : list Event) : St unit := for_each evs step.

End Store.

(** ** The builder: one stream per server, then one per replica that is read from *)

Definition build (num_servers : positive) (unreplicated : bool) : StoreInner :=
  mkStore ∅ ∅ ∅ num_servers unreplicated true false false []
    (list_to_set (seqZ 0 (if unreplicated then Z.pos num_servers else 2 * Z.pos num_servers))) [] [] false.
