(* ===== verification/ClientSkeens.v ===== *)
(** * The client's half of Skeens' algorithm

    What the store ([ClientStore]) sends in the second round of a multi-append or of a strong
    snapshot: one and the same timestamp for all the servers, the largest of those the servers
    gave in the first round, and at least as large as that of every chain.  This is what the
    servers rely on ([SkeensOrder.chains_agree]): every chain of an append gets the same final
    timestamp, and no chain one below its own. *)

From stdpp Require Import base gmap sets list.
From Stdlib Require Import ZArith Lia.
From S2P Require Import Prelude PacketCodec Packets ClientStore.
Open Scope Z_scope.

(** ** Histories *)

Definition is_unlock (p : Ref) : Prop := exists f, flag p = Done f /\ EntryFlag.contains f EntryFlag.Unlock = true.

(** A request that is remembered under its id. *)
Definition is_write_request (req : Ref) : bool :=
  match layout req with Done EntryKind.EntryLayout.Read | Panic => false | _ => true end.

Definition write_ids (evs : list Event) : list Z :=
  omap (fun ev => match ev with
                  | Request (Some req) => if is_write_request req then Some (Packets.id req) else None
                  | _ => None end) evs.

Definition locs_of (r : Ref) : list OrderIndex := match locs r with Done ls => ls | Panic => [] end.
Definition chains_of (r : Ref) : list Z := oi_order <$> locs_of r.

Section Skeens.
Context `{Build} (n : positive) (unreplicated : bool).

(** The server in charge of chain [o] has answered: its timestamp for write [id] is [t]. *)
Definition acked (evs : list Event) (id o t : Z) : Prop :=
  exists token p, Receive token p ∈ evs /\ Packets.id p = id /\
    token = read_server_for_chain o n unreplicated /\ mkOI o t ∈ locs_of p.

(** [m] is the largest timestamp of the chains, and every chain has one. *)
Definition is_max (evs : list Event) (id : Z) (chains : list Z) (m : Z) : Prop :=
  (forall o, o ∈ chains -> o <> 0 -> exists t, 0 < t <= m /\ acked evs id o t) /\
  (exists o, o ∈ chains /\ o <> 0 /\ acked evs id o m).

(** What the client and the servers are relied on for: the ids of the writes differ, the client
    does not set the flag of the second round, chain 0 is the separator only, and what a server
    says about a write lists the chains of the write. *)
Record well_behaved (evs : list Event) : Prop := {
  wb_ids : NoDup (write_ids evs);
  wb_unlock : forall req f, Request (Some req) ∈ evs -> flag req = Done f ->
    EntryFlag.contains f EntryFlag.Unlock = false;
  wb_zero : forall req l, Request (Some req) ∈ evs -> l ∈ locs_of req -> oi_order l = 0 -> l = separator;
  wb_echo : forall req token p, Request (Some req) ∈ evs -> is_write_request req = true ->
    Receive token p ∈ evs -> Packets.id p = Packets.id req -> chains_of p = chains_of req;
}.

Definition requested (evs : list Event) (id : Z) : Prop := id ∈ write_ids evs.

(** The chains of the request with this id. *)
Definition request_chains (evs : list Event) (id : Z) (chains : list Z) : Prop :=
  exists req, Request (Some req) ∈ evs /\ is_write_request req = true /\ Packets.id req = id /\ chains_of req = chains.

Lemma requested_chains evs id chains : request_chains evs id chains -> requested evs id.
Proof.
  intros (req & Hin & Hw & <- & _). unfold requested, write_ids. apply list_elem_of_omap.
  exists (Request (Some req)). by rewrite Hw.
Qed.

(** *** The first round, in progress *)

Abbreviation rs o := (read_server_for_chain o n unreplicated).

(** What is known of chain [o], whose timestamp is stored as [t] (0: not known). *)
Definition ts_ok (evs : list Event) (id : Z) (rem : gset Z) (o t : Z) : Prop :=
  (o = 0 /\ t = 0) \/ (o <> 0 /\ t = 0 /\ rs o ∈ rem) \/ (o <> 0 /\ 0 < t /\ (rs o ∉ rem) /\ acked evs id o t).

Record round1 (evs : list Event) (id : Z) (chains : list Z) (rem : gset Z) (ts : list Z) : Prop := {
  r1_chains : request_chains evs id chains;
  r1_ts : Forall2 (ts_ok evs id rem) chains ts;
  r1_rem : forall k, k ∈ rem -> exists o, o ∈ chains /\ o <> 0 /\ rs o = k;
}.

Lemma fill_timestamps_spec mine ls i ts ts' :
  fill_timestamps mine ls i ts = Done ts' ->
  length ts' = length ts /\
  (forall j, ~ (exists k l, (j = i + k)%nat /\ ls !! k = Some l /\ oi_order l <> 0 /\ mine l = true) -> ts' !! j = ts !! j) /\
  (forall k l, ls !! k = Some l -> oi_order l <> 0 -> mine l = true -> ts' !! (i + k)%nat = Some (oi_entry l) /\ 0 < oi_entry l).
Proof.
  revert i ts. induction ls as [|oi ls IH]; intros i ts; simpl.
  { intros [= <-]. split_and!; [done..|]. intros k l Hk. by destruct k. }
  assert (Hskip : forall ts0, (forall j, j <> i -> ts0 !! j = ts !! j) -> length ts0 = length ts ->
    (oi_order oi <> 0 -> mine oi = true -> ts0 !! i = Some (oi_entry oi) /\ 0 < oi_entry oi) ->
    (~ (oi_order oi <> 0 /\ mine oi = true) -> ts0 = ts) ->
    fill_timestamps mine ls (S i) ts0 = Done ts' ->
    length ts' = length ts /\
    (forall j, ~ (exists k l, (j = i + k)%nat /\ (oi :: ls) !! k = Some l /\ oi_order l <> 0 /\ mine l = true) -> ts' !! j = ts !! j) /\
    (forall k l, (oi :: ls) !! k = Some l -> oi_order l <> 0 -> mine l = true ->
       ts' !! (i + k)%nat = Some (oi_entry l) /\ 0 < oi_entry l)).
  { intros ts0 Hne Hlen Hi Hsame Hf. destruct (IH _ _ Hf) as (H1 & H2 & H3). split_and!; [lia|..].
    - intros j Hj. rewrite H2.
      + destruct (decide (j = i)) as [->|?]; [|by apply Hne]. rewrite Hsame; [done|]. intros [? ?].
        apply Hj. exists 0%nat, oi. split; [lia|done].
      + intros (k & l & -> & Hk). apply Hj. exists (S k), l. split; [lia|done].
    - intros [|k] l Hk Ho Hm; simpl in Hk.
      + injection Hk as <-. destruct (Hi Ho Hm) as [Hi1 Hi2]. split; [|done].
        rewrite H2; [by replace (i + 0)%nat with i by lia|]. intros (k & ? & ? & _). lia.
      + destruct (H3 k l Hk Ho Hm) as [H4 H5]. split; [|done]. rewrite <- H4. f_equal. lia. }
  destruct (negb (oi_order oi =? 0) && mine oi) eqn:E; intros Hf.
  - apply andb_true_iff in E as [Ho%negb_true_iff%Z.eqb_neq Hm]. inv_done.
    apply (Hskip (<[i := oi_entry oi]> ts)); try done.
    + intros j Hj. by apply list_lookup_insert_ne.
    + apply length_insert.
    + intros _ _. split; [|lia]. apply list_lookup_insert_eq. by eapply lookup_lt_Some.
    + intros Hn. exfalso. by apply Hn.
  - apply (Hskip ts); try done. intros Ho Hm. exfalso. rewrite Hm, andb_true_r in E.
    by apply negb_false_iff, Z.eqb_eq in E.
Qed.

Lemma max_of_spec ts m : max_of ts = Done m -> m ∈ ts /\ forall t, t ∈ ts -> t <= m.
Proof.
  destruct ts as [|t ts]; [done|]. intros [= <-]. induction ts as [|x ts [IH1 IH2]]; simpl.
  { split; [set_solver|]. intros y ->%list_elem_of_singleton. lia. }
  split.
  - destruct (Z.max_spec x (foldr Z.max t ts)) as [[_ ->]|[_ ->]]; [|set_solver].
    apply elem_of_cons in IH1 as [->|?]; set_solver.
  - intros y [->|[->|Hy]%elem_of_cons]%elem_of_cons; [|lia|];
      [specialize (IH2 t)|specialize (IH2 y)]; (transitivity (foldr Z.max t ts); [apply IH2; set_solver|lia]).
Qed.

(** The answer of a server that was waited for. *)
Lemma round1_ack evs id chains rem ts token p ts' :
  round1 evs id chains rem ts -> Receive token p ∈ evs -> Packets.id p = id -> chains_of p = chains ->
  fill_timestamps (fun l => rs (oi_order l) =? token) (locs_of p) 0 ts = Done ts' ->
  round1 evs id chains (rem ∖ {[token]}) ts'.
Proof.
  intros [Hc Hts Hrem] Hin Hid Hch Hf. destruct (fill_timestamps_spec _ _ _ _ _ Hf) as (Hl & Hkeep & Hset).
  split; [done| |].
  - apply Forall2_same_length_lookup_2; [rewrite Hl; by eapply Forall2_length|].
    intros j o t' Ho Ht'. pose proof Ho as Ho'. rewrite <- Hch in Ho'. unfold chains_of in Ho'.
    apply list_lookup_fmap_Some in Ho' as (l & -> & Hj).
    destruct (lookup_lt_is_Some_2 ts j) as [t Ht].
    { rewrite <- (Forall2_length _ _ _ Hts). by eapply lookup_lt_Some. }
    pose proof (Forall2_lookup_lr _ _ _ _ _ _ Hts Ho Ht) as Hok.
    destruct (decide (oi_order l <> 0 /\ rs (oi_order l) = token)) as [[Hz Htok]|Hn].
    + destruct (Hset j l Hj Hz) as [Hs Hpos]; [by apply Z.eqb_eq|]. simpl in Hs. rewrite Hs in Ht'.
      injection Ht' as <-. right; right. split_and!; try done.
      * set_solver.
      * exists token, p. split_and!; try done. destruct l. by eapply list_elem_of_lookup_2.
    + assert (t' = t) as ->.
      { rewrite Hkeep in Ht'; [congruence|]. intros (k & l' & -> & Hk & Hz & Hm%Z.eqb_eq).
        simpl in Hj. rewrite Hj in Hk. injection Hk as <-. by apply Hn. }
      destruct Hok as [?|[(? & ? & ?)|(? & ? & ? & ?)]]; [by left|right; left|right; right].
      * split_and!; try done. apply elem_of_difference. split; [done|]. intros ?%elem_of_singleton. by apply Hn.
      * split_and!; try done. set_solver.
  - intros k [Hk _]%elem_of_difference. by apply Hrem.
Qed.

(** All have answered. *)
Lemma round1_max evs id chains ts m o :
  round1 evs id chains ∅ ts -> o ∈ chains -> o <> 0 -> max_of ts = Done m -> is_max evs id chains m.
Proof.
  intros [_ Hts _] Ho Hz Hm. destruct (max_of_spec _ _ Hm) as [Hin Hle].
  assert (Hall : forall o, o ∈ chains -> o <> 0 -> exists t, 0 < t <= m /\ acked evs id o t).
  { intros o' [i Hi]%list_elem_of_lookup_1 Hz'. destruct (Forall2_lookup_l _ _ _ _ _ Hts Hi) as (t & Ht & Hok).
    destruct Hok as [[? _]|[(_ & _ & ?)|(_ & ? & _ & ?)]]; [done|set_solver|].
    exists t. split; [|done]. split; [done|]. apply Hle. by eapply list_elem_of_lookup_2. }
  split; [done|]. apply list_elem_of_lookup_1 in Hin as [i Hi].
  destruct (Forall2_lookup_r _ _ _ _ _ Hts Hi) as (o' & Ho' & Hok). exists o'.
  split; [by eapply list_elem_of_lookup_2|]. destruct Hok as [[-> ->]|[(_ & _ & ?)|(? & _ & _ & ?)]]; [|set_solver|done].
  destruct (Hall o Ho Hz) as (t & ? & _). lia.
Qed.

(** ** Steps that leave the writes and what was sent alone *)

Definition view (s : StoreInner) :=
  (num_chain_servers s, is_unreplicated s, sent_writes s, sent s, pending_skeens2 s).

Definition frame {X} (m : St X) : Prop := forall s s' x, m s = Done (s', x) -> view s' = view s.

Lemma bind_St {X Y} (m : St X) (k : X -> St Y) s s' y :
  (m ≫= k) s = Done (s', y) -> exists s1 x, m s = Done (s1, x) /\ k x s1 = Done (s', y).
Proof. unfold mbind, St_bind. destruct (m s) as [[s1 x]|]; [|done]. intros. by exists s1, x. Qed.

Lemma pure_St {X} (o : outcome X) s s' x : pure o s = Done (s', x) -> s' = s /\ o = Done x.
Proof. unfold pure. destruct o; [|done]. by intros [= <- <-]. Qed.

Lemma frame_bind {X Y} (m : St X) (k : X -> St Y) : frame m -> (forall x, frame (k x)) -> frame (m ≫= k).
Proof. intros Hm Hk s s' y (s1 & x & H1 & H2)%bind_St. rewrite (Hk _ _ _ _ H2). by eapply Hm. Qed.
Lemma frame_ret {X} (x : X) : frame (mret x).
Proof. by intros s s' y [= <- _]. Qed.
Lemma frame_pure {X} (o : outcome X) : frame (pure o).
Proof. by intros s s' y [-> _]%pure_St. Qed.
Lemma frame_get {X} (f : StoreInner -> X) : frame (get f).
Proof. by intros s s' y [= <- _]. Qed.
Lemma frame_modify f : (forall s, view (f s) = view s) -> frame (modify f).
Proof. intros Hf s s' y [= <-]. apply Hf. Qed.
Lemma frame_when b m : frame m -> frame (when b m).
Proof. destruct b; [done|]. intros _. apply frame_ret. Qed.
Lemma frame_for_each {Y} (xs : list Y) f : (forall x, frame (f x)) -> frame (for_each xs f).
Proof. intros Hf. induction xs; simpl; [apply frame_ret|by apply frame_bind]. Qed.

Create HintDb frames.
Hint Resolve frame_ret frame_pure frame_get : frames.
Ltac framed :=
  repeat (intros; cbn beta iota;
    first [ solve [eauto 2 with frames] | apply frame_bind | apply frame_when | apply frame_for_each
          | apply frame_modify; reflexivity
          | match goal with |- frame (match ?x with _ => _ end) => destruct x end ]).

Lemma frame_saw o m : frame (saw_timestamp o m).
Proof. unfold saw_timestamp. framed. Qed.
Lemma frame_tell c : frame (tell c).
Proof. unfold tell. framed. Qed.
Hint Resolve frame_saw frame_tell : frames.
Lemma frame_tell_or_finish c : frame (tell_or_finish c).
Proof. unfold tell_or_finish. framed. Qed.
Lemma frame_tell_snapshot ls b : frame (tell_snapshot ls b).
Proof. induction ls; simpl; framed. Qed.
Lemma frame_take_read oi : frame (take_read oi).
Proof. unfold take_read. framed. Qed.
Hint Resolve frame_tell_or_finish frame_tell_snapshot frame_take_read : frames.
Lemma frame_give_reads p b1 b2 b3 m ls b4 b5 : frame (give_reads p b1 b2 b3 m ls b4 b5).
Proof. revert b4 b5. induction ls as [|l ls IH]; intros b4 b5; simpl; framed. Qed.
Hint Resolve frame_give_reads : frames.
Lemma frame_completed_read p b : frame (handle_completed_read p b).
Proof. unfold handle_completed_read. framed. Qed.
Lemma frame_servers msg : frame (get_servers_for_multi msg).
Proof. unfold get_servers_for_multi. framed. Qed.
Hint Resolve frame_completed_read frame_servers : frames.
Lemma frame_finished token p rem ts : frame (skeens_finished token p rem ts).
Proof. unfold skeens_finished. framed. Qed.
Lemma frame_prep msg : frame (prep_skeens1 msg).
Proof. unfold prep_skeens1. framed. Qed.
Lemma frame_from_server token : frame (from_server token).
Proof. unfold from_server. framed. Qed.
Hint Resolve frame_finished frame_prep frame_from_server : frames.

(** ** The invariant *)

Context (evs : list Event) (WB : well_behaved evs).

Definition round2_sent (s : StoreInner) (id m : Z) : Prop :=
  exists token p, (token, p) ∈ sent s /\ is_unlock p /\ Packets.id p = id /\ lock_num p = Done m.

Definition write_ok (s : StoreInner) (id : Z) (w : WriteState) : Prop :=
  match w with
  | Skeens1 buf rem ts _ | SnapshotSkeens1 buf rem ts =>
      Packets.id buf = id /\ round1 evs id (chains_of buf) rem ts /\ forall m, ~ round2_sent s id m
  | _ => True
  end.

(** [seen] are the ids of the writes so far, [owed] the second rounds that are still to be sent. *)
Record Inv (seen : list Z) (owed : list SK2Send) (s : StoreInner) : Prop := {
  iv_n : num_chain_servers s = n;
  iv_u : is_unreplicated s = unreplicated;
  iv_seen : forall id w, sent_writes s !! id = Some w -> id ∈ seen;
  iv_writes : forall id w, sent_writes s !! id = Some w -> write_ok s id w;
  iv_owed : forall p, p ∈ owed -> let id := Packets.id (sk_buf p) in
    is_max evs id (chains_of (sk_buf p)) (sk_max_ts p) /\ request_chains evs id (chains_of (sk_buf p)) /\
    id ∈ seen /\ sent_writes s !! id = None /\ forall m, ~ round2_sent s id m;
  iv_nodup : NoDup ((fun p => Packets.id (sk_buf p)) <$> owed);
  iv_sent : forall token p, (token, p) ∈ sent s -> is_unlock p -> Packets.id p ∈ seen /\
    exists m, lock_num p = Done m /\ is_max evs (Packets.id p) (chains_of p) m /\
      request_chains evs (Packets.id p) (chains_of p);
  iv_agree : forall id m m', round2_sent s id m -> round2_sent s id m' -> m = m';
}.

Lemma inv_frame seen owed s s' :
  num_chain_servers s' = num_chain_servers s -> is_unreplicated s' = is_unreplicated s ->
  sent_writes s' = sent_writes s -> sent s' = sent s -> Inv seen owed s -> Inv seen owed s'.
Proof.
  intros E1 E2 E3 E4 HI. split; unfold write_ok, round2_sent; rewrite ?E1, ?E2, ?E3, ?E4; apply HI.
Qed.

Lemma store_inv_view seen owed s s' : view s' = view s -> Inv seen owed s -> Inv seen owed s'.
Proof. unfold view. intros [= E1 E2 E3 E4 E5]. by apply inv_frame. Qed.

Lemma inv_remove seen owed s id : Inv seen owed s -> Inv seen owed (set_sent_writes (delete id (sent_writes s)) s).
Proof.
  intros HI. split; simpl; try apply HI.
  - intros id' w [_ Hw]%lookup_delete_Some. by eapply iv_seen.
  - intros id' w [_ Hw]%lookup_delete_Some. by eapply (iv_writes _ _ _ HI).
  - intros p Hp. destruct (iv_owed _ _ _ HI p Hp) as (? & ? & ? & Hn & ?). split_and!; try done.
    rewrite lookup_delete_None. by right.
Qed.

Lemma inv_insert seen owed s id w :
  Inv seen owed s -> id ∈ seen -> (forall p, p ∈ owed -> Packets.id (sk_buf p) <> id) -> write_ok s id w ->
  Inv seen owed (set_sent_writes (<[id := w]> (sent_writes s)) s).
Proof.
  intros HI Hs Ho Hw. split; simpl; try apply HI.
  - intros id' w' [[<- _]|[_ Hw']]%lookup_insert_Some; [done|by eapply iv_seen].
  - intros id' w' [[<- <-]|[_ Hw']]%lookup_insert_Some; [done|by eapply (iv_writes _ _ _ HI)].
  - intros p Hp. destruct (iv_owed _ _ _ HI p Hp) as (? & ? & ? & Hn & ?). split_and!; try done.
    rewrite lookup_insert_ne; [done|]. intros E. by apply (Ho p Hp).
Qed.

(** A packet that is not of the second round. *)
Lemma round2_snoc s token p id m :
  round2_sent (set_sent (sent s ++ [(token, p)]) s) id m ->
  round2_sent s id m \/ (is_unlock p /\ Packets.id p = id /\ lock_num p = Done m).
Proof.
  intros (token' & p' & [Hin|[= -> ->]%list_elem_of_singleton]%elem_of_app & Hp'); [left|by right].
  by exists token', p'.
Qed.

Lemma inv_send seen owed s token p :
  ~ is_unlock p -> Inv seen owed s -> Inv seen owed (set_sent (sent s ++ [(token, p)]) s).
Proof.
  intros Hp HI. assert (Hr : forall id m, round2_sent (set_sent (sent s ++ [(token, p)]) s) id m -> round2_sent s id m).
  { intros id m [?|[? _]]%round2_snoc; done. }
  split; simpl; try apply HI.
  - intros id w Hw. pose proof (iv_writes _ _ _ HI id w Hw) as Hok. destruct w; simpl in *; try done;
      destruct Hok as (? & ? & Hn); (split_and!; try done); intros m Hm; by apply (Hn m), Hr.
  - intros p' Hp'. destruct (iv_owed _ _ _ HI p' Hp') as (? & ? & ? & ? & Hn). split_and!; try done.
    intros m Hm. by apply (Hn m), Hr.
  - intros token' p' [Hin|[= -> ->]%list_elem_of_singleton]%elem_of_app Hu; [|done]. by eapply iv_sent.
  - intros id m m' Hm Hm'. by eapply (iv_agree _ _ _ HI id); apply Hr.
Qed.

(** A packet of the second round. *)
Lemma inv_send2 seen owed s token p m :
  Inv seen owed s -> Packets.id p ∈ seen -> lock_num p = Done m ->
  is_max evs (Packets.id p) (chains_of p) m -> request_chains evs (Packets.id p) (chains_of p) ->
  sent_writes s !! Packets.id p = None -> (forall q, q ∈ owed -> Packets.id (sk_buf q) <> Packets.id p) ->
  (forall m', round2_sent s (Packets.id p) m' -> m' = m) ->
  Inv seen owed (set_sent (sent s ++ [(token, p)]) s).
Proof.
  intros HI Hs Hl Hmax Hrc Hnone Ho Hag.
  assert (Hr : forall id m', id <> Packets.id p ->
    round2_sent (set_sent (sent s ++ [(token, p)]) s) id m' -> round2_sent s id m').
  { intros id m' Hne [?|(_ & E & _)]%round2_snoc; [done|]. by subst. }
  split; simpl; try apply HI.
  - intros id w Hw. assert (id <> Packets.id p) by congruence.
    pose proof (iv_writes _ _ _ HI id w Hw) as Hok. destruct w; simpl in *; try done;
      destruct Hok as (? & ? & Hn); (split_and!; try done); intros m' Hm; by apply (Hn m'), Hr.
  - intros q Hq. destruct (iv_owed _ _ _ HI q Hq) as (? & ? & ? & ? & Hn). split_and!; try done.
    intros m' Hm. by apply (Hn m'), Hr; [apply Ho|].
  - intros token' p' [Hin|[= -> ->]%list_elem_of_singleton]%elem_of_app Hu; [by eapply iv_sent|]. eauto.
  - assert (Hm : forall m', round2_sent (set_sent (sent s ++ [(token, p)]) s) (Packets.id p) m' -> m' = m).
    { intros m' [?|(_ & _ & E)]%round2_snoc; [by apply Hag|]. congruence. }
    intros id m1 m2 H1 H2. destruct (decide (id = Packets.id p)) as [->|Hne].
    + by rewrite (Hm m1), (Hm m2).
    + by eapply (iv_agree _ _ _ HI id); apply Hr.
Qed.

Lemma inv_owe seen owed s p :
  Inv seen owed s -> let id := Packets.id (sk_buf p) in
  is_max evs id (chains_of (sk_buf p)) (sk_max_ts p) -> request_chains evs id (chains_of (sk_buf p)) ->
  id ∈ seen -> sent_writes s !! id = None -> (forall m, ~ round2_sent s id m) ->
  (forall q, q ∈ owed -> Packets.id (sk_buf q) <> id) -> Inv seen (owed ++ [p]) s.
Proof.
  intros HI id H1 H2 H3 H4 H5 Hne. split; try apply HI.
  - intros q [Hq| ->%list_elem_of_singleton]%elem_of_app; [by apply (iv_owed _ _ _ HI)|done].
  - rewrite fmap_app. apply NoDup_app. split_and!; [apply HI| |apply NoDup_singleton].
    intros x (q & -> & Hq)%list_elem_of_fmap E%list_elem_of_singleton. by apply (Hne q).
Qed.

(** ** What the edits of a packet leave alone *)

Lemma locs_mut_id f p p' : locs_mut f p = Done p' -> Packets.id p' = Packets.id p.
Proof. destruct p; simpl; by intros [= <-]. Qed.
Lemma lock_mut_id f p p' : lock_mut f p = Done p' -> Packets.id p' = Packets.id p.
Proof. destruct p; simpl; by intros [= <-]. Qed.
Lemma flag_mut_id f p p' : flag_mut f p = Done p' -> Packets.id p' = Packets.id p.
Proof. destruct p; simpl; by intros [= <-]. Qed.

Lemma lock_mut_locs f p p' : lock_mut f p = Done p' -> locs_of p' = locs_of p.
Proof. destruct p; simpl; by intros [= <-]. Qed.
Lemma flag_mut_locs f p p' : flag_mut f p = Done p' -> locs_of p' = locs_of p.
Proof. destruct p; simpl; by intros [= <-]. Qed.
Lemma clear_locs_locs p p' : locs_mut clear_locs p = Done p' -> locs_of p' = clear_locs (locs_of p).
Proof. destruct p; simpl; by intros [= <-]. Qed.

Definition no_unlock (p : Ref) : Prop := forall f, flag p = Done f -> EntryFlag.contains f EntryFlag.Unlock = false.

Lemma no_unlock_spec p : no_unlock p -> ~ is_unlock p.
Proof. intros Hp (f & Hf & Hu). by rewrite (Hp f Hf) in Hu. Qed.

Lemma locs_mut_unlock f p p' : no_unlock p -> locs_mut f p = Done p' -> no_unlock p'.
Proof. intros Hp Hm. destruct p; simpl in Hm; try done; injection Hm as <-; exact Hp. Qed.
Lemma lock_mut_unlock f p p' : no_unlock p -> lock_mut f p = Done p' -> no_unlock p'.
Proof. intros Hp Hm. destruct p; simpl in Hm; try done; injection Hm as <-; exact Hp. Qed.

Lemma flag_mut_unlock g p p' :
  Z.land g EntryFlag.Unlock = 0 -> no_unlock p -> flag_mut (fun f => EntryFlag.insert f g) p = Done p' -> no_unlock p'.
Proof.
  intros Hg Hp Hm f Hf. assert (exists f0, flag p = Done f0 /\ f = EntryFlag.insert f0 g) as (f0 & Hf0 & ->).
  { destruct p; simpl in Hm; try done; injection Hm as <-; simpl in Hf; injection Hf as <-; eauto. }
  specialize (Hp f0 Hf0). unfold EntryFlag.contains, EntryFlag.insert in *.
  by rewrite Z.land_lor_distr_l, Hg, Z.lor_0_r.
Qed.

Lemma slice_unlock (is_data : bool) p p' :
  no_unlock p -> (if is_data then slice_to_multi p else slice_to_sentinel p) = Done p' -> no_unlock p'.
Proof.
  intros Hp Hm. destruct is_data, p; simpl in Hm; try done; try (injection Hm as <-; exact Hp).
  destruct (num_deps =? 0); [|done]. injection Hm as <-. exact Hp.
Qed.

(** The packet of the second round is about the same write, with the timestamp as its lock. *)
Lemma round2_packet_spec buf m p :
  round2_packet buf m = Done p ->
  Packets.id p = Packets.id buf /\ chains_of p = chains_of buf /\ lock_num p = Done m.
Proof.
  unfold round2_packet. intros Hp. apply bind_done in Hp as (b & Hb & Hp).
  assert (exists f db l deps, b = Senti (Packets.id buf) f db l (locs_of buf) deps) as (f & db & l & deps & ->).
  { destruct buf; simpl in Hb; try done; try (injection Hb as <-; by eexists _, _, _, _).
    destruct (num_deps =? 0); [|done]. injection Hb as <-. by eexists _, _, _, _. }
  cbn in Hp. injection Hp as <-. split; [done|]. split; [|done].
  change (oi_order <$> clear_locs (locs_of buf) = oi_order <$> locs_of buf).
  generalize (locs_of buf) as ls. induction ls as [|x ls IH]; [done|]. by apply (f_equal (cons (oi_order x))).
Qed.

(** ** A write of which the id is known

    The steps that handle it send nothing of the second round, and insert it only in states in
    which that round is over or was never needed. *)

Section OneWrite.
Context (seen : list Z) (id : Z).

Definition about (s : StoreInner) : Prop :=
  Inv seen (pending_skeens2 s) s /\ id ∈ seen /\ forall p, p ∈ pending_skeens2 s -> Packets.id (sk_buf p) <> id.

Definition mild {X} (m : St X) : Prop := forall s s' x, about s -> m s = Done (s', x) ->
  about s' /\ forall k, round2_sent s' id k -> round2_sent s id k.

Lemma mild_bind {X Y} (m : St X) (k : X -> St Y) : mild m -> (forall x, mild (k x)) -> mild (m ≫= k).
Proof.
  intros Hm Hk s s' y Ha (s1 & x & H1 & H2)%bind_St. destruct (Hm _ _ _ Ha H1) as [Ha1 Hr1].
  destruct (Hk x _ _ _ Ha1 H2) as [Ha2 Hr2]. split; [done|]. auto.
Qed.

Lemma mild_frame {X} (m : St X) : frame m -> mild m.
Proof.
  intros Hm s s' x (HI & Hs & Ho) H1. pose proof (Hm _ _ _ H1) as Hv.
  assert (pending_skeens2 s' = pending_skeens2 s /\ sent s' = sent s) as [Ep Es] by (unfold view in Hv; by simplify_eq).
  unfold about, round2_sent. rewrite Ep, Es. split_and!; try done. by eapply store_inv_view.
Qed.

Lemma mild_insert w : (forall s, write_ok s id w) -> mild (insert_write id w).
Proof.
  intros Hw s s' x (HI & Hs & Ho) [= <-]. split; [|done]. split; [|done]. by apply inv_insert.
Qed.

Lemma mild_send token p : ~ is_unlock p -> mild (send_to token p).
Proof.
  intros Hp s s' x (HI & Hs & Ho) Hm. unfold send_to in Hm. apply bind_St in Hm as (s1 & known & [= <- <-] & Hm).
  apply bind_St in Hm as (s2 & [] & Hk & [= <- _]).
  destruct (bool_decide _); simpl in Hk; injection Hk as <-; [|done]. split; [split; [|done]|].
  - by apply inv_send.
  - intros k [?|[? _]]%round2_snoc; done.
Qed.

Lemma mild_for_each {Y} (xs : list Y) f : (forall x, mild (f x)) -> mild (for_each xs f).
Proof. intros Hf. induction xs; simpl; [apply mild_frame, frame_ret|by apply mild_bind]. Qed.

Lemma mild_pure {X Y} (o : outcome X) (k : X -> St Y) : (forall x, o = Done x -> mild (k x)) -> mild (pure o ≫= k).
Proof. intros Hk s s' y Ha (s1 & x & [-> Hx]%pure_St & H2)%bind_St. by eapply Hk. Qed.

Create HintDb mild.
Hint Resolve mild_send : mild.
Ltac milds :=
  repeat (intros; cbn beta iota;
    first [ solve [apply mild_frame; framed] | solve [eauto 2 with mild] | apply mild_pure | apply mild_bind | apply mild_for_each
          | apply mild_insert; done
          | match goal with |- mild (match ?x with _ => _ end) => destruct x end
          | match goal with |- mild (when ?b _) => destruct b; cbn [when] end ]).

Lemma mild_skeens2 token p buf rem m : Packets.id p = id -> mild (finish_skeens2 token p buf rem m).
Proof.
  intros E. unfold finish_skeens2. milds. match goal with Hp : locs_mut _ p = _ |- _ => rewrite (locs_mut_id _ _ _ Hp), E end. milds.
Qed.
Lemma mild_snapshot_skeens2 token p buf rem m : Packets.id p = id -> mild (finish_snapshot_skeens2 token p buf rem m).
Proof. intros E. unfold finish_snapshot_skeens2. rewrite E. milds. Qed.
Lemma mild_single_server token p buf : Packets.id p = id -> mild (finish_single_server token p buf).
Proof. intros E. unfold finish_single_server. rewrite E. milds. Qed.

Lemma mild_single_send token msg :
  Packets.id msg = id -> no_unlock msg -> mild (add_single_server_send token msg).
Proof.
  intros E Hu. unfold add_single_server_send. rewrite E.
  apply mild_bind; [by apply mild_send, no_unlock_spec|]. milds.
Qed.

Lemma mild_send_skeens1 msg servers send : no_unlock msg -> mild (send_skeens1 msg servers send).
Proof.
  revert msg send. induction servers as [|k servers IH]; intros msg send Hu; simpl; [milds|].
  apply mild_bind; [milds|]. intros known. destruct (negb known); [by apply IH|].
  apply mild_bind; [milds|]. intros n0. apply mild_bind; [milds|]. intros ls. cbn zeta.
  do 4 (apply mild_bind; [milds|]; intros ?).
  apply mild_pure. intros msg' Hm. apply mild_bind; [milds|]. intros _.
  apply mild_pure. intros p Hp.
  pose proof (flag_mut_unlock EntryFlag.TakeLock _ _ eq_refl Hu Hm) as Hu'.
  apply mild_bind; [|intros; by apply IH]. apply mild_send, no_unlock_spec. by eapply slice_unlock.
Qed.

Lemma mild_send_all p servers send : no_unlock p -> mild (send_all p servers send).
Proof.
  intros Hu. revert send. induction servers as [|k servers IH]; intros send; simpl; [milds|].
  apply mild_bind; [by apply mild_send, no_unlock_spec|]. intros; apply IH.
Qed.

End OneWrite.

(** ** The answers of the first round *)

Lemma skeens_finished_spec s s' token p rem ts r rem' ts' chains :
  num_chain_servers s = n -> is_unreplicated s = unreplicated ->
  round1 evs (Packets.id p) chains rem ts -> Receive token p ∈ evs -> chains_of p = chains ->
  skeens_finished token p rem ts s = Done (s', (r, rem', ts')) ->
  round1 evs (Packets.id p) chains rem' ts' /\ forall m, r = Some m -> is_max evs (Packets.id p) chains m.
Proof.
  intros En Eu Hr Hin Hch Hs. unfold skeens_finished in Hs.
  destruct (bool_decide_reflect (token ∈ rem)) as [Htok|]; simpl in Hs; [|by injection Hs as <- <- <- <-].
  apply bind_St in Hs as (s1 & ls & [-> Hls]%pure_St & Hs).
  apply bind_St in Hs as (s2 & n' & [= <- <-] & Hs). apply bind_St in Hs as (s3 & u & [= <- <-] & Hs).
  apply bind_St in Hs as (s4 & ts1 & [-> Hf]%pure_St & Hs). rewrite En, Eu in Hf.
  assert (Els : locs_of p = ls) by (unfold locs_of; by rewrite Hls). rewrite <- Els in Hf.
  pose proof (round1_ack _ _ _ _ _ _ _ _ Hr Hin eq_refl Hch Hf) as Hr'.
  case_bool_decide as Ee; [|by injection Hs as <- <- <- <-].
  apply bind_St in Hs as (s5 & m & [-> Hm]%pure_St & Hs). apply bind_St in Hs as (s6 & [] & _ & Hs).
  injection Hs as _ <- <- <-. split; [done|]. intros m' [= <-].
  destruct (r1_rem _ _ _ _ _ Hr token Htok) as (o & Ho & Hz & _). rewrite Ee in Hr'. by eapply round1_max.
Qed.

Lemma insert_write_done id w s s' x :
  insert_write id w s = Done (s', x) -> s' = set_sent_writes (<[id := w]> (sent_writes s)) s.
Proof. by intros [= <-]. Qed.

(** The write was taken out of [sent_writes], and nobody knows more about it. *)
Definition taken (seen : list Z) (id : Z) (s : StoreInner) : Prop :=
  about seen id s /\ sent_writes s !! id = None /\ forall m, ~ round2_sent s id m.

Lemma taken_frame seen id s s' : view s' = view s -> taken seen id s -> taken seen id s'.
Proof.
  intros Hv ((HI & Hs & Ho) & Hn & Hr). unfold taken, about, round2_sent in *.
  assert (pending_skeens2 s' = pending_skeens2 s /\ sent s' = sent s /\ sent_writes s' = sent_writes s)
    as (-> & -> & ->) by (unfold view in Hv; by simplify_eq).
  split_and!; try done. by eapply store_inv_view.
Qed.

Lemma add_sk2_inv seen buf m b s s' x :
  taken seen (Packets.id buf) s -> is_max evs (Packets.id buf) (chains_of buf) m ->
  request_chains evs (Packets.id buf) (chains_of buf) -> add_sk2 buf m b s = Done (s', x) ->
  Inv seen (pending_skeens2 s') s'.
Proof.
  intros Ht Hm Hrc Hs. unfold add_sk2 in Hs. apply bind_St in Hs as (s1 & servers & H1 & [= <-]).
  apply (taken_frame _ _ _ s1 (frame_servers _ _ _ _ H1)) in Ht as ((HI & Hs & Ho) & Hn & Hr).
  eapply (inv_frame _ _ s1); [done..|]. simpl. by apply inv_owe.
Qed.

(** The first round of a multi-append, and that of a snapshot. *)
Lemma finish_round1 seen token p buf rem ts b s s' x (mk : gset Z -> list Z -> WriteState) :
  taken seen (Packets.id p) s -> Receive token p ∈ evs -> Packets.id buf = Packets.id p ->
  round1 evs (Packets.id p) (chains_of buf) rem ts ->
  (forall rem ts s, round1 evs (Packets.id p) (chains_of buf) rem ts -> (forall m, ~ round2_sent s (Packets.id p) m) ->
    write_ok s (Packets.id p) (mk rem ts)) ->
  ('(ready, rem, ts) ← skeens_finished token p rem ts;
   match ready with Some m => add_sk2 buf m b | None => insert_write (Packets.id p) (mk rem ts) end) s = Done (s', x) ->
  Inv seen (pending_skeens2 s') s'.
Proof.
  intros Ht Hin Eid Hr Hmk Hs. apply bind_St in Hs as (s1 & [[ready rem'] ts'] & H1 & Hs).
  pose proof (frame_finished _ _ _ _ _ _ _ H1) as Hv.
  assert (Hch : chains_of p = chains_of buf).
  { destruct (r1_chains _ _ _ _ _ Hr) as (req & Hreq & Hw & Ei & <-). by eapply (wb_echo _ WB). }
  destruct (skeens_finished_spec _ _ _ _ _ _ _ _ _ _ (iv_n _ _ _ (proj1 (proj1 Ht))) (iv_u _ _ _ (proj1 (proj1 Ht)))
    Hr Hin Hch H1) as [Hr' Hmax].
  apply (taken_frame _ _ _ s1 Hv) in Ht. destruct ready as [m|].
  - rewrite <- Eid in Ht. eapply add_sk2_inv; [exact Ht| | |exact Hs]; rewrite Eid; [by apply Hmax|apply Hr].
  - apply insert_write_done in Hs as ->. destruct Ht as ((HI & Hseen & Ho) & Hn & Hr2).
    simpl. apply inv_insert; [done..|]. by apply Hmk.
Qed.

Lemma completed_write_inv seen token p s s' x :
  Inv seen (pending_skeens2 s) s -> Receive token p ∈ evs ->
  handle_completed_write token p s = Done (s', x) -> Inv seen (pending_skeens2 s') s'.
Proof.
  intros HI Hin Hs. unfold handle_completed_write in Hs.
  apply bind_St in Hs as (s0 & f & [-> Hf]%pure_St & Hs). apply bind_St in Hs as (s1 & v & Hv & Hs).
  unfold remove_write in Hv. apply bind_St in Hv as (s2 & v' & [= <- <-] & Hv).
  apply bind_St in Hv as (s3 & [] & [= <-] & [= <- <-]).
  set (s1 := set_sent_writes _ s) in Hs. set (id := Packets.id p) in *.
  assert (HI1 : Inv seen (pending_skeens2 s1) s1) by by apply inv_remove.
  destruct (sent_writes s !! id) as [w|] eqn:Ew; cycle 1.
  { apply bind_St in Hs as (s2 & l & [-> _]%pure_St & [= <- _]). done. }
  assert (Ha : about seen id s1).
  { split; [done|]. split; [exact (iv_seen _ _ _ HI id w Ew)|]. intros q Hq E.
    destruct (iv_owed _ _ _ HI q Hq) as (_ & _ & _ & Hn & _). rewrite E, Ew in Hn. done. }
  pose proof (iv_writes _ _ _ HI id w Ew) as Hok.
  assert (Ht : (forall m, ~ round2_sent s id m) -> taken seen id s1).
  { intros Hr. split; [done|]. split; [apply lookup_delete_eq|done]. }
  destruct w as [buf|buf rem ts b|buf rem m|buf rem ts|buf rem m|buf]; simpl in Hok.
  - apply bind_St in Hs as (s2 & ok & H1 & [= <- _]). by eapply (mild_single_server seen id).
  - destruct Hok as (Eid & Hr1 & Hr2). apply bind_St in Hs as (s2 & [] & H1 & [= <- _]).
    destruct (EntryFlag.contains f _); simpl in H1; [|by injection H1 as <-].
    unfold finish_skeens1 in H1. apply bind_St in H1 as (? & nm & [= <- <-] & H1).
    apply bind_St in H1 as (? & [] & [-> _]%pure_St & H1). apply bind_St in H1 as (? & [] & [-> _]%pure_St & H1).
    eapply (finish_round1 seen token p buf rem ts false s1 s2 _ (fun rem ts => Skeens1 buf rem ts b)); [by apply Ht|done..|by intros; split_and!|exact H1].
  - apply bind_St in Hs as (s2 & ok & H1 & [= <- _]). by eapply (mild_skeens2 seen id).
  - destruct Hok as (Eid & Hr1 & Hr2). apply bind_St in Hs as (s2 & [] & H1 & [= <- _]).
    destruct (EntryFlag.contains f _); simpl in H1; [|by injection H1 as <-].
    unfold finish_snapshot_skeens1 in H1. apply bind_St in H1 as (? & nm & [= <- <-] & H1).
    apply bind_St in H1 as (? & [] & [-> _]%pure_St & H1). apply bind_St in H1 as (? & [] & [-> _]%pure_St & H1).
    eapply (finish_round1 seen token p buf rem ts true s1 s2 _ (fun rem ts => SnapshotSkeens1 buf rem ts)); [by apply Ht|done..|by intros; split_and!|exact H1].
  - apply bind_St in Hs as (s2 & [] & H1 & [= <- _]). by eapply (mild_snapshot_skeens2 seen id).
  - by injection Hs as <- _.
Qed.

Lemma message_inv seen token p s s' x :
  Inv seen (pending_skeens2 s) s -> Receive token p ∈ evs ->
  handle_message token p s = Done (s', x) -> Inv seen (pending_skeens2 s') s'.
Proof.
  intros HI Hin Hs.
  assert (Hfr : forall (m : St unit) s1 s2 x, frame m -> Inv seen (pending_skeens2 s1) s1 -> m s1 = Done (s2, x) ->
    Inv seen (pending_skeens2 s2) s2).
  { intros m s1 s2 y Hm HI1 H1. pose proof (Hm _ _ _ H1) as Hv.
    assert (pending_skeens2 s2 = pending_skeens2 s1) as -> by (unfold view in Hv; by simplify_eq).
    by eapply store_inv_view. }
  unfold handle_message in Hs. apply bind_St in Hs as (s0 & f & [-> Hf]%pure_St & Hs).
  destruct (EntryFlag.contains f EntryFlag.ReadSuccess); [|eapply Hfr; [|done..]; framed].
  destruct (_ || _); simpl in Hs; [|by injection Hs as <- _].
  unfold handle_completion in Hs. apply bind_St in Hs as (s1 & w & H1 & Hs).
  pose proof (completed_write_inv _ _ _ _ _ _ HI Hin H1) as HI1. eapply Hfr; [|done..]. framed.
Qed.

(** ** Requests *)

Lemma servers_for_spec ls k :
  k ∈ servers_for n ls <-> exists l, l ∈ ls /\ l <> separator /\ oi_order l mod Z.pos n = k.
Proof.
  unfold servers_for. rewrite list_elem_of_filter, elem_of_seqZ, Exists_exists.
  setoid_rewrite list_elem_of_filter. unfold write_server_for_chain. split.
  - intros [(l & [? ?] & ?) _]. eauto.
  - intros (l & ? & ? & <-). split; [by exists l|]. pose proof (Z.mod_pos_bound (oi_order l) (Z.pos n)). lia.
Qed.

Lemma prep_spec msg s s' servers rem ts :
  num_chain_servers s = n -> is_unreplicated s = unreplicated ->
  request_chains evs (Packets.id msg) (chains_of msg) ->
  (forall l, l ∈ locs_of msg -> oi_order l = 0 -> l = separator) ->
  prep_skeens1 msg s = Done (s', (servers, rem, ts)) ->
  round1 evs (Packets.id msg) (chains_of msg) rem ts.
Proof.
  intros En Eu Hrc Hz Hs. unfold prep_skeens1 in Hs. apply bind_St in Hs as (s1 & ls & [-> Hls]%pure_St & Hs).
  apply bind_St in Hs as (s2 & sv & H1 & Hs). unfold get_servers_for_multi in H1.
  apply bind_St in H1 as (? & lay & [-> _]%pure_St & H1). apply bind_St in H1 as (? & [] & [-> _]%pure_St & H1).
  apply bind_St in H1 as (? & ls' & [-> Hls']%pure_St & H1). injection H1 as <- <-.
  apply bind_St in Hs as (s3 & r & [= <- <-] & Hs). injection Hs as _ <- <- <-.
  rewrite Hls in Hls'. injection Hls' as <-. assert (Els : locs_of msg = ls) by (unfold locs_of; by rewrite Hls).
  assert (Hrem : forall k, k ∈ (list_to_set (read_server_for_write_server s <$> servers_for (num_chain_servers s) ls) : gset Z) <->
    exists o, o ∈ chains_of msg /\ o <> 0 /\ rs o = k).
  { intros k. rewrite elem_of_list_to_set, list_elem_of_fmap. rewrite En. setoid_rewrite servers_for_spec.
    assert (Hrs : forall o, read_server_for_write_server s (o mod Z.pos n) = rs o).
    { intros o. unfold read_server_for_write_server, read_server_for_chain. by rewrite En, Eu. }
    unfold chains_of. rewrite Els. split.
    - intros (w & -> & l & Hl & Hne & <-). exists (oi_order l). rewrite Hrs. split_and!; [|intros E|done].
      + apply list_elem_of_fmap. eauto.
      + apply Hne, Hz; [by rewrite Els|done].
    - intros (o & (l & -> & Hl)%list_elem_of_fmap & Hne & <-). exists (oi_order l mod Z.pos n). rewrite Hrs.
      split; [done|]. exists l. split_and!; try done. by intros ->. }
  split; [done| |].
  - apply Forall2_same_length_lookup_2; [unfold chains_of; by rewrite Els, length_fmap, length_replicate|].
    intros i o t Ho [-> _]%lookup_replicate. unfold ts_ok. destruct (decide (o = 0)) as [->|Hne]; [by left|].
    right; left. split_and!; try done. apply Hrem. exists o. split_and!; try done. by eapply list_elem_of_lookup_2.
  - intros k. apply Hrem.
Qed.

Lemma inv_more seen seen' owed s : (forall id, id ∈ seen -> id ∈ seen') -> Inv seen owed s -> Inv seen' owed s.
Proof.
  intros Hm HI. split; try apply HI.
  - intros id w Hw. by eapply Hm, iv_seen.
  - intros p Hp. destruct (iv_owed _ _ _ HI p Hp) as (? & ? & ? & ?). simpl. split_and!; try done; try tauto. by apply Hm.
  - intros token p Hp Hu. destruct (iv_sent _ _ _ HI token p Hp Hu) as [? ?]. split; [by apply Hm|done].
Qed.

(** A new write: nobody has heard of it. *)
Lemma about_new seen id s :
  Inv seen (pending_skeens2 s) s -> id ∉ seen ->
  about (seen ++ [id]) id s /\ forall m, ~ round2_sent s id m.
Proof.
  intros HI Hid. split; [split; [|split]|].
  - eapply inv_more; [|done]. set_solver.
  - set_solver.
  - intros p Hp <-. by destruct (iv_owed _ _ _ HI p Hp) as (_ & _ & ? & _).
  - intros m (token & p & Hp & Hu & <- & _). by destruct (iv_sent _ _ _ HI token p Hp Hu).
Qed.

Lemma first_round_sent {Y} seen id msg s s1 s2 s' servers rem ts (m : St Y) (x : Y) (w : WriteState) :
  about seen id s -> (forall k, ~ round2_sent s id k) ->
  Packets.id msg = id -> request_chains evs id (chains_of msg) ->
  (forall l, l ∈ locs_of msg -> oi_order l = 0 -> l = separator) ->
  prep_skeens1 msg s = Done (s1, (servers, rem, ts)) ->
  mild seen id m -> m s1 = Done (s2, x) ->
  (forall s, (forall k, ~ round2_sent s id k) -> round1 evs id (chains_of msg) rem ts -> write_ok s id w) ->
  insert_write id w s2 = Done (s', tt) -> Inv seen (pending_skeens2 s') s'.
Proof.
  intros Ha Hr <- Hrc Hz Hp Hm H2 Hw Hi.
  pose proof (prep_spec _ _ _ _ _ _ (iv_n _ _ _ (proj1 Ha)) (iv_u _ _ _ (proj1 Ha)) Hrc Hz Hp) as Hr1.
  destruct (mild_frame seen (Packets.id msg) _ (frame_prep msg) _ _ _ Ha Hp) as [Ha1 Hk1].
  destruct (Hm _ _ _ Ha1 H2) as [(HI2 & Hs2 & Ho2) Hk2]. apply insert_write_done in Hi as ->. simpl.
  apply inv_insert; [done..|]. apply Hw; [|done]. intros k Hk. by apply (Hr k), Hk1, Hk2.
Qed.

Lemma add_skeens1_inv seen id msg s s' x :
  about seen id s -> (forall k, ~ round2_sent s id k) -> Packets.id msg = id ->
  request_chains evs id (chains_of msg) -> no_unlock msg ->
  (forall l, l ∈ locs_of msg -> oi_order l = 0 -> l = separator) ->
  add_skeens1 msg s = Done (s', x) -> Inv seen (pending_skeens2 s') s'.
Proof.
  intros Ha Hr Eid Hrc Hu Hz Hs. unfold add_skeens1 in Hs.
  apply bind_St in Hs as (s1 & [[servers rem] ts] & Hp & Hs). apply bind_St in Hs as (s2 & send & H2 & Hs).
  apply bind_St in Hs as (s3 & msg' & [-> Hm]%pure_St & Hs). rewrite (flag_mut_id _ _ _ Hm), Eid in Hs.
  destruct send as [b|]; cycle 1.
  { injection Hs as <- _. destruct (mild_frame seen id _ (frame_prep msg) _ _ _ Ha Hp) as [Ha1 _].
    by destruct (mild_send_skeens1 seen id msg servers None Hu _ _ _ Ha1 H2) as [[? _] _]. }
  destruct x. eapply (first_round_sent seen id msg s s1 s2 s' servers rem ts); try done.
  - by apply mild_send_skeens1.
  - intros s0 Hk Hr1. split; [by rewrite (flag_mut_id _ _ _ Hm)|]. split; [|done].
    unfold chains_of in *. by rewrite (flag_mut_locs _ _ _ Hm).
Qed.

Lemma add_snapshot_skeens1_inv seen id msg s s' x :
  about seen id s -> (forall k, ~ round2_sent s id k) -> Packets.id msg = id ->
  request_chains evs id (chains_of msg) -> no_unlock msg ->
  (forall l, l ∈ locs_of msg -> oi_order l = 0 -> l = separator) ->
  add_snapshot_skeens1 msg s = Done (s', x) -> Inv seen (pending_skeens2 s') s'.
Proof.
  intros Ha Hr Eid Hrc Hu Hz Hs. unfold add_snapshot_skeens1 in Hs.
  apply bind_St in Hs as (s1 & [[servers rem] ts] & Hp & Hs). apply bind_St in Hs as (s2 & send & H2 & Hs).
  rewrite Eid in Hs. destruct send; cbn [when] in Hs; cycle 1.
  { injection Hs as <- _. destruct (mild_frame seen id _ (frame_prep msg) _ _ _ Ha Hp) as [Ha1 _].
    by destruct (mild_send_all seen id msg servers false Hu _ _ _ Ha1 H2) as [[? _] _]. }
  destruct x. eapply (first_round_sent seen id msg s s1 s2 s' servers rem ts); try done.
  - by apply mild_send_all.
  - intros s0 Hk Hr1. by split.
Qed.

(** A read is sent, and remembered by its place. *)
Lemma read_inv seen token msg s s' x :
  Inv seen (pending_skeens2 s) s -> no_unlock msg -> layout msg = Done EntryKind.EntryLayout.Read ->
  add_single_server_send token msg s = Done (s', x) -> Inv seen (pending_skeens2 s') s'.
Proof.
  intros HI Hu Hl Hs. unfold add_single_server_send in Hs. apply bind_St in Hs as (s1 & known & H1 & Hs).
  assert (HI1 : Inv seen (pending_skeens2 s1) s1).
  { unfold send_to in H1. apply bind_St in H1 as (s2 & k & [= <- <-] & H1).
    apply bind_St in H1 as (s3 & [] & H1 & [= <- _]). destruct (bool_decide _); simpl in H1; injection H1 as <-; [|done].
    by apply inv_send; [apply no_unlock_spec|]. }
  destruct (negb known); [by injection Hs as <- _|]. rewrite Hl in Hs. cbn zeta in Hs.
  apply bind_St in Hs as (s2 & l & [-> [= <-]]%pure_St & Hs).
  assert (Hf : forall (k : option bool), frame (_ ← (ls ← pure (locs msg); loc ← pure (unwrap (head ls));
      let k := (oi_order loc, oi_entry loc) in
      n ← get (fun s => default 0 (sent_reads s !! k)); n ← pure (add16 n 1);
      modify (fun s => set_sent_reads (<[k := n]> (sent_reads s)) s)); mret k)) by (intros; framed).
  pose proof (Hf _ _ _ _ Hs) as Hv.
  assert (pending_skeens2 s' = pending_skeens2 s1) as -> by (unfold view in Hv; by simplify_eq).
  by eapply store_inv_view.
Qed.

Lemma mild_done {X} seen id (m : St X) s s' x :
  mild seen id m -> about seen id s -> m s = Done (s', x) -> Inv seen (pending_skeens2 s') s'.
Proof. intros Hm Ha Hs. by destruct (Hm _ _ _ Ha Hs) as [[? _] _]. Qed.

Definition id_of_write (req : Ref) : list Z := if is_write_request req then [Packets.id req] else [].

(** A request of this id, unchanged but for its lock, goes to one server. *)
Lemma mild_to_server seen id msg (server : StoreInner -> Z) :
  Packets.id msg = id -> no_unlock msg ->
  mild seen id (k ← get server; sent ← add_single_server_send k msg; pure (unwrap sent)).
Proof.
  intros Eid Hu. apply mild_bind; [apply mild_frame, frame_get|]. intros k.
  apply mild_bind; [by apply mild_single_send|]. intros. apply mild_frame, frame_pure.
Qed.

Lemma request_no_unlock req : Request (Some req) ∈ evs -> no_unlock req.
Proof. intros Hin f Hf. by eapply (wb_unlock _ WB). Qed.

Lemma request_separators req msg :
  Request (Some req) ∈ evs -> locs_of msg = locs_of req \/ locs_of msg = clear_locs (locs_of req) ->
  forall l, l ∈ locs_of msg -> oi_order l = 0 -> l = separator.
Proof.
  intros Hin [-> | ->] l Hl Hz; [by eapply (wb_zero _ WB)|].
  apply list_elem_of_fmap in Hl as (l1 & -> & _). simpl in Hz. by rewrite Hz.
Qed.

Definition lock_flags : Z := EntryFlag.insert EntryFlag.TakeLock EntryFlag.NewMultiPut.

(** A multi-append that spans servers. *)
Lemma skeens_request seen req m1 m2 s s' x :
  about seen (Packets.id req) s -> (forall k, ~ round2_sent s (Packets.id req) k) ->
  Request (Some req) ∈ evs -> is_write_request req = true ->
  flag_mut (fun f => EntryFlag.insert f lock_flags) req = Done m1 -> locs_mut clear_locs m1 = Done m2 ->
  add_skeens1 m2 s = Done (s', x) -> Inv seen (pending_skeens2 s') s'.
Proof.
  intros Ha Hr Hin Hw H1 H2 Hs.
  assert (El : locs_of m2 = clear_locs (locs_of req)) by by rewrite (clear_locs_locs _ _ H2), (flag_mut_locs _ _ _ H1).
  eapply (add_skeens1_inv _ (Packets.id req) m2); [done..| | | | |exact Hs].
  - by rewrite (locs_mut_id _ _ _ H2), (flag_mut_id _ _ _ H1).
  - exists req. split_and!; try done. unfold chains_of. rewrite El. unfold clear_locs. by rewrite <- list_fmap_compose.
  - eapply locs_mut_unlock; [|exact H2]. exact (flag_mut_unlock lock_flags _ _ eq_refl (request_no_unlock req Hin) H1).
  - eapply request_separators; [done|by right].
Qed.

(** A snapshot that spans servers. *)
Lemma skeens_snapshot_request seen req m1 s s' x :
  about seen (Packets.id req) s -> (forall k, ~ round2_sent s (Packets.id req) k) ->
  Request (Some req) ∈ evs -> is_write_request req = true ->
  flag_mut (fun f => EntryFlag.insert f lock_flags) req = Done m1 ->
  add_snapshot_skeens1 m1 s = Done (s', x) -> Inv seen (pending_skeens2 s') s'.
Proof.
  intros Ha Hr Hin Hw H1 Hs. assert (El : locs_of m1 = locs_of req) by by rewrite (flag_mut_locs _ _ _ H1).
  eapply (add_snapshot_skeens1_inv _ (Packets.id req) m1); [done..| | | | |exact Hs].
  - by rewrite (flag_mut_id _ _ _ H1).
  - exists req. split_and!; try done. unfold chains_of. by rewrite El.
  - exact (flag_mut_unlock lock_flags _ _ eq_refl (request_no_unlock req Hin) H1).
  - eapply request_separators; [done|by left].
Qed.

Lemma request_inv seen req s s' x :
  Inv seen (pending_skeens2 s) s -> Request (Some req) ∈ evs ->
  (is_write_request req = true -> Packets.id req ∉ seen) ->
  handle_new_request (Some req) s = Done (s', x) -> Inv (seen ++ id_of_write req) (pending_skeens2 s') s'.
Proof.
  intros HI Hin Hfresh Hs. pose proof (request_no_unlock req Hin) as Hu.
  unfold handle_new_request in Hs. apply bind_St in Hs as (s0 & l & [-> Hl]%pure_St & Hs).
  apply bind_St in Hs as (s0 & ls & [-> Hls]%pure_St & Hs).
  unfold id_of_write. destruct (is_write_request req) eqn:Hw; unfold is_write_request in Hw; rewrite Hl in Hw; cycle 1.
  { destruct l; try done. rewrite app_nil_r. apply bind_St in Hs as (? & loc & [-> _]%pure_St & Hs).
    apply bind_St in Hs as (? & k & [= <- _] & Hs). apply bind_St in Hs as (s1 & r & H1 & [-> _]%pure_St).
    by eapply read_inv. }
  destruct (about_new seen (Packets.id req) s HI (Hfresh eq_refl)) as [Ha Hr].
  assert (Hw' : is_write_request req = true) by (unfold is_write_request; by rewrite Hl).
  destruct l; try (by apply pure_St in Hs as [_ ?]); try done.
  - (* Data *)
    eapply mild_done; [|exact Ha|exact Hs].
    apply mild_pure. intros loc _. apply mild_pure. intros f _. apply mild_bind; [apply mild_frame, frame_get|]. intros ts.
    apply mild_pure. intros msg Hm. apply mild_to_server.
    + destruct (negb _); [by rewrite (lock_mut_id _ _ _ Hm)|by injection Hm as <-].
    + destruct (negb _); [by eapply lock_mut_unlock|by injection Hm as <-].
  - (* Multiput *)
    apply bind_St in Hs as (? & f & [-> _]%pure_St & Hs). apply bind_St in Hs as (? & single & [= <- _] & Hs).
    destruct (EntryFlag.contains f _); [|destruct single].
    + eapply mild_done; [|exact Ha|exact Hs]. apply mild_bind; [apply mild_frame, frame_servers|]. intros servers.
      apply mild_bind; [|intros; apply mild_frame, frame_ret]. apply mild_for_each. intros k.
      apply mild_bind; [|intros; apply mild_frame, frame_ret]. by apply mild_single_send.
    + eapply mild_done; [|exact Ha|exact Hs]. apply mild_pure. intros msg Hm. apply mild_pure. intros loc _.
      apply mild_to_server; [by rewrite (lock_mut_id _ _ _ Hm)|by eapply lock_mut_unlock].
    + apply bind_St in Hs as (? & nm & [= <- _] & Hs). destruct nm; [|by apply pure_St in Hs as [_ ?]].
      apply bind_St in Hs as (? & m1 & [-> H1]%pure_St & Hs). apply bind_St in Hs as (? & m2 & [-> H2]%pure_St & Hs).
      apply bind_St in Hs as (s1 & [] & Hs & [= <- _]). by eapply skeens_request.
  - (* Snapshot *)
    apply bind_St in Hs as (? & single & [= <- _] & Hs). destruct single.
    + eapply mild_done; [|exact Ha|exact Hs]. apply mild_pure. intros loc _. by apply mild_to_server.
    + apply bind_St in Hs as (? & nm & [= <- _] & Hs). apply bind_St in Hs as (? & [] & [-> _]%pure_St & Hs).
      apply bind_St in Hs as (? & m1 & [-> H1]%pure_St & Hs). apply bind_St in Hs as (s1 & [] & Hs & [= <- _]).
      by eapply skeens_snapshot_request.
Qed.

(** ** The second round *)

Lemma send_all_inv seen owed p m servers send s s' x :
  Inv seen owed s -> Packets.id p ∈ seen -> lock_num p = Done m ->
  is_max evs (Packets.id p) (chains_of p) m -> request_chains evs (Packets.id p) (chains_of p) ->
  sent_writes s !! Packets.id p = None -> (forall q, q ∈ owed -> Packets.id (sk_buf q) <> Packets.id p) ->
  (forall m', round2_sent s (Packets.id p) m' -> m' = m) ->
  send_all p servers send s = Done (s', x) -> Inv seen owed s'.
Proof.
  intros HI Hseen Hl Hmax Hrc Hn Ho Hag. revert send s HI Hn Hag.
  induction servers as [|k servers IH]; intros send s HI Hn Hag Hs; simpl in Hs; [by injection Hs as <- _|].
  apply bind_St in Hs as (s1 & known & H1 & Hs). unfold send_to in H1.
  apply bind_St in H1 as (s2 & b & [= <- <-] & H1). apply bind_St in H1 as (s3 & [] & H1 & [= <- <-]).
  destruct (bool_decide _); simpl in H1; injection H1 as <-; (eapply IH; [..|exact Hs]); try done.
  - by eapply inv_send2.
  - intros m' [?|(_ & _ & E)]%round2_snoc; [by apply Hag|congruence].
Qed.

Lemma send_skeens2_inv seen p owed s s' x :
  Inv seen (p :: owed) s -> send_skeens2 p s = Done (s', x) -> Inv seen owed s'.
Proof.
  intros HI Hs. unfold send_skeens2 in Hs. apply bind_St in Hs as (? & buf & [-> Hb]%pure_St & Hs).
  apply bind_St in Hs as (? & rem & [= <- <-] & Hs). apply bind_St in Hs as (s1 & send & H1 & Hs).
  destruct (round2_packet_spec _ _ _ Hb) as (Eid & Ech & El).
  destruct (iv_owed _ _ _ HI p (list_elem_of_here _ _)) as (Hmax & Hrc & Hseen & Hn & Hr).
  assert (HI0 : Inv seen owed s).
  { split; try apply HI; [intros q Hq; apply (iv_owed _ _ _ HI); by right|].
    by destruct (proj1 (NoDup_cons _ _) (iv_nodup _ _ _ HI)). }
  assert (Ho : forall q, q ∈ owed -> Packets.id (sk_buf q) <> Packets.id buf).
  { intros q Hq E. destruct (proj1 (NoDup_cons _ _) (iv_nodup _ _ _ HI)) as [Hnin _]. apply Hnin.
    rewrite <- Eid, <- E. apply list_elem_of_fmap. eauto. }
  rewrite <- Eid, <- Ech in *.
  assert (HI1 : Inv seen owed s1).
  { eapply (send_all_inv seen owed buf (sk_max_ts p)); try done. intros m' Hm. by destruct (Hr m'). }
  destruct send; simpl in Hs; [|by injection Hs as <- _]. apply insert_write_done in Hs as ->.
  apply inv_insert; [done..|]. by destruct (sk_is_snapshot p).
Qed.

Lemma after_work_inv seen s s' x :
  Inv seen (pending_skeens2 s) s -> after_work s = Done (s', x) -> Inv seen (pending_skeens2 s') s'.
Proof.
  intros HI Hs. unfold after_work in Hs. apply bind_St in Hs as (? & ps & [= <- <-] & Hs).
  apply bind_St in Hs as (s1 & [] & [= <-] & Hs). apply bind_St in Hs as (s2 & [] & H2 & [= <- _]). simpl.
  apply (inv_frame _ _ s2); [done..|].
  assert (HI1 : Inv seen (pending_skeens2 s) (set_pending [] s)) by (by apply (inv_frame _ _ s)).
  revert HI1 H2. generalize (set_pending [] s) as s1. generalize (pending_skeens2 s) as ps.
  induction ps as [|p ps IH]; intros s1 HI1 H2; simpl in H2; [by injection H2 as <-|].
  apply bind_St in H2 as (s3 & [] & H3 & H2). eapply IH; [|exact H2]. by eapply send_skeens2_inv.
Qed.

(** ** Runs *)

Lemma write_ids_snoc pre ev :
  write_ids (pre ++ [ev]) = write_ids pre ++ match ev with Request (Some req) => id_of_write req | _ => [] end.
Proof.
  unfold write_ids. rewrite omap_app. f_equal. unfold id_of_write.
  destruct ev as [[req|]| | | | |]; simpl; try done. by destruct (is_write_request req).
Qed.

Lemma step_inv pre ev rest s s' x :
  evs = pre ++ ev :: rest -> Inv (write_ids pre) (pending_skeens2 s) s ->
  step ev s = Done (s', x) -> Inv (write_ids (pre ++ [ev])) (pending_skeens2 s') s'.
Proof.
  intros Hevs HI Hs. assert (Hin : ev ∈ evs) by (rewrite Hevs; set_solver). rewrite write_ids_snoc.
  destruct ev as [[req|]| |token p| | |]; cbn [step] in Hs; rewrite ?app_nil_r.
  - apply bind_St in Hs as (s1 & b & H1 & [= <- _]). eapply request_inv; [done..| |exact H1].
    intros Hw. pose proof (wb_ids _ WB) as Hnd. rewrite Hevs in Hnd. unfold write_ids in Hnd.
    rewrite omap_app in Hnd. apply NoDup_app in Hnd as (_ & Hd & _). intros Hi. apply (Hd _ Hi).
    simpl. rewrite Hw. by left.
  - apply bind_St in Hs as (s1 & b & H1 & [= <- _]). apply bind_St in H1 as (s2 & [] & [= <-] & [= <- _]).
    by apply (inv_frame _ _ s).
  - injection Hs as <-. by apply (inv_frame _ _ s).
  - by eapply message_inv.
  - by eapply after_work_inv.
  - injection Hs as <-. by apply (inv_frame _ _ s).
  - injection Hs as <-. by apply (inv_frame _ _ s).
Qed.

Lemma store_run_inv pre rest s s' x :
  evs = pre ++ rest -> Inv (write_ids pre) (pending_skeens2 s) s ->
  run rest s = Done (s', x) -> Inv (write_ids evs) (pending_skeens2 s') s'.
Proof.
  revert pre s. induction rest as [|ev rest IH]; intros pre s Hevs HI Hs.
  { injection Hs as <- _. rewrite app_nil_r in Hevs. by subst pre. }
  unfold run in Hs. simpl in Hs. apply bind_St in Hs as (s1 & [] & H1 & Hs).
  eapply (IH (pre ++ [ev])); [by rewrite <- app_assoc|by eapply step_inv|exact Hs].
Qed.

Lemma store_build_inv : Inv [] [] (build n unreplicated).
Proof.
  split; try done; try (intros id w Hw; simpl in Hw; by rewrite lookup_empty in Hw).
  - intros p []%elem_of_nil.
  - constructor.
  - intros token p []%elem_of_nil.
  - intros id m m' (token & p & []%elem_of_nil & _).
Qed.

(** C8.  The client does its half of Skeens' algorithm: in any run of the store in which the ids of
    the writes differ and the servers' answers list the chains of the write they are about, every
    packet of a second round that was sent carries the largest of the timestamps the servers gave
    for the chains of that write, every chain of the write has a timestamp, given by the server in
    charge of the chain, and none is larger; and all the packets of the second round of one write
    carry the same timestamp. *)
Theorem client_skeens_agreement s x :
  run evs (build n unreplicated) = Done (s, x) ->
  forall token p, (token, p) ∈ sent s -> is_unlock p ->
  exists m req, lock_num p = Done m /\
    Request (Some req) ∈ evs /\ Packets.id req = Packets.id p /\ chains_of p = chains_of req /\
    (forall o, o ∈ chains_of req -> o <> 0 -> exists t, 0 < t <= m /\ acked evs (Packets.id p) o t) /\
    (exists o, o ∈ chains_of req /\ o <> 0 /\ acked evs (Packets.id p) o m) /\
    (forall token' p', (token', p') ∈ sent s -> is_unlock p' -> Packets.id p' = Packets.id p -> lock_num p' = Done m).
Proof.
  intros Hrun token p Hp Hu.
  pose proof (store_run_inv [] evs (build n unreplicated) _ _ eq_refl store_build_inv Hrun) as HI.
  destruct (iv_sent _ _ _ HI token p Hp Hu) as (_ & m & Hl & [Hall Hex] & req & Hreq & _ & Hid & Hch).
  exists m, req. rewrite Hch in *. split_and!; try done.
  intros token' p' Hp' Hu' E. destruct (iv_sent _ _ _ HI token' p' Hp' Hu') as (_ & m' & Hl' & _).
  rewrite Hl'. f_equal. eapply (iv_agree _ _ _ HI (Packets.id p)).
  - exists token', p'. done.
  - exists token, p. done.
Qed.

End Skeens.

(** ** Runs, evaluated *)

(** A check of [well_behaved]. *)
Definition requests (evs : list Event) : list Ref :=
  omap (fun ev => match ev with Request r => r | _ => None end) evs.

Definition request_fine (evs : list Event) (req : Ref) : bool :=
  match flag req with Done f => negb (EntryFlag.contains f EntryFlag.Unlock) | Panic => true end &&
  forallb (fun l => implb (oi_order l =? 0) (bool_decide (l = separator))) (locs_of req) &&
  implb (is_write_request req)
    (forallb (fun ev => match ev with
                        | Receive _ p => implb (Packets.id p =? Packets.id req) (bool_decide (chains_of p = chains_of req))
                        | _ => true end) evs).

Definition well_behavedb (evs : list Event) : bool :=
  bool_decide (NoDup (write_ids evs)) && forallb (request_fine evs) (requests evs).

Lemma well_behavedb_spec evs : well_behavedb evs = true -> well_behaved evs.
Proof.
  intros [Hn%bool_decide_eq_true Hf]%andb_true_iff. rewrite forallb_forall in Hf.
  assert (Hr : forall req, Request (Some req) ∈ evs -> request_fine evs req = true).
  { intros req Hin. apply Hf. apply list_elem_of_In, list_elem_of_omap. by exists (Request (Some req)). }
  split; [done| | |].
  - intros req f Hin Ef. specialize (Hr req Hin). unfold request_fine in Hr. rewrite Ef, !andb_true_iff in Hr.
    destruct Hr as [[Hr _] _]. by apply negb_true_iff.
  - intros req l Hin Hl Hz. specialize (Hr req Hin). unfold request_fine in Hr. rewrite !andb_true_iff, !forallb_forall in Hr.
    destruct Hr as [[_ Hr] _]. apply list_elem_of_In in Hl. specialize (Hr l Hl). rewrite Hz in Hr. by apply bool_decide_eq_true in Hr.
  - intros req token p Hin Hw Hp E. specialize (Hr req Hin). unfold request_fine in Hr.
    rewrite !andb_true_iff, Hw in Hr. destruct Hr as [_ Hr]. simpl in Hr. rewrite forallb_forall in Hr.
    apply list_elem_of_In in Hp. specialize (Hr _ Hp). simpl in Hr. rewrite E, Z.eqb_refl in Hr. by apply bool_decide_eq_true in Hr.
Qed.

Module Demo.

(** Two servers, without replicas: chains 1 and 2 are on different ones.  [data] is an append to
    chain 1 with a sentinel in chain 2. *)
Definition queued : Z := Z.lor EntryFlag.ReadSuccess (Z.lor EntryFlag.NewMultiPut
  (Z.lor EntryFlag.TakeLock EntryFlag.Skeens1Queued)).
Definition placed : Z := Z.lor EntryFlag.ReadSuccess (Z.lor EntryFlag.NewMultiPut
  (Z.lor EntryFlag.TakeLock EntryFlag.Unlock)).
Definition at_ (c1 c2 : Z) : list OrderIndex := [mkOI 1 c1; separator; mkOI 2 c2].
Definition data (flags lock : Z) (ls : list OrderIndex) : Ref := Multi 5 flags lock ls [] [42].
Definition sentinel (flags lock : Z) (ls : list OrderIndex) : Ref := Senti 5 flags 1 lock ls [].

(** Server 1 gives timestamp 3, server 0 gives 4. *)
Definition first_round : list Event :=
  [Request (Some (data EntryFlag.Nothing 0 (at_ 0 0))); Receive 1 (data queued 0 (at_ 3 0));
   Receive 0 (sentinel queued 0 (at_ 0 4)); AfterWork].

Definition after (b : Build) (evs : list Event) : option StoreInner :=
  match run (H := b) evs (build 2 true) with Done (s, _) => Some s | Panic => None end.

(** What server 1 is sent in the second round. *)
Definition second_round : Ref :=
  sentinel (Z.lor EntryFlag.TakeLock (Z.lor EntryFlag.NewMultiPut EntryFlag.Unlock)) 4 (at_ 0 0).

Lemma client_skeens_agreement_witness :
  exists s, run (H := dev) first_round (build 2 true) = Done (s, tt) /\ (1, second_round) ∈ sent s /\
    exists m req, lock_num second_round = Done m /\ Packets.id req = 5 /\
      exists t, 0 < t <= m /\ acked 2 true first_round 5 1 t.
Proof.
  destruct (after dev first_round) as [s|] eqn:E; [|by vm_compute in E].
  assert (Hr : run (H := dev) first_round (build 2 true) = Done (s, tt)).
  { unfold after in E. destruct (run _ _) as [[s1 []]|]; [|done]. by injection E as ->. }
  assert (Hin : (1, second_round) ∈ sent s).
  { vm_compute in E. injection E as <-. apply list_elem_of_In. vm_compute. tauto. }
  exists s. split; [exact Hr|]. split; [exact Hin|].
  destruct (client_skeens_agreement (H := dev) 2 true first_round
    (well_behavedb_spec first_round ltac:(vm_compute; reflexivity)) s tt Hr 1 second_round Hin)
    as (m & req & Hl & _ & Hid & Hch & Hall & _).
  { exists 26. split; vm_compute; reflexivity. }
  exists m, req. split; [exact Hl|]. split; [exact Hid|]. apply Hall; [|lia].
  rewrite <- Hch. apply list_elem_of_In. vm_compute. tauto.
Defined.

(** A strong snapshot of chains of two servers never reaches the client's log as a snapshot:
    the second round turns the packet of the write into a sentinel ([slice_to_sentinel]), which is
    what the log is given for each of the chains when both servers have answered, in both build
    profiles. *)
Theorem strong_snapshot_becomes_sentinel :
  forall b, exists s m,
    after b [Request (Some (Snapshot 7 EntryFlag.Nothing 0 0 0 [mkOI 1 0; mkOI 2 0]));
             Receive 1 (Snapshot 7 queued 0 0 0 [mkOI 1 3; mkOI 2 0]);
             Receive 0 (Snapshot 7 queued 0 0 0 [mkOI 1 0; mkOI 2 4]); AfterWork;
             Receive 1 (Snapshot 7 placed 0 0 4 [mkOI 1 9; mkOI 2 0]);
             Receive 0 (Snapshot 7 placed 0 0 4 [mkOI 1 0; mkOI 2 8])] = Some s /\
    client s = [OnFinishedRead (mkOI 1 9) m; OnFinishedRead (mkOI 2 8) m] /\
    layout m = Done EntryKind.EntryLayout.Sentinel.
Proof.
  intros [[]]; eexists _, _; (split; [vm_compute; reflexivity|]); split; vm_compute; reflexivity.
Qed.

(** A read that is answered while the write of the same entry waits for its places is taken for an
    answer to the write; when the last answer is that of a sentinel, the read is never given to
    the log: it is still counted as outstanding, though nothing more will come. *)
Example read_of_own_write_lost :
  exists s, after dev (first_round ++
    [Request (Some (Packets.Read uuid_nil EntryFlag.Nothing 0 0 (mkOI 1 9) (mkOI 0 0) (mkOI 0 0)));
     Receive 1 (data (Z.lor EntryFlag.ReadSuccess (Z.lor EntryFlag.NewMultiPut EntryFlag.TakeLock)) 4 (at_ 9 0));
     Receive 1 (data placed 4 (at_ 9 0)); Receive 0 (sentinel placed 4 (at_ 0 8))]) = Some s /\
    sent_reads s !! (1, 9) = Some 1 /\ sent_writes s = ∅ /\ client s = [OnFinishedWrite 5 (at_ 9 8)].
Proof. eexists. split; [vm_compute; reflexivity|]. split_and!; vm_compute; reflexivity. Qed.

End Demo.
