(* ===== verification/ClientHandle.v ===== *)
(** * The handles of the application ([fuzzy_log_client/src/fuzzy_log/log_handle.rs])

    A [LogHandle] is the application's end of the log: a read handle, that asks the client's
    thread ([ClientLog]) for snapshots and receives entries until every snapshot has ended, and a
    write handle, that sends appends and receives their acknowledgements.  The two share the
    channel to the thread; [split] takes them apart.

    [LogHandle] is the state of both with the contents of the three channels: what was sent to
    the thread and not yet received by it, and what the thread sent and was not yet received
    here.  Every method is a function in the monad [H]: it returns, panics ([Abort]) or sleeps
    ([Wait]) in [recv] on an empty channel, in the state the handle has then.  A buffer is
    modelled by the packet in it, the empty buffer by [None]; the data of an entry is its bytes.
    An id drawn at random is an argument.  Slices that the code sorts in place are sorted here. *)

From stdpp Require Import base gmap sets list sorting.
From Stdlib Require Import ZArith Lia.
From S2P Require Import Prelude PacketCodec Packets ClientLog ClientStore.
Open Scope Z_scope.

Inductive GetRes := GNothingReady | GDone | GIoErr (kind server : Z) | AlreadyGCd (c e : Z).
Inductive TryWaitRes := TNothingReady | TIoErr (kind server : Z).

(** Rust's [Result] *)
Inductive result (T E : Type) := Ok (t : T) | Err (e : E).
Arguments Ok {T E} t.
Arguments Err {T E} e.

Definition map_ok {T T' E} (f : T -> T') (r : result T E) : result T' E :=
  match r with Ok t => Ok (f t) | Err e => Err e end.

(** An entry, as the application sees it. *)
Record EventOf := mkEvent {
  ev_id : Z;
  ev_data : list Z;
  ev_inhabits : list OrderIndex;
  ev_happens_after : list OrderIndex;
}.

Record LogHandle := mkHandle {
  num_snapshots : Z;
  read_errors : Z;               (* [num_errors] of the read handle *)
  curr_entry : option Ref;
  num_async_writes : option Z;
  write_errors : Z;              (* [num_errors] of the write handle *)
  to_log : list FromClient;
  ready_reads : list Returned;
  finished_writes : list Wrote;
  log_gone : bool;
}.

Definition set_num_snapshots v s := mkHandle v (read_errors s) (curr_entry s) (num_async_writes s) (write_errors s) (to_log s) (ready_reads s) (finished_writes s) (log_gone s).
Definition set_read_errors v s := mkHandle (num_snapshots s) v (curr_entry s) (num_async_writes s) (write_errors s) (to_log s) (ready_reads s) (finished_writes s) (log_gone s).
Definition set_curr v s := mkHandle (num_snapshots s) (read_errors s) v (num_async_writes s) (write_errors s) (to_log s) (ready_reads s) (finished_writes s) (log_gone s).
Definition set_async v s := mkHandle (num_snapshots s) (read_errors s) (curr_entry s) v (write_errors s) (to_log s) (ready_reads s) (finished_writes s) (log_gone s).
Definition set_write_errors v s := mkHandle (num_snapshots s) (read_errors s) (curr_entry s) (num_async_writes s) v (to_log s) (ready_reads s) (finished_writes s) (log_gone s).
Definition set_to_log v s := mkHandle (num_snapshots s) (read_errors s) (curr_entry s) (num_async_writes s) (write_errors s) v (ready_reads s) (finished_writes s) (log_gone s).
Definition set_ready v s := mkHandle (num_snapshots s) (read_errors s) (curr_entry s) (num_async_writes s) (write_errors s) (to_log s) v (finished_writes s) (log_gone s).
Definition set_writes v s := mkHandle (num_snapshots s) (read_errors s) (curr_entry s) (num_async_writes s) (write_errors s) (to_log s) (ready_reads s) v (log_gone s).
Definition set_log_gone v s := mkHandle (num_snapshots s) (read_errors s) (curr_entry s) (num_async_writes s) (write_errors s) (to_log s) (ready_reads s) (finished_writes s) v.

(** ** The monad *)

Inductive res (X : Type) := Ret (s : LogHandle) (x : X) | Wait (s : LogHandle) | Abort.
Arguments Ret {X} s x.
Arguments Wait {X} s.
Arguments Abort {X}.

Definition H (X : Type) : Type := LogHandle -> res X.
#[export] Instance H_ret : MRet H := fun X x s => Ret s x.
#[export] Instance H_bind : MBind H := fun X Y k m s =>
  match m s with Ret s' x => k x s' | Wait s' => Wait s' | Abort => Abort end.

Definition pure {X} (o : outcome X) : H X := fun s => match o with Done x => Ret s x | Panic => Abort end.
Definition get {X} (f : LogHandle -> X) : H X := fun s => Ret s (f s).
Definition modify (f : LogHandle -> LogHandle) : H unit := fun s => Ret (f s) tt.
Definition when (b : bool) (m : H unit) : H unit := if b then m else mret tt.

(** [self.to_log.send(Message::FromClient(m)).unwrap()] *)
Definition send (m : FromClient) : H unit := fun s =>
  if log_gone s then Abort else Ret (set_to_log (to_log s ++ [m]) s) tt.

Section Handle.
Context `{Build}.

(** ** Reading *)

Definition snapshot (chain : Z) : H unit :=
  _ ← modify (fun s => set_num_snapshots (saturating_add1 (num_snapshots s)) s);
  send (SnapshotAndPrefetch chain).

Definition snapshot_colors (colors : list Z) : H unit :=
  _ ← modify (fun s => set_num_snapshots (saturating_add1 (num_snapshots s)) s);
  send (MultiSnapshotAndPrefetch colors).

(** [id] is the one the thread draws for the snapshot. *)
Definition strong_snapshot (id : Z) (colors : list Z) : H unit :=
  let c := (fun o => mkOI o 0) <$> colors in
  _ ← modify (fun s => set_num_snapshots (saturating_add1 (num_snapshots s)) s);
  send (StrongSnapshotAndPrefetch id c).

Definition take_snapshot : H unit :=
  _ ← modify (fun s => set_num_snapshots (saturating_add1 (num_snapshots s)) s);
  send (SnapshotAndPrefetch 0).

Definition read_until (loc : OrderIndex) : H unit :=
  _ ← send (ReadUntil loc);
  modify (fun s => set_num_snapshots (saturating_add1 (num_snapshots s)) s).

Definition fastforward (loc : OrderIndex) : H unit := send (Fastforward loc).
Definition rewind (loc : OrderIndex) : H unit := send (Rewind loc).

(** An error is reported when its number is new. *)
Definition make_read_error (e : Error) : H (option GetRes) :=
  n ← get read_errors;
  if n <? error_num e then
    n' ← pure (add64 n 1);
    _ ← pure (assert_ (n' =? error_num e));
    _ ← modify (set_read_errors n');
    mret (Some (GIoErr (error e) (server e)))
  else mret None.

Definition event_of (e : Ref) : outcome EventOf :=
  data ← Packets.data e;
  locs ← Packets.locs e;
  deps ← Packets.dependencies e;
  Done (mkEvent (Packets.id e) data locs deps).

Definition current_event : H EventOf :=
  c ← get curr_entry;
  e ← pure (unwrap c);
  pure (event_of e).

(** [mem::replace(&mut self.curr_entry, read)], and the old buffer goes back. *)
Definition replace_entry (read : option Ref) : H unit :=
  old ← get curr_entry;
  _ ← modify (set_curr read);
  when (bool_decide (is_Some old)) (send ReturnBuffer).

(** What was received, in one round of the loop: [None] is to go on. *)
Definition take_read (read : Returned) : H (option (result EventOf GetRes)) :=
  match read with
  | RetErr e => r ← make_read_error e; mret (Err <$> r)
  | RetEntry val | RetSnapshot val =>
      _ ← replace_entry (Some val);
      e ← current_event;
      mret (Some (Ok e))
  | RetDone =>
      _ ← replace_entry None;
      n ← get num_snapshots;
      _ ← pure (assert_ (0 <? n));
      _ ← modify (set_num_snapshots (n - 1));
      mret (if n - 1 =? 0 then Some (Err GDone) else None)
  end.

(** The loop over what is in the channel. *)
Fixpoint recv_loop (q : list Returned) : H (result EventOf GetRes) :=
  match q with
  | [] => fun s => if log_gone s then Abort else Wait s
  | read :: q =>
      _ ← modify (set_ready q);
      r ← take_read read;
      match r with Some r => mret r | None => recv_loop q end
  end.

Definition get_next_event : H (result EventOf GetRes) :=
  n ← get num_snapshots;
  if n =? 0 then mret (Err GDone)
  else q ← get ready_reads; recv_loop q.

Definition get_next2 : H (result (list Z * list OrderIndex * Z) GetRes) :=
  r ← get_next_event; mret (map_ok (fun e => (ev_data e, ev_inhabits e, ev_id e)) r).
Definition get_next : H (result (list Z * list OrderIndex) GetRes) :=
  r ← get_next2; mret (map_ok fst r).

Fixpoint try_recv_loop (q : list Returned) : H (result EventOf GetRes) :=
  match q with
  | [] => mret (Err GNothingReady)
  | read :: q =>
      _ ← modify (set_ready q);
      r ← take_read read;
      match r with Some r => mret r | None => try_recv_loop q end
  end.

Definition try_get_next_event : H (result EventOf GetRes) :=
  n ← get num_snapshots;
  if n =? 0 then mret (Err GDone)
  else q ← get ready_reads; try_recv_loop q.

Definition try_get_next2 : H (result (list Z * list OrderIndex * Z) GetRes) :=
  r ← try_get_next_event; mret (map_ok (fun e => (ev_data e, ev_inhabits e, ev_id e)) r).
Definition try_get_next : H (result (list Z * list OrderIndex) GetRes) :=
  r ← try_get_next2; mret (map_ok fst r).

(** [let last = entries_seen.entry(o).or_insert(i); if *last <= i { *last = i }] *)
Definition see (seen : gmap Z Z) (l : OrderIndex) : gmap Z Z :=
  <[oi_order l := Z.max (default (oi_entry l) (seen !! oi_order l)) (oi_entry l)]> seen.

(** The loop of [do_sync_with]; [per_event] works on the application's own state and, for
    [sync_and], on the write handle.  Every round but the last takes something from the channel. *)
Fixpoint sync_loop {U} (per_event : U -> EventOf -> H U) (fuel : nat) (u : U) (seen : gmap Z Z)
  : H (result (gmap Z Z) GetRes * U) :=
  match fuel with
  | O => pure Panic
  | S fuel =>
      r ← get_next_event;
      match r with
      | Ok e =>
          let seen := foldl see seen (ev_inhabits e) in
          u ← per_event u e;
          sync_loop per_event fuel u seen
      | Err GDone => mret (Ok seen, u)
      | Err e => mret (Err e, u)
      end
  end.

Definition do_sync_with {U} (per_event : U -> EventOf -> H U) (u : U) : H (result (gmap Z Z) GetRes * U) :=
  fuel ← get (fun s => S (length (ready_reads s)));
  sync_loop per_event fuel u ∅.

(** The closures of the other calls cannot reach the handle. *)
Definition outside {U E} (f : U -> E -> outcome U) (u : U) (e : E) : H U := pure (f u e).

Definition sync_events {U} (per_event : U -> EventOf -> outcome U) (u : U) : H (result (gmap Z Z) GetRes * U) :=
  _ ← take_snapshot; do_sync_with (outside per_event) u.
Definition sync_events_for_chain {U} (chain : Z) (per_event : U -> EventOf -> outcome U) (u : U)
  : H (result (gmap Z Z) GetRes * U) :=
  _ ← snapshot chain; do_sync_with (outside per_event) u.
Definition sync {U} (per_event : U -> list Z * list OrderIndex * Z -> outcome U) (u : U)
  : H (result (gmap Z Z) GetRes * U) :=
  _ ← take_snapshot; do_sync_with (outside (fun u e => per_event u (ev_data e, ev_inhabits e, ev_id e))) u.
Definition sync_chain {U} (chain : Z) (per_event : U -> list Z * list OrderIndex * Z -> outcome U) (u : U)
  : H (result (gmap Z Z) GetRes * U) :=
  _ ← snapshot chain; do_sync_with (outside (fun u e => per_event u (ev_data e, ev_inhabits e, ev_id e))) u.
Definition sync_and {U} (per_event : U -> EventOf -> H U) (u : U) : H (result (gmap Z Z) GetRes * U) :=
  do_sync_with per_event u.

(** ** Acknowledgements *)

Definition recv_write : H Wrote := fun s =>
  match finished_writes s with
  | w :: q => Ret (set_writes q s) w
  | [] => if log_gone s then Abort else Wait s
  end.

Definition to_wait_error (e : Error) : H (option TryWaitRes) :=
  n ← get write_errors;
  if n <? error_num e then
    n' ← pure (add64 n 1);
    _ ← pure (assert_ (n' =? error_num e));
    _ ← modify (set_write_errors n');
    mret (Some (TIoErr (error e) (server e)))
  else mret None.

(** [self.num_async_writes.as_mut().map(|n| *n += 1)] and [*n -= 1] *)
Definition one_more : H unit :=
  n ← get num_async_writes;
  match n with Some n => n' ← pure (add64 n 1); modify (set_async (Some n')) | None => mret tt end.
Definition one_less : H unit :=
  n ← get num_async_writes;
  match n with Some n => n' ← pure (sub64 n 1); modify (set_async (Some n')) | None => mret tt end.

Definition try_wait_for_any_append : H (result (Z * list OrderIndex) TryWaitRes) :=
  n ← get num_async_writes;
  match n with
  | Some 0 => mret (Err TNothingReady)
  | _ =>
      q ← get finished_writes;
      match q with
      | [] => mret (Err TNothingReady)
      | WroteOk id locs :: q => _ ← modify (set_writes q); _ ← one_less; mret (Ok (id, locs))
      | WroteErr e :: q =>
          _ ← modify (set_writes q);
          r ← to_wait_error e;
          mret (Err (default TNothingReady r))
      end
  end.

(** The loop of [wait_for_any_append], over what is in the channel. *)
Fixpoint any_loop (q : list Wrote) : H (result (Z * list OrderIndex) TryWaitRes) :=
  match q with
  | [] => fun s => if log_gone s then Abort else Wait s
  | w :: q =>
      _ ← recv_write;
      match w with
      | WroteOk id locs => _ ← one_less; mret (Ok (id, locs))
      | WroteErr e =>
          r ← to_wait_error e;
          match r with Some err => mret (Err err) | None => any_loop q end
      end
  end.

Definition wait_for_any_append : H (result (Z * list OrderIndex) TryWaitRes) :=
  n ← get num_async_writes;
  match n with
  | Some 0 => mret (Err TNothingReady)
  | None => try_wait_for_any_append
  | Some _ => q ← get finished_writes; any_loop q
  end.

Fixpoint all_loop (n : nat) : H (result unit TryWaitRes) :=
  match n with
  | O => mret (Ok tt)
  | S n =>
      r ← wait_for_any_append;
      match r with Ok _ => all_loop n | Err e => mret (Err e) end
  end.

Definition wait_for_all_appends : H (result unit TryWaitRes) :=
  c ← get num_async_writes;
  n ← pure (unwrap c);
  all_loop (Z.to_nat n).

Fixpoint specific_loop (n : nat) (write_id : Z) : H (result (list OrderIndex) TryWaitRes) :=
  match n with
  | O => mret (Err TNothingReady)
  | S n =>
      r ← wait_for_any_append;
      match r with
      | Ok (id, locs) => if id =? write_id then mret (Ok locs) else specific_loop n write_id
      | Err e => mret (Err e)
      end
  end.

Definition wait_for_a_specific_append (write_id : Z) : H (result (list OrderIndex) TryWaitRes) :=
  c ← get num_async_writes;
  n ← pure (unwrap c);
  specific_loop (Z.to_nat n) write_id.

(** [for res in self.finished_writes.try_iter()] *)
Fixpoint flush_loop (q : list Wrote) (flushed : Z) : H (result Z (Z * Z)) :=
  match q with
  | [] => mret (Ok flushed)
  | w :: q =>
      _ ← modify (set_writes q);
      match w with
      | WroteOk _ _ => _ ← one_less; flush_loop q (flushed + 1)
      | WroteErr e =>
          r ← to_wait_error e;
          match r with Some _ => mret (Err (error e, server e)) | None => flush_loop q flushed end
      end
  end.

Definition flush_completed_appends : H (result Z (Z * Z)) :=
  n ← get num_async_writes;
  match n with
  | Some 0 => mret (Ok 0)
  | _ => q ← get finished_writes; flush_loop q 0
  end.

(** ** Appends: the messages *)

Definition no_place (o : Z) : OrderIndex := mkOI o 0.

(** [locs.sort()]: the places have no index yet, so this is the order of the chains. *)
Definition sort_locs (ls : list OrderIndex) : list OrderIndex := merge_sort by_chain ls.

(** [Vec::dedup] *)
Fixpoint dedup {X} `{EqDecision X} (ls : list X) : list X :=
  match ls with
  | [] => []
  | x :: ls => if decide (head ls = Some x) then dedup ls else x :: dedup ls
  end.

Definition single_message (id chain : Z) (data : list Z) (deps : list OrderIndex) : Ref :=
  Single id EntryFlag.Nothing (no_place chain) deps data 0.

Definition atomic_async_append (id chain : Z) (data : list Z) (deps : list OrderIndex) : H Z :=
  _ ← send (PerformAppend (single_message id chain data deps)); mret id.

(** [async_multiappend] and [async_no_remote_multiappend], which differ in the flags. *)
Definition atomic_multi (flags id : Z) (chains : list Z) (data : list Z) (deps : list OrderIndex) : H Z :=
  _ ← pure (assert_ (1 <? Z.of_nat (length chains)));
  let locs := dedup (sort_locs (no_place <$> chains)) in
  _ ← pure (assert_ (1 <=? Z.of_nat (length locs)));
  match locs with
  | [l] => atomic_async_append id (oi_order l) data deps
  | _ => _ ← send (PerformAppend (Multi id flags 0 locs deps data)); mret id
  end.
Definition atomic_async_multiappend := atomic_multi EntryFlag.Nothing.
Definition atomic_async_no_remote_multiappend := atomic_multi EntryFlag.NoRemote.

(** The places of a dependent append: its chains, the separator, the chains it depends on. *)
Definition dependent_locs (chains depends_on : list Z) : list OrderIndex :=
  dedup (sort_locs (no_place <$> chains) ++ separator :: sort_locs (no_place <$> depends_on)).

Definition atomic_async_dependent_multiappend (id : Z) (chains depends_on : list Z) (data : list Z)
    (deps : list OrderIndex) : H Z :=
  _ ← pure (assert_ (0 <? Z.of_nat (length depends_on)));
  let mchains := dependent_locs chains depends_on in
  m ← pure (unwrap (mchains !! length chains));
  _ ← pure (assert_ (bool_decide (m = separator)));
  _ ← pure (debug_assert (forallb (fun l => bool_decide (oi_order l ∈ chains)) (take (length chains) mchains)));
  _ ← pure (debug_assert (forallb (fun l => bool_decide (oi_order l ∈ depends_on)) (drop (S (length chains)) mchains)));
  _ ← send (PerformAppend (Multi id EntryFlag.Nothing 0 mchains deps data)); mret id.

Definition atomic_simple_async_append (id : Z) (data : list Z) (inhabits : list Z) : H Z :=
  match inhabits with
  | [c] => atomic_async_append id c data []
  | _ => atomic_async_multiappend id inhabits data []
  end.

(** ** Appends: counted by the write handle *)

Definition async_append (id chain : Z) (data : list Z) (deps : list OrderIndex) : H Z :=
  id ← atomic_async_append id chain data deps; _ ← one_more; mret id.
Definition async_multiappend (id : Z) (chains : list Z) (data : list Z) (deps : list OrderIndex) : H Z :=
  id ← atomic_async_multiappend id chains data deps; _ ← one_more; mret id.
Definition async_no_remote_multiappend (id : Z) (chains : list Z) (data : list Z) (deps : list OrderIndex) : H Z :=
  id ← atomic_async_no_remote_multiappend id chains data deps; _ ← one_more; mret id.
Definition async_dependent_multiappend (id : Z) (chains depends_on : list Z) (data : list Z)
    (deps : list OrderIndex) : H Z :=
  id ← atomic_async_dependent_multiappend id chains depends_on data deps; _ ← one_more; mret id.

(** [self.wait_for_a_specific_append(id).unwrap()] *)
Definition wait_unwrap (id : Z) : H (list OrderIndex) :=
  r ← wait_for_a_specific_append id;
  match r with Ok locs => mret locs | Err _ => pure Panic end.

Definition append (id chain : Z) (data : list Z) (deps : list OrderIndex) : H (list OrderIndex) :=
  id ← async_append id chain data deps; wait_unwrap id.
Definition multiappend (id : Z) (chains : list Z) (data : list Z) (deps : list OrderIndex) : H (list OrderIndex) :=
  id ← async_multiappend id chains data deps; wait_unwrap id.
Definition no_remote_multiappend (id : Z) (chains : list Z) (data : list Z) (deps : list OrderIndex)
  : H (list OrderIndex) :=
  id ← async_no_remote_multiappend id chains data deps; wait_unwrap id.
Definition dependent_multiappend (id : Z) (chains depends_on : list Z) (data : list Z) (deps : list OrderIndex)
  : H (list OrderIndex) :=
  id ← async_dependent_multiappend id chains depends_on data deps; wait_unwrap id.

(** [x.sort()] of chains, and [assert!(x.binary_search(&0).is_err())] on the sorted slice. *)
Definition sort_chains (cs : list Z) : list Z := merge_sort Z.le cs.
Definition no_color_0 (cs : list Z) : outcome unit := assert_ (negb (bool_decide (0 ∈ cs))).

(** [WriteHandle::simple_append] *)
Definition write_simple_append (id : Z) (data inhabits : list Z) : H Z :=
  let inhabits := sort_chains inhabits in
  _ ← pure (no_color_0 inhabits);
  match inhabits with
  | [] => pure Panic
  | [chain] => async_append id chain data []
  | chains => async_no_remote_multiappend id chains data []
  end.

(** ** Appends: the calls of the log handle *)

Definition color_append (id : Z) (data inhabits depends_on : list Z) (async : bool)
  : H (Z * result unit TryWaitRes) :=
  _ ← pure (assert_ (0 <? Z.of_nat (length inhabits)));
  let inhabits := sort_chains inhabits in
  _ ← pure (no_color_0 inhabits);
  let depends_on := sort_chains depends_on in
  _ ← pure (no_color_0 depends_on);
  id ← (match depends_on, inhabits with
        | _ :: _, _ => async_dependent_multiappend id inhabits depends_on data []
        | [], [c] => async_append id c data []
        | [], _ => async_no_remote_multiappend id inhabits data []
        end);
  if async then mret (id, Ok tt)
  else r ← wait_for_a_specific_append id; mret (id, map_ok (fun _ => tt) r).

Definition color_no_remote_append (id : Z) (data inhabits : list Z) (deps : list OrderIndex) (async : bool)
  : H (Z * result OrderIndex TryWaitRes) :=
  match inhabits with
  | [] => mret (uuid_nil, Err TNothingReady)
  | _ =>
      let inhabits := sort_chains inhabits in
      _ ← pure (no_color_0 inhabits);
      id ← (match inhabits with
            | [c] => async_append id c data deps
            | _ => async_no_remote_multiappend id inhabits data deps
            end);
      if async then mret (id, Err TNothingReady)
      else
        r ← wait_for_a_specific_append id;
        match r with
        | Ok v => l ← pure (unwrap (head v)); mret (id, Ok l)
        | Err e => mret (id, Err e)
        end
  end.

Definition causal_color_append (id : Z) (data inhabits depends_on : list Z) (happens_after : list OrderIndex) : H Z :=
  match inhabits with
  | [] => mret uuid_nil
  | _ =>
      let inhabits := sort_chains inhabits in
      _ ← pure (no_color_0 inhabits);
      let depends_on := sort_chains depends_on in
      _ ← pure (no_color_0 depends_on);
      match depends_on, inhabits with
      | _ :: _, _ => async_dependent_multiappend id inhabits depends_on data happens_after
      | [], [c] => async_append id c data happens_after
      | [], _ => async_multiappend id inhabits data happens_after
      end
  end.

Definition simple_async_append (id : Z) (data inhabits : list Z) : H Z :=
  match inhabits with
  | [] => mret uuid_nil
  | _ =>
      let inhabits := sort_chains inhabits in
      _ ← pure (no_color_0 inhabits);
      causal_color_append id data inhabits [] []
  end.

(** [simple_causal_append] ignores what the entry should happen after. *)
Definition simple_causal_append (id : Z) (data inhabits happens_after : list Z) : H Z :=
  simple_async_append id data inhabits.

Definition simple_append (id : Z) (data inhabits : list Z) : H Z :=
  id ← simple_async_append id data inhabits;
  _ ← wait_for_a_specific_append id;
  mret id.
Definition simpler_causal_append := simple_append.

End Handle.

(** ** Messages built outside of a handle *)

Definition append_message (id chain : Z) (data : list Z) (deps : list OrderIndex) : Ref :=
  single_message id chain data deps.

Definition multiappend_message (id : Z) (chains : list Z) (data : list Z) (deps : list OrderIndex) : outcome Ref :=
  _ ← assert_ (1 <? Z.of_nat (length chains));
  Done (Multi id (EntryFlag.insert EntryFlag.NewMultiPut EntryFlag.NoRemote) 0
          (dedup (sort_locs (no_place <$> chains))) deps data).

(** ** Building a handle and its thread *)

(** [LogHandle::new] *)
Definition new_handle (ack_writes : bool) : LogHandle :=
  mkHandle 0 0 None (if ack_writes then Some 0 else None) 0 [] [] [] false.

(** [my_colors_chains] of the builder of the thread also sets the chains it is interested in. *)
Definition build_with_store (interesting_chains : list Z) (fetch_boring_multis ack_writes : bool)
    (my_colors_chains : option (list Z)) : outcome (LogHandle * ThreadLog) :=
  _ ← no_color_0 interesting_chains;
  Done (new_handle ack_writes,
        match my_colors_chains with
        | Some cs => ClientLog.build cs (list_to_set cs) fetch_boring_multis ack_writes false NoConnection
        | None => ClientLog.build interesting_chains ∅ fetch_boring_multis ack_writes false NoConnection
        end).

(** [with_store] of the older constructors: the thread is told to acknowledge, the handle is not. *)
Definition with_store (interesting_chains : list Z) (fetch_boring_multis : bool) : outcome (LogHandle * ThreadLog) :=
  _ ← no_color_0 interesting_chains;
  Done (new_handle false, ClientLog.build interesting_chains ∅ fetch_boring_multis true false NoConnection).

(** [Servers]: how many of them, and whether each has a replica that is read from. *)
Inductive Servers := Unreplicated (n : positive) | Replicated (n : positive).

Record LogBuilder := mkBuilder {
  b_servers : Servers;
  b_chains : list Z;
  b_reads_my_writes : bool;
  b_fetch_boring_multis : bool;
  b_ack_writes : bool;
  b_my_colors_chains : option (list Z);
}.

Definition from_servers (servers : Servers) : LogBuilder := mkBuilder servers [] false false true None.
Definition chains (cs : list Z) (b : LogBuilder) : LogBuilder :=
  mkBuilder (b_servers b) cs (b_reads_my_writes b) (b_fetch_boring_multis b) (b_ack_writes b) (b_my_colors_chains b).
Definition reads_my_writes (b : LogBuilder) : LogBuilder :=
  mkBuilder (b_servers b) (b_chains b) true (b_fetch_boring_multis b) (b_ack_writes b) (b_my_colors_chains b).
Definition fetch_boring_multis (b : LogBuilder) : LogBuilder :=
  mkBuilder (b_servers b) (b_chains b) (b_reads_my_writes b) true (b_ack_writes b) (b_my_colors_chains b).
Definition do_not_ack_writes (b : LogBuilder) : LogBuilder :=
  mkBuilder (b_servers b) (b_chains b) (b_reads_my_writes b) (b_fetch_boring_multis b) false (b_my_colors_chains b).
Definition my_colors_chains (cs : list Z) (b : LogBuilder) : LogBuilder :=
  let b := chains cs b in
  mkBuilder (b_servers b) (b_chains b) (b_reads_my_writes b) (b_fetch_boring_multis b) (b_ack_writes b) (Some cs).

Definition store_of (servers : Servers) (reads_my_writes : bool) : StoreInner :=
  let s := match servers with Unreplicated n => ClientStore.build n true | Replicated n => ClientStore.build n false end in
  mkStore (sent_writes s) (sent_reads s) (max_timestamp_seen s) (num_chain_servers s) (is_unreplicated s)
    (new_multi s) reads_my_writes (ClientStore.finished s) (pending_skeens2 s) (streams s) (sent s) (client s) (client_gone s).

Definition build (b : LogBuilder) : outcome (LogHandle * ThreadLog * StoreInner) :=
  '(h, l) ← build_with_store (b_chains b) (b_fetch_boring_multis b) (b_ack_writes b) (b_my_colors_chains b);
  Done (h, l, store_of (b_servers b) (b_reads_my_writes b)).

(** [build_handles]: the handles may be cloned, so nothing is acknowledged. *)
Definition build_handles (b : LogBuilder) : outcome (LogHandle * ThreadLog * StoreInner) :=
  build (do_not_ack_writes b).

(** ** Dropping handles

    [ReadHandle] and [AtomicWriteHandle] share an [Arc], [last_dropped].  Dropping one looks
    whether it is the only owner ([Arc::get_mut]) and if so stops the thread; then its reference
    goes.  The two may be interleaved with those of another thread. *)

Record Dropping := mkDropping {
  owners : Z;               (* the references to [last_dropped] *)
  dropping : list nat;      (* handles that have looked, and still have their reference *)
  shutdowns : Z;            (* [Shutdown] messages *)
}.

Definition clone (d : Dropping) : Dropping := mkDropping (owners d + 1) (dropping d) (shutdowns d).
Definition drop_look (h : nat) (d : Dropping) : Dropping :=
  mkDropping (owners d) (h :: dropping d) (if owners d =? 1 then shutdowns d + 1 else shutdowns d).
Definition drop_reference (h : nat) (d : Dropping) : Dropping :=
  mkDropping (owners d - 1) (filter (fun h' => h' <> h) (dropping d)) (shutdowns d).
