(* ===== verification/ClientSync.v ===== *)
(** * The application, its handle and the client's thread together

    [System] is a [LogHandle] and the [ThreadLog] it talks to.  The application calls the handle,
    the thread takes the messages of the handle and of the store one by one, and what it sends
    arrives in the channels of the handle.  What is shown: the handle's count of snapshots that
    have not ended, and of appends that were not acknowledged, always agree with what is under
    way, so a call that says that everything was read is right and one that sleeps has something
    to wait for; [sync] gives the application exactly the entries the thread sent before the end
    of the snapshots; the errors of the store are counted differently by the two sides. *)

From stdpp Require Import base gmap sets list sorting.
From Stdlib Require Import ZArith Lia.
From S2P Require Import Prelude PacketCodec Packets PerColor ClientLog ClientHandle.
Open Scope Z_scope.

(** ** Counting *)

Definition count {X} (f : X -> bool) (xs : list X) : Z := Z.of_nat (length (filter (fun x => f x = true) xs)).

Lemma count_nil {X} (f : X -> bool) : count f [] = 0.
Proof. done. Qed.
Lemma count_cons {X} (f : X -> bool) x xs : count f (x :: xs) = (if f x then 1 else 0) + count f xs.
Proof. unfold count. rewrite filter_cons. destruct (f x); case_decide; simplify_eq/=; lia. Qed.
Lemma count_app {X} (f : X -> bool) xs ys : count f (xs ++ ys) = count f xs + count f ys.
Proof. unfold count. rewrite filter_app, length_app. lia. Qed.
Lemma count_pos {X} (f : X -> bool) xs : 0 <= count f xs.
Proof. unfold count. lia. Qed.

Definition is_done (r : Returned) : bool := match r with RetDone => true | _ => false end.
Definition errors (rs : list Returned) : list Z :=
  omap (fun r => match r with RetErr e => Some (error_num e) | _ => None end) rs.
Definition write_errs (ws : list Wrote) : list Z :=
  omap (fun w => match w with WroteErr e => Some (error_num e) | WroteOk _ _ => None end) ws.
Definition is_ack (w : Wrote) : bool := match w with WroteOk _ _ => true | WroteErr _ => false end.
Definition is_snap (m : FromClient) : bool :=
  match m with
  | SnapshotAndPrefetch _ | MultiSnapshotAndPrefetch _ | StrongSnapshotAndPrefetch _ _ | ReadUntil _ => true
  | _ => false
  end.
Definition is_append (m : FromClient) : bool := match m with PerformAppend _ => true | _ => false end.

(** ** The thread: what it sends, and how it counts *)

(** Between two states of one handler: what was sent to the reader are entries and ends of
    snapshots, as many ends as snapshots are no longer counted; nothing else that the handle sees
    has changed. *)
Definition acct (s s' : ThreadLog) : Prop :=
  reader_gone s = false -> store_gone s = false -> 0 <= ClientLog.num_snapshots s ->
  exists rs, ClientLog.ready_reads s' = ClientLog.ready_reads s ++ rs /\ errors rs = [] /\
    count is_done rs + ClientLog.num_snapshots s' = ClientLog.num_snapshots s /\
    0 <= ClientLog.num_snapshots s' /\
    ClientLog.finished_writes s' = ClientLog.finished_writes s /\
    num_errors s' = num_errors s /\ ack_writes s' = ack_writes s /\
    reader_gone s' = false /\ writer_gone s' = writer_gone s /\ store_gone s' = false /\ finished s' = finished s.

Lemma acct_same s s' :
  ClientLog.ready_reads s' = ClientLog.ready_reads s -> ClientLog.num_snapshots s' = ClientLog.num_snapshots s ->
  ClientLog.finished_writes s' = ClientLog.finished_writes s -> num_errors s' = num_errors s ->
  ack_writes s' = ack_writes s -> reader_gone s' = reader_gone s -> writer_gone s' = writer_gone s ->
  store_gone s' = store_gone s -> finished s' = finished s -> acct s s'.
Proof.
  intros Hr Hn Hw He Ha Hg Hg' Hs Hf Hgone Hstore Hpos. exists []. rewrite app_nil_r, Hn, Hg, Hs.
  rewrite count_nil. split_and!; try done; lia.
Qed.

Lemma acct_refl s : acct s s.
Proof. by apply acct_same. Qed.

Lemma acct_trans s1 s2 s3 : acct s1 s2 -> acct s2 s3 -> acct s1 s3.
Proof.
  intros H12 H23 Hg Hst Hp. destruct (H12 Hg Hst Hp) as (rs & E & Er & Ec & Hp2 & Hw & He & Ha & Hg2 & Hwg & Hst2 & Hf).
  destruct (H23 Hg2 Hst2 Hp2) as (rs' & E' & Er' & Ec' & Hp3 & Hw' & He' & Ha' & Hg3 & Hwg' & Hst3 & Hf').
  exists (rs ++ rs'). rewrite E', E, (assoc_L (++)). unfold errors in *. rewrite omap_app, Er, Er', count_app.
  split_and!; try done; try congruence. lia.
Qed.

(** Handlers that keep the accounts. *)
Definition settles {X} (m : L X) : Prop := forall s s' x, m s = Done (s', x) -> acct s s'.

Lemma bind_L' {X Y} (m : L X) (k : X -> L Y) s s' y :
  (m ≫= k) s = Done (s', y) -> exists s1 x, m s = Done (s1, x) /\ k x s1 = Done (s', y).
Proof. unfold mbind, L_bind. destruct (m s) as [[s1 x]|]; [|done]. intros. by exists s1, x. Qed.

Lemma settles_bind {X Y} (m : L X) (k : X -> L Y) : settles m -> (forall x, settles (k x)) -> settles (m ≫= k).
Proof. intros Hm Hk s s' y (s1 & x & H1 & H2)%bind_L'. eapply acct_trans; [by eapply Hm|by eapply Hk]. Qed.
Lemma settles_ret {X} (x : X) : settles (mret x).
Proof. intros s s' y [= <- <-]. apply acct_refl. Qed.
Lemma settles_pure {X} (o : outcome X) : settles (ClientLog.pure o).
Proof. intros s s' y Hs. unfold ClientLog.pure in Hs. inv_done. apply acct_refl. Qed.
Lemma settles_get {X} (f : ThreadLog -> X) : settles (ClientLog.get f).
Proof. intros s s' y [= <- <-]. apply acct_refl. Qed.
Lemma settles_modify f : (forall s, acct s (f s)) -> settles (ClientLog.modify f).
Proof. intros Hf s s' y [= <- <-]. apply Hf. Qed.
Lemma settles_when b m : settles m -> settles (ClientLog.when b m).
Proof. intros Hm. destruct b; [done|apply settles_ret]. Qed.
Lemma settles_for_each {X} (xs : list X) f : (forall x, settles (f x)) -> settles (ClientLog.for_each xs f).
Proof.
  intros Hf. induction xs as [|x xs IH]; [apply settles_ret|]. simpl. apply settles_bind; [apply Hf|done].
Qed.
Lemma settles_on_chain {X} o (f : Chain -> outcome (X * Chain)) : settles (on_chain o f).
Proof.
  intros s s' y Hs. unfold on_chain in Hs. destruct (per_chains s !! o); [|injection Hs as <- _; apply acct_refl].
  inv_done. destruct x. injection Hs as <- _. by apply acct_same.
Qed.
Lemma settles_chain_or_new o : settles (chain_or_new o).
Proof.
  intros s s' y Hs. unfold chain_or_new in Hs. destruct (per_chains s !! o); injection Hs as <- _; by apply acct_same.
Qed.

Create HintDb settles.
Hint Resolve settles_ret settles_pure settles_get settles_chain_or_new settles_on_chain : settles.

Ltac settle :=
  repeat (intros; cbn beta iota;
    first
      [ solve [eauto 2 with settles]
      | apply settles_bind
      | apply settles_when
      | apply settles_for_each
      | apply settles_modify; intros; by apply acct_same
      | match goal with |- settles (match ?x with _ => _ end) => destruct x end ]).

Section Thread.
Context `{Build} (fuel : nat).

(** *** Sending *)

(** A thread whose other side is there does not take the branch that ends it. *)
Lemma settles_alive (gone : ThreadLog -> bool) (m m' : L unit) :
  (forall s, reader_gone s = false -> store_gone s = false -> gone s = false) -> settles m' ->
  settles (g ← ClientLog.get gone; if (g : bool) then m else m').
Proof.
  intros Hg Hm s s' x (s1 & g & [= <- <-] & Hs)%bind_L' Hr Hst. rewrite (Hg s Hr Hst) in Hs. by eapply Hm.
Qed.

Lemma settles_send_ready r : is_done r = false -> errors [r] = [] ->
  settles (try_send_ready r) /\ settles (send_ready r).
Proof.
  intros Hd He.
  assert (Hm : forall s, acct s (ClientLog.set_ready (ClientLog.ready_reads s ++ [r]) s)).
  { intros s Hg Hst Hp. exists [r]. rewrite count_cons, Hd, count_nil. split_and!; try done; simpl; lia. }
  split; by apply settles_alive, settles_modify.
Qed.
Lemma settles_entry v : settles (try_send_ready (RetEntry v)).
Proof. by apply settles_send_ready. Qed.
Lemma settles_snapshot m : settles (send_ready (RetSnapshot m)).
Proof. by apply settles_send_ready. Qed.

Lemma settles_try_send_store p : settles (try_send_store p).
Proof. apply settles_alive; [done|]. settle. Qed.
Lemma settles_send_store p : settles (send_store p).
Proof. unfold send_store. settle. Qed.

(** *** Shared entries and returns *)

Lemma settles_rcs {X} (f : ThreadLog -> outcome (ThreadLog * X)) :
  (forall s s' x, f s = Done (s', x) -> exists m n, s' = set_rcs m n s) -> settles f.
Proof. intros Hf s s' x Hs. destruct (Hf _ _ _ Hs) as (m & n & ->). by apply acct_same. Qed.

Lemma settles_rc_new v : settles (rc_new v).
Proof. apply settles_rcs. intros s s' x [= <- _]. eauto. Qed.
Lemma settles_rc_get rc : settles (rc_get rc).
Proof. intros s s' x Hs. unfold rc_get in Hs. inv_done. destruct x0. injection Hs as <- _. apply acct_refl. Qed.
Lemma settles_rc_clone rc : settles (rc_clone rc).
Proof. apply settles_rcs. intros s s' x Hs. unfold rc_clone in Hs. inv_done. destruct x0. injection Hs as <- _. eauto. Qed.
Lemma settles_rc_drop rc : settles (rc_drop rc).
Proof. apply settles_rcs. intros s s' x Hs. unfold rc_drop in Hs. inv_done. destruct x0. injection Hs as <- _. eauto. Qed.
Lemma settles_rc_try_unwrap rc : settles (rc_try_unwrap rc).
Proof.
  intros s s' x Hs. unfold rc_try_unwrap in Hs. inv_done. destruct x0 as [n v].
  destruct (n =? 1); injection Hs as <- _; by apply acct_same.
Qed.

Hint Resolve settles_entry settles_snapshot settles_try_send_store settles_send_store settles_rc_new settles_rc_get
  settles_rc_clone settles_rc_drop settles_rc_try_unwrap : settles.

Lemma settles_block_on loc rc : settles (block_on loc rc).
Proof. unfold block_on. settle. Qed.
Lemma settles_saw o i : settles (saw o i).
Proof. unfold saw. settle. Qed.
Lemma settles_chain_get o : settles (chain_get o).
Proof. unfold chain_get. settle. Qed.
Hint Resolve settles_block_on settles_saw settles_chain_get : settles.

Lemma settles_fetch_next c low high : settles (fetch_next c low high).
Proof. unfold fetch_next. settle. Qed.
Hint Resolve settles_fetch_next : settles.
Lemma settles_prefetch c : settles (prefetch c).
Proof. unfold prefetch. settle. Qed.
Lemma settles_enqueue loc rc : settles (enqueue_packet loc rc).
Proof. unfold enqueue_packet. settle. Qed.
Lemma settles_mark_returned o i v : settles (mark_returned o i v).
Proof. unfold mark_returned. settle. Qed.
Lemma settles_mark_skipped o i f : settles (mark_skipped o i f).
Proof. unfold mark_skipped. settle. Qed.
Hint Resolve settles_prefetch settles_enqueue settles_mark_returned settles_mark_skipped : settles.

Lemma settles_return_entry_at loc v : settles (return_entry_at loc v).
Proof. unfold return_entry_at. settle. Qed.
Lemma settles_check_return ls : forall c sb, settles (check_return ls c sb).
Proof. induction ls as [|l ls IH]; intros; simpl; settle. Qed.
Lemma settles_mark_all v ls : forall b, settles (mark_all v ls b).
Proof. induction ls as [|l ls IH]; intros; simpl; settle. Qed.
Hint Resolve settles_return_entry_at settles_check_return settles_mark_all : settles.
Lemma settles_return_entry v : settles (return_entry v).
Proof. unfold return_entry. settle. Qed.
Hint Resolve settles_return_entry : settles.
Lemma settles_blocked_by loc : settles (try_return_blocked_by loc).
Proof. unfold try_return_blocked_by. settle. Qed.
Hint Resolve settles_blocked_by : settles.
Lemma settles_unblock_rest n : settles (unblock_rest n).
Proof. induction n as [|n IH]; simpl; settle. Qed.
Hint Resolve settles_unblock_rest : settles.
Lemma settles_stop_blocking locs : settles (stop_blocking_on fuel locs).
Proof. unfold stop_blocking_on. settle. Qed.
Hint Resolve settles_stop_blocking : settles.
Lemma settles_return_unblocked v : settles (return_unblocked fuel v).
Proof. unfold return_unblocked. settle. Qed.
Hint Resolve settles_return_unblocked : settles.

(** *** Blocking and fetching *)

Lemma settles_fetch_blocker c i : settles (fetch_blocker_at fuel c i).
Proof. unfold fetch_blocker_at. settle. Qed.
Hint Resolve settles_fetch_blocker : settles.
Lemma settles_block_on_deps deps rc : settles (block_on_deps fuel deps rc).
Proof. unfold block_on_deps. settle. Qed.
Lemma settles_block_on_prior ls rc : forall b1 b2, settles (block_on_prior ls rc b1 b2).
Proof. induction ls as [|l ls IH]; intros; simpl; settle. Qed.
Lemma settles_wait_for ls rc : forall b, settles (wait_for ls rc b).
Proof. induction ls as [|l ls IH]; intros; simpl; settle. Qed.
Hint Resolve settles_block_on_deps settles_block_on_prior settles_wait_for : settles.
Lemma settles_add_blockers rc : settles (add_blockers fuel rc).
Proof. unfold add_blockers. settle. Qed.
Lemma settles_add_blockers_at loc rc : settles (add_blockers_at fuel loc rc).
Proof. unfold add_blockers_at. settle. Qed.
Lemma settles_wait_for_deps rc : settles (wait_for_deps rc).
Proof. unfold wait_for_deps. settle. Qed.
Lemma settles_fetch_blockers rc : settles (fetch_blockers_if_needed fuel rc).
Proof. unfold fetch_blockers_if_needed. settle. Qed.
Hint Resolve settles_add_blockers settles_add_blockers_at settles_wait_for_deps settles_fetch_blockers : settles.
Lemma settles_try_returning_at loc rc : settles (try_returning_at fuel loc rc).
Proof. unfold try_returning_at. settle. Qed.
Lemma settles_try_returning rc : settles (try_returning fuel rc).
Proof. unfold try_returning. settle. Qed.
Lemma settles_ensure_read loc rc : settles (ensure_read loc rc).
Proof. unfold ensure_read. settle. Qed.
Lemma settles_server_is_finished c : settles (server_is_finished c).
Proof. unfold server_is_finished. settle. Qed.
Hint Resolve settles_try_returning_at settles_try_returning settles_ensure_read settles_server_is_finished : settles.
Lemma settles_continue_if_needed c : settles (continue_fetch_if_needed fuel c).
Proof. unfold continue_fetch_if_needed. settle. Qed.
Lemma settles_finshed_reading : settles finshed_reading.
Proof. unfold finshed_reading. settle. Qed.
Hint Resolve settles_continue_if_needed settles_finshed_reading : settles.

(** The ends of the snapshots, all at once. *)
Lemma send_dones {X} (xs : list X) : forall s s' x,
  reader_gone s = false -> ClientLog.for_each xs (fun _ => try_send_ready RetDone) s = Done (s', x) ->
  s' = ClientLog.set_ready (ClientLog.ready_reads s ++ replicate (length xs) RetDone) s.
Proof.
  induction xs as [|y xs IH]; intros s s' x Hg Hs.
  { injection Hs as <- _. destruct s. unfold ClientLog.set_ready. simpl. by rewrite app_nil_r. }
  simpl in Hs. apply bind_L' in Hs as (s1 & [] & H1 & Hs). unfold try_send_ready in H1.
  apply bind_L' in H1 as (s2 & g & [= <- <-] & H1). rewrite Hg in H1. injection H1 as <-.
  apply IH in Hs; [|done]. rewrite Hs. simpl. by rewrite <- (assoc_L (++)).
Qed.

Lemma count_dones n : count is_done (replicate n RetDone) = Z.of_nat n /\ errors (replicate n RetDone) = [].
Proof. induction n as [|n [IH1 IH2]]; [done|]. simpl. rewrite count_cons, IH1. split; [simpl; lia|done]. Qed.

Lemma settles_continue c : settles (continue_fetch fuel c).
Proof.
  unfold continue_fetch. apply settles_bind; [settle|]. intros []; [|settle].
  apply settles_bind; [settle|intros _]. apply settles_bind; [settle|]. intros []; [|settle].
  intros s s' x (s1 & n & [= <- <-] & (s2 & [] & [= <-] & Hs)%bind_L')%bind_L' Hg Hst Hp.
  apply send_dones in Hs; [|done]. subst s'. rewrite length_seqZ.
  destruct (count_dones (Z.to_nat (ClientLog.num_snapshots s))) as [Hc He].
  eexists. split; [done|]. rewrite Hc. split_and!; try done; simpl; lia.
Qed.
Hint Resolve settles_continue : settles.

(** *** Entries of several chains *)

Lemma settles_fetch_multi_parts id c i ms : settles (fetch_multi_parts fuel id c i ms).
Proof. unfold fetch_multi_parts. settle. Qed.
Hint Resolve settles_fetch_multi_parts : settles.
Lemma settles_first_part id ms fp ls : forall sen, settles (first_part fuel id ms fp sen ls).
Proof. induction ls as [|l ls IH]; intros; simpl; settle. Qed.
Lemma settles_later_part ls : forall sen ls', settles (later_part sen ls ls').
Proof. induction ls as [|l ls IH]; intros sen [|l' ls']; simpl; settle. Qed.
Hint Resolve settles_first_part settles_later_part : settles.
Lemma settles_update_multi loc msg sen : settles (update_multi_part_read fuel loc msg sen).
Proof. unfold update_multi_part_read. settle. Qed.
Hint Resolve settles_update_multi : settles.
Lemma settles_multi_read loc msg sen : settles (handle_multi_read fuel loc msg sen).
Proof. unfold handle_multi_read. settle. Qed.
Lemma settles_got_entry loc b rc : settles (got_entry_at fuel loc b rc).
Proof. unfold got_entry_at. settle. Qed.
Hint Resolve settles_multi_read settles_got_entry : settles.
Lemma settles_completed_read loc msg : settles (handle_completed_read fuel loc msg).
Proof. unfold handle_completed_read. settle. Qed.
Hint Resolve settles_completed_read : settles.

(** *** Messages *)

Definition bump (m : FromClient) (s : ThreadLog) : ThreadLog :=
  if is_snap m then ClientLog.set_num_snapshots (saturating_add1 (ClientLog.num_snapshots s)) s
  else match m with Shutdown => set_finished true s | _ => s end.

Lemma settles_use {X} (m : L X) s s' x : m s = Done (s', x) -> settles m -> acct s s'.
Proof. intros Hs Hm. by eapply Hm. Qed.

Lemma client_message m s s' go :
  m <> StopAckingWrites -> handle_from_client fuel m s = Done (s', go) -> acct (bump m s) s'.
Proof.
  intros Hm Hs. unfold handle_from_client, snapshot_chains, fetch_snapshot, fetch_strong_snapshot in Hs.
  unfold bump, is_snap. destruct m; try done.
  1,2,3,6: apply bind_L' in Hs as (s1 & [] & [= <-] & Hs).
  all: eapply settles_use; [exact Hs|]; settle.
Qed.

Lemma read_message loc msg s s' go : handle_from_store fuel (ReadComplete loc msg) s = Done (s', go) -> acct s s'.
Proof. intros Hs. eapply settles_use; [exact Hs|]. unfold handle_from_store. settle. Qed.

(** What the thread sends the writer for a message of the store. *)
Lemma write_message id locs s s' go :
  handle_from_store fuel (WriteComplete id locs) s = Done (s', go) -> writer_gone s = false ->
  reader_gone s = false -> store_gone s = false -> 0 <= ClientLog.num_snapshots s ->
  exists s1, acct s s1 /\ s' = ClientLog.set_writes
    (ClientLog.finished_writes s1 ++ if ack_writes s then [WroteOk id locs] else []) s1.
Proof.
  intros Hs Hw Hg Hst Hp. simpl in Hs. apply bind_L' in Hs as (s0 & colors & [= <- <-] & Hs).
  apply bind_L' in Hs as (s1 & [] & Hf & Hs).
  assert (Ha : acct s s1) by (eapply settles_use; [exact Hf|settle]).
  destruct (Ha Hg Hst Hp) as (rs & _ & _ & _ & _ & _ & _ & Hack & _ & Hw1 & _).
  apply bind_L' in Hs as (s2 & ack & [= <- <-] & Hs). apply bind_L' in Hs as (s2 & gone & [= <- <-] & Hs).
  exists s1. split; [done|]. rewrite Hw1, Hw, Hack in Hs.
  destruct (ack_writes s); simpl in Hs; apply bind_L' in Hs as (s2 & [] & [= <-] & [= <- _]); [done|].
  rewrite app_nil_r. by destruct s1.
Qed.

Lemma error_message kind sv s s' go :
  handle_from_store fuel (IoError kind sv) s = Done (s', go) -> reader_gone s = false -> writer_gone s = false ->
  exists n, add64 (num_errors s) 1 = Done n /\
  s' = ClientLog.set_ready (ClientLog.ready_reads s ++ [RetErr (mkError (num_errors s) sv kind)])
    (ClientLog.set_writes (ClientLog.finished_writes s ++
       if ack_writes s then [WroteErr (mkError (num_errors s) sv kind)] else []) (set_num_errors n s)).
Proof.
  intros Hs Hg Hw. simpl in Hs. apply bind_L' in Hs as (s0 & n0 & [= <- <-] & Hs).
  apply bind_L' in Hs as (s0 & n & Hn & Hs). unfold ClientLog.pure in Hn.
  apply bind_done in Hn as (n' & Hn & [= <- <-]). exists n'. split; [done|]. apply bind_L' in Hs as (s0 & [] & [= <-] & Hs).
  apply bind_L' in Hs as (s0 & ack & [= <- <-] & Hs). apply bind_L' in Hs as (s0 & gone & [= <- <-] & Hs).
  simpl in Hs. rewrite Hw in Hs. unfold try_send_ready in Hs.
  destruct (ack_writes s); simpl in Hs; apply bind_L' in Hs as (s0 & [] & [= <-] & Hs);
    apply bind_L' in Hs as (s1 & [] & Ht & [= <- _]);
    apply bind_L' in Ht as (s2 & gone & [= <- <-] & Ht); simpl in Ht; rewrite Hg in Ht; injection Ht as <-; [done|].
  rewrite app_nil_r. by destruct s.
Qed.

End Thread.

Lemma saturating_small n : n < u64_max -> saturating_add1 n = n + 1.
Proof. unfold saturating_add1. lia. Qed.

(** What a message does: how many snapshots it asks for, how many appends it completes, and what
    the thread sends back for it. *)
Definition asks (m : Message) : Z := match m with MFromClient m => if is_snap m then 1 else 0 | MFromStore _ => 0 end.
Definition completes (m : Message) : Z := match m with MFromStore (WriteComplete _ _) => 1 | _ => 0 end.

Definition effect (m : Message) (l l' : ThreadLog) (go : bool) : Prop := exists rs ws,
  ClientLog.ready_reads l' = ClientLog.ready_reads l ++ rs /\
  ClientLog.finished_writes l' = ClientLog.finished_writes l ++ ws /\
  ClientLog.num_snapshots l' + count is_done rs = ClientLog.num_snapshots l + asks m /\
  0 <= ClientLog.num_snapshots l' /\ num_errors l <= num_errors l' <= num_errors l + 1 /\
  errors rs = seqZ (num_errors l) (num_errors l' - num_errors l) /\
  (ack_writes l = false -> ws = []) /\
  (ack_writes l = true -> write_errs ws = seqZ (num_errors l) (num_errors l' - num_errors l) /\
     count is_ack ws = completes m) /\
  reader_gone l' = false /\ writer_gone l' = false /\ ack_writes l' = ack_writes l /\ store_gone l' = false /\
  (m <> MFromClient Shutdown -> finished l' = finished l /\ go = true).

Section Effect.
Context `{Build} (fuel : nat) (l l' : ThreadLog) (go : bool).
Context (Hr : reader_gone l = false) (Hw : writer_gone l = false) (Hst : store_gone l = false).
Context (Hn : 0 <= ClientLog.num_snapshots l < u64_max).

Lemma client_go m : m <> Shutdown -> handle_from_client fuel m l = Done (l', go) -> go = true.
Proof.
  intros Hm Hl. destruct m; try done; unfold handle_from_client in Hl;
    repeat (apply bind_L' in Hl as (? & ? & _ & Hl)); by injection Hl as _ <-.
Qed.

Lemma store_go m : handle_from_store fuel m l = Done (l', go) -> go = true.
Proof.
  intros Hl. destruct m; unfold handle_from_store in Hl;
    repeat (apply bind_L' in Hl as (? & ? & _ & Hl)); by injection Hl as _ <-.
Qed.

(** The state the handler of [m] starts to work in. *)
Lemma bump_same m :
  ClientLog.ready_reads (bump m l) = ClientLog.ready_reads l /\
  ClientLog.finished_writes (bump m l) = ClientLog.finished_writes l /\
  num_errors (bump m l) = num_errors l /\ ack_writes (bump m l) = ack_writes l /\
  writer_gone (bump m l) = writer_gone l /\ reader_gone (bump m l) = reader_gone l /\
  store_gone (bump m l) = store_gone l /\
  ClientLog.num_snapshots (bump m l) = ClientLog.num_snapshots l + asks (MFromClient m) /\
  (m <> Shutdown -> finished (bump m l) = finished l).
Proof.
  unfold bump, asks. destruct m; simpl; rewrite ?saturating_small by lia; split_and!; try done; lia.
Qed.

Lemma client_effect m :
  m <> StopAckingWrites -> handle_from_client fuel m l = Done (l', go) -> effect (MFromClient m) l l' go.
Proof.
  intros Hm Hl. destruct (bump_same m) as (B1 & B2 & B3 & B4 & B5 & B6 & B7 & B8 & B9).
  assert (0 <= asks (MFromClient m)) by (simpl; destruct (is_snap m); lia).
  destruct (client_message fuel m _ _ _ Hm Hl) as (rs & E & Er & Ec & Hp & Hws & Hne & Hak & Hg & Hwg & Hs' & Hf);
    [congruence..|lia|].
  exists rs, []. rewrite E, Hws, Hne, Hak, Hwg, B1, B2, B3, B4, B5, Z.sub_diag, app_nil_r.
  split_and!; try done; try lia. intros Hne'. assert (m <> Shutdown) by congruence.
  rewrite Hf, B9 by done. split; [done|by eapply client_go].
Qed.

Lemma store_effect m : 0 <= num_errors l < u64_max ->
  handle_from_store fuel m l = Done (l', go) -> effect (MFromStore m) l l' go.
Proof.
  intros He Hl. pose proof (store_go _ Hl) as Hgo. destruct m as [id locs|loc msg|kind sv].
  - destruct (write_message fuel id locs _ _ _ Hl Hw Hr Hst (proj1 Hn)) as (s1 & HA & ->).
    destruct (HA Hr Hst (proj1 Hn)) as (rs & E & Er & Ec & Hp & Hws & Hne & Hak & Hg & Hwg & Hs' & Hf).
    exists rs, (if ack_writes l then [WroteOk id locs] else []). simpl. rewrite E, Hws, Hne, Hak, Hwg, Z.sub_diag.
    split_and!; try done; try lia; by destruct (ack_writes l).
  - destruct (read_message fuel loc msg _ _ _ Hl Hr Hst (proj1 Hn))
      as (rs & E & Er & Ec & Hp & Hws & Hne & Hak & Hg & Hwg & Hs' & Hf).
    exists rs, []. rewrite E, Hws, Hne, Hak, Hwg, Z.sub_diag, app_nil_r. simpl. split_and!; try done; lia.
  - destruct (error_message fuel kind sv _ _ _ Hl Hr Hw) as (n & Hadd & ->).
    rewrite add64_ok in Hadd by (unfold in_u64; lia). injection Hadd as <-.
    assert (Hseq : seqZ (num_errors l) (num_errors l + 1 - num_errors l) = [num_errors l]).
    { replace (num_errors l + 1 - num_errors l) with 1 by lia. by rewrite seqZ_cons. }
    eexists [_], _. simpl. split_and!; try done; rewrite ?Hseq; try lia; try (by intros ->).
Qed.

Lemma message_effect m : 0 <= num_errors l < u64_max -> m <> MFromClient StopAckingWrites ->
  handle_message fuel m l = Done (l', go) -> effect m l l' go.
Proof. intros He Hm Hl. destruct m; [by apply store_effect|apply client_effect; [congruence|done]]. Qed.

End Effect.

(** ** The system *)

Record System := mkSys {
  app : LogHandle;
  log : ThreadLog;
  in_flight : Z;     (* appends the thread passed on that the store has not completed *)
}.

(** The calls of the application. *)
Inductive Call :=
| CSnapshot (chain : Z) | CSnapshotColors (colors : list Z) | CStrongSnapshot (id : Z) (colors : list Z)
| CTakeSnapshot | CReadUntil (loc : OrderIndex) | CFastforward (loc : OrderIndex) | CRewind (loc : OrderIndex)
| CGetNext | CTryGetNext
| CAppend (id chain : Z) (data : list Z) (deps : list OrderIndex)
| CMultiappend (id : Z) (chains data : list Z) (deps : list OrderIndex)
| CNoRemoteMultiappend (id : Z) (chains data : list Z) (deps : list OrderIndex)
| CDependentMultiappend (id : Z) (chains depends_on data : list Z) (deps : list OrderIndex)
| CColorAppend (id : Z) (data inhabits depends_on : list Z) (async : bool)
| CSimpleAppend (id : Z) (data inhabits : list Z)
| CWaitAny | CTryWaitAny | CWaitAll | CWaitSpecific (id : Z) | CFlush.

Definition perform `{Build} (c : Call) : H unit :=
  match c with
  | CSnapshot chain => snapshot chain
  | CSnapshotColors colors => snapshot_colors colors
  | CStrongSnapshot id colors => strong_snapshot id colors
  | CTakeSnapshot => take_snapshot
  | CReadUntil loc => read_until loc
  | CFastforward loc => fastforward loc
  | CRewind loc => rewind loc
  | CGetNext => _ ← get_next_event; mret tt
  | CTryGetNext => _ ← try_get_next_event; mret tt
  | CAppend id chain data deps => _ ← async_append id chain data deps; mret tt
  | CMultiappend id chains data deps => _ ← async_multiappend id chains data deps; mret tt
  | CNoRemoteMultiappend id chains data deps => _ ← async_no_remote_multiappend id chains data deps; mret tt
  | CDependentMultiappend id chains depends_on data deps =>
      _ ← async_dependent_multiappend id chains depends_on data deps; mret tt
  | CColorAppend id data colors depends_on async => _ ← color_append id data colors depends_on async; mret tt
  | CSimpleAppend id data colors => _ ← simple_append id data colors; mret tt
  | CWaitAny => _ ← wait_for_any_append; mret tt
  | CTryWaitAny => _ ← try_wait_for_any_append; mret tt
  | CWaitAll => _ ← wait_for_all_appends; mret tt
  | CWaitSpecific id => _ ← wait_for_a_specific_append id; mret tt
  | CFlush => _ ← flush_completed_appends; mret tt
  end.

(** The thread takes a message of the application or of the store.  The store completes an append
    at most once: without one in flight it has nothing to complete. *)
Inductive SysEvent := Calls (c : Call) | LogTakes | StoreSends (m : FromStore).

(** What the thread sent arrives. *)
Definition deliver (l l' : ThreadLog) (h : LogHandle) : LogHandle :=
  set_ready (ready_reads h ++ drop (length (ClientLog.ready_reads l)) (ClientLog.ready_reads l'))
    (set_writes (finished_writes h ++ drop (length (ClientLog.finished_writes l)) (ClientLog.finished_writes l')) h).

Definition log_step `{Build} (fuel : nat) (m : Message) (h : LogHandle) (y : System) (fl : Z) : outcome System :=
  '(l', go) ← handle_message fuel m (log y);
  let h := deliver (log y) l' h in
  Done (mkSys (if (go : bool) && negb (finished l') then h else set_log_gone true h) l' fl).

Definition sys_step `{Build} (fuel : nat) (ev : SysEvent) (y : System) : outcome System :=
  match ev with
  | Calls c =>
      match perform c (app y) with
      | Ret h _ | Wait h => Done (mkSys h (log y) (in_flight y))
      | Abort => Panic
      end
  | LogTakes =>
      match to_log (app y) with
      | m :: q =>
          if log_gone (app y) then Done y
          else log_step fuel (MFromClient m) (set_to_log q (app y)) y
                 (if is_append m then in_flight y + 1 else in_flight y)
      | [] => Done y
      end
  | StoreSends m =>
      if log_gone (app y) then Done y
      else match m with
      | WriteComplete _ _ =>
          if in_flight y =? 0 then Done y else log_step fuel (MFromStore m) (app y) y (in_flight y - 1)
      | _ => log_step fuel (MFromStore m) (app y) y (in_flight y)
      end
  end.

Fixpoint sys_run `{Build} (fuel : nat) (evs : list SysEvent) (y : System) : outcome System :=
  match evs with [] => Done y | ev :: evs => y ← sys_step fuel ev y; sys_run fuel evs y end.

(** ** The accounts of a handle

    [b] snapshots and [w] appends are with the thread, which has numbered [e] errors and
    acknowledges appends or not ([a]). *)

(** The errors in a channel are consecutive up to the last one; the handle that takes them counts
    from 1, so its count is one behind the number of errors taken. *)
Definition numbered (e seen : Z) (errs : list Z) : Prop :=
  exists next, 0 <= next <= e /\ errs = seqZ next (e - next) /\ seen = Z.max 0 (next - 1).

Record hinv (a : bool) (b w e k : Z) (s : LogHandle) : Prop := {
  h_snaps : num_snapshots s = b + count is_snap (to_log s) + count is_done (ready_reads s);
  h_writes : forall n, num_async_writes s = Some n -> n = w + count is_append (to_log s) + count is_ack (finished_writes s);
  h_bound : num_snapshots s <= k /\ forall n, num_async_writes s = Some n -> n <= k;
  h_errs : numbered e (read_errors s) (errors (ready_reads s));
  h_werrs : (exists n, num_async_writes s = Some n) -> numbered e (write_errors s) (write_errs (finished_writes s));
  h_stop : StopAckingWrites ∉ to_log s;
  h_acks : match num_async_writes s with Some _ => a = true | None => a = false /\ finished_writes s = [] end;
}.

Section Calls.
Context `{Build} (a : bool) (b w e : Z) (Hb : 0 <= b) (Hw : 0 <= w) (He : e <= u64_max).
Abbreviation inv := (hinv a b w e).

Lemma inv_le k k' s : inv k s -> k <= k' -> inv k' s.
Proof. intros [? ? [? Hn] ? ? ? ?] ?. split; try done. split; [lia|]. intros n En. specialize (Hn n En). lia. Qed.

Definition trip {X} (k : Z) (m : H X) (k' : Z) : Prop :=
  forall s, inv k s -> match m s with Ret s' _ | Wait s' => inv k' s' | Abort => True end.

Lemma trip_bind {X Y} k k1 k2 (m : H X) (f : X -> H Y) :
  trip k m k1 -> (forall x, trip k1 (f x) k2) -> k1 <= k2 -> trip k (m ≫= f) k2.
Proof.
  intros Hm Hf Hk s HI. specialize (Hm s HI). unfold mbind, H_bind. destruct (m s) as [s' x|s'|].
  - by apply Hf.
  - by eapply inv_le.
  - done.
Qed.
Lemma trip_ret {X} k (x : X) : trip k (mret x) k.
Proof. by intros s HI. Qed.
Lemma trip_pure {X} k (o : outcome X) : trip k (pure o) k.
Proof. intros s HI. by destruct o. Qed.
Lemma trip_get {X} k (f : LogHandle -> X) : trip k (get f) k.
Proof. by intros s HI. Qed.
Lemma trip_le {X} k k' (m : H X) : trip k m k -> k <= k' -> trip k m k'.
Proof. intros Hm Hk s HI. specialize (Hm s HI). destruct (m s); by try eapply inv_le. Qed.

(** *** Errors *)

Lemma numbered_cons seen x errs :
  numbered e seen (x :: errs) ->
  0 <= x < e /\ seen = Z.max 0 (x - 1) /\ numbered e x errs.
Proof.
  intros (next & Hn & Hs & ->). destruct (decide (next = e)) as [->|Hne].
  { by rewrite Z.sub_diag in Hs. }
  rewrite seqZ_cons in Hs by lia. injection Hs as -> ->. split; [lia|]. split; [done|].
  exists (Z.succ next). split; [lia|]. split; [f_equal; lia|lia].
Qed.

Lemma read_error_spec er errs s :
  numbered e (read_errors s) (error_num er :: errs) ->
  make_read_error er s =
    Ret (set_read_errors (error_num er) s)
        (if error_num er =? 0 then None else Some (GIoErr (error er) (server er))).
Proof.
  intros (Hx & Hs & _)%numbered_cons. unfold make_read_error, mbind, H_bind, get. rewrite Hs.
  destruct (error_num er =? 0) eqn:E.
  - apply Z.eqb_eq in E. rewrite E; simpl. unfold mret, H_ret. f_equal. destruct s; simpl in *. unfold set_read_errors; simpl.
    by rewrite Hs, E.
  - apply Z.eqb_neq in E. rewrite (proj2 (Z.ltb_lt _ _)) by lia. unfold pure.
    rewrite add64_ok by (unfold in_u64; lia). replace (Z.max 0 (error_num er - 1) + 1) with (error_num er) by lia.
    by rewrite Z.eqb_refl.
Qed.

Lemma write_error_spec er errs s :
  numbered e (write_errors s) (error_num er :: errs) ->
  to_wait_error er s =
    Ret (set_write_errors (error_num er) s)
        (if error_num er =? 0 then None else Some (TIoErr (error er) (server er))).
Proof.
  intros (Hx & Hs & _)%numbered_cons. unfold to_wait_error, mbind, H_bind, get. rewrite Hs.
  destruct (error_num er =? 0) eqn:E.
  - apply Z.eqb_eq in E. rewrite E; simpl. unfold mret, H_ret. f_equal. destruct s; simpl in *. unfold set_write_errors; simpl.
    by rewrite Hs, E.
  - apply Z.eqb_neq in E. rewrite (proj2 (Z.ltb_lt _ _)) by lia. unfold pure.
    rewrite add64_ok by (unfold in_u64; lia). replace (Z.max 0 (error_num er - 1) + 1) with (error_num er) by lia.
    by rewrite Z.eqb_refl.
Qed.

(** *** Reading *)

(** The buffer of the last entry goes back. *)
Definition give_back (s : LogHandle) : list FromClient :=
  match curr_entry s with Some _ => [ReturnBuffer] | None => [] end.

Lemma give_back_bufs s : Forall (eq ReturnBuffer) (give_back s).
Proof. unfold give_back. destruct (curr_entry s); repeat constructor. Qed.

Lemma replace_entry_spec v s :
  replace_entry v s =
    if bool_decide (is_Some (curr_entry s)) && log_gone s then Abort
    else Ret (set_curr v (set_to_log (to_log s ++ give_back s) s)) tt.
Proof.
  unfold replace_entry, mbind, H_bind, get, modify, give_back. destruct s as [? ? [c|] ? ? ? ? ? []]; simpl; try done;
    unfold mret, H_ret, set_curr, set_to_log; simpl; by rewrite app_nil_r.
Qed.

(** The states of one round of the loops that read. *)
Record taken (r : Returned) (q : list Returned) (s s' : LogHandle) : Prop := {
  tk_snaps : num_snapshots s' = num_snapshots s - (if is_done r then 1 else 0);
  tk_errs : read_errors s' = match r with RetErr er => error_num er | _ => read_errors s end;
  tk_ready : ready_reads s' = q;
  tk_async : num_async_writes s' = num_async_writes s;
  tk_werrs : write_errors s' = write_errors s;
  tk_writes : finished_writes s' = finished_writes s;
  tk_gone : log_gone s' = log_gone s;
  tk_log : exists bufs, to_log s' = to_log s ++ bufs /\ Forall (eq ReturnBuffer) bufs;
}.

Lemma take_entry_spec val q s :
  match take_read (RetEntry val) (set_ready q s) with
  | Ret s' o => taken (RetEntry val) q s s' /\ exists e, event_of val = Done e /\ o = Some (Ok e)
  | Wait _ => False
  | Abort => True
  end.
Proof.
  unfold take_read, mbind, H_bind. rewrite replace_entry_spec. destruct (_ && _); [done|].
  unfold current_event, mbind, H_bind, get, pure; simpl. destruct (event_of val) as [ev|] eqn:E; [|done]. simpl.
  split; [|by exists ev]. split; try done; simpl; [lia|]. exists (give_back s). split; [done|apply give_back_bufs].
Qed.

Lemma take_read_spec k r q s :
  inv k s -> ready_reads s = r :: q ->
  match take_read r (set_ready q s) with
  | Ret s' o => taken r q s s' /\ (o = Some (Err GDone) -> num_snapshots s' = 0) /\ (r = RetDone -> o = None -> 0 < num_snapshots s')
  | Wait _ => False
  | Abort => True
  end.
Proof.
  intros HI Hq. destruct r as [val|msg| |er].
  - pose proof (take_entry_spec val q s) as Ht. destruct (take_read _ _); try done.
    destruct Ht as (Ht & e' & _ & ->). done.
  - pose proof (take_entry_spec msg q s) as Ht. change (take_read (RetSnapshot msg)) with (take_read (RetEntry msg)).
    destruct (take_read _ _); try done.
    destruct Ht as ([] & e' & _ & ->). split; [by split|]. done.
  - unfold take_read, mbind, H_bind. rewrite replace_entry_spec. destruct (_ && _); [done|].
    unfold get, pure, assert_; simpl. destruct (0 <? num_snapshots s) eqn:E; [|done].
    apply Z.ltb_lt in E. unfold modify, mret, H_ret. simpl.
    split; [|destruct (num_snapshots s - 1 =? 0) eqn:E0; split; try done; intros; simpl; lia].
    split; try done; simpl. exists (give_back s). split; [done|apply give_back_bufs].
  - pose proof (h_errs _ _ _ _ _ _ HI) as Hn. rewrite Hq in Hn.
    unfold take_read, mbind, H_bind. rewrite (read_error_spec er (errors q)) by done.
    split; [|by destruct (error_num er =? 0)]. split; try done; simpl; [lia|]. exists []. by rewrite app_nil_r.
Qed.

Lemma bufs_count {f} bufs : f ReturnBuffer = false -> Forall (eq ReturnBuffer) bufs -> count f bufs = 0.
Proof. intros Hf. induction 1 as [|? ? <- ? IH]; [done|]. by rewrite count_cons, Hf, IH. Qed.

Lemma taken_inv k r q s s' : inv k s -> ready_reads s = r :: q -> taken r q s s' -> inv k s'.
Proof.
  intros HI Hq [Hs He' Hr Ha Hwe Hws _ (bufs & Hl & Hbufs)]. destruct HI as [I1 I2 [I3 I4] I5 I6 I7 I8].
  pose proof (bufs_count (f := is_snap) bufs eq_refl Hbufs). pose proof (bufs_count (f := is_append) bufs eq_refl Hbufs).
  rewrite Hq in *. rewrite count_cons in I1. split.
  - rewrite Hs, Hr, Hl, count_app. lia.
  - intros n Hn. rewrite Ha in Hn. rewrite Hl, Hws, count_app, (I2 n Hn). lia.
  - rewrite Hs, Ha. split; [destruct (is_done r); lia|done].
  - rewrite He', Hr. destruct r as [| | |er]; try exact I5. by apply numbered_cons in I5 as (_ & _ & ?).
  - by rewrite Ha, Hwe, Hws.
  - rewrite Hl. intros [?|Hin]%elem_of_app; [done|]. rewrite Forall_forall in Hbufs. by specialize (Hbufs _ Hin).
  - by rewrite Ha, Hws.
Qed.

(** What a call that reads may do. *)
Definition reads_well (k : Z) (r : res (result EventOf GetRes)) : Prop :=
  match r with
  | Ret s' r => inv k s' /\ (r = Err GDone -> num_snapshots s' = 0)
  | Wait s' => inv k s' /\ 0 < num_snapshots s' /\ ready_reads s' = []
  | Abort => True
  end.

Lemma read_round k r q s (loop : H (result EventOf GetRes)) :
  inv k s -> 0 < num_snapshots s -> ready_reads s = r :: q ->
  (forall s', inv k s' -> 0 < num_snapshots s' -> ready_reads s' = q -> reads_well k (loop s')) ->
  reads_well k ((_ ← modify (set_ready q); x ← take_read r; match x with Some x => mret x | None => loop end) s).
Proof.
  intros HI Hpos Hq Hl. unfold mbind, H_bind, modify. pose proof (take_read_spec k r q s HI Hq) as Ht.
  destruct (take_read r (set_ready q s)) as [s' o|s'|]; [|done..]. destruct Ht as (Ht & Hd & Hn).
  pose proof (taken_inv _ _ _ _ _ HI Hq Ht) as HI'. destruct o as [o|].
  - split; [done|]. intros ->. by apply Hd.
  - apply Hl; [done| |apply Ht]. rewrite (tk_snaps _ _ _ _ Ht) in *. destruct r; simpl in *; try lia. by apply Hn.
Qed.

Lemma recv_loop_spec k q : forall s,
  inv k s -> 0 < num_snapshots s -> ready_reads s = q -> reads_well k (recv_loop q s).
Proof.
  induction q as [|r q IH]; intros s HI Hpos Hq; simpl.
  - by destruct (log_gone s).
  - by apply read_round.
Qed.
Lemma try_recv_loop_spec k q : forall s,
  inv k s -> 0 < num_snapshots s -> ready_reads s = q -> reads_well k (try_recv_loop q s).
Proof.
  induction q as [|r q IH]; intros s HI Hpos Hq; simpl.
  - done.
  - by apply read_round.
Qed.

Lemma snapshots_pos k s : inv k s -> 0 <= num_snapshots s.
Proof. intros HI. rewrite (h_snaps _ _ _ _ _ _ HI). pose proof (count_pos is_snap (to_log s)). pose proof (count_pos is_done (ready_reads s)). lia. Qed.

Lemma get_next_spec k s : inv k s -> reads_well k (get_next_event s).
Proof.
  intros HI. pose proof (snapshots_pos _ _ HI). unfold get_next_event, mbind, H_bind, get.
  destruct (num_snapshots s =? 0) eqn:E; [split; [done|]; intros _; lia|]. apply recv_loop_spec; [done|lia|done].
Qed.
Lemma try_get_next_spec k s : inv k s -> reads_well k (try_get_next_event s).
Proof.
  intros HI. pose proof (snapshots_pos _ _ HI). unfold try_get_next_event, mbind, H_bind, get.
  destruct (num_snapshots s =? 0) eqn:E; [split; [done|]; intros _; lia|]. apply try_recv_loop_spec; [done|lia|done].
Qed.

(** *** Waiting for appends *)

Lemma acked_inv k w0 q s n :
  inv k s -> finished_writes s = w0 :: q -> num_async_writes s = Some n ->
  inv k (set_async (Some (n - if is_ack w0 then 1 else 0))
           (set_write_errors (match w0 with WroteErr er => error_num er | WroteOk _ _ => write_errors s end)
              (set_writes q s))).
Proof.
  intros [I1 I2 [I3 I4] I5 I6 I7 I8] Hq Hn. specialize (I2 n Hn). specialize (I4 n Hn).
  rewrite Hq, count_cons in I2. split; simpl; try done.
  - intros n' [= <-]. lia.
  - split; [done|]. intros n' [= <-]. destruct (is_ack w0); lia.
  - intros _. assert (Hx : numbered e (write_errors s) (write_errs (finished_writes s))) by (apply I6; by exists n).
    rewrite Hq in Hx. destruct w0 as [|er]; [exact Hx|]. by apply numbered_cons in Hx as (_ & _ & ?).
  - by rewrite Hn in I8.
Qed.

Lemma take_ack k id locs q s n :
  inv k s -> k <= u64_max -> finished_writes s = WroteOk id locs :: q -> num_async_writes s = Some n ->
  exists s', one_less (set_writes q s) = Ret s' tt /\ inv k s' /\ num_async_writes s' = Some (n - 1) /\
    finished_writes s' = q /\ log_gone s' = log_gone s.
Proof.
  intros HI Hk Hq Hn. pose proof (acked_inv _ _ _ _ _ HI Hq Hn) as HA. simpl in HA.
  destruct HI as [_ I2 [_ I4] _ _ _ _]. specialize (I2 n Hn). specialize (I4 n Hn). rewrite Hq, count_cons in I2. simpl in I2.
  pose proof (count_pos is_append (to_log s)). pose proof (count_pos is_ack q).
  eexists. split; [|split; [exact HA|done]].
  unfold one_less, mbind, H_bind, get; simpl. rewrite Hn. unfold pure. rewrite sub64_ok by (unfold in_u64; lia).
  destruct s; done.
Qed.

Lemma take_werr k er q s n :
  inv k s -> finished_writes s = WroteErr er :: q -> num_async_writes s = Some n ->
  exists s', to_wait_error er (set_writes q s) =
      Ret s' (if error_num er =? 0 then None else Some (TIoErr (error er) (server er))) /\
    inv k s' /\ num_async_writes s' = Some n /\ finished_writes s' = q /\ log_gone s' = log_gone s.
Proof.
  intros HI Hq Hn. pose proof (acked_inv _ _ _ _ _ HI Hq Hn) as HA. simpl in HA. rewrite Z.sub_0_r in HA.
  assert (Hx : numbered e (write_errors s) (write_errs (finished_writes s))) by (apply HI; by exists n). rewrite Hq in Hx.
  rewrite (write_error_spec er (write_errs q) (set_writes q s)) by exact Hx.
  eexists. split; [done|]. simpl. split; [|done]. destruct s; simpl in *. by subst.
Qed.

(** Without acknowledgements the channel stays empty. *)
Lemma acks_counted k s w0 q : inv k s -> finished_writes s = w0 :: q -> exists n, num_async_writes s = Some n.
Proof. intros HI Hq. destruct (num_async_writes s) eqn:E; [by eexists|]. pose proof (h_acks _ _ _ _ _ _ HI) as Ha. rewrite E in Ha. destruct Ha. congruence. Qed.

(** What a call that waits may do. *)
Definition waits_well {X} (k : Z) (r : res X) : Prop :=
  match r with
  | Ret s' _ => inv k s'
  | Wait s' => inv k s' /\ (exists n, num_async_writes s' = Some n /\ 0 < n) /\ finished_writes s' = []
  | Abort => True
  end.

Lemma any_loop_spec k q n : k <= u64_max -> forall s,
  inv k s -> num_async_writes s = Some n -> 0 < n -> finished_writes s = q ->
  waits_well k (any_loop q s) /\
  (forall s' x, any_loop q s = Ret s' (Ok x) -> num_async_writes s' = Some (n - 1)).
Proof.
  intros Hk. induction q as [|[id locs|er] q IH]; intros s HI Hn Hpos Hq; simpl.
  - destruct (log_gone s); (split; [|done]); [done|]. split; [done|]. split; [by exists n|done].
  - unfold mbind, H_bind, recv_write. rewrite Hq.
    destruct (take_ack k id locs q s n HI Hk Hq Hn) as (s' & -> & HI' & Hn' & _). split; [done|]. by intros ? ? [= <- _].
  - unfold mbind, H_bind, recv_write. rewrite Hq.
    destruct (take_werr k er q s n HI Hq Hn) as (s' & -> & HI' & Hn' & Hq' & _). destruct (error_num er =? 0); [by apply IH|done].
Qed.

Lemma try_wait_spec k s : k <= u64_max -> inv k s -> waits_well k (try_wait_for_any_append s).
Proof.
  intros Hk HI. unfold try_wait_for_any_append, mbind, H_bind, get.
  assert (Hgo : waits_well k (match finished_writes s with
     | [] => mret (Err TNothingReady)
     | WroteOk id locs :: q => _ ← modify (set_writes q); _ ← one_less; mret (Ok (id, locs))
     | WroteErr e :: q => _ ← modify (set_writes q); r ← to_wait_error e; mret (Err (default TNothingReady r))
     end s)).
  { destruct (finished_writes s) as [|w0 q] eqn:Hq; [done|]. destruct (acks_counted k s w0 q HI Hq) as [n Hn].
    destruct w0 as [id locs|er]; unfold mbind, H_bind, modify.
    - by destruct (take_ack k id locs q s n HI Hk Hq Hn) as (s' & -> & HI' & _).
    - by destruct (take_werr k er q s n HI Hq Hn) as (s' & -> & HI' & _). }
  by destruct (num_async_writes s) as [[]|].
Qed.

Lemma async_pos k s n : inv k s -> num_async_writes s = Some n -> 0 <= n.
Proof.
  intros HI Hn. rewrite (h_writes _ _ _ _ _ _ HI n Hn).
  pose proof (count_pos is_append (to_log s)). pose proof (count_pos is_ack (finished_writes s)). lia.
Qed.

Lemma wait_any_spec k s : k <= u64_max -> inv k s ->
  waits_well k (wait_for_any_append s) /\
  (forall n s' x, num_async_writes s = Some n -> wait_for_any_append s = Ret s' (Ok x) -> num_async_writes s' = Some (n - 1)).
Proof.
  intros Hk HI. unfold wait_for_any_append, mbind, H_bind, get.
  destruct (num_async_writes s) as [[|n|n]|] eqn:En.
  - split; [done|]. by intros ? ? ? ? [=].
  - destruct (any_loop_spec k (finished_writes s) (Z.pos n) Hk s HI En) as [H1 H2]; [done..|].
    split; [done|]. intros n' s' x [= <-]. apply H2.
  - pose proof (async_pos _ _ _ HI En). lia.
  - split; [by apply try_wait_spec|done].
Qed.

Lemma all_loop_spec k n : k <= u64_max -> forall s, inv k s ->
  waits_well k (all_loop n s) /\
  (forall s', num_async_writes s = Some (Z.of_nat n) -> all_loop n s = Ret s' (Ok tt) -> num_async_writes s' = Some 0).
Proof.
  intros Hk. induction n as [|n IH]; intros s HI; simpl.
  { split; [done|]. by intros s' ? [= <-]. }
  destruct (wait_any_spec k s Hk HI) as [H1 H2]. unfold mbind, H_bind.
  destruct (wait_for_any_append s) as [s1 [x|er]|s1|]; try done.
  destruct (IH s1 H1) as [IH1 IH2]. split; [done|]. intros s' Hn. apply IH2. rewrite (H2 _ _ x Hn eq_refl). f_equal. lia.
Qed.

Lemma specific_loop_spec k n id : k <= u64_max -> forall s, inv k s -> waits_well k (specific_loop n id s).
Proof.
  intros Hk. induction n as [|n IH]; intros s HI; simpl; [done|].
  destruct (wait_any_spec k s Hk HI) as [H1 _]. unfold mbind, H_bind.
  destruct (wait_for_any_append s) as [s1 [[i ls]|er]|s1|]; try done. destruct (i =? id); [done|]. by apply IH.
Qed.

Lemma flush_appends_spec k q : k <= u64_max -> forall f s, inv k s -> finished_writes s = q -> waits_well k (flush_loop q f s).
Proof.
  intros Hk. induction q as [|w0 q IH]; intros f s HI Hq; simpl; [done|].
  destruct (acks_counted k s w0 q HI Hq) as [n Hn]. unfold mbind, H_bind, modify. destruct w0 as [id locs|er].
  - destruct (take_ack k id locs q s n HI Hk Hq Hn) as (s' & -> & HI' & _ & Hq' & _). by apply IH.
  - destruct (take_werr k er q s n HI Hq Hn) as (s' & -> & HI' & _ & Hq' & _). destruct (error_num er =? 0); [by apply IH|done].
Qed.

(** *** Every call keeps the accounts *)

Lemma trip_waits {X} k (m : H X) : (forall s, inv k s -> waits_well k (m s)) -> trip k m k.
Proof. intros Hm s HI. specialize (Hm s HI). destruct (m s); [done|by destruct Hm|done]. Qed.
Lemma trip_reads k (m : H (result EventOf GetRes)) : (forall s, inv k s -> reads_well k (m s)) -> trip k m k.
Proof. intros Hm s HI. specialize (Hm s HI). destruct (m s); [by destruct Hm..|done]. Qed.

Lemma trip_wait_all k : k <= u64_max -> trip k wait_for_all_appends k.
Proof.
  intros Hk. apply trip_waits. intros s HI. unfold wait_for_all_appends, mbind, H_bind, get, pure.
  destruct (unwrap _); [|done]. by apply all_loop_spec.
Qed.
Lemma trip_wait_specific k id : k <= u64_max -> trip k (wait_for_a_specific_append id) k.
Proof.
  intros Hk. apply trip_waits. intros s HI. unfold wait_for_a_specific_append, mbind, H_bind, get, pure.
  destruct (unwrap _); [|done]. by apply specific_loop_spec.
Qed.
Lemma trip_flush k : k <= u64_max -> trip k flush_completed_appends k.
Proof.
  intros Hk. apply trip_waits. intros s HI. unfold flush_completed_appends, mbind, H_bind, get.
  destruct (num_async_writes s) as [[]|]; try done; by apply flush_appends_spec.
Qed.

(** A snapshot: counted here and by the thread. *)

Lemma asked_inv k m s :
  inv k s -> k < u64_max -> is_snap m = true ->
  inv (k + 1) (set_to_log (to_log s ++ [m]) (set_num_snapshots (saturating_add1 (num_snapshots s)) s)).
Proof.
  intros [I1 I2 [I3 I4] I5 I6 I7 I8] Hk Hm. rewrite saturating_small by lia. split; simpl; try done.
  - rewrite count_app, count_cons, count_nil, Hm. lia.
  - intros n Hn. rewrite count_app, count_cons, count_nil, (I2 n Hn). destruct m; simpl in *; lia || done.
  - split; [lia|]. intros n Hn. specialize (I4 n Hn). lia.
  - intros [?|Hin%list_elem_of_singleton]%elem_of_app; [done|]. by subst m.
Qed.

Lemma trip_ask k m : k < u64_max -> is_snap m = true ->
  trip k (_ ← modify (fun s => set_num_snapshots (saturating_add1 (num_snapshots s)) s); send m) (k + 1).
Proof.
  intros Hk Hm s HI. unfold mbind, H_bind, modify, send; simpl. destruct (log_gone s); [done|]. by apply asked_inv.
Qed.

Lemma trip_tell k m : is_snap m = false -> is_append m = false -> m <> StopAckingWrites -> trip k (send m) k.
Proof.
  intros Hs Ha Hm s [I1 I2 I3 I5 I6 I7 I8]. unfold send. destruct (log_gone s); [done|]. split; simpl; try done.
  - rewrite count_app, count_cons, count_nil, Hs. lia.
  - intros n Hn. rewrite count_app, count_cons, count_nil, (I2 n Hn), Ha. lia.
  - intros [?|Hin%list_elem_of_singleton]%elem_of_app; done.
Qed.

(** An append: sent, then counted. *)
Definition sends_append (m : H Z) : Prop :=
  forall s, m s = Abort \/ exists msg x, m s = Ret (set_to_log (to_log s ++ [PerformAppend msg]) s) x.

Lemma trip_append k m : k < u64_max -> sends_append m -> trip k (id ← m; _ ← one_more; mret id) (k + 1).
Proof.
  intros Hk Hm s HI. unfold mbind, H_bind. destruct (Hm s) as [->|(msg & x & ->)]; [done|].
  destruct HI as [I1 I2 [I3 I4] I5 I6 I7 I8].
  assert (Hstop : StopAckingWrites ∉ to_log s ++ [PerformAppend msg]).
  { intros [?|?%list_elem_of_singleton]%elem_of_app; done. }
  unfold one_more, mbind, H_bind, get; simpl. destruct (num_async_writes s) as [n|] eqn:En; simpl.
  - specialize (I2 n eq_refl). specialize (I4 n eq_refl).
    pose proof (count_pos is_append (to_log s)). pose proof (count_pos is_ack (finished_writes s)).
    unfold pure. rewrite add64_ok by (unfold in_u64; lia). split; simpl; try done.
    + rewrite count_app, count_cons, count_nil. simpl. lia.
    + intros n' [= <-]. rewrite count_app, count_cons, count_nil. simpl. lia.
    + split; [lia|]. intros n' [= <-]. lia.
    + intros _. apply I6. by exists n.
  - split; simpl; try done.
    + rewrite count_app, count_cons, count_nil. simpl. lia.
    + intros n'. by rewrite En.
    + split; [lia|]. intros n'. by rewrite En.
    + intros [n' Hn']. by rewrite En in Hn'.
    + by rewrite En.
Qed.

Lemma send_one msg (x : Z) : sends_append (_ ← send (PerformAppend msg); mret x).
Proof. intros s. unfold mbind, H_bind, send. destruct (log_gone s); [by left|]. right. by exists msg, x. Qed.
Lemma pure_one {X} (o : outcome X) f : (forall x, sends_append (f x)) -> sends_append (pure o ≫= f).
Proof. intros Hf s. unfold mbind, H_bind, pure. destruct o; [apply Hf|by left]. Qed.

Lemma single_one id c d ds : sends_append (atomic_async_append id c d ds).
Proof. apply send_one. Qed.
Lemma multi_one f id cs d ds : sends_append (atomic_multi f id cs d ds).
Proof.
  apply pure_one. intros _. apply pure_one. intros _. destruct (dedup _) as [|l [|]]; [apply send_one|apply single_one|apply send_one].
Qed.
Lemma dependent_one id cs os d ds : sends_append (atomic_async_dependent_multiappend id cs os d ds).
Proof. repeat (apply pure_one; intros). apply send_one. Qed.

Lemma trip_then {X Y} k k' (m : H X) (f : X -> H Y) : trip k m k' -> (forall x, trip k' (f x) k') -> trip k (m ≫= f) k'.
Proof. intros Hm Hf. eapply trip_bind; [exact Hm|exact Hf|lia]. Qed.
Lemma trip_first {X Y} k k' (m : H X) (f : X -> H Y) :
  trip k m k -> (forall x, trip k (f x) k') -> k <= k' -> trip k (m ≫= f) k'.
Proof. intros Hm Hf. by eapply trip_bind. Qed.

Lemma trip_async k id c d ds : k < u64_max -> trip k (async_append id c d ds) (k + 1).
Proof. intros Hk. apply trip_append; [done|apply single_one]. Qed.
Lemma trip_multi k id cs d ds : k < u64_max -> trip k (async_multiappend id cs d ds) (k + 1).
Proof. intros Hk. apply trip_append; [done|apply multi_one]. Qed.
Lemma trip_no_remote k id cs d ds : k < u64_max -> trip k (async_no_remote_multiappend id cs d ds) (k + 1).
Proof. intros Hk. apply trip_append; [done|apply multi_one]. Qed.
Lemma trip_dependent k id cs os d ds : k < u64_max -> trip k (async_dependent_multiappend id cs os d ds) (k + 1).
Proof. intros Hk. apply trip_append; [done|apply dependent_one]. Qed.

Lemma trip_color k id d cs os async : k < u64_max -> trip k (color_append id d cs os async) (k + 1).
Proof.
  intros Hk. unfold color_append. do 3 (apply trip_first; [apply trip_pure|intros _|lia]). apply trip_then.
  - destruct (sort_chains os); [|by apply trip_dependent].
    destruct (sort_chains cs) as [|c [|]]; [by apply trip_no_remote|by apply trip_async|by apply trip_no_remote].
  - intros id'. destruct async; [apply trip_ret|]. apply trip_then; [apply trip_wait_specific; lia|intros; apply trip_ret].
Qed.

Lemma trip_causal k id d cs os ds : k < u64_max -> trip k (causal_color_append id d cs os ds) (k + 1).
Proof.
  intros Hk. unfold causal_color_append. destruct cs as [|c0 cs]; [apply trip_le; [apply trip_ret|lia]|].
  do 2 (apply trip_first; [apply trip_pure|intros _|lia]). destruct (sort_chains os); [|by apply trip_dependent].
  destruct (sort_chains (c0 :: cs)) as [|c [|]]; [by apply trip_multi|by apply trip_async|by apply trip_multi].
Qed.

Lemma trip_simple k id d cs : k < u64_max -> trip k (simple_append id d cs) (k + 1).
Proof.
  intros Hk. unfold simple_append. apply trip_then.
  - unfold simple_async_append. destruct cs as [|c0 cs]; [apply trip_le; [apply trip_ret|lia]|].
    apply trip_first; [apply trip_pure|intros _; by apply trip_causal|lia].
  - intros id'. apply trip_then; [apply trip_wait_specific; lia|intros; apply trip_ret].
Qed.

Lemma trip_void {X} k k' (m : H X) : trip k m k' -> trip k (_ ← m; mret tt) k'.
Proof. intros Hm. apply trip_then; [done|intros _; apply trip_ret]. Qed.

Lemma trip_read_until k loc : k < u64_max -> trip k (read_until loc) (k + 1).
Proof.
  intros Hk s HI. unfold read_until, mbind, H_bind, send, modify. destruct (log_gone s); [done|].
  exact (asked_inv k (ReadUntil loc) s HI Hk eq_refl).
Qed.

Lemma perform_keeps k c : k < u64_max -> trip k (perform c) (k + 1).
Proof.
  intros Hk. destruct c; simpl;
    try (by apply trip_ask); try (apply trip_void); try (by apply trip_append);
    try (by apply trip_async); try (by apply trip_multi); try (by apply trip_no_remote);
    try (by apply trip_dependent); try (by apply trip_color); try (by apply trip_simple);
    try (by apply trip_read_until); try (apply trip_le; [|lia]).
  - by apply trip_tell.
  - by apply trip_tell.
  - apply trip_reads. intros s. apply get_next_spec.
  - apply trip_reads. intros s. apply try_get_next_spec.
  - apply trip_waits. intros s HI. apply wait_any_spec; [lia|done].
  - apply trip_waits. intros s HI. apply try_wait_spec; [lia|done].
  - apply trip_wait_all. lia.
  - apply trip_wait_specific. lia.
  - apply trip_flush. lia.
Qed.

End Calls.

(** ** The accounts of the system *)

Record sys_inv (k : Z) (y : System) : Prop := {
  s_handle : hinv (ack_writes (log y)) (ClientLog.num_snapshots (log y)) (in_flight y) (num_errors (log y)) k (app y);
  s_snaps : 0 <= ClientLog.num_snapshots (log y);
  s_flight : 0 <= in_flight y;
  s_errs : 0 <= num_errors (log y) <= k;
  s_reader : reader_gone (log y) = false;
  s_writer : writer_gone (log y) = false;
  s_store : store_gone (log y) = false;
}.

(** The thread takes a message. *)
Lemma popped_inv a b w e k m q h :
  hinv a b w e k h -> to_log h = m :: q ->
  hinv a (b + if is_snap m then 1 else 0) (w + if is_append m then 1 else 0) e k (set_to_log q h).
Proof.
  intros [I1 I2 I3 I5 I6 I7 I8] Hq. rewrite Hq in *. split; simpl; try done.
  - rewrite count_cons in I1. lia.
  - intros n Hn. specialize (I2 n Hn). rewrite count_cons in I2. lia.
  - set_solver.
Qed.

Lemma numbered_app e e' seen errs : 0 <= e <= e' -> numbered e seen errs -> numbered e' seen (errs ++ seqZ e (e' - e)).
Proof.
  intros He (next & Hn & -> & ->). exists next. split; [lia|]. split; [|done].
  replace (e' - next) with ((e - next) + (e' - e)) by lia. rewrite seqZ_app by lia. do 2 f_equal. lia.
Qed.

(** What it sent arrives. *)
Lemma arrived_inv a b w e k h b' w' e' rs ws :
  hinv a b w e k h -> b' + count is_done rs = b -> (a = true -> w' + count is_ack ws = w) -> 0 <= e <= e' ->
  errors rs = seqZ e (e' - e) ->
  (a = false -> ws = []) ->
  (a = true -> write_errs ws = seqZ e (e' - e)) ->
  hinv a b' w' e' k (set_ready (ready_reads h ++ rs) (set_writes (finished_writes h ++ ws) h)).
Proof.
  intros [I1 I2 I3 I5 I6 I7 I8] Hb Hw He Hrs Hnone Hsome. split; simpl; try done.
  - rewrite count_app. lia.
  - intros n Hn. rewrite Hn in I8. rewrite count_app, (I2 n Hn), <- Hw by done. lia.
  - unfold errors in *. rewrite omap_app, Hrs. by apply numbered_app.
  - intros [n Hn]. rewrite Hn in I8. unfold write_errs in *. rewrite omap_app, Hsome by done.
    apply numbered_app; [done|]. apply I6. by exists n.
  - destruct (num_async_writes h); [done|]. destruct I8 as [-> ->]. split; [done|]. by apply Hnone.
Qed.

Lemma gone_inv a b w e k g h : hinv a b w e k h -> hinv a b w e k (set_log_gone g h).
Proof. intros []. by split. Qed.

Section Runs.
Context `{Build} (fuel : nat).

(** A step of the thread, for the handle [h] without the message. *)
Lemma log_step_inv k m h y fl y' w :
  hinv (ack_writes (log y)) (ClientLog.num_snapshots (log y) + asks m) w (num_errors (log y)) k h ->
  sys_inv k y -> k < u64_max -> m <> MFromClient StopAckingWrites -> 0 <= fl -> fl + completes m = w ->
  log_step fuel m h y fl = Done y' -> sys_inv (k + 1) y'.
Proof.
  intros HI [HI0 Hn Hf He Hr Hw Hst] Hk Hm Hfl Ew Hs.
  assert (Hb : ClientLog.num_snapshots (log y) <= k).
  { destruct HI0 as [I1 _ [I3 _] _ _ _ _]. pose proof (count_pos is_snap (to_log (app y))).
    pose proof (count_pos is_done (ready_reads (app y))). lia. }
  unfold log_step in Hs. apply bind_done in Hs as ([l' go] & Hl & Hs). injection Hs as <-.
  destruct (message_effect fuel (log y) l' go Hr Hw Hst ltac:(lia) m ltac:(lia) Hm Hl)
    as (rs & ws & Er & Ews & Hb' & Hp & He' & Hrs & Hnone & Hsome & Hg & Hwg & Ha & Hst' & _).
  assert (HA : hinv (ack_writes l') (ClientLog.num_snapshots l') fl (num_errors l') (k + 1) (deliver (log y) l' h)).
  { unfold deliver. rewrite Er, Ews, !drop_app_length. eapply inv_le; [|instantiate (1 := k); lia].
    rewrite Ha. eapply arrived_inv; try done; [|lia|by intros; apply Hsome].
    intros Hack. destruct (Hsome Hack) as [_ ->]. lia. }
  split; simpl; try done; try lia.
  destruct (_ && _); [done|by apply gone_inv].
Qed.

Lemma sys_inv_le k k' y : sys_inv k y -> k <= k' -> sys_inv k' y.
Proof. intros [] ?. split; try done; [by eapply inv_le|lia]. Qed.

Lemma takes_inv k y m q y' :
  sys_inv k y -> k < u64_max -> to_log (app y) = m :: q ->
  log_step fuel (MFromClient m) (set_to_log q (app y)) y (if is_append m then in_flight y + 1 else in_flight y) = Done y' ->
  sys_inv (k + 1) y'.
Proof.
  intros HI Hk Hq Hs. pose proof (s_handle _ _ HI) as HH. pose proof (s_flight _ _ HI).
  eapply (log_step_inv k (MFromClient m)); [exact (popped_inv _ _ _ _ _ _ _ _ HH Hq)|exact HI|done| | | |exact Hs].
  - intros [= ->]. apply (h_stop _ _ _ _ _ _ HH). rewrite Hq. set_solver.
  - destruct (is_append m); lia.
  - simpl. destruct (is_append m); lia.
Qed.

Lemma store_inv k y m y' fl :
  sys_inv k y -> k < u64_max -> 0 <= fl -> fl = in_flight y - completes (MFromStore m) ->
  log_step fuel (MFromStore m) (app y) y fl = Done y' -> sys_inv (k + 1) y'.
Proof.
  intros HI Hk Hfl Efl Hs. pose proof (s_handle _ _ HI).
  eapply (log_step_inv k (MFromStore m)); [|exact HI|done|done|done| |exact Hs]; [simpl; rewrite Z.add_0_r; done|lia].
Qed.

Lemma sys_step_inv k ev y y' : sys_inv k y -> k < u64_max -> sys_step fuel ev y = Done y' -> sys_inv (k + 1) y'.
Proof.
  intros HI Hk Hs. destruct ev as [c| |m]; simpl in Hs.
  - destruct HI as [HI Hn Hf He Hr Hw Hst]. pose proof (perform_keeps _ _ _ _ Hn Hf (Z.le_trans _ _ _ (proj2 He) (Z.lt_le_incl _ _ Hk)) k c Hk _ HI) as HP.
    destruct (perform c (app y)) as [h []|h|]; [..|done]; injection Hs as <-; split; simpl; try done; lia.
  - destruct (to_log (app y)) as [|m q] eqn:Hq; [injection Hs as <-; eapply sys_inv_le; [exact HI|lia]|].
    destruct (log_gone (app y)); [injection Hs as <-; eapply sys_inv_le; [exact HI|lia]|]. by eapply takes_inv.
  - destruct (log_gone (app y)); [injection Hs as <-; eapply sys_inv_le; [exact HI|lia]|].
    pose proof (s_flight _ _ HI). destruct m as [id locs|loc msg|kind sv].
    + destruct (in_flight y =? 0) eqn:E; [injection Hs as <-; eapply sys_inv_le; [exact HI|lia]|].
      eapply store_inv; [exact HI|done| | |exact Hs]; simpl; lia.
    + eapply store_inv; [exact HI|done|done| |exact Hs]. simpl. lia.
    + eapply store_inv; [exact HI|done|done| |exact Hs]. simpl. lia.
Qed.

Lemma sys_run_inv evs : forall k y y', sys_inv k y -> k + Z.of_nat (length evs) <= u64_max ->
  sys_run fuel evs y = Done y' -> sys_inv (k + Z.of_nat (length evs)) y'.
Proof.
  induction evs as [|ev evs IH]; intros k y y' HI Hk Hs; simpl in Hs.
  - injection Hs as <-. simpl. by rewrite Z.add_0_r.
  - apply bind_done in Hs as (y1 & H1 & H2). simpl in Hk.
    replace (k + Z.of_nat (length (ev :: evs))) with (k + 1 + Z.of_nat (length evs)) by (simpl; lia).
    eapply IH; [|lia|exact H2]. eapply sys_step_inv; [exact HI|lia|exact H1].
Qed.

Lemma built_inv chains boring ack colors h l :
  build_with_store chains boring ack colors = Done (h, l) -> sys_inv 0 (mkSys h l 0).
Proof.
  intros Hb. unfold build_with_store in Hb. apply bind_done in Hb as ([] & _ & [= <- <-]).
  assert (Hh : forall l : ThreadLog, ClientLog.num_snapshots l = 0 -> num_errors l = 0 -> ack_writes l = ack ->
    reader_gone l = false -> writer_gone l = false -> store_gone l = false ->
    sys_inv 0 (mkSys (new_handle ack) l 0)).
  { intros l0 Hn He Ha Hr Hw Hst. split; simpl; rewrite ?Hn, ?He, ?Ha; try done. split; simpl; try done.
    - intros n. destruct ack; [|done]. by intros [= <-].
    - split; [done|]. intros n. destruct ack; [|done]. by intros [= <-].
    - by exists 0.
    - intros _. by exists 0.
    - set_solver.
    - by destruct ack. }
  destruct colors; by apply Hh.
Qed.

Section Reachable.
Context (chains : list Z) (boring ack : bool) (colors : option (list Z)) (h : LogHandle) (l : ThreadLog).
Context (Hbuild : build_with_store chains boring ack colors = Done (h, l)).
Context (evs : list SysEvent) (Hevs : Z.of_nat (length evs) < u64_max).
Context (y : System) (Hrun : sys_run fuel evs (mkSys h l 0) = Done y).

Lemma reached : sys_inv (Z.of_nat (length evs)) y.
Proof.
  pose proof (built_inv _ _ _ _ _ _ Hbuild) as HI.
  pose proof (sys_run_inv evs 0 _ y HI) as Hy. rewrite Z.add_0_l in Hy. apply Hy; [lia|done].
Qed.

(** C9.  The count of snapshots in the read handle is always the number of those that are on their
    way to the client's thread, that the thread has not ended, or whose end is on its way back.
    So when a call for the next entry says that everything was read, every snapshot asked for has
    ended and its end was received; and a call that sleeps waits for a snapshot that has not
    ended: no wake-up is lost.  For every sequence of calls of the application, messages of the
    store and turns of the thread, in both build profiles. *)
Theorem done_means_all_snapshots_ended :
  num_snapshots (app y) =
    count is_snap (to_log (app y)) + ClientLog.num_snapshots (log y) + count is_done (ready_reads (app y)) /\
  (forall h', get_next_event (app y) = Ret h' (Err GDone) ->
     count is_snap (to_log h') = 0 /\ ClientLog.num_snapshots (log y) = 0 /\ count is_done (ready_reads h') = 0) /\
  (forall h', get_next_event (app y) = Wait h' ->
     0 < count is_snap (to_log h') + ClientLog.num_snapshots (log y)).
Proof.
  destruct reached as [HI Hn Hf He Hr Hw Hst].
  pose proof (get_next_spec _ _ _ _ Hn (Z.le_trans _ _ _ (proj2 He) (Z.lt_le_incl _ _ Hevs)) _ _ HI) as Hg. split_and!.
  - rewrite (h_snaps _ _ _ _ _ _ HI). lia.
  - intros h' Hh. rewrite Hh in Hg. destruct Hg as [HI' Hd]. specialize (Hd eq_refl).
    pose proof (h_snaps _ _ _ _ _ _ HI'). pose proof (count_pos is_snap (to_log h')).
    pose proof (count_pos is_done (ready_reads h')). lia.
  - intros h' Hh. rewrite Hh in Hg. destruct Hg as (HI' & Hp & Hq). pose proof (h_snaps _ _ _ _ _ _ HI') as Hs.
    rewrite Hq, count_nil in Hs. lia.
Qed.

(** C17.  The count of appends in a handle that is told about them is always the number of those that
    are on their way to the thread, with the store, or acknowledged and not yet taken.  So waiting
    for all appends returns only when none is left, and a wait for an acknowledgement sleeps only
    when an append has not completed. *)
Theorem appends_accounted n :
  num_async_writes (app y) = Some n ->
  n = in_flight y + count is_append (to_log (app y)) + count is_ack (finished_writes (app y)) /\
  (forall h', wait_for_all_appends (app y) = Ret h' (Ok tt) ->
     in_flight y = 0 /\ count is_append (to_log h') = 0 /\ count is_ack (finished_writes h') = 0) /\
  (forall h', wait_for_any_append (app y) = Wait h' -> 0 < in_flight y + count is_append (to_log h')).
Proof.
  intros Hn'. destruct reached as [HI Hn Hf He Hr Hw Hst].
  pose proof (Z.le_trans _ _ _ (proj2 He) (Z.lt_le_incl _ _ Hevs)) as He'.
  pose proof (async_pos _ _ _ _ Hf _ _ _ HI Hn'). split_and!.
  - by rewrite (h_writes _ _ _ _ _ _ HI n Hn') at 1.
  - intros h' Hh. unfold wait_for_all_appends, mbind, H_bind, get, pure in Hh. rewrite Hn' in Hh. simpl in Hh.
    destruct (all_loop_spec _ _ _ _ Hf He' _ (Z.to_nat n) (Z.lt_le_incl _ _ Hevs) _ HI) as [H1 H2].
    rewrite Hh in H1. rewrite Z2Nat.id in H2 by lia. specialize (H2 h' Hn' Hh).
    pose proof (h_writes _ _ _ _ _ _ H1 0 H2). pose proof (count_pos is_append (to_log h')).
    pose proof (count_pos is_ack (finished_writes h')). lia.
  - intros h' Hh. destruct (wait_any_spec _ _ _ _ Hf He' _ _ (Z.lt_le_incl _ _ Hevs) HI) as [H1 _]. rewrite Hh in H1.
    destruct H1 as (HI' & (n' & En & Hp) & Hq). pose proof (h_writes _ _ _ _ _ _ HI' n' En) as Hs.
    rewrite Hq, count_nil in Hs. lia.
Qed.

(** C39.  The thread numbers the errors of the store from 0, the handles expect them from 1.  So, in
    every reachable state, the first error is taken for one already reported and dropped, by the
    read handle and by the write handle; every later one is reported, and the assertion that the
    numbers are consecutive never fails. *)
Theorem first_error_is_dropped er :
  (forall q, ready_reads (app y) = RetErr er :: q -> 0 < num_snapshots (app y) ->
     get_next_event (app y) =
       if error_num er =? 0 then get_next_event (set_ready q (app y))
       else Ret (set_read_errors (error_num er) (set_ready q (app y))) (Err (GIoErr (error er) (server er)))) /\
  (forall q n, finished_writes (app y) = WroteErr er :: q -> num_async_writes (app y) = Some n -> 0 < n ->
     wait_for_any_append (app y) =
       if error_num er =? 0 then wait_for_any_append (set_writes q (app y))
       else Ret (set_write_errors (error_num er) (set_writes q (app y))) (Err (TIoErr (error er) (server er)))).
Proof.
  destruct reached as [HI Hn Hf He Hr Hw Hst].
  pose proof (Z.le_trans _ _ _ (proj2 He) (Z.lt_le_incl _ _ Hevs)) as He'. split.
  - intros q Hq Hp. pose proof (h_errs _ _ _ _ _ _ HI) as Hx. rewrite Hq in Hx.
    unfold get_next_event, mbind, H_bind, get. simpl.
    destruct (num_snapshots (app y) =? 0) eqn:E0; [lia|]. rewrite Hq.
    cbn [recv_loop]. unfold mbind, H_bind, modify, take_read, mbind, H_bind.
    rewrite (read_error_spec _ He' er (errors q)) by exact Hx.
    destruct (error_num er =? 0) eqn:E; [|done]. simpl. f_equal.
    apply numbered_cons in Hx as (_ & Hx & _). apply Z.eqb_eq in E. rewrite E in *. destruct (app y); simpl in *. by rewrite Hx.
  - intros q n Hq Ha Hp. assert (Hx : numbered (num_errors (log y)) (write_errors (app y)) (error_num er :: write_errs q)).
    { pose proof (h_werrs _ _ _ _ _ _ HI (ex_intro _ n Ha)) as Hx. by rewrite Hq in Hx. }
    unfold wait_for_any_append, mbind, H_bind, get. simpl. rewrite Ha. destruct n as [|n|n]; try lia. rewrite Hq.
    cbn [any_loop]. unfold mbind, H_bind, recv_write. rewrite Hq.
    rewrite (write_error_spec _ He' er (write_errs q)) by exact Hx.
    destruct (error_num er =? 0) eqn:E; [|done]. simpl. f_equal.
    apply numbered_cons in Hx as (_ & Hx & _). apply Z.eqb_eq in E. rewrite E in *. destruct (app y); simpl in *. by rewrite Hx.
Qed.

End Reachable.

End Runs.

(** ** [sync] *)

(** The entries in a channel before the [n]-th end of a snapshot, and what follows it. *)
Fixpoint until_done (n : nat) (q : list Returned) : option (list Ref * list Returned) :=
  match n, q with
  | O, _ => Some ([], q)
  | S _, [] => None
  | S n, RetDone :: q => until_done n q
  | S _, (RetEntry v | RetSnapshot v) :: q => '(vs, rest) ← until_done n q; Some (v :: vs, rest)
  | S _, RetErr _ :: q => until_done n q
  end.

Lemma until_done_0 q : until_done 0 q = Some ([], q).
Proof. by destruct q. Qed.

(** The largest index of every chain. *)
Definition largest (seen : gmap Z Z) (ls : list OrderIndex) : Prop :=
  forall o, match seen !! o with
            | Some i => mkOI o i ∈ ls /\ forall j, mkOI o j ∈ ls -> j <= i
            | None => forall j, mkOI o j ∉ ls
            end.

Lemma see_largest seen ls l : largest seen ls -> largest (see seen l) (ls ++ [l]).
Proof.
  intros Hs o. unfold see. destruct l as [c i]; simpl. specialize (Hs o). destruct (decide (o = c)) as [->|Hne].
  - rewrite lookup_insert_eq. destruct (seen !! c) as [i0|]; simpl.
    + destruct Hs as [Hin Hmax]. split.
      * apply elem_of_app. destruct (Z.max_spec i0 i) as [[_ ->]|[_ ->]]; [right; set_solver|by left].
      * intros j [Hj|[= ->]%list_elem_of_singleton]%elem_of_app; [specialize (Hmax j Hj)|]; lia.
    + rewrite Z.max_id. split; [set_solver|]. intros j [Hj|[= ->]%list_elem_of_singleton]%elem_of_app; [by destruct (Hs j)|lia].
  - rewrite lookup_insert_ne by done. destruct (seen !! o) as [i0|].
    + destruct Hs as [Hin Hmax]. split; [set_solver|].
      intros j [Hj|[= -> ->]%list_elem_of_singleton]%elem_of_app; [by apply Hmax|done].
    + intros j [Hj|[= -> ->]%list_elem_of_singleton]%elem_of_app; [by destruct (Hs j)|done].
Qed.

Lemma see_all_largest ls : forall seen ls0, largest seen ls0 -> largest (foldl see seen ls) (ls0 ++ ls).
Proof.
  induction ls as [|l ls IH]; intros seen ls0 Hs; simpl; [by rewrite app_nil_r|].
  rewrite (cons_middle l), (assoc_L (++)). by apply IH, see_largest.
Qed.

Section Sync.
Context `{Build}.

(** A handle whose channel holds the rest of its snapshots. *)
Record ready_for (vs : list Ref) (rest : list Returned) (s : LogHandle) : Prop := {
  rf_until : until_done (Z.to_nat (num_snapshots s)) (ready_reads s) = Some (vs, rest);
  rf_pos : 0 <= num_snapshots s;
  rf_old : forall e, RetErr e ∈ ready_reads s -> error_num e <= read_errors s;
  rf_alive : log_gone s = false;
}.

Lemma rf_replace v s : log_gone s = false -> exists s', replace_entry v s = Ret s' tt /\
  num_snapshots s' = num_snapshots s /\ ready_reads s' = ready_reads s /\ read_errors s' = read_errors s /\
  log_gone s' = false /\ curr_entry s' = v.
Proof. intros Hg. rewrite replace_entry_spec, Hg, andb_false_r. eexists. by split. Qed.

Lemma old_error s e : error_num e <= read_errors s -> make_read_error e s = Ret s None.
Proof.
  intros He. unfold make_read_error, mbind, H_bind, get. by rewrite (proj2 (Z.ltb_ge _ _)) by lia.
Qed.

Lemma take_value v q s ev : log_gone s = false -> event_of v = Done ev ->
  exists s', (_ ← modify (set_ready q); r ← take_read (RetEntry v); match r with Some r => mret r | None => recv_loop q end) s
      = Ret s' (Ok ev) /\
    num_snapshots s' = num_snapshots s /\ ready_reads s' = q /\ read_errors s' = read_errors s /\ log_gone s' = false.
Proof.
  intros Hg Hev. unfold mbind, H_bind, modify, take_read, mbind, H_bind.
  destruct (rf_replace (Some v) (set_ready q s) Hg) as (s' & -> & Hn & Hr & He & Hg' & Hc). exists s'.
  unfold current_event, mbind, H_bind, get, pure. rewrite Hc. simpl. by rewrite Hev.
Qed.

Definition gets_next (vs : list Ref) (rest q : list Returned) (r : res (result EventOf GetRes)) : Prop :=
  match vs with
  | [] => exists s', r = Ret s' (Err GDone) /\ num_snapshots s' = 0 /\ ready_reads s' = rest
  | v :: vs => forall ev, event_of v = Done ev -> exists s', r = Ret s' (Ok ev) /\ ready_for vs rest s' /\
      0 < num_snapshots s' /\ (length (ready_reads s') < length q)%nat
  end.

Lemma gets_next_le vs rest q q' r : (length q <= length q')%nat -> gets_next vs rest q r -> gets_next vs rest q' r.
Proof.
  intros Hl. destruct vs as [|v vs]; simpl; [done|]. intros Hr ev Hev. destruct (Hr ev Hev) as (s' & ? & ? & ? & ?).
  exists s'. split_and!; try done. lia.
Qed.

Lemma recv_ready vs rest q : forall s,
  ready_for vs rest s -> 0 < num_snapshots s -> ready_reads s = q -> gets_next vs rest q (recv_loop q s).
Proof.
  induction q as [|r q IH]; intros s [Hu Hp Hold Hg] Hpos Hq; rewrite Hq in Hu, Hold;
    destruct (Z.to_nat (num_snapshots s)) as [|n] eqn:En; try lia; [done|].
  assert (Hval : forall v, (vs0 ← until_done (S n) q; let '(vs, rest) := vs0 in Some (v :: vs, rest)) = Some (vs, rest) ->
    recv_loop (r :: q) s = recv_loop (RetEntry v :: q) s -> gets_next vs rest (r :: q) (recv_loop (r :: q) s)).
  { intros v Hv ->. destruct (until_done (S n) q) as [[vs' rest']|] eqn:E; [|done]. injection Hv as <- <-. intros ev Hev.
    destruct (take_value v q s ev Hg Hev) as (s' & Hs & Hn & Hr & He & Hg'). exists s'. split; [exact Hs|].
    rewrite Hn, Hr. split; [|simpl; split; [done|lia]]. split; rewrite ?Hn, ?Hr, ?He; try done; [by rewrite En|].
    intros e Hin. apply Hold. by right. }
  destruct r as [v|v| |e]; cbn [until_done] in Hu.
  - by apply (Hval v).
  - by apply (Hval v).
  - cbn [recv_loop]. unfold mbind, H_bind, modify, take_read, mbind, H_bind.
    destruct (rf_replace None (set_ready q s) Hg) as (s1 & -> & Hn1 & Hr1 & He1 & Hg1 & _).
    unfold get, pure. rewrite Hn1. cbn [num_snapshots set_ready]. rewrite (proj2 (Z.ltb_lt _ _)) by lia. simpl.
    destruct (num_snapshots s - 1 =? 0) eqn:E0.
    + assert (n = 0%nat) as -> by lia. rewrite until_done_0 in Hu. injection Hu as <- <-. eexists. split; [done|]. simpl. rewrite Hr1. split; [lia|done].
    + eapply gets_next_le; [|apply (IH (set_num_snapshots (num_snapshots s - 1) s1)); [split| |done]]; simpl; rewrite ?Hr1, ?He1; try done; try lia.
      * replace (Z.to_nat (num_snapshots s - 1)) with n by lia. done.
      * intros e Hin. apply Hold. by right.
  - cbn [recv_loop]. unfold mbind, H_bind, modify, take_read, mbind, H_bind.
    rewrite old_error by (apply Hold; by left). simpl.
    eapply gets_next_le; [|apply (IH (set_ready q s)); [split| |done]]; simpl; try done; try lia.
    + by rewrite En.
    + intros e' Hin. apply Hold. by right.
Qed.

Lemma get_next_ready vs rest s :
  ready_for vs rest s -> gets_next vs rest (ready_reads s) (get_next_event s).
Proof.
  intros Hr. unfold get_next_event, mbind, H_bind, get. destruct (num_snapshots s =? 0) eqn:E.
  - apply Z.eqb_eq in E. pose proof (rf_until _ _ _ Hr) as Hu. rewrite E in Hu. rewrite until_done_0 in Hu. injection Hu as <- <-.
    exists s. by split.
  - pose proof (rf_pos _ _ _ Hr). apply recv_ready; [done|lia|done].
Qed.

Lemma sync_loop_spec {U} (f : U -> EventOf -> U) rest fuel : forall vs evs s u seen ls0,
  ready_for vs rest s -> mapM event_of vs = Done evs -> (length (ready_reads s) < fuel)%nat -> largest seen ls0 ->
  exists s' seen', sync_loop (outside (fun u e => Done (f u e))) fuel u seen s = Ret s' (Ok seen', foldl f u evs) /\
    num_snapshots s' = 0 /\ ready_reads s' = rest /\ largest seen' (ls0 ++ (evs ≫= ev_inhabits)).
Proof.
  induction fuel as [|fuel IH]; intros vs evs s u seen ls0 Hr Hm Hf Hl; [lia|].
  pose proof (get_next_ready vs rest s Hr) as Hg. cbn [sync_loop]. unfold mbind at 1, H_bind at 1.
  destruct vs as [|v vs]; simpl in Hm.
  - injection Hm as <-. destruct Hg as (s' & -> & Hn & Hq). exists s', seen. rewrite app_nil_r. by split.
  - apply bind_done in Hm as (ev & Hev & Hm). apply bind_done in Hm as (evs' & Hm & [= <-]).
    destruct (Hg ev Hev) as (s' & -> & Hr' & Hp & Hlen).
    destruct (IH vs evs' s' (f u ev) (foldl see seen (ev_inhabits ev)) (ls0 ++ ev_inhabits ev) Hr' Hm) as (s2 & seen2 & Hs2 & ? & ? & Hl2);
      [lia|by apply see_all_largest|].
    exists s2, seen2. split; [exact Hs2|]. split_and!; try done. simpl. by rewrite (assoc_L (++)).
Qed.

(** C18.  [sync] gives the application exactly the entries the thread sent before the end of the
    last snapshot, in that order, each once, and tells it the largest index it has seen of every
    chain; then no snapshot is left, and what follows stays in the channel.  (Errors that were
    reported before are passed over.) *)
Theorem sync_gives_every_entry {U} (f : U -> EventOf -> U) u s vs rest evs :
  0 <= num_snapshots s -> log_gone s = false ->
  until_done (Z.to_nat (num_snapshots s)) (ready_reads s) = Some (vs, rest) ->
  (forall e, RetErr e ∈ ready_reads s -> error_num e <= read_errors s) ->
  mapM event_of vs = Done evs ->
  exists s' seen, do_sync_with (outside (fun u e => Done (f u e))) u s = Ret s' (Ok seen, foldl f u evs) /\
    num_snapshots s' = 0 /\ ready_reads s' = rest /\ largest seen (evs ≫= ev_inhabits).
Proof.
  intros Hp Hg Hu Hold Hm. unfold do_sync_with, mbind at 1, H_bind at 1, get.
  apply (sync_loop_spec f rest _ vs evs s u ∅ []); [by split|done|lia|].
  intros o. rewrite lookup_empty. set_solver.
Qed.

End Sync.

(** ** Runs, evaluated *)

Module Demo.

Definition single (id o i : Z) : Ref := Single id EntryFlag.ReadSuccess (mkOI o i) [] [id] 0.
Definition got (o i : Z) (r : Ref) : SysEvent := StoreSends (ReadComplete (mkOI o i) r).

(** The answer to a snapshot of [o]: its last entry is [n]. *)
Definition answer (o n : Z) : SysEvent :=
  got o u64_max (Read uuid_nil EntryFlag.Nothing 0 0 (mkOI o u64_max) (mkOI o n) (mkOI 0 0)).

Definition built (ack : bool) : LogHandle * ThreadLog :=
  (new_handle ack, ClientLog.build [5] ∅ false ack false NoConnection).
Definition start (ack : bool) : System := mkSys (built ack).1 (built ack).2 0.

Definition after (evs : list SysEvent) : option System :=
  match sys_run (H0 := dev) 10 evs (start true) with Done y => Some y | Panic => None end.

Lemma after_run evs y : after evs = Some y -> sys_run (H0 := dev) 10 evs (start true) = Done y.
Proof. unfold after. destruct (sys_run _ _ _); [|done]. by intros [= ->]. Qed.

(** A snapshot of chain 5, which has one entry; the application has taken the entry. *)
Definition one_entry : list SysEvent :=
  [Calls (CSnapshot 5); LogTakes; answer 5 1; got 5 1 (single 11 5 1); Calls CGetNext].

Lemma done_means_all_snapshots_ended_witness :
  exists y h', sys_run (H0 := dev) 10 one_entry (start true) = Done y /\
    num_snapshots (app y) = 1 /\ get_next_event (H0 := dev) (app y) = Ret h' (Err GDone) /\
    ClientLog.num_snapshots (log y) = 0 /\ count is_done (ready_reads h') = 0.
Proof.
  destruct (after one_entry) as [y|] eqn:E; [|by vm_compute in E].
  pose proof (after_run _ _ E) as Hr.
  assert (Hg : exists h', get_next_event (H0 := dev) (app y) = Ret h' (Err GDone)).
  { vm_compute in E. injection E as <-. eexists. vm_compute. reflexivity. }
  destruct Hg as [h' Hg]. exists y, h'. split; [exact Hr|]. split; [vm_compute in E; by injection E as <-|]. split; [exact Hg|].
  destruct (done_means_all_snapshots_ended (H0 := dev) 10 [5] false true None (built true).1 (built true).2
    ltac:(reflexivity) one_entry ltac:(vm_compute; reflexivity) y Hr) as (_ & Hd & _).
  destruct (Hd h' Hg) as (_ & ? & ?). by split.
Defined.

(** One append is acknowledged, another is with the store. *)
Definition two_appends : list SysEvent :=
  [Calls (CAppend 7 5 [1] []); Calls (CAppend 8 5 [2] []); LogTakes; LogTakes;
   StoreSends (WriteComplete 7 [mkOI 5 1]); Calls CWaitAny].

Lemma appends_accounted_witness :
  exists y h', sys_run (H0 := dev) 10 two_appends (start true) = Done y /\ num_async_writes (app y) = Some 1 /\
    wait_for_any_append (H0 := dev) (app y) = Wait h' /\ 0 < in_flight y + count is_append (to_log h').
Proof.
  destruct (after two_appends) as [y|] eqn:E; [|by vm_compute in E].
  pose proof (after_run _ _ E) as Hr.
  assert (Hg : exists h', wait_for_any_append (H0 := dev) (app y) = Wait h').
  { vm_compute in E. injection E as <-. eexists. vm_compute. reflexivity. }
  assert (Hn : num_async_writes (app y) = Some 1) by (vm_compute in E; by injection E as <-).
  destruct Hg as [h' Hg]. exists y, h'. split; [exact Hr|]. split; [exact Hn|]. split; [exact Hg|].
  destruct (appends_accounted (H0 := dev) 10 [5] false true None (built true).1 (built true).2
    ltac:(reflexivity) two_appends ltac:(vm_compute; reflexivity) y Hr 1 Hn) as (_ & _ & Hd).
  by apply Hd.
Defined.

(** The store reports an error. *)
Definition one_error : list SysEvent := [Calls (CSnapshot 5); LogTakes; StoreSends (IoError 3 0)].

Lemma first_error_is_dropped_witness :
  exists y, sys_run (H0 := dev) 10 one_error (start true) = Done y /\
    ready_reads (app y) = [RetErr (mkError 0 0 3)] /\
    get_next_event (H0 := dev) (app y) = get_next_event (H0 := dev) (set_ready [] (app y)).
Proof.
  destruct (after one_error) as [y|] eqn:E; [|by vm_compute in E].
  pose proof (after_run _ _ E) as Hr. exists y. split; [exact Hr|].
  assert (Hq : ready_reads (app y) = [RetErr (mkError 0 0 3)]) by (vm_compute in E; by injection E as <-).
  split; [exact Hq|].
  apply (proj1 (first_error_is_dropped (H0 := dev) 10 [5] false true None (built true).1 (built true).2
    ltac:(reflexivity) one_error ltac:(vm_compute; reflexivity) y Hr (mkError 0 0 3)) [] Hq).
  vm_compute in E. by injection E as <-.
Defined.

(** Two snapshots, entries before and between their ends, and one entry after. *)
Definition full : LogHandle :=
  mkHandle 2 0 None None 0 []
    [RetEntry (single 11 5 1); RetDone; RetEntry (single 12 5 2); RetDone; RetEntry (single 13 5 3)] [] false.

Lemma sync_gives_every_entry_witness :
  exists s' seen, do_sync_with (H0 := dev) (outside (fun u e => Done (u ++ [ev_id e]))) [] full = Ret s' (Ok seen, [11; 12]) /\
    ready_reads s' = [RetEntry (single 13 5 3)] /\ seen !! 5 = Some 2.
Proof.
  destruct (sync_gives_every_entry (H0 := dev) (fun u e => u ++ [ev_id e]) [] full
    [single 11 5 1; single 12 5 2] [RetEntry (single 13 5 3)]
    [mkEvent 11 [11] [mkOI 5 1] []; mkEvent 12 [12] [mkOI 5 2] []]) as (s' & seen & Hs & _ & Hr & _).
  - vm_compute. discriminate.
  - reflexivity.
  - vm_compute. reflexivity.
  - intros e He. vm_compute in He. set_solver.
  - vm_compute. reflexivity.
  - exists s', seen. split; [exact Hs|]. split; [exact Hr|]. vm_compute in Hs. injection Hs as <- <-. vm_compute. reflexivity.
Defined.

(** A snapshot of no chains is counted by both sides, but nothing is asked of the store, so it
    never ends: the application sleeps. *)
Example empty_snapshot_sleeps :
  exists y h', after [Calls (CSnapshotColors []); LogTakes] = Some y /\
    to_store (log y) = [] /\ ClientLog.num_snapshots (log y) = 1 /\
    get_next_event (H0 := dev) (app y) = Wait h'.
Proof. eexists _, _. split; [vm_compute; reflexivity|]. split_and!; vm_compute; reflexivity. Qed.

(** The handles of the older constructors do not count their appends: [append] sends its entry and
    panics. *)
Example with_store_cannot_wait :
  exists h l, with_store [5] true = Done (h, l) /\ ack_writes l = true /\ append (H0 := dev) 7 5 [1] [] h = Abort.
Proof. eexists _, _. split; [vm_compute; reflexivity|]. split; vm_compute; reflexivity. Qed.

(** Waiting for one append throws away the acknowledgements that came before. *)
Example earlier_ack_lost :
  let h := mkHandle 0 0 None (Some 2) 0 [] [] [WroteOk 1 [mkOI 5 1]; WroteOk 2 [mkOI 5 2]] false in
  exists h', wait_for_a_specific_append (H0 := dev) 2 h = Ret h' (Ok [mkOI 5 2]) /\
    wait_for_a_specific_append (H0 := dev) 1 h' = Ret h' (Err TNothingReady).
Proof. eexists. split; [vm_compute; reflexivity|]. vm_compute. reflexivity. Qed.

(** Two threads drop the last two handles: both look before either reference is gone, and nobody
    stops the thread. *)
Example shutdown_lost :
  let d := drop_reference 2 (drop_reference 1 (drop_look 2 (drop_look 1 (clone (mkDropping 1 [] 0))))) in
  owners d = 0 /\ shutdowns d = 0.
Proof. split; vm_compute; reflexivity. Qed.

End Demo.
