(* ===== verification/ClientAppend.v ===== *)
(** * The packets of the application's appends ([log_handle.rs])

    What the append calls of a handle send: the places are the chains asked for, sorted, each
    once; a dependent append has its chains, the separator and the chains it depends on, each once,
    and is refused (it panics) when a chain is named twice among those it is appended to. *)

From stdpp Require Import base gmap sets list sorting.
From Stdlib Require Import ZArith Lia.
From S2P Require Import Prelude PacketCodec Packets ClientLog ClientStore ClientHandle.
Open Scope Z_scope.

(** ** [sort] and [dedup] *)

Definition chain_lt (a b : OrderIndex) : Prop := oi_order a < oi_order b.

#[export] Instance by_chain_trans : Transitive by_chain.
Proof. intros a b c. unfold by_chain. lia. Qed.
#[export] Instance by_chain_total : Total by_chain.
Proof. intros a b. unfold by_chain. lia. Qed.

Lemma dedup_elem {X} `{EqDecision X} (ls : list X) x : x ∈ dedup ls <-> x ∈ ls.
Proof.
  induction ls as [|y ls IH]; [done|]. simpl. case_decide as E; [|set_solver].
  rewrite IH. split; [set_solver|]. intros [->|?]%elem_of_cons; [|done]. destruct ls; simplify_eq/=; set_solver.
Qed.

Lemma dedup_cons_head {X} `{EqDecision X} (x : X) ls : head (dedup (x :: ls)) = Some x.
Proof. revert x. induction ls as [|y ls IH]; intros x; [done|]. simpl. case_decide as E; [|done]. simplify_eq/=. apply IH. Qed.

(** On sorted places without an index, [dedup] leaves each chain once. *)
Lemma dedup_sorted ls :
  StronglySorted by_chain ls -> (forall l, l ∈ ls -> oi_entry l = 0) -> StronglySorted chain_lt (dedup ls).
Proof.
  induction 1 as [|l ls Hs IH Hl]; intros H0; [constructor|]. simpl.
  assert (IH' : StronglySorted chain_lt (dedup ls)) by (apply IH; set_solver). case_decide as E; [done|].
  constructor; [done|]. apply Forall_forall. intros l' Hin. rewrite dedup_elem in Hin. rewrite Forall_forall in Hl.
  pose proof (Hl l' Hin) as Hle. unfold chain_lt, by_chain in *. destruct (decide (oi_order l = oi_order l')) as [Heq|]; [|lia].
  exfalso. apply E. destruct ls as [|l0 ls]; [set_solver|]. simpl. f_equal.
  assert (oi_order l0 = oi_order l).
  { apply StronglySorted_inv in Hs as [_ Hs]. rewrite Forall_forall in Hs. pose proof (Hl l0 ltac:(set_solver)).
    apply elem_of_cons in Hin as [->|Hin]; [lia|]. specialize (Hs l' Hin). lia. }
  destruct l0 as [c0 i0], l as [c i]. simpl in *. f_equal; [done|].
  pose proof (H0 (mkOI c0 i0) ltac:(set_solver)). pose proof (H0 (mkOI c i) ltac:(set_solver)). simpl in *. congruence.
Qed.

Lemma dedup_distinct {X} `{EqDecision X} (ls : list X) : NoDup ls -> dedup ls = ls.
Proof.
  induction 1 as [|x ls Hx Hn IH]; [done|]. simpl. case_decide as E; [|by rewrite IH].
  destruct ls; simplify_eq/=. set_solver.
Qed.

Lemma dedup_length {X} `{EqDecision X} (ls : list X) : (length (dedup ls) <= length ls)%nat.
Proof. induction ls as [|x ls IH]; simpl; [lia|]. case_decide; simpl; lia. Qed.

Lemma dedup_shorter {X} `{EqDecision X} (ls : list X) : NoDup (dedup ls) -> ~ NoDup ls -> (length (dedup ls) < length ls)%nat.
Proof.
  induction ls as [|x ls IH]; simpl; [intros _ []; constructor|]. case_decide as E.
  - pose proof (dedup_length ls). lia.
  - intros [Hx Hn]%NoDup_cons Hnot. simpl. assert (length (dedup ls) < length ls)%nat; [|lia].
    apply IH; [done|]. intros Hls. apply Hnot. constructor; [|done]. by rewrite dedup_elem in Hx.
Qed.

(** An element that is nowhere else separates. *)
Lemma dedup_app {X} `{EqDecision X} (l1 : list X) x l2 :
  x ∉ l1 -> x ∉ l2 -> dedup (l1 ++ x :: l2) = dedup l1 ++ x :: dedup l2.
Proof.
  intros H1 H2. induction l1 as [|y l1 IH]; simpl.
  - case_decide as E; [|done]. destruct l2; simplify_eq/=. set_solver.
  - rewrite IH by set_solver. destruct l1 as [|z l1]; simpl; [|by case_decide].
    by rewrite decide_False by set_solver.
Qed.

Lemma sorted_lt_distinct ls : StronglySorted chain_lt ls -> NoDup ls.
Proof.
  induction 1 as [|l ls Hs IH Hl]; constructor; [|done]. intros Hin. rewrite Forall_forall in Hl.
  specialize (Hl l Hin). unfold chain_lt in Hl. lia.
Qed.

(** The places of a list of chains. *)
Lemma sort_locs_spec cs :
  StronglySorted by_chain (sort_locs (no_place <$> cs)) /\
  (forall l, l ∈ sort_locs (no_place <$> cs) <-> exists c, c ∈ cs /\ l = no_place c) /\
  length (sort_locs (no_place <$> cs)) = length cs /\
  (NoDup (sort_locs (no_place <$> cs)) <-> NoDup cs).
Proof.
  pose proof (merge_sort_Permutation by_chain (no_place <$> cs)) as Hp. fold (sort_locs (no_place <$> cs)) in Hp.
  split_and!.
  - apply StronglySorted_merge_sort; apply _.
  - intros l. rewrite Hp, list_elem_of_fmap. naive_solver.
  - by rewrite Hp, length_fmap.
  - rewrite Hp. split; [apply NoDup_fmap_1|]. apply NoDup_fmap_2. intros a b [= ->]. done.
Qed.

Lemma dedup_locs cs :
  StronglySorted chain_lt (dedup (sort_locs (no_place <$> cs))) /\
  (forall l, l ∈ dedup (sort_locs (no_place <$> cs)) <-> exists c, c ∈ cs /\ l = no_place c).
Proof.
  destruct (sort_locs_spec cs) as (Hs & Hin & _ & _). split.
  - apply dedup_sorted; [done|]. intros l (c & _ & ->)%Hin. done.
  - intros l. by rewrite dedup_elem, Hin.
Qed.

Lemma separator_not_in cs : 0 ∉ cs -> separator ∉ sort_locs (no_place <$> cs).
Proof. intros H0 (c & Hc & [= <-])%sort_locs_spec. done. Qed.

Lemma dependent_locs_split cs os : 0 ∉ cs -> 0 ∉ os ->
  dependent_locs cs os = dedup (sort_locs (no_place <$> cs)) ++ separator :: dedup (sort_locs (no_place <$> os)).
Proof. intros Hc Ho. unfold dependent_locs. apply dedup_app; by apply separator_not_in. Qed.

Section Appends.
Context `{Build}.

Lemma multi_packet flags id cs data deps s :
  log_gone s = false -> (1 < length cs)%nat ->
  atomic_multi flags id cs data deps s =
    Ret (set_to_log (to_log s ++ [PerformAppend
       (match dedup (sort_locs (no_place <$> cs)) with
        | [l] => single_message id (oi_order l) data deps
        | locs => Multi id flags 0 locs deps data end)]) s) id.
Proof.
  intros Hg Hl. unfold atomic_multi, mbind, H_bind, pure. rewrite (proj2 (Z.ltb_lt _ _)) by lia. simpl.
  destruct (dedup _) as [|l [|l' ls]] eqn:E; simpl.
  - destruct cs as [|c cs]; [simpl in Hl; lia|]. assert (Hin : no_place c ∈ dedup (sort_locs (no_place <$> c :: cs))).
    { apply dedup_locs. exists c. split; [by left|done]. } rewrite E in Hin. set_solver.
  - unfold atomic_async_append, mbind, H_bind, send. by rewrite Hg.
  - rewrite (proj2 (Z.leb_le _ _)) by lia. simpl. unfold mbind, H_bind, send. by rewrite Hg.
Qed.

Lemma dependent_packet id cs os data deps s :
  log_gone s = false -> os <> [] -> 0 ∉ cs -> 0 ∉ os -> NoDup cs ->
  atomic_async_dependent_multiappend id cs os data deps s =
    Ret (set_to_log (to_log s ++ [PerformAppend (Multi id EntryFlag.Nothing 0
      (dedup (sort_locs (no_place <$> cs)) ++ separator :: dedup (sort_locs (no_place <$> os))) deps data)]) s) id.
Proof.
  intros Hg Ho Hc Hz Hn. unfold atomic_async_dependent_multiappend. rewrite dependent_locs_split by done.
  destruct (sort_locs_spec cs) as (_ & _ & Hlen & Hnd). apply Hnd in Hn as Hn'. rewrite (dedup_distinct (sort_locs _)) by done.
  unfold mbind, H_bind, pure. rewrite (proj2 (Z.ltb_lt _ _)) by (destruct os; simpl in *; done || lia). simpl.
  rewrite list_lookup_middle by done. simpl.
  rewrite <- Hlen, take_app_length. rewrite debug_assert_true.
  - rewrite drop_app_ge by lia. replace (S _ - _)%nat with 1%nat by lia. simpl. rewrite drop_0, debug_assert_true.
    + unfold send. by rewrite Hg.
    + apply forallb_forall. intros l Hl%list_elem_of_In. apply dedup_locs in Hl as (c & Hin & ->). by apply bool_decide_true.
  - apply forallb_forall. intros l Hl%list_elem_of_In. apply sort_locs_spec in Hl as (c & Hin & ->). by apply bool_decide_true.
Qed.

Lemma dependent_refused id cs os data deps s :
  0 ∉ cs -> 0 ∉ os -> ~ NoDup cs -> atomic_async_dependent_multiappend id cs os data deps s = Abort.
Proof.
  intros Hc Hz Hn. unfold atomic_async_dependent_multiappend. rewrite dependent_locs_split by done.
  destruct (sort_locs_spec cs) as (_ & _ & Hlen & Hnd).
  assert (Hlt : (length (dedup (sort_locs (no_place <$> cs))) < length cs)%nat).
  { rewrite <- Hlen. apply dedup_shorter; [apply sorted_lt_distinct, dedup_locs|by rewrite Hnd]. }
  unfold mbind, H_bind, pure. destruct (0 <? _); [|done]. simpl.
  destruct (_ !! length cs) as [m|] eqn:E; [|done]. simpl. rewrite bool_decide_false; [done|]. intros ->.
  rewrite lookup_app_r in E by lia. destruct (length cs - _)%nat as [|k] eqn:Ek; [lia|]. simpl in E.
  apply list_elem_of_lookup_2 in E. rewrite dedup_elem in E. by apply separator_not_in in E.
Qed.

(** C19.  What an append sends.  A multi-append (to more than one chain) goes to exactly the chains it
    names, in order, each once, and is a plain append when that leaves one.  A dependent append, to
    any number of distinct chains, one among them, has these, in order, then the separator, then the
    chains it depends on, in order, each once, however often they are named.  Where a plain
    multi-append ignores that a chain to append to is named twice, a dependent one panics; a chain
    that is named twice among those it depends on is ignored there too.  (Chain 0 is the separator:
    it is not among the chains of a dependent append.) *)
Theorem append_packets id cs os data deps s :
  log_gone s = false ->
  let sends r := Ret (set_to_log (to_log s ++ [PerformAppend r]) s) id in
  ((1 < length cs)%nat -> exists locs, StronglySorted chain_lt locs /\ (forall l, l ∈ locs <-> exists c, c ∈ cs /\ l = no_place c) /\
     atomic_async_multiappend id cs data deps s = sends
       match locs with [l] => single_message id (oi_order l) data deps | _ => Multi id EntryFlag.Nothing 0 locs deps data end) /\
  (os <> [] -> 0 ∉ cs -> 0 ∉ os ->
     (NoDup cs -> exists locs dlocs, StronglySorted chain_lt locs /\ StronglySorted chain_lt dlocs /\
        (forall l, l ∈ locs <-> exists c, c ∈ cs /\ l = no_place c) /\
        (forall l, l ∈ dlocs <-> exists c, c ∈ os /\ l = no_place c) /\
        atomic_async_dependent_multiappend id cs os data deps s =
          sends (Multi id EntryFlag.Nothing 0 (locs ++ separator :: dlocs) deps data)) /\
     (~ NoDup cs -> atomic_async_dependent_multiappend id cs os data deps s = Abort)).
Proof.
  intros Hg sends. split.
  - intros Hl. exists (dedup (sort_locs (no_place <$> cs))). split; [apply dedup_locs|]. split; [apply dedup_locs|].
    unfold atomic_async_multiappend. rewrite multi_packet by done. by destruct (dedup _) as [|? []].
  - intros Ho Hc Hz. split; [|by apply dependent_refused]. intros Hn.
    exists (dedup (sort_locs (no_place <$> cs))), (dedup (sort_locs (no_place <$> os))).
    destruct (dedup_locs cs), (dedup_locs os). split_and!; try done. by apply dependent_packet.
Qed.

End Appends.

Module Demo.

Definition h : LogHandle := new_handle true.

(** Chains 3 and 2, and a dependency on chain 1; chain 3 alone, with a dependency that is named
    twice; and the same with chain 3 named twice. *)
Lemma append_packets_witness :
  atomic_async_dependent_multiappend (H0 := dev) 9 [3; 2] [1] [7] [] h =
    Ret (set_to_log [PerformAppend (Multi 9 EntryFlag.Nothing 0 [mkOI 2 0; mkOI 3 0; mkOI 0 0; mkOI 1 0] [] [7])] h) 9 /\
  (exists locs dlocs, (forall l, l ∈ locs <-> l = no_place 3) /\ StronglySorted chain_lt dlocs /\
     atomic_async_dependent_multiappend (H0 := dev) 9 [3] [1; 1] [7] [] h =
       Ret (set_to_log [PerformAppend (Multi 9 EntryFlag.Nothing 0 (locs ++ separator :: dlocs) [] [7])] h) 9) /\
  atomic_async_dependent_multiappend (H0 := dev) 9 [3; 3] [1; 1] [7] [] h = Abort.
Proof.
  split; [vm_compute; reflexivity|]. split.
  - destruct (append_packets (H0 := dev) 9 [3] [1; 1] [7] [] h eq_refl) as [_ Hd].
    destruct Hd as [Hd _]; [discriminate|set_solver by lia..|].
    destruct Hd as (locs & dlocs & _ & H2 & H3 & _ & H5); [apply NoDup_singleton|].
    exists locs, dlocs. split; [|by split]. intros l. rewrite H3. set_solver.
  - destruct (append_packets (H0 := dev) 9 [3; 3] [1; 1] [7] [] h eq_refl) as [_ Hd].
    destruct Hd as [_ Hd]; [discriminate|set_solver by lia..|].
    apply Hd. intros [Hn _]%NoDup_cons. set_solver.
Defined.

End Demo.
