(* ===== verification/OrderingHistory.v ===== *)
(** * What a server has delivered

    The Skeens state of a chain keeps its history in the invariant of [SkeensInv]; this file
    carries it through every handler of the ordering thread.  In a dev build, whatever requests
    a server has handled without panicking, the messages by which each chain delivered entries
    are those of a history that the invariant allows, and the final timestamps in it are those
    the server was told, or decided itself for an append to its own chains. *)

From stdpp Require Import base gmap sets list sorting.
From Stdlib Require Import ZArith Lia.
From S2P Require Import Prelude DequeMap Skeens SkeensInv SkeensOrder PacketCodec Packets Trie OrderingThread OrderingInv OrderingSafety.
Open Scope Z_scope.
#[local] Existing Instance dev.

(** ** Skeens states, from what returned *)

Section Quiet.
Context {T : Type}.
Abbreviation Sk := (SkeensState Z T Z Z).

(** The multi-append or snapshot an entry is about: its id, and the storage it came with. *)
Definition w_about (w : WaitingForMax Z T Z Z) : option (Z * Z) :=
  match w with
  | W_Multi _ _ storage _ id | W_Senti _ _ storage _ id | W_Snap _ _ storage _ id
  | W_GotMaxMulti _ _ storage _ id | W_GotMaxSenti _ _ storage _ id | W_GotMaxSnap _ _ storage _ id
  | W_ReplicatedMulti _ _ storage _ id | W_ReplicatedSenti _ _ storage _ id | W_ReplicatedSnap _ _ storage _ id => Some (id, storage)
  | W_SimpleSingle _ _ _ _ _ | W_Single _ _ _ _ _ | W_ReplicatedSingle _ _ _ _ _ => None
  end.
Definition g_about (g : GotMax Z T Z Z) : option (Z * Z) :=
  match g with
  | G_Multi _ storage _ id | G_Senti _ storage _ id | G_Snap _ storage _ id => Some (id, storage)
  | G_SimpleSingle _ _ _ _ | G_Single _ _ _ _ _ => None
  end.

Section Known.
Context (B : list (Z * Z)).

Definition known (x : option (Z * Z)) : Prop := match x with Some p => p ∈ B | None => True end.

(** Everything the Skeens state holds came with a request: [B] has the ids and storages of those. *)
Record knows (k : Sk) : Prop := {
  kn_queue : forall i w, Hash.data (phase1_queue k) !! i = Some w -> known (w_about w);
  kn_heap : Forall (fun g => known (g_about g)) (got_max_timestamp k);
}.

Lemma knows_new : knows Skeens.new.
Proof. split; [|constructor]. intros i w Hi. cbn in Hi. by rewrite lookup_empty in Hi. Qed.

Lemma knows_bump k ts k' : knows k -> bump k ts = Done k' -> knows k'.
Proof.
  intros HK E. unfold bump in E. destruct (_ <=? _); [|by injection E as <-]. apply bind_done in E as (n & _ & [= <-]). by split; apply HK.
Qed.

Lemma knows_queue_append k id mk status r k' : knows k -> (forall ts n, known (w_about (mk ts n))) ->
  queue_append k id mk status = Done (r, k') -> knows k'.
Proof.
  intros HK Hmk E. unfold queue_append in E. apply bind_done in E as (n & _ & E). apply bind_done in E as ([key q] & Eq & E).
  apply bind_done in E as ([] & _ & [= _ <-]). unfold Hash.push_back in Eq. apply bind_done in Eq as (n' & _ & [= _ <-]).
  split; cbn; [|apply HK]. intros i w [[_ <-]|[_ Hi]]%lookup_insert_Some; [apply Hmk|by eapply kn_queue].
Qed.

Lemma heap_push_known g : forall h h', heap_push g h = Done h' -> Forall (fun g => known (g_about g)) h -> known (g_about g) ->
  Forall (fun g => known (g_about g)) h'.
Proof.
  induction h as [|y h IH]; intros h' E Hh Hg; cbn [heap_push] in E.
  - injection E as <-. by repeat constructor.
  - apply Forall_cons in Hh as [Hy Hh]. apply bind_done in E as (c & _ & E). destruct c.
    1,2: apply bind_done in E as (r & Er & [= <-]); constructor; [done|by eapply IH].
    injection E as <-. by repeat constructor.
Qed.

Lemma into_got_about (w : WaitingForMax Z T Z Z) g : into_got_max w = Done g -> g_about g = w_about w.
Proof. destruct w; cbn; intros E; simplify_eq; done. Qed.

Lemma knows_promote fuel : forall k k', knows k -> promote fuel k = Done k' -> knows k'.
Proof.
  induction fuel as [|fuel IH]; intros k k' HK E; cbn [promote] in E; (destruct (Hash.front _) as [w|] eqn:Ef; [|by injection E as <-]);
    (destruct (has_max w); [|by injection E as <-]); [done|].
  apply bind_done in E as ([ow q] & Eq & E). apply bind_done in E as (w' & Ew%unwrap_done & E). apply bind_done in E as (g & Eg & E).
  apply bind_done in E as (h & Eh & E). cbn in Ew, Eh. subst ow. eapply IH; [|exact E].
  unfold Hash.pop_front in Eq. destruct (Hash.is_empty _); [done|]. apply bind_done in Eq as (n & _ & [= Hw <-]). split; cbn.
  - intros i w0 Hi. apply lookup_delete_Some in Hi as [_ Hi]. by eapply kn_queue.
  - eapply heap_push_known; [done|apply HK|]. rewrite (into_got_about _ _ Eg). by eapply kn_queue.
Qed.

Lemma knows_set_max k id mts r k' : knows k -> set_max_timestamp k id mts = Done (r, k') -> knows k'.
Proof.
  intros HK E. unfold set_max_timestamp in E. apply bind_done in E as ([] & _ & E). apply bind_done in E as (k1 & E1 & E).
  apply (knows_bump _ _ _ HK) in E1. apply bind_done in E as ([r2 k2] & E2 & E). assert (HK2 : knows k2).
  { destruct (append_status k1 !! id) as [[i|t|i]|]; [| | |by injection E2 as _ <-]; [|by injection E2 as _ <-|].
    - apply bind_done in E2 as (w & Ew & E2). apply bind_done in E2 as (sm & Esm & E2). destruct sm as [t|w']; [by injection E2 as _ <-|].
      apply bind_done in E2 as (q & Eq & [= _ <-]). split; cbn; [|apply E1]. intros j w0 Hj. unfold Hash.index_mut in Eq.
      apply bind_done in Eq as ([o q'] & Eg & Eq). destruct o; [|done]. injection Eq as ->. unfold Hash.get_mut in Eg.
      unfold Hash.index in Ew. destruct (Hash.get (phase1_queue k1) i) as [ow|] eqn:Egt; [|done]. cbn in Ew, Eg. destruct ow as [wx|]; [|done].
      injection Ew as ->. injection Eg as _ <-. cbn in Hj. apply lookup_insert_Some in Hj as [[_ <-]|[_ Hj]]; [|by eapply kn_queue].
      assert (Hw : known (w_about w)).
      { unfold Hash.get in Egt. apply bind_done in Egt as ([] & _ & [= Hl]). by eapply kn_queue. }
      destruct w; cbn in Esm; try done; inv_done; simplify_eq; done.
    - apply bind_done in E2 as (w & _ & E2). destruct (multi_timestamp w); by injection E2 as _ <-. }
  cbn in E. destruct r2; try (apply bind_done in E as ([] & _ & [= _ <-]); done).
  apply bind_done in E as (k3 & E3 & E). apply bind_done in E as (c & _ & [= _ <-]). by eapply knows_promote.
Qed.

Lemma knows_flush_loop h : forall k gs k', knows k -> got_max_timestamp k = h -> flush_loop h k = Done (gs, k') ->
  knows k' /\ Forall (fun g => known (g_about g)) gs.
Proof.
  induction h as [|g h IH]; intros k gs k' HK Hh E; cbn [flush_loop] in E; [by injection E as <- <-|].
  apply bind_done in E as ([] & _ & E); [|by injection E as <- <-]. apply bind_done in E as ([] & _ & E).
  apply bind_done in E as ([gs1 k1] & E1 & [= <- <-]). pose proof (kn_heap _ HK) as HF. rewrite Hh in HF. apply Forall_cons in HF as [Hg HF].
  eapply IH in E1 as [HK1 HF1]; [| |done]; [split; [done|by constructor]|]. split; cbn; [apply HK|done].
Qed.
End Known.

(** A call that delivers nothing. *)
Definition quiet (B : list (Z * Z)) {X} (f : Sk -> outcome (X * Sk)) : Prop := forall k qs hist calls x k',
  Inv k qs hist calls -> quiescent k qs -> knows B k -> f k = Done (x, k') ->
  exists qs', Inv k' qs' hist calls /\ quiescent k' qs' /\ knows B k'.

Lemma add64_fits a b c : add64 a b = Done c -> a + b <= u64_max.
Proof. unfold add64. intros [_ Hc]%norm64_dev. unfold in_u64 in Hc. lia. Qed.

Lemma bump_ok (k : Sk) qs hist calls ts k' : Inv k qs hist calls -> bump k ts = Done k' ->
  exists n, k' = set_next n k /\ Inv (set_next n k) qs hist calls /\ ts < n /\ next_timestamp k <= n.
Proof.
  intros HI E. assert (Hts : ts < u64_max).
  { pose proof (inv_next _ _ _ _ HI). unfold bump in E. case_match; [|lia].
    apply bind_done in E as (n & En & _). apply add64_fits in En. lia. }
  destruct (bump_spec _ _ _ _ ts HI Hts) as (n & E' & HI' & Hn & Hn' & _). rewrite E in E'. injection E' as ->.
  by exists n.
Qed.

Lemma queue_room (k : Sk) id mk status r : queue_append k id mk status = Done r -> room k.
Proof.
  unfold queue_append. intros (n & En & E)%bind_done. apply add64_fits in En.
  apply bind_done in E as (x & Ex & _). unfold Hash.push_back in Ex. apply bind_done in Ex as (n' & En' & _).
  apply add64_fits in En'. split; lia.
Qed.

Lemma quiet_need_single B ts : quiet B (fun k => need_single_at k ts).
Proof.
  intros k qs hist calls b k' HI Hq HK E. unfold need_single_at in E. apply bind_done in E as ([] & _ & E).
  destruct (is_empty k || (ts <=? last_flush k)).
  - apply bind_done in E as (k1 & Eb & [= _ <-]). pose proof (knows_bump _ _ _ _ HK Eb). destruct (bump_ok _ _ _ _ _ _ HI Eb) as (n & -> & HI' & _).
    by exists qs.
  - injection E as _ <-. by exists qs.
Qed.

Lemma quiet_add_single B id ts storage t : quiet B (fun k => add_single_append k id ts storage t).
Proof.
  intros k qs hist calls r k' HI Hq HK E. unfold add_single_append in E. apply bind_done in E as ([] & _ & E).
  apply bind_done in E as ([] & Hne & E). apply bind_done in E as (k1 & Eb & E). pose proof (knows_bump _ _ _ _ HK Eb) as HK'.
  destruct (bump_ok _ _ _ _ _ _ HI Eb) as (n & -> & HI' & _).
  destruct (append_status (set_next n k) !! id) as [st|] eqn:Hid.
  - apply bind_done in E as (x & _ & [= _ <-]). by exists qs.
  - pose proof (queue_room _ _ _ _ _ E) as Hr. assert (HK2 : knows B k') by (eapply (knows_queue_append B (set_next n k)); [exact HK'| |exact E]; done).
    destruct (queue_append_step (set_next n k) qs hist calls id
      (fun ts n => W_SimpleSingle ts n storage t id) AS_Singleton) as (k2 & E' & (qs' & HI2 & Hq2 & _) & _); try done.
    + intros ->. rewrite (rep_is_empty _ _ (inv_rep _ _ _ _ HI)) in Hne. done.
    + rewrite E in E'. injection E' as _ ->. exists qs'. by rewrite app_nil_r in HI2.
Qed.

Lemma quiet_add B id mk : (forall ts n, known B (w_about (mk ts n))) ->
  (forall calls ts n, w_get_id (mk ts n) = id /\ entry_ok calls n ts (mk ts n) /\
     w_ts (mk ts n) = ts /\ AS_Phase1 n = status_of n (mk ts n)) ->
  (forall ts n, has_max (mk ts n) = false) ->
  quiet B (fun k => _ ← check_empty k;
     r ← match append_status k !! id with
         | Some status => r ← known_append k status; Done (r, k)
         | None => queue_append k id mk AS_Phase1
         end;
     _ ← check_empty r.2; Done r).
Proof.
  intros Hkn Hmk Hmax k qs hist calls r k' HI Hq HK E. cbn beta in E. apply bind_done in E as ([] & _ & E).
  apply bind_done in E as ([r' k1] & E & Hc). apply bind_done in Hc as ([] & _ & [= <- <-]).
  destruct (append_status k !! id) as [st|] eqn:Hid.
  - apply bind_done in E as (x & _ & [= _ <-]). by exists qs.
  - pose proof (queue_room _ _ _ _ _ E) as Hr. assert (HK2 : knows B k1) by (eapply (knows_queue_append B k); [exact HK| |exact E]; done).
    destruct (queue_append_step k qs hist calls id mk AS_Phase1) as (k2 & E' & (qs' & HI2 & Hq2 & _) & _); try done.
    rewrite E in E'. injection E' as _ ->. exists qs'. by rewrite app_nil_r in HI2.
Qed.

Lemma quiet_add_multi B id storage sentinel t : (id, storage) ∈ B -> quiet B (fun k => add_multi_append k id storage sentinel t).
Proof. intros HB. apply quiet_add; by destruct sentinel. Qed.
Lemma quiet_add_snapshot B id storage t : (id, storage) ∈ B -> quiet B (fun k => add_snapshot k id storage t).
Proof. intros HB. by apply quiet_add. Qed.

(** A final timestamp that was accepted. *)
Lemma finish_ok (k : Sk) qs hist calls id mts r k1 :
  Inv k qs hist calls -> quiescent k qs -> set_max_timestamp k id mts = Done (r, k1) ->
  (r = SMR_Ok /\ exists qs', Inv k1 qs' hist ((id, mts) :: calls) /\ quiescent k1 qs') \/
  (r = SMR_NeedsFlush /\ forall gs k2, flush_got_max_timestamp k1 = Done (gs, k2) ->
     exists qs', Inv k2 qs' (hist ++ gs) ((id, mts) :: calls) /\ quiescent k2 qs') \/
  r = SMR_NotWaiting \/ (exists t, r = SMR_Duplicate t).
Proof.
  intros HI Hq E. assert (Hok : mts < u64_max /\ forall t, phase1_timestamp k id = Some t -> t <= mts).
  { pose proof E as E0. unfold set_max_timestamp in E0. apply bind_done in E0 as ([] & _ & E0).
    apply bind_done in E0 as (k0 & Eb & E0). destruct (bump_ok _ _ _ _ _ _ HI Eb) as (n & -> & HI' & Hn & _).
    pose proof (inv_next _ _ _ _ HI'). split; [simpl in *; lia|]. intros t Ht. unfold phase1_timestamp in Ht.
    apply bind_done in E0 as (x & Ex & _). cbn [append_status set_next phase1_queue] in Ex.
    destruct (append_status k !! id) as [[i| |]|]; try done.
    destruct (Hash.data (phase1_queue k) !! i) as [w|] eqn:Ew; [|done].
    rewrite (rep_index _ _ _ _ (inv_rep _ _ _ _ HI) Ew), done_bind in Ex.
    apply bind_done in Ex as (y & Ey & _). destruct w; simplify_eq/=; try done; unfold debug_assert in Ey; simpl in Ey;
      apply bind_done in Ey as ([] & Ha & _); unfold assert_ in Ha; destruct (_ <=? _) eqn:Hle; try done; lia. }
  destruct (exec_finish_spec k qs hist calls id mts HI Hq Hok) as (out & k' & Ee & qs' & HI' & Hq' & _).
  simpl in Ee. rewrite E in Ee. simpl in Ee. destruct r.
  - right; left. split; [done|]. intros gs k2 Ef. rewrite Ee in Ef. injection Ef as <- <-. by exists qs'.
  - left. split; [done|]. injection Ee as <- <-. rewrite app_nil_r in HI'. by exists qs'.
  - right; right; right. by eexists.
  - by right; right; left.
Qed.

End Quiet.

(** ** Histories of a server *)

Section History.
Context {T A : Type} `{ByteTrie A}.
Abbreviation Server := (ServerLog T A).
Abbreviation Got := (GotMax Z T Z Z).

(** The message by which chain [o] delivers [g]. *)
Definition msg_of (o : Z) (g : Got) (m : ToWorker T) : Prop :=
  match g with
  | G_Multi ts storage t _ => exists i p, m = SkeensFinished (mkOI o i) (Some (o, p)) storage ts t
  | G_Senti ts storage t _ => exists i, m = SkeensFinished (mkOI o i) None storage ts t
  | G_Snap ts storage t _ => exists i, m = SnapSkeensFinished (mkOI o i) storage ts t
  | G_SimpleSingle ts storage t _ | G_Single ts _ storage t _ => exists i p, m = DelayedSingle i (Some (o, p)) storage ts t
  end.

(** The messages by which chain [o] delivers something. *)
Definition delivers (o : Z) (m : ToWorker T) : bool :=
  match m with
  | SkeensFinished loc _ _ _ _ | SnapSkeensFinished loc _ _ _ => oi_order loc =? o
  | DelayedSingle _ (Some (c, _)) _ _ _ => c =? o
  | _ => false
  end.

Definition deliveries (o : Z) (ms : list (ToWorker T)) : list (ToWorker T) := filter (fun m => delivers o m = true) ms.

(** [h o] is the history of chain [o]; its final timestamps are among [C], and its multi-appends, with
    their storages, among [B]. *)
Definition tracks (C B : list (Z * Z)) (h : Z -> list Got) (s : Server) : Prop := forall o,
  (exists qs calls, Inv (cur_skeens s o) qs (h o) calls /\ quiescent (cur_skeens s o) qs /\ calls ⊆ C) /\
  knows B (cur_skeens s o) /\ Forall (fun g => known B (g_about g)) (h o) /\
  Forall2 (msg_of o) (h o) (deliveries o (to_workers s)).

(** Handlers that extend the histories, as long as the final timestamps are among [C]. *)
Definition keeps (C B : list (Z * Z)) {X} (m : M X) : Prop := forall (s s' : Server) x h,
  tracks C B h s -> m s = Done (s', x) -> exists h', (forall o, h o `prefix_of` h' o) /\ tracks C B h' s'.

Lemma known_more B B' x : B ⊆ B' -> known B x -> known B' x.
Proof. intros HB. destruct x; cbn; [apply HB|done]. Qed.

Lemma knows_more B B' (k : SkeensState Z T Z Z) : B ⊆ B' -> knows B k -> knows B' k.
Proof.
  intros HB [HQ HH]. split; [intros i w Hi; by eapply known_more, HQ|]. eapply Forall_impl; [exact HH|]. intros g. by apply known_more.
Qed.

Lemma tracks_more C C' B B' h s : C ⊆ C' -> B ⊆ B' -> tracks C B h s -> tracks C' B' h s.
Proof.
  intros HC HB Ht o. destruct (Ht o) as [(qs & calls & HI & Hq & Hs) (HK & HF & Hm)]. split; [|split; [by eapply knows_more|split; [|done]]].
  - exists qs, calls. split_and!; [done..|]. by etrans.
  - eapply Forall_impl; [exact HF|]. intros g. by apply known_more.
Qed.

Lemma bind_M {X Y} (m : M X) (k : X -> M Y) (s s' : Server) y :
  (m ≫= k) s = Done (s', y) -> exists s1 x, m s = Done (s1, x) /\ k x s1 = Done (s', y).
Proof. unfold mbind, M_bind. destruct (m s) as [[s1 x]|]; [|done]. intros. by exists s1, x. Qed.

Section Keeps.
Context (C B : list (Z * Z)).

Lemma all_keeps_bind {X Y} (m : M X) (k : X -> M Y) : keeps C B m -> (forall x, keeps C B (k x)) -> keeps C B (m ≫= k).
Proof.
  intros Hm Hk s s' y h Ht (s1 & x & H1 & H2)%bind_M. destruct (Hm _ _ _ _ Ht H1) as (h1 & P1 & T1).
  destruct (Hk x _ _ _ _ T1 H2) as (h2 & P2 & T2). exists h2. split; [|done]. intros o. etrans; [apply P1|apply P2].
Qed.

(** The Skeens states and the messages of chain [o] are those of [s]. *)
Definition same (s s' : Server) : Prop :=
  (forall o, cur_skeens s' o = cur_skeens s o) /\ to_workers s' = to_workers s.

Lemma keeps_same {X} (m : M X) : (forall s s' x, m s = Done (s', x) -> same s s') -> keeps C B m.
Proof.
  intros Hm s s' x h Ht E. destruct (Hm _ _ _ E) as [Hk Hw]. exists h. split; [done|].
  intros o. rewrite Hk, Hw. apply Ht.
Qed.

Lemma all_keeps_ret {X} (x : X) : keeps C B (mret x).
Proof. apply keeps_same. by intros s s' y [= <- _]. Qed.
Lemma keeps_lift {X} (o : outcome X) : keeps C B (lift o).
Proof. apply keeps_same. intros s s' y Hs. unfold lift in Hs. by apply bind_done in Hs as (? & _ & [= <- _]). Qed.
Lemma keeps_known {X Y} (x : X) (k : X -> M Y) : keeps C B (k x) -> keeps C B (lift (Done x) ≫= k).
Proof. intros Hk s s' y h Ht E. by eapply Hk. Qed.
Lemma all_keeps_bind_left {L R Y} (x : Troption L R) (k : L -> M Y) : (forall l, x = TLeft l -> keeps C B (k l)) -> keeps C B (lift (unwrap_left x) ≫= k).
Proof. intros Hk. destruct x; [by intros s s' y h _ ?|by apply keeps_known, Hk|by intros s s' y h _ ?]. Qed.
Lemma keeps_panic {X} : keeps C B (panic (X := X)).
Proof. by intros s s' x h _ ?. Qed.
Lemma keeps_get_chain o : keeps C B (get_chain o).
Proof. apply keeps_same. by intros s s' y [= <- _]. Qed.
Lemma keeps_get_storage h : keeps C B (get_storage h).
Proof. apply keeps_same. intros s s' y Hs. unfold get_storage in Hs. by apply bind_done in Hs as (? & _ & [= <- _]). Qed.
Lemma keeps_put_storage h m : keeps C B (put_storage h m).
Proof. apply keeps_same. by intros s s' y [= <- _]. Qed.
Lemma keeps_stores_chain o : keeps C B (stores_chain o).
Proof. apply keeps_same. intros s s' y Hs. unfold stores_chain in Hs. by apply bind_done in Hs as (? & _ & [= <- _]). Qed.

Lemma ensure_same o s s' c : ensure_chain o s = Done (s', c) -> same s s' /\ log s' !! o = Some c /\ skeens c = cur_skeens s o.
Proof.
  intros E. unfold ensure_chain in E. apply bind_M in E as (s1 & oc & [= <- <-] & E). unfold same, cur_skeens.
  destruct (log s !! o) as [c'|] eqn:Eo.
  - injection E as <- <-. done.
  - apply bind_M in E as (s1 & c' & En & E). unfold lift in En. apply bind_done in En as (c1 & En & [= <- <-]).
    apply bind_M in E as (s2 & [] & [= <-] & [= <- <-]). simpl. rewrite lookup_insert_eq.
    assert (Hk : skeens c1 = Skeens.new).
    { unfold new_chain in En. inv_done. repeat case_match; simplify_eq/=; inv_done; done. }
    split_and!; try done. intros o'. destruct (decide (o = o')) as [<-|].
    + by rewrite lookup_insert_eq, Eo.
    + by rewrite lookup_insert_ne.
Qed.

Lemma keeps_ensure o : keeps C B (ensure_chain o).
Proof. apply keeps_same. intros s s' c E. by eapply ensure_same. Qed.

(** Another trie for a chain. *)
Lemma put_same o c t s : log s !! o = Some c -> same s (with_log (<[o := mkChain t (skeens c)]> (log s)) s).
Proof.
  intros Ho. split; [|done]. intros o'. unfold cur_skeens. simpl. destruct (decide (o = o')) as [<-|].
  - by rewrite lookup_insert_eq, Ho.
  - by rewrite lookup_insert_ne.
Qed.

Lemma same_trans s s1 s2 : same s s1 -> same s1 s2 -> same s s2.
Proof. intros [K1 W1] [K2 W2]. split; [|congruence]. intros o. by rewrite K2, K1. Qed.

Lemma on_trie_same {X} o (f : Trie A -> outcome (Trie A * X)) s s' x : on_trie o f s = Done (s', x) -> same s s'.
Proof.
  intros (s1 & c & E1 & E)%bind_M. destruct (ensure_same _ _ _ _ E1) as (S1 & Hc & Hk).
  apply bind_M in E as (s2 & [t y] & Ef & E). unfold lift in Ef. apply bind_done in Ef as ([t' y'] & _ & [= <- <- <-]).
  apply bind_M in E as (s3 & [] & [= <-] & [= <- <-]). eapply same_trans; [exact S1|]. by apply put_same.
Qed.

Lemma keeps_on_trie {X} o (f : Trie A -> outcome (Trie A * X)) : keeps C B (on_trie o f).
Proof. apply keeps_same. intros s s' x E. by eapply on_trie_same. Qed.

Lemma keeps_on_existing o f : keeps C B (on_existing o f).
Proof.
  apply keeps_same. intros s s' x E. unfold on_existing in E. apply bind_M in E as (s1 & oc & [= <- <-] & E).
  destruct (log s !! o) as [c|] eqn:Eo; [|by injection E as <-].
  apply bind_M in E as (s2 & t & Ef & E). unfold lift in Ef. apply bind_done in Ef as (t' & _ & [= <- <-]).
  injection E as <-. by apply put_same.
Qed.

Lemma keeps_send m : (forall o, delivers o m = false) -> keeps C B (send_to_worker m).
Proof.
  intros Hm s s' x h Ht [= <- _]. exists h. split; [done|]. intros o. destruct (Ht o) as (HI & HK & HF & Hd). split; [done|]. split; [done|]. split; [done|].
  simpl. unfold deliveries in *. rewrite filter_app, filter_cons_False, filter_nil, app_nil_r by (by rewrite Hm). done.
Qed.

(** What a call on the Skeens state of a chain leaves. *)
Lemma on_skeens_spec {X} o (f : SkeensState Z T Z Z -> outcome (X * SkeensState Z T Z Z)) s s' x :
  on_skeens o f s = Done (s', x) -> exists k, f (cur_skeens s o) = Done (x, k) /\ to_workers s' = to_workers s /\
    forall o', cur_skeens s' o' = if decide (o = o') then k else cur_skeens s o'.
Proof.
  intros (s1 & c & E1 & E)%bind_M. destruct (ensure_same _ _ _ _ E1) as ((K1 & W1) & Hc & Hk).
  apply bind_M in E as (s2 & [y k] & Ef & E). unfold lift in Ef. apply bind_done in Ef as ([y' k'] & Ef & [= <- <- <-]).
  apply bind_M in E as (s3 & [] & [= <-] & [= <- <-]). rewrite Hk in Ef. exists k'. split_and!; [done|done|].
  intros o'. rewrite <- K1. unfold cur_skeens. simpl. case_decide as Ho; [subst|]; by rewrite ?lookup_insert_eq, ?lookup_insert_ne.
Qed.

Lemma keeps_on_skeens {X} o (f : SkeensState Z T Z Z -> outcome (X * SkeensState Z T Z Z)) :
  quiet B f -> keeps C B (on_skeens o f).
Proof.
  intros Hf s s' x h Ht E. destruct (on_skeens_spec _ _ _ _ _ E) as (k & Ek & Ew & Es). exists h. split; [done|].
  intros o'. rewrite Es, Ew. destruct (Ht o') as [(qs & calls & HI & Hq & HC) (HK & HF & Hd)].
  case_decide as Ho; [subst o'|split; [by exists qs, calls|done]].
  destruct (Hf _ _ _ _ _ _ HI Hq HK Ek) as (qs' & HI' & Hq' & HK'). split; [by exists qs', calls|done].
Qed.

(** ** Delivering *)

Lemma deliver_spec o g s s' x : deliver o g s = Done (s', x) ->
  (forall o', cur_skeens s' o' = cur_skeens s o') /\ exists m, to_workers s' = to_workers s ++ [m] /\ msg_of o g m /\
    forall o', delivers o' m = bool_decide (o = o').
Proof.
  intros E. destruct g; cbn [deliver] in E; apply bind_M in E as (s1 & y & E1 & E).
  1,4,5: destruct y as [i p]; destruct (on_trie_same _ _ _ _ _ E1) as [K W]; injection E as <-; simpl; rewrite W;
    split; [done|]; eexists; split_and!; [done|by do 2 eexists|]; intros o'; simpl; case_bool_decide; lia.
  - destruct (on_trie_same _ _ _ _ _ E1) as [K W]. injection E as <-. simpl. rewrite W. split; [done|].
    eexists. split_and!; [done|by eexists|]. intros o'. simpl. case_bool_decide; lia.
  - destruct (ensure_same _ _ _ _ E1) as ([K W] & _). apply bind_M in E as (s2 & i & Ei & E). unfold lift in Ei.
    apply bind_done in Ei as (j & _ & [= <- <-]). injection E as <-. simpl. rewrite W. split; [done|].
    eexists. split_and!; [done|by eexists|]. intros o'. simpl. case_bool_decide; lia.
Qed.

Lemma deliver_all_spec o gs : forall s s' x, deliver_all o gs s = Done (s', x) ->
  (forall o', cur_skeens s' o' = cur_skeens s o') /\ exists ms, to_workers s' = to_workers s ++ ms /\
    forall o', if decide (o = o') then Forall2 (msg_of o) gs (deliveries o' ms) else deliveries o' ms = [].
Proof.
  induction gs as [|g gs IH]; intros s s' x E; cbn [deliver_all] in E.
  - injection E as <- _. split; [done|]. exists []. rewrite app_nil_r. split; [done|]. intros o'. by case_decide.
  - apply bind_M in E as (s1 & [] & E1 & E). destruct (deliver_spec _ _ _ _ _ E1) as (K1 & m & W1 & Hm & Hd).
    destruct (IH _ _ _ E) as (K2 & ms & W2 & Hms). split; [intros o'; by rewrite K2, K1|].
    exists (m :: ms). rewrite W2, W1, <- (assoc_L (++)). split; [done|]. intros o'. specialize (Hms o').
    unfold deliveries in *. case_decide as Ho; subst.
    + rewrite filter_cons_True by (rewrite Hd; by apply bool_decide_eq_true_2). by constructor.
    + by rewrite filter_cons_False by (by rewrite Hd, bool_decide_eq_false_2).
Qed.

(** A final timestamp that is among [C]. *)
Lemma keeps_finish o id mts : (id, mts) ∈ C -> keeps C B (finish_multi o id mts).
Proof.
  intros HC s s' x h Ht E. unfold finish_multi in E. apply bind_M in E as (s1 & r & E1 & E).
  destruct (on_skeens_spec _ _ _ _ _ E1) as (k1 & Ek & Ew & Es). destruct (Ht o) as [(qs & calls & HI & Hq & Hc) (HK & HF & Hd)].
  pose proof (knows_set_max _ _ _ _ _ _ HK Ek) as HK1.
  assert (Hc' : (id, mts) :: calls ⊆ C) by set_solver.
  destruct (finish_ok _ _ _ _ _ _ _ _ HI Hq Ek) as [(-> & qs' & HI' & Hq')|[[-> Hfl]|[->|[t ->]]]]; try done.
  - injection E as <- _. exists h. split; [done|]. intros o'. rewrite Es, Ew. destruct (Ht o') as [HI0 Hd0].
    case_decide as Ho; [subst o'|done]. split; [by exists qs', ((id, mts) :: calls)|done].
  - apply bind_M in E as (s2 & gs & E2 & E). destruct (on_skeens_spec _ _ _ _ _ E2) as (k2 & Ek2 & Ew2 & Es2).
    rewrite Es, decide_True in Ek2 by done. destruct (Hfl _ _ Ek2) as (qs' & HI' & Hq').
    destruct (deliver_all_spec _ _ _ _ _ E) as (K3 & ms & W3 & Hms).
    exists (fun o' => if decide (o = o') then h o' ++ gs else h o'). split.
    { intros o'. case_decide; [by apply prefix_app_r|done]. }
    intros o'. specialize (Hms o'). rewrite K3, Es2, W3, Ew2, Ew. unfold deliveries in *. rewrite filter_app.
    case_decide as Ho; [subst o'|].
    + destruct (knows_flush_loop _ _ _ _ _ HK1 eq_refl Ek2) as [HK2 HF2].
      split; [by exists qs', ((id, mts) :: calls)|]. split; [done|]. split; [by apply Forall_app|by apply Forall2_app].
    + rewrite Es, decide_False by done. rewrite Hms, app_nil_r. apply Ht.
Qed.

End Keeps.

Create HintDb keeps.
Hint Resolve all_keeps_ret keeps_lift keeps_panic keeps_get_chain keeps_get_storage keeps_put_storage keeps_stores_chain
  keeps_ensure keeps_on_trie keeps_on_existing keeps_finish : keeps.
Hint Resolve quiet_need_single quiet_add_single quiet_add_multi quiet_add_snapshot : keeps.

Ltac keep :=
  repeat (intros; cbn beta iota;
    first
      [ solve [eauto 2 with keeps]
      | apply keeps_on_skeens; solve [eauto 2 with keeps]
      | apply keeps_send; done
      | apply all_keeps_bind
      | match goal with |- keeps _ _ (match ?x with _ => _ end) => destruct x end ]).

Section Handlers.
Context (C B : list (Z * Z)).
Abbreviation keeps' := (keeps C B).

Lemma keeps_not_here o : keeps' (not_here o).
Proof. unfold not_here. keep. Qed.
Lemma keeps_unwrap_ok {X Y} (r : X + Y) : keeps' (unwrap_ok r).
Proof. unfold unwrap_ok. keep. Qed.
Lemma keeps_for_multi o id st b t : (id, st) ∈ B -> keeps' (timestamp_for_multi o id st b t).
Proof. unfold timestamp_for_multi. keep. Qed.
Lemma keeps_for_snap o id st t : (id, st) ∈ B -> keeps' (timestamp_for_snap o id st t).
Proof. unfold timestamp_for_snap. keep. Qed.
Hint Resolve keeps_not_here keeps_unwrap_ok keeps_for_multi keeps_for_snap : keeps.

Lemma keeps_round1_locs id st d t ls : (id, st) ∈ B -> forall b, keeps' (round1_locs id st d b t ls).
Proof. intros HB. induction ls as [|l ls IH]; intros b; cbn [round1_locs]; keep. Qed.
Lemma keeps_check_slices n m : keeps' (check_slices n m).
Proof. unfold check_slices. keep. Qed.
Hint Resolve keeps_round1_locs keeps_check_slices : keeps.
Lemma keeps_round1 r st d t : (Packets.id r, st) ∈ B -> keeps' (new_multiappend_round1 r st d t).
Proof. unfold new_multiappend_round1. keep. Qed.

Lemma keeps_round2_locs id mts ls : (id, mts) ∈ C -> keeps' (round2_locs id mts ls).
Proof. intros HC. induction ls as [|l ls IH]; cbn [round2_locs]; keep. Qed.
Lemma keeps_round2 kind r mts : lock_num r = Done mts -> (Packets.id r, mts) ∈ C -> keeps' (new_multiappend_round2 kind r).
Proof.
  intros Hl HC. unfold new_multiappend_round2. rewrite Hl. apply all_keeps_bind; [keep|intros _].
  apply keeps_known. keep. by apply keeps_round2_locs.
Qed.
Hint Resolve keeps_round1 : keeps.

Lemma keeps_needs ls : forall b b', keeps' (single_server_needs ls b b').
Proof. induction ls as [|l ls IH]; intros b b'; cbn [single_server_needs]; keep. Qed.
Lemma keeps_fast_locs ls : forall b, keeps' (fast_path_locs b ls).
Proof. induction ls as [|l ls IH]; intros b; cbn [fast_path_locs]; keep. Qed.
Hint Resolve keeps_needs keeps_fast_locs : keeps.
Lemma keeps_fast r st t : keeps' (single_server_single_append_fast_path r st t).
Proof. unfold single_server_single_append_fast_path. keep. Qed.
Lemma keeps_unlock_locs ls : forall b, keeps' (unlock_locs ls b).
Proof. induction ls as [|l ls IH]; intros b; cbn [unlock_locs]; keep. Qed.
Lemma keeps_horizon_locs b tl ls : forall n, keeps' (horizon_locs b tl ls n).
Proof. induction ls as [|l ls IH]; intros n; cbn [horizon_locs]; keep. Qed.
Lemma keeps_emplace_locs b tl ls : keeps' (emplace_locs b tl ls).
Proof. induction ls as [|l ls IH]; cbn [emplace_locs]; keep. Qed.
Hint Resolve keeps_fast keeps_unlock_locs keeps_horizon_locs keeps_emplace_locs : keeps.
Lemma keeps_old kind r st t : keeps' (handle_old_multiappend kind r st t).
Proof. unfold handle_old_multiappend. keep. Qed.

Lemma keeps_snapshot_locs ls : keeps' (snapshot_locs ls).
Proof. induction ls as [|l ls IH]; cbn [snapshot_locs]; keep. Qed.
Lemma keeps_snap_round1_locs id st t ls : (id, st) ∈ B -> keeps' (snap_round1_locs id st t ls).
Proof. intros HB. induction ls as [|l ls IH]; cbn [snap_round1_locs]; keep. Qed.
Hint Resolve keeps_snapshot_locs keeps_snap_round1_locs : keeps.
Lemma keeps_snap_round1 kind r st t : (Packets.id r, st) ∈ B -> keeps' (skeens_snapshot_round1 kind r st t).
Proof. unfold skeens_snapshot_round1. keep. Qed.
Lemma keeps_single_snapshot r t : keeps' (handle_single_server_snapshot r t).
Proof. unfold handle_single_server_snapshot. keep. Qed.
Lemma keeps_for_each_loc f ls : (forall l, keeps' (f l)) -> keeps' (for_each_loc f ls).
Proof. intros Hf. induction ls as [|l ls IH]; cbn [for_each_loc]; keep. Qed.
Lemma keeps_gc r t : keeps' (handle_gc r t).
Proof. unfold handle_gc. apply all_keeps_bind; [keep|]. intros. repeat (apply all_keeps_bind; [apply keeps_for_each_loc; keep|intros _]). keep. Qed.
Lemma keeps_read r t : keeps' (handle_read r t).
Proof. unfold handle_read, first_loc. keep. Qed.
Lemma keeps_append_data o r : keeps' (append_data o r).
Proof. unfold append_data. keep. Qed.
Lemma keeps_write_data o i n : keeps' (write_data o i n).
Proof. unfold write_data. keep. Qed.
Lemma keeps_skeens_single o r ts t : keeps' (handle_skeens_single o r ts t).
Proof. unfold handle_skeens_single. keep. Qed.
Hint Resolve keeps_append_data keeps_write_data keeps_skeens_single : keeps.
Lemma keeps_data r t : keeps' (handle_data r t).
Proof. unfold handle_data, first_loc. keep. Qed.
Hint Resolve keeps_old keeps_snap_round1 keeps_single_snapshot keeps_gc keeps_read keeps_data : keeps.

(** The request that is handled has a timestamp. *)
Lemma round2_locked kind r (s s' : Server) x : new_multiappend_round2 kind r s = Done (s', x) -> exists mts, lock_num r = Done mts.
Proof.
  intros (s1 & ? & _ & E)%bind_M. apply bind_M in E as (s2 & mts & El & _). unfold lift in El.
  apply bind_done in El as (m & El & _). by exists m.
Qed.

End Handlers.

(** ** Requests *)

(** A second round: the client tells the final timestamp. *)
Definition second_round (r : Ref) : bool :=
  match Packets.flag r with
  | Done f => EntryFlag.contains f EntryFlag.TakeLock && EntryFlag.contains f EntryFlag.Unlock
  | Panic => false
  end.

(** A multi-append to chains of one server: the server decides the final timestamp. *)
Definition single_server (r : Ref) : bool :=
  match Packets.flag r, Packets.layout r with
  | Done f, Done (EntryKind.EntryLayout.Multiput | EntryKind.EntryLayout.Sentinel) =>
      negb (EntryFlag.contains f EntryFlag.TakeLock)
  | _, _ => false
  end.

(** What a request decides: nothing, or one final timestamp for its id; in a second round, the
    one it carries. *)
Definition decides (r : Ref) (D : list (Z * Z)) : Prop :=
  D = [] \/ exists mts, D = [(Packets.id r, mts)] /\
    if second_round r then lock_num r = Done mts else single_server r = true.

(** The id and the storage a request comes with. *)
Definition brings (op : Ref * Storage) : list (Z * Z) := match op.2 with TLeft h => [(Packets.id op.1, h)] | _ => [] end.

Section Requests.
Context (B : list (Z * Z)).

Definition op_tracks (r : Ref) (m : M unit) : Prop := forall C h s s',
  tracks C B h s -> m s = Done (s', tt) ->
  exists D h', decides r D /\ (forall o, h o `prefix_of` h' o) /\ tracks (D ++ C) B h' s'.

Lemma op_none r m : (forall C, keeps C B m) -> op_tracks r m.
Proof. intros Hm C h s s' Ht E. destruct (Hm _ _ _ _ _ Ht E) as (h' & P & T'). exists [], h'. split; [by left|done]. Qed.

Lemma op_one r (m : M unit) mts : (if second_round r then lock_num r = Done mts else single_server r = true) ->
  (forall C, (Packets.id r, mts) ∈ C -> keeps C B m) -> op_tracks r m.
Proof.
  intros Hl Hm C h s s' Ht E. destruct (Hm ((Packets.id r, mts) :: C) ltac:(set_solver) s s' tt h) as (h' & P & T').
  - eapply tracks_more; [|done|exact Ht]. set_solver.
  - done.
  - exists [(Packets.id r, mts)], h'. split; [|done]. right. by exists mts.
Qed.

Lemma op_round2 r (kind : Z) (t : T) : second_round r = true ->
  op_tracks r (buffer ← new_multiappend_round2 kind r; send_to_worker (ReturnBuffer buffer t)).
Proof.
  intros Hr C h s s' Ht E. pose proof E as (s1 & b & E1 & _)%bind_M. destruct (round2_locked _ _ _ _ _ E1) as [mts Hl].
  revert Ht E. apply (op_one r _ mts); [by rewrite Hr|]. intros C' HC. apply all_keeps_bind; [by eapply keeps_round2|]. keep.
Qed.

Lemma locked_buffer r r1 r2 v f :
  lock_mut (fun _ => v) r = Done r1 -> flag_mut f r1 = Done r2 -> Packets.id r2 = Packets.id r /\ lock_num r2 = Done v.
Proof. intros H1 H2. destruct r; simplify_eq/=; done. Qed.

Lemma op_bind {X} r (m : M X) (k : X -> M unit) :
  (forall C, keeps C B m) -> (forall x, op_tracks r (k x)) -> op_tracks r (m ≫= k).
Proof.
  intros Hm Hk C h s s' Ht (s1 & x & E1 & E2)%bind_M. destruct (Hm C _ _ _ _ Ht E1) as (h1 & P1 & T1).
  destruct (Hk x C h1 s1 s' T1 E2) as (D & h2 & HD & P2 & T2). exists D, h2. split; [done|]. split; [|done].
  intros o. etrans; [apply P1|apply P2].
Qed.

Lemma op_lift {X} r (o : outcome X) (k : X -> M unit) :
  (forall x, o = Done x -> op_tracks r (k x)) -> op_tracks r (lift o ≫= k).
Proof.
  intros Hk C h s s' Ht (s1 & x & E1 & E2)%bind_M. unfold lift in E1. apply bind_done in E1 as (y & -> & [= <- <-]).
  by eapply Hk.
Qed.

Lemma op_local_skeens r kind storage t : (Packets.id r, storage) ∈ B -> second_round r = false -> single_server r = true ->
  op_tracks r (single_server_local_skeens kind r storage t).
Proof.
  intros HB Hr Hs. unfold single_server_local_skeens. apply op_bind; [intros; by apply keeps_round1|intros _].
  apply op_bind; [keep|intros m]. apply op_bind; [keep|intros _]. apply op_lift. intros mts _.
  apply op_lift. intros r1 H1. apply op_lift. intros r2 H2. destruct (locked_buffer _ _ _ _ _ H1 H2) as [Hid Hl].
  apply (op_one r _ mts); [by rewrite Hr|]. intros C HC. rewrite <- Hid in HC.
  apply all_keeps_bind; [by eapply keeps_round2|]. keep.
Qed.

Lemma op_single_server r kind storage t : brings (r, storage) ⊆ B -> second_round r = false -> single_server r = true ->
  op_tracks r (handle_single_server_append kind r storage t).
Proof.
  intros HB Hr Hs. unfold handle_single_server_append. apply op_lift. intros ls _.
  apply op_bind; [intros; apply keeps_needs|intros [nl ns]]. apply op_lift. intros _ _. apply op_lift. intros st Est.
  destruct (_ && _); [apply op_none; intros; apply keeps_fast|]. apply op_local_skeens; [|done|done]. destruct storage; try done. injection Est as ->. set_solver.
Qed.

(** Every request of a client. *)
Lemma op_handle r storage t : brings (r, storage) ⊆ B -> op_tracks r (handle_op r storage t).
Proof.
  intros HB. unfold handle_op. apply op_lift. intros f Hf. apply op_lift. intros l Hl.
  assert (Hsec : second_round r = EntryFlag.contains f EntryFlag.TakeLock && EntryFlag.contains f EntryFlag.Unlock).
  { unfold second_round. by rewrite Hf. }
  pose proof keeps_old. pose proof keeps_read. pose proof keeps_data. pose proof keeps_gc. pose proof keeps_single_snapshot.
  assert (Hmulti : l = EntryKind.EntryLayout.Multiput \/ l = EntryKind.EntryLayout.Sentinel ->
    op_tracks r (handle_multiappend f r storage t)).
  { intros Hl'. unfold handle_multiappend. destruct (EntryFlag.contains f EntryFlag.DirectWrite); [by apply op_none; intros; apply keeps_panic|].
    destruct (EntryFlag.contains f EntryFlag.TakeLock) eqn:Etl; simpl.
    2: { apply op_single_server; [done|done|]. unfold single_server, Packets.layout. rewrite Hf, Hl, Etl. by destruct Hl' as [->| ->]. }
    destruct (EntryFlag.contains f EntryFlag.NewMultiPut); [|by apply op_none; auto].
    unfold handle_new_multiappend. apply op_lift. intros _ _.
    destruct (EntryFlag.contains f EntryFlag.Unlock); [by apply op_round2|].
    apply op_none. intros C. apply all_keeps_bind_left. intros h ->. apply all_keeps_bind; [apply keeps_round1; set_solver|]. keep. }
  destruct l; try done; try (by apply op_none; auto); try (apply Hmulti; auto).
  unfold handle_snapshot. destruct (EntryFlag.contains f EntryFlag.TakeLock); simpl; [|by apply op_none; auto].
  apply op_lift. intros _ _. unfold handle_skeens_snapshot. apply op_lift. intros _ _.
  destruct (EntryFlag.contains f EntryFlag.Unlock); [by apply op_round2|].
  apply op_none. intros C. apply all_keeps_bind_left. intros h ->. apply all_keeps_bind; [apply keeps_snap_round1; set_solver|]. keep.
Qed.
End Requests.

(** ** Servers that have handled requests

    Between two requests other threads change what they share with the ordering thread, the
    contents of the tries and the storages, but neither the Skeens states nor its messages. *)
Inductive srv_ran : Server -> list (Ref * Storage) -> Prop :=
| ran_new n total s : server_new n total = Done s -> srv_ran s []
| ran_shared s s' ops : srv_ran s ops -> same s s' -> srv_ran s' ops
| ran_op s r storage t s' ops : srv_ran s ops -> handle_op r storage t s = Done (s', tt) -> srv_ran s' (ops ++ [(r, storage)]).

(** Such a server has histories: every final timestamp in them was decided by a request, and every
    multi-append in them came with one. *)
Lemma srv_ran_history s ops : srv_ran s ops -> exists Ds h, Forall2 decides ops.*1 Ds /\ tracks (mjoin Ds) (ops ≫= brings) h s.
Proof.
  induction 1 as [n total s E|s s' ops _ (Ds & h & HD & Ht) [K W]|s r storage t s' ops _ (Ds & h & HD & Ht) E].
  - exists [], (fun _ => []). split; [constructor|]. unfold server_new in E. apply bind_done in E as ([] & _ & [= <-]).
    intros o. split; [|split; [|split; constructor]].
    + exists [], []. unfold cur_skeens. simpl. rewrite lookup_empty. split_and!; [apply inv_new|apply quiescent_new|done].
    + unfold cur_skeens. simpl. rewrite lookup_empty. apply knows_new.
  - exists Ds, h. split; [done|]. intros o. rewrite K, W. apply Ht.
  - rewrite bind_app, fmap_app. simpl. rewrite app_nil_r. set (B := (ops ≫= brings) ++ brings (r, storage)).
    assert (HB : brings (r, storage) ⊆ B) by set_solver.
    assert (Ht0 : tracks (mjoin Ds) B h s) by (eapply tracks_more; [done| |exact Ht]; set_solver).
    destruct (op_handle B r storage t HB _ _ _ _ Ht0 E) as (D & h' & HD' & _ & Ht'). exists (Ds ++ [D]), h'. split.
    + apply Forall2_app; [done|]. constructor; [done|constructor].
    + apply (tracks_more (D ++ mjoin Ds) _ B B); [|done|exact Ht']. rewrite join_app. simpl. rewrite app_nil_r. set_solver.
Qed.

End History.
