(* ===== verification/Cluster.v ===== *)
(** * Clients and servers together

    Several servers, each with its ordering thread, and several clients, each with its store.
    The clients do their half of Skeens' algorithm ([ClientSkeens]), the servers theirs
    ([OrderingHistory]); together they give what the log promises: multi-appends that two chains
    have in common are in the same order in both, wherever the chains are. *)

From stdpp Require Import base gmap sets list sorting.
From Stdlib Require Import ZArith Lia.
From S2P Require Import Prelude PacketCodec Packets ClientStore ClientSkeens.
From S2P Require Import Skeens SkeensInv SkeensOrder Trie ByteTrie OrderingThread OrderingInv OrderingSafety OrderingHistory.
Open Scope Z_scope.
#[local] Existing Instance dev.

(** ** Lists *)

(** A choice for every element of a list. *)
Lemma list_choice {X Y} `{Inhabited Y} (P : nat -> X -> Y -> Prop) (l : list X) :
  (forall a x, l !! a = Some x -> exists y, P a x y) -> exists f, forall a x, l !! a = Some x -> P a x (f a).
Proof.
  revert P. induction l as [|x l IH]; intros P Hl.
  - exists (fun _ => inhabitant). intros a x Ha. by rewrite lookup_nil in Ha.
  - destruct (Hl 0%nat x eq_refl) as [y Hy]. destruct (IH (fun a => P (S a)) (fun a => Hl (S a))) as [f Hf].
    exists (fun a => match a with O => y | S a => f a end). intros [|a] x' Ha; [by injection Ha as <-|by apply Hf].
Qed.

(** Two elements of a filtered list, in the list. *)
Lemma filter_split {X} (f : X -> bool) (l : list X) : forall i j x y, (i < j)%nat ->
  filter (fun x => f x = true) l !! i = Some x -> filter (fun x => f x = true) l !! j = Some y ->
  exists l1 l2 l3, l = l1 ++ x :: l2 ++ y :: l3.
Proof.
  assert (Hone : forall (l : list X) j y, filter (fun x => f x = true) l !! j = Some y -> exists l2 l3, l = l2 ++ y :: l3).
  { intros l0 j y Hj. apply list_elem_of_lookup_2, list_elem_of_filter in Hj as [_ Hy]. by apply list_elem_of_split. }
  induction l as [|z l IH]; intros i j x y Hij Hx Hy; [done|].
  destruct (decide (f z = true)) as [Hz|Hz].
  - rewrite filter_cons_True in Hx, Hy by done. destruct j as [|j]; [lia|]. destruct i as [|i].
    + injection Hx as <-. destruct (Hone _ _ _ Hy) as (l2 & l3 & ->). by exists [], l2, l3.
    + destruct (IH i j x y ltac:(lia) Hx Hy) as (l1 & l2 & l3 & ->). by exists (z :: l1), l2, l3.
  - rewrite filter_cons_False in Hx, Hy by done. destruct (IH i j x y Hij Hx Hy) as (l1 & l2 & l3 & ->).
    by exists (z :: l1), l2, l3.
Qed.

(** ** The client's half *)

Lemma client_agrees n u evs s x token token' p p' :
  well_behaved evs -> ClientStore.run evs (ClientStore.build n u) = Done (s, x) ->
  (token, p) ∈ sent s -> is_unlock p -> (token', p') ∈ sent s -> is_unlock p' -> Packets.id p = Packets.id p' ->
  lock_num p = lock_num p'.
Proof.
  intros WB Hrun Hp Hu Hp' Hu' E.
  pose proof (store_run_inv n u evs WB [] evs (ClientStore.build n u) _ _ eq_refl (store_build_inv n u evs) Hrun) as HI.
  destruct (iv_sent _ _ _ _ _ _ HI token p Hp Hu) as (_ & m & Hl & _).
  destruct (iv_sent _ _ _ _ _ _ HI token' p' Hp' Hu') as (_ & m' & Hl' & _). rewrite Hl, Hl'. f_equal.
  eapply (iv_agree _ _ _ _ _ _ HI (Packets.id p)); [by exists token, p|by exists token', p'].
Qed.

(** ** The cluster *)

Section Cluster.
Context {T A : Type} `{ByteTrie A, !ByteTrieView A, !ByteTrieLaws A}.
Abbreviation Server := (ServerLog T A).
Abbreviation Got := (GotMax Z T Z Z).

(** A client: what its store was sent, and where that led. *)
Definition client_ran (evs : list ClientStore.Event) (s : StoreInner) : Prop :=
  exists n u, well_behaved evs /\ ClientStore.run evs (ClientStore.build n u) = Done (s, tt).

Record cluster (clients : list (list ClientStore.Event * StoreInner)) (servers : list (Server * list (Ref * Storage))) : Prop := {
  (* clients and servers run *)
  c_clients : forall c evs st, clients !! c = Some (evs, st) -> client_ran evs st;
  c_servers : forall a s ops, servers !! a = Some (s, ops) -> srv_ran s ops;
  (* a second round is one that a client has sent, and clients use different ids *)
  c_sent : forall a s ops r, servers !! a = Some (s, ops) -> r ∈ ops.*1 -> second_round r = true ->
    exists c evs st token, clients !! c = Some (evs, st) /\ (token, r) ∈ sent st;
  c_ids : forall c c' evs st evs' st' token token' p p',
    clients !! c = Some (evs, st) -> clients !! c' = Some (evs', st') ->
    (token, p) ∈ sent st -> is_unlock p -> (token', p') ∈ sent st' -> is_unlock p' -> Packets.id p = Packets.id p' -> c = c';
  (* a multi-append to one server is sent once, under an id of its own *)
  c_single : forall a s ops i r a' s' ops' i' r',
    servers !! a = Some (s, ops) -> ops.*1 !! i = Some r -> single_server r = true ->
    servers !! a' = Some (s', ops') -> ops'.*1 !! i' = Some r' -> single_server r' || second_round r' = true ->
    Packets.id r = Packets.id r' -> a = a' /\ i = i';
  (* requests with different ids come with different storages: a worker makes one for each *)
  c_storage : forall a s ops r r' h, servers !! a = Some (s, ops) -> (r, TLeft h) ∈ ops -> (r', TLeft h) ∈ ops ->
    Packets.id r = Packets.id r';
}.

Context (clients : list (list ClientStore.Event * StoreInner)) (servers : list (Server * list (Ref * Storage))).
Context (HC : cluster clients servers).

Lemma second_unlock r : second_round r = true -> is_unlock r.
Proof.
  unfold second_round. destruct (flag r) as [f|] eqn:Ef; [|done]. intros [_ Hu]%andb_true_iff. by exists f.
Qed.

(** Second rounds with one id carry one timestamp. *)
Lemma second_rounds_agree a s ops r a' s' ops' r' :
  servers !! a = Some (s, ops) -> r ∈ ops.*1 -> second_round r = true ->
  servers !! a' = Some (s', ops') -> r' ∈ ops'.*1 -> second_round r' = true ->
  Packets.id r = Packets.id r' -> lock_num r = lock_num r'.
Proof.
  intros Ha Hr Hs Ha' Hr' Hs' E.
  destruct (c_sent _ _ HC _ _ _ _ Ha Hr Hs) as (c & evs & st & token & Hc & Hin).
  destruct (c_sent _ _ HC _ _ _ _ Ha' Hr' Hs') as (c' & evs' & st' & token' & Hc' & Hin').
  pose proof (second_unlock _ Hs). pose proof (second_unlock _ Hs').
  assert (c = c') as <- by (by eapply (c_ids _ _ HC c c')). rewrite Hc in Hc'. injection Hc' as <- <-.
  destruct (c_clients _ _ HC _ _ _ Hc) as (n & u & WB & Hrun). by eapply client_agrees.
Qed.

(** A final timestamp, and the request that decided it. *)
Lemma decided_by rs (Ds : list (list (Z * Z))) id t : Forall2 decides rs Ds -> (id, t) ∈ mjoin Ds ->
  exists i r, rs !! i = Some r /\ Ds !! i = Some [(id, t)] /\ Packets.id r = id /\
    (if second_round r then lock_num r = Done t else single_server r = true).
Proof.
  intros HD (D & Hin & HD0)%list_elem_of_join. apply list_elem_of_lookup in HD0 as [i Hi].
  destruct (Forall2_lookup_r _ _ _ _ _ HD Hi) as (r & Hr & [->|(mts & -> & Hd)]); [set_solver|].
  apply list_elem_of_singleton in Hin as [= -> ->]. by exists i, r.
Qed.

Lemma one_decision a s ops Ds a' s' ops' Ds' id t t' :
  servers !! a = Some (s, ops) -> Forall2 decides ops.*1 Ds -> servers !! a' = Some (s', ops') -> Forall2 decides ops'.*1 Ds' ->
  (a = a' -> Ds = Ds') -> (id, t) ∈ mjoin Ds -> (id, t') ∈ mjoin Ds' -> t = t'.
Proof.
  intros Ha HD Ha' HD' Hsame Ht Ht'. destruct (decided_by _ _ _ _ HD Ht) as (i & r & Hi & Di & Hid & Hr).
  destruct (decided_by _ _ _ _ HD' Ht') as (i' & r' & Hi' & Di' & Hid' & Hr').
  assert (Hkind : single_server r' || second_round r' = true).
  { destruct (second_round r'); [by rewrite orb_true_r|by rewrite Hr']. }
  destruct (second_round r) eqn:Hs; [destruct (second_round r') eqn:Hs'|].
  - enough (Done t = Done t') as [= ->] by done. rewrite <- Hr, <- Hr'.
    eapply (second_rounds_agree a s ops r a' s' ops' r'); try done; [by eapply list_elem_of_lookup_2..|congruence].
  - destruct (c_single _ _ HC a' s' ops' i' r' a s ops i r) as [-> ->]; try done.
    + by rewrite Hs, orb_true_r.
    + congruence.
    + rewrite Hsame, Di' in Di by done. by injection Di as ->.
  - destruct (c_single _ _ HC a s ops i r a' s' ops' i' r') as [-> ->]; try done.
    + congruence.
    + rewrite Hsame, Di' in Di by done. by injection Di as ->.
Qed.

(** Deliveries that come later have later places. *)
Lemma places_follow (s : Server) o i j m m' p q : srv_reach s -> (i < j)%nat ->
  deliveries o (to_workers s) !! i = Some m -> deliveries o (to_workers s) !! j = Some m' ->
  placed o m = [p] -> placed o m' = [q] -> p < q.
Proof.
  intros HI%srv_reach_inv Hij Hm Hm' Hp Hq. pose proof (si_sorted _ _ _ HI o) as Hs. unfold none in Hs.
  destruct (filter_split _ _ _ _ _ _ Hij Hm Hm') as (l1 & l2 & l3 & El). rewrite El, app_nil_r in Hs.
  unfold positions in Hs. rewrite flat_map_app in Hs. simpl in Hs. rewrite flat_map_app, Hp in Hs. simpl in Hs.
  rewrite Hq in Hs. apply StronglySorted_app_iff in Hs as (_ & Hs & _). apply StronglySorted_inv in Hs as [_ Hs].
  rewrite Forall_forall in Hs. apply Hs. set_solver.
Qed.

(** The storage of the multi-append or snapshot a message delivers. *)
Definition storage_of (m : ToWorker T) : option Z :=
  match m with SkeensFinished _ _ h _ _ | SnapSkeensFinished _ h _ _ => Some h | _ => None end.

(** [m] delivers the multi-append or snapshot [id]: the server got the storage with a request for it. *)
Definition about (ops : list (Ref * Storage)) (id : Z) (m : ToWorker T) : Prop :=
  exists r h, (r, TLeft h) ∈ ops /\ Packets.id r = id /\ storage_of m = Some h.

Lemma elem_brings ops id h : (id, h) ∈ ops ≫= brings -> exists r, (r, TLeft h) ∈ ops /\ Packets.id r = id.
Proof.
  intros ([r st] & Hin & Hop)%list_elem_of_bind. unfold brings in Hin. cbn in Hin.
  destruct st; try (by apply elem_of_nil in Hin). apply list_elem_of_singleton in Hin as [= -> ->]. by exists r.
Qed.

Lemma msg_storage o g m h : msg_of o g m -> storage_of m = Some h <-> g_about g = Some (g_get_id g, h).
Proof.
  destruct g; cbn; [intros (i & p & ->)|intros (i & ->)|intros (i & ->)|intros (i & p & ->)|intros (i & p & ->)]; cbn; split; intros E; simplify_eq; done.
Qed.

(** What a message delivers, in the history. *)
Lemma about_history a s ops C h o i m id : servers !! a = Some (s, ops) -> tracks C (ops ≫= brings) h s ->
  deliveries o (to_workers s) !! i = Some m -> about ops id m ->
  exists g, h o !! i = Some g /\ Skeens.is_multi g = true /\ g_get_id g = id.
Proof.
  intros Ha Ht Hm (r & x & Hr & <- & Hx). destruct (Ht o) as (_ & _ & HF & H2). destruct (Forall2_lookup_r _ _ _ _ _ H2 Hm) as (g & Hg & Hmsg).
  apply (msg_storage _ _ _ _ Hmsg) in Hx. pose proof (Forall_lookup_1 _ _ _ _ HF Hg) as Hk. cbn beta in Hk. rewrite Hx in Hk.
  destruct (elem_brings _ _ _ Hk) as (r' & Hr' & Hid). exists g. split; [done|]. split; [by destruct g|]. rewrite <- Hid. by eapply c_storage.
Qed.

(** C1.  Multi-appends are in one order in the whole log.  Whatever requests the servers of a
    cluster have handled, as long as the second rounds among them are those the clients' stores
    sent, and requests come with storages of their own: every message by which a chain of a server
    delivers a multi-append or a snapshot through the Skeens state (those that need no rounds are
    delivered at once, by other messages) is about exactly one id, that of the request whose storage
    it names; and any two multi-appends or snapshots that two chains have in common, on the same or on
    different servers, are delivered in the same order in both, and get places in the same order. *)
Theorem multi_appends_ordered :
  (forall a s ops o m h, servers !! a = Some (s, ops) -> m ∈ deliveries o (to_workers s) -> storage_of m = Some h ->
     exists id, about ops id m /\ forall id', about ops id' m -> id' = id) /\
  forall a s ops a' s' ops' o o' i j i' j' m n m' n' id id',
    servers !! a = Some (s, ops) -> servers !! a' = Some (s', ops') ->
    deliveries o (to_workers s) !! i = Some m -> deliveries o (to_workers s) !! j = Some n ->
    deliveries o' (to_workers s') !! i' = Some m' -> deliveries o' (to_workers s') !! j' = Some n' ->
    about ops id m -> about ops id' n -> about ops' id m' -> about ops' id' n' ->
    ((i < j)%nat -> (i' < j')%nat) /\
    (srv_reach s -> srv_reach s' -> forall p q p' q', placed o m = [p] -> placed o n = [q] -> placed o' m' = [p'] -> placed o' n' = [q'] ->
       p < q -> p' < q').
Proof.
  assert (Hall : exists f : nat -> list (list (Z * Z)) * (Z -> list Got), forall a x, servers !! a = Some x ->
    Forall2 decides x.2.*1 (f a).1 /\ tracks (mjoin (f a).1) (x.2 ≫= brings) (f a).2 x.1).
  { apply (list_choice (fun _ x y => Forall2 decides x.2.*1 y.1 /\ tracks (mjoin y.1) (x.2 ≫= brings) y.2 x.1)).
    intros a [s ops] Ha. destruct (srv_ran_history s ops) as (Ds & h & HD & Ht); [by eapply c_servers|]. by exists (Ds, h). }
  destruct Hall as [f Hf]. split.
  { intros a s ops o m x Ha Hm Hx. destruct (Hf _ _ Ha) as [_ Ht]. destruct (Ht o) as (_ & _ & HF & H2). cbn in HF, H2.
    apply list_elem_of_lookup in Hm as [i Hi]. destruct (Forall2_lookup_r _ _ _ _ _ H2 Hi) as (g & Hg & Hmsg).
    pose proof (proj1 (msg_storage _ _ _ _ Hmsg) Hx) as Hgx. pose proof (Forall_lookup_1 _ _ _ _ HF Hg) as Hk. cbn beta in Hk. rewrite Hgx in Hk.
    destruct (elem_brings _ _ _ Hk) as (r & Hr & Hid). exists (g_get_id g). split; [by exists r, x|].
    intros id' (r' & x' & Hr' & <- & Hx'). rewrite Hx in Hx'. injection Hx' as <-. rewrite <- Hid. by eapply c_storage. }
  intros a s ops a' s' ops' o o' i j i' j' m n m' n' id id' Ha Ha' Hm Hn Hm' Hn' Am An Am' An'.
  destruct (Hf _ _ Ha) as [HD Ht], (Hf _ _ Ha') as [HD' Ht']. simpl in *.
  destruct (about_history _ _ _ _ _ _ _ _ _ Ha Ht Hm Am) as (x & Hx & Mx & Ix), (about_history _ _ _ _ _ _ _ _ _ Ha Ht Hn An) as (y & Hy & My & Iy).
  destruct (about_history _ _ _ _ _ _ _ _ _ Ha' Ht' Hm' Am') as (x' & Hx' & Mx' & Ix'), (about_history _ _ _ _ _ _ _ _ _ Ha' Ht' Hn' An') as (y' & Hy' & My' & Iy').
  assert (Horder : (i < j)%nat -> (i' < j')%nat).
  { destruct (Ht o) as [(qs & calls & HI & _ & Hc) _], (Ht' o') as [(qs' & calls' & HI' & _ & Hc') _].
    eapply (inv_agree _ _ _ _ _ _ _ _ i j i' j' x y x' y' HI HI'); try done; [|by repeat constructor|congruence|congruence].
    assert (Hin : forall id t, (id, t) ∈ calls ++ calls' -> exists b sb opsb, (b = a \/ b = a') /\
      servers !! b = Some (sb, opsb) /\ (id, t) ∈ mjoin (f b).1).
    { intros id0 t [Hin|Hin]%elem_of_app; [exists a, s, ops|exists a', s', ops']; split_and!; auto. }
    intros id0 t t' (b & sb & opsb & _ & Hb & Hin1)%Hin (b' & sb' & opsb' & _ & Hb' & Hin2)%Hin.
    destruct (Hf _ _ Hb) as [Hd _], (Hf _ _ Hb') as [Hd' _].
    eapply (one_decision b sb opsb _ b' sb' opsb'); try done. by intros ->. }
  split; [done|]. intros Hr Hr' p q p' q' Hp Hq Hp' Hq' Hlt. eapply (places_follow s' o' i' j'); try done. apply Horder.
  destruct (Nat.lt_trichotomy i j) as [?|[->|Hgt]]; [done|exfalso..].
  - rewrite Hm in Hn. injection Hn as <-. rewrite Hp in Hq. injection Hq as <-. lia.
  - pose proof (places_follow s o j i n m q p Hr Hgt Hn Hm Hq Hp). lia.
Qed.

End Cluster.

(** ** A run, evaluated: two clients append to chains 1 and 2, which are on two servers that hear
    of the two appends in opposite orders *)

Module Demo.

Definition both (a b : Z) : list OrderIndex := [mkOI 1 a; mkOI 2 b].
Definition request (id : Z) : Ref := Multi id EntryFlag.Nothing 0 (both 0 0) [] [id].

(** The first round, what the servers answer, and the second round. *)
Definition round1 (id : Z) : Ref := Multi id 10 0 (both 0 0) [] [id].
Definition answer (id a b : Z) : Ref := Multi id ClientSkeens.Demo.queued 0 (both a b) [] [id].
Definition round2 (id ts : Z) : Ref := Senti id 26 1 ts (both 0 0) [].

(** A client, whose append gets the timestamp [a] in chain 1 and [b] in chain 2. *)
Definition client_events (id a b : Z) : list ClientStore.Event :=
  [Request (Some (request id)); Receive 1 (answer id a 0); Receive 0 (answer id 0 b); AfterWork].
Definition client_after (id a b : Z) : StoreInner :=
  match ClientStore.run (client_events id a b) (ClientStore.build 2 true) with
  | Done (s, _) => s
  | Panic => ClientStore.build 2 true
  end.
Definition clients : list (list ClientStore.Event * StoreInner) :=
  [(client_events 5 1 2, client_after 5 1 2); (client_events 6 2 1, client_after 6 2 1)].

Abbreviation Server := (ServerLog unit Alloc).

Fixpoint handle_ops (ops : list (Ref * Storage)) (s : Server) : outcome Server :=
  match ops with [] => Done s | (r, st) :: ops => '(s, _) ← handle_op r st tt s; handle_ops ops s end.

Lemma handle_ops_ran ops : forall (s s' : Server) rs, srv_ran s rs -> handle_ops ops s = Done s' -> srv_ran s' (rs ++ ops).
Proof.
  induction ops as [|[r st] ops IH]; intros s s' rs Hs E; simpl in E.
  - injection E as <-. by rewrite app_nil_r.
  - apply bind_done in E as ([s1 []] & E1 & E). simpl. rewrite cons_middle, (assoc_L (++)).
    eapply IH; [|exact E]. by eapply ran_op.
Qed.

Definition server_start (n : Z) : Server :=
  with_storages {[1 := storage_new 2 100 None; 2 := storage_new 2 100 None]} (mkServer ∅ 2 n [] ∅).
Definition server_after (n : Z) (ops : list (Ref * Storage)) : Server :=
  match handle_ops ops (server_start n) with Done s => s | Panic => server_start n end.

(** Server 0 has chain 2, server 1 has chain 1. *)
Definition ops0 : list (Ref * Storage) :=
  [(round1 6, TLeft 2); (round1 5, TLeft 1); (round2 5 2, TNone); (round2 6 2, TNone)].
Definition ops1 : list (Ref * Storage) :=
  [(round1 5, TLeft 1); (round1 6, TLeft 2); (round2 6 2, TNone); (round2 5 2, TNone)].
Definition servers : list (Server * list (Ref * Storage)) := [(server_after 0 ops0, ops0); (server_after 1 ops1, ops1)].

Lemma start_ran n : (n <=? 2) = true -> srv_ran (server_start n) [].
Proof.
  intros Hn. eapply ran_shared; [by eapply (ran_new n 2 (mkServer ∅ 2 n [] ∅)); unfold server_new; rewrite Hn|]. done.
Qed.

Lemma client_run id a b s : ClientStore.run (client_events id a b) (ClientStore.build 2 true) = Done (s, tt) ->
  well_behavedb (client_events id a b) = true -> client_ran (client_events id a b) s.
Proof. intros Hr Hw. exists 2%positive, true. split; [by apply well_behavedb_spec|done]. Qed.

(** Everything a client has sent is about its own append. *)
Lemma sent_ids id a b token p : forallb (fun tp => Packets.id tp.2 =? id) (sent (client_after id a b)) = true ->
  (token, p) ∈ sent (client_after id a b) -> Packets.id p = id.
Proof. rewrite forallb_forall. intros Hall Hp%list_elem_of_In. by apply Z.eqb_eq, (Hall _ Hp). Qed.

Lemma two_lookup {X Y} (x x1 x2 : X) (y y1 y2 : Y) a : [(x1, y1); (x2, y2)] !! a = Some (x, y) ->
  (a = 0%nat /\ x = x1 /\ y = y1) \/ (a = 1%nat /\ x = x2 /\ y = y2).
Proof. destruct a as [|[|a]]; [intros [= <- <-]; by left|intros [= <- <-]; by right|done]. Qed.

Definition apart (ops : list (Ref * Storage)) : bool :=
  forallb (fun x => forallb (fun y => match x.2, y.2 with TLeft h, TLeft h' => negb (h =? h') || (Packets.id x.1 =? Packets.id y.1) | _, _ => true end) ops) ops.

Lemma storages_apart ops r r' h : apart ops = true -> (r, TLeft h) ∈ ops -> (r', TLeft h) ∈ ops -> Packets.id r = Packets.id r'.
Proof.
  intros Ha Hr%list_elem_of_In Hr'%list_elem_of_In. unfold apart in Ha. rewrite forallb_forall in Ha. pose proof (Ha _ Hr) as Hb.
  rewrite forallb_forall in Hb. pose proof (Hb _ Hr') as Hc. cbn in Hc. rewrite Z.eqb_refl in Hc. by apply Z.eqb_eq.
Qed.

Lemma cluster_runs : cluster clients servers.
Proof.
  assert (Hno : forall (a : nat) s rs (i : nat) r, servers !! a = Some (s, rs) -> rs.*1 !! i = Some r -> single_server r = false).
  { intros a s rs i r Ha Hi. apply list_elem_of_lookup_2 in Hi. apply two_lookup in Ha as [(-> & -> & ->)|(-> & -> & ->)];
      repeat (apply elem_of_cons in Hi as [->|Hi]; [vm_compute; reflexivity|]); by apply elem_of_nil in Hi. }
  assert (Hids : forall c evs st, clients !! c = Some (evs, st) -> forall token p, (token, p) ∈ sent st ->
    Packets.id p = 5 + Z.of_nat c).
  { intros c evs st Hc token p Hp. apply two_lookup in Hc as [(-> & -> & ->)|(-> & -> & ->)];
      (eapply sent_ids; [|exact Hp]); vm_compute; reflexivity. }
  split.
  - intros c evs st Hc. apply two_lookup in Hc as [(-> & -> & ->)|(-> & -> & ->)]; apply client_run; vm_compute; reflexivity.
  - intros a s rs Ha. apply two_lookup in Ha as [(-> & -> & ->)|(-> & -> & ->)];
      [apply (handle_ops_ran ops0 (server_start 0) _ [] (start_ran 0 eq_refl))
      |apply (handle_ops_ran ops1 (server_start 1) _ [] (start_ran 1 eq_refl))]; vm_compute; reflexivity.
  - intros a s rs r Ha Hr Hs. assert (Hin : r = round2 5 2 \/ r = round2 6 2).
    { apply two_lookup in Ha as [(-> & -> & ->)|(-> & -> & ->)];
        repeat (apply elem_of_cons in Hr as [->|Hr]; [first [by vm_compute in Hs|by left|by right]|]); by apply elem_of_nil in Hr. }
    destruct Hin as [->| ->]; [exists 0%nat|exists 1%nat]; eexists _, _, 0; (split; [reflexivity|]);
      apply list_elem_of_In; vm_compute; tauto.
  - intros c c' evs st evs' st' token token' p p' Hc Hc' Hp _ Hp' _ E.
    rewrite (Hids _ _ _ Hc _ _ Hp), (Hids _ _ _ Hc' _ _ Hp') in E. lia.
  - intros a s rs i r a' s' rs' i' r' Ha Hi Hr. by rewrite (Hno _ _ _ _ _ Ha Hi) in Hr.
  - intros a s rs r r' h Ha Hr Hr'. apply two_lookup in Ha as [(-> & -> & ->)|(-> & -> & ->)];
      (eapply storages_apart; [|exact Hr|exact Hr']); vm_compute; reflexivity.
Qed.

(** Both servers deliver append 5 (storage 1) before append 6 (storage 2). *)
Lemma multi_appends_ordered_witness :
  (forall o m h, m ∈ deliveries o (to_workers (server_after 0 ops0)) -> storage_of m = Some h ->
     exists id, about ops0 id m /\ forall id', about ops0 id' m -> id' = id) /\
  deliveries 2 (to_workers (server_after 0 ops0)) =
    [SkeensFinished (mkOI 2 1) (Some (2, (7, 1))) 1 2 tt; SkeensFinished (mkOI 2 2) (Some (2, (7, 2))) 2 2 tt] /\
  deliveries 1 (to_workers (server_after 1 ops1)) =
    [SkeensFinished (mkOI 1 1) (Some (1, (7, 1))) 1 2 tt; SkeensFinished (mkOI 1 2) (Some (1, (7, 2))) 2 2 tt].
Proof.
  split; [|split; vm_compute; reflexivity].
  intros o m h. exact (proj1 (multi_appends_ordered clients servers cluster_runs) 0%nat _ _ o m h eq_refl).
Defined.

End Demo.
