(* ===== verification/Replicator.v ===== *)
(** * The replicator of whole logs ([fuzzy_log_client/src/replicator.rs])

    The replicator reads the chains of one log, the _remote_ one, and writes every entry to the
    same places of another, the _local_ one.  It owns a client log for each ([ClientLog]); what
    the remote log reads and what the local log has written arrive in one channel.  An entry is
    written when what it depends on has been: until then it is kept in [blocked], in a shared
    node ([Rc]) under every place it waits for.

    [Inner] is the state with the contents of the channels to the two logs; methods are functions
    in the monad [R].  The nodes live in a store with their reference counts, as in [ClientLog].
    A buffer is modelled by the packet in it, the empty buffer by [None].  The two logs composed
    with the replicator are in [ReplicatorSafety]. *)

From stdpp Require Import base gmap sets list.
From Stdlib Require Import ZArith Lia.
From S2P Require Import Prelude PacketCodec Packets ClientLog ClientStore.
Open Scope Z_scope.

(** ** What the logs send ([Response] in [fuzzy_log/mod.rs]) *)

Inductive Response :=
| RespRead (message : option Ref)
| RespWrote (id : Z) (locs : list OrderIndex)
| RespErr (e : Error).

(** [OnRead for mpsc::Sender<Response>] *)
Definition on_read (r : Returned) : Response :=
  match r with
  | RetEntry val => RespRead (Some val)
  | RetSnapshot msg => RespRead (Some msg)
  | RetDone => RespRead None
  | RetErr e => RespErr e
  end.

(** [OnWrote for mpsc::Sender<Response>] *)
Definition on_wrote (w : Wrote) : Response :=
  match w with WroteOk id locs => RespWrote id locs | WroteErr e => RespErr e end.

(** ** The state *)

Record Inner := mkInner {
  to_remote_log : list FromClient;
  horizon : gmap Z Z;
  blocked : gmap (Z * Z) (list nat);
  num_snapshots : Z;
  to_local_log : list FromClient;        (* of the [Appender] *)
  outstanding_appends : Z;               (* of the [Appender] *)
  nodes : gmap nat (Z * Ref);            (* the live [Rc]s: reference count and value *)
  next_node : nat;
  remote_gone : bool;                    (* the thread of the log has ended *)
  local_gone : bool;
}.

Definition set_to_remote v s := mkInner v (horizon s) (blocked s) (num_snapshots s) (to_local_log s) (outstanding_appends s) (nodes s) (next_node s) (remote_gone s) (local_gone s).
Definition set_horizon v s := mkInner (to_remote_log s) v (blocked s) (num_snapshots s) (to_local_log s) (outstanding_appends s) (nodes s) (next_node s) (remote_gone s) (local_gone s).
Definition set_blocked v s := mkInner (to_remote_log s) (horizon s) v (num_snapshots s) (to_local_log s) (outstanding_appends s) (nodes s) (next_node s) (remote_gone s) (local_gone s).
Definition set_snapshots v s := mkInner (to_remote_log s) (horizon s) (blocked s) v (to_local_log s) (outstanding_appends s) (nodes s) (next_node s) (remote_gone s) (local_gone s).
Definition set_to_local v s := mkInner (to_remote_log s) (horizon s) (blocked s) (num_snapshots s) v (outstanding_appends s) (nodes s) (next_node s) (remote_gone s) (local_gone s).
Definition set_outstanding v s := mkInner (to_remote_log s) (horizon s) (blocked s) (num_snapshots s) (to_local_log s) v (nodes s) (next_node s) (remote_gone s) (local_gone s).
Definition set_nodes m n s := mkInner (to_remote_log s) (horizon s) (blocked s) (num_snapshots s) (to_local_log s) (outstanding_appends s) m n (remote_gone s) (local_gone s).
Definition set_threads r l s := mkInner (to_remote_log s) (horizon s) (blocked s) (num_snapshots s) (to_local_log s) (outstanding_appends s) (nodes s) (next_node s) r l.

(** ** The monad *)

Definition R (X : Type) : Type := Inner -> outcome (Inner * X).
#[export] Instance R_ret : MRet R := fun X x s => Done (s, x).
#[export] Instance R_bind : MBind R := fun X Y k m s =>
  match m s with Done (s', x) => k x s' | Panic => Panic end.

Definition pure {X} (o : outcome X) : R X := fun s => x ← o; Done (s, x).
Definition get {X} (f : Inner -> X) : R X := fun s => Done (s, f s).
Definition modify (f : Inner -> Inner) : R unit := fun s => Done (f s, tt).

Fixpoint for_each {X} (xs : list X) (f : X -> R unit) : R unit :=
  match xs with [] => mret tt | x :: xs => _ ← f x; for_each xs f end.

(** *** Nodes *)

Definition node_new (val : Ref) : R nat := fun s =>
  Done (set_nodes (<[next_node s := (1, val)]> (nodes s)) (S (next_node s)) s, next_node s).

Definition node_clone (node : nat) : R unit := fun s =>
  '(n, val) ← unwrap (nodes s !! node);
  Done (set_nodes (<[node := (n + 1, val)]> (nodes s)) (next_node s) s, tt).

(** [if let Ok(node) = Rc::try_unwrap(node)]: otherwise the reference goes. *)
Definition node_unwrap (node : nat) : R (option Ref) := fun s =>
  '(n, val) ← unwrap (nodes s !! node);
  if n =? 1 then Done (set_nodes (delete node (nodes s)) (next_node s) s, Some val)
  else Done (set_nodes (<[node := (n - 1, val)]> (nodes s)) (next_node s) s, None).

(** ** The methods *)

Section Replicator.
Context `{Build}.

(** [self.to_remote_log.send(..).unwrap()] *)
Definition send_remote (m : FromClient) : R unit :=
  gone ← get remote_gone;
  if (gone : bool) then pure Panic else modify (fun s => set_to_remote (to_remote_log s ++ [m]) s).

(** [self.to_local_log.send(..).unwrap()] *)
Definition send_local (m : FromClient) : R unit :=
  gone ← get local_gone;
  if (gone : bool) then pure Panic else modify (fun s => set_to_local (to_local_log s ++ [m]) s).

(** [Appender::append] *)
Definition append (message : Ref) : R unit :=
  _ ← send_local (PerformAppend message);
  n ← get outstanding_appends;
  n ← pure (add64 n 1);
  modify (set_outstanding n).

(** [Appender::got_append] *)
Definition got_append : R unit :=
  n ← get outstanding_appends;
  n ← pure (sub64 n 1);
  modify (set_outstanding n).

Definition finished_snapshot : R bool :=
  n ← get num_snapshots;
  _ ← pure (assert_ (negb (n =? 0)));          (* [checked_sub(1).unwrap()] *)
  _ ← modify (set_snapshots (n - 1));
  mret (n - 1 =? 0).

Definition ask_snapshot (chain : Z) : R unit :=
  _ ← send_remote (SnapshotAndPrefetch chain);
  n ← get num_snapshots;
  n ← pure (add64 n 1);
  modify (set_snapshots n).

Definition re_snapshot (chain : Z) : R unit := ask_snapshot chain.
Definition snapshot_remote : R unit := ask_snapshot 0.

(** One node of the list a place held back. *)
Definition release (node : nat) : R unit :=
  val ← node_unwrap node;
  match val with Some val => append val | None => mret tt end.

Definition after_write_ack (loc : OrderIndex) : R unit :=
  let chain := oi_order loc in
  let index := oi_entry loc in
  _ ← modify (fun s => set_horizon (<[chain := Z.max (default index (horizon s !! chain)) index]> (horizon s)) s);
  b ← get blocked;
  match b !! (chain, index) with
  | Some waiting =>
      _ ← modify (set_blocked (delete (chain, index) b));
      for_each waiting release
  | None => mret tt
  end.

(** The dependency has not been written: [h < i], or nothing of its chain has. *)
Definition needs_block (horizon : gmap Z Z) (dep : OrderIndex) : bool :=
  match horizon !! oi_order dep with Some h => h <? oi_entry dep | None => true end.

Definition block_on (node : nat) (dep : OrderIndex) : R unit :=
  h ← get horizon;
  if needs_block h dep then
    let k := (oi_order dep, oi_entry dep) in
    _ ← node_clone node;
    modify (fun s => set_blocked (<[k := default [] (blocked s !! k) ++ [node]]> (blocked s)) s)
  else mret tt.

Definition block (message : Ref) : R unit :=
  node ← node_new message;
  deps ← pure (Packets.dependencies message);
  _ ← for_each deps (block_on node);
  release node.

(** [horizon.get(&o).map(|&h| h >= i).unwrap_or(false)] for all dependencies *)
Definition can_append (horizon : gmap Z Z) (deps : list OrderIndex) : bool :=
  forallb (fun dep => match horizon !! oi_order dep with Some h => oi_entry dep <=? h | None => false end) deps.

(** [entry.flag_mut().insert(EntryFlag::DirectWrite)] *)
Definition insert_direct (flags : Z) : Z := Z.lor flags EntryFlag.DirectWrite.

(** The arms [Data] and [Multiput], then [Next::Append] or [Next::Buffer]. *)
Definition replicate_entry (message : Ref) : R unit :=
  message ← pure (flag_mut insert_direct message);
  h ← get horizon;
  deps ← pure (Packets.dependencies message);
  if can_append h deps then append message else block message.

Definition handle_message (message : Response) : R bool :=
  match message with
  | RespErr _ => mret false
  | RespWrote _ locs => _ ← got_append; _ ← for_each locs after_write_ack; mret false
  | RespRead None => finished_snapshot
  | RespRead (Some message) =>
      l ← pure (Packets.layout message);
      _ ← match l with
          | EntryKind.EntryLayout.Read =>
              locs ← pure (Packets.locs message);
              loc ← pure (unwrap (head locs));
              re_snapshot (oi_order loc)
          | EntryKind.EntryLayout.Data | EntryKind.EntryLayout.Multiput => replicate_entry message
          | _ => pure Panic
          end;
      _ ← send_remote ReturnBuffer;
      mret false
  end.

(** The body of the loop in [run]: after a message that ends the last snapshot the next one is
    asked for.  [run] starts with [snapshot_remote]. *)
Definition turn (message : Response) : R unit :=
  done ← handle_message message;
  if (done : bool) then snapshot_remote else mret tt.

Fixpoint turns (messages : list Response) : R unit :=
  match messages with [] => mret tt | m :: ms => _ ← turn m; turns ms end.

Definition run (messages : list Response) : R unit := _ ← snapshot_remote; turns messages.

End Replicator.

(** ** The builder *)

Inductive Servers := Unreplicated (n : positive) | Replicated (n : positive).

Record Builder := mkBuilder {
  local_servers : Servers;
  remote_servers : Servers;
  chains : list Z;
  atomic_multi_appends : bool;
}.

Definition from_servers (local_servers remote_servers : Servers) : Builder :=
  mkBuilder local_servers remote_servers [] false.
Definition with_atomic_multi_appends (b : Builder) : Builder :=
  mkBuilder (local_servers b) (remote_servers b) (chains b) true.
Definition with_chains (cs : list Z) (b : Builder) : Builder :=
  mkBuilder (local_servers b) (remote_servers b) cs (atomic_multi_appends b).

Definition make_store (servers : Servers) : StoreInner :=
  match servers with Unreplicated n => ClientStore.build n true | Replicated n => ClientStore.build n false end.

Definition inner_new : Inner := mkInner [] ∅ ∅ 0 [] 0 ∅ 0 false false.
Definition local_log : ThreadLog := ClientLog.build [] ∅ false true false NoConnection.
Definition remote_log (b : Builder) : ThreadLog :=
  ClientLog.build (chains b) ∅ false false true (if atomic_multi_appends b then Atomic else NoConnection).

(** The replicator and the threads that [build] starts: the two logs and their stores. *)
Definition build (b : Builder) : Inner * (ThreadLog * StoreInner) * (ThreadLog * StoreInner) :=
  (inner_new, (local_log, make_store (local_servers b)), (remote_log b, make_store (remote_servers b))).
