(* ===== verification/ReplicatorSafety.v ===== *)
(** * The replicator with its two logs

    First the nodes of entries that wait: a node is under every place it waits for, its count is
    the number of times it is there, and it is released exactly when the last of these places has
    been written.  Then the replicator composed with the threads of the two logs: it never loses
    or repeats an entry, passes one on only when what it depends on was acknowledged (or a later
    place of the same chain), its two counters never underflow, and it always has a snapshot under
    way. *)

From stdpp Require Import base gmap sets list.
From Stdlib Require Import ZArith Lia.
From S2P Require Import Prelude PacketCodec Packets ClientLog ClientSync Replicator.
Open Scope Z_scope.

(** ** Occurrences *)

Definition occ (x : nat) (l : list nat) : Z := count (fun y => bool_decide (y = x)) l.
Definition flat (b : gmap (Z * Z) (list nat)) : list nat := mjoin (map_to_list b).*2.

Lemma occ_cons x y l : occ x (y :: l) = (if decide (y = x) then 1 else 0) + occ x l.
Proof. unfold occ. rewrite count_cons. by case_bool_decide; case_decide. Qed.
Lemma occ_app x l l' : occ x (l ++ l') = occ x l + occ x l'.
Proof. apply count_app. Qed.
Lemma occ_pos x l : 0 <= occ x l.
Proof. apply count_pos. Qed.
Lemma occ_none x l : x ∉ l -> occ x l = 0.
Proof.
  induction l as [|y l IH]; [done|]. rewrite not_elem_of_cons, occ_cons. intros [Hy Hl].
  rewrite IH by done. by rewrite decide_False by congruence.
Qed.
Lemma occ_some x l : x ∈ l <-> 0 < occ x l.
Proof.
  split; [|destruct (decide (x ∈ l)); [done|rewrite occ_none by done; lia]].
  induction l as [|y l IH]; [set_solver|]. rewrite elem_of_cons, occ_cons. pose proof (occ_pos x l).
  intros [->|Hx]; [rewrite decide_True by done; lia|]. specialize (IH Hx). case_decide; lia.
Qed.
#[export] Instance occ_proper x : Proper ((≡ₚ) ==> (=)) (occ x).
Proof. intros l l' Hp. unfold occ, count. by rewrite Hp. Qed.

Lemma flat_delete b k l : b !! k = Some l -> flat b ≡ₚ l ++ flat (delete k b).
Proof. intros Hb. unfold flat. rewrite <- (map_to_list_delete b k l Hb). done. Qed.
Lemma flat_push b k x : flat (<[k := default [] (b !! k) ++ [x]]> b) ≡ₚ x :: flat b.
Proof.
  rewrite (flat_delete _ k (default [] (b !! k) ++ [x])) by apply lookup_insert_eq. rewrite delete_insert_eq.
  destruct (b !! k) as [l|] eqn:Hb; simpl.
  - rewrite (flat_delete b k l Hb), (Permutation_app_comm l [x]). done.
  - by rewrite delete_id.
Qed.
Lemma elem_flat b x : x ∈ flat b <-> exists k l, b !! k = Some l /\ x ∈ l.
Proof.
  unfold flat. rewrite list_elem_of_join. split.
  - intros (l & Hx & ([k l'] & -> & Hk)%list_elem_of_fmap). exists k, l'. split; [|done].
    by apply elem_of_map_to_list.
  - intros (k & l & Hk & Hx). exists l. split; [done|]. apply list_elem_of_fmap. exists (k, l).
    split; [done|]. by apply elem_of_map_to_list.
Qed.

(** ** Entries and places *)

(** The place, or a later one of its chain, is among the places [A]. *)
Definition covered (A : list OrderIndex) (d : OrderIndex) : Prop :=
  exists i, oi_entry d <= i /\ mkOI (oi_order d) i ∈ A.

(** Everything the entry depends on is covered. *)
Definition ready (A : list OrderIndex) (r : Ref) : Prop :=
  exists deps, Packets.dependencies r = Done deps /\ Forall (covered A) deps.

Definition key (d : OrderIndex) : Z * Z := (oi_order d, oi_entry d).

(** The entries that wait. *)
Definition vals (s : Inner) : list Ref := (map_to_list (nodes s)).*2.*2.

Lemma covered_more A A' d : covered A d -> covered (A ++ A') d.
Proof. intros (i & Hi & Hd). exists i. split; [done|]. set_solver. Qed.
Lemma ready_more A A' r : ready A r -> ready (A ++ A') r.
Proof.
  intros (deps & Hd & Hc). exists deps. split; [done|]. eapply Forall_impl; [exact Hc|]. intros. by apply covered_more.
Qed.

(** ** The invariant of the nodes

    [A] are the places acknowledged, [held] the references in local variables, [todo] the
    dependencies of the held nodes that were not looked at yet. *)

Record ninv (A : list OrderIndex) (held : list nat) (todo : list OrderIndex) (s : Inner) : Prop := {
  n_count : forall x n v, nodes s !! x = Some (n, v) -> n = occ x (held ++ flat (blocked s)) /\ 1 <= n;
  n_live : forall x, x ∈ held ++ flat (blocked s) -> is_Some (nodes s !! x);
  n_fresh : forall x, is_Some (nodes s !! x) -> (x < next_node s)%nat;
  n_waits : forall k l x n v, blocked s !! k = Some l -> x ∈ l -> nodes s !! x = Some (n, v) ->
    exists deps d, Packets.dependencies v = Done deps /\ d ∈ deps /\ key d = k;
  n_unacked : forall d l, blocked s !! key d = Some l -> d ∉ A;
  n_deps : forall x n v, nodes s !! x = Some (n, v) -> exists deps, Packets.dependencies v = Done deps /\
    forall d, d ∈ deps -> covered A d \/ (exists l, blocked s !! key d = Some l /\ x ∈ l) \/ (x ∈ held /\ d ∈ todo);
  n_horizon : forall o, match horizon s !! o with
    | Some h => mkOI o h ∈ A /\ forall i, mkOI o i ∈ A -> i <= h
    | None => forall i, mkOI o i ∉ A end;
}.

(** What a handler does to the local log: [add] are the entries it was given. *)
Definition passes (A : list OrderIndex) (add : list Ref) (s s' : Inner) : Prop :=
  exists new, to_local_log s' = to_local_log s ++ (PerformAppend <$> new) /\ Forall (ready A) new /\
    new ++ vals s' ≡ₚ add ++ vals s /\ outstanding_appends s' = outstanding_appends s + Z.of_nat (length new) /\
    to_remote_log s' = to_remote_log s /\ num_snapshots s' = num_snapshots s /\
    remote_gone s' = remote_gone s /\ local_gone s' = local_gone s.

(** The local log runs, and there is room for [add] more entries. *)
Definition roomy (add : list Ref) (s : Inner) : Prop :=
  local_gone s = false /\ 0 <= outstanding_appends s /\
  outstanding_appends s + Z.of_nat (length (add ++ vals s)) <= u64_max.

Lemma passes_refl A s : passes A [] s s.
Proof. exists []. rewrite app_nil_r. simpl. split_and!; try done. lia. Qed.

Lemma passes_trans A add add' s s1 s2 : passes A add s s1 -> passes A add' s1 s2 -> passes A (add ++ add') s s2.
Proof.
  intros (n1 & E1 & F1 & P1 & O1 & R1 & S1 & G1 & L1) (n2 & E2 & F2 & P2 & O2 & R2 & S2 & G2 & L2).
  exists (n1 ++ n2). rewrite E2, E1, fmap_app, length_app. split_and!; try congruence; try lia.
  - by rewrite (assoc_L (++)).
  - by apply Forall_app.
  - rewrite <- (assoc_L (++)), P2. rewrite (assoc_L (++)), (Permutation_app_comm n1), <- (assoc_L (++)), P1.
    by rewrite !(assoc_L (++)), (Permutation_app_comm add').
Qed.

Lemma passes_more A A' add s s' : passes A add s s' -> passes (A ++ A') add s s'.
Proof.
  intros (new & E & F & Hr). exists new. split; [done|]. split; [|done].
  eapply Forall_impl; [exact F|]. intros. by apply ready_more.
Qed.

Lemma roomy_passes A add add' s s' : roomy (add ++ add') s -> passes A add s s' -> roomy add' s'.
Proof.
  intros (Hg & Ho & Hr) (new & E & F & P & O & R & S & G & L). split; [congruence|].
  apply Permutation_length in P. rewrite !length_app in *. split; lia.
Qed.

Lemma roomy_le s add : roomy add s -> roomy [] s.
Proof. intros (Hg & Ho & Hr). split; [done|]. rewrite length_app in Hr. simpl. lia. Qed.

Lemma vals_lookup s v : v ∈ vals s <-> exists x n, nodes s !! x = Some (n, v).
Proof.
  unfold vals. split.
  - intros ([n ?] & -> & ([x ?] & Hp & Hx)%list_elem_of_fmap)%list_elem_of_fmap. simplify_eq/=.
    exists x, n. by apply elem_of_map_to_list.
  - intros (x & n & Hx). apply list_elem_of_fmap. exists (n, v). split; [done|].
    apply list_elem_of_fmap. exists (x, (n, v)). split; [done|]. by apply elem_of_map_to_list.
Qed.

(** Changing a count leaves the values. *)
Lemma vals_recount (m : gmap nat (Z * Ref)) x n n' (v : Ref) :
  m !! x = Some (n, v) -> (map_to_list (<[x := (n', v)]> m)).*2.*2 ≡ₚ (map_to_list m).*2.*2.
Proof.
  intros Hx. rewrite <- (map_to_list_delete m x (n, v) Hx).
  rewrite <- (map_to_list_delete (<[x := (n', v)]> m) x (n', v)) by apply lookup_insert_eq.
  by rewrite delete_insert_eq.
Qed.

Lemma key_inj d d' : key d = key d' -> d = d'.
Proof. destruct d, d'. unfold key. simpl. congruence. Qed.

Section Nodes.
Context `{Build}.

(** ** The methods, on nodes *)

Lemma append_new_spec r s : local_gone s = false -> 0 <= outstanding_appends s < u64_max ->
  append r s = Done (set_outstanding (outstanding_appends s + 1)
                       (set_to_local (to_local_log s ++ [PerformAppend r]) s), tt).
Proof.
  intros Hg Ho. unfold append, send_local, mbind, R_bind, get, pure, modify. rewrite Hg. simpl.
  rewrite add64_ok by (unfold in_u64; lia). done.
Qed.

(** A reference goes, and with the last one the entry is passed on. *)
Lemma release_spec A x held s : ninv A (x :: held) [] s -> roomy [] s ->
  exists s', release x s = Done (s', tt) /\ ninv A held [] s' /\ passes A [] s s'.
Proof.
  intros [I1 I2 I3 I4 I5 I6 I7] (Hg & Ho & Hr).
  destruct (I2 x) as [[n v] Hx]; [set_solver|]. destruct (I1 _ _ _ Hx) as [En Hn].
  simpl in En. rewrite occ_cons, decide_True in En by done.
  unfold release, mbind, R_bind, node_unwrap. rewrite Hx. simpl. destruct (n =? 1) eqn:E1.
  - assert (Hnone : x ∉ held ++ flat (blocked s)).
    { intros Hin%occ_some. lia. }
    assert (Hlen : outstanding_appends s < u64_max).
    { assert (Hv : v ∈ vals s) by (apply vals_lookup; by exists x, n). simpl in Hr.
      destruct (vals s); [set_solver|simpl in Hr; lia]. }
    rewrite append_new_spec by done. eexists. split; [reflexivity|]. split.
    + split; simpl; try done.
      * intros y m w [Hy Hw]%lookup_delete_Some. destruct (I1 _ _ _ Hw) as [Em Hm]. split; [|done].
        simpl in Em. by rewrite occ_cons, decide_False in Em.
      * intros y Hy. assert (x <> y) by (intros ->; done). rewrite lookup_delete_ne by done. apply I2. set_solver.
      * intros y [w [_ Hw]%lookup_delete_Some]. apply I3. by exists w.
      * intros k l y m w Hk Hy [_ Hw]%lookup_delete_Some. by eapply I4.
      * intros y m w [Hy Hw]%lookup_delete_Some. destruct (I6 _ _ _ Hw) as (deps & Hd & Hc). exists deps.
        split; [done|]. intros d Hin. destruct (Hc d Hin) as [|[|[? ?]]]; [by left|by right; left|set_solver].
    + exists [v]. simpl. split_and!; try done; try lia.
      * constructor; [|done]. destruct (I6 _ _ _ Hx) as (deps & Hd & Hc). exists deps. split; [done|].
        apply Forall_forall. intros d Hin. destruct (Hc d Hin) as [|[(l & Hl & Hxl)|[? ?]]]; [done| |set_solver].
        destruct Hnone. apply elem_of_app. right. apply elem_flat. by exists (key d), l.
      * unfold vals. simpl. rewrite <- (map_to_list_delete (nodes s) x (n, v) Hx). done.
  - eexists. split; [reflexivity|]. split.
    + split; simpl; try done.
      * intros y m w [[<- [= <- <-]]|[Hy Hw]]%lookup_insert_Some; [lia|].
        destruct (I1 _ _ _ Hw) as [Em Hm]. split; [|done]. simpl in Em. by rewrite occ_cons, decide_False in Em.
      * intros y Hy. apply lookup_insert_is_Some. destruct (decide (x = y)); [by left|right]. split; [done|].
        apply I2. set_solver.
      * intros y [->|[_ Hy]]%lookup_insert_is_Some; [|by apply I3]. apply I3. by eexists.
      * intros k l y m w Hk Hy [[<- [= <- <-]]|[_ Hw]]%lookup_insert_Some; by eapply I4.
      * intros y m w Hw. assert (exists m', nodes s !! y = Some (m', w)) as [m' Hw'].
        { apply lookup_insert_Some in Hw as [[<- [= <- <-]]|[_ Hw]]; by eexists. }
        destruct (I6 _ _ _ Hw') as (deps & Hd & Hc). exists deps. split; [done|].
        intros d Hin. destruct (Hc d Hin) as [|[|[? ?]]]; [by left|by right; left|set_solver].
    + exists []. rewrite app_nil_r. simpl. split_and!; try done; try lia. unfold vals. simpl. by eapply vals_recount.
Qed.

Lemma release_all A l : forall held s, ninv A (l ++ held) [] s -> roomy [] s ->
  exists s', for_each l release s = Done (s', tt) /\ ninv A held [] s' /\ passes A [] s s'.
Proof.
  induction l as [|x l IH]; intros held s Hi Hr; simpl.
  - exists s. split; [done|]. split; [done|apply passes_refl].
  - destruct (release_spec A x (l ++ held) s) as (s1 & E1 & I1 & P1); [done..|].
    destruct (IH held s1) as (s2 & E2 & I2 & P2); [done|by apply (roomy_passes A [] [] s)|].
    exists s2. unfold mbind, R_bind. rewrite E1. split; [done|]. split; [done|].
    by apply (passes_trans _ [] []) with s1.
Qed.

(** A place has been written. *)
Lemma after_write_ack_spec A loc s : ninv A [] [] s -> roomy [] s ->
  exists s', after_write_ack loc s = Done (s', tt) /\ ninv (A ++ [loc]) [] [] s' /\ passes (A ++ [loc]) [] s s'.
Proof.
  intros Hi Hr. destruct Hi as [I1 I2 I3 I4 I5 I6 I7].
  set (h := <[oi_order loc := Z.max (default (oi_entry loc) (horizon s !! oi_order loc)) (oi_entry loc)]> (horizon s)).
  set (l := default [] (blocked s !! key loc)). set (s1 := set_blocked (delete (key loc) (blocked s)) (set_horizon h s)).
  assert (Hflat : flat (blocked s) ≡ₚ l ++ flat (delete (key loc) (blocked s))).
  { unfold l. destruct (blocked s !! key loc) eqn:E; simpl; [by apply flat_delete|by rewrite delete_id]. }
  assert (Hi1 : ninv (A ++ [loc]) l [] s1).
  { split; simpl.
    - intros x n v Hx. destruct (I1 _ _ _ Hx) as [E Hn]. split; [|done]. by rewrite <- Hflat.
    - intros x Hx. apply I2. simpl. by rewrite Hflat.
    - done.
    - intros k l' x n v [_ Hk]%lookup_delete_Some. by eapply I4.
    - intros d l' [Hk Hd]%lookup_delete_Some. specialize (I5 _ _ Hd).
      rewrite elem_of_app, list_elem_of_singleton. intros [| ->]; done.
    - intros x n v Hx. destruct (I6 _ _ _ Hx) as (deps & Hd & Hc). exists deps. split; [done|]. intros d Hin.
      destruct (Hc d Hin) as [|[(l' & Hl & Hx')|[? ?]]]; [left; by apply covered_more| |set_solver].
      destruct (decide (key loc = key d)) as [Ek|Ek].
      + left. exists (oi_entry d). split; [done|]. apply key_inj in Ek as ->. destruct d. set_solver.
      + right. left. exists l'. by rewrite lookup_delete_ne.
    - intros o. specialize (I7 o). unfold h. destruct loc as [c i]. simpl in *. destruct (decide (c = o)) as [->|Ho].
      + rewrite lookup_insert_eq. destruct (horizon s !! o) as [h0|]; simpl.
        * destruct I7 as [Hin Hle]. split.
          -- destruct (Z.max_spec h0 i) as [[_ ->]|[_ ->]]; set_solver.
          -- intros j. rewrite elem_of_app, list_elem_of_singleton. intros [Hj|[= ->]]; [specialize (Hle _ Hj)|]; lia.
        * rewrite Z.max_id. split; [set_solver|]. intros j. rewrite elem_of_app, list_elem_of_singleton.
          intros [Hj|[= ->]]; [by destruct (I7 j)|lia].
      + rewrite lookup_insert_ne by done. assert (Hsame : forall j, mkOI o j ∈ A ++ [mkOI c i] <-> mkOI o j ∈ A).
        { intros j. rewrite elem_of_app, list_elem_of_singleton. split; [intros [|[= -> _]]; done|by left]. }
        destruct (horizon s !! o); [split; [apply Hsame, I7|]|]; intros j; rewrite Hsame; [by apply I7|done]. }
  destruct (release_all (A ++ [loc]) l [] s1) as (s2 & E2 & Hi2 & P2).
  { by rewrite app_nil_r. }
  { done. }
  assert (P : passes (A ++ [loc]) [] s s1) by (exists []; simpl; rewrite app_nil_r; split_and!; try done; lia).
  unfold after_write_ack, mbind, R_bind, modify, get. simpl. fold h.
  change (oi_order loc, oi_entry loc) with (key loc). subst l.
  destruct (blocked s !! key loc) as [l|] eqn:E; simpl in E2.
  - exists s2. split; [done|]. split; [done|]. by apply (passes_trans _ [] []) with s1.
  - injection E2 as <-. exists (set_horizon h s). split; [done|].
    unfold s1 in Hi2. rewrite delete_id in Hi2 by done. destruct s; split; [done|].
    exists []. simpl. rewrite app_nil_r. split_and!; try done. lia.
Qed.

Lemma write_acks A locs : forall s, ninv A [] [] s -> roomy [] s ->
  exists s', for_each locs after_write_ack s = Done (s', tt) /\ ninv (A ++ locs) [] [] s' /\ passes (A ++ locs) [] s s'.
Proof.
  revert A. induction locs as [|loc locs IH]; intros A s Hi Hr; simpl.
  - rewrite app_nil_r. exists s. split; [done|]. split; [done|apply passes_refl].
  - destruct (after_write_ack_spec A loc s) as (s1 & E1 & Hi1 & P1); [done..|].
    destruct (IH (A ++ [loc]) s1) as (s2 & E2 & Hi2 & P2); [done|by apply (roomy_passes _ [] [] s) in P1|].
    rewrite <- (assoc_L (++)) in Hi2, P2. exists s2. unfold mbind, R_bind. rewrite E1. split; [done|]. split; [done|].
    apply (passes_trans _ [] []) with s1; [|done]. apply (passes_more _ locs) in P1. by rewrite <- (assoc_L (++)) in P1.
Qed.

(** A dependency of the node [x] is looked at. *)
Lemma block_on_spec A x n v deps d ds s :
  ninv A [x] (d :: ds) s -> nodes s !! x = Some (n, v) -> Packets.dependencies v = Done deps -> d ∈ deps ->
  exists s' n', block_on x d s = Done (s', tt) /\ ninv A [x] ds s' /\ nodes s' !! x = Some (n', v) /\
    passes A [] s s'.
Proof.
  intros [I1 I2 I3 I4 I5 I6 I7] Hx Hdeps Hin. unfold block_on, mbind, R_bind, get.
  pose proof (I7 (oi_order d)) as Hh. unfold needs_block.
  destruct (match horizon s !! oi_order d with Some h => h <? oi_entry d | None => true end) eqn:En.
  - assert (Hd : d ∉ A).
    { destruct d as [c i]; simpl in *. destruct (horizon s !! c) as [h|]; [|apply Hh].
      intros Hd. destruct Hh as [_ Hle]. specialize (Hle _ Hd). lia. }
    unfold node_clone, modify. rewrite Hx. simpl. eexists _, _. split; [reflexivity|]. split_and!.
    + change (oi_order d, oi_entry d) with (key d). set (b := <[key d := _]> (blocked s)).
      assert (Hb : forall k l y, b !! k = Some l -> y ∈ l ->
        (exists l', blocked s !! k = Some l' /\ y ∈ l') \/ (k = key d /\ y = x)).
      { intros k l y [[<- <-]|[_ Hk]]%lookup_insert_Some; [|intros; left; by exists l].
        rewrite elem_of_app, list_elem_of_singleton. intros [Hy| ->]; [left|by right].
        destruct (blocked s !! key d) as [l'|]; [by exists l'|set_solver]. }
      assert (Hb' : forall k l' y, blocked s !! k = Some l' -> y ∈ l' -> exists l, b !! k = Some l /\ y ∈ l).
      { intros k l' y Hk Hy. unfold b. destruct (decide (key d = k)) as [<-|].
        - rewrite lookup_insert_eq. eexists. split; [done|]. rewrite Hk. set_solver.
        - rewrite lookup_insert_ne by done. by exists l'. }
      assert (Hf : forall y, occ y ([x] ++ flat b) = (if decide (x = y) then 1 else 0) + occ y ([x] ++ flat (blocked s))).
      { intros y. rewrite <- occ_cons. unfold b. by rewrite flat_push. }
      split; simpl; try done.
      * intros y m w Hy. pose proof (Hf y) as Hfy. simpl in Hfy. rewrite Hfy.
        apply lookup_insert_Some in Hy as [[<- [= <- <-]]|[Hne Hy]].
        -- destruct (I1 _ _ _ Hx) as [E Hp]. simpl in E. rewrite decide_True by done. lia.
        -- destruct (I1 _ _ _ Hy) as [E Hp]. simpl in E. rewrite decide_False by done. lia.
      * intros y Hy. apply lookup_insert_is_Some. destruct (decide (x = y)); [by left|right]. split; [done|].
        apply I2. apply elem_of_cons in Hy as [->|Hy]; [done|]. apply elem_flat in Hy as (k & l & Hk & Hy).
        destruct (Hb _ _ _ Hk Hy) as [(l' & Hl & Hy')|[_ ->]]; [|done].
        simpl. apply elem_of_cons. right. apply elem_flat. by exists k, l'.
      * intros y [->|[_ Hy]]%lookup_insert_is_Some; [|by apply I3]. apply I3. by eexists.
      * intros k l y m w Hk Hy Hw. destruct (Hb _ _ _ Hk Hy) as [(l' & Hl & Hy')|[-> ->]].
        -- apply lookup_insert_Some in Hw as [[<- [= <- <-]]|[_ Hw]]; by eapply I4.
        -- rewrite lookup_insert_eq in Hw. injection Hw as <- <-. by exists deps, d.
      * intros d' l [[Hk _]|[_ Hk]]%lookup_insert_Some; [by apply key_inj in Hk as <-|by eapply I5].
      * intros y m w Hw. assert (exists m', nodes s !! y = Some (m', w)) as [m' Hw'].
        { apply lookup_insert_Some in Hw as [[<- [= <- <-]]|[_ Hw]]; by eexists. }
        destruct (I6 _ _ _ Hw') as (deps' & Hd' & Hc). exists deps'. split; [done|]. intros d' Hin'.
        destruct (Hc d' Hin') as [|[(l & Hl & Hy)|[Hy [->|Ht]%elem_of_cons]]]; [by left| | |by right; right].
        -- right; left. by eapply Hb'.
        -- right; left. apply list_elem_of_singleton in Hy as ->. exists (default [] (blocked s !! key d) ++ [x]).
           unfold b. rewrite lookup_insert_eq. split; [done|]. set_solver.
    + simpl. apply lookup_insert_eq.
    + exists []. simpl. rewrite app_nil_r. split_and!; try done; [|lia]. unfold vals. simpl. by eapply vals_recount.
  - exists s, n. split; [done|]. split_and!; [|done|apply passes_refl].
    assert (Hc : covered A d).
    { destruct (horizon s !! oi_order d) as [h|]; [|done]. exists h. destruct Hh. split; [lia|done]. }
    split; try done. intros y m w Hy. destruct (I6 _ _ _ Hy) as (deps' & Hd' & Hc'). exists deps'. split; [done|].
    intros d' Hin'. destruct (Hc' d' Hin') as [|[|[? [->|?]%elem_of_cons]]]; [by left|by right; left|by left|by right; right].
Qed.

Lemma block_deps A x v deps ds : Packets.dependencies v = Done deps -> ds ⊆ deps -> forall s n,
  ninv A [x] ds s -> nodes s !! x = Some (n, v) ->
  exists s', for_each ds (block_on x) s = Done (s', tt) /\ ninv A [x] [] s' /\ passes A [] s s'.
Proof.
  intros Hd. induction ds as [|d ds IH]; intros Hs s n Hi Hx; simpl.
  - exists s. split; [done|]. split; [done|apply passes_refl].
  - destruct (block_on_spec A x n v deps d ds s) as (s1 & n1 & E1 & Hi1 & Hx1 & P1); [done..|set_solver|].
    destruct (IH ltac:(set_solver) s1 n1 Hi1 Hx1) as (s2 & E2 & Hi2 & P2).
    exists s2. unfold mbind, R_bind. rewrite E1. split; [done|]. split; [done|]. by apply (passes_trans _ [] []) with s1.
Qed.

Lemma node_new_spec A v deps s : ninv A [] [] s -> Packets.dependencies v = Done deps ->
  exists s1, node_new v s = Done (s1, next_node s) /\ ninv A [next_node s] deps s1 /\
    nodes s1 !! next_node s = Some (1, v) /\ passes A [v] s s1.
Proof.
  intros [I1 I2 I3 I4 I5 I6 I7] Hd. unfold node_new. eexists. split; [reflexivity|].
  set (x := next_node s). assert (Hx : nodes s !! x = None).
  { destruct (nodes s !! x) eqn:E; [|done]. assert (x < next_node s)%nat by (apply I3; by eexists). unfold x in *. lia. }
  assert (Hf : x ∉ flat (blocked s)).
  { intros Hin. destruct (I2 x) as [? Hs]; [done|]. congruence. }
  split_and!.
  - split; simpl; try done.
    + intros y n w [[<- [= <- <-]]|[Hy Hw]]%lookup_insert_Some.
      * rewrite occ_cons, decide_True by done. rewrite occ_none by done. lia.
      * destruct (I1 _ _ _ Hw). rewrite occ_cons, decide_False by done. done.
    + intros y [->|Hy]%elem_of_cons; [rewrite lookup_insert_eq; by eexists|].
      destruct (decide (x = y)) as [<-|]; [done|]. rewrite lookup_insert_ne by done. by apply I2.
    + intros y [->|[_ Hy]]%lookup_insert_is_Some; [lia|]. specialize (I3 _ Hy). lia.
    + intros k l y n w Hk Hy [[<- _]|[_ Hw]]%lookup_insert_Some; [|by eapply I4].
      destruct Hf. apply elem_flat. by exists k, l.
    + intros y n w [[<- [= <- <-]]|[Hy Hw]]%lookup_insert_Some.
      * exists deps. split; [done|]. intros d Hin. right; right. set_solver.
      * destruct (I6 _ _ _ Hw) as (deps' & Hd' & Hc). exists deps'. split; [done|]. intros d Hin.
        destruct (Hc d Hin) as [|[|[? ?]]]; [by left|by right; left|set_solver].
  - simpl. apply lookup_insert_eq.
  - exists []. simpl. rewrite app_nil_r. split_and!; try done; [|lia]. unfold vals. simpl.
    rewrite map_to_list_insert by done. done.
Qed.

(** An entry that has to wait. *)
Lemma block_spec A v deps s : ninv A [] [] s -> roomy [v] s -> Packets.dependencies v = Done deps ->
  exists s', block v s = Done (s', tt) /\ ninv A [] [] s' /\ passes A [v] s s'.
Proof.
  intros Hi Hr Hd. destruct (node_new_spec A v deps s Hi Hd) as (s1 & E1 & Hi1 & Hx & P1).
  destruct (block_deps A (next_node s) v deps deps Hd (reflexivity _) s1 1 Hi1 Hx) as (s2 & E2 & Hi2 & P2).
  pose proof (passes_trans _ [v] [] _ _ _ P1 P2) as P12.
  destruct (release_spec A (next_node s) [] s2 Hi2) as (s3 & E3 & Hi3 & P3).
  { apply (roomy_passes A [v] [] s); [by rewrite app_nil_r|done]. }
  exists s3. unfold block, mbind, R_bind, pure. rewrite E1, Hd. simpl. rewrite E2, E3. split; [done|]. split; [done|].
  apply (passes_trans _ [v] []) with s2; done.
Qed.

(** The entry as it is written to the local log. *)
Definition direct (r : Ref) : Ref := match flag_mut insert_direct r with Done r => r | Panic => r end.

Definition is_entry (r : Ref) : bool :=
  match Packets.layout r with
  | Done EntryKind.EntryLayout.Data | Done EntryKind.EntryLayout.Multiput => true
  | _ => false
  end.

Lemma direct_entry r : is_entry r = true ->
  flag_mut insert_direct r = Done (direct r) /\ is_entry (direct r) = true /\
  Packets.dependencies (direct r) = Packets.dependencies r /\
  exists deps, Packets.dependencies r = Done deps.
Proof. destruct r; try done; intros _; split_and!; try done; by eexists. Qed.

(** An entry read from the remote log. *)
Lemma replicate_entry_spec A r s : ninv A [] [] s -> roomy [direct r] s -> is_entry r = true ->
  exists s', replicate_entry r s = Done (s', tt) /\ ninv A [] [] s' /\ passes A [direct r] s s'.
Proof.
  intros Hi Hr He. destruct (direct_entry r He) as (Hf & _ & Hdd & deps & Hd). rewrite Hd in Hdd.
  unfold replicate_entry, mbind, R_bind, pure, get. rewrite Hf. simpl. rewrite Hdd. simpl.
  destruct (can_append (horizon s) deps) eqn:Hc; [|by eapply block_spec].
  destruct Hr as (Hg & Ho & Hr). simpl in Hr. rewrite append_new_spec by (done || lia). eexists. split; [reflexivity|]. split.
  - destruct Hi as [I1 I2 I3 I4 I5 I6 I7]. by split.
  - exists [direct r]. simpl. split_and!; try done. constructor; [|done]. exists deps. split; [done|].
    apply Forall_forall. intros d Hin. unfold can_append in Hc. rewrite forallb_forall in Hc.
    specialize (Hc d (proj1 (list_elem_of_In _ _) Hin)). pose proof (n_horizon _ _ _ _ Hi (oi_order d)) as Hh.
    destruct (horizon s !! oi_order d) as [h|]; [|done]. exists h. destruct Hh. split; [lia|done].
Qed.

End Nodes.

(** ** A turn of the replicator *)

Definition acks (m : Response) : list OrderIndex := match m with RespWrote _ locs => locs | _ => [] end.
Definition entry_of (m : Response) : list Ref :=
  match m with RespRead (Some r) => if is_entry r then [direct r] else [] | _ => [] end.
Definition is_end (m : Response) : bool := match m with RespRead None => true | _ => false end.
Definition is_wrote (m : Response) : bool := match m with RespWrote _ _ => true | _ => false end.
Abbreviation b2z b := (if b : bool then 1 else 0).

Definition is_read (r : Ref) : bool :=
  match Packets.layout r with Done EntryKind.EntryLayout.Read => true | _ => false end.

(** What the replicator can be sent: it panics on locks, sentinels, collections and snapshots. *)
Definition accepted (m : Response) : bool :=
  match m with RespRead (Some r) => is_entry r || is_read r | _ => true end.

(** Messages that leave the log running as it is. *)
Definition plain (m : FromClient) : Prop := m <> StopAckingWrites /\ m <> Shutdown.

Record turned (A : list OrderIndex) (m : Response) (s s' : Inner) : Prop := {
  t_nodes : ninv (A ++ acks m) [] [] s';
  t_local : exists new, to_local_log s' = to_local_log s ++ (PerformAppend <$> new) /\ Forall (ready (A ++ acks m)) new /\
    new ++ vals s' ≡ₚ entry_of m ++ vals s /\
    outstanding_appends s' = outstanding_appends s - b2z (is_wrote m) + Z.of_nat (length new);
  t_remote : exists ms, to_remote_log s' = to_remote_log s ++ ms /\
    num_snapshots s' = num_snapshots s - b2z (is_end m) + count is_snap ms /\
    count is_snap ms <= 1 /\ Forall plain ms;
  t_asking : 1 <= num_snapshots s';
  t_gone : remote_gone s' = remote_gone s /\ local_gone s' = local_gone s;
}.

Section Turns.
Context `{Build}.

Lemma ask_spec c s : remote_gone s = false -> 0 <= num_snapshots s < u64_max ->
  ask_snapshot c s = Done (set_snapshots (num_snapshots s + 1)
                             (set_to_remote (to_remote_log s ++ [SnapshotAndPrefetch c]) s), tt).
Proof.
  intros Hg Hn. unfold ask_snapshot, send_remote, mbind, R_bind, get, pure, modify. rewrite Hg. simpl.
  rewrite add64_ok by (unfold in_u64; lia). done.
Qed.

(** The nodes do not depend on the rest of the state. *)
Lemma ninv_frame A held todo s s' :
  nodes s' = nodes s -> next_node s' = next_node s -> blocked s' = blocked s -> horizon s' = horizon s ->
  ninv A held todo s -> ninv A held todo s'.
Proof. intros E1 E2 E3 E4 []. split; by rewrite ?E1, ?E2, ?E3, ?E4. Qed.

Lemma count1 (m : FromClient) : count is_snap [m] = b2z (is_snap m).
Proof. rewrite count_cons, count_nil. lia. Qed.

Lemma turn_wrote A id locs s :
  ninv A [] [] s -> roomy [] s -> 1 <= outstanding_appends s -> 1 <= num_snapshots s ->
  exists s', turn (RespWrote id locs) s = Done (s', tt) /\ turned A (RespWrote id locs) s s'.
Proof.
  intros Hi (Hg & Ho & Hr) H1 Hn. set (s0 := set_outstanding (outstanding_appends s - 1) s).
  destruct (write_acks A locs s0) as (s' & E & Hi' & new & P1 & P2 & P3 & P4 & P5 & P6 & P7 & P8).
  { by eapply ninv_frame; [..|exact Hi]. }
  { split_and!; simpl in *; [done|lia|]. unfold vals in *. simpl. lia. }
  exists s'. unfold turn, handle_message, got_append, mbind, R_bind, get, pure, modify.
  rewrite sub64_ok by (unfold in_u64; lia). simpl. fold s0. rewrite E. simpl. split; [done|]. simpl in *. split; try done.
  - exists new. split_and!; try done; simpl; lia.
  - exists []. rewrite app_nil_r, count_nil. split_and!; try done; simpl; lia.
  - lia.
Qed.

Lemma turn_end A s :
  ninv A [] [] s -> remote_gone s = false -> 1 <= num_snapshots s <= u64_max ->
  exists s', turn (RespRead None) s = Done (s', tt) /\ turned A (RespRead None) s s'.
Proof.
  intros Hi Hg Hn. unfold turn, handle_message, finished_snapshot, mbind, R_bind, get, pure, modify, snapshot_remote.
  assert (En : (num_snapshots s =? 0) = false) by lia. rewrite En. simpl.
  destruct (num_snapshots s - 1 =? 0) eqn:E0.
  - rewrite ask_spec by (simpl; done || lia). eexists. split; [reflexivity|]. split; simpl.
    + rewrite app_nil_r. by eapply ninv_frame; [..|exact Hi].
    + exists []. rewrite app_nil_r. split_and!; try done; simpl; lia.
    + eexists. split_and!; [reflexivity| | |by repeat constructor]; rewrite count1; simpl; lia.
    + lia.
    + done.
  - eexists. split; [reflexivity|]. split; simpl.
    + rewrite app_nil_r. by eapply ninv_frame; [..|exact Hi].
    + exists []. rewrite app_nil_r. split_and!; try done; simpl; lia.
    + exists []. rewrite app_nil_r, count_nil. split_and!; [done|lia|lia|done].
    + lia.
    + done.
Qed.

Lemma turn_error A e s : ninv A [] [] s -> 1 <= num_snapshots s ->
  exists s', turn (RespErr e) s = Done (s', tt) /\ turned A (RespErr e) s s'.
Proof.
  intros Hi Hn. exists s. split; [done|]. split; simpl; try done.
  - by rewrite app_nil_r.
  - exists []. rewrite app_nil_r. split_and!; try done. simpl. lia.
  - exists []. rewrite app_nil_r, count_nil. split_and!; [done|lia|lia|done].
Qed.

Lemma read_head r : is_read r = true -> exists loc, Packets.locs r = Done [loc].
Proof. destruct r; try done; by eexists. Qed.

Lemma turn_read A r s :
  ninv A [] [] s -> roomy (entry_of (RespRead (Some r))) s -> is_entry r || is_read r = true -> remote_gone s = false ->
  1 <= num_snapshots s < u64_max ->
  exists s', turn (RespRead (Some r)) s = Done (s', tt) /\ turned A (RespRead (Some r)) s s'.
Proof.
  intros Hi Hr Hk Hg Hn. unfold turn, handle_message, mbind at 1, R_bind at 1. simpl in Hr.
  destruct (is_entry r) eqn:He.
  - assert (exists l, Packets.layout r = Done l /\
      (l = EntryKind.EntryLayout.Data \/ l = EntryKind.EntryLayout.Multiput)) as (l & Hl & Hl').
    { unfold is_entry in He. destruct (Packets.layout r) as [[]|]; try done; eexists; split; eauto. }
    destruct (replicate_entry_spec A r s Hi Hr He) as (s1 & E & Hi1 & new & P1 & P2 & P3 & P4 & P5 & P6 & P7 & P8).
    exists (set_to_remote (to_remote_log s1 ++ [ReturnBuffer]) s1).
    unfold pure at 1, mbind at 1, R_bind at 1, mbind at 1. rewrite Hl. simpl. split.
    { destruct Hl' as [->| ->]; unfold send_remote, mbind, R_bind, get, modify; rewrite E, P7, Hg; done. }
    split; simpl.
    + rewrite app_nil_r. by eapply ninv_frame; [..|exact Hi1].
    + exists new. rewrite app_nil_r, He. split_and!; try done. simpl. lia.
    + exists [ReturnBuffer]. rewrite count1. simpl. split_and!; [by rewrite P5|lia|lia|by repeat constructor].
    + lia.
    + done.
  - simpl in Hk. destruct (read_head r Hk) as [loc Hloc].
    assert (Hl : Packets.layout r = Done EntryKind.EntryLayout.Read).
    { unfold is_read in Hk. destruct (Packets.layout r) as [[]|]; done. }
    unfold pure at 1, mbind at 1, R_bind at 1, mbind at 1. rewrite Hl. simpl.
    unfold pure, mbind, R_bind. rewrite Hloc. simpl. unfold re_snapshot. rewrite ask_spec by (done || lia).
    unfold send_remote, mbind, R_bind, get, modify. simpl. rewrite Hg. eexists. split; [reflexivity|]. split; simpl.
    + rewrite app_nil_r. by eapply ninv_frame; [..|exact Hi].
    + exists []. rewrite app_nil_r, He. split_and!; try done. simpl. lia.
    + exists [SnapshotAndPrefetch (oi_order loc); ReturnBuffer]. rewrite count_cons, count1. simpl.
      split_and!; [by rewrite <- (assoc_L (++))|lia|lia|by repeat constructor].
    + lia.
    + done.
Qed.

Lemma turn_spec A m s :
  ninv A [] [] s -> roomy (entry_of m) s -> accepted m = true -> remote_gone s = false ->
  1 <= num_snapshots s < u64_max -> b2z (is_wrote m) <= outstanding_appends s ->
  exists s', turn m s = Done (s', tt) /\ turned A m s s'.
Proof.
  intros Hi Hr Hk Hg Hn Ho. destruct m as [[r|]|id locs|e].
  - apply turn_read; done.
  - apply turn_end; try done; lia.
  - apply turn_wrote; simpl in *; try done; lia.
  - apply turn_error; [done|lia].
Qed.

End Turns.

(** ** The system: the replicator, its two logs and their stores *)

Record RSystem := mkRSys {
  inner : Inner;
  from_logs : list Response;      (* the channel both logs send to *)
  remote : ThreadLog;
  local : ThreadLog;
  in_flight : Z;                  (* appends the local log passed on that its store has not completed *)
  seen : list Response;           (* the messages the replicator has taken *)
  given : list Ref;               (* the entries the local log has taken *)
}.

Inductive REvent := Turn | RemoteTakes | LocalTakes | RemoteStore (m : FromStore) | LocalStore (m : FromStore).

(** The remote log takes [m]; what it reads arrives. *)
Definition remote_step `{Build} (fuel : nat) (m : Message) (y : RSystem) (i : Inner) : outcome RSystem :=
  '(l, go) ← ClientLog.handle_message fuel m (remote y);
  let rs := on_read <$> drop (length (ready_reads (remote y))) (ready_reads l) in
  Done (mkRSys (set_threads (negb ((go : bool) && negb (finished l))) (local_gone i) i) (from_logs y ++ rs) l (local y)
          (in_flight y) (seen y) (given y)).

(** The local log takes [m]; its acknowledgements arrive. *)
Definition local_step `{Build} (fuel : nat) (m : Message) (y : RSystem) (i : Inner) (fl : Z) (g : list Ref) : outcome RSystem :=
  '(l, go) ← ClientLog.handle_message fuel m (local y);
  let ws := on_wrote <$> drop (length (finished_writes (local y))) (finished_writes l) in
  Done (mkRSys (set_threads (remote_gone i) (negb ((go : bool) && negb (finished l))) i) (from_logs y ++ ws) (remote y) l
          fl (seen y) g).

Definition rsys_step `{Build} (fuel : nat) (ev : REvent) (y : RSystem) : outcome RSystem :=
  match ev with
  | Turn =>
      match from_logs y with
      | m :: q => '(i, _) ← turn m (inner y);
                  Done (mkRSys i q (remote y) (local y) (in_flight y) (seen y ++ [m]) (given y))
      | [] => Done y
      end
  | RemoteTakes =>
      match to_remote_log (inner y) with
      | m :: q => if remote_gone (inner y) then Done y
                  else remote_step fuel (MFromClient m) y (set_to_remote q (inner y))
      | [] => Done y
      end
  | LocalTakes =>
      match to_local_log (inner y) with
      | m :: q => if local_gone (inner y) then Done y
                  else local_step fuel (MFromClient m) y (set_to_local q (inner y)) (in_flight y + 1)
                         (given y ++ match m with PerformAppend r => [r] | _ => [] end)
      | [] => Done y
      end
  | RemoteStore m => if remote_gone (inner y) then Done y else remote_step fuel (MFromStore m) y (inner y)
  | LocalStore m =>
      if local_gone (inner y) then Done y
      else match m with
      | WriteComplete _ _ =>
          if in_flight y =? 0 then Done y else local_step fuel (MFromStore m) y (inner y) (in_flight y - 1) (given y)
      | _ => local_step fuel (MFromStore m) y (inner y) (in_flight y) (given y)
      end
  end.

Fixpoint rsys_run `{Build} (fuel : nat) (evs : list REvent) (y : RSystem) : outcome RSystem :=
  match evs with [] => Done y | ev :: evs => y ← rsys_step fuel ev y; rsys_run fuel evs y end.

(** [build], then the first action of [run]. *)
Definition rsys_new `{Build} (b : Builder) : outcome RSystem :=
  let '(i, (l, _), (r, _)) := Replicator.build b in
  '(i, _) ← snapshot_remote i;
  Done (mkRSys i [] r l 0 [] []).

(** ** Its invariant *)

Definition acked (ms : list Response) : list OrderIndex := ms ≫= acks.
Definition entries (ms : list Response) : list Ref := ms ≫= entry_of.

(** A log that runs, and whose channels are connected. *)
Definition runs (k : Z) (l : ThreadLog) : Prop :=
  reader_gone l = false /\ writer_gone l = false /\ store_gone l = false /\ finished l = false /\ 0 <= num_errors l <= k.

Record rinv (k : Z) (y : RSystem) : Prop := {
  r_nodes : ninv (acked (seen y)) [] [] (inner y);
  r_sent : exists sent, to_local_log (inner y) = PerformAppend <$> sent /\
    Forall (ready (acked (seen y))) (given y ++ sent) /\
    (given y ++ sent) ++ vals (inner y) ≡ₚ entries (seen y);
  r_snaps : num_snapshots (inner y) =
    count is_snap (to_remote_log (inner y)) + ClientLog.num_snapshots (remote y) + count is_end (from_logs y);
  r_out : outstanding_appends (inner y) =
    Z.of_nat (length (to_local_log (inner y))) + in_flight y + count is_wrote (from_logs y);
  r_asking : 1 <= num_snapshots (inner y) <= k;
  r_room : outstanding_appends (inner y) + Z.of_nat (length (vals (inner y))) <= k;
  r_flight : 0 <= in_flight y;
  r_plain : Forall plain (to_remote_log (inner y));
  r_threads : remote_gone (inner y) = false /\ local_gone (inner y) = false;
  r_remote : runs k (remote y) /\ 0 <= ClientLog.num_snapshots (remote y);
  r_local : runs k (local y) /\ ClientLog.num_snapshots (local y) = 0 /\ ack_writes (local y) = true;
}.

Lemma runs_le k k' l : runs k l -> k <= k' -> runs k' l.
Proof. intros (? & ? & ? & ? & ?) ?. split_and!; try done; lia. Qed.

Lemma rinv_le k k' y : rinv k y -> k <= k' -> rinv k' y.
Proof.
  intros [? ? ? ? ? ? ? ? ? [] (? & ? & ?)] ?. split; try done; try lia; split_and!; try done; by eapply runs_le.
Qed.

Lemma acked_snoc ms m : acked (ms ++ [m]) = acked ms ++ acks m.
Proof. unfold acked. rewrite bind_app. simpl. by rewrite app_nil_r. Qed.
Lemma entries_snoc ms m : entries (ms ++ [m]) = entries ms ++ entry_of m.
Proof. unfold entries. rewrite bind_app. simpl. by rewrite app_nil_r. Qed.

Lemma ends_of rs : count is_end (on_read <$> rs) = count is_done rs.
Proof. induction rs as [|r rs IH]; [done|]. rewrite fmap_cons, !count_cons, IH. by destruct r. Qed.
Lemma no_writes rs : count is_wrote (on_read <$> rs) = 0.
Proof. induction rs as [|r rs IH]; [done|]. rewrite fmap_cons, count_cons, IH. by destruct r. Qed.
Lemma acks_of ws : count is_wrote (on_wrote <$> ws) = count is_ack ws.
Proof. induction ws as [|w ws IH]; [done|]. rewrite fmap_cons, !count_cons, IH. by destruct w. Qed.
Lemma no_ends ws : count is_end (on_wrote <$> ws) = 0.
Proof. induction ws as [|w ws IH]; [done|]. rewrite fmap_cons, count_cons, IH. by destruct w. Qed.
Lemma entry_of_length m : (length (entry_of m) <= 1)%nat.
Proof. destruct m as [[r|]| |]; simpl; try lia. destruct (is_entry r); simpl; lia. Qed.
Lemma entry_no_ack m : Z.of_nat (length (entry_of m)) + b2z (is_wrote m) <= 1.
Proof. destruct m as [[r|]| |]; simpl; try lia. destruct (is_entry r); simpl; lia. Qed.

Section System.
Context `{Build} (fuel : nat).

(** The logs run on. *)
Lemma runs_effect k m l l' go : runs k l -> m <> MFromClient Shutdown -> effect m l l' go ->
  runs (k + 1) l' /\ go && negb (finished l') = true.
Proof.
  intros (Hr & Hw & Hs & Hf & He) Hm (rs & ws & _ & _ & _ & _ & He' & _ & _ & _ & Hg & Hwg & Ha & Hst & Hrun).
  destruct (Hrun Hm) as [Ef ->]. rewrite Ef, Hf. split; [|done]. split_and!; try done; try congruence; lia.
Qed.

Lemma log_effect k m l l' go : runs k l -> 0 <= ClientLog.num_snapshots l <= k -> k < u64_max ->
  m <> MFromClient StopAckingWrites -> ClientLog.handle_message fuel m l = Done (l', go) -> effect m l l' go.
Proof. intros (Hr & Hw & Hs & Hf & He) Hn Hk Hm Hl. eapply message_effect; [done..|lia|lia|done|exact Hl]. Qed.

(** A step of the remote log, from what its channel is without the message. *)
Lemma remote_step_inv k m y q y' :
  rinv k y -> k < u64_max -> m <> MFromClient StopAckingWrites -> m <> MFromClient Shutdown -> Forall plain q ->
  asks m + count is_snap q = count is_snap (to_remote_log (inner y)) ->
  remote_step fuel m y (set_to_remote q (inner y)) = Done y' -> rinv (k + 1) y'.
Proof.
  intros [I1 I2 I3 I4 I5 I6 I7 I8 [G1 G2] [HR Hn] (HL & Hn0 & Hack)] Hk Hm Hm' Hq Hc Hs.
  unfold remote_step in Hs. apply bind_done in Hs as ([l' go] & Hl & [= <-]).
  pose proof (count_pos is_snap (to_remote_log (inner y))). pose proof (count_pos is_end (from_logs y)).
  pose proof (log_effect k m _ _ _ HR ltac:(lia) Hk Hm Hl) as HE.
  destruct (runs_effect _ _ _ _ _ HR Hm' HE) as [HR' Hgo]. rewrite Hgo.
  destruct HE as (rs & ws & Er & _ & Hsn & Hp & _). rewrite Er, drop_app_length.
  split; simpl; try done; try lia.
  - eapply ninv_frame; [..|exact I1]; done.
  - rewrite count_app, ends_of. lia.
  - rewrite count_app, no_writes. lia.
  - unfold vals in *. simpl. lia.
  - split_and!; try done. eapply runs_le; [exact HL|lia].
Qed.

(** A step of the local log. *)
Lemma local_step_inv k m y q fl g y' :
  rinv k y -> k < u64_max -> m <> MFromClient StopAckingWrites -> m <> MFromClient Shutdown -> asks m = 0 -> 0 <= fl ->
  (exists sent, q = PerformAppend <$> sent /\ Forall (ready (acked (seen y))) (g ++ sent) /\
     (g ++ sent) ++ vals (inner y) ≡ₚ entries (seen y)) ->
  Z.of_nat (length q) + fl + completes m = Z.of_nat (length (to_local_log (inner y))) + in_flight y ->
  local_step fuel m y (set_to_local q (inner y)) fl g = Done y' -> rinv (k + 1) y'.
Proof.
  intros [I1 I2 I3 I4 I5 I6 I7 I8 [G1 G2] [HR Hn] (HL & Hn0 & Hack)] Hk Hm Hm' Ha Hfl Hsent Hc Hs.
  unfold local_step in Hs. apply bind_done in Hs as ([l' go] & Hl & [= <-]).
  pose proof (log_effect k m _ _ _ HL ltac:(lia) Hk Hm Hl) as HE.
  destruct (runs_effect _ _ _ _ _ HL Hm' HE) as [HL' Hgo]. rewrite Hgo.
  destruct HE as (rs & ws & _ & Ews & Hsn & Hp & _ & _ & _ & Hacks & _ & _ & Hack' & _). rewrite Ews, drop_app_length.
  destruct (Hacks Hack) as [_ Hcount]. pose proof (count_pos is_done rs).
  split; simpl; try done; try lia.
  - eapply ninv_frame; [..|exact I1]; done.
  - rewrite count_app, no_ends. lia.
  - rewrite count_app, acks_of. lia.
  - unfold vals in *. simpl. lia.
  - split; [|done]. eapply runs_le; [exact HR|lia].
  - split; [done|]. split; [lia|congruence].
Qed.

Lemma turn_refused m s : accepted m = false -> turn m s = Panic.
Proof.
  destruct m as [[r|]| |]; try done. simpl. intros Ha. unfold turn, handle_message, mbind at 1, R_bind at 1.
  unfold is_entry, is_read in Ha. unfold pure at 1, mbind at 1, R_bind at 1, mbind at 1.
  destruct (Packets.layout r) as [[]|]; done.
Qed.

(** Messages the replicator can be sent are handled. *)
Lemma turn_ready k y m q : rinv k y -> k < u64_max -> from_logs y = m :: q -> accepted m = true ->
  exists i, turn m (inner y) = Done (i, tt) /\ turned (acked (seen y)) m (inner y) i.
Proof.
  intros [I1 I2 I3 I4 I5 I6 I7 I8 [G1 G2] _ _] Hk Hq Ha. rewrite Hq, count_cons in I3, I4.
  pose proof (count_pos is_wrote q). pose proof (entry_of_length m).
  apply turn_spec; try done; [|lia|lia]. split_and!; [done|destruct (is_wrote m); lia|].
  rewrite length_app. lia.
Qed.

Lemma turn_inv k y m q i : rinv k y -> k < u64_max -> from_logs y = m :: q -> turn m (inner y) = Done (i, tt) ->
  rinv (k + 1) (mkRSys i q (remote y) (local y) (in_flight y) (seen y ++ [m]) (given y)).
Proof.
  intros HI Hk Hq Ht. assert (Ha : accepted m = true).
  { destruct (accepted m) eqn:Ha; [done|]. by rewrite turn_refused in Ht. }
  destruct (turn_ready k y m q HI Hk Hq Ha) as (i' & Ht' & [T1 T2 T3 T4 T5]). rewrite Ht in Ht'. injection Ht' as <-.
  destruct HI as [I1 I2 I3 I4 I5 I6 I7 I8 [G1 G2] [HR Hn] (HL & Hn0 & Hack)].
  destruct T2 as (new & L1 & L2 & L3 & L4), T3 as (ms & R1 & R2 & R3 & R4), T5 as [G1' G2'].
  destruct I2 as (sent & S1 & S2 & S3). rewrite Hq, count_cons in I3, I4.
  pose proof (entry_no_ack m). pose proof (Permutation_length L3) as Hlen. rewrite !length_app in Hlen.
  split; simpl; rewrite ?acked_snoc, ?entries_snoc; try done; try lia.
  - exists (sent ++ new). rewrite L1, S1, fmap_app. split; [done|]. rewrite (assoc_L (++)). split.
    + apply Forall_app. split; [|done]. eapply Forall_impl; [exact S2|]. intros. by apply ready_more.
    + rewrite <- (assoc_L (++) _ new), L3, (Permutation_app_comm (entry_of m)), (assoc_L (++)), S3. done.
  - rewrite R1, count_app. lia.
  - rewrite L1, length_app, length_fmap. lia.
  - destruct (is_end m); lia.
  - destruct (is_wrote m); lia.
  - rewrite R1. by apply Forall_app.
  - split; congruence.
  - split; [|done]. eapply runs_le; [exact HR|lia].
  - split_and!; try done. eapply runs_le; [exact HL|lia].
Qed.

Lemma same_remote i : set_to_remote (to_remote_log i) i = i.
Proof. by destruct i. Qed.
Lemma same_local i : set_to_local (to_local_log i) i = i.
Proof. by destruct i. Qed.

Lemma rsys_step_inv k ev y y' : rinv k y -> k < u64_max -> rsys_step fuel ev y = Done y' -> rinv (k + 1) y'.
Proof.
  intros HI Hk Hs. assert (Hle : rinv (k + 1) y) by (eapply rinv_le; [exact HI|lia]).
  destruct ev as [| | |m|m]; simpl in Hs.
  - destruct (from_logs y) as [|m q] eqn:Hq; [by injection Hs as <-|].
    apply bind_done in Hs as ([i []] & Ht & [= <-]). by apply turn_inv.
  - destruct (to_remote_log (inner y)) as [|m q] eqn:Hq; [by injection Hs as <-|].
    pose proof (r_plain _ _ HI) as Hp. rewrite Hq in Hp. apply Forall_cons in Hp as [[] ?].
    destruct (remote_gone (inner y)); [by injection Hs as <-|].
    eapply remote_step_inv; [exact HI|done| | | | |exact Hs]; try congruence. rewrite Hq, count_cons. simpl. lia.
  - destruct (to_local_log (inner y)) as [|m q] eqn:Hq; [by injection Hs as <-|].
    destruct (local_gone (inner y)); [by injection Hs as <-|]. pose proof (r_flight _ _ HI).
    destruct (r_sent _ _ HI) as ([|r sent] & S1 & S2 & S3); rewrite Hq in S1; [done|]. simplify_eq/=.
    eapply (local_step_inv k (MFromClient (PerformAppend r))); [exact HI|done|done|done|done| | | |exact Hs]; [lia| |].
    + exists sent. by rewrite <- (assoc_L (++) _ [r]).
    + rewrite Hq. simpl. lia.
  - destruct (remote_gone (inner y)); [by injection Hs as <-|]. rewrite <- (same_remote (inner y)) in Hs.
    eapply (remote_step_inv k (MFromStore m)); [exact HI|done|done|done| | |exact Hs]; [apply (r_plain _ _ HI)|done].
  - destruct (local_gone (inner y)); [by injection Hs as <-|]. pose proof (r_flight _ _ HI).
    rewrite <- (same_local (inner y)) in Hs. pose proof (r_sent _ _ HI) as Hsent.
    destruct m as [id locs|loc msg|kind sv].
    + destruct (in_flight y =? 0) eqn:E0; [by injection Hs as <-|].
      eapply (local_step_inv k (MFromStore (WriteComplete id locs))); [exact HI|done|done|done|done| |exact Hsent| |exact Hs]; simpl; lia.
    + eapply (local_step_inv k (MFromStore (ReadComplete loc msg))); [exact HI|done|done|done|done| |exact Hsent| |exact Hs]; simpl; lia.
    + eapply (local_step_inv k (MFromStore (IoError kind sv))); [exact HI|done|done|done|done| |exact Hsent| |exact Hs]; simpl; lia.
Qed.

Lemma rsys_run_inv evs : forall k y y', rinv k y -> k + Z.of_nat (length evs) <= u64_max ->
  rsys_run fuel evs y = Done y' -> rinv (k + Z.of_nat (length evs)) y'.
Proof.
  induction evs as [|ev evs IH]; intros k y y' HI Hk Hs; simpl in Hs.
  - injection Hs as <-. simpl. by rewrite Z.add_0_r.
  - apply bind_done in Hs as (y1 & H1 & H2). simpl in Hk.
    replace (k + Z.of_nat (length (ev :: evs))) with (k + 1 + Z.of_nat (length evs)) by (simpl; lia).
    eapply IH; [|lia|exact H2]. eapply rsys_step_inv; [exact HI|lia|exact H1].
Qed.

Lemma rsys_new_inv b : exists y, rsys_new b = Done y /\ rinv 1 y.
Proof.
  cbv beta iota zeta delta [rsys_new Replicator.build snapshot_remote]. rewrite ask_spec by (simpl; done || lia). eexists. split; [reflexivity|].
  split; simpl; try done; try lia.
  - split; simpl; intros *; rewrite ?lookup_empty; try done; try set_solver; by intros [? ?].
  - by exists [].
  - by repeat constructor.
Qed.

End System.

(** An entry that waits does so for a place that was not acknowledged. *)
Lemma waiting_for A s v : ninv A [] [] s -> v ∈ vals s ->
  exists deps d, Packets.dependencies v = Done deps /\ d ∈ deps /\ d ∉ A.
Proof.
  intros Hi (x & n & Hx)%vals_lookup. destruct (n_count _ _ _ _ Hi _ _ _ Hx) as [En Hn].
  assert (Hin : x ∈ flat (blocked s)) by (apply occ_some; simpl in En; lia).
  apply elem_flat in Hin as (k & l & Hk & Hl). destruct (n_waits _ _ _ _ Hi _ _ _ _ _ Hk Hl Hx) as (deps & d & Hd & Hin & <-).
  exists deps, d. split_and!; try done. by eapply n_unacked.
Qed.

Section Reachable.
Context `{Build} (fuel : nat) (b : Builder) (y0 : RSystem) (Hnew : rsys_new b = Done y0).
Context (evs : list REvent) (Hevs : Z.of_nat (length evs) < u64_max - 1).
Context (y : RSystem) (Hrun : rsys_run fuel evs y0 = Done y).

Lemma rsys_reached : rinv (1 + Z.of_nat (length evs)) y.
Proof.
  destruct (rsys_new_inv b) as (y1 & E & HI). rewrite Hnew in E. injection E as <-.
  eapply rsys_run_inv; [exact HI|lia|done].
Qed.

(** C20.  In every run of the replicator with its two logs, the entries it has read from the remote
    log are, each exactly once and marked to be written to its own places, those it has passed on
    to the local log and those that wait.  What it passed on depends only on places that the local
    log has acknowledged, or places before one of them in the same chain; and what waits depends
    on a place that was not acknowledged. *)
Theorem replicator_conserves :
  exists sent, to_local_log (inner y) = PerformAppend <$> sent /\
    (given y ++ sent) ++ vals (inner y) ≡ₚ entries (seen y) /\
    Forall (ready (acked (seen y))) (given y ++ sent) /\
    (forall v, v ∈ vals (inner y) ->
       exists deps d, Packets.dependencies v = Done deps /\ d ∈ deps /\ d ∉ acked (seen y)).
Proof.
  destruct (r_sent _ _ rsys_reached) as (sent & S1 & S2 & S3). exists sent. split_and!; try done.
  intros v. by apply waiting_for, rsys_reached.
Qed.

(** C21.  In every run the replicator has a snapshot under way: its count of them is that of the
    snapshots that are on their way to the remote log, that the log has not ended, or whose end is
    on its way back, and is never zero; likewise its count of appends.  So neither count
    underflows, and the next message makes the replicator panic exactly when it is an entry of a
    kind that it refuses. *)
Theorem replicator_no_panic :
  1 <= num_snapshots (inner y) /\
  num_snapshots (inner y) =
    count is_snap (to_remote_log (inner y)) + ClientLog.num_snapshots (remote y) + count is_end (from_logs y) /\
  outstanding_appends (inner y) =
    Z.of_nat (length (to_local_log (inner y))) + in_flight y + count is_wrote (from_logs y) /\
  (forall m q, from_logs y = m :: q -> turn m (inner y) = Panic <-> accepted m = false).
Proof.
  pose proof rsys_reached as HI. split_and!; try apply HI. intros m q Hq. split; [|apply turn_refused].
  destruct (accepted m) eqn:Ha; [|done].
  destruct (turn_ready _ _ _ _ HI ltac:(lia) Hq Ha) as (i & -> & _). done.
Qed.

End Reachable.

(** ** Runs, evaluated *)

Module Demo.

Definition b : Builder := with_chains [5] (from_servers (Unreplicated 1) (Unreplicated 1)).
Definition start : RSystem := match rsys_new (H := dev) b with Done y => y | Panic => mkRSys inner_new [] (remote_log b) local_log 0 [] [] end.

Definition single (id o i : Z) (deps : list OrderIndex) : Ref := Single id EntryFlag.ReadSuccess (mkOI o i) deps [id] 0.
Definition got (o i : Z) (r : Ref) : REvent := RemoteStore (ReadComplete (mkOI o i) r).

(** The answer to a snapshot of [o]: its last entry is [n]. *)
Definition answer (o n : Z) : REvent :=
  got o u64_max (Read uuid_nil EntryFlag.Nothing 0 0 (mkOI o u64_max) (mkOI o n) (mkOI 0 0)).

(** The remote log has two entries, the second depends on the first. *)
Definition two_entries : list REvent :=
  [RemoteTakes; answer 5 2; Turn; got 5 1 (single 1 5 1 []); got 5 2 (single 2 5 2 [mkOI 5 1]); Turn; Turn].

Definition after (evs : list REvent) : option RSystem :=
  match rsys_run (H := dev) 10 evs start with Done y => Some y | Panic => None end.

Lemma forwarded_run evs y : after evs = Some y -> rsys_run (H := dev) 10 evs start = Done y.
Proof. unfold after. destruct (rsys_run _ _ _) as [y'|]; [|done]. by intros [= ->]. Qed.

(** The first has been passed on, the second waits for its acknowledgement. *)
Lemma replicator_conserves_witness : exists y, after two_entries = Some y /\
  (exists sent, to_local_log (inner y) = PerformAppend <$> sent /\
     (given y ++ sent) ++ vals (inner y) ≡ₚ [direct (single 1 5 1 []); direct (single 2 5 2 [mkOI 5 1])]) /\
  vals (inner y) = [direct (single 2 5 2 [mkOI 5 1])].
Proof.
  destruct (after two_entries) as [y|] eqn:E; [|vm_compute in E; discriminate].
  exists y. split; [done|]. split.
  - destruct (replicator_conserves (H := dev) 10 b start eq_refl two_entries ltac:(vm_compute; reflexivity) y
                (forwarded_run _ _ E)) as (sent & S1 & S2 & _).
    exists sent. split; [done|]. vm_compute in E. injection E as <-. exact S2.
  - vm_compute in E. injection E as <-. vm_compute. reflexivity.
Defined.

(** The next message is the end of the first snapshot, and another one is under way. *)
Lemma replicator_no_panic_witness : exists y, after two_entries = Some y /\ from_logs y = [RespRead None] /\
  turn (H := dev) (RespRead None) (inner y) <> Panic /\ count is_snap (to_remote_log (inner y)) = 1.
Proof.
  destruct (after two_entries) as [y|] eqn:E; [|vm_compute in E; discriminate].
  assert (Hq : from_logs y = [RespRead None]) by (vm_compute in E; injection E as <-; reflexivity).
  exists y. split; [done|]. split; [done|]. split.
  - destruct (replicator_no_panic (H := dev) 10 b start eq_refl two_entries ltac:(vm_compute; reflexivity) y
                (forwarded_run _ _ E)) as (_ & _ & _ & Hp).
    intros Hpanic. by apply (Hp _ _ Hq) in Hpanic.
  - vm_compute in E. injection E as <-. vm_compute. reflexivity.
Defined.

(** The acknowledgements of the first two entries come in the other order; the third depends on
    the first, and is passed on before the first is known to be written. *)
Definition overtaking : list REvent :=
  [RemoteTakes; answer 5 3; Turn; got 5 1 (single 1 5 1 []); got 5 2 (single 2 5 2 []); Turn; Turn;
   LocalTakes; LocalTakes; LocalStore (WriteComplete 2 [mkOI 5 2]); Turn;
   got 5 3 (single 3 5 3 [mkOI 5 1]); Turn].

Example dependency_overtaken : exists y, after overtaking = Some y /\
  to_local_log (inner y) = [PerformAppend (direct (single 3 5 3 [mkOI 5 1]))] /\ acked (seen y) = [mkOI 5 2].
Proof. eexists. split; [vm_compute; reflexivity|]. split; vm_compute; reflexivity. Qed.

End Demo.
