(* ===== verification/DoubleBuffer.v ===== *)
(** * The write buffer of a connection ([fuzzy_log_packets/src/double_buffer.rs])

    What is to be written to a socket waits in two byte buffers, the first of which is being
    written, and, when those are full, in a list of whole messages.  The buffers are Rust [Vec]s:
    whether a message goes to a buffer or to the list depends on their capacities, so the model
    keeps them. *)

From stdpp Require Import base list.
From Stdlib Require Import ZArith Lia.
From S2P Require Import Prelude PacketCodec Packets.
Open Scope Z_scope.

(** ** Growable arrays

    [Vec] promises that a vector that must grow gets at least the capacity it needs, and no
    particular strategy beyond that. *)

Class VecGrowth := {
  grow : Z -> Z -> Z;
  grow_enough : forall capacity needed, needed <= grow capacity needed;
}.

Record Vec := mkVec { v_bytes : list Z; v_cap : Z }.

(** The capacity asked for, exactly: the code relies on it for its read buffer, the length of which
    it asserts to be the capacity. *)
Definition vec_with_capacity (cap : Z) : Vec := mkVec [] cap.
Definition vec_len (v : Vec) : Z := zlen (v_bytes v).
Definition vec_is_empty (v : Vec) : bool := vec_len v =? 0.
Definition vec_clear (v : Vec) : Vec := mkVec [] (v_cap v).

Definition vec_extend `{VecGrowth} (v : Vec) (bytes : list Z) : Vec :=
  let needed := vec_len v + zlen bytes in
  mkVec (v_bytes v ++ bytes) (if needed <=? v_cap v then v_cap v else grow (v_cap v) needed).

(** [contents.fill_vec(&mut v)], field by field. *)
Definition vec_fill `{VecGrowth} (contents : Ref) (v : Vec) : outcome Vec :=
  slices ← fill_slices Packet (ref_fields contents);
  Done (foldl vec_extend v slices).

(** ** The buffer *)

Record DoubleBuffer := mkDouble { first : Vec; second : Vec; pending : list (list Z) }.

Definition MAX_WRITE_BUFFER_SIZE : Z := 1024 * 10.

Definition with_first_buffer_capacity (cap : Z) : DoubleBuffer :=
  mkDouble (vec_with_capacity cap) (vec_with_capacity cap) [].

(** [DoubleBuffer::new] *)
Definition empty_buffer : DoubleBuffer := with_first_buffer_capacity 0.

Definition first_bytes (b : DoubleBuffer) : list Z := v_bytes (first b).

Definition buffer_can_hold_bytes (buffer : Vec) (bytes : Z) : bool := bytes <=? v_cap buffer - vec_len buffer.

Definition is_filling_first (b : DoubleBuffer) : bool := vec_len (second b) =? 0.

Definition is_empty (b : DoubleBuffer) : bool :=
  vec_is_empty (first b) && vec_is_empty (second b) && bool_decide (pending b = []).

Definition has_pending (b : DoubleBuffer) : bool := negb (bool_decide (pending b = [])).

Definition pending_len (b : DoubleBuffer) : Z := zlen (pending b).

(** The buffers are replaced by new ones. *)
Definition clear (b : DoubleBuffer) : DoubleBuffer := mkDouble (vec_with_capacity 0) (vec_with_capacity 0) [].

Definition can_hold_bytes (b : DoubleBuffer) (bytes : Z) : bool :=
  if has_pending b then false
  else (is_filling_first b && buffer_can_hold_bytes (first b) bytes) || buffer_can_hold_bytes (second b) bytes.

Section Filling.
Context `{VecGrowth}.

Definition try_fill_buffer (b : DoubleBuffer) (bytes : list Z) : DoubleBuffer * bool :=
  if is_filling_first b && (buffer_can_hold_bytes (first b) (zlen bytes) || vec_is_empty (first b))
  then (mkDouble (vec_extend (first b) bytes) (second b) (pending b), true)
  else if buffer_can_hold_bytes (second b) (zlen bytes) || (v_cap (second b) <? MAX_WRITE_BUFFER_SIZE)
  then (mkDouble (first b) (vec_extend (second b) bytes) (pending b), true)
  else (b, false).

Definition try_fill_buffer_from_contents (b : DoubleBuffer) (contents : Ref) : outcome (DoubleBuffer * bool) :=
  contents_len ← Packets.len contents;
  if is_filling_first b && (buffer_can_hold_bytes (first b) contents_len || vec_is_empty (first b)) then
    f ← vec_fill contents (first b);
    _ ← assert_ (vec_len (first b) <? vec_len f);
    Done (mkDouble f (second b) (pending b), true)
  else if buffer_can_hold_bytes (second b) contents_len || (v_cap (second b) <? MAX_WRITE_BUFFER_SIZE) then
    s ← vec_fill contents (second b);
    _ ← assert_ (vec_len (second b) <? vec_len s);
    Done (mkDouble (first b) s (pending b), true)
  else Done (b, false).

(** The loop over the pieces of a message. *)
Fixpoint try_fill_all (b : DoubleBuffer) (added : bool) (bytes : list (list Z)) : DoubleBuffer * bool :=
  match bytes with
  | [] => (b, added)
  | byte :: bytes =>
      let '(b, a) := try_fill_buffer b byte in try_fill_all b (added && a) bytes
  end.

Definition total_len (bytes : list (list Z)) : Z := zsum (zlen <$> bytes).

Definition fill (b : DoubleBuffer) (bytes : list (list Z)) : outcome (DoubleBuffer * bool) :=
  let write_len := total_len bytes in
  if has_pending b || negb (can_hold_bytes b write_len)
  then Done (mkDouble (first b) (second b) (pending b ++ [concat bytes]), false)
  else
    let '(b, added) := try_fill_all b true bytes in
    _ ← assert_ added; Done (b, added).

Definition fill_from_contents (b : DoubleBuffer) (contents : Ref) (additional : list (list Z))
  : outcome (DoubleBuffer * bool) :=
  contents_len ← Packets.len contents;
  let write_len := contents_len + total_len additional in
  if has_pending b || negb (can_hold_bytes b write_len) then
    pend ← Packets.fill_vec contents [];
    Done (mkDouble (first b) (second b) (pending b ++ [pend ++ concat additional]), false)
  else
    '(b, added) ← try_fill_buffer_from_contents b contents;
    let '(b, added) := try_fill_all b added additional in
    _ ← assert_ added; Done (b, added).

(** The loop of [flush_pending]; what is left stays pending. *)
Fixpoint flush_loop (b : DoubleBuffer) (pend : list (list Z)) : DoubleBuffer :=
  match pend with
  | [] => b
  | p :: rest =>
      let '(b', added) := try_fill_buffer b p in
      if added then flush_loop b' rest else mkDouble (first b) (second b) (p :: rest)
  end.

Definition flush_pending (b : DoubleBuffer) : DoubleBuffer :=
  flush_loop (mkDouble (first b) (second b) []) (pending b).

Definition swap_if_needed (b : DoubleBuffer) : DoubleBuffer :=
  let f := vec_clear (first b) in
  flush_pending (if 0 <? vec_len (second b) then mkDouble (second b) f (pending b)
                 else mkDouble f (second b) (pending b)).

(** ** The bytes that wait, in order *)

Definition queued (b : DoubleBuffer) : list Z :=
  v_bytes (first b) ++ v_bytes (second b) ++ concat (pending b).

Definition vec_ok (v : Vec) : Prop := vec_len v <= v_cap v.

Record db_ok (b : DoubleBuffer) : Prop := {
  db_first : vec_ok (first b);
  db_second : vec_ok (second b);
  db_order : v_bytes (first b) = [] -> v_bytes (second b) = [];
}.

Lemma vec_len_0 v : (vec_len v =? 0) = true <-> v_bytes v = [].
Proof.
  unfold vec_len, zlen. rewrite Z.eqb_eq. destruct (v_bytes v); simpl; split; intros; try done; lia.
Qed.

Lemma vec_extend_ok v bs : vec_ok v -> vec_ok (vec_extend v bs).
Proof.
  unfold vec_ok, vec_extend, vec_len. simpl. rewrite zlen_app. intros Hv.
  destruct (_ <=? _) eqn:E; [lia|]. apply grow_enough.
Qed.

Lemma can_hold_extend v bs n :
  buffer_can_hold_bytes v (zlen bs + n) = true -> 0 <= n ->
  buffer_can_hold_bytes v (zlen bs) = true /\ buffer_can_hold_bytes (vec_extend v bs) n = true.
Proof.
  unfold buffer_can_hold_bytes, vec_extend, vec_len. simpl. rewrite !Z.leb_le, zlen_app. intros Hv Hn.
  split; [lia|]. destruct (_ <=? _) eqn:E; lia.
Qed.

Lemma can_hold_less v m n : buffer_can_hold_bytes v m = true -> n <= m -> buffer_can_hold_bytes v n = true.
Proof. unfold buffer_can_hold_bytes. rewrite !Z.leb_le. lia. Qed.

Lemma foldl_extend vs v : vec_ok v ->
  vec_ok (foldl vec_extend v vs) /\ v_bytes (foldl vec_extend v vs) = v_bytes v ++ concat vs /\
  forall n, buffer_can_hold_bytes v (zlen (concat vs) + n) = true -> 0 <= n ->
    buffer_can_hold_bytes (foldl vec_extend v vs) n = true.
Proof.
  revert v. induction vs as [|b vs IH]; intros v Hv; simpl; [by rewrite app_nil_r|].
  destruct (IH (vec_extend v b) (vec_extend_ok v b Hv)) as (H1 & H2 & H3). split_and!; [done|..].
  - rewrite H2. simpl. by rewrite <-app_assoc.
  - intros n Hn Hp. apply H3; [|done]. apply can_hold_extend; [by rewrite Z.add_assoc, <-zlen_app|].
    pose proof (zlen_nonneg (concat vs)). lia.
Qed.

Lemma vec_fill_valid r v : valid r = true -> vec_ok v ->
  exists v', vec_fill r v = Done v' /\ vec_ok v' /\ v_bytes v' = v_bytes v ++ bytes_of r /\
    forall n, buffer_can_hold_bytes v (zlen (bytes_of r) + n) = true -> 0 <= n ->
      buffer_can_hold_bytes v' n = true.
Proof.
  intros Hr Hv. pose proof (fill_valid r [] Hr) as Hf.
  unfold Packets.fill_vec, PacketCodec.fill_vec in Hf. unfold vec_fill.
  destruct (fill_slices Packet (ref_fields r)) as [slices|]; [|done]. simpl in *.
  injection Hf as Hf. eexists. split; [reflexivity|]. rewrite <-Hf. by apply foldl_extend.
Qed.

Definition room (b : DoubleBuffer) (n : Z) : bool :=
  (is_filling_first b && buffer_can_hold_bytes (first b) n) || buffer_can_hold_bytes (second b) n.

(** [b'] is [b] with bytes queued behind the others; what is being written stays in front. *)
Record appended (b : DoubleBuffer) (out : list Z) (b' : DoubleBuffer) : Prop := {
  ap_ok : db_ok b';
  ap_queued : queued b' = queued b ++ out;
  ap_first : first_bytes b `prefix_of` first_bytes b';
}.

Lemma appended_nil b : db_ok b -> appended b [] b.
Proof. intros Hb. constructor; [done| |done]. by rewrite app_nil_r. Qed.

Lemma appended_app b1 b2 b3 out1 out2 : appended b1 out1 b2 -> appended b2 out2 b3 -> appended b1 (out1 ++ out2) b3.
Proof.
  intros [_ H1 H2] [H3 H4 H5]. constructor; [done| |by etrans]. by rewrite H4, H1, <-app_assoc.
Qed.

(** Bytes go to the first buffer while the second one is empty, and to the second one when the
    first is not: they are queued behind the others. *)
Lemma first_extended b v bytes :
  db_ok b -> pending b = [] -> is_filling_first b = true -> vec_ok v -> v_bytes v = v_bytes (first b) ++ bytes ->
  appended b bytes (mkDouble v (second b) (pending b)).
Proof.
  intros [H1 H2 H3] Hp Ef%vec_len_0 Hv Hb. constructor.
  - constructor; simpl; auto.
  - unfold queued. simpl. rewrite Hb, Hp, Ef. simpl. by rewrite !app_nil_r.
  - unfold first_bytes. simpl. rewrite Hb. by apply prefix_app_r.
Qed.

Lemma second_extended b v bytes fits :
  db_ok b -> pending b = [] -> is_filling_first b && (fits || vec_is_empty (first b)) = false -> vec_ok v ->
  v_bytes v = v_bytes (second b) ++ bytes ->
  appended b bytes (mkDouble (first b) v (pending b)).
Proof.
  intros [H1 H2 H3] Hp Ef Hv Hb. constructor; [..|done].
  - constructor; simpl; [done..|]. intros Hf. exfalso. pose proof (H3 Hf) as Hs.
    apply vec_len_0 in Hf, Hs. unfold is_filling_first, vec_is_empty in Ef. rewrite Hf, Hs, orb_true_r in Ef. done.
  - unfold queued. simpl. rewrite Hb, Hp. simpl. by rewrite !app_nil_r, app_assoc.
Qed.

(** What a piece that is added does. *)
Lemma try_fill_spec b bytes b' :
  db_ok b -> pending b = [] -> try_fill_buffer b bytes = (b', true) ->
  appended b bytes b' /\ pending b' = [].
Proof.
  intros Hb Hp. unfold try_fill_buffer. destruct (_ && _) eqn:E1.
  - apply andb_true_iff in E1 as [E1 _]. intros [= <-]. split; [|done].
    apply first_extended; [done..| |done]. apply vec_extend_ok, Hb.
  - case_match; [|done]. intros [= <-]. split; [|done].
    eapply second_extended; [done..| |done]. apply vec_extend_ok, Hb.
Qed.

(** Where there is room for several pieces, there is for the first, and then for the others. *)
Lemma try_fill_room b bs n :
  room b (zlen bs + n) = true -> 0 <= n ->
  exists b', try_fill_buffer b bs = (b', true) /\ room b' n = true.
Proof.
  intros Hr Hn. pose proof (zlen_nonneg bs) as Hz. unfold try_fill_buffer, room in *.
  apply orb_true_iff in Hr as [Hr|Hr].
  - apply andb_true_iff in Hr as [Ef Hr]. apply can_hold_extend in Hr as [Ha Hb]; [|done].
    rewrite Ef, Ha. simpl. eexists. split; [reflexivity|]. simpl. unfold is_filling_first in *. simpl.
    by rewrite Ef, Hb.
  - destruct (_ && _); simpl.
    + eexists. split; [reflexivity|]. apply orb_true_iff. right. simpl. eapply can_hold_less; [done|lia].
    + apply can_hold_extend in Hr as [Ha Hb]; [|done]. rewrite Ha. simpl. eexists. split; [reflexivity|].
      apply orb_true_iff. by right.
Qed.

Lemma total_len_nonneg bytes : 0 <= total_len bytes.
Proof.
  induction bytes as [|p bytes IH]; [done|]. pose proof (zlen_nonneg p).
  change (0 <= zlen p + total_len bytes). lia.
Qed.

Lemma try_fill_all_spec bytes : forall b,
  db_ok b -> pending b = [] -> room b (total_len bytes) = true ->
  exists b', try_fill_all b true bytes = (b', true) /\ appended b (concat bytes) b'.
Proof.
  induction bytes as [|p bytes IH]; intros b Hb Hp Hr; simpl.
  { eexists. split; [reflexivity|]. by apply appended_nil. }
  destruct (try_fill_room b p (total_len bytes) Hr (total_len_nonneg bytes)) as (b1 & E1 & Hr1).
  destruct (try_fill_spec b p b1 Hb Hp E1) as (Hb1 & Hp1). rewrite E1. simpl.
  destruct (IH b1 (ap_ok _ _ _ Hb1) Hp1 Hr1) as (b' & E & Hb'). exists b'. split; [done|].
  by eapply appended_app.
Qed.

Lemma pended b p : db_ok b -> appended b p (mkDouble (first b) (second b) (pending b ++ [p])).
Proof.
  intros []. constructor; [done| |done].
  unfold queued. simpl. rewrite concat_app. simpl. by rewrite app_nil_r, <-!app_assoc.
Qed.

Lemma can_hold_room b n : can_hold_bytes b n = true -> pending b = [] /\ room b n = true.
Proof.
  unfold can_hold_bytes, has_pending. case_bool_decide; [|done]. by split.
Qed.

(** A message is queued behind the others, and the assertion holds. *)
Lemma fill_spec b bytes : db_ok b ->
  exists b' a, fill b bytes = Done (b', a) /\ appended b (concat bytes) b'.
Proof.
  intros Hb. unfold fill. destruct (has_pending b || _) eqn:E.
  - eexists _, _. split; [reflexivity|]. by apply pended.
  - apply orb_false_iff in E as [_ E]. apply negb_false_iff, can_hold_room in E as [Hp Hr].
    destruct (try_fill_all_spec bytes b Hb Hp Hr) as (b' & -> & Hb'). by eexists _, _.
Qed.

Lemma bytes_of_pos r : 0 < zlen (bytes_of r).
Proof. unfold bytes_of, packet_bytes, zlen. simpl. lia. Qed.

(** On contents, the buffer does what it does on their bytes. *)
Lemma try_fill_contents r b n : db_ok b -> pending b = [] -> valid r = true ->
  room b (zlen (bytes_of r) + n) = true -> 0 <= n ->
  exists b', try_fill_buffer_from_contents b r = Done (b', true) /\ appended b (bytes_of r) b' /\
             pending b' = [] /\ room b' n = true.
Proof.
  intros Hb Hp Hr Hroom Hn. unfold try_fill_buffer_from_contents. rewrite len_valid by done. simpl.
  pose proof (bytes_of_pos r) as Hpos. pose proof Hb as [Hf Hs _].
  destruct (_ && _) eqn:E1.
  - destruct (vec_fill_valid r (first b) Hr Hf) as (v & -> & Hv & Hvb & Hvn). simpl.
    unfold vec_len at 2. rewrite Hvb, zlen_app, (proj2 (Z.ltb_lt _ _)) by (unfold vec_len; lia).
    eexists. split; [reflexivity|]. apply andb_true_iff in E1 as [E1 _].
    split_and!; [by apply first_extended|done|].
    unfold room in *. simpl. unfold is_filling_first in *. simpl. rewrite E1 in *. simpl in *.
    apply orb_true_iff in Hroom as [Hroom|Hroom]; [by rewrite Hvn|].
    rewrite (can_hold_less _ _ n Hroom) by lia. by rewrite orb_true_r.
  - assert (Hh : buffer_can_hold_bytes (second b) (zlen (bytes_of r) + n) = true).
    { unfold room in Hroom. destruct (is_filling_first b); [|done]. simpl in *.
      apply orb_true_iff in Hroom as [Hroom|?]; [|done]. apply orb_false_iff in E1 as [E1 _].
      apply (can_hold_less _ _ (zlen (bytes_of r))) in Hroom; [congruence|lia]. }
    rewrite (can_hold_less _ _ _ Hh) by lia. simpl.
    destruct (vec_fill_valid r (second b) Hr Hs) as (v & -> & Hv & Hvb & Hvn). simpl.
    unfold vec_len at 2. rewrite Hvb, zlen_app, (proj2 (Z.ltb_lt _ _)) by (unfold vec_len; lia).
    eexists. split; [reflexivity|].
    split_and!; [by eapply second_extended|done|].
    unfold room. simpl. rewrite Hvn by done. apply orb_true_r.
Qed.

Lemma fill_contents_spec b r additional : db_ok b -> valid r = true ->
  exists b' a, fill_from_contents b r additional = Done (b', a) /\
    appended b (bytes_of r ++ concat additional) b'.
Proof.
  intros Hb Hr. unfold fill_from_contents. rewrite len_valid by done. simpl.
  destruct (has_pending b || _) eqn:E.
  - rewrite fill_valid by done. simpl. eexists _, _. split; [reflexivity|]. by apply pended.
  - apply orb_false_iff in E as [_ E]. apply negb_false_iff, can_hold_room in E as [Hp Hroom].
    destruct (try_fill_contents r b _ Hb Hp Hr Hroom (total_len_nonneg _)) as (b1 & -> & Hb1 & Hp1 & Hr1).
    simpl. destruct (try_fill_all_spec additional b1 (ap_ok _ _ _ Hb1) Hp1 Hr1) as (b' & -> & Hb').
    eexists _, _. split; [reflexivity|]. exact (appended_app _ _ _ _ _ Hb1 Hb').
Qed.

(** *** Capacities *)

(** Buffers keep the capacity they start with, or more. *)
Definition caps (n : Z) (b : DoubleBuffer) : Prop := n <= v_cap (first b) /\ n <= v_cap (second b).

Lemma vec_extend_cap v bs : v_cap v <= v_cap (vec_extend v bs).
Proof.
  unfold vec_extend. cbn [v_cap]. destruct (_ <=? _) eqn:E; [lia|]. apply Z.leb_gt in E.
  pose proof (grow_enough (v_cap v) (vec_len v + zlen bs)). lia.
Qed.

Lemma foldl_extend_cap vs v : v_cap v <= v_cap (foldl vec_extend v vs).
Proof.
  revert v. induction vs as [|b vs IH]; intros v; simpl; [lia|]. pose proof (vec_extend_cap v b).
  pose proof (IH (vec_extend v b)). lia.
Qed.

Lemma try_fill_caps n b bs : caps n b -> caps n (try_fill_buffer b bs).1.
Proof.
  intros [H1 H2]. unfold try_fill_buffer. repeat case_match; split; simpl; try done;
    (etrans; [|apply vec_extend_cap]); done.
Qed.

Lemma try_fill_all_caps n bytes : forall b a, caps n b -> caps n (try_fill_all b a bytes).1.
Proof.
  induction bytes as [|p bytes IH]; intros b a Hb; [done|]. cbn [try_fill_all].
  pose proof (try_fill_caps n b p Hb). destruct (try_fill_buffer b p). by apply IH.
Qed.

Lemma fill_caps n b bytes b' a : caps n b -> fill b bytes = Done (b', a) -> caps n b'.
Proof.
  intros Hb. unfold fill. case_match; [by intros [= <- <-]|].
  pose proof (try_fill_all_caps n bytes b true Hb). destruct (try_fill_all b true bytes). intros. by inv_done.
Qed.

Lemma fill_contents_caps n b r extra b' a : caps n b -> fill_from_contents b r extra = Done (b', a) -> caps n b'.
Proof.
  intros Hb E. unfold fill_from_contents in E. inv_done. case_match.
  { by inv_done. }
  inv_done. destruct x0 as [b1 a1].
  assert (Hb1 : caps n b1).
  { destruct Hb as [C1 C2]. unfold try_fill_buffer_from_contents, vec_fill in *. inv_done.
    repeat case_match; inv_done; (split; simpl); first [done | etrans; [|apply foldl_extend_cap]; done]. }
  pose proof (try_fill_all_caps n extra b1 a1 Hb1). destruct (try_fill_all b1 a1 extra). by inv_done.
Qed.

(** Messages that an empty buffer can hold are never kept waiting by an empty buffer. *)
Definition ready (b : DoubleBuffer) : Prop := first_bytes b = [] -> pending b = [].

Lemma must_wait n b len : db_ok b -> caps n b -> len <= n -> ready b ->
  has_pending b || negb (can_hold_bytes b len) = true -> first_bytes b <> [].
Proof.
  intros Hb [C1 _] Hl Hr E Hf. pose proof (Hr Hf) as Hp. pose proof (db_order _ Hb Hf) as Hs.
  unfold can_hold_bytes, has_pending, is_filling_first, buffer_can_hold_bytes, vec_len, first_bytes in *.
  rewrite Hp, Hf, Hs in E. simpl in E. rewrite (proj2 (Z.leb_le _ _)) in E; [done|]. unfold zlen. simpl. lia.
Qed.

Lemma ready_pended b b' : first b' = first b -> first_bytes b <> [] -> ready b'.
Proof. intros Hf Hn H1. unfold first_bytes in *. rewrite Hf in H1. done. Qed.

Lemma try_fill_pending b bs : pending (try_fill_buffer b bs).1 = pending b.
Proof. unfold try_fill_buffer. by repeat case_match. Qed.

Lemma try_fill_all_pending bytes : forall b a, pending (try_fill_all b a bytes).1 = pending b.
Proof.
  induction bytes as [|p bytes IH]; intros b a; [done|]. cbn [try_fill_all].
  pose proof (try_fill_pending b p). destruct (try_fill_buffer b p). by rewrite IH.
Qed.

Lemma fill_ready n b bytes b' a : db_ok b -> caps n b -> total_len bytes <= n -> ready b ->
  fill b bytes = Done (b', a) -> ready b'.
Proof.
  intros Hb Hc Hl Hr. unfold fill. case_match eqn:E.
  - intros [= <- <-]. apply (ready_pended b); [done|]. by eapply must_wait.
  - apply orb_false_iff in E as [_ E]. apply negb_false_iff, can_hold_room in E as [Hp _].
    pose proof (try_fill_all_pending bytes b true). destruct (try_fill_all b true bytes). intros. inv_done.
    intros _. simpl in *. congruence.
Qed.

Lemma fill_contents_ready n b r extra b' a : db_ok b -> valid r = true -> caps n b ->
  zlen (bytes_of r) + total_len extra <= n -> ready b -> fill_from_contents b r extra = Done (b', a) -> ready b'.
Proof.
  intros Hb Hv Hc Hl Hr. unfold fill_from_contents. rewrite len_valid by done. simpl. case_match eqn:E.
  - rewrite fill_valid by done. intros [= <- <-]. apply (ready_pended b); [done|]. by eapply must_wait.
  - apply orb_false_iff in E as [_ E]. apply negb_false_iff, can_hold_room in E as [Hp Hroom].
    destruct (try_fill_contents r b _ Hb Hp Hv Hroom (total_len_nonneg _)) as (b1 & -> & _ & Hp1 & _). simpl.
    pose proof (try_fill_all_pending extra b1 true). destruct (try_fill_all b1 true extra). intros. inv_done.
    intros _. simpl in *. congruence.
Qed.

(** *** Taking out *)

Lemma flush_pending_loop_spec pend : forall b, db_ok b -> pending b = [] ->
  let b' := flush_loop b pend in
  db_ok b' /\ queued b' = queued b ++ concat pend /\ (first_bytes b' = [] -> is_empty b' = true).
Proof.
  assert (Hlast : forall b p, db_ok b -> try_fill_buffer b p = (b, false) -> first_bytes b <> []).
  { intros b p [_ _ Ho] Ef Hn. pose proof (Ho Hn) as Hs. apply vec_len_0 in Hn, Hs.
    unfold try_fill_buffer, is_filling_first, vec_is_empty in Ef. by rewrite Hn, Hs, orb_true_r in Ef. }
  induction pend as [|p pend IH]; intros b Hb Hp; simpl.
  - rewrite app_nil_r. split_and!; [done..|]. intros Hn. pose proof (db_order _ Hb Hn) as Hs.
    unfold is_empty, vec_is_empty. apply vec_len_0 in Hn, Hs. by rewrite Hn, Hs, Hp.
  - destruct (try_fill_buffer b p) as [b1 [|]] eqn:E1.
    + destruct (try_fill_spec b p b1 Hb Hp E1) as ([Hb1 Hq1 _] & Hp1).
      destruct (IH b1 Hb1 Hp1) as (H1 & H2 & H3). split_and!; [done| |done]. by rewrite H2, Hq1, <-app_assoc.
    + assert (b1 = b) as ->. { unfold try_fill_buffer in E1. repeat case_match; congruence. }
      split_and!; [by destruct Hb| |].
      * unfold queued. simpl. rewrite Hp. simpl. by rewrite app_nil_r, <-app_assoc.
      * intros Hn. exfalso. by eapply Hlast.
Qed.

(** When the first buffer has been written, the others move up; it is empty only if all are. *)
Lemma swap_spec b : db_ok b ->
  let b' := swap_if_needed b in
  db_ok b' /\ queued b = first_bytes b ++ queued b' /\ (first_bytes b' = [] -> is_empty b' = true).
Proof.
  intros [H1 H2 H3]. unfold swap_if_needed, flush_pending.
  assert (Hc : forall v, vec_ok v -> vec_ok (vec_clear v)).
  { intros v. unfold vec_ok, vec_clear, vec_len, zlen. simpl. lia. }
  destruct (0 <? vec_len (second b)) eqn:E; simpl.
  - destruct (flush_pending_loop_spec (pending b) (mkDouble (second b) (vec_clear (first b)) [])) as (Ha & Hb & Hd); [|done|].
    { constructor; simpl; auto. }
    split_and!; [done| |done]. rewrite Hb. unfold queued, first_bytes. simpl. by rewrite app_nil_r, <-?app_assoc.
  - assert (Hs : v_bytes (second b) = []).
    { apply vec_len_0. apply Z.ltb_ge in E. apply Z.eqb_eq. unfold vec_len in *.
      pose proof (zlen_nonneg (v_bytes (second b))). lia. }
    destruct (flush_pending_loop_spec (pending b) (mkDouble (vec_clear (first b)) (second b) [])) as (Ha & Hb & Hd); [|done|].
    { constructor; simpl; auto. }
    split_and!; [done| |done]. rewrite Hb. unfold queued, first_bytes. simpl. by rewrite Hs.
Qed.

Lemma flush_loop_caps n pend : forall b, caps n b -> caps n (flush_loop b pend).
Proof.
  induction pend as [|p pend IH]; intros b Hb; [done|]. cbn [flush_loop].
  pose proof (try_fill_caps n b p Hb). destruct (try_fill_buffer b p) as [b' []]; [by apply IH|done].
Qed.

Lemma swap_caps n b : caps n b -> caps n (swap_if_needed b).
Proof. intros [C1 C2]. apply flush_loop_caps. by case_match. Qed.

Lemma swap_ready b : db_ok b -> ready (swap_if_needed b).
Proof.
  intros Hb. destruct (swap_spec b Hb) as (_ & _ & He). intros Hf. apply He in Hf.
  unfold is_empty in Hf. apply andb_true_iff in Hf as [_ Hf]. by apply bool_decide_eq_true in Hf.
Qed.
End Filling.
