(* ===== verification/Reactor.v ===== *)
(** * The event loop ([reactor/src/lib.rs])

    Workers and client stores run the same loop: it waits for events, gives each to the
    connection with the event's token, and keeps a queue of the connections that have more to do
    ([awake]).  A connection ([TcpHandler]) writes what waits in its [DoubleBuffer], reads what
    has come, cuts it into messages with a reader and hands each to a handler.

    Readers, handlers and what runs after a write are traits of the source, classes here.  A
    socket is a script of what its calls answer: any sequence of answers that a non-blocking
    socket may give is one, and a script that has ended would block.  The poll of [mio] is the
    list of events it returns; registering with it has no effect on the state. *)

From stdpp Require Import base gmap list.
From Stdlib Require Import ZArith Lia.
From S2P Require Import Prelude PacketCodec Packets DoubleBuffer.
Open Scope Z_scope.

(** ** Sockets *)

Inductive ErrorKind := WouldBlock | Interrupted | NotConnected | InvalidInput | OtherKind (e : Z).

Inductive ReadAnswer := Got (bytes : list Z) | ReadErr (e : ErrorKind).
Inductive WriteAnswer := Took (n : nat) | WriteErr (e : ErrorKind).

Record TcpStream := mkStream {
  incoming : list ReadAnswer;
  outgoing : list WriteAnswer;
  sent : list Z;               (* the bytes it took, in order *)
  read_blocked : bool;         (* the last read would have blocked: an event will follow *)
  write_blocked : bool;
}.

Definition stream_new (incoming : list ReadAnswer) (outgoing : list WriteAnswer) : TcpStream :=
  mkStream incoming outgoing [] false false.

Definition blocks (e : ErrorKind) : bool := match e with WouldBlock => true | _ => false end.

(** [Read::read] with a buffer of [n] bytes. *)
Definition stream_read (s : TcpStream) (n : nat) : TcpStream * (list Z + ErrorKind) :=
  let next rest blocked := mkStream rest (outgoing s) (sent s) blocked (write_blocked s) in
  match incoming s with
  | [] => (next [] true, inr WouldBlock)
  | ReadErr e :: rest => (next rest (blocks e), inr e)
  | Got bytes :: rest =>
      if (length bytes <=? n)%nat then (next rest false, inl bytes)
      else (next (Got (drop n bytes) :: rest) false, inl (take n bytes))
  end.

(** [Write::write] *)
Definition stream_write (s : TcpStream) (bytes : list Z) : TcpStream * (Z + ErrorKind) :=
  let next rest took blocked := mkStream (incoming s) rest (sent s ++ took) (read_blocked s) blocked in
  match outgoing s with
  | [] => (next [] [] true, inr WouldBlock)
  | WriteErr e :: rest => (next rest [] (blocks e), inr e)
  | Took n :: rest => let took := take n bytes in (next rest took false, inl (zlen took))
  end.

(** ** [TcpIo] *)

Record TcpIo := mkIo {
  stream : TcpStream;
  read_buffer : Vec;
  bytes_read : Z;
  write_buffer : DoubleBuffer;
  bytes_written : Z;
  polling_read : bool;
  polling_write : bool;
  marked_awake : bool;               (* is_marked_as_staying_awake *)
  writes_backpressure_reads : bool;
  ignore_backpressure : bool;
  marked_backpressured : bool;       (* is_marked_as_backpressured *)
}.

Definition io_new (s : TcpStream) : TcpIo :=
  mkIo s (mkVec (replicate (Z.to_nat 4096) 0) 4096) 0 (with_first_buffer_capacity 4096) 0
       true false false false false false.

Definition with_stream (io : TcpIo) s := mkIo s (read_buffer io) (bytes_read io) (write_buffer io) (bytes_written io)
  (polling_read io) (polling_write io) (marked_awake io) (writes_backpressure_reads io) (ignore_backpressure io)
  (marked_backpressured io).
Definition with_read (io : TcpIo) b n := mkIo (stream io) b n (write_buffer io) (bytes_written io)
  (polling_read io) (polling_write io) (marked_awake io) (writes_backpressure_reads io) (ignore_backpressure io)
  (marked_backpressured io).
Definition with_write (io : TcpIo) b n := mkIo (stream io) (read_buffer io) (bytes_read io) b n
  (polling_read io) (polling_write io) (marked_awake io) (writes_backpressure_reads io) (ignore_backpressure io)
  (marked_backpressured io).
Definition with_polling (io : TcpIo) r w := mkIo (stream io) (read_buffer io) (bytes_read io) (write_buffer io)
  (bytes_written io) r w (marked_awake io) (writes_backpressure_reads io) (ignore_backpressure io)
  (marked_backpressured io).
Definition with_flags (io : TcpIo) a wbr i b := mkIo (stream io) (read_buffer io) (bytes_read io) (write_buffer io)
  (bytes_written io) (polling_read io) (polling_write io) a wbr i b.

Definition set_writes_backpressure_reads (wbr : bool) (io : TcpIo) : TcpIo :=
  with_flags io (marked_awake io) wbr (ignore_backpressure io) (marked_backpressured io).
Definition io_ignore_backpressure (io : TcpIo) : TcpIo :=
  with_flags io (marked_awake io) (writes_backpressure_reads io) true (marked_backpressured io).
Definition io_mark_as_backpressured (io : TcpIo) : TcpIo :=
  with_flags io (marked_awake io) (writes_backpressure_reads io) (ignore_backpressure io) true.
Definition io_mark_as_not_backpressured (io : TcpIo) : TcpIo :=
  with_flags io (marked_awake io) (writes_backpressure_reads io) (ignore_backpressure io) false.
Definition io_mark_as_staying_awake (io : TcpIo) : TcpIo :=
  with_flags io true (writes_backpressure_reads io) (ignore_backpressure io) (marked_backpressured io).
Definition on_wake (io : TcpIo) : TcpIo :=
  with_flags io false (writes_backpressure_reads io) (ignore_backpressure io) (marked_backpressured io).

Definition set_polling_read (io : TcpIo) : TcpIo := with_polling io true (polling_write io).
Definition set_polling_write (io : TcpIo) : TcpIo := with_polling io (polling_read io) true.

Definition io_is_overflowing (io : TcpIo) : bool := has_pending (write_buffer io).
Definition io_is_backpressured (io : TcpIo) : bool :=
  (marked_backpressured io || has_pending (write_buffer io)) && negb (ignore_backpressure io).
Definition is_polling_read (io : TcpIo) : bool := polling_read io && negb (io_is_backpressured io).
Definition is_polling_write (io : TcpIo) : bool := polling_write io.

Definition io_needs_to_mark_as_staying_awake (io : TcpIo) : bool :=
  (is_polling_read io || polling_write io) && negb (marked_awake io).

Definition read_bytes (io : TcpIo) : list Z := take (Z.to_nat (bytes_read io)) (v_bytes (read_buffer io)).

(** The bytes of a buffer are overwritten from [at_] on. *)
Definition overwrite (v : Vec) (at_ : nat) (bytes : list Z) : Vec :=
  mkVec (take at_ (v_bytes v) ++ bytes ++ drop (at_ + length bytes) (v_bytes v)) (v_cap v).

(** [&self.read_buffer[self.bytes_read..]]: its length. *)
Definition spare (io : TcpIo) : outcome Z :=
  _ ← assert_ (bytes_read io <=? vec_len (read_buffer io));
  Done (vec_len (read_buffer io) - bytes_read io).

Definition io_read (io : TcpIo) : outcome (TcpIo * (Z + ErrorKind)) :=
  n ← spare io;
  if n =? 0 then Done (io, inl 0)
  else
    let '(s, res) := stream_read (stream io) (Z.to_nat n) in
    let io := with_stream io s in
    Done (match res with
          | inl bytes =>
              let io := with_polling io true (polling_write io) in
              (with_read io (overwrite (read_buffer io) (Z.to_nat (bytes_read io)) bytes) (bytes_read io + zlen bytes),
               inl (zlen bytes))
          | inr WouldBlock => (with_polling io false (polling_write io), inl 0)
          | inr Interrupted => (io, inl 0)
          | inr e => (io, inr e)
          end).

(** [assert_eq!(self.read_buffer.len(), self.read_buffer.capacity())] *)
Definition assert_full (v : Vec) : outcome unit := assert_ (vec_len v =? v_cap v).

Definition consume_bytes (io : TcpIo) (bytes : Z) : outcome TcpIo :=
  _ ← assert_ (bytes <=? bytes_read io);
  _ ← assert_full (read_buffer io);
  let len := bytes_read io - bytes in
  let src := take (Z.to_nat len) (drop (Z.to_nat bytes) (v_bytes (read_buffer io))) in
  let b := overwrite (read_buffer io) 0 src in
  _ ← assert_full b;
  Done (with_read io b len).

Section Io.
Context `{Build} `{VecGrowth}.

Definition zeros (n : Z) : list Z := replicate (Z.to_nat n) 0.

Definition read_additional (io : TcpIo) (bytes : Z) : outcome TcpIo :=
  let b := vec_extend (read_buffer io) (zeros bytes) in
  let b := if vec_len b <? v_cap b then vec_extend b (zeros (v_cap b - vec_len b)) else b in
  _ ← assert_full b;
  Done (with_read io b (bytes_read io)).

Definition ensure_additional_read (io : TcpIo) (bytes : Z) : outcome TcpIo :=
  n ← spare io;
  if bytes <=? n then _ ← assert_full (read_buffer io); Done io
  else read_additional io (bytes - n).

Definition io_write (io : TcpIo) : outcome (TcpIo * (Z + ErrorKind)) :=
  if is_empty (write_buffer io) then Done (with_polling io (polling_read io) false, inl 0)
  else
    _ ← debug_assert (negb (bool_decide (first_bytes (write_buffer io) = [])));
    _ ← assert_ (bytes_written io <=? zlen (first_bytes (write_buffer io)));
    let '(s, res) := stream_write (stream io) (drop (Z.to_nat (bytes_written io)) (first_bytes (write_buffer io))) in
    let io := with_stream io s in
    Done (match res with
          | inr WouldBlock => (with_polling io (polling_read io) false, inl 0)
          | inr Interrupted => (io, inl 0)
          | inr e => (io, inr e)
          | inl wrote =>
              let io := with_polling io (polling_read io) true in
              let written := bytes_written io + wrote in
              if written <? zlen (first_bytes (write_buffer io))
              then (with_write io (write_buffer io) written, inl wrote)
              else (with_write io (swap_if_needed (write_buffer io)) 0, inl wrote)
          end).

(** [TcpWriter]: the write half of a connection. *)
Record TcpWriter := mkWriter { w_buffer : DoubleBuffer; w_polling : bool }.

Definition add_bytes_to_write (w : TcpWriter) (bytes : list (list Z)) : outcome TcpWriter :=
  '(b, _) ← fill (w_buffer w) bytes; Done (mkWriter b true).

Definition add_contents_to_write (w : TcpWriter) (contents : Ref) (extra : list (list Z)) : outcome TcpWriter :=
  '(b, _) ← fill_from_contents (w_buffer w) contents extra; Done (mkWriter b true).

Definition is_overflowing (w : TcpWriter) : bool := has_pending (w_buffer w).

Definition writer (io : TcpIo) : TcpWriter := mkWriter (write_buffer io) (polling_write io).
Definition with_writer (io : TcpIo) (w : TcpWriter) : TcpIo :=
  with_polling (with_write io (w_buffer w) (bytes_written io)) (polling_read io) (w_polling w).

(** [TcpIo] and [TcpWriter] have the same two methods. *)
Definition io_add_bytes_to_write (io : TcpIo) (bytes : list (list Z)) : outcome TcpIo :=
  w ← add_bytes_to_write (writer io) bytes; Done (with_writer io w).
Definition io_add_contents_to_write (io : TcpIo) (contents : Ref) (extra : list (list Z)) : outcome TcpIo :=
  w ← add_contents_to_write (writer io) contents extra; Done (with_writer io w).
End Io.

(** ** The traits *)

Inductive MessageReaderError (E : Type) := NeedMoreBytes (n : Z) | Other (e : E).
Arguments NeedMoreBytes {E} n.
Arguments Other {E} e.

Class MessageReader (R Msg E : Type) :=
  deserialize_message : R -> list Z -> outcome (R * (Msg * Z + MessageReaderError E)).

(** [Ok(())] is [true]. *)
Class MessageHandler (H Inner Msg : Type) :=
  handle_message : H -> TcpWriter -> Inner -> Msg -> outcome (H * TcpWriter * Inner * bool).

Class AfterWrite (A Inner : Type) :=
  after_write : A -> TcpWriter -> Inner -> Z -> Z -> outcome (A * TcpWriter * Inner).

#[export] Instance unit_after_write (Inner : Type) : AfterWrite unit Inner :=
  fun a w inner _ _ => Done (a, w, inner).

Class Wakeable (P : Type) := {
  needs_to_mark_as_staying_awake : P -> Z -> bool;
  mark_as_staying_awake : P -> Z -> P;
  is_marked_as_staying_awake : P -> Z -> bool;
}.

Record Event := mkEvent { ev_token : Z; ev_readable : bool; ev_writable : bool }.

Class Handler (P Inner E : Type) := {
  on_event : P -> Inner -> Z -> Event -> outcome (P * Inner * option E);
  on_poll : P -> Inner -> Z -> outcome (P * Inner * option E);
  on_error : P -> E -> P * bool;
  after_work : P -> Inner -> outcome (P * Inner);
}.

(** ** Cutting what was read into messages *)

Section Messages.
Context {R Msg E : Type} `{MessageReader R Msg E}.

Record Messages := mkMessages {
  m_bytes : list Z; m_read : Z; m_size_out : Z; m_reader : R; m_done : bool;
}.

Definition deserialize_messages (reader : R) (bytes : list Z) : Messages := mkMessages bytes 0 0 reader false.

Definition next (it : Messages) : outcome (Messages * option (Msg + MessageReaderError E)) :=
  if m_done it then Done (it, None)
  else
    _ ← assert_ (m_read it <=? zlen (m_bytes it));
    '(r, msg) ← deserialize_message (m_reader it) (drop (Z.to_nat (m_read it)) (m_bytes it));
    Done (match msg with
          | inl (msg, read) =>
              (mkMessages (m_bytes it) (m_read it + read) (m_size_out it + read) r false, Some (inl msg))
          | inr e => (mkMessages (m_bytes it) (m_read it) (m_size_out it) r true, Some (inr e))
          end).
End Messages.
Arguments Messages : clear implicits.

(** ** [TcpHandler] *)

Record TcpHandler (R H A : Type) := mkHandler { io : TcpIo; reader : R; handler : H; after : A }.
Arguments mkHandler {R H A} io reader handler after.
Arguments io {R H A} t.
Arguments reader {R H A} t.
Arguments handler {R H A} t.
Arguments after {R H A} t.

Section TcpHandler.
Context {R Msg E H A Inner : Type} `{Build} `{VecGrowth}.
Context `{MessageReader R Msg E} `{MessageHandler H Inner Msg} `{AfterWrite A Inner}.

Abbreviation Conn := (TcpHandler R H A).

Definition with_io (c : Conn) (i : TcpIo) : Conn := mkHandler i (reader c) (handler c) (after c).

(** The conversion from a socket and the three others. *)
Definition handler_from (s : TcpStream) (r : R) (h : H) (a : A) : Conn := mkHandler (io_new s) r h a.

(** The loop over the messages: it ends with the error that says how many bytes are missing,
    since the iterator ends with an error.  Out of fuel: it would not end. *)
Fixpoint message_loop (fuel : nat) (it : Messages R) (h : H) (w : TcpWriter) (inner : Inner) (additional_needed : Z)
  : outcome (Messages R * H * TcpWriter * Inner * Z) :=
  match fuel with
  | O => Panic
  | S fuel =>
      '(it, message) ← next it;
      match message with
      | None => Done (it, h, w, inner, additional_needed)
      | Some (inr (NeedMoreBytes more)) => Done (it, h, w, inner, additional_needed + more)
      | Some (inr (Other _)) => Panic
      | Some (inl msg) =>
          '(h, w, inner, ok) ← handle_message h w inner msg;
          _ ← assert_ ok;
          message_loop fuel it h w inner additional_needed
      end
  end.

(** The second half of [on_poll]. *)
Definition read_messages (c : Conn) (inner : Inner) : outcome (Conn * Inner) :=
  let bytes := read_bytes (io c) in
  '(it, h, w, inner, additional_needed) ←
    message_loop (S (length bytes)) (deserialize_messages (reader c) bytes) (handler c) (writer (io c)) inner 0;
  let i := with_writer (io c) w in
  i ← consume_bytes i (m_size_out it);
  i ← ensure_additional_read i additional_needed;
  Done (mkHandler i (m_reader it) h (after c), inner).

Definition poll_read (c : Conn) (inner : Inner) : outcome (Conn * Inner * option ErrorKind) :=
  if is_polling_read (io c) then
    '(i, res) ← io_read (io c);
    let c := with_io c i in
    match res with
    | inr e => Done (c, inner, Some e)
    | inl _ => '(c, inner) ← read_messages c inner; Done (c, inner, None)
    end
  else Done (c, inner, None).

Definition conn_on_poll (c : Conn) (inner : Inner) (token : Z) : outcome (Conn * Inner * option ErrorKind) :=
  let c := with_io c (on_wake (io c)) in
  if is_polling_write (io c) then
    '(i, res) ← io_write (io c);
    let c := with_io c i in
    match res with
    | inr e => Done (c, inner, Some e)
    | inl wrote =>
        '(a, w, inner) ← after_write (after c) (writer (io c)) inner token wrote;
        poll_read (mkHandler (with_writer (io c) w) (reader c) (handler c) a) inner
    end
  else poll_read c inner.

Definition conn_on_event (c : Conn) (inner : Inner) (token : Z) (ev : Event)
  : outcome (Conn * Inner * option ErrorKind) :=
  let i := on_wake (io c) in
  let i := if ev_readable ev then set_polling_read i else i in
  let i := if ev_writable ev then set_polling_write i else i in
  conn_on_poll (with_io c i) inner token.

(** A connection that fails is deregistered and removed. *)
#[export] Instance conn_handler : Handler Conn Inner ErrorKind := {
  on_event := conn_on_event;
  on_poll := conn_on_poll;
  on_error c _ := (c, true);
  after_work c inner := Done (c, inner);
}.

#[export] Instance conn_wakeable : Wakeable Conn := {
  needs_to_mark_as_staying_awake c _ := io_needs_to_mark_as_staying_awake (io c);
  mark_as_staying_awake c _ := with_io c (io_mark_as_staying_awake (io c));
  is_marked_as_staying_awake c _ := marked_awake (io c);
}.

Definition conn_ignore_backpressure (c : Conn) : Conn := with_io c (io_ignore_backpressure (io c)).
Definition add_writes (c : Conn) (bytes : list (list Z)) : outcome Conn :=
  i ← io_add_bytes_to_write (io c) bytes; Done (with_io c i).
Definition add_contents (c : Conn) (contents : Ref) (extra : list (list Z)) : outcome Conn :=
  i ← io_add_contents_to_write (io c) contents extra; Done (with_io c i).
Definition conn_is_overflowing (c : Conn) : bool := io_is_overflowing (io c).
Definition conn_is_backpressured (c : Conn) : bool := io_is_backpressured (io c).
Definition mark_as_backpressured (c : Conn) : Conn := with_io c (io_mark_as_backpressured (io c)).
Definition mark_as_not_backpressured (c : Conn) : Conn := with_io c (io_mark_as_not_backpressured (io c)).
End TcpHandler.

(** ** The connections of a loop *)

Record IoState (P : Type) := mkIoState { streams : gmap Z P; awake : list Z }.
Arguments mkIoState {P} streams awake.
Arguments streams {P} i.
Arguments awake {P} i.

Section IoState.
Context {P : Type} `{Wakeable P}.

(** The connection is put on the queue and marked. *)
Definition put_awake (s : IoState P) (token : Z) (p : P) : IoState P :=
  mkIoState (<[token := mark_as_staying_awake p token]> (streams s)) (awake s ++ [token]).

Definition put_stream (s : IoState P) (token : Z) (p : P) : IoState P :=
  mkIoState (<[token := p]> (streams s)) (awake s).

Definition mutate {T} (s : IoState P) (token : Z) (f : P -> outcome (P * T)) : outcome (IoState P * option T) :=
  match streams s !! token with
  | None => Done (s, None)
  | Some p =>
      '(p, ret) ← f p;
      Done (if is_marked_as_staying_awake p token then put_stream s token p else put_awake s token p, Some ret)
  end.

Definition wake (s : IoState P) (token : Z) : IoState P * option bool :=
  match streams s !! token with
  | None => (s, None)
  | Some p => if is_marked_as_staying_awake p token then (s, Some false) else (put_awake s token p, Some true)
  end.

(** [IoState::add_stream]; a token that is taken is refused. *)
Definition add_stream (s : IoState P) (token : Z) (p : P) : IoState P * bool :=
  match streams s !! token with
  | Some _ => (s, false)
  | None => (if needs_to_mark_as_staying_awake p token then put_awake s token p else put_stream s token p, true)
  end.
End IoState.

(** ** The loop *)

Record Reactor (P Inner : Type) := mkReactor { io_state : IoState P; inner : Inner }.
Arguments mkReactor {P Inner} io_state inner.
Arguments io_state {P Inner} r.
Arguments inner {P Inner} r.

Section Reactor.
Context {P Inner E E' : Type} `{Wakeable P} `{Wakeable Inner}.
Context `{Handler P Inner E} `{Handler Inner (IoState P) E'}.

Abbreviation Loop := (Reactor P Inner).

Definition with_inner (token : Z) (i : Inner) : Loop :=
  if needs_to_mark_as_staying_awake i token
  then mkReactor (mkIoState ∅ [token]) (mark_as_staying_awake i token)
  else mkReactor (mkIoState ∅ []) i.

(** [Reactor::add_stream] does not ask whether the connection needs to stay awake. *)
Definition reactor_add_stream (r : Loop) (token : Z) (p : P) : Loop * option P :=
  match streams (io_state r) !! token with
  | Some _ => (r, Some p)
  | None => (mkReactor (mkIoState (<[token := p]> (streams (io_state r))) (awake (io_state r) ++ [token])) (inner r), None)
  end.

(** A connection has been called: it is removed if it failed, and queued if it has more to do. *)
Definition settle_stream (s : IoState P) (token : Z) (p : P) (error : option E) : IoState P :=
  let '(p, removed) := match error with Some e => on_error p e | None => (p, false) end in
  if (removed : bool) then mkIoState (delete token (streams s)) (awake s)
  else if needs_to_mark_as_staying_awake p token then put_awake s token p else put_stream s token p.

(** An error of the loop's own state is not handled ([unimplemented!]). *)
Definition settle_inner (s : IoState P) (token : Z) (i : Inner) (error : option E') : outcome Loop :=
  let '(i, removed) := match error with Some e => on_error i e | None => (i, false) end in
  _ ← assert_ (negb removed);
  Done (if needs_to_mark_as_staying_awake i token
        then mkReactor (mkIoState (streams s) (awake s ++ [token])) (mark_as_staying_awake i token)
        else mkReactor s i).

Definition handle_new_event (r : Loop) (ev : Event) : outcome Loop :=
  let token := ev_token ev in
  match streams (io_state r) !! token with
  | Some p =>
      '(p, i, error) ← on_event p (inner r) token ev;
      Done (mkReactor (settle_stream (io_state r) token p error) i)
  | None =>
      '(i, s, error) ← on_event (inner r) (io_state r) token ev;
      settle_inner s token i error
  end.

Fixpoint handle_new_events (r : Loop) (events : list Event) : outcome Loop :=
  match events with
  | [] => Done r
  | ev :: events => r ← handle_new_event r ev; handle_new_events r events
  end.

(** What the loop does for a token of the queue; the work done after a connection that was
    removed is skipped ([continue]): [false]. *)
Definition run_token (r : Loop) (token : Z) : outcome (Loop * bool) :=
  match streams (io_state r) !! token with
  | Some p =>
      '(p, i, error) ← on_poll p (inner r) token;
      let s := settle_stream (io_state r) token p error in
      Done (mkReactor s i, bool_decide (is_Some (streams s !! token)))
  | None =>
      '(i, s, error) ← on_poll (inner r) (io_state r) token;
      r ← settle_inner s token i error; Done (r, true)
  end.

(** Where the loop is: at the poll that waits, or in the loop over the tokens, with those that
    are left and whether it polls after the next one. *)
Inductive Phase := Waiting | Working (running : list Z) (re_poll : bool).

(** One step; [events] is what a poll returns, if there is one. *)
Definition run_step (r : Loop) (ph : Phase) (events : list Event) : outcome (Loop * Phase) :=
  match ph with
  | Waiting => r ← handle_new_events r events; Done (r, Working [] false)
  | Working [] re_poll =>
      let s := io_state r in
      Done (if bool_decide (awake s = []) then (r, Waiting)
            else (mkReactor (mkIoState (streams s) []) (inner r), Working (awake s) re_poll))
  | Working (token :: running) re_poll =>
      '(r, goes_on) ← run_token r token;
      if (goes_on : bool) then
        '(i, s) ← after_work (inner r) (io_state r);
        let r := mkReactor s i in
        r ← (if re_poll then handle_new_events r events else Done r);
        Done (r, Working running (negb re_poll))
      else Done (r, Working running re_poll)
  end.

(** A run: before each step other threads may have changed what the state shares with them (the
    queues it receives from). *)
Fixpoint run (r : Loop) (ph : Phase) (steps : list ((Inner -> Inner) * list Event)) : outcome (Loop * Phase) :=
  match steps with
  | [] => Done (r, ph)
  | (others, events) :: steps =>
      '(r, ph) ← run_step (mkReactor (io_state r) (others (inner r))) ph events; run r ph steps
  end.
End Reactor.
