(* ===== verification/ReactorSafety.v ===== *)
(** * What a connection guarantees

    Whatever pieces a socket takes and gives, a connection writes the bytes it was asked to
    write, in order, and hands on the messages that were sent to it, each once, in order.  This
    holds for every reader that cuts a stream of frames where they end ([Framing]) and every
    handler that does not fail ([Behaved]); the readers of the client and of the server are shown
    to be such readers where they are modelled. *)

From stdpp Require Import base gmap list.
From Stdlib Require Import ZArith Lia.
From S2P Require Import Prelude PacketCodec Packets DoubleBuffer Reactor.
Open Scope Z_scope.

(** ** What readers and handlers promise *)

Class Framing (R Msg E : Type) `{MessageReader R Msg E} (ok : R -> Msg -> Prop) (frame : R -> Msg -> list Z) : Prop := {
  frame_pos : forall rd m, ok rd m -> frame rd m <> [];
  reads_frame : forall rd m rest, ok rd m ->
    deserialize_message rd (frame rd m ++ rest) = Done (rd, inl (m, zlen (frame rd m)));
  asks_for_more : forall rd m bytes more, ok rd m -> frame rd m = bytes ++ more -> more <> [] ->
    exists n, deserialize_message rd bytes = Done (rd, inr (NeedMoreBytes n)) /\ 0 < n;
  asks_for_some : forall rd, exists n, deserialize_message rd [] = Done (rd, inr (NeedMoreBytes n)) /\ 0 < n;
}.

(** A dev build asserts that what is to be written next is in the first buffer: so it is while
    no write is larger than the buffers, [BUFFER] bytes at least. *)
Definition BUFFER : Z := 4096.

Definition writable `{Build} (b : DoubleBuffer) : Prop :=
  db_ok b /\ (debug_assertions = true -> caps BUFFER b /\ ready b).

(** A write of [n] bytes is allowed. *)
Definition fits `{Build} (n : Z) : Prop := debug_assertions = true -> n <= BUFFER.

(** The write half of [w'] is that of [w] with bytes added at the end. *)
Definition wrote `{Build} (w : TcpWriter) (out : list Z) (w' : TcpWriter) : Prop :=
  appended (w_buffer w) out (w_buffer w') /\ writable (w_buffer w') /\
  (w_polling w || negb (bool_decide (out = [])) = true -> w_polling w' = true).

Section Writers.
Context `{Build} `{VecGrowth}.

Lemma wrote_nil w : writable (w_buffer w) -> wrote w [] w.
Proof. intros Hw. split; [by apply appended_nil, Hw|]. split; [done|]. by rewrite orb_false_r. Qed.

Lemma wrote_app w1 w2 w3 out1 out2 : wrote w1 out1 w2 -> wrote w2 out2 w3 -> wrote w1 (out1 ++ out2) w3.
Proof.
  intros (A1 & _ & P1) (A2 & W2 & P2). split; [by eapply appended_app|]. split; [done|]. intros Hp. apply P2.
  destruct (w_polling w2); [done|]. simpl. destruct (decide (out1 = [])) as [->|].
  - simpl in *. rewrite orb_false_r in P1. destruct (w_polling w1); [by specialize (P1 eq_refl)|done].
  - rewrite bool_decide_false in P1 by done. rewrite orb_true_r in P1. by specialize (P1 eq_refl).
Qed.

Lemma total_len_concat bytes : total_len bytes = zlen (concat bytes).
Proof.
  induction bytes as [|p bytes IH]; [done|]. cbn [concat]. rewrite zlen_app, <-IH. done.
Qed.

Lemma add_bytes_wrote w bytes : writable (w_buffer w) -> fits (zlen (concat bytes)) ->
  exists w', add_bytes_to_write w bytes = Done w' /\ wrote w (concat bytes) w'.
Proof.
  intros [Hw Hd] Hf. unfold add_bytes_to_write. destruct (fill_spec (w_buffer w) bytes Hw) as (b & a & E & Hb).
  rewrite E. eexists. split; [reflexivity|]. split; [done|]. split; [|done]. split; [apply Hb|].
  intros D. destruct (Hd D) as [Hc Hr]. split; [by eapply fill_caps|]. eapply fill_ready; [..|done]; try done.
  rewrite total_len_concat. by apply Hf.
Qed.

Lemma add_contents_wrote w r extra :
  writable (w_buffer w) -> valid r = true -> fits (zlen (bytes_of r ++ concat extra)) ->
  exists w', add_contents_to_write w r extra = Done w' /\ wrote w (bytes_of r ++ concat extra) w'.
Proof.
  intros [Hw Hd] Hr Hf. unfold add_contents_to_write.
  destruct (fill_contents_spec (w_buffer w) r extra Hw Hr) as (b & a & E & Hb).
  rewrite E. eexists. split; [reflexivity|]. split; [done|]. split; [|done]. split; [apply Hb|].
  intros D. destruct (Hd D) as [Hc Hrd]. split; [by eapply fill_contents_caps|].
  eapply fill_contents_ready; [..|done]; try done. rewrite total_len_concat, <-zlen_app. by apply Hf.
Qed.
End Writers.

(** A handler that returns and answers [Ok], and adds to what is to be written; an [AfterWrite]
    that returns and does not.  [seen] is what can be seen of the messages that were handled ([obs]). *)
Class Behaved (H A Inner Msg O : Type) `{Build} `{MessageHandler H Inner Msg} `{AfterWrite A Inner}
    (handles : Msg -> Prop) (seen : Inner -> list O) (obs : Msg -> O) : Prop := {
  handles_ok : forall h w i m, writable (w_buffer w) -> handles m ->
    exists h' w' i' out, handle_message h w i m = Done (h', w', i', true) /\ wrote w out w' /\ seen i' = seen i ++ [obs m];
  after_ok : forall a w i token n, writable (w_buffer w) ->
    exists a' i', after_write a w i token n = Done (a', w, i') /\ seen i' = seen i;
}.

(** ** The connection's own state *)

Record io_ok `{Build} (i : TcpIo) : Prop := {
  io_full : vec_len (read_buffer i) = v_cap (read_buffer i);
  io_read_range : 0 <= bytes_read i <= vec_len (read_buffer i);
  io_write_ok : writable (write_buffer i);
  io_written_range : 0 <= bytes_written i /\
    (bytes_written i = 0 \/ bytes_written i < zlen (first_bytes (write_buffer i)));
}.

(** The bytes that were asked to be written, in order: those the socket took, then the others. *)
Definition unsent (i : TcpIo) : list Z := drop (Z.to_nat (bytes_written i)) (queued (write_buffer i)).
Definition flow (i : TcpIo) : list Z := sent (stream i) ++ unsent i.

(** The bytes the socket has still to give. *)
Definition answer_data (a : ReadAnswer) : list Z := match a with Got bytes => bytes | ReadErr _ => [] end.
Definition to_come (s : TcpStream) : list Z := concat (answer_data <$> incoming s).

(** The socket does not fail. *)
Definition kind_ok (e : ErrorKind) : bool := match e with WouldBlock | Interrupted => true | _ => false end.
Definition read_ok (a : ReadAnswer) : bool := match a with Got _ => true | ReadErr e => kind_ok e end.
Definition write_ok (a : WriteAnswer) : bool := match a with Took _ => true | WriteErr e => kind_ok e end.
Definition stream_ok (s : TcpStream) : Prop :=
  forallb read_ok (incoming s) = true /\ forallb write_ok (outgoing s) = true.

Lemma io_new_ok `{Build} s : io_ok (io_new s).
Proof.
  assert (Hl : vec_len (read_buffer (io_new s)) = 4096) by (by vm_compute).
  constructor.
  - by rewrite Hl.
  - rewrite Hl. cbn [io_new bytes_read]. lia.
  - split; [by constructor|]. intros _. done.
  - cbn [io_new bytes_written]. lia.
Qed.

Lemma stream_read_spec s n : stream_ok s ->
  exists s' res, stream_read s n = (s', res) /\ stream_ok s' /\ sent s' = sent s /\ outgoing s' = outgoing s /\
  match res with
  | inl bytes => (length bytes <= n)%nat /\ to_come s = bytes ++ to_come s'
  | inr e => kind_ok e = true /\ to_come s' = to_come s
  end.
Proof.
  intros [Hr Hw]. unfold stream_read, to_come. destruct (incoming s) as [|[bytes|e] rest] eqn:Ei; simpl in *.
  - eexists _, _. split; [reflexivity|]. by split_and!.
  - destruct (_ <=? _)%nat eqn:El; eexists _, _; (split; [reflexivity|]); simpl; split_and!; try (split; done); try done.
    + by apply Nat.leb_le.
    + rewrite length_take. lia.
    + by rewrite app_assoc, take_drop.
  - apply andb_true_iff in Hr as [He Hr]. eexists _, _. split; [reflexivity|]. by split_and!.
Qed.

(** *** Reading *)

Definition same_read (i i' : TcpIo) : Prop :=
  read_buffer i' = read_buffer i /\ bytes_read i' = bytes_read i /\ incoming (stream i') = incoming (stream i).

Definition same_write (i i' : TcpIo) : Prop :=
  writer i' = writer i /\ bytes_written i' = bytes_written i /\ sent (stream i') = sent (stream i).

Lemma same_write_refl i : same_write i i.
Proof. done. Qed.

Lemma same_write_trans i1 i2 i3 : same_write i1 i2 -> same_write i2 i3 -> same_write i1 i3.
Proof. unfold same_write. intros (->&->&->) (->&->&->). done. Qed.

Lemma same_write_buffer i i' : same_write i i' -> write_buffer i' = write_buffer i.
Proof. intros (Hw & _ & _). by injection Hw. Qed.

Lemma same_write_flow i i' : same_write i i' -> flow i' = flow i.
Proof.
  intros Hs. unfold flow, unsent. rewrite (same_write_buffer _ _ Hs). by destruct Hs as (_ & -> & ->).
Qed.

Section Reading.
Context `{Build} `{VecGrowth}.

(** [io_ok] of the read side, with the write side of another. *)
Lemma io_ok_read i i' :
  io_ok i -> same_write i i' -> vec_len (read_buffer i') = v_cap (read_buffer i') ->
  0 <= bytes_read i' <= vec_len (read_buffer i') -> io_ok i'.
Proof.
  intros [_ _ H3 H4] Hs Hf Hr. pose proof (same_write_buffer _ _ Hs) as Hb. destruct Hs as (_ & Hw & _).
  constructor; rewrite ?Hb, ?Hw; done.
Qed.

Lemma length_read_bytes i : io_ok i -> length (read_bytes i) = Z.to_nat (bytes_read i).
Proof. intros [_ Hr _ _]. unfold read_bytes. rewrite length_take. unfold vec_len, zlen in Hr. lia. Qed.

Lemma overwrite_len v n bytes :
  (n + length bytes <= length (v_bytes v))%nat -> vec_len (overwrite v n bytes) = vec_len v.
Proof.
  intros Hn. unfold vec_len, overwrite, zlen. simpl. rewrite !length_app, length_take, length_drop. lia.
Qed.

Lemma overwrite_take v n bytes :
  (n <= length (v_bytes v))%nat ->
  take (n + length bytes) (v_bytes (overwrite v n bytes)) = take n (v_bytes v) ++ bytes.
Proof.
  intros Hn. unfold overwrite. simpl. rewrite app_assoc.
  rewrite take_app_length'; [done|]. rewrite length_app, length_take. lia.
Qed.

Lemma spare_ok i : io_ok i -> spare i = Done (vec_len (read_buffer i) - bytes_read i).
Proof. intros [_ Hr _ _]. unfold spare. by rewrite (proj2 (Z.leb_le _ _)) by lia. Qed.

Lemma io_read_spec i : io_ok i -> stream_ok (stream i) ->
  exists i' n, io_read i = Done (i', inl n) /\ io_ok i' /\ stream_ok (stream i') /\ same_write i i' /\
    read_bytes i' ++ to_come (stream i') = read_bytes i ++ to_come (stream i).
Proof.
  intros Hi Hs. pose proof Hi as [Hf Hr _ _]. unfold io_read. rewrite spare_ok by done. simpl.
  destruct (_ =? 0) eqn:E0.
  { eexists _, _. split; [reflexivity|]. by split_and!. }
  destruct (stream_read_spec (stream i) (Z.to_nat (vec_len (read_buffer i) - bytes_read i)) Hs)
    as (s' & res & -> & Hs' & Hsent & _ & Hres).
  destruct res as [bytes|e].
  - destruct Hres as [Hl Hc]. eexists _, _. split; [reflexivity|].
    assert (Hlen : (Z.to_nat (bytes_read i) + length bytes <= length (v_bytes (read_buffer i)))%nat)
      by (unfold vec_len, zlen in *; lia).
    split_and!; [|done|done|].
    + eapply io_ok_read; [done|done|..]; cbn [with_read with_polling with_stream read_buffer bytes_read].
      * by rewrite overwrite_len.
      * rewrite overwrite_len by done. unfold zlen, vec_len in *. unfold zlen in *. lia.
    + unfold read_bytes. cbn [with_read with_polling with_stream read_buffer bytes_read stream].
      replace (Z.to_nat (bytes_read i + zlen bytes)) with (Z.to_nat (bytes_read i) + length bytes)%nat
        by (unfold zlen; lia).
      rewrite overwrite_take by lia. rewrite Hc. by rewrite app_assoc.
  - destruct Hres as [He Hc].
    destruct e; try done; eexists _, _; (split; [reflexivity|]); split_and!; try done;
      try (by eapply io_ok_read); by cbn; rewrite ?Hc.
Qed.

(** The messages that were used are dropped from the front. *)
Lemma consume_spec i n : io_ok i -> 0 <= n <= bytes_read i ->
  exists i', consume_bytes i n = Done i' /\ io_ok i' /\ same_write i i' /\ stream i' = stream i /\
    read_bytes i' = drop (Z.to_nat n) (read_bytes i).
Proof.
  intros Hi Hn. pose proof Hi as [Hf Hr _ _]. unfold consume_bytes, assert_full.
  rewrite (proj2 (Z.leb_le _ _)) by lia. rewrite Hf, Z.eqb_refl. simpl.
  set (src := take _ _).
  assert (Hl : length src = Z.to_nat (bytes_read i - n)).
  { unfold src. rewrite length_take, length_drop. unfold vec_len, zlen in Hr. lia. }
  rewrite overwrite_len by (unfold vec_len, zlen in Hr; lia). rewrite Hf, Z.eqb_refl. simpl.
  eexists. split; [reflexivity|]. split_and!; [|done|done|].
  - eapply io_ok_read; [done|done|..]; cbn [with_read read_buffer bytes_read];
      rewrite overwrite_len by (unfold vec_len, zlen in Hr; lia); [done|lia].
  - unfold read_bytes. cbn [with_read read_buffer bytes_read].
    rewrite <-Hl. pose proof (overwrite_take (read_buffer i) 0 src ltac:(lia)) as Ht.
    cbn [Nat.add] in Ht. rewrite take_0 in Ht. rewrite Ht. cbn [app].
    unfold src. rewrite skipn_firstn_comm. f_equal. lia.
Qed.

Lemma zlen_zeros n : 0 <= n -> zlen (zeros n) = n.
Proof. intros Hn. unfold zlen, zeros. rewrite length_replicate. lia. Qed.

Lemma extend_zeros v n : 0 <= n -> vec_len (vec_extend v (zeros n)) = vec_len v + n.
Proof. intros Hn. unfold vec_len, vec_extend. cbn [v_bytes]. by rewrite zlen_app, zlen_zeros. Qed.

Lemma read_additional_spec i n : io_ok i -> 0 <= n ->
  exists i', read_additional i n = Done i' /\ io_ok i' /\ same_write i i' /\ stream i' = stream i /\
    read_bytes i' = read_bytes i /\ bytes_read i' = bytes_read i /\
    vec_len (read_buffer i) + n <= vec_len (read_buffer i').
Proof.
  intros Hi Hn. pose proof Hi as [Hf Hr _ _]. unfold read_additional.
  pose proof (extend_zeros (read_buffer i) n Hn) as Hb.
  assert (Hc : vec_ok (vec_extend (read_buffer i) (zeros n))) by (apply vec_extend_ok; unfold vec_ok; lia).
  unfold vec_ok in Hc. set (b := vec_extend (read_buffer i) (zeros n)) in *.
  set (b' := if vec_len b <? v_cap b then vec_extend b (zeros (v_cap b - vec_len b)) else b).
  assert (Hb' : vec_len b' = v_cap b /\ v_cap b' = v_cap b /\ exists more, v_bytes b' = v_bytes (read_buffer i) ++ more).
  { unfold b'. destruct (_ <? _) eqn:E.
    - apply Z.ltb_lt in E. rewrite extend_zeros by lia. split_and!; [lia| |].
      + unfold vec_extend. cbn [v_cap]. rewrite (proj2 (Z.leb_le _ _)); [done|].
        rewrite zlen_zeros by lia. lia.
      + eexists. cbn [vec_extend b v_bytes]. by rewrite <-app_assoc.
    - apply Z.ltb_ge in E. split_and!; [lia|done|]. by eexists. }
  destruct Hb' as (Hl & Hcap & more & Hmore). unfold assert_full. rewrite Hl, Hcap, Z.eqb_refl. simpl.
  eexists. split; [reflexivity|]. split_and!; [|done|done| |done|].
  - eapply io_ok_read; [done|done|..]; cbn [with_read read_buffer bytes_read]; lia.
  - unfold read_bytes. cbn [with_read read_buffer bytes_read]. rewrite Hmore, take_app_le; [done|].
    unfold vec_len, zlen in Hr. lia.
  - cbn [with_read read_buffer]. lia.
Qed.

(** There is room for the bytes that are asked for. *)
Lemma ensure_spec i n : io_ok i -> 0 <= n ->
  exists i', ensure_additional_read i n = Done i' /\ io_ok i' /\ same_write i i' /\ stream i' = stream i /\
    read_bytes i' = read_bytes i /\ n <= vec_len (read_buffer i') - bytes_read i'.
Proof.
  intros Hi Hn. pose proof Hi as [Hf Hr _ _]. unfold ensure_additional_read. rewrite spare_ok by done. simpl.
  destruct (n <=? _) eqn:E.
  - unfold assert_full. rewrite Hf, Z.eqb_refl. simpl. apply Z.leb_le in E.
    eexists. split; [reflexivity|]. by split_and!.
  - apply Z.leb_gt in E.
    destruct (read_additional_spec i (n - (vec_len (read_buffer i) - bytes_read i)) Hi ltac:(lia))
      as (i' & -> & H1 & H2 & H3 & H4 & H5 & H6).
    eexists. split; [reflexivity|]. split_and!; try done. lia.
Qed.
End Reading.

(** *** Writing *)

Section Writing.
Context `{Build} `{VecGrowth}.

Lemma io_ok_write i i' :
  io_ok i -> same_read i i' -> writable (write_buffer i') -> 0 <= bytes_written i' ->
  bytes_written i' = 0 \/ bytes_written i' < zlen (first_bytes (write_buffer i')) -> io_ok i'.
Proof. intros [H1 H2 _ _] (Hb & Hr & _) Hd Hw Ho. constructor; rewrite ?Hb, ?Hr; auto. Qed.

Lemma written_le i : io_ok i -> bytes_written i <= zlen (first_bytes (write_buffer i)).
Proof. intros [_ _ _ [H1 H2]]. pose proof (zlen_nonneg (first_bytes (write_buffer i))). lia. Qed.

Lemma queued_first b : queued b = first_bytes b ++ v_bytes (second b) ++ concat (pending b).
Proof. done. Qed.

Lemma stream_write_spec s bytes : stream_ok s ->
  exists s' res, stream_write s bytes = (s', res) /\ stream_ok s' /\ incoming s' = incoming s /\
  match res with
  | inl n => 0 <= n <= zlen bytes /\ sent s' = sent s ++ take (Z.to_nat n) bytes
  | inr e => kind_ok e = true /\ sent s' = sent s
  end.
Proof.
  intros [Hr Hw]. unfold stream_write. destruct (outgoing s) as [|[n|e] rest] eqn:Eo; simpl in *.
  - eexists _, _. split; [reflexivity|]. split_and!; try done. simpl. by rewrite app_nil_r.
  - eexists _, _. split; [reflexivity|]. split_and!; try done; unfold zlen; rewrite length_take; try lia.
    simpl. f_equal. rewrite Nat2Z.id. destruct (decide (n <= length bytes)%nat).
    + by rewrite Nat.min_l.
    + rewrite Nat.min_r by lia. rewrite !take_ge by lia. done.
  - apply andb_true_iff in Hw as [He Hw]. eexists _, _. split; [reflexivity|]. split_and!; try done.
    simpl. by rewrite app_nil_r.
Qed.

(** Bytes that the socket takes come off the front of what waits. *)
Lemma io_write_spec i : io_ok i -> stream_ok (stream i) ->
  exists i' n, io_write i = Done (i', inl n) /\ io_ok i' /\ stream_ok (stream i') /\ same_read i i' /\ flow i' = flow i.
Proof.
  intros Hi Hs. pose proof Hi as [_ _ Hwr [Hw0 Hw1]]. pose proof Hwr as [Hdb Hdev]. pose proof (written_le i Hi) as Hle. unfold io_write.
  destruct (is_empty (write_buffer i)) eqn:Ee.
  { eexists _, _. split; [reflexivity|]. split_and!; try done. by eapply io_ok_write. }
  assert (debug_assert (negb (bool_decide (first_bytes (write_buffer i) = []))) = Done tt) as ->.
  { unfold debug_assert. destruct debug_assertions eqn:D; [|done]. destruct (Hdev eq_refl) as [_ Hrd].
    rewrite bool_decide_false; [done|]. intros Hf.
    pose proof (Hrd Hf) as Hp. pose proof (db_order _ Hdb Hf) as Hsec. apply vec_len_0 in Hf, Hsec.
    unfold is_empty, vec_is_empty in Ee. by rewrite Hf, Hsec, Hp in Ee. }
  simpl. rewrite (proj2 (Z.leb_le _ _)) by done. simpl.
  destruct (stream_write_spec (stream i) (drop (Z.to_nat (bytes_written i)) (first_bytes (write_buffer i))) Hs)
    as (s' & res & -> & Hs' & Hin & Hres).
  destruct res as [n|e].
  - destruct Hres as [Hn Hsent].
    assert (Hl : zlen (drop (Z.to_nat (bytes_written i)) (first_bytes (write_buffer i)))
                 = zlen (first_bytes (write_buffer i)) - bytes_written i).
    { unfold zlen in *. rewrite length_drop. lia. }
    cbn [with_stream with_polling write_buffer bytes_written].
    destruct (_ <? _) eqn:El; eexists _, _; (split; [reflexivity|]).
    + apply Z.ltb_lt in El. split_and!; try done.
      { eapply io_ok_write; [done|done|done|simpl; lia|]. right. done. }
      unfold flow, unsent. cbn. rewrite Hsent, <-app_assoc. f_equal. rewrite queued_first.
      rewrite Z2Nat.inj_add by lia. rewrite <-drop_drop.
      rewrite !drop_app_le by (rewrite ?length_drop; unfold zlen in *; lia).
      by rewrite app_assoc, take_drop.
    + apply Z.ltb_ge in El. destruct (swap_spec (write_buffer i) Hdb) as (Hdb' & Hq & _). split_and!; try done.
      { eapply io_ok_write; [done|done| |simpl; lia|by left]. split; [done|]. intros D.
        split; [by apply swap_caps, Hdev|by apply swap_ready]. }
      unfold flow, unsent. cbn. rewrite Hsent, <-app_assoc. f_equal. rewrite Hq.
      rewrite drop_app_le by (unfold zlen in *; lia). f_equal. rewrite take_ge; [done|].
      unfold zlen in *. lia.
  - destruct Hres as [He Hsent].
    destruct e; try done; eexists _, _; (split; [reflexivity|]); split_and!; try done;
      try (by eapply io_ok_write); unfold flow, unsent; cbn; by rewrite Hsent.
Qed.

Lemma with_writer_spec i w out :
  io_ok i -> wrote (writer i) out w ->
  io_ok (with_writer i w) /\ flow (with_writer i w) = flow i ++ out.
Proof.
  intros Hi ([H1 H2 H3] & Hwr & _). pose proof Hi as [_ _ _ [Hw0 Hw1]]. pose proof (written_le i Hi) as Hle.
  cbn [writer w_buffer] in *. apply prefix_length in H3 as Hl. split.
  - eapply io_ok_write; [done|done|done|done|]. cbn. destruct Hw1; [by left|right]. unfold zlen in *. lia.
  - unfold flow, unsent. cbn. rewrite H2, <-app_assoc. f_equal. rewrite drop_app_le; [done|].
    rewrite queued_first, length_app. unfold zlen in *. lia.
Qed.
End Writing.

(** ** Messages, whole and in order *)

Section Delivery.
Context {R Msg E H A Inner O : Type} `{HB : Build} `{HG : VecGrowth}.
Context `{HR : MessageReader R Msg E} `{HH : MessageHandler H Inner Msg} `{HA : AfterWrite A Inner}.
Context {ok : R -> Msg -> Prop} {frame : R -> Msg -> list Z} {handles : Msg -> Prop}.
Context {seen : Inner -> list O} {obs : Msg -> O}.
Context `{HF : !Framing R Msg E ok frame} `{HW : !Behaved H A Inner Msg O handles seen obs}.

Abbreviation Conn := (TcpHandler R H A).

(** [bytes] is what has come of the frames of [ms], less than the first of them. *)
Definition partial (rd : R) (ms : list Msg) (bytes : list Z) : Prop :=
  match ms with [] => bytes = [] | m :: _ => zlen bytes < zlen (frame rd m) end.

Definition expected (rd : R) (ms : list Msg) : Prop := Forall (fun m => ok rd m /\ handles m) ms.

Definition stream_of (rd : R) (ms : list Msg) : list Z := concat (frame rd <$> ms).

Lemma partial_reads rd ms bytes fut :
  expected rd ms -> bytes ++ fut = stream_of rd ms -> partial rd ms bytes ->
  exists n, deserialize_message rd bytes = Done (rd, inr (NeedMoreBytes n)) /\ 0 < n.
Proof.
  intros Hms Heq Hp. destruct ms as [|m ms]; simpl in Hp.
  { subst bytes. apply asks_for_some. }
  apply Forall_cons in Hms as [[Hm _] _]. unfold stream_of in Heq. cbn in Heq.
  destruct (app_eq_inv bytes fut (frame rd m) (concat (frame rd <$> ms)) Heq) as [(k & Hk & _)|(k & Hk & _)].
  - exfalso. rewrite Hk, zlen_app in Hp. pose proof (zlen_nonneg k). lia.
  - apply (asks_for_more rd m bytes k Hm Hk). intros ->. rewrite Hk, app_nil_r in Hp. lia.
Qed.

(** Either the first frame has come, or only a part of it. *)
Lemma frame_split rd ms bytes fut :
  expected rd ms -> bytes ++ fut = stream_of rd ms ->
  partial rd ms bytes \/
  exists m rest bytes', ms = m :: rest /\ bytes = frame rd m ++ bytes' /\ bytes' ++ fut = stream_of rd rest.
Proof.
  intros Hms Heq. destruct ms as [|m ms].
  { left. by apply app_eq_nil in Heq as [-> _]. }
  unfold stream_of in Heq. cbn in Heq.
  destruct (app_eq_inv bytes fut (frame rd m) (concat (frame rd <$> ms)) Heq) as [(k & Hk & Hf)|(k & Hk & Hf)].
  - right. by exists m, ms, k.
  - destruct k as [|b k].
    + right. exists m, ms, []. rewrite app_nil_r in *. simpl. by split_and!.
    + left. cbn. rewrite Hk, zlen_app. unfold zlen. simpl. lia.
Qed.

(** The handler does not write. *)
Definition silent : Prop :=
  forall h w i m h' w' i' b, handles m -> handle_message h w i m = Done (h', w', i', b) -> w' = w.

Lemma drop_frame rd m bytes k : 0 <= k ->
  drop (Z.to_nat (zlen (frame rd m) + k)) (frame rd m ++ bytes) = drop (Z.to_nat k) bytes.
Proof.
  intros Hk. rewrite Z2Nat.inj_add, <-drop_drop by (done || apply zlen_nonneg).
  unfold zlen. by rewrite Nat2Z.id, drop_app_length.
Qed.

Lemma message_loop_spec rd fut ms : forall fuel it h w i add bytes,
  expected rd ms -> bytes ++ fut = stream_of rd ms ->
  m_done it = false -> m_reader it = rd -> 0 <= m_read it <= zlen (m_bytes it) ->
  drop (Z.to_nat (m_read it)) (m_bytes it) = bytes -> (length bytes < fuel)%nat -> writable (w_buffer w) ->
  exists don rest it' h' w' i' out n k,
    message_loop fuel it h w i add = Done (it', h', w', i', add + n) /\ 0 < n /\
    ms = don ++ rest /\ seen i' = seen i ++ (obs <$> don) /\ wrote w out w' /\ m_reader it' = rd /\
    m_size_out it' = m_size_out it + k /\ 0 <= k <= zlen bytes /\
    drop (Z.to_nat k) bytes ++ fut = stream_of rd rest /\ partial rd rest (drop (Z.to_nat k) bytes) /\
    (don = [] -> out = []) /\ (silent -> w' = w).
Proof.
  induction ms as [|m ms IH]; intros fuel it h w i add bytes Hms Heq Hd Hrd Hr Hb Hfuel Hw;
    (destruct fuel as [|fuel]; [lia|]); cbn [message_loop]; unfold next; rewrite Hd;
    rewrite (proj2 (Z.leb_le _ _)) by lia; cbn [assert_ mbind outcome_bind]; rewrite Hrd, Hb.
  all: destruct (frame_split rd _ bytes fut Hms Heq) as [Hp|(m' & rest & bytes' & Hm & Hf & Hrest)].
  1,3: destruct (partial_reads rd _ bytes fut Hms Heq Hp) as (n & -> & Hn); cbn [mbind outcome_bind];
    eexists [], _, _, _, _, _, [], n, 0; (split; [reflexivity|]); rewrite drop_0;
    pose proof (zlen_nonneg bytes);
    split_and!; first [done | by rewrite app_nil_r | by apply wrote_nil | cbn; lia].
  { done. }
  injection Hm as <- <-. apply Forall_cons in Hms as [[Hok Hh] Hms].
  rewrite Hf, reads_frame by done. cbn [mbind outcome_bind].
  destruct (handles_ok h w i m Hw Hh) as (h1 & w1 & i1 & out1 & Eh & Hw1 & Hs1).
  rewrite Eh. cbn [mbind outcome_bind assert_].
  set (it1 := mkMessages _ _ _ _ _).
  pose proof (zlen_nonneg (frame rd m)) as Hfl.
  assert (Hlen : zlen bytes = zlen (frame rd m) + zlen bytes') by by rewrite Hf, zlen_app.
  assert (Hb1 : drop (Z.to_nat (m_read it1)) (m_bytes it1) = bytes').
  { unfold it1. cbn [m_read m_bytes]. rewrite Z2Nat.inj_add, <-drop_drop, Hb, Hf by lia.
    unfold zlen. rewrite Nat2Z.id. apply drop_app_length. }
  assert (Hl2 : zlen bytes = zlen (m_bytes it) - m_read it).
  { rewrite <-Hb. unfold zlen in *. rewrite length_drop. lia. }
  destruct (IH fuel it1 h1 w1 i1 add bytes' Hms Hrest) as
    (don & rest & it' & h' & w' & i' & out & n & k & -> & Hn & -> & Hs & Hw' & Hrd' & Hk & Hk2 & Hdr & Hpar & Hout & Hsil);
    [done|done| |done| |apply Hw1|].
  { unfold it1. cbn [m_read m_bytes]. pose proof (zlen_nonneg bytes'). lia. }
  { assert (length (frame rd m) <> 0)%nat by (intros ?%nil_length_inv; by eapply frame_pos).
    unfold zlen in *. lia. }
  eexists (m :: don), rest, _, _, _, _, (out1 ++ out), n, (zlen (frame rd m) + k).
  split; [reflexivity|]. split_and!; try done; try lia.
  - by rewrite Hs, Hs1, fmap_cons, <-app_assoc.
  - by eapply wrote_app.
  - rewrite Hk. unfold it1. cbn [m_size_out]. lia.
  - rewrite zlen_app. lia.
  - by rewrite drop_frame by lia.
  - by rewrite drop_frame by lia.
  - intros Hs0. rewrite (Hsil Hs0). by eapply Hs0.
Qed.

(** ** A connection *)

(** The messages of [rest] are still to come: a part of them has been read, the socket gives
    [fut] later than all it is known to give.  There is always room to read more. *)
Record receiving (rd : R) (rest : list Msg) (fut : list Z) (c : Conn) : Prop := {
  rc_io : io_ok (io c);
  rc_stream : stream_ok (stream (io c));
  rc_reader : reader c = rd;
  rc_expected : expected rd rest;
  rc_bytes : read_bytes (io c) ++ to_come (stream (io c)) ++ fut = stream_of rd rest;
  rc_partial : partial rd rest (read_bytes (io c));
  rc_room : bytes_read (io c) < vec_len (read_buffer (io c));
}.

(** [c'] and [i'] are [c] and [i] after the messages [don] and the writes [out]. *)
Definition moved (rd : R) (ms : list Msg) (fut : list Z) (c : Conn) (i : Inner) (c' : Conn) (i' : Inner) : Prop :=
  exists don rest out, ms = don ++ rest /\ receiving rd rest fut c' /\ seen i' = seen i ++ (obs <$> don) /\
    flow (io c') = flow (io c) ++ out /\ (don = [] -> out = []).

(** Nothing waits to be written, and reading is not held back. *)
Definition quiet (i : TcpIo) : Prop := is_empty (write_buffer i) = true /\ marked_backpressured i = false.

Lemma consume_flags i n i' : consume_bytes i n = Done i' ->
  marked_backpressured i' = marked_backpressured i /\ write_buffer i' = write_buffer i.
Proof. unfold consume_bytes. intros. by inv_done. Qed.

Lemma ensure_flags i n i' : ensure_additional_read i n = Done i' ->
  marked_backpressured i' = marked_backpressured i /\ write_buffer i' = write_buffer i.
Proof. unfold ensure_additional_read, read_additional. intros. inv_done. case_match; by inv_done. Qed.

Lemma read_messages_spec rd ms fut c i :
  io_ok (io c) -> stream_ok (stream (io c)) -> reader c = rd -> expected rd ms ->
  read_bytes (io c) ++ to_come (stream (io c)) ++ fut = stream_of rd ms ->
  exists c' i', read_messages c i = Done (c', i') /\ moved rd ms fut c i c' i' /\
    stream (io c') = stream (io c) /\ (silent -> quiet (io c) -> quiet (io c')).
Proof.
  intros Hi Hs Hrd Hms Hb. unfold read_messages.
  destruct (message_loop_spec rd (to_come (stream (io c)) ++ fut) ms (S (length (read_bytes (io c))))
              (deserialize_messages (reader c) (read_bytes (io c))) (handler c) (writer (io c)) i 0
              (read_bytes (io c))) as
    (don & rest & it' & h' & w' & i' & out & n & k & -> & Hn & -> & Hseen & Hw & Hrd' & Hk & Hk2 & Hdr & Hpar & Hout & Hsil);
    [done..| |done|lia|apply Hi|].
  { cbn. pose proof (zlen_nonneg (read_bytes (io c))). lia. }
  cbn [mbind outcome_bind]. destruct (with_writer_spec (io c) w' out Hi Hw) as [Hi' Hfl].
  assert (Hkr : 0 <= m_size_out it' <= bytes_read (io c)).
  { rewrite Hk. cbn. unfold zlen in Hk2. rewrite length_read_bytes in Hk2 by done.
    destruct Hi as [_ ? _ _]. lia. }
  destruct (consume_spec (with_writer (io c) w') (m_size_out it') Hi' Hkr) as (i1 & E1 & Hi1 & Hw1 & Hs1 & Hr1).
  rewrite E1. cbn [mbind outcome_bind].
  destruct (ensure_spec i1 (0 + n) Hi1 ltac:(lia)) as (i2 & E2 & Hi2 & Hw2 & Hs2 & Hr2 & Hroom).
  rewrite E2. cbn [mbind outcome_bind]. eexists _, _. split; [reflexivity|].
  assert (Hrb : read_bytes i2 = drop (Z.to_nat k) (read_bytes (io c))).
  { rewrite Hr2, Hr1, Hk. done. }
  split_and!; cycle 1.
  { cbn [io]. by rewrite Hs2, Hs1. }
  { intros Hs0 [He Hm]. rewrite (Hsil Hs0) in *. apply consume_flags in E1 as [M1 W1]. apply ensure_flags in E2 as [M2 W2].
    split; cbn [io]; [by rewrite W2, W1|by rewrite M2, M1]. }
  exists don, rest, out. split_and!; [done| |done| |done].
  - constructor; cbn [io reader]; [done|by rewrite Hs2, Hs1|done| | | |lia].
    + by apply Forall_app in Hms as [_ ?].
    + rewrite Hrb, Hs2, Hs1. done.
    + by rewrite Hrb.
  - cbn [io]. by rewrite (same_write_flow _ _ Hw2), (same_write_flow _ _ Hw1).
Qed.

Lemma moved_flow rd ms fut c1 c i c' i' :
  moved rd ms fut c i c' i' -> flow (io c) = flow (io c1) -> moved rd ms fut c1 i c' i'.
Proof. intros (don & rest & out & H1 & H2 & H3 & H4 & H5) Hf. exists don, rest, out. by rewrite <-Hf. Qed.

Lemma moved_none rd ms fut c c' i :
  receiving rd ms fut c' -> flow (io c') = flow (io c) -> moved rd ms fut c i c' i.
Proof. intros Hr Hf. exists [], ms, []. by rewrite !app_nil_r. Qed.

Lemma poll_read_spec rd ms fut c i : receiving rd ms fut c ->
  exists c' i', poll_read c i = Done (c', i', None) /\ moved rd ms fut c i c' i'.
Proof.
  intros Hc. unfold poll_read. destruct (is_polling_read (io c)).
  - destruct Hc as [Hi Hs Hrd Hms Hb _ _].
    destruct (io_read_spec (io c) Hi Hs) as (i1 & n & -> & Hi1 & Hs1 & Hw1 & Hr1). cbn [mbind outcome_bind].
    destruct (read_messages_spec rd ms fut (with_io c i1) i) as (c' & i' & -> & Hm & _); try done.
    { cbn [io with_io]. by rewrite app_assoc, Hr1, <-app_assoc. }
    cbn [mbind outcome_bind]. eexists _, _. split; [done|]. eapply moved_flow; [done|].
    by apply same_write_flow.
  - eexists _, _. split; [done|]. by apply moved_none.
Qed.

(** [receiving] does not depend on the write side or the flags. *)
Lemma receiving_io rd ms fut c c' :
  receiving rd ms fut c -> same_read (io c) (io c') -> reader c' = reader c -> io_ok (io c') ->
  stream_ok (stream (io c')) -> receiving rd ms fut c'.
Proof.
  intros [H1 H2 H3 H4 H5 H6 H7] (Hb & Hr & Hin) Hrd Hi Hs.
  assert (Hrb : read_bytes (io c') = read_bytes (io c)) by (unfold read_bytes; by rewrite Hb, Hr).
  constructor; try done; rewrite ?Hrb, ?Hb, ?Hr; try done; [by rewrite Hrd|].
  unfold to_come. rewrite Hin. done.
Qed.

(** The flags are not part of what [io_ok] says. *)
Lemma receiving_flags rd ms fut c a wbr ig bp :
  receiving rd ms fut c -> receiving rd ms fut (with_io c (with_flags (io c) a wbr ig bp)).
Proof. intros Hc. eapply receiving_io; try done; [|apply Hc]. by destruct Hc as [[] _ _ _ _ _ _]. Qed.

Lemma receiving_polling rd ms fut c r w :
  receiving rd ms fut c -> receiving rd ms fut (with_io c (with_polling (io c) r w)).
Proof. intros Hc. eapply receiving_io; try done; [|apply Hc]. by destruct Hc as [[] _ _ _ _ _ _]. Qed.

Lemma conn_on_poll_spec rd ms fut c i token : receiving rd ms fut c ->
  exists c' i', conn_on_poll c i token = Done (c', i', None) /\ moved rd ms fut c i c' i'.
Proof.
  intros Hc. unfold conn_on_poll. set (c0 := with_io c (on_wake (io c))).
  assert (Hc0 : receiving rd ms fut c0) by (by apply receiving_flags).
  assert (Hf0 : flow (io c0) = flow (io c)) by done. clearbody c0.
  destruct (is_polling_write (io c0)).
  - destruct (io_write_spec (io c0) (rc_io _ _ _ _ Hc0) (rc_stream _ _ _ _ Hc0))
      as (i1 & n & -> & Hi1 & Hs1 & Hr1 & Hf1). cbn [mbind outcome_bind].
    destruct (after_ok (after c0) (writer i1) i token n (io_write_ok _ Hi1)) as (a & i' & E1 & Hseen).
    cbn [io with_io after]. rewrite E1. cbn [mbind outcome_bind].
    destruct (with_writer_spec i1 (writer i1) [] Hi1 (wrote_nil (writer i1) (io_write_ok _ Hi1))) as [Hi2 Hf2].
    set (c2 := mkHandler _ _ _ _).
    assert (Hc2 : receiving rd ms fut c2) by (by eapply receiving_io).
    destruct (poll_read_spec rd ms fut c2 i' Hc2) as (c' & i2 & -> & Hm). eexists _, _. split; [done|].
    destruct Hm as (don & rest & out' & -> & H1 & H2 & H3 & H4). exists don, rest, out'.
    split_and!; try done; [by rewrite H2, Hseen|]. rewrite H3. cbn [c2 io]. by rewrite Hf2, app_nil_r, Hf1, Hf0.
  - destruct (poll_read_spec rd ms fut c0 i Hc0) as (c' & i2 & -> & Hm). eexists _, _. split; [done|].
    by eapply moved_flow.
Qed.

Lemma conn_on_event_spec rd ms fut c i token ev : receiving rd ms fut c ->
  exists c' i', conn_on_event c i token ev = Done (c', i', None) /\ moved rd ms fut c i c' i'.
Proof.
  intros Hc. unfold conn_on_event. set (io1 := if ev_writable ev then _ else _).
  assert (receiving rd ms fut (with_io c io1) /\ flow io1 = flow (io c)) as [Hc1 Hf1].
  { unfold io1. destruct (ev_readable ev), (ev_writable ev); split; try done.
    all: repeat first [apply (receiving_polling rd ms fut (with_io c _))
                      | apply (receiving_flags rd ms fut c) ]; done. }
  destruct (conn_on_poll_spec rd ms fut (with_io c io1) i token Hc1) as (c' & i' & -> & Hm).
  eexists _, _. split; [done|]. by eapply moved_flow.
Qed.

(** *** What happens to a connection *)

Inductive call :=
| Polled
| Notified (ev : Event)
| Writes (bytes : list (list Z))
| WritesContents (contents : Ref) (extra : list (list Z))
| Backpressured (b : bool)
| Marked.

Definition make_call (token : Z) (c : Conn) (i : Inner) (k : call) : outcome (Conn * Inner * option ErrorKind) :=
  match k with
  | Polled => on_poll c i token
  | Notified ev => on_event c i token ev
  | Writes bytes => c ← add_writes c bytes; Done (c, i, None)
  | WritesContents r extra => c ← add_contents c r extra; Done (c, i, None)
  | Backpressured b => Done (if b then mark_as_backpressured c else mark_as_not_backpressured c, i, None)
  | Marked => Done (mark_as_staying_awake c token, i, None)
  end.

(** A connection that fails is removed: nothing more happens to it. *)
Fixpoint calls (token : Z) (c : Conn) (i : Inner) (ks : list call) : outcome (Conn * Inner * option ErrorKind) :=
  match ks with
  | [] => Done (c, i, None)
  | k :: ks =>
      '(c, i, error) ← make_call token c i k;
      match error with None => calls token c i ks | Some e => Done (c, i, Some e) end
  end.

(** What a call writes, and whether it may. *)
Definition written (k : call) : list Z :=
  match k with
  | Writes bytes => concat bytes
  | WritesContents r extra => bytes_of r ++ concat extra
  | _ => []
  end.
Definition call_ok (k : call) : Prop :=
  fits (zlen (written k)) /\ match k with WritesContents r _ => valid r = true | _ => True end.

(** [c'] is [c] after the messages [don]; what the calls and the handler wrote comes after what
    was there, and is what the calls wrote when no message was handled. *)
Definition ran (rd : R) (ms : list Msg) (fut : list Z) (ks : list call) (c : Conn) (i : Inner) (c' : Conn) (i' : Inner) : Prop :=
  exists don rest out, ms = don ++ rest /\ receiving rd rest fut c' /\ seen i' = seen i ++ (obs <$> don) /\
    flow (io c') = flow (io c) ++ out /\ (don = [] -> out = concat (written <$> ks)).

Lemma moved_ran rd ms fut k c i c' i' : written k = [] -> moved rd ms fut c i c' i' -> ran rd ms fut [k] c i c' i'.
Proof.
  intros Hk (don & rest & out & H1 & H2 & H3 & H4 & H5). exists don, rest, out. split_and!; try done.
  intros Hd. cbn. by rewrite Hk, (H5 Hd).
Qed.

Lemma writes_spec rd ms fut c i k w :
  receiving rd ms fut c -> wrote (writer (io c)) (written k) w ->
  ran rd ms fut [k] c i (with_io c (with_writer (io c) w)) i.
Proof.
  intros Hc Hw. destruct (with_writer_spec _ _ _ (rc_io _ _ _ _ Hc) Hw) as [Hi Hf].
  exists [], ms, (written k). rewrite app_nil_r. split_and!; try done.
  - eapply receiving_io; try done. apply Hc.
  - intros _. cbn. by rewrite app_nil_r.
Qed.

Lemma make_call_spec token rd ms fut c i k : receiving rd ms fut c -> call_ok k ->
  exists c' i', make_call token c i k = Done (c', i', None) /\ ran rd ms fut [k] c i c' i'.
Proof.
  intros Hc [Hk Hr]. destruct k as [|ev|bytes|r extra|b|]; cbn [make_call on_poll on_event conn_handler].
  - destruct (conn_on_poll_spec rd ms fut c i token Hc) as (c' & i' & -> & Hm). eexists _, _.
    split; [done|]. by apply moved_ran.
  - destruct (conn_on_event_spec rd ms fut c i token ev Hc) as (c' & i' & -> & Hm). eexists _, _.
    split; [done|]. by apply moved_ran.
  - unfold add_writes, io_add_bytes_to_write.
    destruct (add_bytes_wrote (writer (io c)) bytes (io_write_ok _ (rc_io _ _ _ _ Hc)) Hk) as (w & -> & Hw).
    cbn [mbind outcome_bind]. eexists _, _. split; [done|]. by apply writes_spec.
  - unfold add_contents, io_add_contents_to_write.
    destruct (add_contents_wrote (writer (io c)) r extra (io_write_ok _ (rc_io _ _ _ _ Hc)) Hr Hk) as (w & -> & Hw).
    cbn [mbind outcome_bind]. eexists _, _. split; [done|]. by apply writes_spec.
  - eexists _, _. split; [done|]. apply moved_ran; [done|]. apply moved_none; [|by destruct b].
    destruct b; by apply receiving_flags.
  - eexists _, _. split; [done|]. apply moved_ran; [done|]. apply moved_none; [|done]. by apply receiving_flags.
Qed.

Lemma calls_spec token rd fut ks : forall ms c i, receiving rd ms fut c -> Forall call_ok ks ->
  exists c' i', calls token c i ks = Done (c', i', None) /\ ran rd ms fut ks c i c' i'.
Proof.
  induction ks as [|k ks IH]; intros ms c i Hc Hks; cbn [calls].
  { eexists _, _. split; [done|]. exists [], ms, []. by rewrite !app_nil_r. }
  apply Forall_cons in Hks as [Hk Hks].
  destruct (make_call_spec token rd ms fut c i k Hc Hk) as (c1 & i1 & -> & don1 & rest1 & out1 & -> & Hc1 & Hs1 & Hf1 & Ho1).
  cbn [mbind outcome_bind].
  destruct (IH rest1 c1 i1 Hc1 Hks) as (c' & i' & -> & don & rest & out & -> & Hc' & Hs & Hf & Ho).
  eexists _, _. split; [done|]. exists (don1 ++ don), rest, (out1 ++ out).
  split_and!; [by rewrite app_assoc|done|by rewrite Hs, Hs1, fmap_app, app_assoc|by rewrite Hf, Hf1, app_assoc|].
  intros [-> ->]%app_eq_nil. rewrite (Ho1 eq_refl), (Ho eq_refl). cbn. by rewrite app_nil_r.
Qed.

(** A new connection. *)
Lemma new_receiving rd ms fut s h a :
  stream_ok s -> expected rd ms -> to_come s ++ fut = stream_of rd ms ->
  receiving rd ms fut (handler_from s rd h a).
Proof.
  intros Hs Hms Hb. constructor; cbn [handler_from io reader]; try done; [apply io_new_ok|].
  destruct ms as [|m ms]; [done|]. apply Forall_cons in Hms as [[Hm _] _].
    apply (frame_pos (Framing := HF) rd m) in Hm. cbn. destruct (frame rd m); [done|]. unfold zlen. simpl. lia.
Qed.

(** What has come whole has been handled; all of it, if all has come. *)
Lemma receiving_all rd rest c : receiving rd rest [] c -> to_come (stream (io c)) = [] -> rest = [].
Proof.
  intros [_ _ _ _ Hb Hp _] Ht. rewrite Ht, !app_nil_r in Hb.
  destruct rest as [|m rest]; [done|]. exfalso. rewrite Hb in Hp. unfold partial in Hp.
  change (stream_of rd (m :: rest)) with (frame rd m ++ stream_of rd rest) in Hp. rewrite zlen_app in Hp.
  pose proof (zlen_nonneg (stream_of rd rest)). lia.
Qed.

(** ** Nothing is left unread *)

(** The answers of a socket, and the bytes in them. *)
Definition answers (s : TcpStream) : nat := sum_list (length ∘ answer_data <$> incoming s) + length (incoming s).

Lemma quiet_polls i : quiet i -> polling_read i = true -> is_polling_read i = true.
Proof.
  intros [He Hm] Hp. unfold is_polling_read, io_is_backpressured, has_pending. rewrite Hp, Hm.
  unfold is_empty in He. apply andb_true_iff in He as [_ ->]. done.
Qed.

Lemma io_read_answers i i' res : io_ok i -> bytes_read i < vec_len (read_buffer i) ->
  io_read i = Done (i', res) ->
  (answers (stream i') < answers (stream i) \/ answers (stream i') = 0)%nat.
Proof.
  intros Hi Hr. unfold io_read. rewrite spare_ok by done. cbn [mbind outcome_bind].
  rewrite (proj2 (Z.eqb_neq _ _)) by lia. unfold stream_read, answers.
  destruct (incoming (stream i)) as [|[bytes|e] rest] eqn:Ei.
  - intros ?. right. by inv_done.
  - destruct (_ <=? _)%nat eqn:El; intros ?; left; inv_done; cbn; [lia|].
    apply Nat.leb_gt in El. rewrite length_drop. lia.
  - intros ?. left. destruct e; inv_done; cbn; lia.
Qed.

Lemma read_flags i i' res : io_read i = Done (i', res) ->
  marked_backpressured i' = marked_backpressured i /\ write_buffer i' = write_buffer i.
Proof.
  unfold io_read. intros. inv_done. repeat case_match; inv_done; by simplify_eq.
Qed.

Lemma event_progress rd ms fut c i token ev : silent ->
  receiving rd ms fut c -> quiet (io c) -> ev_readable ev = true ->
  exists c' i', on_event c i token ev = Done (c', i', None) /\ moved rd ms fut c i c' i' /\ quiet (io c') /\
    (answers (stream (io c')) < answers (stream (io c)) \/ answers (stream (io c')) = 0)%nat.
Proof.
  intros Hs Hc Hq Hev. cbn [on_event conn_handler].
  destruct (conn_on_event_spec rd ms fut c i token ev Hc) as (c' & i' & E1 & Hmoved). exists c', i'.
  split; [done|]. split; [done|].
  assert (Hread : forall c0 i0, stream (io c0) = stream (io c) -> receiving rd ms fut c0 -> quiet (io c0) ->
    polling_read (io c0) = true -> poll_read c0 i0 = Done (c', i', None) ->
    quiet (io c') /\ (answers (stream (io c')) < answers (stream (io c)) \/ answers (stream (io c')) = 0)%nat).
  { intros c0 i0 Hst Hc0 Hq0 Hp Hr. unfold poll_read in Hr. rewrite quiet_polls in Hr by done.
    destruct (io_read_spec (io c0) (rc_io _ _ _ _ Hc0) (rc_stream _ _ _ _ Hc0)) as (io1 & n & Er & Hi1 & Hs1 & Hw1 & Hr1).
    rewrite Er in Hr. cbn [mbind outcome_bind] in Hr. pose proof (read_flags _ _ _ Er) as [Hm1 Hwb1].
    apply io_read_answers in Er; [|apply Hc0|apply Hc0]. rewrite Hst in Er.
    destruct (read_messages_spec rd ms fut (with_io c0 io1) i0) as (c1 & i1 & Em & _ & Hs2 & Hq2); try apply Hc0; try done.
    { cbn [io with_io]. rewrite app_assoc, Hr1, <-app_assoc. apply Hc0. }
    rewrite Em in Hr. cbn [mbind outcome_bind] in Hr. simplify_eq. rewrite Hs2. split; [|done].
    apply Hq2; [done|]. destruct Hq0 as [Hq3 Hq4]. split; cbn [io with_io]; [by rewrite Hwb1|by rewrite Hm1]. }
  unfold conn_on_event, conn_on_poll in E1. rewrite Hev in E1.
  assert (Hr1 : forall c1, reader c1 = reader c -> same_read (io c) (io c1) -> stream (io c1) = stream (io c) ->
            write_buffer (io c1) = write_buffer (io c) -> bytes_written (io c1) = bytes_written (io c) ->
            receiving rd ms fut c1).
  { intros c1 Hrd Hsr Hst Hwb Hbw. eapply receiving_io; try done; [|rewrite Hst; apply Hc].
    eapply io_ok_write; [apply Hc|done|rewrite Hwb; apply Hc|rewrite Hbw; apply Hc|]. rewrite Hbw, Hwb. apply Hc. }
  cbn [io with_io is_polling_write] in E1. destruct (is_polling_write _) eqn:Ew.
  - destruct Hq as [He Hm]. unfold io_write in E1.
    assert (Hwb : forall (b : bool) i1, write_buffer (if b then set_polling_write i1 else i1) = write_buffer i1) by (by intros []).
    cbn [write_buffer on_wake with_flags] in E1. rewrite Hwb in E1. cbn in E1. rewrite He in E1.
    cbn [mbind outcome_bind] in E1.
    match type of E1 with context [after_write ?a ?w ?j ?tk ?n] =>
      destruct (after_ok a w j tk n) as (a' & j' & Ea & _) end.
    { cbn. rewrite Hwb. apply Hc. }
    rewrite Ea in E1. cbn [mbind outcome_bind] in E1. eapply Hread; [..|exact E1]; cbn.
    all: destruct (ev_writable ev); try done; by apply Hr1.
  - eapply Hread; [..|exact E1]; cbn; destruct (ev_writable ev); try done; by apply Hr1.
Qed.

Lemma no_answers s : answers s = 0%nat -> to_come s = [].
Proof. unfold answers, to_come. destruct (incoming s); simpl; [done|lia]. Qed.

Lemma events_progress token rd ms fut ev n : silent -> ev_readable ev = true ->
  forall c i, receiving rd ms fut c -> quiet (io c) -> (answers (stream (io c)) <= n)%nat ->
  exists c' i' don rest, calls token c i (replicate n (Notified ev)) = Done (c', i', None) /\
    ms = don ++ rest /\ receiving rd rest fut c' /\ seen i' = seen i ++ (obs <$> don) /\ to_come (stream (io c')) = [].
Proof.
  intros Hs Hev. revert ms. induction n as [|n IH]; intros ms c i Hc Hq Hn; cbn [replicate calls].
  { eexists _, _, [], ms. split_and!; try done; [by rewrite app_nil_r|]. apply no_answers. lia. }
  destruct (event_progress rd ms fut c i token ev Hs Hc Hq Hev) as (c1 & i1 & E1 & Hm & Hq1 & Ha).
  cbn [make_call]. rewrite E1. cbn [mbind outcome_bind].
  destruct Hm as (don1 & rest1 & out1 & -> & Hc1 & Hs1 & _).
  destruct (IH rest1 c1 i1 Hc1 Hq1) as (c' & i' & don & rest & -> & -> & Hc' & Hs' & Ht); [lia|].
  eexists _, _, (don1 ++ don), rest. split_and!; try done; [by rewrite app_assoc|by rewrite Hs', Hs1, fmap_app, app_assoc].
Qed.

(** C14.  A connection hands its handler the messages that were sent to it, each once, in the order
    in which they were sent, whatever pieces the socket gives them in and whatever happens to the
    connection in between (polls, events, writes, back pressure, wake-ups): after any calls the handled
    messages are a prefix of the messages on the socket, what is in the read buffer is less than
    the next message, there is room to read more, and when everything has come everything has been
    handled.  No call panics.  This is so under four conditions: the socket does not fail (it may
    block or be interrupted: [stream_ok]); what comes are frames of messages the reader accepts
    ([expected]); the handler takes every one of them without an error or a panic ([Behaved]); and the
    packets that are written are valid and, in a dev build, no write is larger than the write buffer
    ([call_ok]; [large_message_panics] shows what happens otherwise). *)
Theorem connection_delivers (token : Z) (rd : R) (ms : list Msg) (fut : list Z) (s : TcpStream) (h : H) (a : A)
    (i : Inner) (ks : list call) :
  stream_ok s -> expected rd ms -> to_come s ++ fut = stream_of rd ms -> Forall call_ok ks ->
  exists c' i' don rest,
    calls token (handler_from s rd h a) i ks = Done (c', i', None) /\
    ms = don ++ rest /\ seen i' = seen i ++ (obs <$> don) /\
    read_bytes (io c') ++ to_come (stream (io c')) ++ fut = stream_of rd rest /\
    partial rd rest (read_bytes (io c')) /\ bytes_read (io c') < vec_len (read_buffer (io c')) /\
    (fut = [] -> to_come (stream (io c')) = [] -> don = ms).
Proof.
  intros Hs Hms Hb Hks. pose proof (new_receiving rd ms fut s h a Hs Hms Hb) as Hc.
  destruct (calls_spec token rd fut ks ms _ i Hc Hks) as (c' & i' & E1 & don & rest & out & -> & Hc' & Hseen & _).
  exists c', i', don, rest. split_and!; try done; try apply Hc'.
  intros -> Ht. rewrite (receiving_all rd rest c' Hc' Ht). by rewrite app_nil_r.
Qed.

(** A connection whose handler does not write reads everything its socket gives: as many
    readable events as the socket has answers and bytes are enough for every message to be
    handled. *)
Theorem connection_reads_all (token : Z) (rd : R) (ms : list Msg) (s : TcpStream) (h : H) (a : A) (i : Inner)
    (ev : Event) :
  stream_ok s -> expected rd ms -> to_come s = stream_of rd ms -> silent -> ev_readable ev = true ->
  exists c' i', calls token (handler_from s rd h a) i (replicate (answers s) (Notified ev)) = Done (c', i', None) /\
    seen i' = seen i ++ (obs <$> ms).
Proof.
  intros Hs Hms Hb Hsil Hev.
  pose proof (new_receiving rd ms [] s h a Hs Hms ltac:(by rewrite app_nil_r)) as Hc.
  destruct (events_progress token rd ms [] ev (answers s) Hsil Hev _ i Hc) as (c' & i' & don & rest & -> & -> & Hc' & Hseen & Ht);
    [done|done|].
  eexists _, _. split; [done|]. by rewrite Hseen, (receiving_all rd rest c' Hc' Ht), app_nil_r.
Qed.

(** What a connection to which nothing is sent writes. *)
Lemma connection_sends token rd s h a i ks :
  stream_ok s -> to_come s = [] -> Forall call_ok ks ->
  exists c' i', calls token (handler_from s rd h a) i ks = Done (c', i', None) /\ stream_ok (stream (io c')) /\
    seen i' = seen i /\ sent (stream (io c')) ++ unsent (io c') = sent s ++ concat (written <$> ks).
Proof.
  intros Hs Ht Hks. pose proof (new_receiving rd [] [] s h a Hs ltac:(constructor) ltac:(by rewrite Ht)) as Hc.
  destruct (calls_spec token rd [] ks [] _ i Hc Hks) as (c' & i' & E1 & don & rest & out & Hd & Hc' & Hseen & Hf & Ho).
  symmetry in Hd. apply app_eq_nil in Hd as [-> ->]. exists c', i'. split; [done|]. split; [apply Hc'|].
  rewrite app_nil_r in Hseen. split; [done|]. rewrite (Ho eq_refl) in Hf. unfold flow in Hf. rewrite Hf.
  cbn. unfold unsent, queued. cbn. by rewrite app_nil_r.
Qed.
End Delivery.
