(* ===== verification/ReactorWake.v ===== *)
(** * The loop does not sleep on work

    A loop waits for events only when its queue is empty.  Sockets report an event only after a
    call that would have blocked, so a connection that was not queued and could still read or
    write would be forgotten.  None ever is: whenever the loop waits, every connection has
    nothing to write or a socket that takes nothing, and nothing to read or a reason not to. *)

From stdpp Require Import base gmap list.
From Stdlib Require Import ZArith Lia.
From S2P Require Import Prelude PacketCodec Packets DoubleBuffer Reactor.
Open Scope Z_scope.

(** A writer was left alone or told that there is something to write. *)
Definition honest (w w' : TcpWriter) : Prop := w_polling w' = true \/ w' = w.

Lemma honest_trans w1 w2 w3 : honest w1 w2 -> honest w2 w3 -> honest w1 w3.
Proof. intros [H1| ->] [H2| ->]; [by left|by left|by left|by right]. Qed.

(** A connection that does not poll its socket has asked it, and was told to wait; or there is
    nothing to write. *)
Record attentive (i : TcpIo) : Prop := {
  at_read : polling_read i = true \/ read_blocked (stream i) = true;
  at_write : polling_write i = true \/ is_empty (write_buffer i) = true \/ write_blocked (stream i) = true;
}.

Definition wants (i : TcpIo) : bool := is_polling_read i || polling_write i.

Section Wake.
Context {R Msg E H A Inner E' : Type} `{HB : Build} `{HG : VecGrowth}.
Context `{HR : MessageReader R Msg E} `{HH : MessageHandler H Inner Msg} `{HA : AfterWrite A Inner}.
Context `{HWi : Wakeable Inner} `{HI : Handler Inner (IoState (TcpHandler R H A)) E'}.

Abbreviation Conn := (TcpHandler R H A).
Abbreviation Io := (IoState Conn).

(** The handlers use the writer they are given. *)
Definition honest_handlers : Prop :=
  (forall h w i m h' w' i' b, handle_message h w i m = Done (h', w', i', b) -> honest w w') /\
  (forall a w i token n a' w' i', after_write a w i token n = Done (a', w', i') -> honest w w').

(** ** Connections *)

Lemma attentive_new s : attentive (io_new s).
Proof. constructor; simpl; auto. Qed.

Lemma attentive_flags i a wbr ig bp : attentive i -> attentive (with_flags i a wbr ig bp).
Proof. intros []. by constructor. Qed.

Lemma attentive_writer i w : attentive i -> honest (writer i) w -> attentive (with_writer i w).
Proof. intros [H1 H2] [Hw| ->]; constructor; simpl in *; auto. Qed.

(** A socket is asked only by a connection that polls it. *)
Lemma attentive_read i i' res :
  attentive i -> polling_read i = true -> io_read i = Done (i', res) -> attentive i' /\ marked_awake i' = marked_awake i.
Proof.
  intros [H1 H2] Hp Hr. unfold io_read in Hr. inv_done. case_match; inv_done; [by split|].
  unfold stream_read in *. destruct (incoming (stream i)) as [|[bytes|e] rest].
  2: destruct (_ <=? _)%nat.
  all: repeat case_match; simplify_eq/=; inv_done; (split; [constructor|]); simpl; auto.
Qed.

Lemma attentive_write i i' res :
  attentive i -> polling_write i = true -> io_write i = Done (i', res) -> attentive i' /\ marked_awake i' = marked_awake i.
Proof.
  intros [H1 H2] Hp Hr. unfold io_write in Hr. case_match eqn:Ee; inv_done.
  { split; [constructor|]; simpl; auto. }
  unfold stream_write in *. destruct (outgoing (stream i)) as [|[n|e] rest].
  all: repeat case_match; simplify_eq/=; inv_done; (split; [constructor|]); simpl; auto.
Qed.

Lemma attentive_consume i n i' :
  attentive i -> consume_bytes i n = Done i' -> attentive i' /\ marked_awake i' = marked_awake i.
Proof. intros [] Hc. unfold consume_bytes in Hc. inv_done. split; [by constructor|done]. Qed.

Lemma attentive_ensure i n i' :
  attentive i -> ensure_additional_read i n = Done i' -> attentive i' /\ marked_awake i' = marked_awake i.
Proof.
  intros [] Hc. unfold ensure_additional_read, read_additional in Hc. inv_done.
  case_match; inv_done; (split; [by constructor|done]).
Qed.

Section Polls.
Context (Hon : honest_handlers).

Lemma message_loop_honest fuel : forall it h w i add it' h' w' i' n,
  message_loop fuel it h w i add = Done (it', h', w', i', n) -> honest w w'.
Proof.
  induction fuel as [|fuel IH]; intros it h w i add it' h' w' i' n; cbn [message_loop]; [done|].
  intros Hr. apply bind_done in Hr as ([it1 msg] & _ & Hr).
  destruct msg as [[msg|[more|e]]|]; simplify_eq/=; [|by right..].
  apply bind_done in Hr as ([[[h1 w1] i1] b] & Hm & Hr). inv_done.
  eapply honest_trans; [exact (proj1 Hon _ _ _ _ _ _ _ _ Hm)|exact (IH _ _ _ _ _ _ _ _ _ _ Hr)].
Qed.

Lemma read_messages_attentive (c : Conn) i c' i' : attentive (io c) -> read_messages c i = Done (c', i') ->
  attentive (io c') /\ marked_awake (io c') = marked_awake (io c).
Proof.
  intros Hc Hr. unfold read_messages in Hr.
  apply bind_done in Hr as ([[[[it h] w] i1] n] & E1 & Hr). apply message_loop_honest in E1.
  apply bind_done in Hr as (io1 & E2 & Hr). apply bind_done in Hr as (io2 & E3 & Hr). inv_done. cbn [io].
  apply attentive_consume in E2 as [H1 M1]; [|by apply attentive_writer].
  apply attentive_ensure in E3 as [H2 M2]; [|done]. split; [done|]. by rewrite M2, M1.
Qed.

Lemma poll_read_attentive (c : Conn) i c' i' e : attentive (io c) -> poll_read c i = Done (c', i', e) ->
  attentive (io c') /\ marked_awake (io c') = marked_awake (io c).
Proof.
  intros Hc Hr. unfold poll_read in Hr. case_match eqn:Ep; [|by inv_done; simplify_eq].
  apply andb_true_iff in Ep as [Ep _]. apply bind_done in Hr as ([i1 res] & E1 & Hr).
  apply attentive_read in E1 as [H1 M1]; [|done..]. destruct res as [n|e1]; [|by inv_done; simplify_eq].
  apply bind_done in Hr as ([c1 i2] & E2 & Hr). apply read_messages_attentive in E2 as [H2 M2]; [|done].
  inv_done; simplify_eq. split; [done|]. by rewrite M2.
Qed.

(** After a call the connection is not marked: its caller decides. *)
Lemma conn_on_poll_attentive (c : Conn) i token c' i' e :
  attentive (io c) -> conn_on_poll c i token = Done (c', i', e) -> attentive (io c') /\ marked_awake (io c') = false.
Proof.
  intros Hc Hr. unfold conn_on_poll in Hr. set (c0 := with_io c (on_wake (io c))) in Hr.
  assert (Hc0 : attentive (io c0)) by by apply attentive_flags.
  assert (M0 : marked_awake (io c0) = false) by done. clearbody c0.
  case_match eqn:Ep.
  - apply bind_done in Hr as ([i1 res] & E1 & Hr). apply attentive_write in E1 as [H1 M1]; [|done..].
    rewrite M0 in M1. destruct res as [n|e1]; [|by inv_done; simplify_eq].
    apply bind_done in Hr as ([[a w] i2] & E2 & Hr). apply Hon in E2.
    apply poll_read_attentive in Hr as [H2 M2]; [|by apply attentive_writer]. split; [done|]. by rewrite M2.
  - apply poll_read_attentive in Hr as [H2 M2]; [|done]. split; [done|]. by rewrite M2.
Qed.

Lemma conn_on_event_attentive (c : Conn) i token ev c' i' e :
  attentive (io c) -> conn_on_event c i token ev = Done (c', i', e) -> attentive (io c') /\ marked_awake (io c') = false.
Proof.
  intros Hc. unfold conn_on_event. apply conn_on_poll_attentive. cbn [io with_io].
  destruct (attentive_flags (io c) false (writes_backpressure_reads (io c)) (ignore_backpressure (io c))
              (marked_backpressured (io c)) Hc) as [H1 H2].
  destruct (ev_readable ev), (ev_writable ev); constructor; simpl in *; auto.
Qed.
End Polls.

(** ** What the state of the loop does to its connections *)

Lemma add_bytes_honest w bytes w' : add_bytes_to_write w bytes = Done w' -> honest w w'.
Proof. intros Hw. unfold add_bytes_to_write in Hw. apply bind_done in Hw as ([b a] & _ & Hw). inv_done. by left. Qed.

Lemma add_contents_honest w r extra w' : add_contents_to_write w r extra = Done w' -> honest w w'.
Proof. intros Hw. unfold add_contents_to_write in Hw. apply bind_done in Hw as ([b a] & _ & Hw). inv_done. by left. Qed.

(** Changes to a connection that is not being polled. *)
Inductive conn_edit : Conn -> Conn -> Prop :=
| edit_none c : conn_edit c c
| edit_trans c1 c2 c3 : conn_edit c1 c2 -> conn_edit c2 c3 -> conn_edit c1 c3
| edit_writes c bytes c' : add_writes c bytes = Done c' -> conn_edit c c'
| edit_contents c r extra c' : add_contents c r extra = Done c' -> conn_edit c c'
| edit_backpressured c : conn_edit c (mark_as_backpressured c)
| edit_not_backpressured c : conn_edit c (mark_as_not_backpressured c)
| edit_ignore_backpressure c : conn_edit c (conn_ignore_backpressure c).

Lemma edit_attentive c c' : conn_edit c c' -> attentive (io c) ->
  attentive (io c') /\ marked_awake (io c') = marked_awake (io c).
Proof.
  induction 1 as [|c1 c2 c3 _ IH1 _ IH2|c bytes c' Hw|c r extra c' Hw|c|c|c]; intros Hc.
  - done.
  - destruct (IH1 Hc) as [H1 M1]. destruct (IH2 H1) as [H2 M2]. split; [done|]. by rewrite M2.
  - unfold add_writes, io_add_bytes_to_write in Hw. apply bind_done in Hw as (i1 & Hw & Hc').
    apply bind_done in Hw as (w & Hw & Hi1). inv_done. split; [|done]. by eapply attentive_writer, add_bytes_honest.
  - unfold add_contents, io_add_contents_to_write in Hw. apply bind_done in Hw as (i1 & Hw & Hc').
    apply bind_done in Hw as (w & Hw & Hi1). inv_done. split; [|done]. by eapply attentive_writer, add_contents_honest.
  - split; [|done]. by apply attentive_flags.
  - split; [|done]. by apply attentive_flags.
  - split; [|done]. by apply attentive_flags.
Qed.

Inductive io_move : Io -> Io -> Prop :=
| move_none s : io_move s s
| move_trans s1 s2 s3 : io_move s1 s2 -> io_move s2 s3 -> io_move s1 s3
| move_mutate {T} s token (f : Conn -> outcome (Conn * T)) s' x :
    (forall c c' y, f c = Done (c', y) -> conn_edit c c') -> mutate s token f = Done (s', x) -> io_move s s'
| move_wake s token : io_move s (wake s token).1
| move_add s token stream r h a : io_move s (add_stream s token (handler_from stream r h a)).1.

(** ** The invariant *)

(** Every connection is attentive, and queued if it is marked or has something to do. *)
Definition queued_ok (running : list Z) (s : Io) : Prop :=
  forall token c, streams s !! token = Some c ->
    attentive (io c) /\ (marked_awake (io c) || wants (io c) = true -> token ∈ running ++ awake s).

(** The same, but for one connection. *)
Definition queued_but (but : Z) (running : list Z) (s : Io) : Prop :=
  forall token c, but <> token -> streams s !! token = Some c ->
    attentive (io c) /\ (marked_awake (io c) || wants (io c) = true -> token ∈ running ++ awake s).

Lemma queued_new : queued_ok [] (mkIoState ∅ []).
Proof. intros token c Hc. cbn in Hc. by rewrite lookup_empty in Hc. Qed.

Lemma queued_ok_but token running s : queued_ok running s -> queued_but token running s.
Proof. intros Hs token' c _. apply Hs. Qed.

Lemma queued_pop token running s : queued_ok (token :: running) s -> queued_but token running s.
Proof.
  intros Hs token' c Hn Hc. destruct (Hs token' c Hc) as [H1 H2]. split; [done|].
  intros Hw%H2. apply elem_of_cons in Hw as [->|?]; done.
Qed.

Lemma queued_none token running s : queued_but token running s -> streams s !! token = None -> queued_ok running s.
Proof. intros Hs Hn token' c Hc. apply Hs; [|done]. intros ->. congruence. Qed.

Lemma put_awake_ok running s token c :
  queued_but token running s -> attentive (io c) -> queued_ok running (put_awake s token c).
Proof.
  intros Hs Hc token' c'. unfold put_awake. cbn [streams awake].
  intros [[<- <-]|[Hn Hl]]%lookup_insert_Some.
  - split; [by apply attentive_flags|]. intros _. rewrite app_assoc. apply elem_of_app. right. by left.
  - destruct (Hs token' c' Hn Hl) as [H1 H2]. split; [done|]. intros Hw%H2. rewrite app_assoc.
    apply elem_of_app. by left.
Qed.

(** A connection that is put back without being queued has nothing to do, or is queued already. *)
Lemma put_stream_ok running s token c :
  queued_but token running s -> attentive (io c) ->
  (marked_awake (io c) || wants (io c) = true -> token ∈ running ++ awake s) -> queued_ok running (put_stream s token c).
Proof.
  intros Hs Hc Hw token' c'. unfold put_stream. cbn [streams awake].
  intros [[<- <-]|[Hn Hl]]%lookup_insert_Some; [done|by apply Hs].
Qed.

Lemma io_move_ok running s s' : io_move s s' -> queued_ok running s -> queued_ok running s'.
Proof.
  induction 1 as [|s1 s2 s3 _ IH1 _ IH2|T s token f s' x Hf Hm|s token|s token st r h a]; intros Hs.
  - done.
  - auto.
  - unfold mutate in Hm. destruct (streams s !! token) as [c|] eqn:Ec; [|by inv_done; simplify_eq].
    apply bind_done in Hm as ([c' y] & Ef & Hm). apply Hf in Ef. destruct (Hs token c Ec) as [H1 H2].
    destruct (edit_attentive c c' Ef H1) as [H3 H4]. injection Hm as <- _.
    cbn [is_marked_as_staying_awake conn_wakeable]. destruct (marked_awake (io c')) eqn:Em.
    + apply put_stream_ok; [by apply queued_ok_but|done|]. intros _. apply H2. by rewrite <-H4.
    + apply put_awake_ok; [by apply queued_ok_but|done].
  - unfold wake. destruct (streams s !! token) as [c|] eqn:Ec; [|done].
    destruct (is_marked_as_staying_awake c token); [done|].
    apply put_awake_ok; [by apply queued_ok_but|]. by eapply Hs.
  - unfold add_stream. destruct (streams s !! token) as [c|] eqn:Ec; [done|]. cbn [fst].
    apply put_awake_ok; [by apply queued_ok_but|apply attentive_new].
Qed.

Lemma settle_stream_ok running s token c e :
  queued_but token running s -> attentive (io c) -> marked_awake (io c) = false ->
  queued_ok running (settle_stream s token c e).
Proof.
  intros Hs Hc Hm. unfold settle_stream. destruct e as [e|]; cbn.
  - intros token' c' Hl. cbn [streams] in Hl. apply lookup_delete_Some in Hl as [Hn Hl]. by apply Hs.
  - unfold io_needs_to_mark_as_staying_awake. rewrite Hm, andb_true_r.
    destruct (_ || _) eqn:Ew; [by apply put_awake_ok|]. apply put_stream_ok; [done..|].
    unfold wants. by rewrite Hm, Ew.
Qed.

(** ** The loop *)

(** The state of the loop changes its connections through [IoState] alone, stays out of the queue
    and does not fail. *)
Record tame_inner : Prop := {
  tame_event : forall i s token ev i' s' e, on_event i s token ev = Done (i', s', e) -> io_move s s' /\ e = None;
  tame_poll : forall i s token i' s' e, on_poll i s token = Done (i', s', e) -> io_move s s' /\ e = None;
  tame_work : forall i s i' s', after_work i s = Done (i', s') -> io_move s s';
  tame_awake : forall i token, needs_to_mark_as_staying_awake i token = false;
}.

Context (Hon : honest_handlers) (Htame : tame_inner).

Lemma settle_inner_ok running s token i r :
  queued_ok running s -> settle_inner s token i None = Done r -> queued_ok running (io_state r).
Proof.
  intros Hs Hr. unfold settle_inner in Hr. rewrite (tame_awake Htame) in Hr. by injection Hr as <-.
Qed.

Lemma new_event_ok running r ev r' :
  queued_ok running (io_state r) -> handle_new_event r ev = Done r' -> queued_ok running (io_state r').
Proof.
  intros Hs Hr. unfold handle_new_event in Hr. destruct (streams (io_state r) !! ev_token ev) as [c|] eqn:Ec.
  - apply bind_done in Hr as ([[c' i'] e] & E1 & Hr). inv_done. cbn [io_state].
    apply conn_on_event_attentive in E1 as [H1 H2]; [|done|by eapply Hs].
    apply settle_stream_ok; [by apply queued_ok_but|done..].
  - apply bind_done in Hr as ([[i' s'] e] & E1 & Hr). apply (tame_event Htame) in E1 as [H1 ->].
    eapply settle_inner_ok; [|done]. by eapply io_move_ok.
Qed.

Lemma new_events_ok running evs : forall r r',
  queued_ok running (io_state r) -> handle_new_events r evs = Done r' -> queued_ok running (io_state r').
Proof.
  induction evs as [|ev evs IH]; intros r r' Hs Hr; cbn [handle_new_events] in Hr; [by injection Hr as <-|].
  apply bind_done in Hr as (r1 & E1 & Hr). eapply IH; [|done]. by eapply new_event_ok.
Qed.

Lemma run_token_ok running r token r' b :
  queued_ok (token :: running) (io_state r) -> run_token r token = Done (r', b) -> queued_ok running (io_state r').
Proof.
  intros Hs Hr. unfold run_token in Hr. destruct (streams (io_state r) !! token) as [c|] eqn:Ec.
  - apply bind_done in Hr as ([[c' i'] e] & E1 & Hr). injection Hr as <- _. cbn [io_state].
    apply conn_on_poll_attentive in E1 as [H1 H2]; [|done|by eapply Hs].
    apply settle_stream_ok; [by apply queued_pop|done..].
  - apply bind_done in Hr as ([[i' s'] e] & E1 & Hr). apply (tame_poll Htame) in E1 as [H1 ->].
    apply bind_done in Hr as (r1 & E2 & Hr). injection Hr as <- _. eapply settle_inner_ok; [|done].
    eapply io_move_ok; [done|]. eapply queued_none; [by apply queued_pop|done].
Qed.

(** Whatever is left to do is queued; when the loop waits, nothing is. *)
Definition loop_ok (r : Reactor Conn Inner) (ph : Phase) : Prop :=
  match ph with
  | Waiting => queued_ok [] (io_state r) /\ awake (io_state r) = []
  | Working running _ => queued_ok running (io_state r)
  end.

Lemma run_step_ok r ph events r' ph' : loop_ok r ph -> run_step r ph events = Done (r', ph') -> loop_ok r' ph'.
Proof.
  intros Hl Hr. destruct ph as [|[|token running] re_poll]; cbn [run_step] in Hr.
  - apply bind_done in Hr as (r1 & E1 & Hr). injection Hr as <- <-. cbn. destruct Hl as [Hl _].
    by eapply new_events_ok.
  - case_bool_decide as Ea; injection Hr as <- <-; cbn; [done|].
    intros token c Hc. destruct (Hl token c Hc) as [H1 H2]. split; [done|]. intros Hw%H2. cbn in *. by rewrite app_nil_r.
  - apply bind_done in Hr as ([r1 b] & E1 & Hr). apply run_token_ok with (running := running) in E1; [|done].
    destruct b; [|by injection Hr as <- <-].
    apply bind_done in Hr as ([i s] & E2 & Hr). apply (tame_work Htame) in E2.
    apply bind_done in Hr as (r2 & E3 & Hr). injection Hr as <- <-. cbn.
    assert (Hs : queued_ok running s) by by eapply io_move_ok.
    destruct re_poll; [exact (new_events_ok running _ (mkReactor s i) _ Hs E3)|]. by injection E3 as <-.
Qed.

Lemma run_ok steps : forall r ph r' ph', loop_ok r ph -> run r ph steps = Done (r', ph') -> loop_ok r' ph'.
Proof.
  induction steps as [|[others evs] steps IH]; intros r ph r' ph' Hl Hr; cbn [run] in Hr; [by injection Hr as <- <-|].
  apply bind_done in Hr as ([r1 ph1] & E1 & Hr). eapply IH; [|done].
  by apply (run_step_ok (mkReactor (io_state r) (others (inner r))) ph evs).
Qed.

(** The connections a loop is given before it runs ([Reactor::add_stream]): new ones, some of which
    ignore back pressure, as those of the client's store do. *)
Definition started (r : Reactor Conn Inner) (conns : list (Z * bool * TcpStream * R * H * A)) : Reactor Conn Inner :=
  foldl (fun r '(token, ignores, stream, rd, h, a) =>
    let c := handler_from stream rd h a in
    (reactor_add_stream r token (if ignores : bool then conn_ignore_backpressure c else c)).1) r conns.

Lemma started_ok conns : forall r, queued_ok [] (io_state r) -> queued_ok [] (io_state (started r conns)).
Proof.
  induction conns as [|[[[[[token ig] st] rd] h] a] conns IH]; intros r Hr; [done|]. cbn [started foldl]. apply IH.
  unfold reactor_add_stream. destruct (streams (io_state r) !! token) as [c|] eqn:Ec; [done|]. cbn [fst io_state].
  intros token' c'. cbn [streams awake]. intros [[<- <-]|[Hn Hl]]%lookup_insert_Some.
  - split; [|intros _; cbn; apply elem_of_app; right; by apply list_elem_of_singleton]. destruct ig; [apply attentive_flags|]; apply attentive_new.
  - destruct (Hr token' c' Hl) as [H1 H2]. split; [done|]. intros Hw%H2. cbn in *. apply elem_of_app. by left.
Qed.

(** What is queued when the loop starts is served once it has waited for the first time. *)
Lemma run_started steps r r' ph' :
  queued_ok [] (io_state r) -> awake (io_state r) = [] \/ steps <> [] -> run r Waiting steps = Done (r', ph') -> loop_ok r' ph'.
Proof.
  intros Hs Hne Hr. destruct steps as [|[others evs] steps].
  { destruct Hne as [Ha|?]; [|done]. by eapply run_ok in Hr. }
  cbn [run] in Hr. apply bind_done in Hr as ([r1 ph1] & E1 & Hr). eapply run_ok; [|exact Hr].
  cbn [run_step] in E1. apply bind_done in E1 as (r2 & E1 & E2). injection E2 as <- <-. cbn.
  exact (new_events_ok [] evs (mkReactor (io_state r) (others (inner r))) _ Hs E1).
Qed.

(** C16.  A loop waits for events only when there is nothing it could do: each of its connections has
    nothing to write, or its socket would have blocked the last write; and its socket would have
    blocked the last read, or reading is held back by writes that wait for the socket, or by a mark.
    Whenever it does not wait, a connection that could do something is queued.  This holds of a loop
    that was started with no connections, as a worker's is, and of one that was given connections
    before ([conns]), as that of the client's store is, once it has waited for the first time (it
    waits once before it looks at them). *)
Theorem no_lost_wakeup (token0 : Z) (i0 : Inner) (conns : list (Z * bool * TcpStream * R * H * A))
    (steps : list ((Inner -> Inner) * list Event)) (r : Reactor Conn Inner) (ph : Phase) (token : Z) (c : Conn) :
  run (started (with_inner token0 i0) conns) Waiting steps = Done (r, ph) -> streams (io_state r) !! token = Some c ->
  conns = [] \/ steps <> [] ->
  match ph with
  | Waiting =>
      (is_empty (write_buffer (io c)) = true \/ write_blocked (stream (io c)) = true) /\
      (read_blocked (stream (io c)) = true \/ marked_backpressured (io c) = true \/
       has_pending (write_buffer (io c)) = true /\ write_blocked (stream (io c)) = true)
  | Working running _ => wants (io c) = true -> token ∈ running ++ awake (io_state r)
  end.
Proof.
  intros Hr Hc Hne. unfold with_inner in Hr. rewrite (tame_awake Htame) in Hr.
  apply run_started in Hr; [|apply started_ok, queued_new|destruct Hne as [->|?]; [by left|by right]].
  destruct ph as [|running re_poll]; cbn in Hr.
  - destruct Hr as [Hr Hn]. destruct (Hr token c Hc) as [[H1 H2] H3]. rewrite Hn in H3. cbn in H3.
    assert (Hw : wants (io c) = false).
    { destruct (wants (io c)); [|done]. rewrite orb_true_r in H3. by specialize (H3 eq_refl) as ?%elem_of_nil. }
    unfold wants, is_polling_read, io_is_backpressured in Hw. apply orb_false_iff in Hw as [Hwr Hww].
    rewrite Hww in H2. destruct H2 as [?|H2]; [done|]. split; [done|].
    destruct H1 as [H1|H1]; [|by left]. right. rewrite H1 in Hwr. cbn in Hwr.
    apply negb_false_iff, andb_true_iff in Hwr as [Hwr _]. apply orb_true_iff in Hwr as [?|Hp]; [by left|].
    right. split; [done|]. destruct H2 as [H2|?]; [|done]. unfold is_empty, has_pending in *.
    apply andb_true_iff in H2 as [_ H2]. by rewrite H2 in Hp.
  - destruct (Hr token c Hc) as [_ H2]. intros Hw. apply H2. by rewrite Hw, orb_true_r.
Qed.
End Wake.

(** ** What holds of every connection *)

Section All.
Context {P Inner E E' : Type} `{HWp : Wakeable P} `{HWi : Wakeable Inner}.
Context `{HP : Handler P Inner E} `{HI : Handler Inner (IoState P) E'}.

Definition all_streams (q : P -> Prop) (s : IoState P) : Prop := map_Forall (fun _ => q) (streams s).

(** A property of connections that calls and marks keep, and that the state of the loop keeps for
    all of them, is kept by the loop. *)
Record kept (q : P -> Prop) : Prop := {
  kept_event : forall p i token ev p' i' e, q p -> on_event p i token ev = Done (p', i', e) -> q p';
  kept_poll : forall p i token p' i' e, q p -> on_poll p i token = Done (p', i', e) -> q p';
  kept_error : forall p e, q p -> q (on_error p e).1;
  kept_mark : forall p token, q p -> q (mark_as_staying_awake p token);
  kept_inner_event : forall i s token ev i' s' e,
    all_streams q s -> on_event i s token ev = Done (i', s', e) -> all_streams q s';
  kept_inner_poll : forall i s token i' s' e, all_streams q s -> on_poll i s token = Done (i', s', e) -> all_streams q s';
  kept_inner_work : forall i s i' s', all_streams q s -> after_work i s = Done (i', s') -> all_streams q s';
}.

Context (q : P -> Prop) (Hq : kept q).

Lemma all_put_stream s token p : all_streams q s -> q p -> all_streams q (put_stream s token p).
Proof. intros Hs Hp. by apply map_Forall_insert_2. Qed.

Lemma all_put_awake s token p : all_streams q s -> q p -> all_streams q (put_awake s token p).
Proof. intros Hs Hp. apply map_Forall_insert_2; [by apply (kept_mark q Hq)|done]. Qed.

Lemma all_settle s token p e : all_streams q s -> q p -> all_streams q (settle_stream s token p e).
Proof.
  intros Hs Hp. unfold settle_stream.
  assert (Hr : q (match e with Some e => on_error p e | None => (p, false) end).1).
  { destruct e; [by apply (kept_error q Hq)|done]. }
  destruct (match e with Some e => on_error p e | None => (p, false) end) as [p' removed]. cbn in Hr.
  destruct removed; [by apply map_Forall_delete|]. case_match; [by apply all_put_awake|by apply all_put_stream].
Qed.

Lemma all_settle_inner s token i e r :
  all_streams q s -> settle_inner s token i e = Done r -> all_streams q (io_state r).
Proof.
  intros Hs Hr. unfold settle_inner in Hr.
  destruct (match e with Some e => on_error i e | None => (i, false) end) as [i' removed].
  apply bind_done in Hr as (_ & _ & Hr). case_match; by injection Hr as <-.
Qed.

Lemma all_event r ev r' : all_streams q (io_state r) -> handle_new_event r ev = Done r' -> all_streams q (io_state r').
Proof.
  intros Hs Hr. unfold handle_new_event in Hr. destruct (streams (io_state r) !! ev_token ev) as [p|] eqn:Ep.
  - apply bind_done in Hr as ([[p' i'] e] & E1 & Hr). injection Hr as <-. apply all_settle; [done|].
    eapply (kept_event q Hq); [|done]. by eapply Hs.
  - apply bind_done in Hr as ([[i' s'] e] & E1 & Hr). eapply all_settle_inner; [|done].
    by eapply (kept_inner_event q Hq).
Qed.

Lemma all_events evs : forall r r',
  all_streams q (io_state r) -> handle_new_events r evs = Done r' -> all_streams q (io_state r').
Proof.
  induction evs as [|ev evs IH]; intros r r' Hs Hr; cbn [handle_new_events] in Hr; [by injection Hr as <-|].
  apply bind_done in Hr as (r1 & E1 & Hr). eapply IH; [|done]. by eapply all_event.
Qed.

Lemma all_token r token r' b : all_streams q (io_state r) -> run_token r token = Done (r', b) -> all_streams q (io_state r').
Proof.
  intros Hs Hr. unfold run_token in Hr. destruct (streams (io_state r) !! token) as [p|] eqn:Ep.
  - apply bind_done in Hr as ([[p' i'] e] & E1 & Hr). injection Hr as <- _. apply all_settle; [done|].
    eapply (kept_poll q Hq); [|done]. by eapply Hs.
  - apply bind_done in Hr as ([[i' s'] e] & E1 & Hr). apply bind_done in Hr as (r1 & E2 & Hr). injection Hr as <- _.
    eapply all_settle_inner; [|done]. by eapply (kept_inner_poll q Hq).
Qed.

Lemma all_step r ph evs r' ph' :
  all_streams q (io_state r) -> run_step r ph evs = Done (r', ph') -> all_streams q (io_state r').
Proof.
  intros Hs Hr. destruct ph as [|[|token running] re_poll]; cbn [run_step] in Hr.
  - apply bind_done in Hr as (r1 & E1 & Hr). injection Hr as <- _. by eapply all_events.
  - case_bool_decide; by injection Hr as <- _.
  - apply bind_done in Hr as ([r1 b] & E1 & Hr). apply all_token in E1; [|done]. destruct b; [|by injection Hr as <- _].
    apply bind_done in Hr as ([i s] & E2 & Hr). apply (kept_inner_work q Hq) in E2; [|done].
    apply bind_done in Hr as (r2 & E3 & Hr). injection Hr as <- _.
    destruct re_poll; [exact (all_events evs (mkReactor s i) _ E2 E3)|]. by injection E3 as <-.
Qed.

Lemma run_all steps : forall r ph r' ph',
  all_streams q (io_state r) -> run r ph steps = Done (r', ph') -> all_streams q (io_state r').
Proof.
  induction steps as [|[others evs] steps IH]; intros r ph r' ph' Hs Hr; cbn [run] in Hr; [by injection Hr as <- _|].
  apply bind_done in Hr as ([r1 ph1] & E1 & Hr). eapply IH; [|done].
  exact (all_step (mkReactor (io_state r) (others (inner r))) ph evs _ _ Hs E1).
Qed.
End All.
