(* ===== verification/Transport.v ===== *)
(** * Messages on a connection

    - [fuzzy_log_util/src/socket_addr.rs]: the 16 bytes that name a client;
    - [PacketReader] of [fuzzy_log_server/src/tcp/per_socket.rs]: a request is a packet, on a
      connection from another server the location of its storage, and the client's name;
    - [PacketReader] of [fuzzy_log_client/src/store.rs]: an answer is a packet.

    Both readers cut a stream where the messages end ([Framing]), so what is written on one side
    is what is handled on the other. *)

From stdpp Require Import base gmap list.
From Stdlib Require Import ZArith Lia.
From S2P Require Import Prelude PacketCodec Packets DoubleBuffer Reactor ReactorSafety.
Open Scope Z_scope.

(** ** [Ipv4SocketAddr] *)

Module Ipv4SocketAddr.
Record t := mk { bytes : list Z }.

#[global] Instance t_eq_dec : EqDecision t.
Proof. solve_decision. Defined.
#[global] Instance t_countable : Countable t.
Proof. by refine (inj_countable' bytes mk _); intros []. Defined.

Definition size : Z := 16.

Definition from_bytes (bs : list Z) : t := mk bs.
Definition from_u64 (num : Z) : t := mk (le_bytes 8 num ++ replicate 8 0).
(** Panics on a slice that is too short. *)
Definition from_slice (slice : list Z) : outcome t :=
  _ ← assert_ (size <=? zlen slice); Done (mk (take 16 slice)).
(** A [Uuid] as a number, its bytes from the most significant one. *)
Definition from_uuid (id : Z) : t := mk (rev (le_bytes 16 id)).
Definition to_uuid (a : t) : Z := le_value (rev (bytes a)).
Definition nil : t := mk (replicate 16 0).

Definition wf (a : t) : Prop := length (bytes a) = 16%nat.

Lemma from_slice_app a rest : wf a -> from_slice (bytes a ++ rest) = Done a.
Proof.
  unfold wf, from_slice, size. intros Ha. rewrite (proj2 (Z.leb_le _ _)); cycle 1.
  { unfold zlen. rewrite length_app. lia. }
  simpl. rewrite <-Ha, take_app_length. by destruct a.
Qed.
End Ipv4SocketAddr.

Abbreviation Addr := Ipv4SocketAddr.t.

(** ** The reader of a server *)

Module Server.
(** [buffer_cache] is never used. *)
Record PacketReader := mkReader { buffer_cache : list (list Z); is_replica : bool }.

Definition Message : Type := list Z * Addr * option Z.

Definition deserialize (self : PacketReader) (bytes : list Z)
  : outcome (PacketReader * (Message * Z + MessageReaderError ErrorKind)) :=
  let extra := if is_replica self then 8 else 0 in
  c ← try_ref bytes;
  match c with
  | NotEnoughBytes needs => Done (self, inr (NeedMoreBytes (needs + Ipv4SocketAddr.size + extra)))
  | BadTag => Done (self, inr (Other InvalidInput))
  | Ok c _ =>
      size ← Packets.len c;
      let whole := size + extra + Ipv4SocketAddr.size in
      if zlen bytes <? whole then Done (self, inr (NeedMoreBytes (whole - zlen bytes)))
      else
        let buffer := take (Z.to_nat size) bytes in
        let storage_loc :=
          if is_replica self then Some (le_value (take 8 (drop (Z.to_nat size) bytes))) else None in
        src_addr ← Ipv4SocketAddr.from_slice (drop (Z.to_nat (size + extra)) bytes);
        Done (self, inl ((buffer, src_addr, storage_loc), whole))
  end.

#[global] Instance reader : MessageReader PacketReader Message ErrorKind := deserialize.

(** What a message looks like on the connection. *)
Definition loc_bytes (loc : option Z) : list Z := match loc with Some l => le_bytes 8 l | None => [] end.
Definition frame (rd : PacketReader) (m : Message) : list Z :=
  let '(buffer, addr, loc) := m in buffer ++ loc_bytes loc ++ Ipv4SocketAddr.bytes addr.

Definition loc_ok (rd : PacketReader) (loc : option Z) : Prop :=
  match loc with Some l => is_replica rd = true /\ in_u64 l | None => is_replica rd = false end.
Definition ok (rd : PacketReader) (m : Message) : Prop :=
  let '(buffer, addr, loc) := m in
  (exists r, valid r = true /\ buffer = bytes_of r) /\ Ipv4SocketAddr.wf addr /\ loc_ok rd loc.

Lemma length_loc_bytes rd loc : loc_ok rd loc -> zlen (loc_bytes loc) = if is_replica rd then 8 else 0.
Proof.
  destruct loc as [l|]; [intros [-> _]|intros ->]; [|done]. unfold zlen, loc_bytes. by rewrite length_le_bytes.
Qed.

Lemma try_ref_empty : exists n, try_ref [] = Done (NotEnoughBytes n) /\ 0 < n.
Proof. by eexists. Qed.

Lemma reads rd m rest : ok rd m -> deserialize rd (frame rd m ++ rest) = Done (rd, inl (m, zlen (frame rd m))).
Proof.
  destruct m as [[buffer addr] loc]. intros ((r & Hr & ->) & Ha & Hl). unfold deserialize, frame.
  rewrite <-!app_assoc, try_ref_valid by done. cbn [mbind outcome_bind]. rewrite len_valid by done.
  cbn [mbind outcome_bind]. pose proof (length_loc_bytes rd loc Hl) as Hll.
  assert (Hwhole : zlen (bytes_of r ++ loc_bytes loc ++ Ipv4SocketAddr.bytes addr)
                   = zlen (bytes_of r) + (if is_replica rd then 8 else 0) + Ipv4SocketAddr.size).
  { rewrite !zlen_app, Hll. unfold Ipv4SocketAddr.wf in Ha. unfold zlen at 2. rewrite Ha.
    unfold Ipv4SocketAddr.size. lia. }
  rewrite (proj2 (Z.ltb_ge _ _)); cycle 1.
  { rewrite <-Hwhole, !zlen_app. pose proof (zlen_nonneg rest). lia. }
  assert (Hn : Z.to_nat (zlen (bytes_of r)) = length (bytes_of r)) by (unfold zlen; lia).
  rewrite Z2Nat.inj_add, Hn, <-drop_drop, !take_app_length, !drop_app_length;
    [|apply zlen_nonneg|by destruct (is_replica rd)].
  assert (Hln : Z.to_nat (if is_replica rd then 8 else 0) = length (loc_bytes loc)) by (unfold zlen in Hll; lia).
  rewrite Hln, drop_app_length, Ipv4SocketAddr.from_slice_app by done.
  cbn [mbind outcome_bind]. rewrite Hwhole. do 3 f_equal. f_equal. destruct loc as [l|]; simpl in Hl.
  - destruct Hl as [-> Hl]. f_equal. cbn [loc_bytes].
    rewrite <-(length_le_bytes 8 l) at 1. rewrite take_app_length. f_equal. apply le_value_bytes.
    unfold in_u64, u64_max in Hl. simpl Z.of_nat. lia.
  - by rewrite Hl.
Qed.

Lemma asks rd m bytes more : ok rd m -> frame rd m = bytes ++ more -> more <> [] ->
  exists n, deserialize rd bytes = Done (rd, inr (NeedMoreBytes n)) /\ 0 < n.
Proof.
  destruct m as [[buffer addr] loc]. intros ((r & Hr & ->) & Ha & Hl) Heq Hmore. cbn [frame] in Heq.
  pose proof (length_loc_bytes rd loc Hl) as Hll. unfold Ipv4SocketAddr.wf in Ha.
  assert (Hpos : forall n, 0 < n -> 0 < n + Ipv4SocketAddr.size + (if is_replica rd then 8 else 0)).
  { intros n Hn. unfold Ipv4SocketAddr.size. destruct (is_replica rd); lia. }
  assert (Hlen : forall b, bytes = bytes_of r ++ b ->
    exists n, deserialize rd bytes = Done (rd, inr (NeedMoreBytes n)) /\ 0 < n).
  { intros b ->. unfold deserialize. rewrite try_ref_valid by done. cbn [mbind outcome_bind].
    rewrite len_valid by done. cbn [mbind outcome_bind].
    apply (f_equal zlen) in Heq. rewrite !zlen_app, Hll in Heq. unfold zlen at 2 in Heq. rewrite Ha in Heq.
    assert (0 < zlen more) by (destruct more; [done|unfold zlen; simpl; lia]).
    rewrite (proj2 (Z.ltb_lt _ _)) by (rewrite zlen_app; unfold Ipv4SocketAddr.size; lia).
    eexists. split; [done|]. rewrite zlen_app. unfold Ipv4SocketAddr.size. lia. }
  destruct (app_eq_inv (bytes_of r) (loc_bytes loc ++ Ipv4SocketAddr.bytes addr) bytes more Heq)
    as [(k & Hk & _)|(k & Hk & _)]; [|by eapply Hlen].
  destruct (try_ref_prefix r bytes k Hr Hk) as [[_ ->]|(n & Hn & Hlt)].
  - apply (Hlen []). rewrite app_nil_r in *. done.
  - unfold deserialize. rewrite Hn. cbn [mbind outcome_bind]. eexists. split; [done|]. apply Hpos.
    pose proof (zlen_nonneg bytes). lia.
Qed.

#[global] Instance framing : Framing PacketReader Message ErrorKind ok frame.
Proof.
  constructor.
  - intros rd [[buffer addr] loc] ((r & _ & ->) & _) Hn. by apply app_eq_nil in Hn as [? _].
  - apply reads.
  - apply asks.
  - intros rd. unfold deserialize_message, reader, deserialize. destruct try_ref_empty as (n & -> & Hn).
    cbn [mbind outcome_bind]. eexists. split; [done|]. unfold Ipv4SocketAddr.size. destruct (is_replica rd); lia.
Qed.
End Server.

(** ** The reader of a client *)

Module Client.
Inductive PacketReader := mkReader.

Definition deserialize (self : PacketReader) (bytes : list Z)
  : outcome (PacketReader * (list Z * Z + MessageReaderError ErrorKind)) :=
  c ← try_ref bytes;
  match c with
  | NotEnoughBytes needs => Done (self, inr (NeedMoreBytes needs))
  | BadTag => Done (self, inr (Other InvalidInput))
  | Ok c _ => size ← Packets.len c; Done (self, inl (take (Z.to_nat size) bytes, size))
  end.

#[global] Instance reader : MessageReader PacketReader (list Z) ErrorKind := deserialize.

Definition frame (rd : PacketReader) (buffer : list Z) : list Z := buffer.
Definition ok (rd : PacketReader) (buffer : list Z) : Prop := exists r, valid r = true /\ buffer = bytes_of r.

#[global] Instance framing : Framing PacketReader (list Z) ErrorKind ok frame.
Proof.
  constructor.
  - by intros rd m (r & _ & ->).
  - intros rd m rest (r & Hr & ->). unfold deserialize_message, reader, deserialize, frame.
    rewrite try_ref_valid by done. cbn [mbind outcome_bind]. rewrite len_valid by done. cbn [mbind outcome_bind].
    unfold zlen at 1. by rewrite Nat2Z.id, take_app_length.
  - intros rd m bytes more (r & Hr & ->) Heq Hmore. unfold deserialize_message, reader, deserialize.
    destruct (try_ref_prefix r bytes more Hr Heq) as [[_ ?]|(n & -> & Hn)]; [done|].
    cbn [mbind outcome_bind]. eexists. split; [done|]. pose proof (zlen_nonneg bytes). lia.
  - intros rd. unfold deserialize_message, reader, deserialize. destruct Server.try_ref_empty as (n & -> & Hn).
    by eexists.
Qed.
End Client.
