(* ===== verification/ServerTcp.v ===== *)
(** * The workers of a server and their connections ([fuzzy_log_server/src/tcp/worker.rs], [per_socket.rs])

    A worker is a loop ([Reactor]) with a connection per client, and one to the next server of the
    replication chain for each.  It turns the requests that come in on its connections into
    messages of the ordering thread ([send_to_log], [send_replication_to_log]), with the storage
    they need, serves reads itself, and sends what [handle_to_worker2] says to the client or to the
    next server.

    A message of the ordering thread comes with a flag that says whether it holds the last
    reference of its storage when it is handled ([Arc::try_unwrap]). *)

From stdpp Require Import base gmap list.
From Stdlib Require Import ZArith Lia.
From S2P Require Import Prelude PacketCodec Packets Trie OrderingThread WorkerThread.
From S2P Require Import ClientStore DoubleBuffer Reactor Transport.
Open Scope Z_scope.

Definition FROM_DIST : Z := 0.
Definition FROM_LOG : Z := 1.
Definition FIRST_CLIENT_TOKEN : Z := 10.

(** The worker, the connection and the client a request came from. *)
Definition Origin : Type := Z * Z * Addr.

Inductive WorkerToDist := FenceClientReq (buffer : list Z) | ClientFenced (buffer : list Z).

Inductive DistToWorker :=
| NewClient (token : Z) (upstream : TcpStream) (downstream : option (Z * TcpStream)) (addr : Addr)
| FenceOff (token : Z) (buffer : list Z)
| FinishedFence (token : Z) (buffer : list Z).

Inductive ToLog :=
| LogNew (buffer : Ref) (storage : Storage) (t : Origin)
| LogReplication (to_replicate : ToReplicate) (t : Origin)
| LogRecovery (recovery : Recovery) (t : Origin).

Record PacketHandler := mkPacketHandler { ph_token : Z }.
Record WriteHandler := mkWriteHandler { wh_upstream : option Z }.

Abbreviation PerStream := (TcpHandler Server.PacketReader PacketHandler WriteHandler).

Definition new_stream (stream : TcpStream) (token : Z) (is_replica : bool) (upstream : option Z) : PerStream :=
  handler_from stream (Server.mkReader [] is_replica) (mkPacketHandler token) (mkWriteHandler upstream).

(** [Buffer::entry_slice] *)
Definition entry_slice (buffer : list Z) : outcome (list Z) :=
  r ← contents buffer; size ← Packets.len r; Done (take (Z.to_nat size) buffer).

Section Worker.
Context `{Build} `{VecGrowth} {A : Type} `{ByteTrie A}.

Abbreviation Mem := (Shared Origin A).
Abbreviation Wk := (@W Origin A).

Record WorkerInner := mkWorker {
  from_dist : list DistToWorker;
  to_dist : list WorkerToDist;
  from_log : list (ToWorker Origin * bool);
  to_log : list ToLog;
  mem : Mem;                               (* the chains ([log_reader]), storages and slices *)
  downstream_for_addr : gmap Addr Z;
  worker_num : Z;
  num_workers : Z;
  is_unreplicated : bool;
  has_upstream : bool;
  has_downstream : bool;
  remove_backpressure : list Z;
  next_token : Z;
}.

Definition worker_new (memory : Mem) (num_workers : Z) (is_unreplicated has_upstream has_downstream : bool)
    (worker_num : Z) : WorkerInner :=
  mkWorker [] [] [] [] memory ∅ worker_num num_workers is_unreplicated has_upstream has_downstream []
           FIRST_CLIENT_TOKEN.

Definition with_mem (w : WorkerInner) (m : Mem) : WorkerInner :=
  mkWorker (from_dist w) (to_dist w) (from_log w) (to_log w) m (downstream_for_addr w) (worker_num w) (num_workers w)
    (is_unreplicated w) (has_upstream w) (has_downstream w) (remove_backpressure w) (next_token w).
Definition with_log_queue (w : WorkerInner) q : WorkerInner :=
  mkWorker (from_dist w) (to_dist w) q (to_log w) (mem w) (downstream_for_addr w) (worker_num w) (num_workers w)
    (is_unreplicated w) (has_upstream w) (has_downstream w) (remove_backpressure w) (next_token w).
Definition with_dist (w : WorkerInner) q sent : WorkerInner :=
  mkWorker q sent (from_log w) (to_log w) (mem w) (downstream_for_addr w) (worker_num w) (num_workers w)
    (is_unreplicated w) (has_upstream w) (has_downstream w) (remove_backpressure w) (next_token w).
Definition with_clients (w : WorkerInner) d n : WorkerInner :=
  mkWorker (from_dist w) (to_dist w) (from_log w) (to_log w) (mem w) d (worker_num w) (num_workers w)
    (is_unreplicated w) (has_upstream w) (has_downstream w) (remove_backpressure w) n.
Definition with_remove (w : WorkerInner) q : WorkerInner :=
  mkWorker (from_dist w) (to_dist w) (from_log w) (to_log w) (mem w) (downstream_for_addr w) (worker_num w)
    (num_workers w) (is_unreplicated w) (has_upstream w) (has_downstream w) q (next_token w).

(** [self.to_log.send(..)] *)
Definition send_log (w : WorkerInner) (msg : ToLog) : WorkerInner :=
  mkWorker (from_dist w) (to_dist w) (from_log w) (to_log w ++ [msg]) (mem w) (downstream_for_addr w) (worker_num w)
    (num_workers w) (is_unreplicated w) (has_upstream w) (has_downstream w) (remove_backpressure w) (next_token w).

(** A call on the shared memory. *)
Definition on_mem {X} (w : WorkerInner) (f : Wk X) : outcome (WorkerInner * X) :=
  '(m, x) ← f (mem w); Done (with_mem w m, x).

(** ** Storage *)

Definition fresh_handle (m : Mem) : Z := base.fresh (dom (storages (srv m)) ∪ dom (slices m) : gset Z).

(** [RcSlice::with_len]: the memory is not initialised; zeros stand for what it holds. *)
Definition rc_slice (len : Z) : list Z := replicate (Z.to_nat len) 0.

(** [SkeensMultiStorage::new] *)
Definition new_storage (num_locs entry_size : Z) (sentinel_size : option Z) : Wk Z := fun m =>
  let h := fresh_handle m in
  (_ ← set_storage h (storage_new num_locs entry_size sentinel_size);
   _ ← set_slices h (mkShared (rc_slice entry_size) (rc_slice <$> sentinel_size));
   mret h) m.

(** [Box::new((m, s))] of two slices *)
Definition new_slices (size senti_size : Z) : Wk SlicePair := fun m =>
  let h := fresh_handle m in
  (_ ← set_slices h (mkShared (rc_slice size) (Some (rc_slice senti_size))); mret (mkSlices h size senti_size [])) m.

(** [SkeensMultiStorage::fill_from]; the buffer is turned into a sentinel and back. *)
Definition fill_from (h : Z) (buffer : Ref) : Wk Ref :=
  buffer ← try (insert_flag EntryFlag.ReadSuccess buffer);
  bytes ← try (to_vec buffer);
  _ ← fill_st0 h bytes;
  s ← slices_of h;
  _ ← (match st1 s with
       | Some b =>
           senti ← try (slice_to_sentinel buffer);
           bytes ← try (to_vec senti);
           b ← try (copy_from_slice b bytes);
           set_slices h (mkShared (st0 s) (Some b))
       | None => mret tt
       end : Wk unit);
  mret buffer.

Definition contains_zero (ls : list OrderIndex) : bool := bool_decide (no_loc ∈ ls).

(** ** Requests *)

(** The end of [send_to_log]. *)
Definition send_new (w : WorkerInner) (buffer : Ref) (storage : Storage) (t : Origin) : WorkerInner :=
  send_log w (LogNew buffer storage t).

Definition send_multi (w : WorkerInner) (buffer : Ref) (f : EntryFlag.Flag) (t : Origin) : outcome WorkerInner :=
  ls ← Packets.locs buffer;
  let num_locs := zlen ls in
  let has_senti := contains_zero ls || negb (EntryFlag.contains f EntryFlag.TakeLock) in
  size ← Packets.len buffer;
  senti_size ← sentinel_entry_size buffer;
  if EntryFlag.contains f EntryFlag.Unlock then Done (send_new w buffer TNone t)
  else if EntryFlag.contains f EntryFlag.DirectWrite then
    '(w, storage) ← on_mem w (new_slices size senti_size);
    Done (send_log w (LogReplication (RMulti buffer storage) t))
  else if EntryFlag.contains f EntryFlag.NewMultiPut || negb (EntryFlag.contains f EntryFlag.TakeLock) then
    '(w, h) ← on_mem w (new_storage num_locs size (if has_senti then Some senti_size else None));
    '(w, buffer) ← (if negb (EntryFlag.contains f EntryFlag.TakeLock) then on_mem w (fill_from h buffer)
                    else Done (w, buffer));
    Done (send_new w buffer (TLeft h) t)
  else
    '(w, storage) ← on_mem w (new_slices size senti_size);
    Done (send_new w buffer (TRight storage) t).

Definition send_snapshot (w : WorkerInner) (buffer : Ref) (f : EntryFlag.Flag) (t : Origin) : outcome WorkerInner :=
  ls ← Packets.locs buffer;
  size ← Packets.len buffer;
  if EntryFlag.contains f EntryFlag.Unlock then Done (send_new w buffer TNone t)
  else
    '(w, h) ← on_mem w (new_storage (zlen ls) size None);
    '(w, buffer) ← on_mem w (fill_from h buffer);
    Done (send_new w buffer (TLeft h) t).

Definition send_to_log (w : WorkerInner) (token : Z) (bytes : list Z) (src_addr : Addr) (socket_state : TcpWriter)
  : outcome (WorkerInner * TcpWriter) :=
  let t := (worker_num w, token, src_addr) in
  buffer ← contents bytes;
  f ← Packets.flag buffer;
  layout ← Packets.layout buffer;
  let keep (o : outcome WorkerInner) := w ← o; Done (w, socket_state) in
  match layout with
  | EntryKind.EntryLayout.Read =>
      '(w, to_send) ← on_mem w (handle_read buffer);
      s ← (match to_send with
           | inl bytes => add_bytes_to_write socket_state [bytes]
           | inr contents => add_contents_to_write socket_state contents []
           end);
      Done (w, s)
  | EntryKind.EntryLayout.Multiput | EntryKind.EntryLayout.Sentinel => keep (send_multi w buffer f t)
  | EntryKind.EntryLayout.Snapshot => keep (send_snapshot w buffer f t)
  | EntryKind.EntryLayout.GC => keep (Done (send_new w buffer TNone t))
  | EntryKind.EntryLayout.Data =>
      keep (Done (if EntryFlag.contains f EntryFlag.DirectWrite
                  then send_log w (LogReplication (RData buffer u64_max) t)
                  else send_new w buffer TNone t))
  | EntryKind.EntryLayout.Lock => keep (Done (send_new w buffer TNone t))
  end.

(** [MultiputToReplica] and [SentinelToReplica] *)
Definition skeens1_storage (buffer : Ref) : Wk Z :=
  ls ← try (Packets.locs buffer);
  f ← try (Packets.flag buffer);
  let has_senti := contains_zero ls || negb (EntryFlag.contains f EntryFlag.TakeLock) in
  size ← try (non_replicated_len buffer);
  senti_size ← try (sentinel_entry_size buffer);
  new_storage (zlen ls) size (if has_senti then Some senti_size else None).

Definition to_replicate (buffer : Ref) (storage_addr : Z) : Wk ToReplicate :=
  let k := Packets.kind buffer in
  if k =? EntryKind.Data then mret (RData buffer storage_addr)
  else if k =? EntryKind.Lock then mret (RUnLock buffer)
  else if (k =? EntryKind.Multiput) || (k =? EntryKind.Sentinel) then
    size ← try (Packets.len buffer);
    senti_size ← try (sentinel_entry_size buffer);
    storage ← new_slices size senti_size;
    mret (RMulti buffer storage)
  else if k =? EntryKind.SingleToReplica then mret (RSingleSkeens1 buffer storage_addr)
  else if (k =? EntryKind.MultiputToReplica) || (k =? EntryKind.SentinelToReplica) then
    h ← skeens1_storage buffer; mret (RSkeens1 buffer h)
  else if k =? EntryKind.Skeens2ToReplica then mret (RSkeens2 buffer)
  else if k =? EntryKind.SnapshotToReplica then
    ls ← try (Packets.locs buffer);
    size ← try (Packets.len buffer);
    h ← new_storage (zlen ls) size None;
    buffer ← fill_from h buffer;
    mret (RSnapshotSkeens1 buffer h)
  else if k =? EntryKind.GC then mret (RGC buffer)
  else try Panic.

Definition send_replication_to_log (w : WorkerInner) (token : Z) (bytes : list Z) (storage_addr : Z) (src_addr : Addr)
  : outcome WorkerInner :=
  buffer ← contents bytes;
  '(w, tr) ← on_mem w (to_replicate buffer storage_addr);
  Done (send_log w (LogReplication tr (worker_num w, token, src_addr))).

Definition worker_handle_message (w : WorkerInner) (socket_state : TcpWriter) (token : Z) (m : Server.Message)
  : outcome (WorkerInner * TcpWriter) :=
  let '(msg, addr, storage_loc) := m in
  match storage_loc with
  | Some storage_loc => w ← send_replication_to_log w token msg storage_loc addr; Done (w, socket_state)
  | None => send_to_log w token msg addr socket_state
  end.

Definition end_backpressure (w : WorkerInner) (token : Z) : WorkerInner :=
  with_remove w (remove_backpressure w ++ [token]).

#[export] Instance packet_handler : MessageHandler PacketHandler WorkerInner Server.Message :=
  fun h s w m => '(w, s) ← worker_handle_message w s (ph_token h) m; Done (h, s, w, true).

#[export] Instance write_handler : AfterWrite WriteHandler WorkerInner :=
  fun a s w _ _ =>
    Done (a, s, match wh_upstream a with
                | Some upstream => if is_overflowing s then w else end_backpressure w upstream
                | None => w
                end).

(** ** Answers *)

Abbreviation Io := (IoState PerStream).

(** What is written, and whether the sender should be held back. *)
Definition write_to_stream (s : Io) (token : Z) (f : PerStream -> outcome PerStream) : outcome (Io * option bool) :=
  mutate s token (fun c => c ← f c; Done (c, conn_is_overflowing c && negb (conn_is_backpressured c))).

(** A connection to the next server that is gone is fatal ([expect]). *)
Definition send_downsteam (s : Io) (send_token : Z) (src_addr : Addr) (to_send : ToSend) : outcome (Io * bool) :=
  let alive (o : outcome (Io * option bool)) := '(s, nb) ← o; nb ← unwrap nb; Done (s, nb) in
  let addr := Ipv4SocketAddr.bytes src_addr in
  match to_send with
  | SendNothing => Done (s, false)
  | SendOldReplication bytes loc =>
      alive (write_to_stream s send_token (fun c => add_writes c [bytes; le_bytes 8 loc; addr]))
  | SendContents r => alive (write_to_stream s send_token (fun c => add_contents c r [le_bytes 8 0; addr]))
  | SendOldContents r loc => alive (write_to_stream s send_token (fun c => add_contents c r [le_bytes 8 loc; addr]))
  | SendSlice bytes | SendStaticSlice bytes =>
      alive (write_to_stream s send_token (fun c => add_writes c [bytes; le_bytes 8 0; addr]))
  | SendRead _ => Panic
  end.

(** A client that is gone is not. *)
Definition send_to_client (s : Io) (send_token : Z) (to_send : ToSend) : outcome (Io * bool) :=
  let maybe (o : outcome (Io * option bool)) := '(s, nb) ← o; Done (s, default false nb) in
  match to_send with
  | SendNothing => Done (s, false)
  | SendOldReplication _ _ => Panic
  | SendContents r | SendOldContents r _ => maybe (write_to_stream s send_token (fun c => add_contents c r []))
  | SendSlice bytes | SendStaticSlice bytes | SendRead bytes =>
      maybe (write_to_stream s send_token (fun c => add_writes c [bytes]))
  end.

(** One message of the ordering thread. *)
Definition handle_log_work (w : WorkerInner) (s : Io) (log_work : ToWorker Origin * bool) : outcome (WorkerInner * Io) :=
  let '(msg, unique) := log_work in
  let '(wk, recv_token, src_addr) := get_associated_data msg in
  _ ← debug_assert (wk =? worker_num w);
  let send_token := default recv_token (downstream_for_addr w !! src_addr) in
  '(w, answer) ← on_mem w (handle_to_worker2 unique (has_downstream w) msg);
  let to_send := answer.2.1 in
  '(s, needs_backpressure) ← (if has_downstream w then send_downsteam s send_token src_addr to_send
                              else send_to_client s send_token to_send);
  let s := (wake s send_token).1 in
  let s := (wake s recv_token).1 in
  '(s, _) ← (if (needs_backpressure : bool) then mutate s recv_token (fun c => Done (mark_as_backpressured c, tt))
             else Done (s, None));
  Done (w, s).

Fixpoint handle_log_queue (w : WorkerInner) (s : Io) (q : list (ToWorker Origin * bool)) : outcome (WorkerInner * Io) :=
  match q with
  | [] => Done (w, s)
  | work :: q => '(w, s) ← handle_log_work w s work; handle_log_queue w s q
  end.

Definition handle_from_log (w : WorkerInner) (s : Io) : outcome (WorkerInner * Io) :=
  handle_log_queue (with_log_queue w []) s (from_log w).

(** ** New clients *)

(** The tokens of the message are not used: the worker numbers its connections itself. *)
Definition handle_new_client (w : WorkerInner) (s : Io) (upstream : TcpStream) (downstream : option (Z * TcpStream))
    (client_addr : Addr) : outcome (WorkerInner * Io) :=
  let upstream_token := next_token w in
  n ← add64 (next_token w) 1;
  '(s, n, downstream_token) ←
    (match downstream with
     | Some (_, stream) =>
         n' ← add64 n 1;
         Done ((add_stream s n (new_stream stream n false (Some upstream_token))).1, n', Some n)
     | None => Done (s, n, None)
     end);
  let s := (add_stream s upstream_token (new_stream upstream upstream_token (has_upstream w) None)).1 in
  let downstream_token := default upstream_token downstream_token in
  Done (with_clients w (<[client_addr := downstream_token]> (downstream_for_addr w)) n, s).

Definition handle_dist (w : WorkerInner) (s : Io) (msg : DistToWorker) : outcome (WorkerInner * Io) :=
  match msg with
  | NewClient tok upstream downstream client_addr =>
      _ ← debug_assert (FIRST_CLIENT_TOKEN <=? tok);
      handle_new_client w s upstream downstream client_addr
  | FenceOff _ buffer => Done (with_dist w (from_dist w) (to_dist w ++ [ClientFenced buffer]), s)
  | FinishedFence token buffer =>
      '(s, _) ← mutate s token (fun c => b ← entry_slice buffer; c ← add_writes c [b]; Done (c, tt));
      Done (w, (wake s token).1)
  end.

Fixpoint handle_dist_queue (w : WorkerInner) (s : Io) (q : list DistToWorker) : outcome (WorkerInner * Io) :=
  match q with
  | [] => Done (w, s)
  | msg :: q => '(w, s) ← handle_dist w s msg; handle_dist_queue w s q
  end.

Definition handle_from_dist (w : WorkerInner) (s : Io) : outcome (WorkerInner * Io) :=
  handle_dist_queue (with_dist w [] (to_dist w)) s (from_dist w).

(** ** The loop of a worker *)

Definition worker_on_poll (w : WorkerInner) (s : Io) (token : Z) : outcome (WorkerInner * Io * option unit) :=
  '(w, s) ← (if token =? FROM_LOG then handle_from_log w s
             else if token =? FROM_DIST then handle_from_dist w s
             else Done (w, s));
  Done (w, s, None).

Fixpoint end_all_backpressure (s : Io) (tokens : list Z) : outcome Io :=
  match tokens with
  | [] => Done s
  | token :: tokens =>
      '(s, _) ← mutate s token (fun c => Done (mark_as_not_backpressured c, tt));
      end_all_backpressure s tokens
  end.

Definition worker_after_work (w : WorkerInner) (s : Io) : outcome (WorkerInner * Io) :=
  s ← end_all_backpressure s (remove_backpressure w);
  Done (with_remove w [], s).

#[export] Instance worker_handler : Handler WorkerInner Io unit := {
  on_event w s token _ := worker_on_poll w s token;
  on_poll := worker_on_poll;
  on_error w _ := (w, false);
  after_work := worker_after_work;
}.

#[export] Instance worker_wakeable : Wakeable WorkerInner := {
  needs_to_mark_as_staying_awake _ _ := false;
  mark_as_staying_awake w _ := w;
  is_marked_as_staying_awake _ _ := true;
}.

(** [Worker::new] and [Worker::run] *)
Definition worker_loop (w : WorkerInner) : Reactor PerStream WorkerInner := with_inner 0 w.
Definition worker_run (w : WorkerInner) (steps : list ((WorkerInner -> WorkerInner) * list Event))
  : outcome (Reactor PerStream WorkerInner * Phase) := run (worker_loop w) Waiting steps.
End Worker.
