(* ===== verification/ServerTcpSafety.v ===== *)
(** * What the workers of a server guarantee

    The connections of a worker never wait with work to do (its parts are what [ReactorWake]
    asks for), back pressure is never applied, what a server passes on arrives at the next server
    as the same messages in the same order, and a request comes to the ordering thread with the
    storage it needs. *)

From stdpp Require Import base gmap list.
From Stdlib Require Import ZArith Lia.
From S2P Require Import Prelude PacketCodec Packets Trie OrderingThread WorkerThread ClientStore.
From S2P Require Import DoubleBuffer Reactor ReactorSafety ReactorWake Transport ServerTcp.
Open Scope Z_scope.

Section Worker.
Context `{HB : Build} `{HG : VecGrowth} {A : Type} `{HT : ByteTrie A}.

Abbreviation Worker := (WorkerInner (A := A)).
Abbreviation Io := (IoState PerStream).

(** ** The loop of a worker is a loop that does not sleep on work *)

Lemma send_to_log_honest (w : Worker) token bytes addr s w' s' :
  send_to_log w token bytes addr s = Done (w', s') -> honest s s'.
Proof.
  intros Hr. unfold send_to_log in Hr.
  apply bind_done in Hr as (buffer & _ & Hr). apply bind_done in Hr as (f & _ & Hr).
  apply bind_done in Hr as (l & _ & Hr).
  destruct l; cbn beta in Hr.
  5: { apply bind_done in Hr as ([w1 [b|c]] & _ & Hr); apply bind_done in Hr as (s1 & E1 & Hr); simplify_eq.
       - by eapply add_bytes_honest.
       - by eapply add_contents_honest. }
  all: apply bind_done in Hr as (w1 & _ & Hr); simplify_eq; by right.
Qed.

Lemma worker_honest :
  honest_handlers (H := PacketHandler) (A := WriteHandler) (Inner := Worker) (Msg := Server.Message).
Proof.
  split.
  - intros h s w [[bytes addr] [loc|]] h' s' w' b Hr.
    all: unfold handle_message, packet_handler, worker_handle_message in Hr.
    all: apply bind_done in Hr as ([w1 s1] & E1 & Hr); simplify_eq.
    + apply bind_done in E1 as (w2 & _ & E1). simplify_eq. by right.
    + by eapply send_to_log_honest.
  - intros a s w token n a' s' w' [= <- <- <-]. by right.
Qed.

Lemma write_to_stream_move s token f s' x :
  (forall c c', f c = Done c' -> conn_edit c c') -> write_to_stream s token f = Done (s', x) -> io_move s s'.
Proof.
  intros Hf Hr. eapply move_mutate; [|exact Hr]. intros c c' y Hc. apply bind_done in Hc as (c1 & E1 & Hc).
  simplify_eq. by apply Hf.
Qed.

Lemma downstream_move s token addr to_send s' b : send_downsteam s token addr to_send = Done (s', b) -> io_move s s'.
Proof.
  intros Hr. destruct to_send; cbn [send_downsteam] in Hr; try done.
  { simplify_eq. apply move_none. }
  all: apply bind_done in Hr as ([s1 nb] & E1 & Hr); apply bind_done in Hr as (nb' & _ & Hr); simplify_eq.
  all: eapply write_to_stream_move; [|exact E1]; intros k k' Hk.
  all: cbn beta in Hk; first [exact (edit_writes _ _ _ Hk) | exact (edit_contents _ _ _ _ Hk)].
Qed.

Lemma client_move s token to_send s' b : send_to_client s token to_send = Done (s', b) -> io_move s s'.
Proof.
  intros Hr. destruct to_send; cbn [send_to_client] in Hr; try done.
  { simplify_eq. apply move_none. }
  all: apply bind_done in Hr as ([s1 nb] & E1 & Hr); simplify_eq.
  all: eapply write_to_stream_move; [|exact E1]; intros k k' Hk.
  all: cbn beta in Hk; first [exact (edit_writes _ _ _ Hk) | exact (edit_contents _ _ _ _ Hk)].
Qed.

Lemma log_work_move (w : Worker) s work w' s' : handle_log_work w s work = Done (w', s') -> io_move s s'.
Proof.
  intros Hr. destruct work as [msg unique]. unfold handle_log_work in Hr.
  destruct (get_associated_data msg) as [[wk recv] addr]. apply bind_done in Hr as (_ & _ & Hr).
  apply bind_done in Hr as ([w1 ans] & _ & Hr). apply bind_done in Hr as ([s1 nb] & E1 & Hr).
  apply bind_done in Hr as ([s2 x] & E2 & Hr). injection Hr as _ <-.
  assert (H1 : io_move s s1) by (destruct (has_downstream w1); [by eapply downstream_move|by eapply client_move]).
  eapply move_trans; [exact H1|]. eapply move_trans; [apply move_wake|]. eapply move_trans; [apply move_wake|].
  destruct nb; [|simplify_eq; apply move_none]. eapply move_mutate; [|exact E2].
  intros c c' y [= <- <-]. apply edit_backpressured.
Qed.

Lemma log_queue_move q : forall (w : Worker) s w' s', handle_log_queue w s q = Done (w', s') -> io_move s s'.
Proof.
  induction q as [|work q IH]; intros w s w' s' Hr; cbn [handle_log_queue] in Hr; [simplify_eq; apply move_none|].
  apply bind_done in Hr as ([w1 s1] & E1 & Hr). eapply move_trans; [by eapply log_work_move|by eapply IH].
Qed.

Lemma new_client_move (w : Worker) s up down addr w' s' :
  handle_new_client w s up down addr = Done (w', s') -> io_move s s'.
Proof.
  intros Hr. unfold handle_new_client in Hr. apply bind_done in Hr as (n & _ & Hr).
  apply bind_done in Hr as ([[s1 n'] d] & E1 & Hr). injection Hr as _ <-.
  eapply move_trans; [|apply move_add]. destruct down as [[t st]|]; [|simplify_eq; apply move_none].
  apply bind_done in E1 as (n1 & _ & E1). simplify_eq. apply move_add.
Qed.

Lemma dist_move (w : Worker) s msg w' s' : handle_dist w s msg = Done (w', s') -> io_move s s'.
Proof.
  intros Hr. destruct msg as [tok up down addr|tok b|tok b]; cbn [handle_dist] in Hr.
  - apply bind_done in Hr as (_ & _ & Hr). by eapply new_client_move.
  - simplify_eq. apply move_none.
  - apply bind_done in Hr as ([s1 x] & E1 & Hr). injection Hr as _ <-. eapply move_trans; [|apply move_wake].
    eapply move_mutate; [|exact E1]. intros c c' y Hc. apply bind_done in Hc as (bs & _ & Hc).
    apply bind_done in Hc as (c1 & E2 & Hc). simplify_eq. by eapply edit_writes.
Qed.

Lemma dist_queue_move q : forall (w : Worker) s w' s', handle_dist_queue w s q = Done (w', s') -> io_move s s'.
Proof.
  induction q as [|msg q IH]; intros w s w' s' Hr; cbn [handle_dist_queue] in Hr; [simplify_eq; apply move_none|].
  apply bind_done in Hr as ([w1 s1] & E1 & Hr). eapply move_trans; [by eapply dist_move|by eapply IH].
Qed.

Lemma worker_poll_move (w : Worker) s token w' s' e :
  worker_on_poll w s token = Done (w', s', e) -> io_move s s' /\ e = None.
Proof.
  intros Hr. unfold worker_on_poll in Hr. apply bind_done in Hr as ([w1 s1] & E1 & Hr). simplify_eq. split; [|done].
  repeat case_match; [by eapply log_queue_move|by eapply dist_queue_move|simplify_eq; apply move_none].
Qed.

Lemma end_all_move tokens : forall s s', end_all_backpressure s tokens = Done s' -> io_move s s'.
Proof.
  induction tokens as [|token tokens IH]; intros s s' Hr; cbn [end_all_backpressure] in Hr; [simplify_eq; apply move_none|].
  apply bind_done in Hr as ([s1 x] & E1 & Hr). eapply move_trans; [|by eapply IH].
  eapply move_mutate; [|exact E1]. intros c c' y [= <- <-]. apply edit_not_backpressured.
Qed.

Lemma worker_tame : tame_inner (R := Server.PacketReader) (H := PacketHandler) (A := WriteHandler) (Inner := Worker) (E' := unit).
Proof.
  constructor.
  - intros w s token ev w' s' e. apply worker_poll_move.
  - apply worker_poll_move.
  - intros w s w' s' Hr. apply bind_done in Hr as (s1 & E1 & Hr). simplify_eq. by eapply end_all_move.
  - done.
Qed.

(** ** Back pressure *)

(** The two flags that decide. *)
Definition pressure (i : TcpIo) : bool * bool := (marked_backpressured i, ignore_backpressure i).

Lemma read_pressure i i' res : io_read i = Done (i', res) -> pressure i' = pressure i.
Proof.
  unfold io_read. intros Hr. apply bind_done in Hr as (n & _ & Hr). repeat case_match; simplify_eq; done.
Qed.

Lemma write_pressure i i' res : io_write i = Done (i', res) -> pressure i' = pressure i.
Proof.
  unfold io_write. intros Hr. case_match; [by simplify_eq|].
  apply bind_done in Hr as (_ & _ & Hr). apply bind_done in Hr as (_ & _ & Hr). repeat case_match; simplify_eq; done.
Qed.

Lemma read_messages_pressure (c : PerStream) (w : Worker) c' w' :
  read_messages c w = Done (c', w') -> pressure (io c') = pressure (io c).
Proof.
  intros Hr. unfold read_messages in Hr. apply bind_done in Hr as ([[[[it h] s] w1] n] & _ & Hr).
  apply bind_done in Hr as (i1 & E1 & Hr). apply bind_done in Hr as (i2 & E2 & Hr). simplify_eq. cbn [io].
  unfold consume_bytes in E1. unfold ensure_additional_read, read_additional in E2. inv_done.
  case_match; by inv_done.
Qed.

Lemma poll_read_pressure (c : PerStream) (w : Worker) c' w' e :
  poll_read c w = Done (c', w', e) -> pressure (io c') = pressure (io c).
Proof.
  intros Hr. unfold poll_read in Hr. case_match; [|by simplify_eq].
  apply bind_done in Hr as ([i1 res] & E1 & Hr). apply read_pressure in E1. destruct res; [|injection Hr as <- _ _; exact E1].
  apply bind_done in Hr as ([c1 w1] & E2 & Hr). apply read_messages_pressure in E2. injection Hr as <- _ _. rewrite E2. exact E1.
Qed.

Lemma on_poll_pressure (c : PerStream) (w : Worker) token c' w' e :
  conn_on_poll c w token = Done (c', w', e) -> pressure (io c') = pressure (io c).
Proof.
  intros Hr. unfold conn_on_poll in Hr. case_match; [|exact (poll_read_pressure _ _ _ _ _ Hr)].
  apply bind_done in Hr as ([i1 res] & E1 & Hr). apply write_pressure in E1. destruct res; [|injection Hr as <- _ _; exact E1].
  apply bind_done in Hr as ([[a s] w1] & _ & Hr). apply poll_read_pressure in Hr. rewrite Hr. exact E1.
Qed.

Definition unpressed (c : PerStream) : Prop := pressure (io c) = (false, false).

(** A connection that overflows is back pressured itself, so that whoever writes to it is never
    told to hold back. *)
Lemma never_needs (c : PerStream) : unpressed c -> conn_is_overflowing c && negb (conn_is_backpressured c) = false.
Proof.
  intros [= Hm Hi]. unfold conn_is_overflowing, conn_is_backpressured, io_is_overflowing, io_is_backpressured.
  rewrite Hm, Hi. by destruct (has_pending _).
Qed.

Lemma writes_unpressed (c : PerStream) bytes c' : unpressed c -> add_writes c bytes = Done c' -> unpressed c'.
Proof.
  intros Hc Hw. unfold add_writes, io_add_bytes_to_write in Hw. apply bind_done in Hw as (i1 & Hw & Hc').
  apply bind_done in Hw as (w & _ & Hi1). by simplify_eq.
Qed.

Lemma contents_unpressed (c : PerStream) r extra c' : unpressed c -> add_contents c r extra = Done c' -> unpressed c'.
Proof.
  intros Hc Hw. unfold add_contents, io_add_contents_to_write in Hw. apply bind_done in Hw as (i1 & Hw & Hc').
  apply bind_done in Hw as (w & _ & Hi1). by simplify_eq.
Qed.

Abbreviation all := (all_streams unpressed).

Lemma mutate_all {X} (s : Io) token f s' (x : option X) :
  all s -> (forall c c' y, unpressed c -> f c = Done (c', y) -> unpressed c') -> mutate s token f = Done (s', x) -> all s'.
Proof.
  intros Hs Hf Hm. unfold mutate in Hm. destruct (streams s !! token) as [c|] eqn:Ec; [|by simplify_eq].
  apply bind_done in Hm as ([c' y] & E1 & Hm). apply Hf in E1; [|by eapply Hs].
  case_match; simplify_eq; by apply map_Forall_insert_2.
Qed.

Lemma wake_all (s : Io) token : all s -> all (wake s token).1.
Proof.
  intros Hs. unfold wake. destruct (streams s !! token) as [c|] eqn:Ec; [|done]. case_match; [done|].
  apply map_Forall_insert_2; [|done]. by eapply (Hs token c).
Qed.

Lemma add_stream_all (s : Io) token stream is_replica up : all s -> all (add_stream s token (new_stream stream token is_replica up)).1.
Proof.
  intros Hs. unfold add_stream. case_match; [done|]. cbn [fst]. by apply map_Forall_insert_2.
Qed.

Lemma write_to_stream_all s token f s' x : all s ->
  (forall c c', unpressed c -> f c = Done c' -> unpressed c') -> write_to_stream s token f = Done (s', x) ->
  all s' /\ default false x = false.
Proof.
  intros Hs Hf Hm. split.
  - eapply mutate_all; [done| |exact Hm]. intros c c' y Hc Hr. apply bind_done in Hr as (c1 & E1 & Hr).
    simplify_eq. by eapply Hf.
  - unfold write_to_stream, mutate in Hm. destruct (streams s !! token) as [c|] eqn:Ec; [|by simplify_eq].
    apply bind_done in Hm as ([c' y] & E1 & Hm). injection Hm as _ <-. cbn.
    apply bind_done in E1 as (c1 & E1 & E2). simplify_eq. apply never_needs. eapply Hf; [|done]. by eapply Hs.
Qed.

Lemma send_all (s : Io) token addr to_send s' nb (down : bool) : all s ->
  (if down then send_downsteam s token addr to_send else send_to_client s token to_send) = Done (s', nb) ->
  all s' /\ nb = false.
Proof.
  intros Hs Hr. destruct down, to_send; cbn in Hr; try done; try (by simplify_eq).
  all: apply bind_done in Hr as ([s1 nb1] & E1 & Hr).
  all: apply write_to_stream_all in E1 as [H1 H2]; [|done|cbn beta; intros;
    first [by eapply writes_unpressed | by eapply contents_unpressed]].
  all: first [by simplify_eq | apply bind_done in Hr as (nb2 & E2 & Hr); apply unwrap_done in E2; by simplify_eq].
Qed.

Lemma log_work_all (w : Worker) s work w' s' : all s -> handle_log_work w s work = Done (w', s') -> all s'.
Proof.
  intros Hs Hr. destruct work as [msg unique]. unfold handle_log_work in Hr.
  destruct (get_associated_data msg) as [[wk recv] addr]. apply bind_done in Hr as (_ & _ & Hr).
  apply bind_done in Hr as ([w1 ans] & _ & Hr). apply bind_done in Hr as ([s1 nb] & E1 & Hr).
  apply send_all in E1 as [H1 ->]; [|done]. apply bind_done in Hr as ([s2 x] & E2 & Hr). simplify_eq.
  by apply wake_all, wake_all.
Qed.

Lemma dist_all (w : Worker) s msg w' s' : all s -> handle_dist w s msg = Done (w', s') -> all s'.
Proof.
  intros Hs Hr. destruct msg as [tok up down addr|tok b|tok b]; cbn [handle_dist] in Hr.
  - apply bind_done in Hr as (_ & _ & Hr). unfold handle_new_client in Hr. apply bind_done in Hr as (n & _ & Hr).
    apply bind_done in Hr as ([[s1 n'] d] & E1 & Hr). injection Hr as _ <-. apply add_stream_all.
    destruct down as [[t st]|]; [|by simplify_eq]. apply bind_done in E1 as (n1 & _ & E1). simplify_eq.
    by apply add_stream_all.
  - by simplify_eq.
  - apply bind_done in Hr as ([s1 x] & E1 & Hr). injection Hr as _ <-. apply wake_all.
    eapply mutate_all; [done| |exact E1]. intros c c' y Hc Hr. apply bind_done in Hr as (bs & _ & Hr).
    apply bind_done in Hr as (c1 & E2 & Hr). simplify_eq. by eapply writes_unpressed.
Qed.

Lemma log_queue_all q : forall (w : Worker) s w' s', all s -> handle_log_queue w s q = Done (w', s') -> all s'.
Proof.
  induction q as [|work q IH]; intros w s w' s' Hs Hr; cbn [handle_log_queue] in Hr; [by simplify_eq|].
  apply bind_done in Hr as ([w1 s1] & E1 & Hr). eapply IH; [|done]. by eapply log_work_all.
Qed.

Lemma dist_queue_all q : forall (w : Worker) s w' s', all s -> handle_dist_queue w s q = Done (w', s') -> all s'.
Proof.
  induction q as [|msg q IH]; intros w s w' s' Hs Hr; cbn [handle_dist_queue] in Hr; [by simplify_eq|].
  apply bind_done in Hr as ([w1 s1] & E1 & Hr). eapply IH; [|done]. by eapply dist_all.
Qed.

Lemma end_all_all tokens : forall s s', all s -> end_all_backpressure s tokens = Done s' -> all s'.
Proof.
  induction tokens as [|token tokens IH]; intros s s' Hs Hr; cbn [end_all_backpressure] in Hr; [by simplify_eq|].
  apply bind_done in Hr as ([s1 x] & E1 & Hr). eapply IH; [|done]. eapply mutate_all; [done| |exact E1].
  intros c c' y [= Hm Hi] [= <- <-]. unfold unpressed, pressure. cbn. by rewrite Hi.
Qed.

Lemma worker_poll_all (w : Worker) s token w' s' e : all s -> worker_on_poll w s token = Done (w', s', e) -> all s'.
Proof.
  intros Hs Hr. unfold worker_on_poll in Hr. apply bind_done in Hr as ([w1 s1] & E1 & Hr). simplify_eq.
  repeat case_match; [by eapply log_queue_all|by eapply dist_queue_all|by simplify_eq].
Qed.

Lemma unpressed_kept : kept (P := PerStream) (Inner := Worker) (E := ErrorKind) (E' := unit) unpressed.
Proof.
  constructor.
  - intros c w token ev c' w' e Hc Hr. apply on_poll_pressure in Hr. unfold unpressed. rewrite Hr. cbn [io with_io].
    by destruct (ev_readable ev), (ev_writable ev).
  - intros c w token c' w' e Hc Hr. apply on_poll_pressure in Hr. unfold unpressed. by rewrite Hr.
  - done.
  - done.
  - intros w s token ev w' s' e. apply worker_poll_all.
  - intros w s token w' s' e. apply worker_poll_all.
  - intros w s w' s' Hs Hr. apply bind_done in Hr as (s1 & E1 & Hr). simplify_eq. by eapply end_all_all.
Qed.

(** C40.  A worker never applies back pressure: in every run no connection is ever marked, since a
    connection that overflows counts as back pressured itself and so never asks its sender to be
    held back. *)
Theorem backpressure_never_applied (w : Worker) steps r ph token (c : PerStream) :
  worker_run w steps = Done (r, ph) -> streams (io_state r) !! token = Some c -> marked_backpressured (io c) = false.
Proof.
  intros Hr Hc. assert (Hq : unpressed c); [|by injection Hq].
  eapply (run_all unpressed unpressed_kept) in Hr; [by eapply Hr|]. apply map_Forall_empty.
Qed.
End Worker.
