(* ===== verification/ServerHop.v ===== *)
(** * From connection to ordering thread

    - Requests: the storage a worker adds to a request is the storage the ordering thread and the
      workers need for it ([request_ready]).
    - Replication: what a server passes on is what the next server replicates, in the same order
      ([replication_hop]). *)

From stdpp Require Import base gmap list.
From Stdlib Require Import ZArith Lia.
From S2P Require Import Prelude PacketCodec Packets Trie OrderingThread OrderingInv OrderingSafety.
From S2P Require Import WorkerThread WorkerSafety ClientStore.
From S2P Require Import DoubleBuffer Reactor ReactorSafety ReactorWake Transport ServerTcp.
Open Scope Z_scope.

(** ** Packets with the flag that says they were stored *)

Definition stored_flag (r : Ref) : Ref :=
  match insert_flag EntryFlag.ReadSuccess r with Done r' => r' | Panic => r end.

Definition flagged (r : Ref) : Prop :=
  insert_flag EntryFlag.ReadSuccess r = Done (stored_flag r) /\ valid (stored_flag r) = true /\
  zlen (bytes_of (stored_flag r)) = zlen (bytes_of r).

Lemma len_bytes r r' : valid r = true -> valid r' = true -> Packets.len r = Packets.len r' ->
  zlen (bytes_of r) = zlen (bytes_of r').
Proof. intros Hr Hr' He. rewrite !len_valid in He by done. congruence. Qed.

(** The packets a storage is filled from. *)
Definition fillable (r : Ref) : Prop :=
  match r with
  | Multi _ _ _ _ _ _ | Senti _ _ _ _ _ _ | Snapshot _ _ _ _ _ _ | SnapshotToReplica _ _ _ _ _ _ _ => True
  | _ => False
  end.

Ltac same_fields :=
  match goal with Hv : valid _ = true |- _ =>
    revert Hv; unfold valid, full, variant_of; cbn -[item_ok Z.lor zlen forallb ois nums]; rewrite !andb_true_iff;
    let Hv := fresh "Hv" in intros Hv; destruct_and? Hv;
    split_and!; first [assumption | by apply flag_lor_ok | done]
  end.

Lemma fillable_flagged r : valid r = true -> fillable r -> flagged r.
Proof.
  intros Hv Hf. assert (Hv' : valid (stored_flag r) = true) by (destruct r; try done; same_fields).
  split; [by destruct r|]. split; [done|]. apply len_bytes; [done..|]. by destruct r.
Qed.

(** The sentinel that is stored with it: of the size that was asked for. *)
Lemma sentinel_of r n :
  valid r = true -> sentinel_entry_size r = Done n -> (exists ls, multi_locs r = Some ls) -> 
  exists senti, slice_to_sentinel (stored_flag r) = Done senti /\ valid senti = true /\ zlen (bytes_of senti) = n.
Proof.
  intros Hv Hn [ls Hls]. destruct r; try done.
  - assert (Hs : valid (Senti id (Z.lor flags 1) (Z.of_nat (length data)) lock locs deps) = true).
    { revert Hv. unfold valid, full, variant_of. cbn -[item_ok Z.lor zlen forallb ois nums]. rewrite !andb_true_iff.
      intros Hv. destruct_and? Hv. unfold nums, zlen in *. rewrite length_fmap in *.
      split_and!; first [assumption | by apply flag_lor_ok | done]. }
    exists (Senti id (Z.lor flags 1) (Z.of_nat (length data)) lock locs deps).
    split; [done|]. split; [done|]. pose proof (len_valid _ Hs) as Hl.
    cbn [sentinel_entry_size] in Hn. change (Packets.len (Senti id flags 0 lock locs deps)) with
      (Packets.len (Senti id (Z.lor flags 1) (Z.of_nat (length data)) lock locs deps)) in Hn. congruence.
  - assert (Hs : valid (Senti id (Z.lor flags 1) data_bytes lock locs deps) = true) by same_fields.
    exists (Senti id (Z.lor flags 1) data_bytes lock locs deps).
    split; [done|]. split; [done|]. pose proof (len_valid _ Hs) as Hl.
    cbn [sentinel_entry_size] in Hn. change (Packets.len (Senti id flags data_bytes lock locs deps)) with
      (Packets.len (Senti id (Z.lor flags 1) data_bytes lock locs deps)) in Hn. congruence.
Qed.

Lemma length_rc_slice n : 0 <= n -> zlen (rc_slice n) = n.
Proof. intros Hn. unfold zlen, rc_slice. rewrite length_replicate. lia. Qed.

(** [EntryFlag::ReadSuccess] is none of the flags that decide. *)
Lemma contains_stored f other : Z.land 1 other = 0 -> EntryFlag.contains (Z.lor f 1) other = EntryFlag.contains f other.
Proof. intros Ho. unfold EntryFlag.contains. by rewrite Z.land_lor_distr_l, Ho, Z.lor_0_r. Qed.

Section Requests.
Context `{HB : Build} `{HG : VecGrowth} {A : Type} `{HT : ByteTrie A, HV : !ByteTrieView A, HL : !ByteTrieLaws A}.

Abbreviation Worker := (WorkerInner (A := A)).
Abbreviation Mem := (Shared Origin A).

(** ** Storage *)

(** The memory with a storage, and its slices, at an address. *)
Definition with_storage (m : Mem) (h : Z) (st : MultiStorage) (sl : Slices) : Mem :=
  mkMem (with_storages (<[h := st]> (storages (srv m))) (srv m)) (<[h := sl]> (slices m)).

Lemma fresh_handle_spec (m : Mem) : storages (srv m) !! fresh_handle m = None /\ slices m !! fresh_handle m = None.
Proof.
  assert (Hf : fresh_handle m ∉ (dom (storages (srv m)) ∪ dom (slices m) : gset Z)) by apply is_fresh.
  apply not_elem_of_union in Hf as [H1 H2]. split; by apply not_elem_of_dom.
Qed.

Lemma new_storage_spec (m : Mem) n size senti :
  new_storage n size senti m =
    Done (with_storage m (fresh_handle m) (storage_new n size senti) (mkShared (rc_slice size) (rc_slice <$> senti)),
          fresh_handle m).
Proof. done. Qed.

Lemma fill_from_spec (m : Mem) h st b0 b1 b1' r :
  valid r = true -> fillable r -> zlen b0 = zlen (bytes_of r) ->
  (b1 = None /\ b1' = None \/ exists b senti, b1 = Some b /\ slice_to_sentinel (stored_flag r) = Done senti /\ valid senti = true /\
     zlen b = zlen (bytes_of senti) /\ b1' = Some (bytes_of senti)) ->
  fill_from h r (with_storage m h st (mkShared b0 b1)) =
    Done (with_storage m h st (mkShared (bytes_of (stored_flag r)) b1'), stored_flag r).
Proof.
  intros Hv Hf Hl Hb. destruct (fillable_flagged r Hv Hf) as (Hi & Hv' & Hl').
  unfold fill_from, fill_st0, slices_of, set_slices, mbind, W_bind, try. rewrite Hi.
  cbn [outcome_bind mbind]. rewrite (to_vec_valid _ Hv'). cbn [outcome_bind mbind with_storage slices srv].
  rewrite lookup_insert_eq. cbn [unwrap outcome_bind mbind]. unfold copy_from_slice. cbn [st0 st1].
  rewrite Hl, Hl', Z.eqb_refl. cbn [assert_ outcome_bind mbind slices srv]. rewrite lookup_insert_eq.
  cbn [unwrap outcome_bind mbind st0 st1].
  destruct Hb as [[-> ->]|(b & senti & -> & Hs & Hvs & Hlb & ->)].
  { unfold mret, W_ret, with_storage. cbn [srv slices]. by rewrite insert_insert_eq. }
  rewrite Hs. cbn [outcome_bind mbind]. rewrite (to_vec_valid _ Hvs). cbn [outcome_bind mbind].
  rewrite Hlb, Z.eqb_refl. cbn [assert_ outcome_bind mbind slices srv].
  unfold mret, W_ret, with_storage. cbn [srv slices]. by rewrite !insert_insert_eq.
Qed.

(** ** Requests that span chains *)

(** What the protocol asks of a first round, apart from its storage. *)
Definition acceptable (s : ServerLog Origin A) (r : Ref) : Prop :=
  valid r = true /\ EntryFlag.contains (flags_of r) EntryFlag.Unlock = false /\
  let multi zero ls :=
    NoDup (touched zero s ls) /\ forall o, o ∈ touched zero s ls -> fresh (cur_skeens s o) (Packets.id r) in
  match r with
  | Multi _ flags _ ls _ _ | Senti _ flags _ _ ls _ =>
      EntryFlag.contains flags EntryFlag.DirectWrite = false /\ multi false ls /\
      if EntryFlag.contains flags EntryFlag.TakeLock then EntryFlag.contains flags EntryFlag.NewMultiPut = true
      else ls <> [] /\ Forall (fun l => stored s (oi_order l) = true) ls /\
           (forall o, o ∈ touched false s ls -> room_pending s o) /\
           Forall (fun l => room_for s (oi_order l) (zlen ls) (zlen ls * LEVEL_BYTES)) ls
  | Snapshot _ flags _ _ _ ls =>
      if EntryFlag.contains flags EntryFlag.TakeLock
      then EntryFlag.contains flags EntryFlag.NewMultiPut = true /\ multi true ls else True
  | _ => False
  end.

Lemma acceptable_stored s r : acceptable s r -> acceptable s (stored_flag r).
Proof.
  intros (Hv & Hu & Hr). split.
  { apply (fillable_flagged r Hv). by destruct r. }
  destruct r; try done; (split; [by rewrite <-Hu; apply contains_stored|]);
    cbn -[EntryFlag.contains Z.lor] in *; by rewrite !contains_stored.
Qed.

Lemma acceptable_op_ok s r h st ls :
  acceptable s r -> multi_locs r = Some ls -> length (ms_timestamps st) = length ls ->
  length (ms_queue_indicies st) = length ls ->
  (EntryFlag.contains (flags_of r) EntryFlag.TakeLock = false -> fillable r ->
   match r with Snapshot _ _ _ _ _ _ => True | _ => exists size cells, ms_senti st = Some (size, cells) /\ zlen ls <= size end) ->
  op_ok (with_storages (<[h := st]> (storages s)) s) r (TLeft h).
Proof.
  intros (Hv & Hu & Hr) Hls H1 H2 H3. split; [done|].
  assert (Hst : forall zero, NoDup (touched zero s ls) /\ (forall o, o ∈ touched zero s ls -> fresh (cur_skeens s o) (Packets.id r)) ->
    round1_ok zero (with_storages (<[h := st]> (storages s)) s) (Packets.id r) h ls).
  { intros zero [Hn Hf]. split; [|done]. exists st. cbn. by rewrite lookup_insert_eq. }
  destruct r; try done; cbn in Hls; injection Hls as ->.
  1,2: destruct Hr as (Hd & Hm & Hr); split; [done|]; destruct (EntryFlag.contains flags EntryFlag.TakeLock) eqn:Et;
    [split; [done|]; rewrite Hu; exists h; by split; [|apply Hst]|].
  1,2: destruct Hr as (Hne & Hs & Hp & Hroom); exists h; split; [done|]; constructor; try done; [by apply Hst|];
    destruct (H3 Et I) as (size & cells & Hse & Hle); exists st, size, cells; cbn; by rewrite lookup_insert_eq.
  destruct (EntryFlag.contains flags EntryFlag.TakeLock) eqn:Et; [|done]. destruct Hr as [Hn Hm]. split; [done|].
  rewrite Hu. exists h. by split; [|apply Hst].
Qed.

Lemma senti_holds id flags db lock ls deps : zlen ls <= zlen (bytes_of (Senti id flags db lock ls deps)).
Proof.
  unfold bytes_of, packet_bytes, zlen, full, variant_of. apply Nat2Z.inj_le.
  cbn -[item_bytes ois zlen enc_all]. unfold enc_all, enc_val, ois, nums, num.
  cbn [zip_with f_ty snd concat]. rewrite !length_app, !length_item_bytes, !length_items, !length_fmap.
  change (size_of EOrderIndex) with 16%nat. lia.
Qed.

(** The storage a request needs.  Its bytes are there from the start when it is decided in one round
    or is a snapshot ([filled]).  A sentinel is stored for the chains after the separator of a
    multi-append, and for any multi-append that is decided in one round. *)
Definition filled (r : Ref) : bool :=
  match r with Snapshot _ _ _ _ _ _ => true | _ => negb (EntryFlag.contains (flags_of r) EntryFlag.TakeLock) end.

Definition needs_sentinel (r : Ref) (ls : list OrderIndex) : bool :=
  match r with
  | Snapshot _ _ _ _ _ _ => false
  | _ => bool_decide (mkOI 0 0 ∈ ls) || negb (EntryFlag.contains (flags_of r) EntryFlag.TakeLock)
  end.

Definition storage_for (r : Ref) (ls : list OrderIndex) (st : MultiStorage) (sl : Slices) : Prop :=
  ms_timestamps st = replicate (length ls) 0 /\ ms_queue_indicies st = replicate (length ls) 0 /\
  ms_entry_size st = zlen (bytes_of r) /\ zlen (st0 sl) = zlen (bytes_of r) /\
  (filled r = true -> st0 sl = bytes_of (stored_flag r)) /\
  if needs_sentinel r ls then
    exists senti b, slice_to_sentinel (stored_flag r) = Done senti /\ ms_senti st = Some (zlen (bytes_of senti), []) /\
      st1 sl = Some b /\ zlen b = zlen (bytes_of senti) /\ (filled r = true -> b = bytes_of senti)
  else ms_senti st = None /\ st1 sl = None.

Lemma storage_for_new r ls n0 sl :
  (zlen (st0 sl) = zlen (bytes_of r) /\ (filled r = true -> st0 sl = bytes_of (stored_flag r)) /\
   if needs_sentinel r ls then
     exists senti b, slice_to_sentinel (stored_flag r) = Done senti /\ n0 = Some (zlen (bytes_of senti)) /\
       st1 sl = Some b /\ zlen b = zlen (bytes_of senti) /\ (filled r = true -> b = bytes_of senti)
   else n0 = None /\ st1 sl = None) ->
  storage_for r ls (storage_new (zlen ls) (zlen (bytes_of r)) n0) sl.
Proof.
  intros (H1 & H2 & H3). unfold storage_for, storage_new, zlen. cbn. rewrite !Nat2Z.id. split_and!; try done.
  destruct (needs_sentinel r ls).
  - destruct H3 as (senti & b & E & -> & H3). by exists senti, b.
  - by destruct H3 as [-> ->].
Qed.

Lemma contains_zero_elem ls : contains_zero ls = bool_decide (mkOI 0 0 ∈ ls).
Proof. done. Qed.

(** What a worker makes of such a request. *)
Lemma send_multi_spec (w : Worker) r f t ls :
  acceptable (srv (mem w)) r -> multi_locs r = Some ls -> Packets.flag r = Done f ->
  match r with Snapshot _ _ _ _ _ _ => False | _ => True end ->
  exists h r' st sl, send_multi w r f t = Done (send_new (with_mem w (with_storage (mem w) h st sl)) r' (TLeft h) t) /\
    h = fresh_handle (mem w) /\ r' = (if filled r then stored_flag r else r) /\ (forall ls, multi_locs r = Some ls -> storage_for r ls st sl) /\
    op_ok (srv (with_storage (mem w) h st sl)) r' (TLeft h).
Proof.
  intros Hacc Hls Hfl Hns. pose proof Hacc as (Hv & Hu & Hr).
  assert (Hff : flags_of r = f) by (unfold flags_of; by rewrite Hfl).
  assert (exists n, sentinel_entry_size r = Done n) as [n Hn] by (destruct r; try done; eexists; reflexivity).
  destruct (sentinel_of r n Hv Hn (ex_intro _ ls Hls)) as (senti & Hse & Hvse & Hlse).
  assert (Hnl : zlen ls <= n).
  { rewrite <-Hlse. destruct r; try done; cbn in Hse, Hls; injection Hse as <-; injection Hls as <-; apply senti_holds. }
  unfold send_multi. rewrite (multi_locs_locs r ls Hls). cbn [mbind outcome_bind]. rewrite len_valid by done.
  cbn [mbind outcome_bind]. rewrite Hn. cbn [mbind outcome_bind]. rewrite <-Hff, Hu.
  assert (EntryFlag.contains (flags_of r) EntryFlag.DirectWrite = false) as -> by (destruct r; try done; apply Hr).
  assert (EntryFlag.contains (flags_of r) EntryFlag.NewMultiPut || negb (EntryFlag.contains (flags_of r) EntryFlag.TakeLock) = true) as ->.
  { destruct (EntryFlag.contains (flags_of r) EntryFlag.TakeLock) eqn:Et; [|apply orb_true_r].
    rewrite orb_false_r. destruct r; try done; cbn [flags_of Packets.flag] in Et; rewrite Et in Hr; apply Hr. }
  unfold on_mem. rewrite new_storage_spec. cbn [mbind outcome_bind].
  set (sz := if (_ || _ : bool) then Some n else None). set (st := storage_new (zlen ls) (zlen (bytes_of r)) sz).
  assert (Hlen : length (ms_timestamps st) = length ls /\ length (ms_queue_indicies st) = length ls).
  { unfold st, storage_new, zlen. cbn. rewrite !length_replicate. lia. }
  destruct Hlen as [Hl1 Hl2]. pose proof (zlen_nonneg (bytes_of r)) as Hpos.
  destruct (EntryFlag.contains (flags_of r) EntryFlag.TakeLock) eqn:Et; cbn [negb].
  - assert (Hfil : filled r = false) by (destruct r; try done; cbn [filled flags_of Packets.flag] in *; by rewrite Et).
    eexists _, r, st, _. split; [reflexivity|]. split; [done|]. split; [by rewrite Hfil|]. split.
    + intros ls' Hls'. rewrite Hls in Hls'. injection Hls' as <-. apply storage_for_new.
      split_and!; [by apply length_rc_slice|by rewrite Hfil|].
      assert (Hns' : needs_sentinel r ls = contains_zero ls || false) by (rewrite contains_zero_elem; destruct r; try done; cbn [needs_sentinel flags_of Packets.flag] in *; by rewrite Et).
      rewrite Hns'. unfold sz. cbn [st1 negb]. destruct (contains_zero ls || false); [|done].
      exists senti, (rc_slice n). cbn. rewrite Hlse. split_and!; try done; [|by rewrite Hfil]. apply length_rc_slice. rewrite <-Hlse. apply zlen_nonneg.
    + eapply acceptable_op_ok; [done..|]. by rewrite Et.
  - cbn [mem with_mem].
    assert (sz = Some n) as Hsz. { unfold sz. by rewrite orb_true_r. }
    assert (Hfil : filled r = true) by (destruct r; try done; cbn [filled flags_of Packets.flag] in *; by rewrite Et).
    rewrite (fill_from_spec (mem w) (fresh_handle (mem w)) st (rc_slice (zlen (bytes_of r))) (rc_slice <$> sz) (Some (bytes_of senti)) r Hv);
      [|by destruct r|by apply length_rc_slice|]; cycle 1.
    { right. rewrite Hsz. eexists _, senti. split; [reflexivity|]. split_and!; try done.
      rewrite length_rc_slice; [done|]. rewrite <-Hlse. apply zlen_nonneg. }
    cbn [mbind outcome_bind]. eexists _, (stored_flag r), st, _. split; [reflexivity|]. split; [done|].
    split; [by rewrite Hfil|]. split.
    + intros ls' Hls'. rewrite Hls in Hls'. injection Hls' as <-.
      apply storage_for_new. split_and!; [by apply (fillable_flagged r Hv); destruct r|done|].
      assert (needs_sentinel r ls = true) as -> by (destruct r; try done; cbn [needs_sentinel flags_of Packets.flag] in *; by rewrite Et, orb_true_r).
      exists senti, (bytes_of senti). split_and!; try done. by rewrite Hsz, Hlse.
    + eapply acceptable_op_ok; [by apply acceptable_stored|by destruct r|done..|]. intros _ _.
      assert (Hms : ms_senti st = Some (n, [])) by (unfold st; by rewrite Hsz).
      destruct r; try done; by exists n, [].
Qed.

Lemma send_snapshot_spec (w : Worker) r f t ls :
  acceptable (srv (mem w)) r -> multi_locs r = Some ls -> Packets.flag r = Done f ->
  match r with Snapshot _ _ _ _ _ _ => True | _ => False end ->
  exists h r' st sl, send_snapshot w r f t = Done (send_new (with_mem w (with_storage (mem w) h st sl)) r' (TLeft h) t) /\
    h = fresh_handle (mem w) /\ r' = (if filled r then stored_flag r else r) /\ (forall ls, multi_locs r = Some ls -> storage_for r ls st sl) /\
    op_ok (srv (with_storage (mem w) h st sl)) r' (TLeft h).
Proof.
  intros Hacc Hls Hfl Hsn. pose proof Hacc as (Hv & Hu & _).
  assert (Hff : flags_of r = f) by (unfold flags_of; by rewrite Hfl).
  unfold send_snapshot. rewrite (multi_locs_locs r ls Hls). cbn [mbind outcome_bind]. rewrite len_valid by done.
  cbn [mbind outcome_bind]. rewrite <-Hff, Hu. unfold on_mem. rewrite new_storage_spec. cbn [mbind outcome_bind].
  set (st := storage_new (zlen ls) (zlen (bytes_of r)) None).
  assert (Hlen : length (ms_timestamps st) = length ls /\ length (ms_queue_indicies st) = length ls).
  { unfold st, storage_new, zlen. cbn. rewrite !length_replicate. lia. }
  destruct Hlen as [Hl1 Hl2]. cbn [mem with_mem fmap option_fmap option_map].
  rewrite (fill_from_spec (mem w) (fresh_handle (mem w)) st (rc_slice (zlen (bytes_of r))) None None r Hv);
    [|by destruct r|apply length_rc_slice, zlen_nonneg|by left].
  cbn [mbind outcome_bind]. eexists _, (stored_flag r), st, _. split; [reflexivity|]. split; [done|].
  split; [by destruct r|]. split.
  - intros ls' Hls'. rewrite Hls in Hls'. injection Hls' as <-. apply storage_for_new. split_and!; [by apply (fillable_flagged r Hv); destruct r|done|by destruct r].
  - eapply acceptable_op_ok; [by apply acceptable_stored|by destruct r|done..|]. by destruct r.
Qed.

(** What the queue to the ordering thread holds, when the request is handled. *)
Lemma send_to_log_spec (w : Worker) (s : TcpWriter) token addr r :
  acceptable (srv (mem w)) r ->
  let t := (worker_num w, token, addr) in
  exists h r' st sl,
    send_to_log w token (bytes_of r) addr s =
      Done (send_new (with_mem w (with_storage (mem w) h st sl)) r' (TLeft h) t, s) /\
    h = fresh_handle (mem w) /\ r' = (if filled r then stored_flag r else r) /\ (forall ls, multi_locs r = Some ls -> storage_for r ls st sl) /\
    op_ok (srv (with_storage (mem w) h st sl)) r' (TLeft h).
Proof.
  intros Hacc t. pose proof Hacc as (Hv & _ & Hr).
  assert (exists ls, multi_locs r = Some ls) as [ls Hls] by (destruct r; try done; by eexists).
  assert (exists f, Packets.flag r = Done f) as [f Hf] by (destruct r; try done; by eexists).
  unfold send_to_log. rewrite contents_valid by done. cbn [mbind outcome_bind]. rewrite Hf. cbn [mbind outcome_bind].
  destruct (match r with Snapshot _ _ _ _ _ _ => true | _ => false end) eqn:Esn.
  - destruct (send_snapshot_spec w r f t ls Hacc Hls Hf) as (h & r' & st & sl & E1 & H1); [by destruct r|].
    exists h, r', st, sl. split; [|done]. fold t. destruct r; try done.
    cbn [Packets.layout mbind outcome_bind]. rewrite E1. done.
  - destruct (send_multi_spec w r f t ls Hacc Hls Hf) as (h & r' & st & sl & E1 & H1); [by destruct r|].
    exists h, r', st, sl. split; [|done]. fold t. destruct r; try done;
    cbn [Packets.layout mbind outcome_bind]; rewrite E1; done.
Qed.

(** C13.  A request that spans chains is ready when it leaves the worker that read it.  For a first
    round of a multi-append, a multi-append that is decided in one round or a snapshot that the
    protocol allows ([acceptable]: valid, not a direct write, for different chains that do not know
    its id yet and have room), the worker makes one message for the ordering thread, with a storage
    at an address nothing else uses.  The storage is exactly what the request needs: a timestamp and
    a queue index for each location, room for the bytes of the packet, which are there already when
    it is decided in one round or is a snapshot; and room for the sentinel, of the size of the
    sentinel, if and only if one is stored (the request has a separator, or is decided in one
    round).  On a server in a reachable state the request is handled without a panic, and the state
    it leaves is reachable. *)
Theorem request_ready (w : Worker) (s : TcpWriter) (token : Z) (addr : Addr) (r : Ref) :
  acceptable (srv (mem w)) r -> srv_reach (srv (mem w)) ->
  exists w' h st sl ls, multi_locs r = Some ls /\
    let r' := if filled r then stored_flag r else r in
    worker_handle_message w s token (bytes_of r, addr, None) = Done (w', s) /\
    to_log w' = to_log w ++ [LogNew r' (TLeft h) (worker_num w, token, addr)] /\
    mem w' = with_storage (mem w) h st sl /\
    storages (srv (mem w)) !! h = None /\ slices (mem w) !! h = None /\
    storage_for r ls st sl /\
    exists srv', handle_op r' (TLeft h) (worker_num w, token, addr) (srv (mem w')) = Done (srv', tt) /\ srv_reach srv'.
Proof.
  intros Hacc Hs. destruct (send_to_log_spec w s token addr r Hacc) as (h & r' & st & sl & E1 & -> & Hr' & Hst & Hok).
  assert (exists ls, multi_locs r = Some ls) as [ls Hls] by (destruct Hacc as (_ & _ & Hr); destruct r; try done; by eexists).
  cbn [worker_handle_message]. rewrite E1. destruct (fresh_handle_spec (mem w)) as [Hf1 Hf2].
  eexists _, _, st, sl, ls. split; [done|]. cbv zeta. rewrite <-Hr'. split; [reflexivity|]. cbn [send_new send_log with_mem to_log mem].
  split_and!; try done; [by apply Hst|].
  set (s1 := srv (with_storage _ _ _ _)) in *. assert (Hs1 : srv_reach s1) by (by apply sr_storages).
  destruct (wp_handle_op s1 r' (TLeft (fresh_handle (mem w))) (worker_num w, token, addr) s1 (srv_reach_inv s1 Hs1) Hok)
    as (s' & [] & E & _).
  exists s'. split; [done|]. by eapply sr_op.
Qed.
End Requests.

(** ** Replication *)

Section Replication.
Context `{HB : Build} `{HG : VecGrowth} {A : Type} `{HT : ByteTrie A, HV : !ByteTrieView A, HL : !ByteTrieLaws A}.

Abbreviation Worker := (WorkerInner (A := A)).

(** The packets that servers pass on. *)
Definition passes (r : Ref) : Prop :=
  valid r = true /\
  match r with
  | Single _ _ _ _ _ _ | Multi _ _ _ _ _ _ | Senti _ _ _ _ _ _ | SingleToReplica _ _ _ _ _ _ _
  | MultiToReplica _ _ _ _ _ _ _ | SentiToReplica _ _ _ _ _ _ _ | Skeens2ToReplica _ _ _
  | SnapshotToReplica _ _ _ _ _ _ _ | GC _ _ _ => True
  | _ => False
  end.

(** What the ordering thread is told of a packet: the packet, and the location of its storage
    where that is used. *)
Definition replica_view (tr : ToReplicate) : Ref * option Z :=
  match tr with
  | RData r loc | RSingleSkeens1 r loc => (r, Some loc)
  | RMulti r _ | RSkeens1 r _ | RSnapshotSkeens1 r _ | RSkeens2 r | RUnLock r | RGC r | RTasRecoverer r _ => (r, None)
  end.
Definition passed_on (r : Ref) (loc : Z) : Ref * option Z :=
  match r with
  | Single _ _ _ _ _ _ | SingleToReplica _ _ _ _ _ _ _ => (r, Some loc)
  | SnapshotToReplica _ _ _ _ _ _ _ => (stored_flag r, None)
  | _ => (r, None)
  end.

Lemma to_replicate_spec (m : Shared Origin A) r loc : passes r ->
  exists m' tr, to_replicate r loc m = Done (m', tr) /\ replica_view tr = passed_on r loc.
Proof.
  intros [Hv Hp]. destruct r; try done; try (eexists _, _; split; [reflexivity|reflexivity]).
  pose proof (fill_from_spec m (fresh_handle m) (storage_new (zlen locs) (zlen (bytes_of (SnapshotToReplica id flags data_bytes num_deps lock locs queue_nums))) None)
    (rc_slice (zlen (bytes_of (SnapshotToReplica id flags data_bytes num_deps lock locs queue_nums)))) None None _ Hv) as E.
  specialize (E I (length_rc_slice _ (zlen_nonneg _)) (or_introl (conj eq_refl eq_refl))).
  unfold to_replicate. cbn [Packets.kind].
  repeat match goal with |- context [EntryKind.SnapshotToReplica =? ?k] =>
    let b := eval vm_compute in (EntryKind.SnapshotToReplica =? k) in
    change (EntryKind.SnapshotToReplica =? k) with b end.
  cbn [orb]. unfold try, mbind, W_bind. cbn [Packets.locs mbind outcome_bind]. rewrite len_valid by done.
  cbn [mbind outcome_bind]. rewrite new_storage_spec. cbn [mbind outcome_bind fmap option_fmap option_map].
  rewrite E. cbn. eexists _, _. split; reflexivity.
Qed.
(** *** The receiver *)

(** The messages for which [Server.reader] gives a location. *)
Definition handles (m : Server.Message) : Prop :=
  exists r loc, passes r /\ m.1.1 = bytes_of r /\ m.2 = Some loc.

(** What has been replicated, and what a message is replicated as. *)
Definition replicated (w : Worker) : list (Ref * option Z * Addr) :=
  omap (fun m => match m with LogReplication tr (_, _, addr) => Some (replica_view tr, addr) | _ => None end) (to_log w).
Definition replicates (m : Server.Message) : Ref * option Z * Addr :=
  let '(bytes, addr, loc) := m in
  match contents bytes with Done r => (passed_on r (default 0 loc), addr) | Panic => (GC 0 0 [], None, addr) end.

Lemma replication_message (h : PacketHandler) (w : TcpWriter) (i : Worker) m : handles m ->
  exists i', handle_message h w i m = Done (h, w, i', true) /\ replicated i' = replicated i ++ [replicates m].
Proof.
  destruct m as [[bytes addr] loc]. intros (r & l & Hr & Hb & Hl). cbn in Hb, Hl. subst bytes loc.
  unfold handle_message, packet_handler, worker_handle_message, send_replication_to_log, on_mem, replicates.
  rewrite contents_valid by apply Hr. cbn [mbind outcome_bind default].
  destruct (to_replicate_spec (mem i) r l Hr) as (m' & tr & -> & Hv). cbn [mbind outcome_bind].
  eexists. split; [reflexivity|]. unfold replicated. cbn [send_log with_mem to_log]. rewrite omap_app. cbn. by rewrite Hv.
Qed.

#[export] Instance replicas_behave :
  Behaved PacketHandler WriteHandler Worker Server.Message (Ref * option Z * Addr) handles replicated replicates.
Proof.
  constructor.
  - intros h w i m Hw Hm. destruct (replication_message h w i m Hm) as (i' & E & Hs).
    exists h, w, i', []. split; [done|]. split; [by apply wrote_nil|done].
  - intros a w i token n _. unfold after_write, write_handler. eexists _, _. split; [reflexivity|].
    repeat case_match; done.
Qed.

(** *** The sender *)

(** What [send_downsteam] is asked to send, as the message it is for the next server. *)
Definition sendable (to_send : ToSend) : Prop :=
  match to_send with
  | SendNothing => True
  | SendContents r => passes r
  | SendOldContents r loc => passes r /\ in_u64 loc
  | SendSlice bytes | SendStaticSlice bytes => exists r, passes r /\ bytes = bytes_of r
  | SendOldReplication bytes loc => (exists r, passes r /\ bytes = bytes_of r) /\ in_u64 loc
  | SendRead _ => False
  end.
Definition message_of (to_send : ToSend) (addr : Addr) : option Server.Message :=
  match to_send with
  | SendNothing | SendRead _ => None
  | SendContents r => Some (bytes_of r, addr, Some 0)
  | SendOldContents r loc => Some (bytes_of r, addr, Some loc)
  | SendSlice bytes | SendStaticSlice bytes => Some (bytes, addr, Some 0)
  | SendOldReplication bytes loc => Some (bytes, addr, Some loc)
  end.

(** What happens to the connection to the next server: the loop calls it, or the worker passes
    something on. *)
Inductive act := Happens (k : call) | Passes (to_send : ToSend) (addr : Addr).

Definition act_on (token : Z) (c : PerStream) (i : Worker) (a : act) : outcome (PerStream * Worker * option ErrorKind) :=
  match a with
  | Happens k => make_call token c i k
  | Passes to_send addr =>
      '(s, _) ← send_downsteam (mkIoState {[token := c]} []) token addr to_send;
      c ← unwrap (streams s !! token);
      Done (c, i, None)
  end.
Fixpoint acts_on (token : Z) (c : PerStream) (i : Worker) (acts : list act) : outcome (PerStream * Worker * option ErrorKind) :=
  match acts with
  | [] => Done (c, i, None)
  | a :: acts =>
      '(c, i, error) ← act_on token c i a;
      match error with None => acts_on token c i acts | Some e => Done (c, i, Some e) end
  end.

Definition messages (acts : list act) : list Server.Message :=
  omap (fun a => match a with Passes to_send addr => message_of to_send addr | Happens _ => None end) acts.
Definition act_ok (a : act) : Prop :=
  match a with
  | Happens k => written k = []
  | Passes to_send addr => sendable to_send /\ Ipv4SocketAddr.wf addr /\
      forall rd m, message_of to_send addr = Some m -> fits (zlen (Server.frame rd m))
  end.

(** What [send_downsteam] does is a call of the connection, which may be marked as awake. *)
Lemma passes_calls token c (i : Worker) to_send addr rd : act_ok (Passes to_send addr) ->
  exists ks, act_on token c i (Passes to_send addr) = calls token c i ks /\ Forall call_ok ks /\
    concat (written <$> ks) = from_option (Server.frame rd) [] (message_of to_send addr).
Proof.
  intros (Hs & Ha & Hf).
  assert (Hw : forall k (f : PerStream -> outcome PerStream),
    (forall c, make_call token c i k = (c ← f c; Done (c, i, None))) -> call_ok k ->
    exists ks, ('(s, _) ← ('(s, nb) ← write_to_stream (mkIoState {[token := c]} []) token f; nb ← unwrap nb; Done (s, nb));
                c ← unwrap (streams s !! token); Done (c, i, None)) = calls token c i ks /\
      Forall call_ok ks /\ concat (written <$> ks) = written k).
  { intros k f Hk Hok. unfold write_to_stream, mutate. cbn [streams]. rewrite lookup_singleton_eq.
    destruct (f c) as [c'|] eqn:Ef; cbn [mbind outcome_bind].
    - destruct (is_marked_as_staying_awake c' token).
      + exists [k]. cbn [calls]. rewrite Hk, Ef. cbn [mbind outcome_bind unwrap put_stream streams].
        rewrite lookup_insert_eq. cbn. rewrite app_nil_r. by rewrite Forall_singleton.
      + exists [k; Marked]. cbn [calls]. rewrite Hk, Ef. cbn [mbind outcome_bind unwrap put_awake streams make_call].
        rewrite lookup_insert_eq. cbn. rewrite app_nil_r. split; [done|]. split; [|done].
        constructor; [done|]. by rewrite Forall_singleton.
    - exists [k]. cbn [calls]. rewrite Hk, Ef. cbn. rewrite app_nil_r. by rewrite Forall_singleton. }
  unfold act_on, send_downsteam. destruct to_send as [|r|r loc|bytes|bytes|bytes|bytes loc]; try done.
  { exists []. cbn. rewrite lookup_singleton_eq. split_and!; [done|constructor|done]. }
  all: specialize (Hf rd _ eq_refl); cbn [message_of from_option Server.frame Server.loc_bytes] in *.
  1,2: match goal with |- context [add_contents _ ?r ?extra] =>
         destruct (Hw (WritesContents r extra) (fun c => add_contents c r extra) (fun c => eq_refl)) as (ks & E & Hks & Hwr)
       end; [split; [|apply Hs]; cbn; by rewrite app_nil_r|].
  3,4,5: match goal with |- context [add_writes _ ?bytes] =>
         destruct (Hw (Writes bytes) (fun c => add_writes c bytes) (fun c => eq_refl)) as (ks & E & Hks & Hwr)
       end; [split; [|done]; cbn; by rewrite app_nil_r|].
  all: exists ks; rewrite E, Hwr; cbn; by rewrite app_nil_r.
Qed.

Lemma calls_app token c (i : Worker) ks1 ks2 :
  calls token c i (ks1 ++ ks2) =
    ('(c, i, e) ← calls token c i ks1; match e with None => calls token c i ks2 | Some e => Done (c, i, Some e) end).
Proof.
  revert c i. induction ks1 as [|k ks1 IH]; intros c i; [done|]. cbn [app calls].
  destruct (make_call token c i k) as [[[c1 i1] [e|]]|]; cbn [mbind outcome_bind]; [done| |done]. apply IH.
Qed.

Lemma acts_calls token rd acts : Forall act_ok acts -> forall c (i : Worker),
  exists ks, acts_on token c i acts = calls token c i ks /\ Forall call_ok ks /\
    concat (written <$> ks) = stream_of (frame := Server.frame) rd (messages acts).
Proof.
  induction 1 as [|a acts Ha _ IH]; intros c i.
  { exists []. by split_and!. }
  assert (exists ks, act_on token c i a = calls token c i ks /\ Forall call_ok ks /\
    concat (written <$> ks) = stream_of (frame := Server.frame) rd (messages [a])) as (ks1 & E1 & Hk1 & Hw1).
  { destruct a as [k|to_send addr].
    - exists [k]. cbn. destruct (make_call token c i k) as [[[? ?] [?|]]|]; cbn; rewrite Ha; split_and!; try done;
        rewrite Forall_singleton; split; rewrite ?Ha; try done; by destruct k.
    - destruct (passes_calls token c i to_send addr rd Ha) as (ks & E & Hks & Hw). exists ks. split_and!; try done.
      rewrite Hw. unfold messages, stream_of. cbn. destruct (message_of to_send addr); [|done]. cbn. by rewrite app_nil_r. }
  assert (Hcat : stream_of (frame := Server.frame) rd (messages (a :: acts)) =
    stream_of (frame := Server.frame) rd (messages [a]) ++ stream_of (frame := Server.frame) rd (messages acts)).
  { unfold stream_of, messages. rewrite <-concat_app, <-fmap_app, <-omap_app. done. }
  assert (exists ks2, Forall call_ok ks2 /\ concat (written <$> ks2) = stream_of (frame := Server.frame) rd (messages acts) /\
    acts_on token c i (a :: acts) = calls token c i (ks1 ++ ks2)) as (ks2 & Hk2 & Hw2 & E2).
  { cbn [acts_on]. rewrite E1. destruct (calls token c i ks1) as [[[c1 i1] [e|]]|] eqn:Ec.
    2: destruct (IH c1 i1) as (ks2 & E2 & Hk2 & Hw2). 1,3: destruct (IH c i) as (ks2 & E2 & Hk2 & Hw2).
    all: exists ks2; split_and!; try done; by rewrite calls_app, Ec. }
  exists (ks1 ++ ks2). split; [done|]. split; [by apply Forall_app|]. by rewrite fmap_app, concat_app, Hw1, Hw2, Hcat.
Qed.

(** *** From server to server *)

Lemma packet_expected b r addr loc : passes r -> Ipv4SocketAddr.wf addr -> in_u64 loc ->
  Server.ok (Server.mkReader b true) (bytes_of r, addr, Some loc) /\ handles (bytes_of r, addr, Some loc).
Proof.
  intros Hr Ha Hl. split; [|by exists r, loc]. split; [|done]. exists r. split; [apply Hr|done].
Qed.

Lemma messages_expected b acts : Forall act_ok acts ->
  expected (ok := Server.ok) (handles := handles) (Server.mkReader b true) (messages acts).
Proof.
  induction 1 as [|a acts Ha _ IH]; [constructor|]. unfold messages. cbn. destruct a as [k|to_send addr]; [done|].
  destruct Ha as (Hs & Ha & _).
  destruct (message_of to_send addr) as [m|] eqn:Em; [|done]. constructor; [|done].
  destruct to_send as [|r|r loc|bytes|bytes|bytes|bytes loc]; try done; cbn in Em, Hs; injection Em as <-.
  - by apply packet_expected.
  - by apply packet_expected; apply Hs || done.
  - destruct Hs as (r & Hr & ->). by apply packet_expected.
  - destruct Hs as (r & Hr & ->). by apply packet_expected.
  - destruct Hs as [(r & Hr & ->) Hl]. by apply packet_expected.
Qed.

(** C12.  What a server passes on is what the next server of the chain replicates: for every
    sequence of answers the sending worker passes to [send_downsteam], with anything else
    happening to the connection in between, and whatever pieces the two sockets take and give the
    bytes in, neither side panics, and the messages for the ordering thread of the receiver are
    those answers, each once, in the order in which they were passed on, with the client's name
    and, where it is used, the location of the storage; all of them, when the sender's buffers are
    empty and the receiver has read what came.  (A dev build: while no message is larger than the
    write buffer.) *)
Theorem replication_hop (token1 token2 : Z) (s1 s2 : TcpStream) (up : option Z) (w1 w2 : Worker)
    (acts : list act) (ks : list call) :
  stream_ok s1 -> to_come s1 = [] -> sent s1 = [] -> Forall act_ok acts ->
  exists c1 w1', acts_on token1 (new_stream s1 token1 false up) w1 acts = Done (c1, w1', None) /\
    (stream_ok s2 -> to_come s2 = sent (stream (io c1)) -> Forall call_ok ks ->
     exists c2 w2' don rest,
       calls token2 (new_stream s2 token2 true None) w2 ks = Done (c2, w2', None) /\
       messages acts = don ++ rest /\ replicated w2' = replicated w2 ++ (replicates <$> don) /\
       (unsent (io c1) = [] -> to_come (stream (io c2)) = [] -> don = messages acts)).
Proof.
  intros Hs1 Hc1 He1 Ha.
  destruct (acts_calls token1 (Server.mkReader [] true) acts Ha (new_stream s1 token1 false up) w1) as (ks1 & -> & Hk1 & Hw1).
  destruct (connection_sends token1 (Server.mkReader [] false) s1 (mkPacketHandler token1) (mkWriteHandler up) w1 ks1 Hs1 Hc1 Hk1)
    as (c1 & w1' & E1 & _ & _ & Hf).
  exists c1, w1'. split; [done|]. intros Hs2 Hc2 Hks. rewrite He1, Hw1 in Hf. cbn [app] in Hf.
  pose proof (new_receiving (Server.mkReader [] true) (messages acts) (unsent (io c1)) s2 (mkPacketHandler token2)
    (mkWriteHandler None) Hs2 (messages_expected [] acts Ha) ltac:(by rewrite Hc2)) as Hr.
  destruct (calls_spec token2 _ _ ks _ _ w2 Hr Hks) as (c2 & w2' & E2 & don & rest & out & Hm & Hr2 & Hseen & _).
  exists c2, w2', don, rest. split_and!; try done.
  intros Hu Ht. rewrite Hu in Hr2. rewrite Hm, (receiving_all _ rest c2 Hr2 Ht). by rewrite app_nil_r.
Qed.
End Replication.
