(* ===== verification/ServerDemo.v ===== *)
(** * Witnesses for the connections and the workers of a server

    Two workers.  The first passes a single append and the first round of a multi-append on to the
    second, on a socket that takes a few bytes at a time; a client sends a request to the first. *)

From stdpp Require Import base gmap list.
From Stdlib Require Import ZArith Lia.
From S2P Require Import Prelude PacketCodec Packets Trie ByteTrie OrderingThread OrderingInv OrderingSafety.
From S2P Require Import WorkerThread WorkerSafety ClientStore.
From S2P Require Import DoubleBuffer Reactor ReactorSafety ReactorWake Transport ServerTcp ServerTcpSafety ServerHop.
Open Scope Z_scope.

Module HopDemo.

#[global] Existing Instance dev.

(** A vector doubles. *)
#[global] Instance doubling : VecGrowth.
Proof. refine {| grow c n := Z.max (2 * c) n |}. intros. lia. Defined.

Abbreviation Worker := (WorkerInner (A := Alloc)).

Definition server : ServerLog Origin Alloc := mkServer ∅ 1 0 [] ∅.
Definition memory : Shared Origin Alloc := mkMem server ∅.
Definition worker : Worker := worker_new memory 1 false false false 0.

Definition client : Addr := Ipv4SocketAddr.mk (replicate 16 9).

(** A single append that has a place in chain 1, and a round of a multi-append to chains 1 and 2. *)
Definition single : Ref := Single 7 0 (mkOI 1 1) [] [1] 0.
Definition multi : Ref := MultiToReplica 8 0xA 0 [mkOI 1 0; mkOI 2 0] [] [5] [3; 4].

Definition msg1 : Server.Message := (bytes_of single, client, Some 11).
Definition msg2 : Server.Message := (bytes_of multi, client, Some 0).
Definition rd : Server.PacketReader := Server.mkReader [] true.
Definition bytes : list Z := Server.frame rd msg1 ++ Server.frame rd msg2.

(** The socket gives them in pieces. *)
Definition in_pieces : TcpStream :=
  stream_new [Got (take 20 bytes); ReadErr WouldBlock; Got (take 40 (drop 20 bytes)); ReadErr Interrupted;
              Got (drop 60 bytes)] [].

Definition readable : Event := mkEvent 10 true false.
Definition events : list call := [Notified readable; Polled; Backpressured true; Writes [[1; 2]]; Marked;
  Notified readable; Backpressured false; Notified readable; Polled; Polled; Polled].

Lemma pieces_ok : stream_ok in_pieces.
Proof. by vm_compute. Qed.

Lemma two_expected : expected (ok := Server.ok) (handles := handles) rd [msg1; msg2].
Proof.
  constructor; [|constructor; [|constructor]].
  - apply (packet_expected [] single client 11); [by vm_compute|done|done].
  - apply (packet_expected [] multi client 0); [by vm_compute|done|done].
Qed.

Lemma events_ok : Forall call_ok events.
Proof. repeat (constructor; [split; [intros _; vm_compute; discriminate|done]|]). constructor. Qed.
End HopDemo.
Import HopDemo.

Abbreviation receiver := (handler_from in_pieces rd (mkPacketHandler 10) (mkWriteHandler None)).

Lemma connection_delivers_witness :
  exists c' i', calls 10 receiver worker events = Done (c', i', None) /\
    replicated i' = [(single, Some 11, client); (multi, None, client)].
Proof.
  destruct (connection_delivers (O := Ref * option Z * Addr) (seen := replicated) (obs := replicates) (handles := handles)
    (ok := Server.ok) (frame := Server.frame) 10 rd [msg1; msg2] [] in_pieces
    (mkPacketHandler 10) (mkWriteHandler None) worker events) as (c' & i' & don & rest & E & Hm & Hs & _ & _ & _ & Hall).
  - apply pieces_ok.
  - apply two_expected.
  - vm_compute. reflexivity.
  - apply events_ok.
  - assert (Ht : match calls 10 receiver worker events with Done (c, _, _) => to_come (stream (io c)) = [] | Panic => False end)
      by (vm_compute; reflexivity).
    rewrite E in Ht. rewrite (Hall eq_refl Ht) in Hs. exists c', i'. split; [exact E|]. exact Hs.
Defined.

Lemma connection_reads_all_witness :
  exists c' i', calls 10 receiver worker (replicate (answers in_pieces) (Notified readable)) = Done (c', i', None) /\
    replicated i' = [(single, Some 11, client); (multi, None, client)].
Proof.
  destruct (connection_reads_all (O := Ref * option Z * Addr) (seen := replicated) (obs := replicates) (handles := handles)
    (ok := Server.ok) (frame := Server.frame) 10 rd [msg1; msg2] in_pieces
    (mkPacketHandler 10) (mkWriteHandler None) worker readable) as (c' & i' & E & Hs).
  - apply pieces_ok.
  - apply two_expected.
  - vm_compute. reflexivity.
  - intros h w i m h' w' i' b Hm Hh. destruct (replication_message h w i m Hm) as (i1 & E & _). congruence.
  - reflexivity.
  - exists c', i'. split; [exact E|exact Hs].
Defined.

(** The same messages from the worker that passes them on. *)
Definition narrow : TcpStream := stream_new [] [Took 30; WriteErr WouldBlock; Took 15; Took 500; Took 500; Took 500].
Definition passing : list act :=
  [Passes (SendOldContents single 11) client; Happens Polled; Passes SendNothing client;
   Passes (SendContents multi) client; Happens Polled; Happens (Notified (mkEvent 11 false true)); Happens Polled;
   Happens Polled; Happens Polled].

Lemma replication_hop_witness :
  exists c1 w1' c2 w2', acts_on 11 (new_stream narrow 11 false (Some 10)) worker passing = Done (c1, w1', None) /\
    to_come in_pieces = sent (stream (io c1)) /\ calls 10 (new_stream in_pieces 10 true None) worker events = Done (c2, w2', None) /\
    replicated w2' = [(single, Some 11, client); (multi, None, client)].
Proof.
  destruct (replication_hop 11 10 narrow in_pieces (Some 10) worker worker passing events) as (c1 & w1' & E1 & Hr).
  - by vm_compute.
  - reflexivity.
  - reflexivity.
  - assert (Hf : forall m, m = msg1 \/ m = msg2 -> fits (zlen (Server.frame rd m))).
    { intros m [->| ->] _; vm_compute; discriminate. }
    repeat constructor; try done.
    all: intros ? m [= <-]; first [exact (Hf msg1 (or_introl eq_refl)) | exact (Hf msg2 (or_intror eq_refl))].
  - assert (H1 : match acts_on 11 (new_stream narrow 11 false (Some 10)) worker passing with
                 | Done (c, _, _) => to_come in_pieces = sent (stream (io c)) /\ unsent (io c) = []
                 | Panic => False end) by (vm_compute; by split).
    rewrite E1 in H1. destruct H1 as [H1 Hu]. destruct (Hr pieces_ok H1 events_ok) as (c2 & w2' & don & rest & E2 & Hm & Hs & Hall).
    assert (H2 : match calls 10 (new_stream in_pieces 10 true None) worker events with
                 | Done (c, _, _) => to_come (stream (io c)) = [] | Panic => False end) by (vm_compute; reflexivity).
    rewrite E2 in H2. rewrite (Hall Hu H2) in Hs. exists c1, w1', c2, w2'. by split_and!.
Defined.

(** The first round of a multi-append to chains 1 and 2, and a multi-append that needs one round. *)
Definition round : Ref := Multi 8 0xA 0 [mkOI 1 0; mkOI 2 0] [] [5].

Lemma server_reach : srv_reach server.
Proof. by apply (sr_new 0 1). Qed.

Lemma round_acceptable : acceptable server round.
Proof.
  split; [vm_compute; reflexivity|]. split; [vm_compute; reflexivity|]. split; [vm_compute; reflexivity|].
  split; [|vm_compute; reflexivity]. split; [apply (bool_decide_unpack _); by vm_compute|].
  intros o Ho. assert (Ho' : o ∈ [1; 2]) by exact Ho.
  apply elem_of_cons in Ho' as [->|Ho']; [Demo.fresh_tac|]. apply list_elem_of_singleton in Ho' as ->. Demo.fresh_tac.
Qed.

Definition no_writer : TcpWriter := writer (io_new (stream_new [] [])).

Lemma request_ready_witness :
  exists w' h, worker_handle_message worker no_writer 10 (bytes_of round, client, None) = Done (w', no_writer) /\
    to_log w' = [LogNew round (TLeft h) (0, 10, client)] /\
    exists srv', handle_op round (TLeft h) (0, 10, client) (srv (mem w')) = Done (srv', tt) /\ srv_reach srv'.
Proof.
  destruct (request_ready worker no_writer 10 client round round_acceptable server_reach)
    as (w' & h & st & sl & ls & _ & E & Hl & _ & _ & _ & _ & Hop).
  exists w', h. split; [exact E|]. split; [exact Hl|exact Hop].
Defined.

(** ** A worker at work *)

(** A client connects; its request comes in two pieces. *)
Definition request : list Z := bytes_of round ++ Ipv4SocketAddr.bytes client.
Definition connection : TcpStream := stream_new [Got (take 30 request); Got (drop 30 request)] [].
Definition arrives (w : Worker) : Worker := with_dist w [NewClient 10 connection None client] (to_dist w).
Definition idle : (Worker -> Worker) * list Event := (fun w => w, []).
Definition run_steps : list ((Worker -> Worker) * list Event) :=
  [(arrives, [mkEvent FROM_DIST true false]); idle; (fun w => w, [readable])] ++ replicate 13 idle.

Definition ran_worker : outcome (Reactor PerStream Worker * Phase) := worker_run worker run_steps.
Definition end_of : Reactor PerStream Worker * Phase :=
  match ran_worker with Done x => x | Panic => (worker_loop worker, Waiting) end.
Definition its_conn : PerStream :=
  match streams (io_state end_of.1) !! 10 with Some c => c | None => new_stream connection 10 false None end.

Lemma ran_to_the_end : worker_run worker run_steps = Done (end_of.1, Waiting).
Proof. vm_compute. reflexivity. Qed.

Lemma has_conn : streams (io_state end_of.1) !! 10 = Some its_conn.
Proof. vm_compute. reflexivity. Qed.

(** The request is on its way to the ordering thread and the loop waits. *)
Example request_is_taken :
  end_of.2 = Waiting /\ awake (io_state end_of.1) = [] /\
  (fun m => match m with LogNew r _ t => Some (r, t) | _ => None end) <$> to_log (inner end_of.1)
    = [Some (round, (0, 10, client))].
Proof. vm_compute. by split_and!. Qed.

Lemma no_lost_wakeup_witness :
  (is_empty (write_buffer (io its_conn)) = true \/ write_blocked (stream (io its_conn)) = true) /\
  (read_blocked (stream (io its_conn)) = true \/ marked_backpressured (io its_conn) = true \/
   has_pending (write_buffer (io its_conn)) = true /\ write_blocked (stream (io its_conn)) = true).
Proof.
  exact (no_lost_wakeup worker_honest worker_tame 0 worker [] run_steps end_of.1 Waiting 10 its_conn ran_to_the_end has_conn (or_introl eq_refl)).
Defined.

Lemma backpressure_never_applied_witness : marked_backpressured (io its_conn) = false.
Proof. exact (backpressure_never_applied worker run_steps end_of.1 Waiting 10 its_conn ran_to_the_end has_conn). Defined.

(** The other side has closed the connection (a read of a closed socket is [Ok(0)]): the loop
    asks again and again, the connection is not removed. *)
Definition closed : TcpStream := stream_new (replicate 20 (Got [])) [].
Definition closes (w : Worker) : Worker := with_dist w [NewClient 10 closed None client] (to_dist w).

Example closed_connection_stays :
  match worker_run worker ([(closes, [mkEvent FROM_DIST true false]); idle; (fun w => w, [readable])] ++ replicate 30 idle) with
  | Done (r, ph) => is_Some (streams (io_state r) !! 10) /\ ph = Working [] false /\ awake (io_state r) = [10]
  | Panic => False
  end.
Proof. vm_compute. split; [by eexists|by split]. Qed.

(** A dev build cannot write a message that is larger than the buffer of the connection. *)
Example large_message_panics :
  calls 10 (new_stream (stream_new [] [Took (Z.to_nat 10000)]) 10 false None) worker [Writes [replicate (Z.to_nat 5000) 0]; Polled] = Panic.
Proof. vm_compute. reflexivity. Qed.
