(* ===== verification/Acceptor.v ===== *)
(** * Connections join a server ([fuzzy_log_server/src/tcp/socket_negotiate.rs], [tcp/mod.rs])

    The thread that accepts connections greets each of them with a zero byte and reads what it is
    (a client, or the next server of the replication chain on behalf of a client) and the name of
    the client.  The head of a chain waits for the client and for the next server and pairs them;
    the other servers of a chain connect to the server before them.  What is ready is given to a
    worker, which is chosen by the client's name.

    A negotiation is shared ([Rc<RefCell<..>>]) between the table by name and the table by token:
    the tables hold addresses of a store, and [Rc::try_unwrap] succeeds when neither holds the
    address.  Sockets are those of [Reactor]; a socket that a [connect] returns is an argument. *)

From stdpp Require Import base gmap list.
From Stdlib Require Import ZArith Lia.
From S2P Require Import Prelude PacketCodec Packets Trie OrderingThread WorkerThread.
From S2P Require Import DoubleBuffer Reactor Transport ServerTcp.
Open Scope Z_scope.

(** ** Results *)

(** [NotDone] is [NegotiateNotDone]; [Hangs] says that the thread retries for ever. *)
Inductive Res (X : Type) := Ret (x : X) | NotDone | Panicked | Hangs.
Arguments Ret {X} x.
Arguments NotDone {X}.
Arguments Panicked {X}.
Arguments Hangs {X}.

(** What a call does to a state, also when it does not return a value. *)
Definition SM (S X : Type) : Type := S -> S * Res X.

#[export] Instance SM_ret {S} : MRet (SM S) := fun X x s => (s, Ret x).
#[export] Instance SM_bind {S} : MBind (SM S) := fun X Y f m s =>
  match m s with
  | (s, Ret x) => f x s
  | (s, NotDone) => (s, NotDone)
  | (s, Panicked) => (s, Panicked)
  | (s, Hangs) => (s, Hangs)
  end.

Definition stop {S X} (r : Res X) : SM S X := fun s => (s, r).
Definition get {S} : SM S S := fun s => (s, Ret s).
Definition update {S} (f : S -> S) : SM S unit := fun s => (f s, Ret tt).
Definition require {S} (b : bool) : SM S unit := if b then mret tt else stop Panicked.
(** [ok_or(())?] *)
Definition ok_or {S X} (o : option X) : SM S X := match o with Some x => mret x | None => stop NotDone end.
(** A call on a part of the state. *)
Definition zoom {S A X} (view : S -> A) (put : A -> S -> S) (m : SM A X) : SM S X := fun s =>
  let '(a, x) := m (view s) in (put a s, x).

(** ** Sockets *)

Definition retries (e : ErrorKind) : bool :=
  match e with WouldBlock | Interrupted | NotConnected => true | _ => false end.

(** Once the socket has no more answers every attempt would block. *)
Fixpoint blocking_write_loop (fuel : nat) (s : TcpStream) (buffer : list Z) : TcpStream * option (unit + ErrorKind) :=
  match buffer with
  | [] => (s, Some (inl tt))
  | _ =>
      match fuel with
      | O => (s, None)
      | S fuel =>
          match stream_write s buffer with
          | (s, inl i) => blocking_write_loop fuel s (drop (Z.to_nat i) buffer)
          | (s, inr e) => if retries e then blocking_write_loop fuel s buffer else (s, Some (inr e))
          end
      end
  end.
Definition blocking_write (s : TcpStream) (buffer : list Z) : TcpStream * option (unit + ErrorKind) :=
  blocking_write_loop (length (outgoing s)) s buffer.

Fixpoint blocking_read_loop (fuel : nat) (s : TcpStream) (len : nat) : TcpStream * option (list Z + ErrorKind) :=
  match len with
  | O => (s, Some (inl []))
  | _ =>
      match fuel with
      | O => (s, None)
      | S fuel =>
          match stream_read s len with
          | (s, inl bytes) =>
              let '(s, res) := blocking_read_loop fuel s (len - length bytes) in
              (s, match res with Some (inl more) => Some (inl (bytes ++ more)) | _ => res end)
          | (s, inr e) => if retries e then blocking_read_loop fuel s len else (s, Some (inr e))
          end
      end
  end.
Definition blocking_read (s : TcpStream) (len : nat) : TcpStream * option (list Z + ErrorKind) :=
  blocking_read_loop (length (incoming s)) s len.

(** [.unwrap()] *)
Definition unwrapped {X} (x : option (X + ErrorKind)) : Res X :=
  match x with Some (inl x) => Ret x | Some (inr _) => Panicked | None => Hangs end.
Definition send (bytes : list Z) : SM TcpStream unit := fun s =>
  let '(s, res) := blocking_write s bytes in (s, unwrapped res).
Definition recv (len : nat) : SM TcpStream (list Z) := fun s =>
  let '(s, res) := blocking_read s len in (s, unwrapped res).

(** ** What is read in pieces *)

Record Reader := mkReader { rd_buffer : list Z; rd_read : Z }.
Definition reader_new (size : nat) : Reader := mkReader (replicate size 0) 0.

Definition try_fill_from : SM (Reader * TcpStream) bool := fun '(rd, s) =>
  let len := zlen (rd_buffer rd) in
  if len <? rd_read rd then (rd, s, Panicked)
  else if len =? rd_read rd then (rd, s, Ret true)
  else
    match stream_read s (Z.to_nat (len - rd_read rd)) with
    | (s, inl bytes) =>
        let at_ := Z.to_nat (rd_read rd) in
        let buffer := take at_ (rd_buffer rd) ++ bytes ++ drop (at_ + length bytes) (rd_buffer rd) in
        let read := rd_read rd + zlen bytes in
        (mkReader buffer read, s, Ret (len =? read))
    | (s, inr _) => (rd, s, NotDone)
    end.

Inductive IdRead := IdPending (reader : Reader) | IdDone (id : Addr).
Inductive ClientType := Client | Server.
Inductive DownRead := DownPending (reader : Reader) | DownClient | DownServer.

#[export] Instance Reader_eq_dec : EqDecision Reader.
Proof. solve_decision. Defined.
#[export] Instance ClientType_eq_dec : EqDecision ClientType.
Proof. solve_decision. Defined.
#[export] Instance DownRead_eq_dec : EqDecision DownRead.
Proof. solve_decision. Defined.

(** [IdRead::try_read_from]: the name, and whether this call read it. *)
Definition read_id : SM (IdRead * TcpStream) (option (Addr * bool)) := fun '(i, s) =>
  match i with
  | IdDone id => (i, s, Ret (Some (id, false)))
  | IdPending rd =>
      match try_fill_from (rd, s) with
      | (rd, s, Ret true) =>
          let id := Ipv4SocketAddr.from_bytes (rd_buffer rd) in (IdDone id, s, Ret (Some (id, true)))
      | (rd, s, Ret false) => (IdPending rd, s, Ret None)
      | (rd, s, NotDone) => (IdPending rd, s, NotDone)
      | (rd, s, Panicked) => (IdPending rd, s, Panicked)
      | (rd, s, Hangs) => (IdPending rd, s, Hangs)
      end
  end.

Definition unwrap_id (i : IdRead) : Res Addr := match i with IdDone id => Ret id | IdPending _ => Panicked end.

(** [ClientTypeReader]: a byte that names neither is [unreachable!()]. *)
Definition client_type (byte : Z) : Res ClientType :=
  if byte =? 1 then Ret Server else if byte =? 2 then Ret Client else Panicked.

(** [DownRead::try_read_from] *)
Definition read_type : SM (DownRead * TcpStream) (option ClientType) := fun '(d, s) =>
  match d with
  | DownClient => (d, s, Ret (Some Client))
  | DownServer => (d, s, Ret (Some Server))
  | DownPending rd =>
      match try_fill_from (rd, s) with
      | (rd, s, Ret true) =>
          match client_type (default 0 (head (rd_buffer rd))) with
          | Ret kind => (match kind with Client => DownClient | Server => DownServer end, s, Ret (Some kind))
          | _ => (DownPending rd, s, Panicked)
          end
      | (rd, s, Ret false) => (DownPending rd, s, Ret None)
      | (rd, s, NotDone) => (DownPending rd, s, NotDone)
      | (rd, s, Panicked) => (DownPending rd, s, Panicked)
      | (rd, s, Hangs) => (DownPending rd, s, Hangs)
      end
  end.

(** ** Negotiations *)

Record UpState := mkUp { upstream : TcpStream; up_ready : Reader; id2 : IdRead; up_token : Z }.

Record NegotiateState := mkState {
  downstream : TcpStream;
  token : Z;
  server_ready : Reader;
  id : IdRead;
  down_type : DownRead;
  up : option UpState;
}.

Definition with_down (s : TcpStream) (st : NegotiateState) : NegotiateState :=
  mkState s (token st) (server_ready st) (id st) (down_type st) (up st).
Definition with_up (u : option UpState) (st : NegotiateState) : NegotiateState :=
  mkState (downstream st) (token st) (server_ready st) (id st) (down_type st) u.

(** The parts of a negotiation that are read together with a socket. *)
Definition on_ready {X} : SM (Reader * TcpStream) X -> SM NegotiateState X :=
  zoom (fun st => (server_ready st, downstream st))
       (fun '(rd, s) st => mkState s (token st) rd (id st) (down_type st) (up st)).
Definition on_type {X} : SM (DownRead * TcpStream) X -> SM NegotiateState X :=
  zoom (fun st => (down_type st, downstream st))
       (fun '(d, s) st => mkState s (token st) (server_ready st) (id st) d (up st)).
Definition on_id {X} : SM (IdRead * TcpStream) X -> SM NegotiateState X :=
  zoom (fun st => (id st, downstream st))
       (fun '(i, s) st => mkState s (token st) (server_ready st) i (down_type st) (up st)).
Definition on_down {X} : SM TcpStream X -> SM NegotiateState X := zoom downstream with_down.
(** The [UpState] that is there. *)
Definition on_up {X} (m : SM UpState X) : SM NegotiateState X := fun st =>
  match up st with
  | Some u => let '(u, x) := m u in (with_up (Some u) st, x)
  | None => (st, Panicked)
  end.
Definition on_up_ready {X} : SM (Reader * TcpStream) X -> SM UpState X :=
  zoom (fun u => (up_ready u, upstream u)) (fun '(rd, s) u => mkUp s rd (id2 u) (up_token u)).
Definition on_id2 {X} : SM (IdRead * TcpStream) X -> SM UpState X :=
  zoom (fun u => (id2 u, upstream u)) (fun '(i, s) u => mkUp s (up_ready u) i (up_token u)).
Definition on_upstream {X} : SM TcpStream X -> SM UpState X :=
  zoom upstream (fun s u => mkUp s (up_ready u) (id2 u) (up_token u)).

(** What can be read of the greeting; the name, and whether this call read it. *)
Definition greet : SM NegotiateState (ClientType * Addr * bool) :=
  ready ← on_ready try_fill_from;
  _ ← (if (ready : bool) then mret tt else stop NotDone : SM _ unit);
  kind ← on_type read_type;
  kind ← ok_or kind;
  got ← on_id read_id;
  '(i, first) ← ok_or got;
  mret (kind, i, first).

(** ** The negotiator *)

Inductive Position := Solo | Head | Tail | Mid.
#[export] Instance Position_eq_dec : EqDecision Position.
Proof. solve_decision. Defined.

Record Negotiator := mkNegotiator {
  for_id : gmap Addr Z;
  for_token : gmap Z Z;
  position : Position;
  states : gmap Z NegotiateState;          (* what the references refer to *)
}.

Definition negotiator_new (p : Position) : Negotiator := mkNegotiator ∅ ∅ p ∅.

Definition with_ids (m : gmap Addr Z) (n : Negotiator) : Negotiator := mkNegotiator m (for_token n) (position n) (states n).
Definition with_tokens (m : gmap Z Z) (n : Negotiator) : Negotiator := mkNegotiator (for_id n) m (position n) (states n).
Definition with_states (m : gmap Z NegotiateState) (n : Negotiator) : Negotiator :=
  mkNegotiator (for_id n) (for_token n) (position n) m.

Abbreviation Neg := (SM Negotiator).

(** [borrow_mut()] of a reference *)
Definition on_state {X} (r : Z) (m : SM NegotiateState X) : Neg X := fun n =>
  match states n !! r with
  | Some st => let '(st, x) := m st in (with_states (<[r := st]> (states n)) n, x)
  | None => (n, Panicked)
  end.
Definition borrow (r : Z) : Neg NegotiateState := on_state r get.

(** [Rc::try_unwrap(r).unwrap()], where the caller's reference is the only one that is in no table. *)
Definition referenced (r : Z) (n : Negotiator) : bool :=
  negb (bool_decide (map_Forall (fun _ x => x <> r) (for_id n)) && bool_decide (map_Forall (fun _ x => x <> r) (for_token n))).
Definition try_unwrap (r : Z) : Neg NegotiateState := fun n =>
  match states n !! r with
  | Some st => if referenced r n then (n, Panicked) else (with_states (delete r (states n)) n, Ret st)
  | None => (n, Panicked)
  end.

(** [Rc::new] *)
Definition rc_new (st : NegotiateState) : Neg Z := fun n =>
  let r := base.fresh (dom (states n) : gset Z) in (with_states (<[r := st]> (states n)) n, Ret r).

Section Negotiate.
Context `{Build}.

Definition dev_require {S} (b : bool) : SM S unit := if debug_assertions then require b else mret tt.

(** The client's side of a pair joins that of the server. *)
Definition copy_to (to_ref from_ref : Z) : Neg unit :=
  f ← borrow from_ref;
  t ← borrow to_ref;
  _ ← update (fun n => with_tokens (<[token t := to_ref]> (<[token f := to_ref]> (for_token n))) n);
  from ← try_unwrap from_ref;
  _ ← dev_require (bool_decide (down_type from = DownClient));
  on_state to_ref
    (to ← get;
     _ ← dev_require (bool_decide (down_type to = DownServer));
     _ ← dev_require (match up to with None => true | Some _ => false end);
     update (with_up (Some (mkUp (downstream from) (server_ready from) (id from) (token from))))).

(** The negotiation of the other side of the pair, if there is one, joins this one or the other
    way round; the result is the negotiation that goes on. *)
Definition pair_up (r : Z) (kind : ClientType) (i : Addr) (first : bool) : Neg Z :=
  n ← get;
  match for_id n !! i with
  | None =>
      _ ← update (with_ids (<[i := r]> (for_id n)));
      _ ← (if bool_decide (kind = Server /\ position n = Head)
           then on_state r (on_down (send (Ipv4SocketAddr.bytes i))) else mret tt);
      mret r
  | Some other =>
      if first && negb (bool_decide (other = r)) then
        _ ← require (bool_decide (position n = Head));
        r ← (match kind with
             | Server =>
                 _ ← on_state r (on_down (send (Ipv4SocketAddr.bytes i)));
                 _ ← update (with_ids (<[i := r]> (for_id n)));
                 _ ← copy_to r other;
                 mret r
             | Client => _ ← copy_to other r; mret other
             end);
        st ← borrow r;
        _ ← dev_require (bool_decide (down_type st = DownServer));
        mret r
      else mret r
  end.

Definition position_kind (p : Position) (kind : ClientType) : bool :=
  match p with Tail => bool_decide (kind = Client) | Mid => bool_decide (kind = Server) | _ => false end.

(** What the position of the server asks for. *)
Definition join (p : Position) (tok : Z) (kind : ClientType) (i : Addr) (connect : option TcpStream) : SM NegotiateState unit :=
  match p with
  | Solo => on_down (send (Ipv4SocketAddr.bytes i))
  | Tail | Mid =>
      _ ← require (position_kind p kind);
      st ← get;
      _ ← (match up st with
           | Some _ => mret tt
           | None =>
               match connect with
               | Some s => update (with_up (Some (mkUp s (reader_new 1) (IdPending (reader_new 16)) tok)))
               | None => stop Panicked
               end
           end);
      ready ← on_up (on_up_ready try_fill_from);
      _ ← (if (ready : bool) then mret tt else stop NotDone : SM _ unit);
      _ ← on_up (on_upstream (send [1]));
      _ ← on_up (on_upstream (send (Ipv4SocketAddr.bytes i)));
      got ← on_up (on_id2 read_id);
      '(i2, _) ← ok_or got;
      _ ← require (bool_decide (i2 = i));
      _ ← require (position_kind p kind);
      on_down (send (Ipv4SocketAddr.bytes i))
  | Head =>
      st ← get;
      _ ← ok_or (up st);
      _ ← require (bool_decide (down_type st = DownServer));
      got ← on_up (on_id2 read_id);
      '(i2, _) ← ok_or got;
      _ ← require (bool_decide (i2 = i));
      on_up (on_upstream (send (Ipv4SocketAddr.bytes i)))
  end.

Definition NewClientOf : Type := Addr * Z * TcpStream * option (Z * TcpStream).

Definition into_new_client (st : NegotiateState) : Res NewClientOf :=
  match unwrap_id (id st) with
  | Ret i =>
      Ret (match up st with
           | None => (i, token st, downstream st, None)
           | Some u => (i, token st, upstream u, Some (token st, downstream st))
           end)
  | _ => Panicked
  end.

(** The negotiation is over: it leaves the tables. *)
Definition finish (r : Z) (i : Addr) : Neg NewClientOf :=
  _ ← update (fun n => with_ids (delete i (for_id n)) n);
  c ← borrow r;
  _ ← update (fun n => with_tokens (delete (token c) (for_token n)) n);
  _ ← update (fun n => match up c with Some u => with_tokens (delete (up_token u) (for_token n)) n | None => n end);
  st ← try_unwrap r;
  stop (into_new_client st).

Definition handle_event (tok : Z) (connect : option TcpStream) : Neg NewClientOf :=
  n ← get;
  r ← ok_or (for_token n !! tok);
  '(kind, i, first) ← on_state r greet;
  r ← pair_up r kind i first;
  _ ← on_state r (join (position n) tok kind i connect);
  finish r i.

(** (The token is taken before the zero byte is sent; if either fails the thread ends.) *)
Definition got_connection (socket : TcpStream) (tok : Z) (connect : option TcpStream) : Neg NewClientOf :=
  let '(socket, res) := send [0] socket in
  _ ← stop res;
  r ← rc_new (mkState socket tok (mkReader [0] 1) (IdPending (reader_new 16)) (DownPending (reader_new 1)) None);
  _ ← update (fun n => with_tokens (<[tok := r]> (for_token n)) n);
  handle_event tok connect.
End Negotiate.

(** ** The accepting thread *)

Record Dist := mkDist {
  negotiator : Negotiator;
  d_next_token : Z;
  worker_for_client : gmap Addr (Z * Z);
  dist_to_workers : list (list DistToWorker);
}.

Definition dist_new (p : Position) (num_workers : Z) : Dist :=
  mkDist (negotiator_new p) FIRST_CLIENT_TOKEN ∅ (replicate (Z.to_nat (Z.max num_workers 1)) []).

(** [checked_add(1).unwrap()] *)
Definition get_next_token (tok : Z) : Res Z := if tok =? u64_max then Panicked else Ret (tok + 1).

(** [UuidHasher] on the 16 bytes of a name. *)
Definition uuid_hash (i : Addr) : Z :=
  Z.lxor (le_value (take 8 (Ipv4SocketAddr.bytes i))) (le_value (drop 8 (Ipv4SocketAddr.bytes i))).
Definition worker_for_ip (i : Addr) (num_workers : Z) : Z := uuid_hash i mod num_workers.

(** What a poll of the thread can give; a [connect] that this leads to returns [connect]. *)
Inductive DistEvent := Accepted (socket : TcpStream) | AcceptFailed | ReadyFor (tok : Z).

Section Dist.
Context `{Build}.

(** A client is given to its worker. *)
Definition new_client (c : NewClientOf) (d : Dist) : Dist * Res unit :=
  let '(i, tok, up_stream, down) := c in
  let worker := worker_for_ip i (zlen (dist_to_workers d)) in
  match worker_for_client d !! i with
  | Some _ => (d, Panicked)
  | None =>
      match dist_to_workers d !! Z.to_nat worker with
      | None => (d, Panicked)
      | Some q =>
          (mkDist (negotiator d) (d_next_token d) (<[i := (worker, tok)]> (worker_for_client d))
                  (<[Z.to_nat worker := q ++ [NewClient tok up_stream down i]]> (dist_to_workers d)), Ret tt)
      end
  end.

(** A negotiation that is not over is left as it is. *)
Definition negotiated (d : Dist) (m : Neg NewClientOf) : Dist * Res unit :=
  let '(n, res) := m (negotiator d) in
  let d := mkDist n (d_next_token d) (worker_for_client d) (dist_to_workers d) in
  match res with
  | Ret c => new_client c d
  | NotDone => (d, Ret tt)
  | Panicked => (d, Panicked)
  | Hangs => (d, Hangs)
  end.

Definition dist_event (d : Dist) (ev : DistEvent) (connect : option TcpStream) : Dist * Res unit :=
  match ev with
  | AcceptFailed => (d, Ret tt)
  | Accepted socket =>
      match get_next_token (d_next_token d) with
      | Ret tok => negotiated (mkDist (negotiator d) tok (worker_for_client d) (dist_to_workers d)) (got_connection socket tok connect)
      | _ => (d, Panicked)
      end
  | ReadyFor tok =>
      if (tok =? 1) || (tok =? 2) then (d, Panicked)
      else negotiated d (handle_event tok connect)
  end.

Fixpoint dist_run (d : Dist) (evs : list (DistEvent * option TcpStream)) : Dist * Res unit :=
  match evs with
  | [] => (d, Ret tt)
  | (ev, connect) :: evs =>
      match dist_event d ev connect with
      | (d, Ret _) => dist_run d evs
      | res => res
      end
  end.
End Dist.

(** ** The client's side ([AsyncTcpStore::build] of [fuzzy_log_client/src/store.rs]) *)

Definition client_greets (i : Addr) : SM TcpStream unit :=
  _ ← recv 1; _ ← send [2]; send (Ipv4SocketAddr.bytes i).
Definition client_acked (i : Addr) : SM TcpStream unit :=
  ack ← recv 16; require (bool_decide (Ipv4SocketAddr.from_bytes ack = i)).

Fixpoint each (m : SM TcpStream unit) (streams : list TcpStream) : list TcpStream * Res unit :=
  match streams with
  | [] => ([], Ret tt)
  | s :: streams =>
      match m s with
      | (s, Ret _) => let '(streams, res) := each m streams in (s :: streams, res)
      | (s, res) => (s :: streams, res)
      end
  end.

(** All servers are greeted, the last one first, before the first answer is read. *)
Definition client_connects (i : Addr) (servers : list TcpStream) : list TcpStream * Res unit :=
  match each (client_greets i) (rev servers) with
  | (servers, Ret _) => let '(servers, res) := each (client_acked i) servers in (rev servers, res)
  | (servers, res) => (rev servers, res)
  end.

(** ** The thread of the ordering log *)

Section LogThread.
Context `{Build} {A : Type} `{ByteTrie A}.

Definition log_message (m : ToLog) : @M Origin A unit :=
  match m with
  | LogNew buffer storage st => handle_op buffer storage st
  | LogReplication tr st => handle_replication tr st
  | LogRecovery recovery st => handle_recovery recovery st
  end.
End LogThread.

(** [send_to_worker]: the queue of the worker the request came from. *)
Definition send_to_worker (queues : list (list (ToWorker Origin))) (msg : ToWorker Origin)
  : outcome (list (list (ToWorker Origin))) :=
  let '(which_queue, _, _) := get_associated_data msg in
  q ← unwrap (queues !! Z.to_nat which_queue);
  Done (<[Z.to_nat which_queue := q ++ [msg]]> queues).
