(* ===== verification/AcceptorSafety.v ===== *)
(** * What the accepting thread guarantees

    At a server that is alone or at the head of its chain, whatever the order in which connections
    are accepted and their bytes come: the thread does not panic, each client is given to one
    worker, once, with its own connection and (at the head) the connection of the next server that
    came for it, and no pair that has been read is left waiting ([acceptor_pairs]). *)

From stdpp Require Import base gmap list.
From Stdlib Require Import ZArith Lia.
From S2P Require Import Prelude PacketCodec Packets Trie OrderingThread WorkerThread.
From S2P Require Import DoubleBuffer Reactor ReactorSafety Transport ServerTcp Acceptor.
Open Scope Z_scope.

(** ** Steps of a call *)

Lemma bind_ret {S X Y} (m : SM S X) (f : X -> SM S Y) s s' x : m s = (s', Ret x) -> (m ≫= f) s = f x s'.
Proof. intros E. unfold mbind, SM_bind. by rewrite E. Qed.

Lemma bind_not_done {S X Y} (m : SM S X) (f : X -> SM S Y) s s' : m s = (s', NotDone) -> (m ≫= f) s = (s', NotDone).
Proof. intros E. unfold mbind, SM_bind. by rewrite E. Qed.

(** ** Sockets *)

(** A socket that takes [n] bytes, sooner or later. *)
Definition takes (a : WriteAnswer) : bool := match a with Took (S _) => true | _ => false end.
Definition patient (a : WriteAnswer) : bool := match a with Took _ => true | WriteErr e => retries e end.
Definition sock_ok (n : nat) (s : TcpStream) : Prop :=
  forallb patient (outgoing s) = true /\ (n <= length (List.filter takes (outgoing s)))%nat.

Lemma write_loop_spec fuel : forall s bytes k,
  (length (outgoing s) <= fuel)%nat -> sock_ok (length bytes + k) s ->
  exists s', blocking_write_loop fuel s bytes = (s', Some (inl tt)) /\ sock_ok k s' /\
    sent s' = sent s ++ bytes /\ incoming s' = incoming s.
Proof.
  induction fuel as [|fuel IH]; intros s bytes k Hf [Hp Hk].
  { destruct (outgoing s) eqn:Eo; [|cbn in Hf; lia]. destruct bytes; [|cbn in Hk; lia]. exists s. cbn.
    rewrite app_nil_r. split_and!; try done. unfold sock_ok. by rewrite Eo. }
  destruct bytes as [|b bytes].
  { exists s. cbn. rewrite app_nil_r. by split_and!. }
  cbn [blocking_write_loop]. unfold stream_write. destruct (outgoing s) as [|[n|e] rest] eqn:Eo; [cbn in Hk; lia| |].
  - set (took := take n (b :: bytes)). set (s1 := mkStream _ _ _ _ _).
    destruct (IH s1 (drop (Z.to_nat (zlen took)) (b :: bytes)) k) as (s' & -> & Hs' & Hsent & Hin).
    + cbn. cbn in Hf. lia.
    + cbn in Hp. split; [done|]. cbn [s1 outgoing]. cbn [List.filter] in Hk. unfold took, zlen.
      rewrite Nat2Z.id, length_drop, length_take. cbn [length] in *. destruct n; cbn in Hk |- *; lia.
    + exists s'. split_and!; try done. rewrite Hsent. cbn [s1 sent]. rewrite <-app_assoc. f_equal.
      unfold took, zlen. rewrite Nat2Z.id, length_take. destruct (decide (n <= length (b :: bytes))%nat).
      * rewrite Nat.min_l by done. apply take_drop.
      * rewrite Nat.min_r by lia. rewrite take_ge, drop_ge by lia. by rewrite app_nil_r.
  - cbn in Hp. apply andb_true_iff in Hp as [He Hp]. rewrite He.
    set (s1 := mkStream _ _ _ _ _). destruct (IH s1 (b :: bytes) k) as (s' & -> & Hs' & Hsent & Hin).
    + cbn. cbn in Hf. lia.
    + split; [done|]. done.
    + exists s'. split_and!; try done. rewrite Hsent. cbn [s1 sent]. by rewrite app_nil_r.
Qed.

Lemma send_spec bytes k s : sock_ok (length bytes + k) s ->
  exists s', send bytes s = (s', Ret tt) /\ sock_ok k s' /\ sent s' = sent s ++ bytes /\ to_come s' = to_come s.
Proof.
  intros Hs. unfold send, blocking_write.
  destruct (write_loop_spec (length (outgoing s)) s bytes k ltac:(lia) Hs) as (s' & -> & Hs' & Hsent & Hin).
  exists s'. split_and!; try done. unfold to_come. by rewrite Hin.
Qed.

Lemma read_spec s n :
  exists s' res, stream_read s n = (s', res) /\ sent s' = sent s /\ outgoing s' = outgoing s /\
  match res with
  | inl bytes => (length bytes <= n)%nat /\ to_come s = bytes ++ to_come s'
  | inr e => to_come s' = to_come s
  end.
Proof.
  unfold stream_read, to_come. destruct (incoming s) as [|[bytes|e] rest] eqn:Ei; cbn.
  - eexists _, _. split; [reflexivity|]. by split_and!.
  - destruct (_ <=? _)%nat eqn:El; eexists _, _; (split; [reflexivity|]); cbn; split_and!; try done.
    + by apply Nat.leb_le.
    + rewrite length_take. lia.
    + by rewrite app_assoc, take_drop.
  - eexists _, _. split; [reflexivity|]. by split_and!.
Qed.

(** *** Readers *)

Definition rd_ok (size : nat) (rd : Reader) : Prop := length (rd_buffer rd) = size /\ 0 <= rd_read rd <= Z.of_nat size.
Definition rd_got (rd : Reader) : list Z := take (Z.to_nat (rd_read rd)) (rd_buffer rd).

Lemma fill_reader size rd s : rd_ok size rd -> rd_read rd < Z.of_nat size ->
  exists rd' s' res, try_fill_from (rd, s) = (rd', s', res) /\ rd_ok size rd' /\ sent s' = sent s /\ outgoing s' = outgoing s /\
    rd_got rd ++ to_come s = rd_got rd' ++ to_come s' /\
    (res = Ret true /\ rd_got rd' = rd_buffer rd' \/ (res = Ret false \/ res = NotDone) /\ rd_read rd' < Z.of_nat size).
Proof.
  intros [Hl Hr] Hlt. unfold try_fill_from. unfold zlen. rewrite Hl.
  rewrite (proj2 (Z.ltb_ge _ _)), (proj2 (Z.eqb_neq _ _)) by lia.
  destruct (read_spec s (Z.to_nat (Z.of_nat size - rd_read rd))) as (s' & res & -> & Hsent & Hout & Hres).
  destruct res as [bytes|e].
  - destruct Hres as [Hn Hc]. eexists _, _, _. split; [reflexivity|].
    set (at_ := Z.to_nat (rd_read rd)). set (buf := take at_ _ ++ _).
    assert (Hlen : length (take at_ (rd_buffer rd)) = at_) by (rewrite length_take; unfold at_; lia).
    assert (Hbuf : length buf = size) by (unfold buf; rewrite !length_app, Hlen, length_drop; unfold at_ in *; lia).
    assert (Hgot : take (Z.to_nat (rd_read rd + Z.of_nat (length bytes))) buf = rd_got rd ++ bytes).
    { unfold rd_got, buf. fold at_. rewrite app_assoc, take_app_length'; [done|]. rewrite length_app, Hlen.
      unfold at_. lia. }
    split_and!; try done.
    + split; [done|]. cbn. lia.
    + unfold rd_got at 2. cbn [rd_read rd_buffer]. rewrite Hgot, Hc. by rewrite app_assoc.
    + destruct (_ =? _) eqn:E.
      * left. split; [done|]. unfold rd_got. cbn [rd_read rd_buffer]. apply Z.eqb_eq in E. rewrite take_ge; [done|]. lia.
      * right. split; [by left|]. apply Z.eqb_neq in E. cbn [rd_read]. lia.
  - eexists _, _, _. split; [reflexivity|]. split_and!; try done; [by rewrite Hres|]. right. split; [by right|done].
Qed.

(** ** The greeting *)

Definition type_byte (k : ClientType) : Z := match k with Server => 1 | Client => 2 end.
Definition down_of (k : ClientType) : DownRead := match k with Server => DownServer | Client => DownClient end.

(** What has been read of the greeting of a client or server [k] with the name [i] is the start of
    it; [rest] is what it sends after it. *)
Record talks (st : NegotiateState) (k : ClientType) (i : Addr) (rest : list Z) : Prop := {
  t_ready : server_ready st = mkReader [0] 1;
  t_heard :
    match id st with
    | IdDone i' => i' = i /\ down_type st = down_of k /\ to_come (downstream st) = rest
    | IdPending rd =>
        rd_ok 16 rd /\ rd_read rd < 16 /\
        (down_type st = down_of k /\ rd_got rd ++ to_come (downstream st) = Ipv4SocketAddr.bytes i ++ rest \/
         exists rt, down_type st = DownPending rt /\ rd_ok 1 rt /\ rd_read rt = 0 /\ rd_read rd = 0 /\
           to_come (downstream st) = type_byte k :: Ipv4SocketAddr.bytes i ++ rest)
    end;
}.

Definition same_but (st st' : NegotiateState) : Prop :=
  token st' = token st /\ up st' = up st /\ sent (downstream st') = sent (downstream st) /\
  outgoing (downstream st') = outgoing (downstream st).

Lemma read_type_known k s : read_type (down_of k, s) = (down_of k, s, Ret (Some k)).
Proof. by destruct k. Qed.

Lemma client_type_byte k : client_type (type_byte k) = Ret k.
Proof. by destruct k. Qed.

Lemma read_type_spec k tail rt s : rd_ok 1 rt -> rd_read rt = 0 -> to_come s = type_byte k :: tail ->
  exists d s' res, read_type (DownPending rt, s) = (d, s', res) /\ sent s' = sent s /\ outgoing s' = outgoing s /\
    (res = Ret (Some k) /\ d = down_of k /\ to_come s' = tail \/
     (res = Ret None \/ res = NotDone) /\ to_come s' = to_come s /\ exists rt', d = DownPending rt' /\ rd_ok 1 rt' /\ rd_read rt' = 0).
Proof.
  intros Hrt H0 Hc. cbn [read_type].
  destruct (fill_reader 1 rt s Hrt ltac:(lia)) as (rt' & s' & res & -> & Hrt' & Hs & Ho & Hgot & Hres).
  assert (Hg0 : rd_got rt = []) by (unfold rd_got; by rewrite H0). rewrite Hg0, Hc in Hgot. cbn in Hgot.
  destruct Hres as [[-> Hfull]|[Hres Hlt]].
  - destruct Hrt' as [Hl _]. rewrite Hfull in Hgot. destruct (rd_buffer rt') as [|b [|]]; try done.
    injection Hgot as <- Ht. change (default 0 (head [type_byte k])) with (type_byte k). rewrite client_type_byte.
    eexists _, _, _. split; [reflexivity|]. split_and!; try done. left. split_and!; [done|by destruct k|done].
  - pose proof Hrt' as [Hl Hr']. assert (H0' : rd_read rt' = 0) by lia.
    assert (Hg' : rd_got rt' = []) by (unfold rd_got; by rewrite H0').
    destruct Hres as [-> | ->]; eexists _, _, _; (split; [reflexivity|]); split_and!; try done; right;
      (split_and!; [by auto| |by eexists]); rewrite Hg' in Hgot; by rewrite Hc.
Qed.

Lemma read_id_spec i rest rd s : Ipv4SocketAddr.wf i ->
  rd_ok 16 rd -> rd_read rd < 16 -> rd_got rd ++ to_come s = Ipv4SocketAddr.bytes i ++ rest ->
  exists d s' res, read_id (IdPending rd, s) = (d, s', res) /\ sent s' = sent s /\ outgoing s' = outgoing s /\
    (res = Ret (Some (i, true)) /\ d = IdDone i /\ to_come s' = rest \/
     (res = Ret None \/ res = NotDone) /\ exists rd', d = IdPending rd' /\ rd_ok 16 rd' /\ rd_read rd' < 16 /\
       rd_got rd' ++ to_come s' = Ipv4SocketAddr.bytes i ++ rest).
Proof.
  intros Hw Hrd Hlt Hg. cbn [read_id].
  destruct (fill_reader 16 rd s Hrd ltac:(lia)) as (rd' & s' & res & -> & Hrd' & Hs & Ho & Hgot & Hres).
  rewrite Hg in Hgot. destruct Hres as [[-> Hfull]|[Hres Hlt']].
  - destruct Hrd' as [Hl _]. rewrite Hfull in Hgot. apply app_inj_1 in Hgot as [Hb Ht]; [|by rewrite Hl].
    eexists _, _, _. split; [reflexivity|]. split_and!; try done. left. rewrite <-Hb. by destruct i.
  - destruct Hres as [-> | ->]; eexists _, _, _; (split; [reflexivity|]); split_and!; try done; right;
      (split; [by auto|]); eexists; split_and!; try done.
Qed.

Lemma greet_spec st k i rest : talks st k i rest -> Ipv4SocketAddr.wf i ->
  exists st' res, greet st = (st', res) /\ talks st' k i rest /\ same_but st st' /\
    (res = Ret (k, i, false) /\ st' = st /\ id st = IdDone i \/
     res = Ret (k, i, true) /\ id st' = IdDone i /\ (exists rd, id st = IdPending rd) \/
     res = NotDone /\ (exists rd, id st' = IdPending rd) /\ exists rd, id st = IdPending rd).
Proof.
  intros [Hr Hh] Hw. destruct st as [s tok ready ir dt u]. cbn in Hr, Hh. subst ready. unfold greet.
  erewrite bind_ret; [|reflexivity]. cbn [fst snd]. erewrite bind_ret; [|reflexivity].
  assert (Hid : forall s1 (Hs : sent s1 = sent s) (Ho : outgoing s1 = outgoing s) rd,
    rd_ok 16 rd -> rd_read rd < 16 -> rd_got rd ++ to_come s1 = Ipv4SocketAddr.bytes i ++ rest -> ir = IdPending rd ->
    exists st' res, (got ← on_id read_id; '(i, first) ← ok_or got; mret (k, i, first))
        (mkState s1 tok (mkReader [0] 1) ir (down_of k) u) = (st', res) /\
      talks st' k i rest /\ same_but (mkState s tok (mkReader [0] 1) ir dt u) st' /\
      (res = Ret (k, i, true) /\ id st' = IdDone i \/ res = NotDone /\ exists rd, id st' = IdPending rd)).
  { intros s1 Hs Ho rd Hrd Hlt Hg ->.
    destruct (read_id_spec i rest rd s1 Hw Hrd Hlt Hg) as (d & s' & res & E & Hs' & Ho' & Hres).
    unfold mbind at 1, SM_bind at 1, on_id, zoom. cbn [id downstream]. rewrite E. cbn [token server_ready down_type up].
    destruct Hres as [(-> & -> & Hc)|(Hres & rd' & -> & Hrd' & Hlt' & Hg')].
    - eexists _, _. split; [reflexivity|]. split; [by constructor|]. split; [|by left].
      unfold same_but. cbn. by rewrite Hs', Ho'.
    - assert (Ht : talks (mkState s' tok (mkReader [0] 1) (IdPending rd') (down_of k) u) k i rest).
      { constructor; [done|]. cbn. split_and!; try done. by left. }
      destruct Hres as [-> | ->]; eexists _, _; (split; [reflexivity|]); (split; [done|]); (split; [|right; split; [done|by eexists]]);
        unfold same_but; cbn; by rewrite Hs', Ho'. }
  destruct ir as [rd|i'].
  - destruct Hh as (Hrd & Hlt & Hh). destruct Hh as [[-> Hg]|(rt & -> & Hrt & H0 & H1 & Hc)].
    + unfold on_type at 1. unfold mbind at 1, SM_bind at 1, zoom at 1. cbn [down_type downstream]. rewrite read_type_known.
      erewrite bind_ret; [|reflexivity]. cbn [token server_ready id down_type up downstream].
      destruct (Hid s eq_refl eq_refl rd Hrd Hlt Hg eq_refl) as (st' & res & -> & Ht & Hsb & Hres).
      eexists _, _. split; [reflexivity|]. split; [done|]. split; [done|]. right.
      destruct Hres as [[-> ?]|[-> ?]]; [left|right]; split_and!; try done; by eexists.
    + destruct (read_type_spec k _ rt s Hrt H0 Hc) as (d & s' & res & E & Hs' & Ho' & Hres).
      unfold on_type at 1. unfold mbind at 1, SM_bind at 1, zoom at 1. cbn [down_type downstream]. rewrite E.
      cbn [token server_ready id up].
      destruct Hres as [(-> & -> & Hc')|(Hres & Hc' & rt' & -> & Hrt' & H0')].
      * erewrite bind_ret; [|reflexivity].
        assert (Hg : rd_got rd ++ to_come s' = Ipv4SocketAddr.bytes i ++ rest) by (unfold rd_got; by rewrite H1, Hc').
        destruct (Hid s' Hs' Ho' rd Hrd Hlt Hg eq_refl) as (st' & res & -> & Ht & Hsb & Hres).
        eexists _, _. split; [reflexivity|]. split; [done|]. split; [done|]. right.
        destruct Hres as [[-> ?]|[-> ?]]; [left|right]; split_and!; try done; by eexists.
      * assert (Ht : talks (mkState s' tok (mkReader [0] 1) (IdPending rd) (DownPending rt') u) k i rest).
        { constructor; [done|]. cbn. split_and!; try done. right. exists rt'. split_and!; try done. by rewrite Hc'. }
        assert (Hsb : same_but (mkState s tok (mkReader [0] 1) (IdPending rd) (DownPending rt) u)
                        (mkState s' tok (mkReader [0] 1) (IdPending rd) (DownPending rt') u)).
        { unfold same_but. cbn. by rewrite Hs', Ho'. }
        destruct Hres as [-> | ->].
        -- erewrite bind_not_done; [|reflexivity]. eexists _, _. split; [reflexivity|]. split; [done|]. split; [done|].
           right. right. split; [done|]. split; by eexists.
        -- eexists _, _. split; [reflexivity|]. split; [done|]. split; [done|]. right. right. split; [done|]. split; by eexists.
  - destruct Hh as (-> & -> & Hc). unfold on_type at 1. unfold mbind at 1, SM_bind at 1, zoom at 1.
    cbn [down_type downstream]. rewrite read_type_known. erewrite bind_ret; [|reflexivity].
    cbn [token server_ready id down_type up downstream]. eexists _, _. split; [reflexivity|]. split; [by constructor|]. split; [done|]. by left.
Qed.

(** ** References *)

Lemma with_states_id n : with_states (states n) n = n.
Proof. by destruct n. Qed.

Lemma borrow_spec n r st : states n !! r = Some st -> borrow r n = (n, Ret st).
Proof.
  intros Hr. unfold borrow, on_state, get. rewrite Hr. by rewrite insert_id, with_states_id.
Qed.

Lemma on_state_spec {X} n r st (m : SM NegotiateState X) st' x : states n !! r = Some st -> m st = (st', x) ->
  on_state r m n = (with_states (<[r := st']> (states n)) n, x).
Proof. intros Hr Hm. unfold on_state. by rewrite Hr, Hm. Qed.

Lemma try_unwrap_spec n r st : states n !! r = Some st ->
  (forall i, for_id n !! i <> Some r) -> (forall t, for_token n !! t <> Some r) ->
  try_unwrap r n = (with_states (delete r (states n)) n, Ret st).
Proof.
  intros Hr Hi Ht. unfold try_unwrap, referenced. rewrite Hr. rewrite !bool_decide_true; [done|..].
  - intros t x Hx ->. by apply (Ht t).
  - intros i x Hx ->. by apply (Hi i).
Qed.

Section Pairing.
Context `{HB : Build}.

(** The state in which the two sides of a pair are joined: [rs] is the server's negotiation, [rc]
    the client's, and the tables hold each of them where they should and nowhere else. *)
Record pairing (n : Negotiator) (i : Addr) (rs rc : Z) (ss sc : NegotiateState) : Prop := {
  pr_server : states n !! rs = Some ss;
  pr_client : states n !! rc = Some sc;
  pr_diff : rs <> rc;
  pr_types : down_type ss = DownServer /\ down_type sc = DownClient;
  pr_ids : id ss = IdDone i /\ id sc = IdDone i;
  pr_up : up ss = None;
  pr_tokens : forall t r, for_token n !! t = Some r -> (r = rs -> t = token ss) /\ (r = rc -> t = token sc);
  pr_names : forall j r, for_id n !! j = Some r -> (r = rs -> j = i) /\ r <> rc;
}.

Definition joined (sc ss : NegotiateState) : NegotiateState :=
  with_up (Some (mkUp (downstream sc) (server_ready sc) (id sc) (token sc))) ss.

Lemma copy_to_spec n i rs rc ss sc : pairing n i rs rc ss sc ->
  copy_to rs rc n =
    (mkNegotiator (for_id n) (<[token ss := rs]> (<[token sc := rs]> (for_token n))) (position n)
       (<[rs := joined sc ss]> (delete rc (states n))), Ret tt).
Proof.
  intros [Hs Hc Hd [Hts Htc] _ Hup Ht Hn]. unfold copy_to.
  erewrite bind_ret; [|by apply borrow_spec]. erewrite bind_ret; [|by apply borrow_spec].
  erewrite bind_ret; [|reflexivity]. erewrite bind_ret; cycle 1.
  { apply try_unwrap_spec; cbn; [done| |].
    - intros j Hj. by apply Hn in Hj as [_ ?].
    - intros t. destruct (decide (t = token ss)) as [->|]; [rewrite lookup_insert_eq; congruence|].
      rewrite lookup_insert_ne by done. destruct (decide (t = token sc)) as [->|]; [rewrite lookup_insert_eq; congruence|].
      rewrite lookup_insert_ne by done. intros Hr. by apply Ht in Hr as [_ ?%(fun f => f eq_refl)]. }
  assert (forall b, dev_require (S := Negotiator) b = if debug_assertions && negb b then stop Panicked else mret tt) as ->.
  { intros []; unfold dev_require; by destruct debug_assertions. }
  rewrite bool_decide_true by done. rewrite andb_false_r. erewrite bind_ret; [|reflexivity].
  erewrite on_state_spec; [|by cbn; rewrite lookup_delete_ne|]; cycle 1.
  { erewrite bind_ret; [|reflexivity]. unfold dev_require. rewrite bool_decide_true by done. rewrite Hup.
    destruct debug_assertions; (erewrite bind_ret; [|reflexivity]); (erewrite bind_ret; [|reflexivity]); reflexivity. }
  done.
Qed.

Lemma join_joined tok k i connect sc ss : down_type ss = DownServer -> id sc = IdDone i -> sock_ok 16 (downstream sc) ->
  Ipv4SocketAddr.wf i ->
  exists s', join Head tok k i connect (joined sc ss) = (with_up (Some (mkUp s' (server_ready sc) (IdDone i) (token sc))) ss, Ret tt) /\
    sent s' = sent (downstream sc) ++ Ipv4SocketAddr.bytes i /\ to_come s' = to_come (downstream sc).
Proof.
  intros Hd Hi Hs Hw. destruct (send_spec (Ipv4SocketAddr.bytes i) 0 (downstream sc)) as (s' & Es & _ & Hsent & Hc).
  { unfold Ipv4SocketAddr.wf in Hw. by rewrite Hw. }
  exists s'. split_and!; try done. unfold join, joined. rewrite Hi. erewrite bind_ret; [|reflexivity]. cbn [with_up up ok_or].
  erewrite bind_ret; [|reflexivity]. rewrite bool_decide_true by done. erewrite bind_ret; [|reflexivity].
  erewrite bind_ret; [|reflexivity]. erewrite bind_ret; [|reflexivity]. cbv beta iota.
  rewrite bool_decide_true by done. erewrite bind_ret; [|reflexivity].
  unfold on_up, on_upstream, zoom. cbn [with_up up upstream]. rewrite Es. done.
Qed.

Lemma finish_negotiation_spec n r i st c :
  states n !! r = Some st -> into_new_client st = Ret c ->
  (forall j, for_id n !! j = Some r -> j = i) ->
  (forall t, for_token n !! t = Some r -> t = token st \/ exists u, up st = Some u /\ t = up_token u) ->
  finish r i n =
    (mkNegotiator (delete i (for_id n))
       (match up st with Some u => delete (up_token u) (delete (token st) (for_token n)) | None => delete (token st) (for_token n) end)
       (position n) (delete r (states n)), Ret c).
Proof.
  intros Hr Hc Hi Ht. unfold finish. erewrite bind_ret; [|reflexivity].
  erewrite bind_ret; [|by apply borrow_spec; cbn]. erewrite bind_ret; [|reflexivity]. erewrite bind_ret; [|reflexivity].
  assert (Hunref : forall t, (match up st with Some u => delete (up_token u) (delete (token st) (for_token n))
                              | None => delete (token st) (for_token n) end) !! t <> Some r).
  { intros t Hl.
    assert (t <> token st /\ for_token n !! t = Some r) as [Hne Hf].
    { destruct (up st) as [u|]; [apply lookup_delete_Some in Hl as [_ Hl]|]; apply lookup_delete_Some in Hl as [? ?]; by split. }
    destruct (Ht t Hf) as [->|(u & Hu & ->)]; [done|]. rewrite Hu in Hl. by rewrite lookup_delete_eq in Hl. }
  destruct (up st) as [u|]; (erewrite bind_ret; [unfold stop; rewrite Hc; reflexivity|]); apply try_unwrap_spec; cbn; try done;
    intros j [? ?%Hi]%lookup_delete_Some; congruence.
Qed.
End Pairing.

(** ** The negotiations under way *)

(** A connection that was accepted: its token, its socket, what it is and its name. *)
Record Peer := mkPeer { p_token : Z; p_socket : TcpStream; p_kind : ClientType; p_id : Addr }.

Definition greets (p : Peer) (rest : list Z) : Prop :=
  to_come (p_socket p) = type_byte (p_kind p) :: Ipv4SocketAddr.bytes (p_id p) ++ rest.

(** What the head has answered a server, when it has its name. *)
Definition acked (pos : Position) (k : ClientType) (i : IdRead) : list Z :=
  match i, pos, k with IdDone i, Head, Server => Ipv4SocketAddr.bytes i | _, _, _ => [] end.

Record negotiates (pos : Position) (p : Peer) (rest : list Z) (st : NegotiateState) : Prop := {
  ng_token : token st = p_token p;
  ng_wf : Ipv4SocketAddr.wf (p_id p);
  ng_greets : greets p rest;
  ng_talks : talks st (p_kind p) (p_id p) rest;
  ng_up : up st = None;
  ng_sent : sent (downstream st) = sent (p_socket p) ++ 0 :: acked pos (p_kind p) (id st);
  ng_sock : acked pos (p_kind p) (id st) = [] -> sock_ok 16 (downstream st);
}.

(** The connections that can be told apart. *)
Definition distinct (pos : Position) (acc : list Peer) : Prop :=
  (forall p q, p ∈ acc -> q ∈ acc -> p_token p = p_token q -> p = q) /\
  (forall p q, p ∈ acc -> q ∈ acc -> p_id p = p_id q -> pos = Solo \/ p_kind p = p_kind q -> p = q).

Record neg_inv (pos : Position) (acc : list Peer) (n : Negotiator) : Prop := {
  ni_position : position n = pos;
  ni_token : forall t r, for_token n !! t = Some r -> exists st, states n !! r = Some st /\ token st = t;
  ni_state : forall r st, states n !! r = Some st ->
    for_token n !! token st = Some r /\ exists p rest, p ∈ acc /\ negotiates pos p rest st;
  ni_name : forall i r, for_id n !! i = Some r -> exists st, states n !! r = Some st /\ id st = IdDone i;
  ni_done : forall r st i, states n !! r = Some st -> id st = IdDone i -> for_id n !! i = Some r;
  ni_solo : pos = Solo -> for_id n = ∅;
}.

(** The socket of a negotiation that is over: the greeting was read, and answered. *)
Definition used (p : Peer) (s : TcpStream) : Prop :=
  greets p (to_come s) /\ sent s = sent (p_socket p) ++ 0 :: Ipv4SocketAddr.bytes (p_id p).

(** What a worker is given: at the head of a chain, the connection of the client and that of the
    server that came for it. *)
Definition handed (pos : Position) (acc : list Peer) (c : NewClientOf) : Prop :=
  let '(i, tok, up_stream, down) := c in
  match pos with
  | Solo => exists p, p ∈ acc /\ p_id p = i /\ p_token p = tok /\ used p up_stream /\ down = None
  | Head => exists pc ps s, pc ∈ acc /\ ps ∈ acc /\ p_kind pc = Client /\ p_kind ps = Server /\ p_id pc = i /\ p_id ps = i /\
      p_token ps = tok /\ used pc up_stream /\ down = Some (tok, s) /\ used ps s
  | _ => False
  end.

Lemma talks_done st k i rest j : talks st k i rest -> id st = IdDone j ->
  j = i /\ down_type st = down_of k /\ to_come (downstream st) = rest.
Proof. intros [_ Ht] Hj. by rewrite Hj in Ht. Qed.

Section Invariant.
Context `{HB : Build}.
Context (pos : Position) (acc : list Peer).
Hypothesis Hpos : pos = Solo \/ pos = Head.
Hypothesis Hdistinct : distinct pos acc.

Abbreviation inv := (neg_inv pos acc).

(** Negotiations of the same connection are the same. *)
Lemma same_peer n r1 r2 st1 st2 p rest1 rest2 : inv n -> states n !! r1 = Some st1 -> states n !! r2 = Some st2 ->
  negotiates pos p rest1 st1 -> negotiates pos p rest2 st2 -> r1 = r2.
Proof.
  intros Hn H1 H2 Hp1 Hp2. destruct (ni_state _ _ _ Hn _ _ H1) as [E1 _]. destruct (ni_state _ _ _ Hn _ _ H2) as [E2 _].
  rewrite (ng_token _ _ _ _ Hp1) in E1. rewrite (ng_token _ _ _ _ Hp2) in E2. congruence.
Qed.

(** A negotiation goes on, with its name in the table when it is known. *)
Lemma goes_on n r st st' p rest ids :
  inv n -> states n !! r = Some st -> p ∈ acc -> negotiates pos p rest st -> negotiates pos p rest st' ->
  (ids = for_id n /\ (exists rd, id st' = IdPending rd) /\ (forall i, id st <> IdDone i) \/
   ids = for_id n /\ id st' = id st \/
   pos = Head /\ ids = <[p_id p := r]> (for_id n) /\ for_id n !! p_id p = None /\ id st' = IdDone (p_id p)) ->
  inv (mkNegotiator ids (for_token n) (position n) (<[r := st']> (states n))).
Proof.
  intros Hn Hr Hp Hst Hst' Hids.
  assert (Htok : token st' = token st) by (by rewrite (ng_token _ _ _ _ Hst), (ng_token _ _ _ _ Hst')).
  assert (Hdone : forall i, id st = IdDone i -> for_id n !! i = Some r) by (intros i; by eapply ni_done).
  constructor; cbn.
  - apply Hn.
  - intros t r' Ht. destruct (ni_token _ _ _ Hn _ _ Ht) as (st1 & H1 & H2).
    destruct (decide (r' = r)) as [->|]; [|by exists st1; rewrite lookup_insert_ne].
    exists st'. rewrite lookup_insert_eq. split; [done|]. congruence.
  - intros r' st1 [[-> <-]|[Hne H1]]%lookup_insert_Some; [|by apply (ni_state _ _ _ Hn)].
    split; [|by exists p, rest]. rewrite Htok. by apply (ni_state _ _ _ Hn).
  - intros i r' Hi.
    assert (Hold : for_id n !! i = Some r' -> (r' = r -> id st' = IdDone i) ->
      exists st1, <[r := st']> (states n) !! r' = Some st1 /\ id st1 = IdDone i).
    { intros Ho Hd. destruct (decide (r' = r)) as [->|]; [exists st'; by rewrite lookup_insert_eq; auto|].
      destruct (ni_name _ _ _ Hn _ _ Ho) as (st1 & H1 & H2). exists st1. by rewrite lookup_insert_ne. }
    assert (Hget : for_id n !! i = Some r' -> r' = r -> id st = IdDone i).
    { intros Ho ->. destruct (ni_name _ _ _ Hn _ _ Ho) as (st1 & H1 & H2). congruence. }
    destruct Hids as [(-> & _ & Hno)|[[-> He]|(_ & -> & _ & He)]].
    + apply Hold; [done|]. intros Hr'. exfalso. by eapply Hno, Hget.
    + apply Hold; [done|]. intros Hr'. rewrite He. by apply Hget.
    + apply lookup_insert_Some in Hi as [[<- <-]|[Hne Hi]]; [exists st'; by rewrite lookup_insert_eq|].
      apply Hold; [done|]. intros ->. specialize (Hget Hi eq_refl).
      destruct (talks_done _ _ _ _ _ (ng_talks _ _ _ _ Hst) Hget) as [-> _]. done.
  - intros r' st1 i [[-> <-]|[Hne H1]]%lookup_insert_Some Hi.
    + destruct Hids as [(-> & [rd Hrd] & _)|[[-> He]|(_ & -> & _ & He)]]; [congruence| |].
      * apply Hdone. congruence.
      * assert (i = p_id p) as -> by congruence. by rewrite lookup_insert_eq.
    + destruct Hids as [(-> & _ & _)|[[-> _]|(_ & -> & Hnone & _)]]; [by eapply ni_done..|].
      rewrite lookup_insert_ne; [by eapply ni_done|]. intros <-. rewrite (ni_done _ _ _ Hn _ _ _ H1 Hi) in Hnone. done.
  - intros Hs. destruct Hids as [(-> & _)|[[-> _]|(Hh & _)]]; [by apply Hn..|]. congruence.
Qed.

(** Negotiations leave, with the name of which they are. *)
Lemma leaves n i (gone : gset Z) toks sts : inv n ->
  (forall r, sts !! r = if decide (r ∈ gone) then None else states n !! r) ->
  (forall t r, toks !! t = Some r <-> for_token n !! t = Some r /\ r ∉ gone) ->
  (forall j r, for_id n !! j = Some r -> r ∈ gone -> j = i) ->
  (forall r st, states n !! r = Some st -> r ∉ gone -> id st <> IdDone i) ->
  inv (mkNegotiator (delete i (for_id n)) toks (position n) sts).
Proof.
  intros Hn Hs Ht Hi Hno. constructor; cbn.
  - apply Hn.
  - intros t r [Hr Hg]%Ht. destruct (ni_token _ _ _ Hn _ _ Hr) as (st & H1 & H2). exists st.
    rewrite Hs, decide_False by done. done.
  - intros r st Hr. rewrite Hs in Hr. destruct (decide (r ∈ gone)); [done|].
    destruct (ni_state _ _ _ Hn _ _ Hr) as [H1 H2]. split; [by apply Ht|done].
  - intros j r [Hne Hj]%lookup_delete_Some. destruct (ni_name _ _ _ Hn _ _ Hj) as (st & H1 & H2). exists st.
    rewrite Hs, decide_False; [done|]. intros Hg. by apply Hne, eq_sym, (Hi j r).
  - intros r st j Hr Hj. rewrite Hs in Hr. destruct (decide (r ∈ gone)); [done|].
    apply lookup_delete_Some. split; [|by eapply ni_done]. intros <-. by eapply Hno.
  - intros Hsolo. rewrite (ni_solo _ _ _ Hn Hsolo). apply delete_empty.
Qed.

(** What an event changes. *)
Definition stays (n n' : Negotiator) (res : Res NewClientOf) : Prop :=
  inv n' /\
  (res = NotDone /\ for_token n' = for_token n \/
   exists c, res = Ret c /\ handed pos acc c /\
     (exists p, p ∈ acc /\ p_id p = c.1.1.1 /\ is_Some (for_token n !! p_token p)) /\ forall p, p ∈ acc ->
     (is_Some (for_token n' !! p_token p) <-> is_Some (for_token n !! p_token p) /\ p_id p <> c.1.1.1)).

(** What [greet] leaves unchanged. *)
Lemma negotiates_greet p rest st st' : negotiates pos p rest st -> talks st' (p_kind p) (p_id p) rest -> same_but st st' ->
  acked pos (p_kind p) (id st') = acked pos (p_kind p) (id st) -> negotiates pos p rest st'.
Proof.
  intros [H1 H2 H3 H4 H5 H6 H7] Ht (Htok & Hup & Hsent & Hout) Hack. constructor; try done; try congruence.
  rewrite Hack. unfold sock_ok. by rewrite Hout.
Qed.

(** The name is sent to the connection that has not been answered. *)
Lemma send_name p rest st st' : negotiates pos p rest st -> talks st' (p_kind p) (p_id p) rest -> same_but st st' ->
  (exists rd, id st = IdPending rd) -> id st' = IdDone (p_id p) ->
  exists s', on_down (send (Ipv4SocketAddr.bytes (p_id p))) st' = (with_down s' st', Ret tt) /\ used p s' /\ sock_ok 0 s' /\
    talks (with_down s' st') (p_kind p) (p_id p) rest.
Proof.
  intros [H1 H2 H3 H4 H5 H6 H7] Ht (Htok & Hup & Hsent & Hout) [rd Hrd] Hd. rewrite Hrd in *. cbn [acked] in *.
  assert (Hs : sock_ok 16 (downstream st')) by (unfold sock_ok; rewrite Hout; by apply H7).
  destruct (send_spec (Ipv4SocketAddr.bytes (p_id p)) 0 (downstream st')) as (s' & Es & Hs' & Hse & Hc).
  { unfold Ipv4SocketAddr.wf in H2. by rewrite H2. }
  exists s'. unfold on_down, zoom. rewrite Es. destruct (talks_done _ _ _ _ _ Ht Hd) as (_ & Hdt & Hrest).
  split_and!; try done.
  - split; [by unfold greets in *; rewrite Hc, Hrest|]. rewrite Hse, Hsent, H6. by rewrite <-app_assoc.
  - constructor; [apply Ht|]. cbn. rewrite Hd. split_and!; try done. congruence.
Qed.

(** A connection that is alone is over when its name is known. *)
Lemma solo_event n r st st' p rest tok connect : pos = Solo ->
  inv n -> states n !! r = Some st -> p ∈ acc -> negotiates pos p rest st -> tok = token st ->
  talks st' (p_kind p) (p_id p) rest -> same_but st st' -> (exists rd, id st = IdPending rd) -> id st' = IdDone (p_id p) ->
  let n1 := with_states (<[r := st']> (states n)) n in
  exists n' res, (r ← pair_up r (p_kind p) (p_id p) true;
                  _ ← on_state r (join (position n) tok (p_kind p) (p_id p) connect); finish r (p_id p)) n1 = (n', res) /\ stays n n' res.
Proof.
  intros Hsolo Hn Hr Hp Hst Htok Ht Hsb Hpend Hd n1. pose proof (ni_solo _ _ _ Hn Hsolo) as Hids.
  destruct (send_name p rest st st' Hst Ht Hsb Hpend Hd) as (s' & Es & Hused & _ & _). destruct Hsb as (Htok' & Hup' & _ & _).
  unfold pair_up. erewrite bind_ret; cycle 1.
  { erewrite bind_ret; [|reflexivity]. cbn [n1 with_states for_id]. rewrite Hids, lookup_empty.
    erewrite bind_ret; [|reflexivity]. assert (Hps : position n1 = Solo) by (cbn; by rewrite (ni_position _ _ _ Hn)).
    rewrite Hps, bool_decide_false; [|by intros []].
    erewrite bind_ret; [|reflexivity]. reflexivity. }
  erewrite bind_ret; cycle 1.
  { eapply on_state_spec; [cbn; by rewrite lookup_insert_eq|]. rewrite (ni_position _ _ _ Hn), Hsolo. exact Es. }
  cbn [n1 with_states with_ids for_id for_token position states]. rewrite insert_insert_eq.
  erewrite finish_negotiation_spec; cycle 1.
  { cbn. by rewrite lookup_insert_eq. }
  { unfold into_new_client. cbn [with_down id up]. rewrite Hd, Hup', (ng_up _ _ _ _ Hst). reflexivity. }
  { cbn. intros j [[<- _]|[_ Hj]]%lookup_insert_Some; [done|]. by rewrite lookup_empty in Hj. }
  { cbn. intros t Hl. left. destruct (ni_token _ _ _ Hn _ _ Hl) as (st1 & H1 & H2). congruence. }
  cbn. rewrite Hup', (ng_up _ _ _ _ Hst), Htok'. eexists _, _. split; [reflexivity|]. split.
  - replace (delete (p_id p) (<[p_id p:=r]> ∅)) with (delete (p_id p) (for_id n)) by (by rewrite Hids, delete_insert_eq).
    eapply (leaves n (p_id p) {[r]}); [done|..].
    + intros r'. destruct (decide (r' ∈ _)) as [->%elem_of_singleton|Hne]; [by rewrite lookup_delete_eq|].
      apply not_elem_of_singleton in Hne. by rewrite lookup_delete_ne, lookup_insert_ne.
    + intros t r'. rewrite lookup_delete_Some, not_elem_of_singleton. split.
      * intros [Hne Hl]. split; [done|]. intros ->. destruct (ni_token _ _ _ Hn _ _ Hl) as (st1 & H1 & H2). congruence.
      * intros [Hl Hne]. split; [|done]. intros <-. destruct (ni_state _ _ _ Hn _ _ Hr) as [H1 _]. congruence.
    + intros j r'. rewrite Hids, lookup_empty. done.
    + intros r' st1 H1 _ Hj. pose proof (ni_done _ _ _ Hn _ _ _ H1 Hj) as Hf. by rewrite Hids, lookup_empty in Hf.
  - right. eexists. split; [reflexivity|]. cbn. rewrite Hsolo. split.
    + exists p. split_and!; try done. by rewrite (ng_token _ _ _ _ Hst).
    + split; [exists p; split_and!; try done; rewrite <-(ng_token _ _ _ _ Hst); eexists; by apply (ni_state _ _ _ Hn)|].
      intros q Hq. cbn. destruct (decide (p_id q = p_id p)) as [He|He].
      * assert (q = p) as -> by (apply (proj2 Hdistinct); auto). rewrite <-(ng_token _ _ _ _ Hst), lookup_delete_eq.
        split; [by intros []|]. by intros [].
      * rewrite lookup_delete_ne; [by rewrite (and_comm _ (_ <> _)); split; [|intros []]|].
        rewrite (ng_token _ _ _ _ Hst). intros Hpt. apply He. f_equal. by apply (proj1 Hdistinct).
Qed.

(** The two sides of a pair, in the state in which the second of them was found. *)
Lemma paired n n2 rs rc ss sc ps pc tok k connect s0 sc0 : pos = Head ->
  inv n -> states n !! rs = Some s0 -> states n !! rc = Some sc0 -> token ss = token s0 -> token sc = token sc0 ->
  pairing n2 (p_id ps) rs rc ss sc -> for_token n2 = for_token n -> position n2 = position n ->
  (forall r, r <> rs -> r <> rc -> states n2 !! r = states n !! r) ->
  delete (p_id ps) (for_id n2) = delete (p_id ps) (for_id n) ->
  (forall j r, for_id n !! j = Some r -> r = rs \/ r = rc -> j = p_id ps) ->
  (exists r, for_id n !! p_id ps = Some r /\ (r = rs \/ r = rc)) ->
  ps ∈ acc -> pc ∈ acc -> p_kind ps = Server -> p_kind pc = Client -> p_id pc = p_id ps ->
  token ss = p_token ps -> token sc = p_token pc -> used ps (downstream ss) ->
  sent (downstream sc) = sent (p_socket pc) ++ [0] -> greets pc (to_come (downstream sc)) ->
  sock_ok 16 (downstream sc) -> Ipv4SocketAddr.wf (p_id ps) ->
  exists n3 n4 n' c, copy_to rs rc n2 = (n3, Ret tt) /\ states n3 !! rs = Some (joined sc ss) /\
    on_state rs (join (position n) tok k (p_id ps) connect) n3 = (n4, Ret tt) /\ finish rs (p_id ps) n4 = (n', Ret c) /\
    stays n n' (Ret c).
Proof.
  intros Hhead Hn Hs0 Hc0 Hts Htc Hpr Htok Hposn Hsts Hids Honly Hname Hps Hpc Hks Hkc Hidc Htps Htpc Hus Hsent Hgr Hsock Hw.
  pose proof Hpr as [Hs Hc Hd [Hds Hdc] [His Hic] Hup Ht Hnm].
  destruct (join_joined tok k (p_id ps) connect sc ss Hds Hic Hsock Hw) as (s' & Ej & Hse & Hco).
  destruct (ni_state _ _ _ Hn _ _ Hs0) as [Hf1 _]. destruct (ni_state _ _ _ Hn _ _ Hc0) as [Hf2 _].
  assert (Htd : p_token ps <> p_token pc).
  { intros He. assert (ps = pc) as -> by (by apply (proj1 Hdistinct)). congruence. }
  eexists _, _, _, _. split; [by eapply copy_to_spec|]. cbn [states]. rewrite lookup_insert_eq. split; [done|].
  split. { eapply on_state_spec; [cbn; by rewrite lookup_insert_eq|]. rewrite (ni_position _ _ _ Hn), Hhead. exact Ej. }
  cbn [with_states for_id for_token position states]. rewrite insert_insert_eq.
  split.
  { eapply finish_negotiation_spec; cbn.
    - by rewrite lookup_insert_eq.
    - unfold into_new_client. cbn [with_up id up]. rewrite His. reflexivity.
    - intros j Hj. by apply Hnm in Hj as [? _]; auto.
    - intros t Hl. destruct (decide (t = token ss)); [by left|]. rewrite lookup_insert_ne in Hl by done.
      destruct (decide (t = token sc)) as [->|]; [right; by eexists|]. rewrite lookup_insert_ne in Hl by done.
      left. by apply (Ht _ _ Hl). }
  cbn. split.
  - rewrite Hids, Htok, Hposn. eapply (leaves n (p_id ps) {[rs; rc]}); [done|..].
    + intros r. destruct (decide (r ∈ _)) as [Hin|Hnin].
      * apply elem_of_union in Hin as [->%elem_of_singleton| ->%elem_of_singleton]; [by rewrite lookup_delete_eq|].
        rewrite lookup_delete_ne, lookup_insert_ne, lookup_delete_eq by done. done.
      * rewrite not_elem_of_union, !not_elem_of_singleton in Hnin. destruct Hnin.
        rewrite lookup_delete_ne, lookup_insert_ne, lookup_delete_ne by done. by apply Hsts.
    + intros t r. rewrite !lookup_delete_Some, not_elem_of_union, !not_elem_of_singleton.
      split.
      * intros (Hne & Hne' & Hl). rewrite !lookup_insert_ne in Hl by done. split; [done|].
        split; intros ->; destruct (ni_token _ _ _ Hn _ _ Hl) as (st1 & H1 & H2); congruence.
      * intros (Hl & Hne & Hne'). assert (t <> token ss /\ t <> token sc) as [? ?] by (split; congruence).
        split_and!; try done. by rewrite !lookup_insert_ne.
    + intros j r Hj Hin. apply elem_of_union in Hin as [->%elem_of_singleton| ->%elem_of_singleton]; eapply Honly; eauto.
    + intros r st1 H1 Hnin Hj. pose proof (ni_done _ _ _ Hn _ _ _ H1 Hj) as Hf. destruct Hname as (r1 & Hr1 & Hor).
      rewrite not_elem_of_union, !not_elem_of_singleton in Hnin. destruct Hnin. destruct Hor; congruence.
  - right. eexists. split; [reflexivity|]. rewrite Hhead. cbn. split.
    + exists pc, ps, (downstream ss). split_and!; try done. split; [by rewrite Hco|].
      rewrite Hse, Hsent, Hidc, <-app_assoc. done.
    + split; [exists ps; split_and!; try done; rewrite <-Htps, Hts; by eexists|]. intros q Hq. rewrite Htps, Htpc, Htok. destruct (decide (p_id q = p_id ps)) as [He|He].
      * assert (p_token q = p_token ps \/ p_token q = p_token pc) as Hor.
        { destruct (p_kind q) eqn:Ek; [right|left]; f_equal; apply (proj2 Hdistinct); try done; try congruence; right; congruence. }
        split; [|by intros []]. intros [x Hx]. apply lookup_delete_Some in Hx as [Hne Hx]. apply lookup_delete_Some in Hx as [Hne' _].
        destruct Hor; congruence.
      * assert (p_token q <> p_token ps /\ p_token q <> p_token pc) as [? ?].
        { split; intros Hx; apply He; [|rewrite <-Hidc]; f_equal; by apply (proj1 Hdistinct). }
        rewrite !lookup_delete_ne, !lookup_insert_ne by done. split; [done|by intros []].
Qed.

Lemma join_alone tok k i connect st : up st = None -> join Head tok k i connect st = (st, NotDone).
Proof. intros Hu. unfold join. erewrite bind_ret; [|reflexivity]. rewrite Hu. reflexivity. Qed.

(** The head of a chain hears a name for the first time. *)
Lemma head_first n r st st' p rest tok connect : pos = Head ->
  inv n -> states n !! r = Some st -> p ∈ acc -> negotiates pos p rest st ->
  talks st' (p_kind p) (p_id p) rest -> same_but st st' -> (exists rd, id st = IdPending rd) -> id st' = IdDone (p_id p) ->
  for_id n !! p_id p = None ->
  let n1 := with_states (<[r := st']> (states n)) n in
  exists n' res, (r ← pair_up r (p_kind p) (p_id p) true;
                  _ ← on_state r (join (position n) tok (p_kind p) (p_id p) connect); finish r (p_id p)) n1 = (n', res) /\ stays n n' res.
Proof.
  intros Hhead Hn Hr Hp Hst Ht Hsb Hpend Hd Hnone n1.
  pose proof (send_name p rest st st' Hst Ht Hsb Hpend Hd) as (s' & Es & Hused & Hs0 & Ht').
  pose proof Hsb as (Htok' & Hup' & Hsent & Hout). pose proof (ng_up _ _ _ _ Hst) as Hup.
  assert (Hps : position n = Head) by (by rewrite (ni_position _ _ _ Hn)).
  assert (exists st2, negotiates pos p rest st2 /\ id st2 = IdDone (p_id p) /\
    pair_up r (p_kind p) (p_id p) true n1 = (mkNegotiator (<[p_id p := r]> (for_id n)) (for_token n) (position n) (<[r := st2]> (states n)), Ret r))
    as (st2 & Hst2 & Hd2 & E2).
  { unfold pair_up. erewrite bind_ret; [|reflexivity]. cbn [n1 with_states for_id]. rewrite Hnone.
    destruct (p_kind p) eqn:Ek.
    - exists st'. split; [|split; [done|]].
      + eapply negotiates_greet; try done; rewrite Ek; try done. destruct Hpend as [rd ->]. rewrite Hd, Hhead. done.
      + erewrite bind_ret; [|reflexivity]. rewrite bool_decide_false by (by intros []).
        erewrite bind_ret; [|reflexivity]. done.
    - exists (with_down s' st'). split; [|split; [done|]].
      + destruct Hst. constructor; cbn; try done; rewrite ?Ek in *; try congruence; rewrite Hd, Hhead; cbn.
        * apply Hused.
        * unfold Ipv4SocketAddr.wf in ng_wf0. intros Hb. by rewrite Hb in ng_wf0.
      + erewrite bind_ret; [|reflexivity]. rewrite bool_decide_true by done.
        erewrite bind_ret; cycle 1. { eapply on_state_spec; [cbn; by rewrite lookup_insert_eq|]. exact Es. }
        cbn. by rewrite insert_insert_eq. }
  erewrite bind_ret; [|exact E2]. erewrite bind_not_done; cycle 1.
  { eapply on_state_spec; [cbn; by rewrite lookup_insert_eq|]. rewrite Hps. apply join_alone. apply Hst2. }
  eexists _, _. split; [reflexivity|]. cbn. rewrite insert_insert_eq. split; [|by left].
  apply (goes_on n r st st2 p rest); try done. right. right. by split_and!.
Qed.

(** The head of a chain finds the other side of a pair. *)
Lemma head_second n r st st' p rest tok connect o : pos = Head ->
  inv n -> states n !! r = Some st -> p ∈ acc -> negotiates pos p rest st ->
  talks st' (p_kind p) (p_id p) rest -> same_but st st' -> (exists rd, id st = IdPending rd) -> id st' = IdDone (p_id p) ->
  for_id n !! p_id p = Some o ->
  let n1 := with_states (<[r := st']> (states n)) n in
  exists n' res, (r ← pair_up r (p_kind p) (p_id p) true;
                  _ ← on_state r (join (position n) tok (p_kind p) (p_id p) connect); finish r (p_id p)) n1 = (n', res) /\ stays n n' res.
Proof.
  intros Hhead Hn Hr Hp Hst Ht Hsb Hpend Hd Ho n1.
  pose proof (send_name p rest st st' Hst Ht Hsb Hpend Hd) as (s' & Es & Hused & Hs0 & Ht').
  pose proof Hsb as (Htok' & Hup' & Hsent & Hout). pose proof (ng_up _ _ _ _ Hst) as Hup.
  assert (Hps : position n = Head) by (by rewrite (ni_position _ _ _ Hn)).
  destruct (ni_name _ _ _ Hn _ _ Ho) as (sto & Hsto & Hdo).
  assert (Hne : o <> r) by (intros ->; destruct Hpend; congruence).
  destruct (ni_state _ _ _ Hn _ _ Hsto) as [Hfo (q & resto & Hq & Hqo)]. destruct (ni_state _ _ _ Hn _ _ Hr) as [Hfr _].
  destruct (talks_done _ _ _ _ _ (ng_talks _ _ _ _ Hqo) Hdo) as (Hid & Hdto & Hco).
  destruct (talks_done _ _ _ _ _ Ht Hd) as (_ & Hdt & Hc).
  assert (Hk : p_kind q <> p_kind p).
  { intros Hk. assert (q = p) as -> by (apply (proj2 Hdistinct); auto). apply Hne. by eapply same_peer. }
  assert (Htoks : forall t x, for_token n !! t = Some x -> (x = r -> t = token st') /\ (x = o -> t = token sto)).
  { intros t x Hx. destruct (ni_token _ _ _ Hn _ _ Hx) as (st1 & H1 & H2). split; intros ->; congruence. }
  assert (Honly : forall j x, for_id n !! j = Some x -> x = r \/ x = o -> j = p_id p).
  { intros j x Hj Hx. destruct (ni_name _ _ _ Hn _ _ Hj) as (st1 & H1 & H2). destruct Hx as [->| ->].
    - destruct Hpend. congruence.
    - congruence. }
  assert (Hin : forall x, x <> r -> states n1 !! x = states n !! x) by (intros; cbn; by rewrite lookup_insert_ne).
  assert (Hsto1 : states n1 !! o = Some sto) by (by rewrite Hin).
  assert (Hmark : forall n3 rs ss sc, states n3 !! rs = Some (joined sc ss) -> down_type ss = DownServer ->
    (st ← borrow rs; _ ← dev_require (bool_decide (down_type st = DownServer)); mret rs) n3 = (n3, Ret rs)).
  { intros n3 rs ss sc H1 H2. erewrite bind_ret; [|by apply borrow_spec]. unfold dev_require. cbn [joined with_up down_type].
    rewrite bool_decide_true by done. destruct debug_assertions; reflexivity. }
  unfold pair_up. destruct (p_kind p) eqn:Ek.
  - assert (Ekq : p_kind q = Server) by (by destruct (p_kind q)).
    destruct (paired n n1 o r sto st' q p tok Client connect sto st) as (n3 & n4 & n' & c & E3 & Hl3 & E4 & E5 & Hst5); try done.
    + rewrite <-Hid. constructor; try done; try congruence.
      * cbn. by rewrite lookup_insert_eq.
      * rewrite Hdto, Hdt, Ekq. done.
      * apply Hqo.
      * intros t x Hx. destruct (Htoks t x Hx). by split.
      * intros j x Hx. split; [intros ->; by eapply Honly; eauto|]. intros ->. destruct (ni_name _ _ _ Hn _ _ Hx) as (st1 & H1 & H2).
        destruct Hpend. congruence.
    + intros x H1 H2. by apply Hin.
    + intros j x Hj Hx. rewrite <-Hid. eapply Honly; [done|]. by destruct Hx; [right|left].
    + exists o. rewrite <-Hid. split; [done|by left].
    + apply Hqo.
    + rewrite Htok'. apply Hst.
    + destruct Hqo. split; [by rewrite Hco|]. rewrite ng_sent0, Ekq, Hhead, Hdo. cbn. by rewrite Hid.
    + rewrite Hsent, (ng_sent _ _ _ _ Hst). destruct Hpend as [rd ->]. done.
    + rewrite Hc. apply Hst.
    + unfold sock_ok. rewrite Hout. destruct Hst. apply ng_sock0. destruct Hpend as [rd ->]. done.
    + rewrite <-Hid. apply Hst.
    + rewrite <-Hid in *. erewrite bind_ret; cycle 1.
      { erewrite bind_ret; [|reflexivity]. cbn [n1 with_states for_id]. rewrite Ho. rewrite bool_decide_false by done. cbn [andb negb].
        assert (Hp1 : position n1 = Head) by done. rewrite Hp1, bool_decide_true by done. erewrite bind_ret; [|reflexivity].
        erewrite bind_ret; [|erewrite bind_ret; [reflexivity|exact E3]]. eapply Hmark; [done|]. by rewrite Hdto, Ekq. }
      erewrite bind_ret; [|exact E4]. by eexists _, _.
  - assert (Ekq : p_kind q = Client) by (by destruct (p_kind q)).
    set (n2 := mkNegotiator (<[p_id p := r]> (for_id n)) (for_token n) (position n) (<[r := with_down s' st']> (states n))).
    destruct (paired n n2 r o (with_down s' st') sto p q tok Server connect st sto) as (n3 & n4 & n' & c & E3 & Hl3 & E4 & E5 & Hst5); try done.
    + constructor; try done; try congruence.
      * cbn. by rewrite lookup_insert_eq.
      * cbn. by rewrite lookup_insert_ne.
      * cbn. rewrite Hdto, Hdt, Ekq. done.
      * cbn. congruence.
      * intros j x Hjx. cbn in Hjx. apply lookup_insert_Some in Hjx as [[<- <-]|[Hj Hx]]; [done|]. split; intros ->; [by eapply Honly; eauto|].
        apply Hj. symmetry. by eapply Honly; eauto.
    + intros x H1 H2. cbn. by rewrite lookup_insert_ne.
    + cbn. apply delete_insert_eq.
    + exists o. split; [done|by right].
    + cbn. rewrite Htok'. apply Hst.
    + apply Hqo.
    + rewrite (ng_sent _ _ _ _ Hqo), Ekq, Hhead, Hdo. done.
    + rewrite Hco. apply Hqo.
    + destruct Hqo. apply ng_sock0. by rewrite Ekq, Hhead, Hdo.
    + apply Hst.
    + erewrite bind_ret; cycle 1.
      { erewrite bind_ret; [|reflexivity]. cbn [n1 with_states for_id]. rewrite Ho. rewrite bool_decide_false by done. cbn [andb negb].
        assert (Hp1 : position n1 = Head) by done. rewrite Hp1, bool_decide_true by done. erewrite bind_ret; [|reflexivity].
        erewrite bind_ret; cycle 1.
        { erewrite bind_ret; [|eapply on_state_spec; [cbn; by rewrite lookup_insert_eq|exact Es]].
          erewrite bind_ret; [|reflexivity]. erewrite bind_ret; [reflexivity|]. cbn. rewrite insert_insert_eq. exact E3. }
        eapply Hmark; [done|]. cbn. by rewrite Hdt. }
      erewrite bind_ret; [|exact E4]. by eexists _, _.
Qed.

Lemma handle_event_spec n tok r connect : inv n -> for_token n !! tok = Some r ->
  exists n' res, handle_event tok connect n = (n', res) /\ stays n n' res.
Proof.
  intros Hn Ht. destruct (ni_token _ _ _ Hn _ _ Ht) as (st & Hr & Htok).
  destruct (ni_state _ _ _ Hn _ _ Hr) as [_ (p & rest & Hp & Hst)].
  destruct (greet_spec st _ _ _ (ng_talks _ _ _ _ Hst) (ng_wf _ _ _ _ Hst)) as (st' & res & Eg & Htalk & Hsb & Hres).
  unfold handle_event. erewrite bind_ret; [|reflexivity]. rewrite Ht. erewrite bind_ret; [|reflexivity].
  destruct Hres as [(-> & -> & Hd)|[(-> & Hd & Hpend)|(-> & [rd Hd] & Hpend)]].
  - erewrite bind_ret; [|by eapply on_state_spec]. cbv beta iota. rewrite insert_id, with_states_id by done.
    pose proof (ni_done _ _ _ Hn _ _ _ Hr Hd) as Hi.
    assert (Hhead : pos = Head). { destruct Hpos as [Hs|]; [|done]. by rewrite (ni_solo _ _ _ Hn Hs), lookup_empty in Hi. }
    unfold pair_up. erewrite bind_ret; cycle 1. { erewrite bind_ret; [|reflexivity]. rewrite Hi. reflexivity. }
    erewrite bind_not_done; cycle 1.
    { eapply on_state_spec; [done|]. rewrite (ni_position _ _ _ Hn), Hhead. apply join_alone. apply Hst. }
    rewrite insert_id, with_states_id by done. eexists _, _. split; [reflexivity|]. split; [done|by left].
  - erewrite bind_ret; [|by eapply on_state_spec]. cbv beta iota.
    destruct Hpos as [Hs|Hh]; [by eapply solo_event|].
    destruct (for_id n !! p_id p) as [o|] eqn:Ho; [by eapply head_second|by eapply head_first].
  - erewrite bind_not_done; [|by eapply on_state_spec]. eexists _, _. split; [reflexivity|]. split; [|by left].
    apply (goes_on n r st st' p rest); try done.
    + eapply negotiates_greet; try done. destruct Hpend as [rd' ->]. by rewrite Hd.
    + left. split_and!; [done|by eexists|]. destruct Hpend as [rd' ->]. done.
Qed.
End Invariant.

Lemma handed_more pos acc more c : handed pos acc c -> handed pos (acc ++ more) c.
Proof.
  destruct c as [[[i tok] s] down]. destruct pos; cbn; try done.
  - intros (p & Hp & H). exists p. split; [|done]. rewrite elem_of_app. by left.
  - intros (pc & ps & s1 & H1 & H2 & H). exists pc, ps, s1. rewrite !elem_of_app. split; [by left|]. split; [by left|done].
Qed.

Lemma neg_inv_more pos acc more n : neg_inv pos acc n -> neg_inv pos (acc ++ more) n.
Proof.
  intros []. constructor; try done. intros r st Hr. destruct (ni_state0 r st Hr) as [? (p & rest & Hp & H)].
  split; [done|]. exists p, rest. rewrite elem_of_app. by auto.
Qed.

Section Dist.
Context `{HB : Build}.

(** A connection is accepted. *)
Lemma got_connection_starts pos acc n p rest connect :
  neg_inv pos acc n -> greets p rest -> Ipv4SocketAddr.wf (p_id p) -> sock_ok 17 (p_socket p) -> for_token n !! p_token p = None ->
  exists n0 r, neg_inv pos (acc ++ [p]) n0 /\ for_token n0 = <[p_token p := r]> (for_token n) /\
    got_connection (p_socket p) (p_token p) connect n = handle_event (p_token p) connect n0.
Proof.
  intros Hn Hg Hw Hs Hnone. destruct (send_spec [0] 16 (p_socket p) Hs) as (s' & Es & Hs' & Hsent & Hc).
  unfold got_connection. rewrite Es. erewrite bind_ret; [|reflexivity]. erewrite bind_ret; [|reflexivity].
  erewrite bind_ret; [|reflexivity]. set (r := base.fresh _). set (st := mkState _ _ _ _ _ _). eexists _, r.
  split; [|split; [|reflexivity]]; [|done].
  assert (Hfresh : states n !! r = None) by (apply not_elem_of_dom, is_fresh).
  constructor; cbn.
  - apply Hn.
  - intros t r' [[<- <-]|[Hne Ht]]%lookup_insert_Some; [exists st; by rewrite lookup_insert_eq|].
    destruct (ni_token _ _ _ Hn _ _ Ht) as (st1 & H1 & H2). exists st1. rewrite lookup_insert_ne; [done|congruence].
  - intros r' st1 [[<- <-]|[Hne H1]]%lookup_insert_Some.
    + split; [by rewrite lookup_insert_eq|]. exists p, rest. split; [rewrite elem_of_app, list_elem_of_singleton; by right|].
      constructor; cbn; try done. constructor; cbn; [done|]. split_and!; try done. right. eexists. split_and!; try done. by rewrite Hc.
    + destruct (ni_state _ _ _ Hn _ _ H1) as [H2 (q & rq & Hq & H3)]. split; [rewrite lookup_insert_ne; congruence|].
      exists q, rq. rewrite elem_of_app. by auto.
  - intros i r' Hi. destruct (ni_name _ _ _ Hn _ _ Hi) as (st1 & H1 & H2). exists st1. rewrite lookup_insert_ne; [done|congruence].
  - intros r' st1 i [[<- <-]|[Hne H1]]%lookup_insert_Some Hi; [done|]. by eapply ni_done.
  - apply Hn.
Qed.

(** ** The accepting thread *)

Definition client_of (m : DistToWorker) : option Addr := match m with NewClient _ _ _ i => Some i | _ => None end.
Definition clients (d : Dist) : list Addr := omap client_of (concat (dist_to_workers d)).

Record dist_inv (pos : Position) (workers : nat) (acc : list Peer) (d : Dist) : Prop := {
  di_neg : neg_inv pos acc (negotiator d);
  di_next : d_next_token d = 10 + zlen acc;
  di_tokens : forall p, p ∈ acc -> p_token p <= d_next_token d;
  di_all : forall p, p ∈ acc ->
    is_Some (for_token (negotiator d) !! p_token p) \/ p_id p ∈ clients d;
  di_gone : forall p, p ∈ acc -> p_id p ∈ clients d -> for_token (negotiator d) !! p_token p = None;
  di_client : forall i, is_Some (worker_for_client d !! i) <-> i ∈ clients d;
  di_workers : length (dist_to_workers d) = workers /\ (0 < workers)%nat;
  di_queue : forall w q m, dist_to_workers d !! w = Some q -> m ∈ q ->
    exists tok s down i, m = NewClient tok s down i /\ handed pos acc (i, tok, s, down) /\
      Z.of_nat w = worker_for_ip i (Z.of_nat workers);
  di_once : NoDup (clients d);
}.

Lemma concat_insert {X} (l : list (list X)) w q x : l !! w = Some q -> concat (<[w := q ++ [x]]> l) ≡ₚ concat l ++ [x].
Proof.
  intros Hw. rewrite <-(take_drop_middle l w q Hw) at 2. rewrite insert_take_drop by (by eapply lookup_lt_Some).
  rewrite !concat_app. cbn [concat]. rewrite <-!app_assoc. f_equiv. f_equiv. apply Permutation_app_comm.
Qed.

Lemma clients_queue d i w q m : dist_to_workers d !! w = Some q -> m ∈ q -> client_of m = Some i -> i ∈ clients d.
Proof.
  intros Hw Hm Hc. apply list_elem_of_omap. exists m. split; [|done]. apply list_elem_of_In, in_concat. exists q.
  split; apply list_elem_of_In; [by eapply list_elem_of_lookup_2|done].
Qed.

Lemma clients_handed pos workers acc d i : dist_inv pos workers acc d -> i ∈ clients d ->
  exists tok s down, handed pos acc (i, tok, s, down).
Proof.
  intros Hd Hi. apply list_elem_of_omap in Hi as (m & Hm & Hc). apply list_elem_of_In, in_concat in Hm as (q & Hq & Hm).
  apply list_elem_of_In in Hq, Hm. apply list_elem_of_lookup_1 in Hq as (w & Hq).
  destruct (di_queue _ _ _ _ Hd _ _ _ Hq Hm) as (tok & s & down & i' & -> & Hh & _). injection Hc as ->. by eexists _, _, _.
Qed.

(** A client that was given to a worker had all its connections among those accepted. *)
Lemma handed_peer pos acc i tok s down k : handed pos acc (i, tok, s, down) ->
  exists p, p ∈ acc /\ p_id p = i /\ (pos = Solo \/ p_kind p = k).
Proof.
  destruct pos; cbn; try done.
  - intros (p & Hp & Hi & _). exists p. split_and!; try done. by left.
  - intros (pc & ps & s1 & H1 & H2 & H3 & H4 & H5 & H6 & _). destruct k; [exists pc|exists ps]; split_and!; try done; by right.
Qed.

Lemma event_step pos workers acc d n' res :
  dist_inv pos workers acc d -> stays pos acc (negotiator d) n' res ->
  let d1 := mkDist n' (d_next_token d) (worker_for_client d) (dist_to_workers d) in
  exists d', match res with Ret c => new_client c d1 | NotDone => (d1, Ret tt) | Panicked => (d1, Panicked) | Hangs => (d1, Hangs) end
               = (d', Ret tt) /\ dist_inv pos workers acc d'.
Proof.
  intros Hd [Hn' Hres] d1. pose proof Hd as [Hn Hnext Htok Hall Hgone Hcl [Hw Hpos] Hq Honce].
  destruct Hres as [[-> Hf]|(c & -> & Hh & (p & Hp & Hpi & Hpt) & Hleft)].
  { eexists. split; [reflexivity|]. constructor; try done; cbn; by rewrite Hf. }
  destruct c as [[[i tok] s] down]. cbn [fst snd] in *.
  assert (Hnew : worker_for_client d !! i = None).
  { apply eq_None_not_Some. rewrite Hcl, <-Hpi. intros Hin. rewrite (Hgone _ Hp Hin) in Hpt. by destruct Hpt. }
  assert (Hni : i ∉ clients d) by (rewrite <-Hcl, Hnew; by intros []).
  unfold new_client. cbn [d1 worker_for_client dist_to_workers]. rewrite Hnew. unfold zlen. rewrite Hw.
  set (w := worker_for_ip i (Z.of_nat workers)).
  assert (Hwr : 0 <= w < Z.of_nat workers) by (apply Z.mod_pos_bound; lia).
  destruct (lookup_lt_is_Some_2 (dist_to_workers d) (Z.to_nat w)) as [q Eq]; [lia|]. rewrite Eq.
  eexists. split; [reflexivity|].
  set (d' := mkDist _ _ _ _).
  assert (Hcs : clients d' ≡ₚ clients d ++ [i]).
  { unfold clients, d'. cbn [dist_to_workers]. rewrite concat_insert by done. rewrite omap_app. done. }
  assert (Hin : forall j, j ∈ clients d' <-> j ∈ clients d \/ j = i) by (intros; by rewrite Hcs, elem_of_app, list_elem_of_singleton).
  constructor; try done; cbn [d' negotiator worker_for_client dist_to_workers d_next_token].
  - intros q' Hq'. rewrite Hin. destruct (decide (p_id q' = i)); [by right; right|].
    destruct (Hall q' Hq') as [H1|H1]; [left; by apply Hleft|by auto].
  - intros q' Hq' [Hc|Hc]%Hin.
    + apply eq_None_not_Some. intros Hs%(proj1 (Hleft q' Hq')). rewrite (Hgone q' Hq' Hc) in Hs. by destruct Hs as [[] _].
    + apply eq_None_not_Some. intros [_ ?]%(proj1 (Hleft q' Hq')). done.
  - intros j. rewrite Hin, <-Hcl, lookup_insert_is_Some'. naive_solver.
  - split; [by rewrite length_insert|done].
  - intros w' q' m [(<- & <- & _)|[Hne Hl]]%list_lookup_insert_Some Hm; [|by eapply Hq].
    apply elem_of_app in Hm as [Hm| ->%list_elem_of_singleton]; [by eapply Hq|].
    eexists _, _, _, _. split; [done|]. split; [done|]. fold w. lia.
  - rewrite Hcs. apply NoDup_app. split_and!; [done| |apply NoDup_singleton].
    intros j Hj ->%list_elem_of_singleton. done.
Qed.

Lemma accept_inv pos workers acc d n0 r p :
  dist_inv pos workers acc d -> distinct pos (acc ++ [p]) -> p_token p = d_next_token d + 1 ->
  neg_inv pos (acc ++ [p]) n0 -> for_token n0 = <[p_token p := r]> (for_token (negotiator d)) ->
  dist_inv pos workers (acc ++ [p]) (mkDist n0 (d_next_token d + 1) (worker_for_client d) (dist_to_workers d)).
Proof.
  intros Hd [Hdt Hdi] Hpt Hn0 Hf. pose proof Hd as [Hn Hnext Htok Hall Hgone Hcl Hw Hq Honce].
  assert (Hp : p ∈ acc ++ [p]) by (rewrite elem_of_app, list_elem_of_singleton; by right).
  assert (Hold : forall q, q ∈ acc -> p_token p <> p_token q) by (intros q Hqa; specialize (Htok q Hqa); lia).
  constructor; try done; cbn [negotiator d_next_token].
  - rewrite Hnext, zlen_app. unfold zlen at 3. cbn. lia.
  - intros q [Hqa| ->%list_elem_of_singleton]%elem_of_app; [|lia]. specialize (Htok q Hqa). lia.
  - intros q [Hqa| ->%list_elem_of_singleton]%elem_of_app; rewrite Hf; [|left; by rewrite lookup_insert_eq].
    rewrite lookup_insert_ne by (by apply Hold). by apply Hall.
  - intros q [Hqa| ->%list_elem_of_singleton]%elem_of_app Hc; rewrite Hf.
    + rewrite lookup_insert_ne by (by apply Hold). by apply Hgone.
    + exfalso. destruct (clients_handed _ _ _ _ _ Hd Hc) as (tok & s & down & Hh).
      destruct (handed_peer _ _ _ _ _ _ (p_kind p) Hh) as (q & Hqa & Hqi & Hqk).
      apply (Hold q Hqa). f_equal. symmetry. apply Hdi; [rewrite elem_of_app; by left|done|done|done].
  - intros w q m Hwq Hm. destruct (Hq w q m Hwq Hm) as (tok & s & down & i & -> & Hh & E). eexists _, _, _, _.
    split; [done|]. split; [by apply handed_more|done].
Qed.

(** ** Runs *)

(** The connections of a run, with the tokens they get. *)
Fixpoint with_tokens_from (next : Z) (peers : list (TcpStream * ClientType * Addr)) : list Peer :=
  match peers with
  | [] => []
  | (s, k, i) :: peers => mkPeer (next + 1) s k i :: with_tokens_from (next + 1) peers
  end.

Definition sockets (evs : list (DistEvent * option TcpStream)) : list TcpStream :=
  omap (fun e => match e.1 with Accepted s => Some s | _ => None end) evs.

(** A connection greets the server as it should, and takes the 17 bytes it is sent. *)
Definition greeting (peer : TcpStream * ClientType * Addr) : Prop :=
  let '(s, k, i) := peer in
  (exists rest, to_come s = type_byte k :: Ipv4SocketAddr.bytes i ++ rest) /\ Ipv4SocketAddr.wf i /\ sock_ok 17 s.

(** No two connections come for the same purpose. *)
Definition told_apart (pos : Position) (peers : list (TcpStream * ClientType * Addr)) : Prop :=
  match pos with Solo => NoDup (snd <$> peers) | _ => NoDup ((fun p => (p.1.2, p.2)) <$> peers) end.

Definition event_ok (e : DistEvent * option TcpStream) : Prop :=
  match e.1 with ReadyFor tok => tok <> FROM_LOG /\ tok <> 2 | _ => True end.

Lemma token_range next peers p : p ∈ with_tokens_from next peers -> next < p_token p.
Proof.
  revert next. induction peers as [|[[s k] i] peers IH]; intros next; cbn; [by intros ?%elem_of_nil|].
  intros [->|Hp]%elem_of_cons; [cbn; lia|]. specialize (IH _ Hp). lia.
Qed.

Lemma peer_names next peers p : p ∈ with_tokens_from next peers -> (p_socket p, p_kind p, p_id p) ∈ peers.
Proof.
  revert next. induction peers as [|[[s k] i] peers IH]; intros next; cbn; [by intros ?%elem_of_nil|].
  intros [->|Hp]%elem_of_cons; [by left|]. right. by eapply IH.
Qed.

Lemma distinct_peers pos next peers : told_apart pos peers -> distinct pos (with_tokens_from next peers).
Proof.
  revert next. induction peers as [|[[s k] i] peers IH]; intros next Ht; cbn.
  { split; by intros ? ? ?%elem_of_nil. }
  assert (told_apart pos peers) as Ht' by (unfold told_apart in *; destruct pos; by apply NoDup_cons in Ht as [_ ?]).
  destruct (IH (next + 1) Ht') as [H1 H2].
  assert (Hno : forall q, q ∈ with_tokens_from (next + 1) peers -> p_id q = i -> pos = Solo \/ p_kind q = k -> False).
  { intros q Hq%peer_names Hi Hk. assert (Hin : forall B (f : _ -> B), f (p_socket q, p_kind q, p_id q) ∈ f <$> peers).
    { intros B f. by apply list_elem_of_fmap_2. }
    unfold told_apart in Ht. destruct pos; apply NoDup_cons in Ht as [Hn _]; apply Hn.
    - rewrite <-Hi. apply (Hin _ snd).
    - destruct Hk as [?|Hk]; [done|]. cbn. rewrite <-Hi, <-Hk. apply (Hin _ (fun p => (p.1.2, p.2))).
    - destruct Hk as [?|Hk]; [done|]. cbn. rewrite <-Hi, <-Hk. apply (Hin _ (fun p => (p.1.2, p.2))).
    - destruct Hk as [?|Hk]; [done|]. cbn. rewrite <-Hi, <-Hk. apply (Hin _ (fun p => (p.1.2, p.2))). }
  split.
  - intros p q [->|Hp]%elem_of_cons [->|Hq]%elem_of_cons He; [done| | |by apply H1].
    + apply token_range in Hq. cbn in He. lia.
    + apply token_range in Hp. cbn in He. lia.
  - intros p q [->|Hp]%elem_of_cons [->|Hq]%elem_of_cons He Hk; [done| | |by apply H2].
    + exfalso. cbn in He, Hk. eapply Hno; [done|by symmetry|]. by destruct Hk; [left|right].
    + exfalso. cbn in He, Hk. by eapply Hno.
Qed.

Lemma distinct_prefix pos acc more : distinct pos (acc ++ more) -> distinct pos acc.
Proof.
  intros [H1 H2]. split; intros p q Hp Hq; [apply H1|apply H2]; rewrite elem_of_app; by left.
Qed.

Lemma dist_run_inv pos workers evs : pos = Solo \/ pos = Head -> forall acc peers d,
  dist_inv pos workers acc d -> sockets evs = (fun p => p.1.1) <$> peers -> Forall greeting peers -> Forall event_ok evs ->
  distinct pos (acc ++ with_tokens_from (d_next_token d) peers) -> d_next_token d + zlen peers < u64_max ->
  exists d', dist_run d evs = (d', Ret tt) /\ dist_inv pos workers (acc ++ with_tokens_from (d_next_token d) peers) d'.
Proof.
  intros Hpos. induction evs as [|[ev connect] evs IH]; intros acc peers d Hd Hs Hg He Hdi Hmax.
  { destruct peers; [|done]. exists d. cbn. by rewrite app_nil_r. }
  apply Forall_cons in He as [He1 He]. cbn [dist_run].
  assert (Hstep : forall d', sockets evs = (fun p => p.1.1) <$> peers -> dist_inv pos workers acc d' -> d_next_token d' = d_next_token d ->
    exists d'', dist_run d' evs = (d'', Ret tt) /\ dist_inv pos workers (acc ++ with_tokens_from (d_next_token d) peers) d'').
  { intros d' Hs' Hd' Hn'. rewrite <-Hn'. apply IH; try done; by rewrite Hn'. }
  destruct ev as [socket| |tok]; cbn [dist_event].
  - destruct peers as [|[[s k] i] peers]; [done|]. cbn in Hs. injection Hs as -> Hs.
    apply Forall_cons in Hg as [(Hrest & Hw & Hsock) Hg]. destruct Hrest as [rest Hrest].
    set (p := mkPeer (d_next_token d + 1) s k i).
    assert (Hcat : acc ++ with_tokens_from (d_next_token d) ((s, k, i) :: peers) = (acc ++ [p]) ++ with_tokens_from (d_next_token d + 1) peers).
    { cbn. by rewrite <-app_assoc. }
    rewrite Hcat in *. unfold zlen in Hmax. cbn [length] in Hmax.
    unfold get_next_token. rewrite (proj2 (Z.eqb_neq _ _)) by lia.
    assert (Hnone : for_token (negotiator d) !! p_token p = None).
    { apply eq_None_not_Some. intros [r Hr]. destruct (ni_token _ _ _ (di_neg _ _ _ _ Hd) _ _ Hr) as (st & H1 & H2).
      destruct (ni_state _ _ _ (di_neg _ _ _ _ Hd) _ _ H1) as [_ (q & rq & Hq & Hnq)].
      pose proof (di_tokens _ _ _ _ Hd q Hq) as Hle. rewrite <-(ng_token _ _ _ _ Hnq), H2 in Hle. cbn in Hle. lia. }
    destruct (got_connection_starts pos acc (negotiator d) p rest connect (di_neg _ _ _ _ Hd) Hrest Hw Hsock Hnone) as (n0 & r & Hn0 & Hf & E).
    apply distinct_prefix in Hdi as Hdi'.
    pose proof (accept_inv _ _ _ _ n0 r p Hd Hdi' eq_refl Hn0 Hf) as Hd0.
    assert (Hr : for_token n0 !! p_token p = Some r) by (by rewrite Hf, lookup_insert_eq).
    destruct (handle_event_spec pos (acc ++ [p]) Hpos Hdi' n0 (p_token p) r connect Hn0 Hr) as (n' & res & Eh & Hst).
    unfold negotiated. cbn [negotiator]. cbn [p p_socket p_token] in E, Eh. rewrite E, Eh.
    destruct (event_step _ _ _ _ n' res Hd0 Hst) as (d' & Ed & Hd'). cbn [d_next_token worker_for_client dist_to_workers] in *.
    assert (Hnx : d_next_token d' = d_next_token d + 1).
    { rewrite (di_next _ _ _ _ Hd'), (di_next _ _ _ _ Hd), zlen_app. unfold zlen. cbn. lia. }
    rewrite Ed. rewrite <-Hnx. apply IH; try done; rewrite ?Hnx; try done. unfold zlen in *. lia.
  - by apply Hstep.
  - destruct He1 as [Hne1 Hne2]. cbn in Hne1. rewrite (proj2 (Z.eqb_neq _ _)), (proj2 (Z.eqb_neq tok 2)) by done. cbn [orb].
    unfold negotiated.
    assert (exists n' res, handle_event tok connect (negotiator d) = (n', res) /\ stays pos acc (negotiator d) n' res) as (n' & res & Eh & Hst).
    { destruct (for_token (negotiator d) !! tok) as [r|] eqn:Er.
      - apply (handle_event_spec pos acc Hpos (distinct_prefix _ _ _ Hdi) _ _ r); [apply Hd|done].
      - exists (negotiator d), NotDone. split; [|split; [apply Hd|by left]].
        unfold handle_event. erewrite bind_ret; [|reflexivity]. rewrite Er. reflexivity. }
    rewrite Eh. destruct (event_step _ _ _ _ n' res Hd Hst) as (d' & Ed & Hd'). rewrite Ed. apply Hstep; try done.
    rewrite (di_next _ _ _ _ Hd'), (di_next _ _ _ _ Hd). done.
Qed.

(** A connection whose name has not been read. *)
Definition unread (d : Dist) (p : Peer) : Prop :=
  exists r st rd, for_token (negotiator d) !! p_token p = Some r /\ states (negotiator d) !! r = Some st /\ id st = IdPending rd.

Lemma new_inv pos n : dist_inv pos (Z.to_nat (Z.max n 1)) [] (dist_new pos n).
Proof.
  assert (Hc : clients (dist_new pos n) = []).
  { unfold clients, dist_new. cbn [dist_to_workers]. generalize (Z.to_nat (Z.max n 1)). intros m. by induction m. }
  constructor; cbn [dist_new negotiator d_next_token worker_for_client dist_to_workers]; try done.
  - by intros ? ?%elem_of_nil.
  - by intros ? ?%elem_of_nil.
  - intros i. rewrite Hc, lookup_empty, elem_of_nil. split; [by intros []|done].
  - rewrite length_replicate. lia.
  - intros w q m [-> _]%lookup_replicate ?%elem_of_nil. done.
  - rewrite Hc. constructor.
Qed.

(** What is not given to a worker waits for bytes. *)
Lemma nothing_forgotten pos workers acc d p : dist_inv pos workers acc d -> distinct pos acc -> p ∈ acc ->
  p_id p ∈ clients d \/ unread d p \/ pos <> Solo /\ exists r st, for_token (negotiator d) !! p_token p = Some r /\
    states (negotiator d) !! r = Some st /\ token st = p_token p /\ for_id (negotiator d) !! p_id p = Some r.
Proof.
  intros Hd Hdi Hp. pose proof (di_neg _ _ _ _ Hd) as Hn.
  destruct (di_all _ _ _ _ Hd p Hp) as [[r Hr]|]; [|by left]. right.
  destruct (ni_token _ _ _ Hn _ _ Hr) as (st & H1 & H2). destruct (id st) as [rd|i] eqn:Ei; [left; by exists r, st, rd|].
  right. destruct (ni_state _ _ _ Hn _ _ H1) as [_ (q & rest & Hq & Hst)].
  assert (q = p) as -> by (apply (proj1 Hdi); try done; by rewrite <-(ng_token _ _ _ _ Hst)).
  destruct (talks_done _ _ _ _ _ (ng_talks _ _ _ _ Hst) Ei) as (-> & _ & _).
  pose proof (ni_done _ _ _ Hn _ _ _ H1 Ei) as Hf. split; [|by exists r, st].
  intros Hs. by rewrite (ni_solo _ _ _ Hn Hs), lookup_empty in Hf.
Qed.

(** C15.  The accepting thread of a server that is alone or at the head of its chain: whatever the
    order in which connections are accepted and their bytes come (in whatever pieces, with reads
    that would block or fail in between), the thread does not panic and does not hang, as long as
    every connection greets as it should (a type and a name, [greeting]), its socket takes the 17
    bytes of the answer sooner or later and no write to it fails but to be tried again ([sock_ok]), no two
    connections come for the same purpose ([told_apart]), the events are about connections
    ([event_ok]) and there are fewer connections than tokens.  ([stray_byte_panics],
    [reset_connection_panics] and [reconnect_panics] show what happens otherwise.)  Then
    - every message to a worker is about one client, in the queue of the worker its name selects,
      with the connection of that client and, at the head, the connection of the next server that
      came for it; each of them was read up to the end of its greeting, and was sent exactly a zero
      byte and the name;
    - no client is given to a worker twice;
    - none is forgotten: of the connections of a client that was not given to a worker (at the
      head: of the two) one has not sent its greeting.
    The references to a negotiation are never lost: its tables hold each of them once ([Rc]). *)
Theorem acceptor_pairs (pos : Position) (num_workers : Z) (peers : list (TcpStream * ClientType * Addr))
    (evs : list (DistEvent * option TcpStream)) :
  pos = Solo \/ pos = Head -> Forall greeting peers -> told_apart pos peers ->
  sockets evs = (fun p => p.1.1) <$> peers -> Forall event_ok evs -> 10 + zlen peers < u64_max ->
  let acc := with_tokens_from 10 peers in
  exists d, dist_run (dist_new pos num_workers) evs = (d, Ret tt) /\
    (forall w q m, dist_to_workers d !! w = Some q -> m ∈ q ->
       exists tok s down i, m = NewClient tok s down i /\ handed pos acc (i, tok, s, down) /\
         Z.of_nat w = worker_for_ip i (Z.max num_workers 1)) /\
    NoDup (clients d) /\
    (pos = Solo -> forall p, p ∈ acc -> p_id p ∈ clients d \/ unread d p) /\
    (forall p q, p ∈ acc -> q ∈ acc -> p_kind p = Client -> p_kind q = Server -> p_id p = p_id q ->
       p_id p ∈ clients d \/ unread d p \/ unread d q).
Proof.
  intros Hpos Hg Ht Hs He Hmax acc. pose proof (distinct_peers pos 10 peers Ht) as Hdi.
  destruct (dist_run_inv pos (Z.to_nat (Z.max num_workers 1)) evs Hpos [] peers (dist_new pos num_workers) (new_inv _ _) Hs Hg He Hdi Hmax)
    as (d & Er & Hd). exists d. split; [done|]. cbn [app] in Hd. change (d_next_token (dist_new pos num_workers)) with 10 in Hd.
  split_and!.
  - intros w q m Hw Hm. destruct (di_queue _ _ _ _ Hd _ _ _ Hw Hm) as (tok & s & down & i & Hx & Hh & E).
    exists tok, s, down, i. split_and!; try done. by rewrite Z2Nat.id in E by lia.
  - apply Hd.
  - intros Hsolo p Hp. destruct (nothing_forgotten _ _ _ _ p Hd Hdi Hp) as [?|[?|[? _]]]; [by left|by right|done].
  - intros p q Hp Hq Hkp Hkq Hid.
    destruct (nothing_forgotten _ _ _ _ p Hd Hdi Hp) as [?|[?|[_ (r & st & H1 & H2 & H3 & H4)]]]; [by auto..|].
    destruct (nothing_forgotten _ _ _ _ q Hd Hdi Hq) as [Hc|[?|[_ (r' & st' & H1' & H2' & H3' & H4')]]]; [left; by rewrite Hid|by auto|].
    exfalso. rewrite Hid in H4. assert (p = q) as ->; [|congruence]. apply (proj1 Hdi); [done..|]. congruence.
Qed.
End Dist.
