(* ===== verification/ServerRound.v ===== *)
(** * A request and its answer

    The way of an append through a server: the worker reads it from the connection of a client, the
    ordering thread gives it a place, the worker writes it to the chain and sends the answer to the
    client, or to the next server of the replication chain ([append_answered]). *)

From stdpp Require Import base gmap list.
From Stdlib Require Import ZArith Lia.
From S2P Require Import Prelude PacketCodec Packets Skeens Trie ByteTrie OrderingThread OrderingInv OrderingSafety.
From S2P Require Import WorkerThread WorkerSafety.
From S2P Require Import DoubleBuffer Reactor ReactorSafety Transport ServerTcp Acceptor.
Open Scope Z_scope.

Section Round.
Context `{HB : Build} `{HG : VecGrowth} {A : Type} `{HT : ByteTrie A, HV : !ByteTrieView A, HL : !ByteTrieLaws A}.

Abbreviation Worker := (WorkerInner (A := A)).
Abbreviation Io := (IoState PerStream).

(** ** Connections that are woken *)

(** What is written to a connection is kept; it stays awake, and goes on writing. *)
Definition carries (c : PerStream) (out : list Z) (c' : PerStream) : Prop :=
  flow (io c') = flow (io c) ++ out /\
  (marked_awake (io c) = true -> marked_awake (io c') = true) /\
  (polling_write (io c) = true -> polling_write (io c') = true).

(** The connections of [s] are those of [s'], with [out t] written to the connection [t]. *)
Definition evolves (s : Io) (out : Z -> list Z) (s' : Io) : Prop :=
  forall t c, streams s !! t = Some c -> exists c', streams s' !! t = Some c' /\ carries c (out t) c'.

Lemma carries_refl c : carries c [] c.
Proof. by split; [rewrite app_nil_r|]. Qed.

Lemma carries_trans c1 c2 c3 out1 out2 : carries c1 out1 c2 -> carries c2 out2 c3 -> carries c1 (out1 ++ out2) c3.
Proof. intros (H1 & H2 & H3) (H4 & H5 & H6). split; [by rewrite H4, H1, app_assoc|]. auto. Qed.

Lemma evolves_trans s1 s2 s3 out : evolves s1 out s2 -> evolves s2 (fun _ => []) s3 -> evolves s1 out s3.
Proof.
  intros H1 H2 t c Hc. destruct (H1 t c Hc) as (c2 & Hc2 & Hk). destruct (H2 t c2 Hc2) as (c3 & Hc3 & Hk').
  exists c3. split; [done|]. rewrite <-(app_nil_r (out t)). by eapply carries_trans.
Qed.

(** A connection is replaced by another. *)
Lemma evolves_insert s token c c' out : streams s !! token = Some c -> carries c out c' ->
  evolves s (fun t => if decide (t = token) then out else []) (put_stream s token c').
Proof.
  intros Hc Hk t c0 Hc0. cbn. destruct (decide (t = token)) as [->|Hne].
  - rewrite lookup_insert_eq. exists c'. split; [done|]. congruence.
  - rewrite lookup_insert_ne by done. exists c0. split; [done|]. apply carries_refl.
Qed.

Lemma marked_carries c out c' token : carries c out c' -> carries c out (mark_as_staying_awake c' token).
Proof. by intros (H1 & H2 & H3). Qed.

Lemma evolves_ext s out out' s' : (forall t, out t = out' t) -> evolves s out s' -> evolves s out' s'.
Proof. intros He H t c Hc. rewrite <-He. by apply H. Qed.

Lemma wake_evolves (s : Io) token : evolves s (fun _ => []) (wake s token).1.
Proof.
  unfold wake. destruct (streams s !! token) as [c|] eqn:Ec; [|by intros t c ?; exists c; split; [|apply carries_refl]].
  destruct (is_marked_as_staying_awake c token); cbn [fst].
  - intros t c0 ?. exists c0. split; [done|apply carries_refl].
  - eapply (evolves_ext _ (fun t => if decide (t = token) then [] else [])); [by intros t; case_decide|].
    apply (evolves_insert s token c _ []); [done|]. apply marked_carries, carries_refl.
Qed.

Lemma wake_marks (s : Io) token c : streams s !! token = Some c ->
  exists c', streams (wake s token).1 !! token = Some c' /\ marked_awake (io c') = true.
Proof.
  intros Hc. unfold wake. rewrite Hc. destruct (is_marked_as_staying_awake c token) eqn:E; cbn; [by exists c|].
  rewrite lookup_insert_eq. by eexists.
Qed.

Lemma mutate_evolves {X} (s : Io) token (f : PerStream -> outcome (PerStream * X)) c c' out x :
  streams s !! token = Some c -> f c = Done (c', x) -> carries c out c' ->
  exists s', mutate s token f = Done (s', Some x) /\ evolves s (fun t => if decide (t = token) then out else []) s'.
Proof.
  intros Hc Hf Hk. unfold mutate. rewrite Hc, Hf. cbn [mbind outcome_bind]. eexists. split; [reflexivity|].
  destruct (is_marked_as_staying_awake c' token); [by eapply evolves_insert|].
  eapply (evolves_insert s token c); [done|]. by apply marked_carries.
Qed.

(** The bytes of a write. *)
Lemma add_writes_carries (c : PerStream) bytes : io_ok (io c) -> fits (zlen (concat bytes)) -> concat bytes <> [] ->
  exists c', add_writes c bytes = Done c' /\ carries c (concat bytes) c' /\ polling_write (io c') = true.
Proof.
  intros Hi Hf Hne. destruct (add_bytes_wrote (writer (io c)) bytes (io_write_ok _ Hi) Hf) as (w & E & Hw).
  unfold add_writes, io_add_bytes_to_write. rewrite E. cbn [mbind outcome_bind]. eexists. split; [reflexivity|].
  destruct (with_writer_spec (io c) w _ Hi Hw) as [_ Hfl]. destruct Hw as (_ & _ & Hp).
  assert (Hpw : w_polling w = true) by (apply Hp; by rewrite bool_decide_false, orb_true_r).
  split; [|done]. split; [done|]. by split.
Qed.

Lemma mark_backpressured_carries (c : PerStream) : carries c [] (mark_as_backpressured c).
Proof. by split; [rewrite app_nil_r|]. Qed.

(** ** The answer *)

(** What is sent for a packet that was written: to the client the packet; to the next server also
    the location of its storage and the client's name. *)
Definition answer_bytes (w : Worker) (r : Ref) (loc : Z) (addr : Addr) : list Z :=
  bytes_of r ++ if has_downstream w then le_bytes 8 loc ++ Ipv4SocketAddr.bytes addr else [].

Definition answer_of (w : Worker) (r : Ref) (loc : Z) : ToSend :=
  if has_downstream w then SendOldReplication (bytes_of r) loc else SendStaticSlice (bytes_of r).

Lemma bytes_of_cons r : bytes_of r <> [].
Proof. by intros Hn. Qed.

(** The answer is written to the connection it is for. *)
Lemma answer_written (w : Worker) (s : Io) token c r loc addr :
  streams s !! token = Some c -> io_ok (io c) -> fits (zlen (answer_bytes w r loc addr)) ->
  exists s' nb, (if has_downstream w then send_downsteam s token addr (answer_of w r loc) else send_to_client s token (answer_of w r loc))
      = Done (s', nb) /\
    evolves s (fun t => if decide (t = token) then answer_bytes w r loc addr else []) s' /\
    exists c', streams s' !! token = Some c' /\ polling_write (io c') = true.
Proof.
  intros Hc Hi Hf.
  assert (Hgo : forall bytes, concat bytes = answer_bytes w r loc addr ->
    exists s' nb, write_to_stream s token (fun c => add_writes c bytes) = Done (s', Some nb) /\
      evolves s (fun t => if decide (t = token) then answer_bytes w r loc addr else []) s' /\
      exists c', streams s' !! token = Some c' /\ polling_write (io c') = true).
  { intros bytes Hb. destruct (add_writes_carries c bytes Hi) as (c' & E & Hk & Hp); [by rewrite Hb|rewrite Hb; by intros [? _]%app_eq_nil|].
    rewrite Hb in Hk. eexists. unfold write_to_stream, mutate. rewrite Hc, E. cbn [mbind outcome_bind].
    eexists. split; [reflexivity|]. destruct (is_marked_as_staying_awake c' token).
    - split; [by eapply evolves_insert|]. exists c'. cbn. by rewrite lookup_insert_eq.
    - split; [eapply (evolves_insert s token c); [done|by apply marked_carries]|].
      eexists. cbn. rewrite lookup_insert_eq. by split. }
  unfold answer_of, answer_bytes in *. destruct (has_downstream w).
  - destruct (Hgo [bytes_of r; le_bytes 8 loc; Ipv4SocketAddr.bytes addr]) as (s' & nb & E & H); [cbn; by rewrite app_nil_r|].
    exists s', nb. cbn [send_downsteam]. rewrite E. done.
  - destruct (Hgo [bytes_of r]) as (s' & nb & E & H); [done|].
    exists s', nb. cbn [send_to_client]. rewrite E. done.
Qed.

Lemma evolves_keeps s out s' token c : evolves s out s' -> streams s !! token = Some c -> polling_write (io c) = true ->
  exists c', streams s' !! token = Some c' /\ polling_write (io c') = true.
Proof. intros He Hc Hp. destruct (He _ _ Hc) as (c' & Hc' & _ & _ & Hk). exists c'. auto. Qed.

Lemma evolves_marked s out s' token c : evolves s out s' -> streams s !! token = Some c -> marked_awake (io c) = true ->
  exists c', streams s' !! token = Some c' /\ marked_awake (io c') = true.
Proof. intros He Hc Hp. destruct (He _ _ Hc) as (c' & Hc' & _ & Hk & _). exists c'. auto. Qed.

(** The end of [handle_log_work]: both connections are woken. *)
Lemma wakes_both (s : Io) send recv (nb : bool) c : streams s !! send = Some c -> polling_write (io c) = true ->
  exists s', ('(s, _) ← (if nb then mutate (wake (wake s send).1 recv).1 recv (fun c => Done (mark_as_backpressured c, tt))
                         else Done ((wake (wake s send).1 recv).1, None)); Done s) = Done s' /\
    evolves s (fun _ => []) s' /\ exists c', streams s' !! send = Some c' /\ marked_awake (io c') = true /\ polling_write (io c') = true.
Proof.
  intros Hc Hp. destruct (wake_marks s send c Hc) as (c1 & Hc1 & Hm1).
  pose proof (wake_evolves s send) as E1. pose proof (wake_evolves (wake s send).1 recv) as E2.
  set (s2 := (wake (wake s send).1 recv).1) in *.
  assert (E12 : evolves s (fun _ => []) s2) by (by eapply evolves_trans).
  assert (exists s', ('(s, _) ← (if nb then mutate s2 recv (fun c => Done (mark_as_backpressured c, tt)) else Done (s2, None)); Done s) = Done s' /\
    evolves s2 (fun _ => []) s') as (s' & -> & E3).
  { destruct nb; [|eexists; split; [reflexivity|]; intros t c0 ?; exists c0; split; [done|apply carries_refl]].
    destruct (streams s2 !! recv) as [cr|] eqn:Er.
    - destruct (mutate_evolves s2 recv (fun c => Done (mark_as_backpressured c, tt)) cr _ [] tt Er eq_refl (mark_backpressured_carries cr))
        as (s' & -> & E). exists s'. split; [done|]. eapply evolves_ext; [|exact E]. intros t; cbv beta; by destruct (decide (t = recv)).
    - unfold mutate. rewrite Er. eexists. split; [reflexivity|]. intros t c0 ?. exists c0. split; [done|apply carries_refl]. }
  exists s'. split; [done|]. split; [by eapply evolves_trans|].
  destruct (evolves_marked _ _ _ _ _ E2 Hc1 Hm1) as (c2 & Hc2 & Hm2). destruct (evolves_marked _ _ _ _ _ E3 Hc2 Hm2) as (c3 & Hc3 & Hm3).
  destruct (evolves_keeps _ _ _ _ _ E12 Hc Hp) as (c2' & Hc2' & Hp2). destruct (evolves_keeps _ _ _ _ _ E3 Hc2' Hp2) as (c3' & Hc3' & Hp3).
  exists c3. split_and!; try done. congruence.
Qed.

(** C5.  The way of a single append through a server in a reachable state, when no multi-append holds
    its chain back: it is an append the protocol allows ([op_ok]: valid, not a direct write, for a
    chain that is stored here and has room), and Skeens' algorithm has nothing queued for the chain
    that it would have to wait for ([need_single_at] is false; otherwise it is queued there).  The
    worker that reads it from the connection of a client turns it into one message for the ordering
    thread; that gives it the next place of its chain and tells the same worker to write it.  When the worker comes to that, whatever was
    handled and written in between, it sends the packet with its place: to the connection of the
    client, or, in a replication chain, to the next server with the location of its storage and the
    client's name.  To no other connection is anything sent; the connection is awake and writing;
    and from then on every read of the place gives the packet that was sent (unless it was trimmed).
    The connection the answer goes to must still be there, and in a dev build the answer must not be
    larger than the write buffer ([fits]). *)
Theorem append_answered (w : Worker) (sock : TcpWriter) (token : Z) (addr : Addr)
    (id flags : Z) (loc : OrderIndex) (deps : list OrderIndex) (data : list Z) (ts : Z) k' :
  let o := oi_order loc in
  let i := chain_len (srv (mem w)) o in
  let r := Single id flags loc deps data ts in
  let r' := placed_single id flags loc deps data ts i in
  let t : Origin := (worker_num w, token, addr) in
  srv_reach (srv (mem w)) -> op_ok (srv (mem w)) r TNone -> need_single_at (cur_skeens (srv (mem w)) o) ts = Done (false, k') ->
  exists w1 s1 slot,
    worker_handle_message w sock token (bytes_of r, addr, None) = Done (w1, sock) /\
    to_log w1 = to_log w ++ [LogNew r TNone t] /\ mem w1 = mem w /\
    log_message (LogNew r TNone t) (srv (mem w)) = Done (s1, tt) /\
    to_workers s1 = to_workers (srv (mem w)) ++ [Write r' (o, slot) t] /\
    forall (w2 : Worker) (s : Io) (c : PerStream) (unique : bool),
      rtc (env_step o slot) (mkMem s1 (slices (mem w))) (mem w2) -> worker_num w2 = worker_num w ->
      let send_token := default token (downstream_for_addr w2 !! addr) in
      let answer := answer_bytes w2 r' (storage_loc slot) addr in
      streams s !! send_token = Some c -> io_ok (io c) -> fits (zlen answer) ->
      exists w3 s3, handle_log_work w2 s (Write r' (o, slot) t, unique) = Done (w3, s3) /\
        evolves s (fun t => if decide (t = send_token) then answer else []) s3 /\
        (exists c', streams s3 !! send_token = Some c' /\ marked_awake (io c') = true /\ polling_write (io c') = true) /\
        forall m4 rid, rtc (env_step o slot) (mem w3) m4 -> below_min m4 o i = false ->
          WorkerThread.handle_read (read_of rid o i) m4 = Done (m4, inl (bytes_of r')).
Proof.
  intros o i r r' t Hs Hok Hneed. pose proof Hok as [Hv [Hd _]].
  destruct (single_op_ok (mem w) id flags loc deps data ts TNone t k' Hs Hok Hneed) as (s1 & slot & E & Hm & Ha & Hsz & Hv' & Hpos).
  eexists _, s1, slot. split.
  { cbn [worker_handle_message]. unfold send_to_log. rewrite contents_valid by done. cbn [mbind outcome_bind Packets.flag].
    change (Packets.layout r) with (Done EntryKind.EntryLayout.Data). cbn [r mbind outcome_bind Packets.flag]. rewrite Hd. reflexivity. }
  split; [done|]. split; [done|]. split; [exact E|]. split; [exact Hm|].
  intros w2 s c u Hstar Hnum send_token answer Hc Hi Hf.
  pose proof (env_keeps_rtc _ _ _ _ _ _ Ha Hstar) as Ha2.
  destruct (finish_write_ok (has_downstream w2) (mem w2) _ _ slot _ t Ha2 Hv' Hsz) as (m3 & E3 & Ha3).
  destruct (answer_written w2 s send_token c r' (storage_loc slot) addr Hc Hi Hf) as (s2 & nb & E4 & Hev & c2 & Hc2 & Hp2).
  destruct (wakes_both s2 send_token token nb c2 Hc2 Hp2) as (s3 & E5 & Hev3 & Hc3).
  exists (with_mem w2 m3), s3. split; [|split; [by eapply evolves_trans|split; [done|]]].
  - assert (E3' : handle_to_worker2 u (has_downstream w2) (Write r' (o, slot) t) (mem w2) =
              Done (m3, (Some r', (answer_of w2 r' (storage_loc slot), t)))) by exact E3.
    unfold handle_log_work. change (get_associated_data (Write r' (o, slot) t)) with (worker_num w, token, addr).
    cbv beta iota. rewrite debug_assert_true by (rewrite Hnum; apply Z.eqb_refl).
    cbn [mbind outcome_bind]. unfold on_mem. rewrite E3'. cbn [mbind outcome_bind fst snd].
    cbn [with_mem has_downstream]. fold send_token. rewrite E4. cbn [mbind outcome_bind].
    destruct nb; cbn [mbind outcome_bind] in E5 |- *.
    + destruct (mutate _ token _) as [[s4 x]|]; [|done]. cbn in E5 |- *. by injection E5 as ->.
    + by injection E5 as ->.
  - intros m4 rid Hstar' Hmin. pose proof (env_keeps_rtc _ _ _ _ _ _ Ha3 Hstar') as Ha4. by eapply handle_read_ok.
Qed.
End Round.
