(* ===== verification/AcceptorDemo.v ===== *)
(** * Witnesses for the accepting thread and for the way of a request

    A client and the next server of its chain connect to the head of a chain; a client connects to
    the tail; a client appends an entry. *)

From stdpp Require Import base gmap list.
From Stdlib Require Import ZArith Lia.
From S2P Require Import Prelude PacketCodec Packets Skeens Trie ByteTrie OrderingThread OrderingInv OrderingSafety.
From S2P Require Import WorkerThread WorkerSafety.
From S2P Require Import DoubleBuffer Reactor ReactorSafety Transport ServerTcp ServerHop ServerDemo.
From S2P Require Import Acceptor AcceptorSafety ServerRound.
Open Scope Z_scope.

Module JoinDemo.

Definition name : Addr := Ipv4SocketAddr.mk (replicate 16 7).
Definition takes_all : list WriteAnswer := WriteErr WouldBlock :: Took 1 :: replicate 40 (Took 100).

(** What a client sends, in pieces; what the next server sends for it. *)
Definition client_socket : TcpStream :=
  stream_new [Got [2]; ReadErr WouldBlock; Got (replicate 10 7); Got []; Got (replicate 6 7)] takes_all.
Definition server_socket : TcpStream := stream_new [ReadErr WouldBlock; Got (1 :: replicate 16 7)] takes_all.
Definition peers : list (TcpStream * ClientType * Addr) := [(client_socket, Client, name); (server_socket, Server, name)].
Definition evs : list (DistEvent * option TcpStream) :=
  [(Accepted client_socket, None); (ReadyFor 11, None); (Accepted server_socket, None); (AcceptFailed, None);
   (ReadyFor 12, None); (ReadyFor 11, None); (ReadyFor 12, None); (ReadyFor 11, None); (ReadyFor 11, None); (ReadyFor 11, None)].

Lemma peers_greet : Forall greeting peers.
Proof.
  constructor; [|constructor; [|constructor]]; (split; [exists []; vm_compute; reflexivity|]); (split; [done|]);
    (split; [vm_compute; reflexivity|]); vm_compute; lia.
Qed.

Lemma peers_apart : told_apart Head peers.
Proof. apply (bool_decide_unpack _). by vm_compute. Qed.
End JoinDemo.
Import JoinDemo.

Lemma acceptor_pairs_witness :
  exists d, dist_run (dist_new Head 2) evs = (d, Ret tt) /\ clients d = [name] /\
    forall w q m, dist_to_workers d !! w = Some q -> m ∈ q ->
      exists tok s down i, m = NewClient tok s down i /\ handed Head (with_tokens_from 10 peers) (i, tok, s, down).
Proof.
  destruct (acceptor_pairs Head 2 peers evs) as (d & E & Hq & _ & _ & _).
  - by right.
  - apply peers_greet.
  - apply peers_apart.
  - reflexivity.
  - repeat (constructor; [done|]). constructor.
  - reflexivity.
  - exists d. split; [exact E|]. split.
    + assert (Hc : clients (dist_run (dist_new Head 2) evs).1 = [name]) by (vm_compute; reflexivity). by rewrite E in Hc.
    + intros w q m Hw Hm. destruct (Hq w q m Hw Hm) as (tok & s & down & i & H1 & H2 & _). exists tok, s, down, i. split; [exact H1|exact H2].
Defined.

(** ** An append and its answer *)

Import HopDemo.

Module RoundDemo.

Definition fresh_append : Ref := Single 7 0 (mkOI 1 0) [] [1] 0.

Lemma append_ok : op_ok (srv (mem worker)) fresh_append TNone.
Proof.
  split; [Demo.comp|]. split; [Demo.comp|]. split; [Demo.comp|]. split; [Demo.fresh_tac|]. split; [Demo.comp|Demo.room_tac].
Qed.

Lemma worker_reached : srv_reach (srv (mem worker)).
Proof. exact server_reach. Qed.

Definition appended : Ref := placed_single 7 0 (mkOI 1 0) [] [1] 0 1.
Definition its_stream : PerStream := new_stream (stream_new [] []) 10 false None.
Definition connections : IoState PerStream := mkIoState {[10 := its_stream]} [].
End RoundDemo.
Import RoundDemo.

(** The client's request comes on connection 10, on which the answer goes back. *)
Lemma append_answered_witness :
  exists w1 s1 slot w3 s3 c',
    worker_handle_message worker no_writer 10 (bytes_of fresh_append, client, None) = Done (w1, no_writer) /\
    handle_log_work (with_mem worker (mkMem s1 (slices (mem worker)))) connections
      (Write appended (1, slot) (0, 10, client), true) = Done (w3, s3) /\
    streams s3 !! 10 = Some c' /\ flow (io c') = flow (io its_stream) ++ bytes_of appended.
Proof.
  destruct (append_answered worker no_writer 10 client 7 0 (mkOI 1 0) [] [1] 0 _ worker_reached append_ok eq_refl)
    as (w1 & s1 & slot & E & _ & _ & _ & _ & H).
  destruct (H (with_mem worker (mkMem s1 (slices (mem worker)))) connections its_stream true) as (w3 & s3 & E3 & Hev & _ & _).
  - apply rtc_refl.
  - reflexivity.
  - reflexivity.
  - apply io_new_ok.
  - intros _. vm_compute. discriminate.
  - destruct (Hev 10 its_stream eq_refl) as (c' & Hc & Hf & _).
    exists w1, s1, slot, w3, s3, c'. split; [exact E|]. split; [exact E3|]. split; [exact Hc|exact Hf].
Defined.

(** ** Corners of the negotiation *)

Definition outcomes (p : Position) (es : list (DistEvent * option TcpStream)) : list Addr * Res unit :=
  let '(d, res) := dist_run (dist_new p 1) es in (clients d, res).

Definition whole : list Z := 2 :: replicate 16 7.
Definition at_once : TcpStream := stream_new [Got whole; Got (drop 1 whole)] takes_all.

(** A first byte that is neither 1 nor 2 ends the thread. *)
Example stray_byte_panics : outcomes Solo [(Accepted (stream_new [Got [3]] takes_all), None)] = ([], Panicked).
Proof. vm_compute. reflexivity. Qed.

(** So does a connection that does not take the zero byte. *)
Example reset_connection_panics :
  outcomes Solo [(Accepted (stream_new [] [WriteErr (OtherKind 104)]), None)] = ([], Panicked).
Proof. vm_compute. reflexivity. Qed.

(** A client that comes back under its name ends the thread: [worker_for_client] is never told that
    a client has left. *)
Example reconnect_panics : outcomes Solo [(Accepted at_once, None); (Accepted at_once, None)] = ([name], Panicked).
Proof. vm_compute. reflexivity. Qed.

(** At the tail each event that comes before the acknowledgement of the server before it sends the
    greeting again. *)
Definition slow_upstream : TcpStream :=
  stream_new [Got [0]; ReadErr WouldBlock; ReadErr WouldBlock; Got (replicate 16 7)] takes_all.

Definition sent_up (m : DistToWorker) : list Z := match m with NewClient _ up _ _ => sent up | _ => [] end.

Example tail_greets_again :
  let '(d, res) := dist_run (dist_new Tail 1)
    [(Accepted at_once, Some slow_upstream); (ReadyFor 11, None); (ReadyFor 11, None)] in
  res = Ret tt /\ sent_up <$> concat (dist_to_workers d) = [concat (replicate 3 (1 :: replicate 16 7))].
Proof. vm_compute. by split. Qed.

(** A client greets two servers, which answer late. *)
Definition late : TcpStream := stream_new [ReadErr WouldBlock; Got [0]; ReadErr Interrupted; Got (replicate 9 7); Got (replicate 7 7)] takes_all.

Example client_joins :
  let '(servers, res) := client_connects name [late; late] in
  res = Ret tt /\ sent <$> servers = [whole; whole].
Proof. vm_compute. by split. Qed.

(** A server that answers with another name is refused. *)
Example wrong_ack_panics :
  (client_connects name [stream_new [Got [0]; Got (replicate 16 8)] takes_all]).2 = Panicked.
Proof. vm_compute. reflexivity. Qed.
