(* ===== verification/ZooFiles.v ===== *)
(** * A file system on the log ([examples/zookeeper/src/files.rs], [message.rs])

    The file system of the coordination service that is built on the log: files with data,
    children and counters, and a rename that is a transaction between the thread that has the old
    file and the thread that has the new one.  Each of the two says with a message in the log
    whether it can go ahead; while a file takes part, what is asked of it waits.

    A path is its text; two paths are the same when their components are, so the tables are keyed
    by components.  Callbacks are recorded in the order of the calls.  An error is the line of the
    source it comes from. *)

From stdpp Require Import base gmap list strings pretty.
From Stdlib Require Import ZArith Lia Ascii.
From S2P Require Import Prelude.
Open Scope Z_scope.

(** ** Paths *)

Definition PathBuf : Type := string.

Inductive Component := RootDir | CurDir | ParentDir | Normal (name : string).
#[export] Instance Component_eq_dec : EqDecision Component.
Proof. solve_decision. Defined.
#[export] Instance Component_countable : Countable Component.
Proof.
  refine (inj_countable'
    (fun c => match c with RootDir => inl 0%nat | CurDir => inl 1%nat | ParentDir => inl 2%nat | Normal s => inr s end)
    (fun x => match x with inl O => RootDir | inl (S O) => CurDir | inl _ => ParentDir | inr s => Normal s end) _).
  by intros [].
Defined.

Definition Key : Type := list Component.

Fixpoint pieces (s : string) : list string :=
  match s with
  | EmptyString => [EmptyString]
  | String c rest =>
      match pieces rest with
      | p :: ps => if bool_decide (c = "/"%char) then EmptyString :: p :: ps else String c p :: ps
      | [] => []
      end
  end.

Definition component (piece : string) : option Component :=
  if bool_decide (piece = "" \/ piece = ".")%string then None
  else if bool_decide (piece = "..")%string then Some ParentDir
  else Some (Normal piece).

(** [Path::components] *)
Definition key (path : PathBuf) : Key :=
  match pieces path with
  | first :: rest =>
      (if bool_decide (first = "" /\ rest <> [])%string then [RootDir]
       else if bool_decide (first = ".")%string then [CurDir] else [])
      ++ omap component (first :: rest)
  | [] => []
  end.

(** [Path::parent] *)
Definition parent (k : Key) : option Key :=
  match last k with
  | None | Some RootDir => None
  | Some _ => Some (removelast k)
  end.

(** [Path::starts_with] *)
Definition starts_with (path base : PathBuf) : bool := bool_decide (key base `prefix_of` key path).

(** ** Messages *)

Record Id := mkId { client : Z; count : Z }.
#[export] Instance Id_eq_dec : EqDecision Id.
Proof. solve_decision. Defined.
#[export] Instance Id_countable : Countable Id.
Proof. refine (inj_countable' (fun i => (client i, count i)) (fun '(a, b) => mkId a b) _). by intros []. Defined.

(** [CLIENT_ID] and [COUNTER] of the process. *)
Record Ids := mkIds { CLIENT_ID : Z; COUNTER : Z }.

Definition Id_new (ids : Ids) : outcome (Ids * Id) :=
  _ ← assert_ (negb (CLIENT_ID ids =? 0));
  Done (mkIds (CLIENT_ID ids) ((COUNTER ids + 1) mod (u64_max + 1)), mkId (CLIENT_ID ids) (COUNTER ids)).

(** [CreateMode(u32)] *)
Definition ephemeral : Z := 2.
Definition ephemeral_sequential : Z := 3.
Definition persistent : Z := 4.
Definition persistent_sequential : Z := 5.
Definition is_ephemeral (mode : Z) : bool := mode <=? 3.
Definition is_sequential (mode : Z) : bool := Z.land mode 1 =? 1.

Inductive Mutation :=
| Create (id : Id) (create_mode : Z) (path : PathBuf) (data : list Z)
| Delete (id : Id) (path : PathBuf) (version : Z)
| Set_ (id : Id) (path : PathBuf) (data : list Z) (version : Z)
| RenamePart1 (id : Id) (old_path new_path : PathBuf) (check_new : bool)
| RenameOldExists (id part1_id : Id) (create_mode : Z) (old_path new_path : PathBuf) (data : list Z)
| RenameNewEmpty (id part1_id : Id) (old_path new_path : PathBuf)
| RenameNack (id part1_id : Id) (old_path new_path : PathBuf) (due_to_old : bool).

Definition mut_id (m : Mutation) : Id :=
  match m with
  | Create id _ _ _ | Delete id _ _ | Set_ id _ _ _ | RenamePart1 id _ _ _
  | RenameOldExists id _ _ _ _ _ | RenameNewEmpty id _ _ _ | RenameNack id _ _ _ _ => id
  end.

Definition part1_id (m : Mutation) : outcome Id :=
  match m with
  | RenameOldExists _ part1_id _ _ _ _ | RenameNewEmpty _ part1_id _ _ | RenameNack _ part1_id _ _ _ => Done part1_id
  | _ => Panic
  end.

Definition mut_path (m : Mutation) : PathBuf :=
  match m with
  | Create _ _ path _ | Delete _ path _ | Set_ _ path _ _ => path
  | RenamePart1 _ old_path _ _ | RenameOldExists _ _ _ old_path _ _
  | RenameNewEmpty _ _ old_path _ | RenameNack _ _ old_path _ _ => old_path
  end.

Definition path2 (m : Mutation) : option PathBuf :=
  match m with
  | RenamePart1 _ _ new_path _ | RenameOldExists _ _ _ _ new_path _
  | RenameNewEmpty _ _ _ new_path | RenameNack _ _ _ new_path _ => Some new_path
  | _ => None
  end.

Definition is_nack (m : Mutation) : bool := match m with RenameNack _ _ _ _ _ => true | _ => false end.

Record Stat := mkStat { version : Z; create_time : Z; mutate_time : Z }.
Definition Stat_new (create_time : Z) : Stat := mkStat 0 create_time 0.
Definition EMPTY_STAT : Stat := mkStat 0 0 0.

(** The callback of an observation is known by the observation's identifier. *)
Inductive ObsKind := Exists | GetData | GetChildren.
Record Observation := mkObs { obs_kind : ObsKind; obs_id : Id; obs_path : PathBuf; watch : bool }.

Inductive WhichPath := Path1 | Path2 | Both.
#[export] Instance WhichPath_eq_dec : EqDecision WhichPath.
Proof. solve_decision. Defined.

(** ** Files *)

Inductive CommitState := Ok | Abort_ | Pending.
#[export] Instance CommitState_eq_dec : EqDecision CommitState.
Proof. solve_decision. Defined.

Inductive Operation := Mut (m : Mutation) (which : WhichPath) | Obs (o : Observation).

Record PendingRename := mkRename {
  r_id : Id;
  r_old_path : PathBuf;
  r_new_path : PathBuf;
  r_data : list Z;
  old_exists : CommitState;
  new_empty : CommitState;
  pending_ops : list Operation;
  r_check_new : bool;
}.

Definition PendingRename_new (id : Id) (old_path new_path : PathBuf) (check_new : bool) : PendingRename :=
  mkRename id old_path new_path [] Pending Pending [] check_new.

Definition state (r : PendingRename) : outcome CommitState :=
  match old_exists r, new_empty r, r_check_new r with
  | _, _, false => Panic
  | _, Pending, true => Done Pending
  | Pending, _, _ => Done Pending
  | Ok, new, true => Done new
  | Abort_, _, _ => Done Abort_
  end.

Record FileNode := mkNode {
  n_path : PathBuf;
  stat : Stat;
  data : list Z;
  is_ephemeral_node : bool;
  children : gmap Key PathBuf;
  sequential_counters : gmap Key Z;
  pending_rename : option PendingRename;
}.

Definition FileNode_new (path : PathBuf) (data : list Z) (create_time : Z) : FileNode :=
  mkNode path (Stat_new create_time) data false ∅ ∅ None.

Definition with_pending (r : option PendingRename) (n : FileNode) : FileNode :=
  mkNode (n_path n) (stat n) (data n) (is_ephemeral_node n) (children n) (sequential_counters n) r.
Definition with_children (c : gmap Key PathBuf) (n : FileNode) : FileNode :=
  mkNode (n_path n) (stat n) (data n) (is_ephemeral_node n) c (sequential_counters n) (pending_rename n).
Definition with_counters (c : gmap Key Z) (n : FileNode) : FileNode :=
  mkNode (n_path n) (stat n) (data n) (is_ephemeral_node n) (children n) c (pending_rename n).
Definition with_data (d : list Z) (s : Stat) (n : FileNode) : FileNode :=
  mkNode (n_path n) s d (is_ephemeral_node n) (children n) (sequential_counters n) (pending_rename n).

Record FileSystem := mkFs {
  my_root : PathBuf;
  num_entries : Z;
  files : gmap Key FileNode;
  roots : gmap string Z;
}.

Definition with_files (m : gmap Key FileNode) (fs : FileSystem) : FileSystem :=
  mkFs (my_root fs) (num_entries fs) m (roots fs).
Definition put (k : Key) (n : FileNode) (fs : FileSystem) : FileSystem := with_files (<[k := n]> (files fs)) fs.
Definition remove (k : Key) (fs : FileSystem) : FileSystem := with_files (delete k (files fs)) fs.

Definition FileSystem_new (my_root : PathBuf) (roots : gmap string Z) : FileSystem :=
  put (key my_root) (FileNode_new my_root [] 0)
    (put (key "/") (FileNode_new "/" [] 0) (mkFs my_root 0 ∅ roots)).

(** What is called back: a mutation's callback, with the messages it is to send, and an
    observation's. *)
Inductive Seen := SeenStat (path : PathBuf) (s : Stat) | SeenData (path : PathBuf) (d : list Z) (s : Stat)
  | SeenChildren (path : PathBuf) (c : gmap Key PathBuf) | NotSeen (line : Z).
Inductive Call :=
| Mutated (id : Id) (res : PathBuf * Stat + Z) (msg0 msg1 : option Mutation)
| Observed (id : Id) (res : Seen).

Section Files.
Context `{Build}.

(** *** One file *)

Definition add_entry (fs : FileSystem) : outcome FileSystem :=
  n ← add64 (num_entries fs) 1;
  Done (mkFs (my_root fs) n (files fs) (roots fs)).

(** [HashSet::insert] keeps the path that is there. *)
Definition insert_child (path : PathBuf) (c : gmap Key PathBuf) : gmap Key PathBuf :=
  match c !! key path with Some _ => c | None => <[key path := path]> c end.

(** [*counter += 1] of an [i64] *)
Definition i64_max : Z := 9223372036854775807.
Definition next_count (c : Z) : outcome Z :=
  if c <? i64_max then Done (c + 1) else if debug_assertions then Panic else Done (- i64_max - 1).

Definition create (fs : FileSystem) (create_mode : Z) (path : PathBuf) (d : list Z) : outcome (FileSystem * (PathBuf + Z)) :=
  match files fs !! key path with
  | Some _ => Done (fs, inr 408)
  | None =>
      pk ← unwrap (parent (key path));
      match files fs !! pk with
      | None => Done (fs, inr 415)
      | Some par =>
          '(par, actual_path) ←
            (if is_sequential create_mode then
               let cnt := default 0 (sequential_counters par !! key path) in
               next ← next_count cnt;
               Done (with_counters (<[key path := next]> (sequential_counters par)) par, (path +:+ pretty cnt)%string)
             else Done (par, path));
          let fs := put pk (with_children (insert_child actual_path (children par)) par) fs in
          let new_node := FileNode_new actual_path d (num_entries fs) in
          fs ← add_entry fs;
          match files fs !! key actual_path with
          | Some node => Done (fs, inl (n_path node))
          | None => Done (put (key actual_path) new_node fs, inl actual_path)
          end
      end
  end.

(** The file leaves the children of its parent. *)
Definition unlink (fs : FileSystem) (path : PathBuf) : outcome FileSystem :=
  pk ← unwrap (parent (key path));
  par ← unwrap (files fs !! pk);
  Done (put pk (with_children (base.delete (key path) (children par)) par) fs).

Definition delete_file (fs : FileSystem) (path : PathBuf) (v : Z) : outcome (FileSystem * (PathBuf + Z)) :=
  match files fs !! key path with
  | None => Done (fs, inr 448)
  | Some file =>
      if negb (v =? -1) && negb (version (stat file) =? v) then Done (fs, inr 451)
      else if bool_decide (children file <> ∅) then Done (fs, inr 454)
      else
        fs ← unlink fs path;
        file ← unwrap (files fs !! key path);
        Done (remove (key path) fs, inl (n_path file))
  end.

Definition set_file (fs : FileSystem) (path : PathBuf) (v : Z) (d : list Z) : outcome (FileSystem * (PathBuf * Stat + Z)) :=
  match files fs !! key path with
  | None => Done (fs, inr 476)
  | Some file =>
      if negb (v =? -1) && negb (version (stat file) =? v) then Done (fs, inr 479)
      else
        let s := mkStat (version (stat file)) (create_time (stat file)) (num_entries fs) in
        let file := with_data d s file in
        fs ← add_entry (put (key path) file fs);
        Done (fs, inl (n_path file, s))
  end.

(** *** Renaming *)

Definition handle_old (fs : FileSystem) (old_path : PathBuf) (which : WhichPath) : bool :=
  starts_with old_path (my_root fs) && bool_decide (which = Path1 \/ which = Both).
Definition handle_new (fs : FileSystem) (new_path : PathBuf) (which : WhichPath) : bool :=
  starts_with new_path (my_root fs) && bool_decide (which = Path2 \/ which = Both).

Definition build_nack (ids : Ids) (id : Id) (old_path new_path : PathBuf) (due_to_old : bool) : outcome (Ids * Mutation) :=
  '(ids, i) ← Id_new ids;
  Done (ids, RenameNack i id old_path new_path due_to_old).

(** The old file is held; what it says. *)
Definition part1_old (fs : FileSystem) (ids : Ids) (id : Id) (old_path new_path : PathBuf) (check_new : bool)
  : outcome (FileSystem * Ids * Mutation) :=
  let rename := PendingRename_new id old_path new_path check_new in
  match files fs !! key old_path with
  | None =>
      '(ids, nack) ← build_nack ids id old_path new_path true;
      Done (put (key old_path) (with_pending (Some rename) (FileNode_new old_path [] (num_entries fs))) fs, ids, nack)
  | Some file =>
      match pending_rename file with
      | Some _ => Panic
      | None =>
          '(ids, i) ← Id_new ids;
          Done (put (key old_path) (with_pending (Some rename) file) fs, ids,
                RenameOldExists i id persistent old_path new_path (data file))
      end
  end.

(** The new file is held, or made; what it says, and whether it refuses. *)
Definition part1_new (fs : FileSystem) (ids : Ids) (id : Id) (old_path new_path : PathBuf) (check_new : bool)
  : outcome (FileSystem * Ids * option Mutation * option Z) :=
  let rename := PendingRename_new id old_path new_path check_new in
  '(fs, add_node, nack) ←
    (match files fs !! key new_path with
     | None => Done (fs, true, false)
     | Some file =>
         match pending_rename file with
         | Some _ => if check_new then Panic else Done (fs, true, false)
         | None => Done (put (key new_path) (with_pending (Some rename) file) fs, false, true)
         end
     end);
  fs ← (if (add_node : bool) then
          let node := with_pending (Some rename) (FileNode_new new_path [] (num_entries fs)) in
          fs ← add_entry fs;
          Done (put (key new_path) node fs)
        else Done fs);
  if (nack : bool) then
    '(ids, m) ← build_nack ids id old_path new_path false; Done (fs, ids, Some m, Some 587)
  else
    pk ← unwrap (parent (key new_path));
    match files fs !! pk with
    | None => '(ids, m) ← build_nack ids id old_path new_path false; Done (fs, ids, Some m, Some 593)
    | Some file =>
        if is_ephemeral_node file then
          '(ids, m) ← build_nack ids id old_path new_path false; Done (fs, ids, Some m, Some 598)
        else if check_new then
          '(ids, i) ← Id_new ids; Done (fs, ids, Some (RenameNewEmpty i id old_path new_path), None)
        else Done (fs, ids, None, None)
    end.

Definition rename_part1 (fs : FileSystem) (ids : Ids) (id : Id) (old_path new_path : PathBuf) (which : WhichPath) (check_new : bool)
  : outcome (FileSystem * Ids * (PathBuf + Z) * option Mutation * option Mutation) :=
  '(fs, ids, msg0) ←
    (if handle_old fs old_path which then
       '(fs, ids, m) ← part1_old fs ids id old_path new_path check_new; Done (fs, ids, Some m)
     else Done (fs, ids, None));
  '(fs, ids, msg1, refused) ←
    (if handle_new fs new_path which then part1_new fs ids id old_path new_path check_new
     else Done (fs, ids, None, None));
  let path :=
    match refused with
    | Some line => inr line
    | None =>
        if handle_old fs old_path which then
          match files fs !! key old_path with Some file => inl (n_path file) | None => inr 614 end
        else
          match files fs !! key new_path, handle_new fs new_path which with
          | Some file, true => inl (n_path file)
          | _, true => inr 619
          | _, false => inr 621
          end
    end in
  Done (fs, ids, path, msg0, msg1).

Inductive Next := Finish | NextAbort (r : PendingRename) | Nothing.

Definition with_old_exists (c : CommitState) (r : PendingRename) : PendingRename :=
  mkRename (r_id r) (r_old_path r) (r_new_path r) (r_data r) c (new_empty r) (pending_ops r) (r_check_new r).
Definition with_new_empty (c : CommitState) (r : PendingRename) : PendingRename :=
  mkRename (r_id r) (r_old_path r) (r_new_path r) (r_data r) (old_exists r) c (pending_ops r) (r_check_new r).
Definition with_r_data (d : list Z) (r : PendingRename) : PendingRename :=
  mkRename (r_id r) (r_old_path r) (r_new_path r) d (old_exists r) (new_empty r) (pending_ops r) (r_check_new r).
Definition push_op (op : Operation) (r : PendingRename) : PendingRename :=
  mkRename (r_id r) (r_old_path r) (r_new_path r) (r_data r) (old_exists r) (new_empty r) (pending_ops r ++ [op]) (r_check_new r).

(** What was said is noted at a file of the transaction, which is over when both have said. *)
Definition cast (fs : FileSystem) (id : Id) (path : PathBuf) (note : PendingRename -> PendingRename) (may_finish : bool)
  : outcome (FileSystem * Next) :=
  file ← unwrap (files fs !! key path);
  pending ← unwrap (pending_rename file);
  _ ← assert_ (bool_decide (id = r_id pending));
  let pending := note pending in
  st ← state pending;
  match st with
  | Pending => Done (put (key path) (with_pending (Some pending) file) fs, Nothing)
  | Abort_ => Done (put (key path) (with_pending None file) fs, NextAbort pending)
  | Ok => _ ← assert_ may_finish; Done (put (key path) (with_pending (Some pending) file) fs, Finish)
  end.

Definition abort (fs : FileSystem) (rename : PendingRename) : FileSystem * list Operation :=
  let fs := if bool_decide (new_empty rename <> Abort_) then remove (key (r_new_path rename)) fs else fs in
  let fs := if bool_decide (old_exists rename = Abort_) then remove (key (r_old_path rename)) fs else fs in
  (fs, pending_ops rename).

Definition finish_rename_remove (fs : FileSystem) (old_path : PathBuf) : outcome (FileSystem * list Operation) :=
  fs ← unlink fs old_path;
  old ← unwrap (files fs !! key old_path);
  rename ← unwrap (pending_rename old);
  Done (remove (key old_path) fs, pending_ops rename).

Definition finish_rename_create (fs : FileSystem) (new_path : PathBuf) : outcome (FileSystem * list Operation) :=
  new_node ← unwrap (files fs !! key new_path);
  rename ← unwrap (pending_rename new_node);
  let s := mkStat (version (stat new_node)) (num_entries fs) (mutate_time (stat new_node)) in
  let fs := put (key new_path) (with_pending None (with_data (r_data rename) s new_node)) fs in
  pk ← unwrap (parent (key new_path));
  par ← unwrap (files fs !! pk);
  Done (put pk (with_children (insert_child (n_path new_node) (children par)) par) fs, pending_ops rename).

(** The end of a transaction at one of its files. *)
Definition settle (fs : FileSystem) (next : Next) (finish : FileSystem -> outcome (FileSystem * list Operation))
  : outcome (FileSystem * option (list Operation)) :=
  match next with
  | Nothing => Done (fs, None)
  | NextAbort pending => let '(fs, ops) := abort fs pending in Done (fs, Some ops)
  | Finish => '(fs, ops) ← finish fs; Done (fs, Some ops)
  end.

(** What the two files of a transaction do with a message about it. *)
Definition cast_old_exists (fs : FileSystem) (id : Id) (old_path new_path : PathBuf) (new_data : list Z) (which : WhichPath)
  : outcome (FileSystem * Next * Next) :=
  '(fs, old_next) ← (if handle_old fs old_path which then cast fs id old_path (with_old_exists Ok) true else Done (fs, Nothing));
  '(fs, new_next) ← (if handle_new fs new_path which
                     then cast fs id new_path (fun r => with_old_exists Ok (with_r_data new_data r)) true
                     else Done (fs, Nothing));
  Done (fs, old_next, new_next).

Definition cast_new_empty (fs : FileSystem) (id : Id) (old_path new_path : PathBuf) (which : WhichPath)
  : outcome (FileSystem * Next * Next) :=
  let new (fs : FileSystem) (old_next : Next) : outcome (FileSystem * Next * Next) :=
    '(fs, new_next) ← (if handle_new fs new_path which then cast fs id new_path (with_new_empty Ok) true else Done (fs, Nothing));
    Done (fs, old_next, new_next) in
  if handle_old fs old_path which then
    file ← unwrap (files fs !! key old_path);
    match pending_rename file with
    | None => Done (fs, Nothing, Nothing)
    | Some _ => '(fs, old_next) ← cast fs id old_path (with_new_empty Ok) true; new fs old_next
    end
  else new fs Nothing.

Definition nack_note (due_to_old : bool) : PendingRename -> PendingRename :=
  if due_to_old then with_old_exists Abort_ else with_new_empty Abort_.

Definition cast_nack (fs : FileSystem) (id : Id) (old_path new_path : PathBuf) (which : WhichPath) (due_to_old : bool)
  : outcome (FileSystem * Next * Next) :=
  '(fs, old_next) ← (if handle_old fs old_path which then cast fs id old_path (nack_note due_to_old) false else Done (fs, Nothing));
  '(fs, new_next) ← (if handle_new fs new_path which then cast fs id new_path (nack_note due_to_old) false else Done (fs, Nothing));
  Done (fs, old_next, new_next).

Definition settle_both (fs : FileSystem) (old_next new_next : Next) (old_path new_path : PathBuf)
  : outcome (FileSystem * option (list Operation) * option (list Operation)) :=
  '(fs, flush0) ← settle fs old_next (fun fs => finish_rename_remove fs old_path);
  '(fs, flush1) ← settle fs new_next (fun fs => finish_rename_create fs new_path);
  Done (fs, flush0, flush1).

Definition rename_old_exists (fs : FileSystem) (id : Id) (old_path new_path : PathBuf) (new_data : list Z) (which : WhichPath)
  : outcome (FileSystem * option (list Operation) * option (list Operation)) :=
  '(fs, old_next, new_next) ← cast_old_exists fs id old_path new_path new_data which;
  settle_both fs old_next new_next old_path new_path.

Definition rename_new_empty (fs : FileSystem) (id : Id) (old_path new_path : PathBuf) (which : WhichPath)
  : outcome (FileSystem * option (list Operation) * option (list Operation)) :=
  '(fs, old_next, new_next) ← cast_new_empty fs id old_path new_path which;
  settle_both fs old_next new_next old_path new_path.

Definition rename_nack (fs : FileSystem) (id : Id) (old_path new_path : PathBuf) (which : WhichPath) (due_to_old : bool)
  : outcome (FileSystem * option (list Operation) * option (list Operation)) :=
  '(fs, old_next, new_next) ← cast_nack fs id old_path new_path which due_to_old;
  settle_both fs old_next new_next old_path new_path.

(** *** Observations *)

Definition handle_observation (fs : FileSystem) (o : Observation) : Call :=
  Observed (obs_id o)
    match files fs !! key (obs_path o), obs_kind o with
    | None, Exists => NotSeen 948
    | None, GetData => NotSeen 966
    | None, GetChildren => NotSeen 984
    | Some file, Exists => SeenStat (n_path file) (stat file)
    | Some file, GetData => SeenData (n_path file) (data file) (stat file)
    | Some file, GetChildren => SeenChildren (n_path file) (children file)
    end.

(** What is asked of a file that is held waits. *)
Definition hold (fs : FileSystem) (path : PathBuf) (op : Operation) : option FileSystem :=
  file ← files fs !! key path;
  rename ← pending_rename file;
  Some (put (key path) (with_pending (Some (push_op op rename)) file) fs).

Definition observe (fs : FileSystem) (o : Observation) : FileSystem * list Call :=
  match hold fs (obs_path o) (Obs o) with
  | Some fs => (fs, [])
  | None => (fs, [handle_observation fs o])
  end.

(** *** Mutations *)

Definition is_part2 (m : Mutation) : bool :=
  match m with RenameOldExists _ _ _ _ _ _ | RenameNewEmpty _ _ _ _ | RenameNack _ _ _ _ _ => true | _ => false end.

(** The state of a thread: its files, the identifiers of the process, the calls so far. *)
Record St := mkSt { fs_of : FileSystem; ids_of : Ids; calls : list Call }.

Definition call (s : St) (fs : FileSystem) (c : Call) : St := mkSt fs (ids_of s) (calls s ++ [c]).

(** [flush_operations], where [apply] is [apply_mutation] *)
Fixpoint flush_with (apply : St -> Mutation -> WhichPath -> outcome St) (s : St) (ops : list Operation) : outcome St :=
  match ops with
  | [] => Done s
  | Mut m which :: ops => s ← apply s m which; flush_with apply s ops
  | Obs o :: ops => flush_with apply (call s (fs_of s) (handle_observation (fs_of s) o)) ops
  end.

(** After a message about a transaction: the callback, then what was held. *)
Definition flush_both (apply : St -> Mutation -> WhichPath -> outcome St) (s : St) (id : Id)
    (res : FileSystem * option (list Operation) * option (list Operation)) : outcome St :=
  let '(fs, flush1, flush2) := res in
  let s := call s fs (Mutated id (inl ("", EMPTY_STAT)) None None) in
  s ← flush_with apply s (default [] flush1);
  flush_with apply s (default [] flush2).

(** What waits is never a message about a transaction, so [fuel] 2 is enough ([ZooThread.fuel_enough]). *)
Fixpoint apply_mutation (fuel : nat) (s : St) (m : Mutation) (which : WhichPath) : outcome St :=
  match fuel with
  | O => Panic
  | S fuel =>
      match (if is_part2 m then None else hold (fs_of s) (mut_path m) (Mut m which)) with
      | Some fs => Done (mkSt fs (ids_of s) (calls s))
      | None =>
          match m with
          | Create id create_mode path d =>
              '(fs, res) ← create (fs_of s) create_mode path d;
              _ ← assert_ (match res with inl _ => true | inr _ => false end);
              Done (call s fs (Mutated id (match res with inl p => inl (p, EMPTY_STAT) | inr e => inr e end) None None))
          | Delete id path v =>
              '(fs, res) ← delete_file (fs_of s) path v;
              Done (call s fs (Mutated id (match res with inl p => inl (p, EMPTY_STAT) | inr e => inr e end) None None))
          | Set_ id path d v =>
              '(fs, res) ← set_file (fs_of s) path v d;
              Done (call s fs (Mutated id res None None))
          | RenameOldExists id part1_id _ old_path new_path d =>
              res ← rename_old_exists (fs_of s) part1_id old_path new_path d which;
              flush_both (apply_mutation fuel) s id res
          | RenameNewEmpty id part1_id old_path new_path =>
              res ← rename_new_empty (fs_of s) part1_id old_path new_path which;
              flush_both (apply_mutation fuel) s id res
          | RenameNack id part1_id old_path new_path due_to_old =>
              res ← rename_nack (fs_of s) part1_id old_path new_path which due_to_old;
              flush_both (apply_mutation fuel) s id res
          | RenamePart1 id old_path new_path check_new =>
              '(fs, ids, res, msg0, msg1) ← rename_part1 (fs_of s) (ids_of s) id old_path new_path which check_new;
              Done (mkSt fs ids (calls s ++ [Mutated id (match res with inl p => inl (p, EMPTY_STAT) | inr e => inr e end) msg0 msg1]))
          end
      end
  end.
End Files.
