(* ===== verification/ZooClient.v ===== *)
(** * The service on the log ([examples/zookeeper/src/lib.rs])

    A process has a client, which appends mutations to the chain of its part of the tree (a rename
    to another part to both chains); a materializer, which reads the chain and gives each mutation
    to the threads that have its files; and those threads, which call back and append what they
    say about a rename.  All of them send to one queue of the materializer.

    The log is the list of entries of each chain, which every reader of a chain gets in this order.
    [bincode], which writes mutations as bytes, and the hasher that chooses a thread ([RandomState])
    are parameters.  A callback is known by a number. *)

From stdpp Require Import base gmap list strings.
From Stdlib Require Import ZArith Lia.
From S2P Require Import Prelude ZooFiles.
Open Scope Z_scope.

(** What is read back is what was written. *)
Class Bincode := {
  serialize : Mutation -> list Z;
  deserialize : list Z -> option Mutation;
  deserialize_serialize m : deserialize (serialize m) = Some m;
}.

(** ** Callbacks *)

Inductive MutationCallback := CbStat (f : Z) | CbPath (f : Z) | CbVoid (f : Z) | CbNone.

Definition Result : Type := PathBuf * Stat + Z.

(** What the application is told. *)
Inductive Told :=
| ToldStat (f : Z) (res : PathBuf * Stat + Z)
| ToldPath (f : Z) (res : PathBuf * PathBuf + Z)
| ToldVoid (f : Z) (res : PathBuf + Z)
| ToldSeen (id : Id) (res : Seen).

Definition do_callback (cb : MutationCallback) (res : Result) : list Told :=
  match cb with
  | CbStat f => [ToldStat f res]
  | CbPath f => [ToldPath f (match res with inl (p, _) => inl (p, p) | inr e => inr e end)]
  | CbVoid f => [ToldVoid f (match res with inl (p, _) => inl p | inr e => inr e end)]
  | CbNone => []
  end.

Inductive MessageFromClient :=
| FromMut (id : Id) (cb : MutationCallback)
| FromObs (o : Observation)
| EndOfSnapshot
| EarlyMut (id : Id) (res : Result).

(** ** The log *)

Record Entry := mkEntry { bytes : list Z; locs : list OrderIndex }.
Abbreviation Log := (gmap Z (list Entry)).

Definition chain (log : Log) (c : Z) : list Entry := default [] (log !! c).
Definition append (log : Log) (chains : list Z) (b : list Z) : Log :=
  let e := mkEntry b ((fun c => mkOI c (Z.of_nat (length (chain log c)) + 1)) <$> chains) in
  foldl (fun log c => <[c := chain log c ++ [e]]> log) log chains.

(** [async_append], and [async_no_remote_multiappend] to two chains, which sorts them and keeps
    each once ([ClientAppend]). *)
Definition async_append (log : Log) (c : Z) (b : list Z) : Log := append log [c] b.
Definition async_no_remote_multiappend (log : Log) (c c' : Z) (b : list Z) : Log :=
  append log (if c =? c' then [c] else [Z.min c c'; Z.max c c']) b.

(** ** A process *)

Inductive Op :=
| OpMut (m : Mutation) (locs : list OrderIndex) (cb : option MutationCallback) (which : WhichPath)
| OpObs (o : Observation).

Record Proc := mkProc {
  color : Z;
  p_root : PathBuf;
  p_roots : gmap string Z;
  p_ids : Ids;
  from_client : list MessageFromClient;              (* and loopback *)
  early_mutations : gmap Id Result;
  waiting_mutations : gmap Id MutationCallback;
  waiting_observations : list Observation;
  to_files : list (list Op);
  threads : list FileSystem;
  played : nat;                                      (* entries of the chain that were read *)
  told : list Told;
}.

Definition num_file_threads : nat := 2.

(** [Client::new] and [Materializer::new] *)
Definition Client_new (color : Z) (my_root : PathBuf) (roots : gmap string Z) (client : Z) : outcome Proc :=
  _ ← assert_ (bool_decide (map_Forall (fun _ o => o <> 0) roots));
  Done (mkProc color my_root roots (mkIds client 0) [] ∅ ∅ [] (replicate num_file_threads [])
          (replicate num_file_threads (FileSystem_new my_root roots)) 0 []).

Definition with_ids (i : Ids) (p : Proc) : Proc :=
  mkProc (color p) (p_root p) (p_roots p) i (from_client p) (early_mutations p) (waiting_mutations p) (waiting_observations p)
    (to_files p) (threads p) (played p) (told p).
Definition with_queue (q : list MessageFromClient) (p : Proc) : Proc :=
  mkProc (color p) (p_root p) (p_roots p) (p_ids p) q (early_mutations p) (waiting_mutations p) (waiting_observations p)
    (to_files p) (threads p) (played p) (told p).
Definition with_waiting (early : gmap Id Result) (waiting : gmap Id MutationCallback) (p : Proc) : Proc :=
  mkProc (color p) (p_root p) (p_roots p) (p_ids p) (from_client p) early waiting (waiting_observations p)
    (to_files p) (threads p) (played p) (told p).
Definition with_observations (o : list Observation) (p : Proc) : Proc :=
  mkProc (color p) (p_root p) (p_roots p) (p_ids p) (from_client p) (early_mutations p) (waiting_mutations p) o
    (to_files p) (threads p) (played p) (told p).
Definition with_to_files (q : list (list Op)) (p : Proc) : Proc :=
  mkProc (color p) (p_root p) (p_roots p) (p_ids p) (from_client p) (early_mutations p) (waiting_mutations p) (waiting_observations p)
    q (threads p) (played p) (told p).
Definition with_threads (t : list FileSystem) (p : Proc) : Proc :=
  mkProc (color p) (p_root p) (p_roots p) (p_ids p) (from_client p) (early_mutations p) (waiting_mutations p) (waiting_observations p)
    (to_files p) t (played p) (told p).
Definition with_played (n : nat) (p : Proc) : Proc :=
  mkProc (color p) (p_root p) (p_roots p) (p_ids p) (from_client p) (early_mutations p) (waiting_mutations p) (waiting_observations p)
    (to_files p) (threads p) n (told p).
Definition tell (t : list Told) (p : Proc) : Proc :=
  mkProc (color p) (p_root p) (p_roots p) (p_ids p) (from_client p) (early_mutations p) (waiting_mutations p) (waiting_observations p)
    (to_files p) (threads p) (played p) (told p ++ t).

Definition send (m : MessageFromClient) (p : Proc) : Proc := with_queue (from_client p ++ [m]) p.

Section Service.
Context `{Build} `{Bincode}.

(** ** The client *)

Definition send_msg (p : Proc) (log : Log) (id : Id) (msg : Mutation) (cb : MutationCallback) : Proc * Log :=
  (send (FromMut id cb) p, async_append log (color p) (serialize msg)).

Definition send_multi (p : Proc) (log : Log) (other : Z) (id : Id) (msg : Mutation) (cb : MutationCallback) : outcome (Proc * Log) :=
  _ ← assert_ (negb (other =? 0));
  Done (send (FromMut id cb) p, async_no_remote_multiappend log (color p) other (serialize msg)).

Definition send_observation (p : Proc) (o : Observation) : Proc := send (FromObs o) p.

(** [Component::as_os_str] *)
Definition as_os_str (c : Component) : string :=
  match c with RootDir => "/" | CurDir => "." | ParentDir => ".." | Normal s => s end.

(** The chain of the part of the tree a path is in. *)
Definition root_of (p : Proc) (path : PathBuf) : outcome Z :=
  root ← unwrap (key path !! 1%nat);
  unwrap (p_roots p !! as_os_str root).

Definition rename_other (p : Proc) (old_path new_path : PathBuf) : outcome (option Z) :=
  let old_mine := starts_with old_path (p_root p) in
  let new_mine := starts_with new_path (p_root p) in
  if negb old_mine then _ ← assert_ new_mine; other ← root_of p old_path; Done (Some other)
  else if negb new_mine then other ← root_of p new_path; Done (Some other)
  else Done None.

(** What an application asks of its client. *)
Inductive Request :=
| ReqCreate (path : PathBuf) (d : list Z) (create_mode : Z) (f : Z)
| ReqDelete (path : PathBuf) (v : Z) (f : Z)
| ReqSetData (path : PathBuf) (d : list Z) (v : Z) (f : Z)
| ReqRename (old_path new_path : PathBuf) (f : Z)
| ReqObserve (kind : ObsKind) (path : PathBuf) (watch : bool).

Definition client_request (p : Proc) (log : Log) (r : Request) : outcome (Proc * Log) :=
  '(ids, id) ← Id_new (p_ids p);
  let p := with_ids ids p in
  match r with
  | ReqCreate path d create_mode f => Done (send_msg p log id (Create id create_mode path d) (CbPath f))
  | ReqDelete path v f => Done (send_msg p log id (Delete id path v) (CbVoid f))
  | ReqSetData path d v f => Done (send_msg p log id (Set_ id path d v) (CbStat f))
  | ReqRename old_path new_path f =>
      other ← rename_other p old_path new_path;
      let msg := RenamePart1 id old_path new_path true in
      match other with
      | Some other => send_multi p log other id msg (CbVoid f)
      | None => Done (send_msg p log id msg (CbVoid f))
      end
  | ReqObserve kind path watch => Done (send_observation p (mkObs kind id path watch), log)
  end.

(** ** The materializer *)

Definition drain_message (p : Proc) (msg : MessageFromClient) : Proc * bool :=
  match msg with
  | EndOfSnapshot => (p, true)
  | FromObs o => (with_observations (waiting_observations p ++ [o]) p, false)
  | FromMut id cb =>
      match early_mutations p !! id with
      | Some res => (tell (do_callback cb res) (with_waiting (base.delete id (early_mutations p)) (waiting_mutations p) p), false)
      | None => (with_waiting (early_mutations p) (<[id := cb]> (waiting_mutations p)) p, false)
      end
  | EarlyMut id res =>
      match waiting_mutations p !! id with
      | Some cb => (tell (do_callback cb res) (with_waiting (early_mutations p) (base.delete id (waiting_mutations p)) p), false)
      | None => (with_waiting (<[id := res]> (early_mutations p)) (waiting_mutations p) p, false)
      end
  end.

(** The messages up to the end of the snapshot. *)
Fixpoint drain_loop (p : Proc) (msgs : list MessageFromClient) : Proc :=
  match msgs with
  | [] => with_queue [] p
  | msg :: msgs => let '(p, finished) := drain_message p msg in if (finished : bool) then with_queue msgs p else drain_loop p msgs
  end.

Definition drain_pending_ops (p : Proc) (first : option MessageFromClient) : Proc :=
  let p := match first with Some msg => (drain_message p msg).1 | None => p end in
  drain_loop p (from_client p).

(** Which of its paths are in this part of the tree. *)
Definition which_mine (my_root : PathBuf) (m : Mutation) : option WhichPath :=
  match starts_with (mut_path m) my_root, (fun p => starts_with p my_root) <$> path2 m with
  | false, None | false, Some false => None
  | true, None | true, Some false => Some Path1
  | false, Some true => Some Path2
  | true, Some true => Some Both
  end.

Section Balancer.
Variable hash : Key -> Z.

(** [hash as usize % num_file_threads] *)
Definition thread_of (path : PathBuf) : nat := Z.to_nat (hash (key path) mod Z.of_nat num_file_threads).

Definition send_file (t : nat) (op : Op) (p : Proc) : outcome Proc :=
  q ← unwrap (to_files p !! t);
  Done (with_to_files (<[t := q ++ [op]]> (to_files p)) p).

(** [self.waiting_mutations.remove(msg.id())] *)
Definition take_waiting (id : Id) (p : Proc) : Proc * option MutationCallback :=
  (with_waiting (early_mutations p) (base.delete id (waiting_mutations p)) p, waiting_mutations p !! id).

Definition play_entry (p : Proc) (e : Entry) : outcome Proc :=
  msg ← unwrap (deserialize (bytes e));
  match which_mine (p_root p) msg with
  | None => Done p
  | Some Path1 =>
      let '(p, waiting) := take_waiting (mut_id msg) p in
      send_file (thread_of (mut_path msg)) (OpMut msg (locs e) waiting Path1) p
  | Some Path2 =>
      new_path ← unwrap (path2 msg);
      let '(p, waiting) := take_waiting (mut_id msg) p in
      send_file (thread_of new_path) (OpMut msg (locs e) waiting Path2) p
  | Some Both =>
      new_path ← unwrap (path2 msg);
      let '(p, waiting) := take_waiting (mut_id msg) p in
      let h := thread_of (mut_path msg) in
      let h2 := thread_of new_path in
      if bool_decide (h = h2) then send_file h (OpMut msg (locs e) waiting Both) p
      else
        p ← send_file h (OpMut msg (locs e) waiting Path1) p;
        send_file h2 (OpMut msg (locs e) None Path2) p
  end.

(** [play_log], for a snapshot that shows these entries *)
Fixpoint play_log (p : Proc) (es : list Entry) : outcome Proc :=
  match es with
  | [] => Done p
  | e :: es => p ← play_entry (with_played (S (played p)) p) e; play_log p es
  end.

Fixpoint handle_observations (p : Proc) (os : list Observation) : outcome Proc :=
  match os with
  | [] => Done (with_observations [] p)
  | o :: os => p ← send_file (thread_of (obs_path o)) (OpObs o) p; handle_observations p os
  end.

(** One round, with the next [n] entries of the chain. *)
Definition handle_ops (p : Proc) (log : Log) (first : option MessageFromClient) (n : nat) : outcome Proc :=
  let p := send EndOfSnapshot p in
  let p := drain_pending_ops p first in
  p ← play_log p (take n (drop (played p) (chain log (color p))));
  handle_observations p (waiting_observations p).

(** [run]: the first message, if one has come, and a round *)
Definition materializer_turn (p : Proc) (log : Log) (n : nat) : outcome Proc :=
  match from_client p with
  | msg :: q => handle_ops (with_queue q p) log (Some msg) n
  | [] => handle_ops p log None n
  end.
End Balancer.

(** ** The threads that have the files *)

(** What a thread does with a message it is to send. *)
Definition send_part2 (ls : list OrderIndex) (log : Log) (p : Proc) (msg : Mutation) : outcome (Proc * Log) :=
  log ←
    (if bool_decide (1 < length ls)%nat then
       _ ← assert_ (bool_decide (length ls = 2%nat));
       Done (foldl (fun log l => async_append log (oi_order l) (serialize msg)) log ls)
     else l ← unwrap (ls !! 0%nat); Done (async_append log (oi_order l) (serialize msg)));
  Done (send (FromMut (mut_id msg) CbNone) p, log).

(** The closure given to [apply_mutation], and what an observation calls. *)
Definition on_call (ls : list OrderIndex) (cb : option MutationCallback) (p : Proc) (log : Log) (c : Call) : outcome (Proc * Log) :=
  match c with
  | Observed id res => Done (tell [ToldSeen id res] p, log)
  | Mutated id res msg0 msg1 =>
      '(p, log) ← (match msg0 with Some m => send_part2 ls log p m | None => Done (p, log) end);
      '(p, log) ← (match msg1 with Some m => send_part2 ls log p m | None => Done (p, log) end);
      _ ← assert_ (negb (CLIENT_ID (p_ids p) =? 0));
      if negb (client id =? CLIENT_ID (p_ids p)) then Done (p, log)
      else
        match cb with
        | Some cb => Done (tell (do_callback cb res) p, log)
        | None => Done (send (EarlyMut id res) p, log)
        end
  end.

Fixpoint on_calls (ls : list OrderIndex) (cb : option MutationCallback) (p : Proc) (log : Log) (cs : list Call) : outcome (Proc * Log) :=
  match cs with
  | [] => Done (p, log)
  | c :: cs => '(p, log) ← on_call ls cb p log c; on_calls ls cb p log cs
  end.

(** A thread takes the next thing it was given. *)
Definition thread_turn (p : Proc) (log : Log) (t : nat) : outcome (Proc * Log) :=
  fs ← unwrap (threads p !! t);
  q ← unwrap (to_files p !! t);
  match q with
  | [] => Done (p, log)
  | OpMut m ls cb which :: q =>
      s ← apply_mutation 2 (mkSt fs (p_ids p) []) m which;
      let p := with_to_files (<[t := q]> (to_files p)) p in
      let p := with_ids (ids_of s) (with_threads (<[t := fs_of s]> (threads p)) p) in
      on_calls ls cb p log (calls s)
  | OpObs o :: q =>
      let '(fs, cs) := observe fs o in
      let p := with_to_files (<[t := q]> (to_files p)) p in
      on_calls [] None (with_threads (<[t := fs]> (threads p)) p) log cs
  end.

(** ** The service: processes on one log *)

Record Sys := mkSys { the_log : Log; procs : list Proc }.

Inductive Action :=
| Asks (k : nat) (r : Request)
| Materializes (k n : nat)
| Works (k t : nat).

Section Sys.
Variable hash : nat -> Key -> Z.

Definition sys_step (s : Sys) (a : Action) : outcome Sys :=
  match a with
  | Asks k r =>
      p ← unwrap (procs s !! k);
      '(p, log) ← client_request p (the_log s) r;
      Done (mkSys log (<[k := p]> (procs s)))
  | Materializes k n =>
      p ← unwrap (procs s !! k);
      p ← materializer_turn (hash k) p (the_log s) n;
      Done (mkSys (the_log s) (<[k := p]> (procs s)))
  | Works k t =>
      p ← unwrap (procs s !! k);
      '(p, log) ← thread_turn p (the_log s) t;
      Done (mkSys log (<[k := p]> (procs s)))
  end.

Fixpoint sys_run (s : Sys) (acts : list Action) : outcome Sys :=
  match acts with
  | [] => Done s
  | a :: acts => s ← sys_step s a; sys_run s acts
  end.
End Sys.
End Service.
