(* ===== verification/ZooRename.v ===== *)
(** * A rename is a transaction

    The two files of a rename are with threads that need not be in the same process.  Whatever is
    asked of the service and however its parts take turns: both files come to the same end, each
    once, and when the new file appears it has the data the old one had when it went
    ([ZooService.rename_atomic]); a rename that did not have to wait for another comes to an end at both files
    once the log has been read and the threads have nothing left to do ([ZooService.rename_ends]).  This file has what is kept of one thread for that ([TInv]).

    What is proved of a thread depends only on the files that are held ([hview]). *)

From stdpp Require Import base gmap list strings.
From Stdlib Require Import ZArith Lia.
From S2P Require Import Prelude ZooFiles ZooClient.
Open Scope Z_scope.

(** ** The files that are held *)

Abbreviation HView := (gmap Key (PendingRename * list Z)).
Definition held_node (n : FileNode) : option (PendingRename * list Z) := (fun r => (r, data n)) <$> pending_rename n.
Definition hview (fs : FileSystem) : HView := omap held_node (files fs).

Definition is_same (x : option (PendingRename * list Z)) (k : Key) (h : HView) : HView :=
  match x with Some v => <[k := v]> h | None => base.delete k h end.

Lemma hview_lookup fs k : hview fs !! k = files fs !! k ≫= held_node.
Proof. apply lookup_omap. Qed.

Lemma hview_put k n fs : hview (put k n fs) = is_same (held_node n) k (hview fs).
Proof.
  apply map_eq. intros k'. unfold is_same. rewrite hview_lookup. cbn [put with_files files].
  destruct (decide (k' = k)) as [->|Hne].
  - rewrite lookup_insert_eq. change (Some n ≫= held_node) with (held_node n).
    destruct (held_node n); by rewrite ?lookup_insert_eq, ?lookup_delete_eq.
  - rewrite lookup_insert_ne by done. destruct (held_node n); rewrite ?lookup_insert_ne, ?lookup_delete_ne by done; by rewrite hview_lookup.
Qed.

Lemma hview_remove k fs : hview (remove k fs) = base.delete k (hview fs).
Proof.
  apply map_eq. intros k'. rewrite hview_lookup. cbn. destruct (decide (k' = k)) as [->|Hne].
  - by rewrite !lookup_delete_eq.
  - rewrite !lookup_delete_ne by done. by rewrite hview_lookup.
Qed.

(** A node that is put back with the same rename and data. *)
Lemma is_same_id fs k n n' : files fs !! k = Some n -> held_node n' = held_node n -> hview (put k n' fs) = hview fs.
Proof.
  intros Hn He. rewrite hview_put, He. pose proof (hview_lookup fs k) as Hl. rewrite Hn in Hl. cbn in Hl.
  destruct (held_node n); cbn; [by apply insert_id|by apply delete_id].
Qed.

Lemma is_same_new fs k n : files fs !! k = None -> pending_rename n = None -> hview (put k n fs) = hview fs.
Proof.
  intros Hk Hn. rewrite hview_put. unfold held_node. rewrite Hn. cbn. apply delete_id. by rewrite hview_lookup, Hk.
Qed.

Lemma not_held fs k n : files fs !! k = Some n -> hview fs !! k = None -> pending_rename n = None.
Proof. intros Hn. rewrite hview_lookup, Hn. cbn. unfold held_node. by destruct (pending_rename n). Qed.

Lemma is_held fs k r d : hview fs !! k = Some (r, d) -> exists n, files fs !! k = Some n /\ pending_rename n = Some r /\ data n = d.
Proof.
  rewrite hview_lookup. destruct (files fs !! k) as [n|]; [|done]. cbn. unfold held_node.
  destruct (pending_rename n) eqn:E; [|done]. cbn. intros [= -> <-]. by exists n.
Qed.

(** ** The two sides of a rename *)

Inductive Side := SOld | SNew.
#[export] Instance Side_eq_dec : EqDecision Side.
Proof. solve_decision. Defined.
#[export] Instance Side_countable : Countable Side.
Proof. refine (inj_countable' (fun s => match s with SOld => true | SNew => false end) (fun b => if b then SOld else SNew) _). by intros []. Defined.

(** What a side says: the data of the old file, that the new one is free, or that it refuses. *)
Abbreviation Vote := (option (list Z)).
Definition commit_of (v : Vote) : CommitState := match v with Some _ => Ok | None => Abort_ end.

Definition vote_of (m : Mutation) : option (Id * Side * Vote * (PathBuf * PathBuf)) :=
  match m with
  | RenameOldExists _ i _ o n d => Some (i, SOld, Some d, (o, n))
  | RenameNewEmpty _ i o n => Some (i, SNew, Some [], (o, n))
  | RenameNack _ i o n due_to_old => Some (i, if due_to_old then SOld else SNew, None, (o, n))
  | _ => None
  end.

Definition said (s : Side) (r : PendingRename) : CommitState := match s with SOld => old_exists r | SNew => new_empty r end.
Definition path_of (s : Side) (on : PathBuf * PathBuf) : PathBuf := match s with SOld => on.1 | SNew => on.2 end.
Definition r_paths (r : PendingRename) : PathBuf * PathBuf := (r_old_path r, r_new_path r).

(** How a rename ends when both have spoken: with the data that moves, or not at all. *)
Definition verdict (old new : Vote) : Vote := match old, new with Some d, Some _ => Some d | _, _ => None end.

Ltac binds := repeat match goal with
  | H : (_ ← _; _) = Done _ |- _ => apply bind_done in H as (? & ? & H)
  | H : unwrap _ = Done _ |- _ => apply unwrap_done in H
  | H : assert_ _ = Done _ |- _ => apply assert_done in H
  | H : (let '(_, _) := ?x in _) = Done _ |- _ => destruct x
  | H : Done _ = Done _ |- _ => injection H as H
  end.

Section Files.
Context `{Build}.

(** *** What leaves them as they are *)

Lemma add_entry_files fs fs' : add_entry fs = Done fs' -> files fs' = files fs /\ my_root fs' = my_root fs.
Proof. unfold add_entry. intros E. binds. by subst. Qed.

Lemma unlink_quiet fs path fs' : unlink fs path = Done fs' -> hview fs' = hview fs /\ my_root fs' = my_root fs.
Proof. unfold unlink. intros E. binds. subst. split; [|done]. by eapply is_same_id. Qed.

Lemma create_quiet fs mode path d fs' res : create fs mode path d = Done (fs', res) -> hview fs' = hview fs /\ my_root fs' = my_root fs.
Proof.
  unfold create. destruct (files fs !! key path); [by intros [= <- _]|]. intros E. binds.
  destruct (files fs !! _) as [par|] eqn:Ep; [|by injection E as <- _]. apply bind_done in E as ([par' actual] & E1 & E).
  assert (Hpar : held_node par' = held_node par).
  { destruct (is_sequential mode); binds; by simplify_eq. }
  apply bind_done in E as (fs1 & E2 & E). apply add_entry_files in E2 as [Hf Hr].
  assert (Hv : hview fs1 = hview fs).
  { unfold hview. rewrite Hf. by eapply (is_same_id fs); [done|]. }
  destruct (files fs1 !! key actual) eqn:Ea; injection E as <- _; [by rewrite Hv, Hr|]. split; [|by cbn; rewrite Hr].
  rewrite <-Hv. by apply is_same_new.
Qed.

Lemma delete_quiet fs path v fs' res : hview fs !! key path = None -> delete_file fs path v = Done (fs', res) ->
  hview fs' = hview fs /\ my_root fs' = my_root fs.
Proof.
  intros Hn. unfold delete_file. destruct (files fs !! key path); [|by intros [= <- _]].
  destruct (_ && _); [by intros [= <- _]|]. destruct (bool_decide _); [by intros [= <- _]|].
  intros E. binds. simplify_eq. apply unlink_quiet in H0 as [Hv Hr]. rewrite hview_remove, Hv. split; [by apply delete_id|done].
Qed.

Lemma set_quiet fs path v d fs' res : hview fs !! key path = None -> set_file fs path v d = Done (fs', res) ->
  hview fs' = hview fs /\ my_root fs' = my_root fs.
Proof.
  intros Hn. unfold set_file. destruct (files fs !! key path) as [n|] eqn:En; [|by intros [= <- _]].
  destruct (_ && _); [by intros [= <- _]|]. intros E. binds. simplify_eq. apply add_entry_files in H0 as [Hf Hr].
  unfold hview. rewrite Hf, Hr. split; [|done]. apply (is_same_id fs _ n); [done|].
  pose proof (not_held _ _ _ En Hn) as Hp. unfold held_node. cbn. by rewrite Hp.
Qed.

(** *** What holds a file *)

Lemma hold_some fs path op fs' : hold fs path op = Some fs' ->
  my_root fs' = my_root fs /\ exists r d, hview fs !! key path = Some (r, d) /\ hview fs' = <[key path := (push_op op r, d)]> (hview fs).
Proof.
  unfold hold. intros (n & En & E)%bind_Some. apply bind_Some in E as (r & Er & E).
  assert (fs' = put (key path) (with_pending (Some (push_op op r)) n) fs) as -> by congruence. split; [done|].
  exists r, (data n). split; [|by rewrite hview_put]. rewrite hview_lookup, En. cbn. unfold held_node. by rewrite Er.
Qed.

Lemma hold_none fs path op : hold fs path op = None -> hview fs !! key path = None.
Proof.
  unfold hold. rewrite hview_lookup. destruct (files fs !! key path) as [n|]; [|done]. cbn. unfold held_node.
  by destruct (pending_rename n).
Qed.

Lemma part1_old_spec fs ids id o n fs' ids' m : part1_old fs ids id o n true = Done (fs', ids', m) ->
  my_root fs' = my_root fs /\ hview fs !! key o = None /\
  exists v, vote_of m = Some (id, SOld, v, (o, n)) /\
    hview fs' = <[key o := (PendingRename_new id o n true, default [] v)]> (hview fs).
Proof.
  unfold part1_old. destruct (files fs !! key o) as [file|] eqn:Ef.
  - destruct (pending_rename file) eqn:Ep; [done|]. intros E. apply bind_done in E as ([ids1 i] & _ & E).
    injection E as <- _ <-. split; [done|]. split; [by rewrite hview_lookup, Ef; cbn; unfold held_node; rewrite Ep|].
    exists (Some (data file)). split; [done|]. by rewrite hview_put.
  - intros E. apply bind_done in E as ([ids1 nack] & E1 & E). injection E as <- _ <-. split; [done|].
    split; [by rewrite hview_lookup, Ef|]. exists None. unfold build_nack in E1. binds. split; [by subst|]. by rewrite hview_put.
Qed.

Lemma part1_new_spec fs ids id o n fs' ids' m refused : part1_new fs ids id o n true = Done (fs', ids', m, refused) ->
  my_root fs' = my_root fs /\ hview fs !! key n = None /\
  exists v d msg, m = Some msg /\ vote_of msg = Some (id, SNew, v, (o, n)) /\ (v = None \/ v = Some []) /\
    hview fs' = <[key n := (PendingRename_new id o n true, d)]> (hview fs).
Proof.
  unfold part1_new. intros E. apply bind_done in E as ([[fs1 add_node] nack] & E1 & E).
  apply bind_done in E as (fs2 & E2 & E).
  assert (Hh : my_root fs2 = my_root fs /\ hview fs !! key n = None /\
    exists d, hview fs2 = <[key n := (PendingRename_new id o n true, d)]> (hview fs)).
  { destruct (files fs !! key n) as [file|] eqn:Ef.
    - destruct (pending_rename file) eqn:Ep; [done|]. injection E1 as <- <- <-. injection E2 as <-. split; [done|].
      split; [by rewrite hview_lookup, Ef; cbn; unfold held_node; rewrite Ep|]. exists (data file). by rewrite hview_put.
    - injection E1 as <- <- <-. apply bind_done in E2 as (fs3 & E3 & E2). apply add_entry_files in E3 as [Hf Hr].
      injection E2 as <-. split; [done|]. split; [by rewrite hview_lookup, Ef|]. exists []. rewrite hview_put. cbn.
      unfold hview. by rewrite Hf. }
  destruct Hh as (Hr & Hn & d & Hv).
  assert (Hx : fs' = fs2 /\ exists v msg, m = Some msg /\ vote_of msg = Some (id, SNew, v, (o, n)) /\ (v = None \/ v = Some [])).
  { unfold build_nack in E. destruct nack.
    - binds. subst. simplify_eq. split; [done|]. exists None. eauto.
    - apply bind_done in E as (pk & _ & E). destruct (files fs2 !! pk); [destruct (is_ephemeral_node _)|]; binds; simplify_eq;
        (split; [done|]); eexists _, _; (split; [done|]); (split; [done|]); auto. }
  destruct Hx as (-> & v & msg & -> & Hm & Hvv). split_and!; try done. by exists v, d, msg.
Qed.

(** *** What is noted, and how a file is let go *)

Lemma cast_spec fs id path note b fs' nx : (forall r, r_id (note r) = r_id r) ->
  cast fs id path note b = Done (fs', nx) ->
  my_root fs' = my_root fs /\
  exists r d, hview fs !! key path = Some (r, d) /\ id = r_id r /\
    ((state (note r) = Done Pending /\ nx = Nothing /\ hview fs' = <[key path := (note r, d)]> (hview fs)) \/
     (state (note r) = Done Abort_ /\ nx = NextAbort (note r) /\ hview fs' = base.delete (key path) (hview fs)) \/
     (state (note r) = Done Ok /\ nx = Finish /\ hview fs' = <[key path := (note r, d)]> (hview fs))).
Proof.
  intros Hid. unfold cast. intros E. apply bind_done in E as (file & Ef%unwrap_done & E).
  apply bind_done in E as (r & Er%unwrap_done & E). apply bind_done in E as ([] & Ei%assert_done & E).
  apply bool_decide_eq_true in Ei. apply bind_done in E as (st & Es & E).
  assert (Hl : hview fs !! key path = Some (r, data file)) by (by rewrite hview_lookup, Ef; cbn; unfold held_node; rewrite Er).
  destruct st; [apply bind_done in E as (_ & _ & E)|..]; injection E as <- <-; (split; [done|]); exists r, (data file);
    (split; [done|]); (split; [done|]); rewrite hview_put; cbn; auto 10.
Qed.

Lemma finish_remove_spec fs o fs' ops : finish_rename_remove fs o = Done (fs', ops) ->
  my_root fs' = my_root fs /\ exists r d, hview fs !! key o = Some (r, d) /\ ops = pending_ops r /\ hview fs' = base.delete (key o) (hview fs).
Proof.
  unfold finish_rename_remove. intros E. apply bind_done in E as (fs1 & E1 & E). apply unlink_quiet in E1 as [Hv Hr].
  apply bind_done in E as (old & Eo%unwrap_done & E). apply bind_done in E as (r & Er%unwrap_done & E). injection E as <- <-.
  split; [done|]. exists r, (data old). rewrite hview_remove, Hv. split_and!; try done.
  rewrite <-Hv, hview_lookup, Eo. cbn. unfold held_node. by rewrite Er.
Qed.

Lemma finish_create_spec fs n fs' ops : finish_rename_create fs n = Done (fs', ops) ->
  my_root fs' = my_root fs /\ exists r d, hview fs !! key n = Some (r, d) /\ ops = pending_ops r /\ hview fs' = base.delete (key n) (hview fs).
Proof.
  unfold finish_rename_create. intros E. apply bind_done in E as (new & En%unwrap_done & E).
  apply bind_done in E as (r & Er%unwrap_done & E). apply bind_done in E as (pk & _ & E).
  apply bind_done in E as (par & Ep%unwrap_done & E). injection E as <- <-. split; [done|]. exists r, (data new). split_and!; try done.
  - rewrite hview_lookup, En. cbn. unfold held_node. by rewrite Er.
  - rewrite (is_same_id _ _ par) by done. by rewrite hview_put.
Qed.

(** The files an end of a transaction takes away. *)
Definition abort_view (r : PendingRename) (h : HView) : HView :=
  let h := if bool_decide (new_empty r <> Abort_) then base.delete (key (r_new_path r)) h else h in
  if bool_decide (old_exists r = Abort_) then base.delete (key (r_old_path r)) h else h.

Lemma abort_spec fs r : my_root (abort fs r).1 = my_root fs /\ hview (abort fs r).1 = abort_view r (hview fs) /\ (abort fs r).2 = pending_ops r.
Proof.
  unfold abort, abort_view. cbn. split; [by repeat destruct (bool_decide _)|]. split; [|done].
  repeat destruct (bool_decide _); by rewrite ?hview_remove.
Qed.
End Files.

(** ** What a thread has to do with the renames *)

(** The renames that were asked for, what was said of them, those that had to wait, and how each
    ended at each of its files. *)
Record Ghost := mkGhost {
  ren : gmap Id (PathBuf * PathBuf);
  votes : gmap (Id * Side) Vote;
  waited : gset Id;
  ends : list (Id * Side * Vote);
}.

Abbreviation Item := (Mutation * WhichPath)%type.

Definition asks_rename (m : Mutation) : option Id := match m with RenamePart1 i _ _ _ => Some i | _ => None end.
Definition asked (L : list Item) : list Id := omap (fun x => asks_rename x.1) L.
Definition items (ops : list Operation) : list Item := omap (fun op => match op with Mut m w => Some (m, w) | Obs _ => None end) ops.

Definition covers (s : Side) (w : WhichPath) : bool :=
  match s with SOld => bool_decide (w = Path1 \/ w = Both) | SNew => bool_decide (w = Path2 \/ w = Both) end.

(** A message that says what side [s] of rename [i] says. *)
Definition says (i : Id) (s : Side) (x : Item) : Prop := exists v on, vote_of x.1 = Some (i, s, v, on).

Section Thread.
Variable own : Key -> bool.

Definition mine (s : Side) (on : PathBuf * PathBuf) : bool := own (key (path_of s on)).

Definition item_ok (G : Ghost) (x : Item) : Prop :=
  match x.1 with
  | RenamePart1 i o n check_new => check_new = true /\ ren G !! i = Some (o, n) /\ forall s, covers s x.2 = mine s (o, n)
  | m => match vote_of m with
         | Some (i, s, v, on) => ren G !! i = Some on /\ votes G !! (i, s) = Some v /\ forall s, covers s x.2 = mine s on
         | None => True
         end
  end.

(** Whom the files that are held are held for, and what waits for them. *)
Record HeldOk (G : Ghost) (k : Key) (r : PendingRename) (d : list Z) : Prop := {
  ho_own : own k = true;
  ho_ren : ren G !! r_id r = Some (r_paths r);
  ho_side : exists s, k = key (path_of s (r_paths r));
  ho_differ : key (r_old_path r) <> key (r_new_path r);
  ho_check : r_check_new r = true;
  ho_said : forall s, said s r <> Pending -> exists v, votes G !! (r_id r, s) = Some v /\ said s r = commit_of v;
  ho_voted : forall s, k = key (path_of s (r_paths r)) -> is_Some (votes G !! (r_id r, s));
  ho_old_data : forall d', k = key (r_old_path r) -> votes G !! (r_id r, SOld) = Some (Some d') -> d = d';
  ho_new_data : k = key (r_new_path r) -> old_exists r = Ok -> votes G !! (r_id r, SOld) = Some (Some (r_data r));
  ho_ops : forall x, x ∈ items (pending_ops r) -> is_part2 x.1 = false /\ key (mut_path x.1) = k /\ item_ok G x;
  ho_once : NoDup (asked (items (pending_ops r)));
}.

Definition parked (H : HView) (i : Id) : Prop := exists k r d, H !! k = Some (r, d) /\ i ∈ asked (items (pending_ops r)).

(** [L] is what the thread has still to handle, [E] what was said and has not been sent yet. *)
Record TInv (G : Ghost) (E : list (Id * Side)) (H : HView) (L : list Item) : Prop := {
  ti_held : forall k r d, H !! k = Some (r, d) -> HeldOk G k r d;
  ti_open : forall k r d, H !! k = Some (r, d) -> state r = Done Pending;
  ti_queue : Forall (item_ok G) L;
  ti_fresh : forall i on s, i ∈ asked L \/ parked H i -> ren G !! i = Some on -> mine s on = true -> votes G !! (i, s) = None;
  ti_once : NoDup (asked L);
  ti_apart : forall i, i ∈ asked L -> ~ parked H i;
  ti_wait : forall i, parked H i -> i ∈ waited G;
  ti_asked : forall i on s, ren G !! i = Some on -> mine s on = true -> is_Some (votes G !! (i, s)) \/ i ∈ asked L \/ i ∈ waited G;
  ti_voted : forall i on s, ren G !! i = Some on -> mine s on = true -> is_Some (votes G !! (i, s)) ->
    (exists r d, H !! key (path_of s on) = Some (r, d) /\ r_id r = i) \/ (i, s) ∈ (ends G).*1;
  ti_coming : forall k r d s, H !! k = Some (r, d) -> said s r = Pending -> is_Some (votes G !! (r_id r, s)) ->
    (exists x, x ∈ L /\ says (r_id r) s x) \/ r_id r ∈ waited G \/ (r_id r, s) ∈ E;
  ti_ahead : forall i s, i ∈ asked L -> is_Some (votes G !! (i, s)) -> (exists x, x ∈ L /\ says i s x) \/ i ∈ waited G \/ (i, s) ∈ E;
  ti_order : forall L1 x L2 i s, L = L1 ++ x :: L2 -> says i s x -> i ∈ asked L2 -> i ∈ waited G;
  ti_both : forall r d, H !! key (r_new_path r) = Some (r, d) -> own (key (r_old_path r)) = true ->
    exists r' d', H !! key (r_old_path r) = Some (r', d') /\ r_id r' = r_id r /\ forall s, said s r' = said s r;
  ti_ended : forall i on s, (i, s) ∈ (ends G).*1 -> ren G !! i = Some on -> mine s on = true ->
    is_Some (votes G !! (i, s)) /\ forall r d, H !! key (path_of s on) = Some (r, d) -> r_id r <> i;
}.

Lemma asked_cons m w L : asked ((m, w) :: L) = match asks_rename m with Some i => i :: asked L | None => asked L end.
Proof. unfold asked. cbn. by destruct (asks_rename m). Qed.

Lemma asked_app L L' : asked (L ++ L') = asked L ++ asked L'.
Proof. apply omap_app. Qed.

Lemma items_app ops ops' : items (ops ++ ops') = items ops ++ items ops'.
Proof. apply omap_app. Qed.

Lemma elem_of_asked i L : i ∈ asked L <-> exists o n c w, (RenamePart1 i o n c, w) ∈ L.
Proof.
  unfold asked. rewrite list_elem_of_omap. split.
  - intros ([m w] & Hin & Hm). destruct m; try done. cbn in Hm. injection Hm as ->. eauto.
  - intros (o & n & c & w & Hin). by eexists.
Qed.

Lemma says_fun i s i' s' x : says i s x -> says i' s' x -> i = i' /\ s = s'.
Proof. intros (v & on & E) (v' & on' & E'). by simplify_eq. Qed.

Lemma says_item G x i s : item_ok G x -> says i s x -> is_Some (ren G !! i) /\ is_Some (votes G !! (i, s)).
Proof.
  intros Hx (v & on & E). unfold item_ok in Hx. destruct (x.1); try done; cbn in E, Hx; simplify_eq;
    destruct Hx as (-> & -> & _); by split; eexists.
Qed.

Lemma says_asks i s x : says i s x -> asks_rename x.1 = None.
Proof. intros (v & on & E). by destruct (x.1). Qed.

Lemma asked_tail i x L : i ∈ asked L -> i ∈ asked (x :: L).
Proof. intros Hi. unfold asked. cbn. destruct (asks_rename x.1); [by apply elem_of_cons; right|done]. Qed.

(** Two items that ask for the same rename are about the same files. *)
Lemma asked_item G L i : Forall (item_ok G) L -> i ∈ asked L ->
  exists on, ren G !! i = Some on /\ exists x, x ∈ L /\ key (mut_path x.1) = key (path_of SOld on) /\ asks_rename x.1 = Some i.
Proof.
  intros Hf Hi. apply elem_of_asked in Hi as (o & n & c & w & Hin). pose proof (proj1 (Forall_forall _ _) Hf _ Hin) as Hok.
  destruct Hok as (_ & Hr & _). exists (o, n). split; [done|]. by exists (RenamePart1 i o n c, w).
Qed.

(** What waits at a file asks for renames of that file. *)
Lemma parked_at G E H L k r d i : TInv G E H L -> H !! k = Some (r, d) -> i ∈ asked (items (pending_ops r)) ->
  exists on, ren G !! i = Some on /\ k = key (path_of SOld on).
Proof.
  intros HT Hk Hi. pose proof (ti_held _ _ _ _ HT _ _ _ Hk) as Hh.
  apply elem_of_asked in Hi as (o & n & c & w & Hin). destruct (ho_ops _ _ _ _ Hh _ Hin) as (_ & Hp & _ & Hr & _).
  exists (o, n). by split.
Qed.

(** *** More is known *)

Record extends (G G' : Ghost) : Prop := {
  ex_ren : forall i on, ren G !! i = Some on -> ren G' !! i = Some on;
  ex_votes : forall x v, votes G !! x = Some v -> votes G' !! x = Some v;
  ex_waited : waited G ⊆ waited G';
  ex_ends : forall x, x ∈ (ends G).*1 -> x ∈ (ends G').*1;
}.

Lemma item_mono G G' x : extends G G' -> item_ok G x -> item_ok G' x.
Proof.
  intros Hx. unfold item_ok. destruct x as [[] w]; cbn; try done; intros (H1 & H2 & H3); split_and!; try done;
    eauto using ex_ren, ex_votes.
Qed.

Lemma held_mono G G' k r d : extends G G' -> HeldOk G k r d -> HeldOk G' k r d.
Proof.
  intros Hx Hh. constructor; try apply Hh.
  - eapply ex_ren; [done|]. apply Hh.
  - intros s Hs. destruct (ho_said _ _ _ _ Hh s Hs) as (v & Hv & E). exists v. eauto using ex_votes.
  - intros s Hs. destruct (ho_voted _ _ _ _ Hh s Hs) as [v Hv]. exists v. eauto using ex_votes.
  - intros d' Hk Hv. destruct (ho_voted _ _ _ _ Hh SOld Hk) as [v Hv']. rewrite (ex_votes _ _ Hx _ _ Hv') in Hv.
    injection Hv as ->. by eapply ho_old_data.
  - intros Hk Ho. eapply ex_votes; [done|]. by apply (ho_new_data _ _ _ _ Hh).
  - intros x Hin. destruct (ho_ops _ _ _ _ Hh x Hin) as (H1 & H2 & H3). split_and!; try done. by eapply item_mono.
Qed.

(** What happens elsewhere. *)
Lemma elsewhere G G' E E' H L : TInv G E H L -> extends G G' -> ren G' = ren G -> E ⊆ E' ->
  (forall i on s, ren G !! i = Some on -> mine s on = true -> votes G' !! (i, s) = votes G !! (i, s)) ->
  (forall i s, is_Some (votes G' !! (i, s)) -> is_Some (votes G !! (i, s)) \/ (i, s) ∈ E') ->
  (forall i on s, (i, s) ∈ (ends G').*1 -> ren G !! i = Some on -> mine s on = true -> (i, s) ∈ (ends G).*1) ->
  TInv G' E' H L.
Proof.
  intros HT Hx Hren HE Hv Hnew Hends. constructor; try rewrite Hren.
  - intros k r d Hk. eapply held_mono; [done|]. by eapply ti_held.
  - apply HT.
  - eapply Forall_impl; [apply HT|]. intros x. by apply item_mono.
  - intros i on s Hi Hr Hs. rewrite (Hv i on s) by done. by eapply ti_fresh.
  - apply HT.
  - apply HT.
  - intros i Hi. eapply ex_waited; [done|]. by apply (ti_wait _ _ _ _ HT).
  - intros i on s Hr Hs. rewrite (Hv i on s) by done. destruct (ti_asked _ _ _ _ HT i on s Hr Hs) as [?|[?|?]]; auto.
    right; right. by eapply ex_waited.
  - intros i on s Hr Hs. rewrite (Hv i on s) by done. intros Hs'. destruct (ti_voted _ _ _ _ HT i on s Hr Hs Hs') as [?|?]; [by left|].
    right. by eapply ex_ends.
  - intros k r d s Hk Hs Hv'. apply Hnew in Hv' as [Hv'|?]; [|auto].
    destruct (ti_coming _ _ _ _ HT k r d s Hk Hs Hv') as [?|[?|?]]; [by auto| |by right; right; apply HE].
    right; left. by eapply ex_waited.
  - intros i s Hi Hv'. apply Hnew in Hv' as [Hv'|?]; [|auto].
    destruct (ti_ahead _ _ _ _ HT i s Hi Hv') as [?|[?|?]]; [by auto| |by right; right; apply HE].
    right; left. by eapply ex_waited.
  - intros L1 x L2 i s HL Hs Hi. eapply ex_waited; [done|]. by eapply (ti_order _ _ _ _ HT).
  - apply HT.
  - intros i on s Hi Hr Hs. rewrite (Hv i on s) by done. eapply ti_ended; [done| |done|done]. by eapply Hends.
Qed.

(** What was sent has come. *)
Lemma delivered G E E' H L X : TInv G E H L -> Forall (item_ok G) X -> asked X = [] ->
  (forall k r d s, H !! k = Some (r, d) -> (r_id r, s) ∈ E ->
     (exists x, x ∈ L ++ X /\ says (r_id r) s x) \/ r_id r ∈ waited G \/ (r_id r, s) ∈ E') ->
  (forall i s, i ∈ asked L -> (i, s) ∈ E -> (exists x, x ∈ L ++ X /\ says i s x) \/ i ∈ waited G \/ (i, s) ∈ E') ->
  TInv G E' H (L ++ X).
Proof.
  intros HT HX Ha HE HE2. constructor; rewrite ?asked_app, ?Ha, ?app_nil_r; try apply HT.
  - apply Forall_app. split; [apply HT|done].
  - intros k r d s Hk Hs Hv. destruct (ti_coming _ _ _ _ HT k r d s Hk Hs Hv) as [(x & Hx & ?)|[?|?]]; eauto.
    left. exists x. split; [|done]. apply elem_of_app. by left.
  - intros i s Hi Hv. destruct (ti_ahead _ _ _ _ HT i s Hi Hv) as [(x & Hx & ?)|[?|?]]; eauto.
    left. exists x. split; [|done]. apply elem_of_app. by left.
  - intros L1 x L2 i s HL Hs Hi. apply app_eq_inv in HL as [(L3 & -> & E1)|(L3 & -> & E1)].
    + destruct L3 as [|y L3]; [|injection E1 as <- ->].
      * rewrite app_nil_l in E1. subst X. apply (asked_tail i x) in Hi. rewrite Ha in Hi. by apply elem_of_nil in Hi.
      * rewrite asked_app, Ha, app_nil_r in Hi. by eapply (ti_order _ _ _ _ HT).
    + rewrite E1, asked_app in Ha. apply app_eq_nil in Ha as [_ Ha]. apply (asked_tail i x) in Hi. rewrite Ha in Hi. by apply elem_of_nil in Hi.
Qed.

(** A rename is asked for. *)
Definition with_ren (i : Id) (on : PathBuf * PathBuf) (G : Ghost) : Ghost := mkGhost (<[i := on]> (ren G)) (votes G) (waited G) (ends G).

Lemma extends_ren G i on : ren G !! i = None -> extends G (with_ren i on G).
Proof. intros Hi. constructor; try done. intros j on' Hj. cbn. rewrite lookup_insert_ne; [done|congruence]. Qed.

Lemma new_rename G E H L i on X : TInv G E H L -> ren G !! i = None -> (forall s, votes G !! (i, s) = None) ->
  Forall (item_ok (with_ren i on G)) X -> ((exists s, mine s on = true) -> asked X = [i]) -> (asked X = [] \/ asked X = [i]) ->
  (forall s, (i, s) ∉ (ends G).*1) ->
  TInv (with_ren i on G) E H (L ++ X).
Proof.
  intros HT Hi Hv HX Ha Ha' He. pose proof (extends_ren G i on Hi) as Hx.
  assert (Hold : forall j, j ∈ asked L \/ parked H j -> j <> i).
  { intros j [Hj|(k & r & d & Hk & Hj)] ->.
    - destruct (asked_item _ _ _ (ti_queue _ _ _ _ HT) Hj) as (? & ? & _). congruence.
    - destruct (parked_at _ _ _ _ _ _ _ _ HT Hk Hj) as (? & ? & _). congruence. }
  assert (HaX : forall j, j ∈ asked X -> j = i).
  { intros j Hj. destruct Ha' as [E'|E']; rewrite E' in Hj; [by apply elem_of_nil in Hj|by apply list_elem_of_singleton in Hj]. }
  constructor; rewrite ?asked_app.
  - intros k r d Hk. eapply held_mono; [done|]. by eapply ti_held.
  - apply HT.
  - apply Forall_app. split; [|done]. eapply Forall_impl; [apply HT|]. intros x. by apply item_mono.
  - intros j on' s Hj Hr Hs. destruct (decide (j = i)) as [->|Hne]; [apply Hv|]. cbn in Hr. rewrite lookup_insert_ne in Hr by done.
    eapply (ti_fresh _ _ _ _ HT); [|done|done]. destruct Hj as [Hj|Hj]; [|by right].
    apply elem_of_app in Hj as [Hj|Hj]; [by left|]. by apply HaX in Hj.
  - apply NoDup_app. split_and!; [apply HT| |destruct Ha' as [E'|E']; rewrite E'; [constructor|apply NoDup_singleton]].
    intros j Hj HjX. apply HaX in HjX. apply (Hold j); [by left|done].
  - intros j Hj Hp. apply elem_of_app in Hj as [Hj|Hj]; [by eapply ti_apart|]. apply HaX in Hj. apply (Hold j); [by right|done].
  - apply HT.
  - intros j on' s Hr Hs. cbn in Hr. destruct (decide (j = i)) as [->|Hne].
    + rewrite lookup_insert_eq in Hr. injection Hr as ->. right; left. rewrite Ha by eauto. apply elem_of_app. right. apply list_elem_of_singleton. done.
    + rewrite lookup_insert_ne in Hr by done. destruct (ti_asked _ _ _ _ HT j on' s Hr Hs) as [?|[?|?]]; [by left| |by right; right].
      right; left. apply elem_of_app. by left.
  - intros j on' s Hr Hs Hv'. cbn in Hr, Hv'. destruct (decide (j = i)) as [->|Hne].
    + destruct Hv' as [? Hv']. by rewrite Hv in Hv'.
    + rewrite lookup_insert_ne in Hr by done. by apply (ti_voted _ _ _ _ HT j on' s).
  - intros k r d s Hk Hs Hv'. destruct (ti_coming _ _ _ _ HT k r d s Hk Hs Hv') as [(x & Hx' & ?)|?]; [|by right].
    left. exists x. split; [|done]. apply elem_of_app. by left.
  - intros j s Hj Hv'. apply elem_of_app in Hj as [Hj|Hj].
    + destruct (ti_ahead _ _ _ _ HT j s Hj Hv') as [(x & Hx' & ?)|?]; [|by right]. left. exists x. split; [|done]. apply elem_of_app. by left.
    + apply HaX in Hj as ->. cbn in Hv'. rewrite Hv in Hv'. by destruct Hv'.
  - intros L1 x L2 j s HL Hs Hj. destruct (decide (j = i)) as [->|Hne].
    { exfalso. assert (Hin : x ∈ L ++ X) by (rewrite HL; apply elem_of_app; right; by apply elem_of_cons; left).
      assert (Hn : ~ is_Some (votes G !! (i, s))) by (rewrite Hv; by intros [? ?]). apply Hn.
      apply elem_of_app in Hin as [Hin|Hin].
      - apply (proj2 (says_item G x i s (proj1 (Forall_forall _ _) (ti_queue _ _ _ _ HT) x Hin) Hs)).
      - apply (proj2 (says_item (with_ren i on G) x i s (proj1 (Forall_forall _ _) HX x Hin) Hs)). }
    apply app_eq_inv in HL as [(L3 & -> & E1)|(L3 & -> & E1)]; [destruct L3 as [|y L3]|].
    + destruct Hne. apply HaX. rewrite app_nil_l in E1. subst X. by apply asked_tail.
    + injection E1 as <- ->. rewrite asked_app, elem_of_app in Hj. destruct Hj as [Hj|Hj]; [by eapply (ti_order _ _ _ _ HT)|by apply HaX in Hj].
    + destruct Hne. apply HaX. rewrite E1, asked_app, elem_of_app. right. by apply asked_tail.
  - apply HT.
  - intros j on' s Hj Hr Hs. cbn in Hr, Hj. destruct (decide (j = i)) as [->|Hne]; [by apply He in Hj|].
    rewrite lookup_insert_ne in Hr by done. by apply (ti_ended _ _ _ _ HT j on' s).
Qed.

(** *** The thread handles an item *)

Lemma drop_item G E H L m w : TInv G E H ((m, w) :: L) -> asks_rename m = None ->
  (forall k r d s, H !! k = Some (r, d) -> said s r = Pending -> ~ says (r_id r) s (m, w)) -> TInv G E H L.
Proof.
  intros HT Hm Hs. pose proof (ti_order _ _ _ _ HT [] (m, w) L) as Hord.
  assert (Ha : asked ((m, w) :: L) = asked L) by (rewrite asked_cons; by rewrite Hm).
  constructor; rewrite <-?Ha; try apply HT.
  - by pose proof (ti_queue _ _ _ _ HT) as [_ ?]%Forall_cons.
  - intros k r d s Hk Hp Hv. destruct (ti_coming _ _ _ _ HT k r d s Hk Hp Hv) as [(x & Hx & Hsx)|?]; [|by right].
    left. apply elem_of_cons in Hx as [->|Hx]; [by destruct (Hs k r d s Hk Hp)|]. by exists x.
  - intros i s Hi Hv. destruct (ti_ahead _ _ _ _ HT i s Hi Hv) as [(x & Hx & Hsx)|?]; [|by right].
    apply elem_of_cons in Hx as [->|Hx]; [|left; by exists x]. right; left. rewrite Ha in Hi. by eapply Hord.
  - intros L1 x L2 i s HL. eapply (ti_order _ _ _ _ HT ((m, w) :: L1)). by rewrite HL.
Qed.

Definition wait (m : Mutation) (G : Ghost) : Ghost :=
  match asks_rename m with Some i => mkGhost (ren G) (votes G) ({[i]} ∪ waited G) (ends G) | None => G end.

Lemma wait_extends m G : extends G (wait m G).
Proof. unfold wait. destruct (asks_rename m); constructor; try done. cbn. set_solver. Qed.

Lemma wait_same m G : ren (wait m G) = ren G /\ votes (wait m G) = votes G /\ ends (wait m G) = ends G.
Proof. unfold wait. by destruct (asks_rename m). Qed.

(** Something waits for a file that is held. *)
Lemma push_lookup (H : HView) k r d op k' r' d' : H !! k = Some (r, d) -> <[k := (push_op op r, d)]> H !! k' = Some (r', d') ->
  exists r0, H !! k' = Some (r0, d') /\ r_id r' = r_id r0 /\ r_paths r' = r_paths r0 /\ (forall s, said s r' = said s r0) /\
    (k' = k /\ r0 = r /\ r' = push_op op r \/ k' <> k /\ r' = r0).
Proof.
  intros Hk Hk'. destruct (decide (k' = k)) as [->|Hne].
  - rewrite lookup_insert_eq in Hk'. injection Hk' as <- <-. exists r. split; [done|]. split; [done|]. split; [done|]. split; [by intros []|by left].
  - rewrite lookup_insert_ne in Hk' by done. exists r'. split; [done|]. split; [done|]. split; [done|]. split; [done|by right].
Qed.

Lemma push_lookup_back (H : HView) k r d op k' r0 d' : H !! k = Some (r, d) -> H !! k' = Some (r0, d') ->
  exists r', <[k := (push_op op r, d)]> H !! k' = Some (r', d') /\ r_id r' = r_id r0 /\ r_paths r' = r_paths r0 /\ forall s, said s r' = said s r0.
Proof.
  intros Hk Hk'. destruct (decide (k' = k)) as [->|Hne].
  - rewrite lookup_insert_eq. simplify_eq. eexists. split; [done|]. split; [done|]. split; [done|]. by intros [].
  - rewrite lookup_insert_ne by done. eauto.
Qed.

Lemma held_push G k r d op : HeldOk G k r d ->
  (forall x, x ∈ items [op] -> is_part2 x.1 = false /\ key (mut_path x.1) = k /\ item_ok G x) ->
  (forall i, i ∈ asked (items [op]) -> i ∉ asked (items (pending_ops r))) -> NoDup (asked (items [op])) ->
  HeldOk G k (push_op op r) d.
Proof.
  intros Hh Hx Hi Hnd. constructor; try apply Hh.
  - cbn. intros x. rewrite items_app, elem_of_app. intros [Hin|Hin]; [|by apply Hx]. by apply (ho_ops _ _ _ _ Hh).
  - cbn. rewrite items_app, asked_app. apply NoDup_app. split_and!; [apply Hh| |done]. intros i H1 H2. by apply (Hi i).
Qed.

(** The renames that wait after a push. *)
Lemma parked_push (H : HView) k r d op i : H !! k = Some (r, d) -> parked (<[k := (push_op op r, d)]> H) i ->
  parked H i \/ i ∈ asked (items [op]).
Proof.
  intros Hk (k' & r' & d' & Hk' & Hi). destruct (push_lookup _ _ _ _ _ _ _ _ Hk Hk') as (r0 & H0 & _ & _ & _ & [(-> & -> & ->)|(Hne & ->)]).
  - cbn in Hi. rewrite items_app, asked_app, elem_of_app in Hi. destruct Hi; [|by right]. left. by exists k, r, d.
  - left. by exists k', r0, d'.
Qed.

Lemma push_op_inv G E H L k r d op : TInv G E H L -> H !! k = Some (r, d) ->
  (forall x, x ∈ items [op] -> is_part2 x.1 = false /\ key (mut_path x.1) = k /\ item_ok G x) ->
  (forall i, i ∈ asked (items [op]) -> (i ∉ asked L) /\ i ∈ waited G /\ ~ parked H i /\ forall on s, ren G !! i = Some on -> mine s on = true -> votes G !! (i, s) = None) ->
  NoDup (asked (items [op])) -> TInv G E (<[k := (push_op op r, d)]> H) L.
Proof.
  intros HT Hk Hx Hi Hnd. constructor; try apply HT.
  - intros k' r' d' Hk'. destruct (push_lookup _ _ _ _ _ _ _ _ Hk Hk') as (r0 & H0 & _ & _ & _ & [(-> & -> & ->)|(Hne & ->)]); [|by eapply ti_held].
    apply held_push; [by eapply ti_held|done| |done]. intros i Hi' Hi2. destruct (Hi i Hi') as (_ & _ & Hp & _). apply Hp. by exists k, r, d'.
  - intros k' r' d' Hk'. destruct (push_lookup _ _ _ _ _ _ _ _ Hk Hk') as (r0 & H0 & _ & _ & _ & [(-> & -> & ->)|(Hne & ->)]);
      [exact (ti_open _ _ _ _ HT _ _ _ Hk)|by eapply ti_open].
  - intros i on s [Hi'|Hp] Hr Hs; [by eapply (ti_fresh _ _ _ _ HT); [left|..]|].
    apply (parked_push _ _ _ _ _ _ Hk) in Hp as [Hp|Hp]; [by eapply (ti_fresh _ _ _ _ HT); [right|..]|]. by apply (Hi i Hp) with on.
  - intros i Hi' Hp. apply (parked_push _ _ _ _ _ _ Hk) in Hp as [Hp|Hp]; [by eapply ti_apart|]. by destruct (Hi i Hp) as (? & _).
  - intros i Hp. apply (parked_push _ _ _ _ _ _ Hk) in Hp as [Hp|Hp]; [by apply (ti_wait _ _ _ _ HT)|by apply Hi].
  - intros i on s Hr Hs Hv. destruct (ti_voted _ _ _ _ HT i on s Hr Hs Hv) as [(r0 & d0 & H0 & Hid)|?]; [|by right]. left.
    destruct (push_lookup_back _ _ _ _ op _ _ _ Hk H0) as (r' & H' & E' & _). exists r', d0. split; [done|]. congruence.
  - intros k' r' d' s Hk' Hs Hv. destruct (push_lookup _ _ _ _ _ _ _ _ Hk Hk') as (r0 & H0 & E1 & E2 & E3 & _).
    rewrite E1 in *. rewrite E3 in Hs. by eapply ti_coming.
  - intros r' d' Hk' Ho. destruct (push_lookup _ _ _ _ _ _ _ _ Hk Hk') as (r0 & H0 & E1 & E2 & E3 & _). injection E2 as E2 E4.
    rewrite E2 in Ho |- *. rewrite E4 in H0. destruct (ti_both _ _ _ _ HT r0 d' H0 Ho) as (r1 & d1 & H1 & Hid & Hs).
    destruct (push_lookup_back _ _ _ _ op _ _ _ Hk H1) as (r2 & H2 & E5 & _ & E6). exists r2, d1. split_and!; [done|congruence|].
    intros s. rewrite E6, E3. apply Hs.
  - intros i on s Hi' Hr Hs. destruct (ti_ended _ _ _ _ HT i on s Hi' Hr Hs) as [Hv Hno]. split; [done|].
    intros r' d' Hk'. destruct (push_lookup _ _ _ _ _ _ _ _ Hk Hk') as (r0 & H0 & E1 & _). rewrite E1. by eapply Hno.
Qed.

Lemma waits_inv m G E H L : TInv G E H L -> TInv (wait m G) E H L.
Proof.
  intros HT. destruct (wait_same m G) as (H1 & H2 & H3). eapply elsewhere; [done|apply wait_extends|done|done| | |].
  - intros. by rewrite H2.
  - intros i s. rewrite H2. by left.
  - intros i on s. by rewrite H3.
Qed.

Lemma park_item G E H L m w r d : TInv G E H ((m, w) :: L) -> is_part2 m = false -> H !! key (mut_path m) = Some (r, d) ->
  TInv (wait m G) E (<[key (mut_path m) := (push_op (Mut m w) r, d)]> H) L.
Proof.
  intros HT Hp Hk. pose proof (ti_queue _ _ _ _ HT) as [Hok HL]%Forall_cons.
  destruct (asks_rename m) as [i|] eqn:Ei.
  - assert (Hm : asked ((m, w) :: L) = i :: asked L) by (rewrite asked_cons; by rewrite Ei).
    assert (HT' : TInv (wait m G) E H L).
    { apply (waits_inv m) in HT. constructor; try apply HT.
      - by pose proof (ti_queue _ _ _ _ HT) as [_ ?]%Forall_cons.
      - intros j on s Hj. apply (ti_fresh _ _ _ _ HT). rewrite Hm. destruct Hj; [left; by apply elem_of_cons; right|by right].
      - pose proof (ti_once _ _ _ _ HT) as Hn. rewrite Hm in Hn. by apply NoDup_cons in Hn as [_ ?].
      - intros j Hj. apply (ti_apart _ _ _ _ HT). rewrite Hm. by apply elem_of_cons; right.
      - intros j on s Hr Hs. destruct (ti_asked _ _ _ _ HT j on s Hr Hs) as [?|[Hj|?]]; [by left| |by right; right].
        rewrite Hm in Hj. apply elem_of_cons in Hj as [->|Hj]; [|by right; left]. right; right. unfold wait. rewrite Ei. cbn. set_solver.
      - intros k r' d' s Hk' Hs Hv. destruct (ti_coming _ _ _ _ HT k r' d' s Hk' Hs Hv) as [(x & Hx & Hsx)|?]; [|by right].
        left. exists x. split; [|done]. apply elem_of_cons in Hx as [->|Hx]; [|done]. apply says_asks in Hsx. cbn in Hsx. congruence.
      - intros j s Hj Hv. destruct (ti_ahead _ _ _ _ HT j s) as [(x & Hx & Hsx)|?]; [by apply asked_tail|done| |by right].
        left. exists x. split; [|done]. apply elem_of_cons in Hx as [->|Hx]; [|done]. apply says_asks in Hsx. cbn in Hsx. congruence.
      - intros L1 x L2 j s HL'. eapply (ti_order _ _ _ _ HT ((m, w) :: L1)). by rewrite HL'. }
    apply push_op_inv; [done|done| | |].
    + intros x Hx. apply list_elem_of_singleton in Hx as ->. split_and!; try done. eapply item_mono; [apply wait_extends|done].
    + intros j Hj. change (asked (items [Mut m w])) with (asked [(m, w)]) in Hj. rewrite asked_cons, Ei in Hj.
      apply list_elem_of_singleton in Hj as ->. pose proof (ti_once _ _ _ _ HT) as Hn. rewrite Hm in Hn. apply NoDup_cons in Hn as [Hn _].
      assert (Hin : i ∈ asked ((m, w) :: L)) by (rewrite Hm; by apply elem_of_cons; left).
      split; [done|]. split; [unfold wait; rewrite Ei; cbn; set_solver|]. split; [by apply (ti_apart _ _ _ _ HT)|].
      intros on s Hr Hs. destruct (wait_same m G) as (E1 & E2 & _). rewrite E1 in Hr. rewrite E2.
      eapply (ti_fresh _ _ _ _ HT); [by left|done|done].
    + change (asked (items [Mut m w])) with (asked [(m, w)]). rewrite asked_cons, Ei. apply NoDup_singleton.
  - unfold wait. rewrite Ei. assert (Ha : asked (items [Mut m w]) = []).
    { change (asked (items [Mut m w])) with (asked [(m, w)]). by rewrite asked_cons, Ei. }
    apply push_op_inv; [|done| | |].
    + eapply drop_item; [done|done|]. intros k r' d' s _ _ (v & on & Hs). by destruct m.
    + intros x Hx. apply list_elem_of_singleton in Hx as ->. by split_and!.
    + intros j Hj. rewrite Ha in Hj. by apply elem_of_nil in Hj.
    + rewrite Ha. constructor.
Qed.

Lemma park_obs G E H L k r d o : TInv G E H L -> H !! k = Some (r, d) -> TInv G E (<[k := (push_op (Obs o) r, d)]> H) L.
Proof.
  intros HT Hk. apply push_op_inv; [done|done| | |]; [intros x Hx|intros i Hi|constructor]; by apply elem_of_nil in Hx || apply elem_of_nil in Hi.
Qed.

(** *** Both sides of a new rename that are here are held, and speak *)

Definition sides (on : PathBuf * PathBuf) : list Side := List.filter (fun s => mine s on) [SOld; SNew].

Lemma elem_of_sides s on : s ∈ sides on <-> mine s on = true.
Proof. unfold sides. rewrite list_elem_of_In, filter_In. split; [by intros [_ ?]|]. intros ?. split; [|done]. destruct s; cbn; auto. Qed.

Definition add_votes (i : Id) (on : PathBuf * PathBuf) (vs : Side -> Vote) (G : Ghost) : Ghost :=
  mkGhost (ren G) (foldr (fun s m => <[(i, s) := vs s]> m) (votes G) (sides on)) (waited G) (ends G).
Definition hold_view (i : Id) (on : PathBuf * PathBuf) (ds : Side -> list Z) (H : HView) : HView :=
  foldr (fun s m => <[key (path_of s on) := (PendingRename_new i on.1 on.2 true, ds s)]> m) H (sides on).

Lemma add_votes_lookup i on vs G j s :
  votes (add_votes i on vs G) !! (j, s) = if decide (j = i /\ mine s on = true) then Some (vs s) else votes G !! (j, s).
Proof.
  unfold add_votes, sides. cbn. destruct (mine SOld on) eqn:E1, (mine SNew on) eqn:E2; cbn;
    (case_decide as Hd; [destruct Hd as [-> Hd]; destruct s; try congruence; by simplify_map_eq|]);
    rewrite ?lookup_insert_ne; try done; intros Heq; apply Hd; injection Heq as <- <-; by split.
Qed.

Lemma hold_view_lookup i on ds H k : key on.1 <> key on.2 ->
  (exists s, mine s on = true /\ k = key (path_of s on) /\ hold_view i on ds H !! k = Some (PendingRename_new i on.1 on.2 true, ds s)) \/
  ((forall s, mine s on = true -> k <> key (path_of s on)) /\ hold_view i on ds H !! k = H !! k).
Proof.
  intros Hne. unfold hold_view, sides.
  destruct (decide (mine SOld on = true /\ k = key on.1)) as [[E1 ->]|H1].
  { left. exists SOld. split; [done|]. split; [done|]. cbn [List.filter]. rewrite E1. cbn [foldr]. by rewrite lookup_insert_eq. }
  destruct (decide (mine SNew on = true /\ k = key on.2)) as [[E2 ->]|H2].
  { left. exists SNew. split; [done|]. split; [done|]. cbn [List.filter]. rewrite E2.
    destruct (mine SOld on); cbn [foldr path_of]; rewrite ?(lookup_insert_ne _ (key on.1)) by done; by rewrite lookup_insert_eq. }
  right. split; [intros [] Hm Hk; [by apply H1|by apply H2]|].
  destruct (mine SOld on) eqn:E1, (mine SNew on) eqn:E2; cbn [List.filter]; rewrite ?E1, ?E2; cbn [foldr path_of]; rewrite ?lookup_insert_ne; try done;
    intros <-; (by apply H1) || (by apply H2).
Qed.

Lemma new_held G i on vs ds s : ren G !! i = Some on -> key on.1 <> key on.2 -> mine s on = true ->
  (forall d, vs SOld = Some d -> ds SOld = d) ->
  HeldOk (add_votes i on vs G) (key (path_of s on)) (PendingRename_new i on.1 on.2 true) (ds s).
Proof.
  intros Hr Hne Hs Hd. destruct on as [o n]. cbn in Hne.
  assert (Hv : forall s', key (path_of s (o, n)) = key (path_of s' (o, n)) -> s' = s).
  { destruct s, s'; cbn; congruence. }
  constructor; try done.
  - by exists s.
  - by intros [].
  - intros s' Hk. apply Hv in Hk as ->. cbn [r_id PendingRename_new]. rewrite add_votes_lookup, decide_True by done. by eexists.
  - intros d' Hk. apply (Hv SOld) in Hk as <-. cbn [r_id PendingRename_new]. rewrite add_votes_lookup, decide_True by done.
    intros [= Hv']. by apply Hd.
  - intros x Hx. by apply elem_of_nil in Hx.
  - constructor.
Qed.

Lemma part1_item G E H L i on w vs ds : TInv G E H ((RenamePart1 i on.1 on.2 true, w) :: L) -> key on.1 <> key on.2 ->
  (forall s, mine s on = true -> H !! key (path_of s on) = None) -> (forall d, vs SOld = Some d -> ds SOld = d) ->
  TInv (add_votes i on vs G) (E ++ ((fun s => (i, s)) <$> sides on)) (hold_view i on ds H) L.
Proof.
  intros HT Hne Hfree Hd. pose proof (ti_queue _ _ _ _ HT) as [(_ & Hr & _) HL]%Forall_cons. rewrite <-surjective_pairing in Hr.
  assert (Hm : asked ((RenamePart1 i on.1 on.2 true, w) :: L) = i :: asked L) by done.
  pose proof (ti_once _ _ _ _ HT) as Hnd. rewrite Hm in Hnd. apply NoDup_cons in Hnd as [Hi Hnd].
  assert (Hin : i ∈ asked ((RenamePart1 i on.1 on.2 true, w) :: L)) by (rewrite Hm; by apply elem_of_cons; left).
  assert (Hfresh : forall s, mine s on = true -> votes G !! (i, s) = None) by (intros s; eapply (ti_fresh _ _ _ _ HT); by auto).
  assert (Hx : extends G (add_votes i on vs G)).
  { constructor; try done. intros [j s] v Hv. rewrite add_votes_lookup. case_decide as Hc; [|done]. destruct Hc as [-> Hc].
    by rewrite Hfresh in Hv. }
  assert (Hold : forall k r d, H !! k = Some (r, d) -> hold_view i on ds H !! k = Some (r, d)).
  { intros k r d Hk. destruct (hold_view_lookup i on ds H k Hne) as [(s & Hs & -> & _)|[_ ->]]; [|done]. by rewrite Hfree in Hk. }
  assert (Hcase : forall k r d, hold_view i on ds H !! k = Some (r, d) -> H !! k = Some (r, d) \/
     exists s, mine s on = true /\ k = key (path_of s on) /\ r = PendingRename_new i on.1 on.2 true /\ d = ds s).
  { intros k r d Hk. destruct (hold_view_lookup i on ds H k Hne) as [(s & Hs & -> & E1)|[_ E1]]; rewrite E1 in Hk; [|by left].
    injection Hk as <- <-. right. by exists s. }
  assert (Hpark : forall j, parked (hold_view i on ds H) j -> parked H j).
  { intros j (k & r & d & Hk & Hj). apply Hcase in Hk as [Hk|(s & _ & _ & -> & _)]; [by exists k, r, d|]. by apply elem_of_nil in Hj. }
  constructor.
  - intros k r d Hk. apply Hcase in Hk as [Hk|(s & Hs & -> & -> & ->)]; [|by apply new_held].
    eapply held_mono; [done|]. by eapply ti_held.
  - intros k r d Hk. apply Hcase in Hk as [Hk|(s & Hs & -> & -> & ->)]; [by eapply ti_open|done].
  - eapply Forall_impl; [done|]. intros x. by apply item_mono.
  - intros j on' s Hj Hr' Hs. rewrite add_votes_lookup. rewrite decide_False.
    + eapply (ti_fresh _ _ _ _ HT); [|done|done]. rewrite Hm. destruct Hj as [Hj|Hj]; [left; by apply elem_of_cons; right|right; by apply Hpark].
    + intros [-> _]. destruct Hj as [Hj|Hj]; [done|]. by eapply (ti_apart _ _ _ _ HT); [|apply Hpark].
  - done.
  - intros j Hj Hp. apply Hpark in Hp. eapply (ti_apart _ _ _ _ HT); [|done]. rewrite Hm. by apply elem_of_cons; right.
  - intros j Hp. apply (ti_wait _ _ _ _ HT). by apply Hpark.
  - intros j on' s Hr' Hs. rewrite add_votes_lookup. case_decide as Hc; [left; by eexists|].
    destruct (ti_asked _ _ _ _ HT j on' s Hr' Hs) as [?|[Hj|?]]; [by left| |by right; right].
    rewrite Hm in Hj. apply elem_of_cons in Hj as [->|Hj]; [|by right; left]. cbn in Hr'. rewrite Hr in Hr'. injection Hr' as <-. by destruct Hc.
  - intros j on' s Hr' Hs Hv. rewrite add_votes_lookup in Hv. cbn in Hr'. case_decide as Hc.
    + destruct Hc as [-> Hc]. rewrite Hr in Hr'. injection Hr' as <-. left.
      destruct (hold_view_lookup i on ds H (key (path_of s on)) Hne) as [(s' & _ & _ & E1)|[Hno _]]; [by eexists _, _|by destruct (Hno s)].
    + destruct (ti_voted _ _ _ _ HT j on' s Hr' Hs Hv) as [(r & d & Hk & Hid)|?]; [|by right]. left. exists r, d. split; [by apply Hold|done].
  - intros k r d s Hk Hs Hv. rewrite add_votes_lookup in Hv. rewrite elem_of_app. case_decide as Hc.
    { destruct Hc as [Hc Hm']. right; right; right. apply list_elem_of_fmap. exists s. split; [by rewrite Hc|by apply elem_of_sides]. }
    apply Hcase in Hk as [Hk|(s' & Hs' & _ & -> & _)].
    + destruct (ti_coming _ _ _ _ HT k r d s Hk Hs Hv) as [(x & Hx' & Hsx)|[?|?]]; [|by auto|by auto].
      left. exists x. split; [|done]. apply elem_of_cons in Hx' as [->|Hx']; [|done]. by destruct Hsx as (? & ? & ?).
    + destruct (ti_ahead _ _ _ _ HT i s Hin Hv) as [(x & Hx' & Hsx)|[?|?]]; [|by auto|by auto].
      left. exists x. split; [|done]. apply elem_of_cons in Hx' as [->|Hx']; [by apply says_asks in Hsx|done].
  - intros j s Hj Hv. rewrite elem_of_app. rewrite add_votes_lookup in Hv. rewrite decide_False in Hv by (by intros [-> _]).
    destruct (ti_ahead _ _ _ _ HT j s) as [(x & Hx' & Hsx)|[?|?]]; [by apply asked_tail|done| |by auto|by auto].
    left. exists x. split; [|done]. apply elem_of_cons in Hx' as [->|Hx']; [by apply says_asks in Hsx|done].
  - intros L1 x L2 j s HL'. eapply (ti_order _ _ _ _ HT (_ :: L1)). by rewrite HL'.
  - intros r d Hk Ho. apply Hcase in Hk as [Hk|(s & Hs & Hks & -> & ->)].
    + destruct (ti_both _ _ _ _ HT r d Hk Ho) as (r' & d' & Hk' & Hid & Hsd). exists r', d'. split; [by apply Hold|done].
    + exists (PendingRename_new i on.1 on.2 true), (ds SOld). split; [|done]. change (mine SOld on = true) in Ho. change (hold_view i on ds H !! key on.1 = Some (PendingRename_new i on.1 on.2 true, ds SOld)).
      destruct (hold_view_lookup i on ds H (key on.1) Hne) as [(s' & Hs' & Hk' & E1)|[Hno _]]; [|by destruct (Hno SOld)].
      rewrite E1. destruct s'; [done|by destruct Hne].
  - intros j on' s Hj Hr' Hs. cbn in Hj, Hr'. destruct (ti_ended _ _ _ _ HT j on' s Hj Hr' Hs) as [Hv Hno].
    assert (j <> i) as Hji.
    { intros ->. rewrite Hr in Hr'. injection Hr' as <-. destruct Hv as [v Hv]. by rewrite Hfresh in Hv. }
    split; [rewrite add_votes_lookup, decide_False; [done|by intros [-> _]]|].
    intros r d Hk. apply Hcase in Hk as [Hk|(s' & Hs' & _ & -> & _)]; [by eapply Hno|]. by intros <-.
Qed.

(** *** What a side said is noted at the files of the rename *)

Record noted (s : Side) (v : Vote) (k : Key) (r r' : PendingRename) : Prop := {
  no_id : r_id r' = r_id r;
  no_paths : r_paths r' = r_paths r;
  no_ops : pending_ops r' = pending_ops r;
  no_check : r_check_new r' = r_check_new r;
  no_said : said s r' = commit_of v;
  no_other : forall s', s' <> s -> said s' r' = said s' r;
  no_moved : forall d, s = SOld -> k = key (r_new_path r) -> v = Some d -> r_data r' = d;
  no_kept : s = SNew -> r_data r' = r_data r;
}.

Lemma held_noted G k r r' d s v : HeldOk G k r d -> noted s v k r r' -> votes G !! (r_id r, s) = Some v -> HeldOk G k r' d.
Proof.
  intros Hh Hn Hv. pose proof (no_id _ _ _ _ _ Hn) as E1. pose proof (no_paths _ _ _ _ _ Hn) as E2. injection E2 as E3 E4.
  constructor; rewrite ?E1, ?(no_paths _ _ _ _ _ Hn), ?(no_ops _ _ _ _ _ Hn), ?(no_check _ _ _ _ _ Hn), ?E3, ?E4; try apply Hh.
  - intros s' Hs'. destruct (decide (s' = s)) as [->|Hne]; [exists v; split; [done|apply Hn]|].
    rewrite (no_other _ _ _ _ _ Hn s' Hne) in *. by apply (ho_said _ _ _ _ Hh).
  - intros Hk Ho. destruct s.
    + pose proof (no_said _ _ _ _ _ Hn) as Hs. cbn in Hs. rewrite Ho in Hs. destruct v as [d'|]; [|done].
      by rewrite (no_moved _ _ _ _ _ Hn d').
    + rewrite (no_kept _ _ _ _ _ Hn) by done. apply (ho_new_data _ _ _ _ Hh); [done|].
      pose proof (no_other _ _ _ _ _ Hn SOld) as Ho'. cbn in Ho'. rewrite <-Ho'; done.
Qed.

Definition noted_in (i : Id) (s : Side) (v : Vote) (H H' : HView) : Prop := forall k,
  match H !! k with
  | None => H' !! k = None
  | Some (r, d) => if decide (r_id r = i) then exists r', H' !! k = Some (r', d) /\ noted s v k r r' /\ state r' = Done Pending
                   else H' !! k = Some (r, d)
  end.

Lemma noted_cases i s v H H' k r' d : noted_in i s v H H' -> H' !! k = Some (r', d) ->
  exists r, H !! k = Some (r, d) /\ r_id r' = r_id r /\ r_paths r' = r_paths r /\ pending_ops r' = pending_ops r /\
    (r_id r = i /\ noted s v k r r' /\ state r' = Done Pending \/ r_id r <> i /\ r' = r).
Proof.
  intros Hn Hk. specialize (Hn k). destruct (H !! k) as [[r d0]|]; [|congruence]. case_decide as Hc.
  - destruct Hn as (r1 & Hr & Hn & Hs). rewrite Hk in Hr. injection Hr as <- <-. exists r. split; [done|].
    split; [apply Hn|]. split; [apply Hn|]. split; [apply Hn|]. by left.
  - rewrite Hk in Hn. injection Hn as -> ->. exists r. do 4 (split; [done|]). by right.
Qed.

Lemma noted_back i s v H H' k r d : noted_in i s v H H' -> H !! k = Some (r, d) ->
  exists r', H' !! k = Some (r', d) /\ r_id r' = r_id r /\ (r_id r = i /\ noted s v k r r' \/ r_id r <> i /\ r' = r).
Proof.
  intros Hn Hk. specialize (Hn k). rewrite Hk in Hn. case_decide as Hc; [|exists r; auto].
  destruct Hn as (r1 & Hr & Hn & Hs). exists r1. split; [done|]. split; [apply Hn|]. by left.
Qed.

(** A message about a rename whose files are held is not about one that is still to be asked for. *)
Lemma held_not_asked G E H L k r d : TInv G E H L -> H !! k = Some (r, d) -> r_id r ∉ asked L.
Proof.
  intros HT Hk Hi. pose proof (ti_held _ _ _ _ HT _ _ _ Hk) as Hh. destruct (ho_side _ _ _ _ Hh) as [s Hs].
  destruct (ho_voted _ _ _ _ Hh s Hs) as [v Hv]. rewrite (ti_fresh _ _ _ _ HT (r_id r) (r_paths r) s) in Hv; [done|by left|apply Hh|].
  unfold mine. rewrite <-Hs. apply Hh.
Qed.

Lemma note_item G E H H' L m w i s v on : TInv G E H ((m, w) :: L) -> vote_of m = Some (i, s, v, on) -> noted_in i s v H H' -> TInv G E H' L.
Proof.
  intros HT Hm Hn. pose proof (ti_queue _ _ _ _ HT) as [Hok HL]%Forall_cons.
  assert (Hs : says i s (m, w)) by (by eexists _, _).
  assert (Hv : votes G !! (i, s) = Some v) by (unfold item_ok in Hok; cbn in Hok; destruct m; try done; cbn in Hm; simplify_eq; apply Hok).
  assert (Ha : asked ((m, w) :: L) = asked L) by (pose proof (says_asks _ _ _ Hs) as Hn'; cbn in Hn'; by rewrite asked_cons, Hn').
  assert (Hpark : forall j, parked H' j -> parked H j).
  { intros j (k & r' & d & Hk & Hj). destruct (noted_cases _ _ _ _ _ _ _ _ Hn Hk) as (r & Hr & _ & _ & Eo & _). rewrite Eo in Hj. by exists k, r, d. }
  constructor; rewrite <-?Ha; try apply HT.
  - intros k r' d Hk. destruct (noted_cases _ _ _ _ _ _ _ _ Hn Hk) as (r & Hr & _ & _ & _ & [(Hi & Hno & _)|(_ & ->)]); [|by eapply ti_held].
    eapply held_noted; [by eapply (ti_held _ _ _ _ HT)|done|by rewrite Hi].
  - intros k r' d Hk. destruct (noted_cases _ _ _ _ _ _ _ _ Hn Hk) as (r & Hr & _ & _ & _ & [(_ & _ & ?)|(_ & ->)]); [done|by eapply ti_open].
  - done.
  - intros j on' s' [Hj|Hj]; [apply (ti_fresh _ _ _ _ HT); by left|apply (ti_fresh _ _ _ _ HT); right; by apply Hpark].
  - intros j Hj Hp. apply (ti_apart _ _ _ _ HT j Hj). by apply Hpark.
  - intros j Hp. apply (ti_wait _ _ _ _ HT). by apply Hpark.
  - intros j on' s' Hr Hs' Hv'. destruct (ti_voted _ _ _ _ HT j on' s' Hr Hs' Hv') as [(r & d & Hk & Hid)|?]; [|by right]. left.
    destruct (noted_back _ _ _ _ _ _ _ _ Hn Hk) as (r' & Hr' & E1 & _). exists r', d. split; [done|congruence].
  - intros k r' d s' Hk Hs' Hv'. destruct (noted_cases _ _ _ _ _ _ _ _ Hn Hk) as (r & Hr & E1 & _ & _ & Hc). rewrite E1 in *.
    assert (said s' r = Pending /\ ~ says (r_id r) s' (m, w)) as [Hp Hno].
    { destruct Hc as [(<- & Hno & _)|(Hne & ->)].
      - destruct (decide (s' = s)) as [->|Hne]; [rewrite (no_said _ _ _ _ _ Hno) in Hs'; by destruct v|].
        rewrite (no_other _ _ _ _ _ Hno) in Hs' by done. split; [done|]. intros Hs2. by destruct (says_fun _ _ _ _ _ Hs Hs2).
      - split; [done|]. intros Hs2. by destruct (says_fun _ _ _ _ _ Hs Hs2). }
    destruct (ti_coming _ _ _ _ HT k r d s' Hr Hp Hv') as [(x & Hx & Hsx)|?]; [|by right]. left.
    apply elem_of_cons in Hx as [->|Hx]; [done|]. by exists x.
  - intros j s' Hj Hv'. destruct (ti_ahead _ _ _ _ HT j s' Hj Hv') as [(x & Hx & Hsx)|?]; [|by right].
    apply elem_of_cons in Hx as [->|Hx]; [|left; by exists x]. right; left. rewrite Ha in Hj. by eapply (ti_order _ _ _ _ HT [] (m, w) L).
  - intros L1 x L2 j s' HL'. eapply (ti_order _ _ _ _ HT ((m, w) :: L1)). by rewrite HL'.
  - intros r' d Hk Ho. destruct (noted_cases _ _ _ _ _ _ _ _ Hn Hk) as (r & Hr & E1 & E2 & _ & Hc). injection E2 as E2 E3. rewrite E2, E3 in *.
    destruct (ti_both _ _ _ _ HT r d Hr Ho) as (r1 & d1 & H1 & Hid & Hsd). destruct (noted_back _ _ _ _ _ _ _ _ Hn H1) as (r2 & H2 & E4 & Hc2).
    exists r2, d1. split; [done|]. split; [congruence|]. intros s'.
    destruct Hc as [(Hi & Hno & _)|(Hne & ->)], Hc2 as [(Hi2 & Hno2)|(Hne2 & ->)]; [|congruence|congruence|done].
    destruct (decide (s' = s)) as [->|Hs']; [by rewrite (no_said _ _ _ _ _ Hno), (no_said _ _ _ _ _ Hno2)|].
    rewrite (no_other _ _ _ _ _ Hno), (no_other _ _ _ _ _ Hno2) by done. apply Hsd.
  - intros j on' s' Hj Hr Hs'. destruct (ti_ended _ _ _ _ HT j on' s' Hj Hr Hs') as [Hv' Hno]. split; [done|].
    intros r' d Hk. destruct (noted_cases _ _ _ _ _ _ _ _ Hn Hk) as (r & Hr' & E1 & _). rewrite E1. by eapply Hno.
Qed.

(** *** The rename is over: its files are let go, and what waited for them is next *)

Definition released (i : Id) (H H' : HView) : Prop := forall k,
  H' !! k = match H !! k with Some (r, d) => if decide (r_id r = i) then None else Some (r, d) | None => None end.

Definition add_ends (X : list (Id * Side * Vote)) (G : Ghost) : Ghost := mkGhost (ren G) (votes G) (waited G) (ends G ++ X).

Lemma released_cases i H H' k r d : released i H H' -> H' !! k = Some (r, d) -> H !! k = Some (r, d) /\ r_id r <> i.
Proof.
  intros Hrel Hk. specialize (Hrel k). rewrite Hk in Hrel. destruct (H !! k) as [[r0 d0]|]; [|done].
  case_decide; [done|]. by injection Hrel as -> ->.
Qed.

Lemma extends_ends X G : extends G (add_ends X G).
Proof. constructor; try done. intros x. cbn. rewrite fmap_app, elem_of_app. by left. Qed.

Lemma release_item G E H H' L m w i s v on W X : TInv G E H ((m, w) :: L) -> vote_of m = Some (i, s, v, on) -> released i H H' ->
  (forall x, x ∈ W -> exists k r d, H !! k = Some (r, d) /\ r_id r = i /\ x ∈ items (pending_ops r)) -> NoDup (asked W) ->
  (forall s r d, H !! key (path_of s on) = Some (r, d) -> r_id r = i -> (i, s) ∈ X.*1) ->
  (forall j s, (j, s) ∈ X.*1 -> j = i /\ exists r d, H !! key (path_of s on) = Some (r, d) /\ r_id r = i) ->
  TInv (add_ends X G) E H' (W ++ L).
Proof.
  intros HT Hm Hrel HW Hnd HX HX'. pose proof (ti_queue _ _ _ _ HT) as [Hok HL]%Forall_cons. pose proof (extends_ends X G) as Hx.
  assert (Hs : says i s (m, w)) by (by eexists _, _).
  assert (Hren : ren G !! i = Some on) by (unfold item_ok in Hok; cbn in Hok; destruct m; try done; cbn in Hm; simplify_eq; apply Hok).
  assert (Ha : asked ((m, w) :: L) = asked L) by (pose proof (says_asks _ _ _ Hs) as Hn'; cbn in Hn'; by rewrite asked_cons, Hn').
  assert (Hpark : forall j, parked H' j -> parked H j).
  { intros j (k & r & d & Hk & Hj). apply (released_cases _ _ _ _ _ _ Hrel) in Hk as [Hk _]. by exists k, r, d. }
  assert (HaW : forall j, j ∈ asked W -> exists k r d, H !! k = Some (r, d) /\ r_id r = i /\ j ∈ asked (items (pending_ops r))).
  { intros j Hj. apply elem_of_asked in Hj as (o & n & c & w' & Hj). destruct (HW _ Hj) as (k & r & d & Hk & Hi & Hin).
    exists k, r, d. split; [done|]. split; [done|]. apply elem_of_asked. eauto. }
  assert (HpW : forall j, j ∈ asked W -> parked H j).
  { intros j Hj. destruct (HaW j Hj) as (k & r & d & Hk & _ & Hin). by exists k, r, d. }
  constructor; rewrite ?asked_app.
  - intros k r d Hk. apply (released_cases _ _ _ _ _ _ Hrel) in Hk as [Hk _]. eapply held_mono; [done|]. by eapply ti_held.
  - intros k r d Hk. apply (released_cases _ _ _ _ _ _ Hrel) in Hk as [Hk _]. by eapply ti_open.
  - apply Forall_app. split; [|done]. apply Forall_forall. intros x Hx'. destruct (HW x Hx') as (k & r & d & Hk & _ & Hin).
    by apply (ho_ops _ _ _ _ (ti_held _ _ _ _ HT _ _ _ Hk)).
  - intros j on' s' Hj. apply (ti_fresh _ _ _ _ HT). rewrite Ha. destruct Hj as [Hj|Hj]; [|right; by apply Hpark].
    apply elem_of_app in Hj as [Hj|Hj]; [right; by apply HpW|by left].
  - apply NoDup_app. split; [done|]. split; [|rewrite <-Ha; apply HT]. intros j HjW HjL. rewrite <-Ha in HjL.
    apply (ti_apart _ _ _ _ HT j HjL). by apply HpW.
  - intros j Hj Hp. apply elem_of_app in Hj as [Hj|Hj]; [|rewrite <-Ha in Hj; apply (ti_apart _ _ _ _ HT j Hj); by apply Hpark].
    destruct (HaW j Hj) as (k & r & d & Hk & Hi & Hin). destruct Hp as (k' & r' & d' & Hk' & Hj').
    apply (released_cases _ _ _ _ _ _ Hrel) in Hk' as [Hk' Hne].
    destruct (parked_at _ _ _ _ _ _ _ _ HT Hk Hin) as (on1 & Hr1 & ->). destruct (parked_at _ _ _ _ _ _ _ _ HT Hk' Hj') as (on2 & Hr2 & ->).
    rewrite Hr1 in Hr2. injection Hr2 as <-. rewrite Hk in Hk'. by simplify_eq.
  - intros j Hp. apply (ti_wait _ _ _ _ HT). by apply Hpark.
  - intros j on' s' Hr Hs'. destruct (ti_asked _ _ _ _ HT j on' s' Hr Hs') as [?|[Hj|?]]; [by left| |by right; right].
    right; left. apply elem_of_app. right. by rewrite <-Ha.
  - intros j on' s' Hr Hs' Hv'. cbn. rewrite fmap_app, elem_of_app.
    destruct (ti_voted _ _ _ _ HT j on' s' Hr Hs' Hv') as [(r & d & Hk & Hid)|?]; [|by right; left].
    destruct (decide (j = i)) as [->|Hne].
    + cbn in Hr. rewrite Hren in Hr. injection Hr as <-. right; right. by eapply HX.
    + left. exists r, d. split; [|done]. rewrite (Hrel (key (path_of s' on'))), Hk. by rewrite decide_False by congruence.
  - intros k r d s' Hk Hs' Hv'. apply (released_cases _ _ _ _ _ _ Hrel) in Hk as [Hk Hne].
    destruct (ti_coming _ _ _ _ HT k r d s' Hk Hs' Hv') as [(x & Hx' & Hsx)|?]; [|by right]. left.
    apply elem_of_cons in Hx' as [->|Hx']; [by destruct (says_fun _ _ _ _ _ Hs Hsx)|]. exists x. split; [|done]. apply elem_of_app. by right.
  - intros j s' Hj Hv'. apply elem_of_app in Hj as [Hj|Hj].
    { right; left. apply (ti_wait _ _ _ _ HT). by apply HpW. }
    destruct (ti_ahead _ _ _ _ HT j s') as [(x & Hx' & Hsx)|?]; [by rewrite Ha|done| |by right].
    apply elem_of_cons in Hx' as [->|Hx']; [right; left; by eapply (ti_order _ _ _ _ HT [] (m, w) L)|].
    left. exists x. split; [|done]. apply elem_of_app. by right.
  - intros L1 x L2 j s' HL' Hsx Hj. apply app_eq_inv in HL' as [(L3 & EW & E1)|(L3 & -> & E1)].
    + destruct L3 as [|y L3].
      * rewrite app_nil_l in E1. eapply (ti_order _ _ _ _ HT [(m, w)]); [by rewrite <-E1|done|done].
      * injection E1 as <- ->. exfalso. assert (Hin : x ∈ W) by (rewrite EW; apply elem_of_app; right; by apply elem_of_cons; left).
        destruct (HW x Hin) as (k & r & d & Hk & _ & Hin'). destruct (ho_ops _ _ _ _ (ti_held _ _ _ _ HT _ _ _ Hk) _ Hin') as (Hp & _ & _).
        destruct Hsx as (v' & on' & Hsx). by destruct (x.1).
    + eapply (ti_order _ _ _ _ HT ((m, w) :: L3)); [by rewrite E1|done|done].
  - intros r d Hk Ho. apply (released_cases _ _ _ _ _ _ Hrel) in Hk as [Hk Hne].
    destruct (ti_both _ _ _ _ HT r d Hk Ho) as (r' & d' & Hk' & Hid & Hsd). exists r', d'. split; [|done].
    rewrite (Hrel (key (r_old_path r))), Hk'. by rewrite decide_False by congruence.
  - intros j on' s' Hj Hr Hs'. cbn in Hj, Hr. rewrite fmap_app, elem_of_app in Hj. destruct Hj as [Hj|Hj].
    + destruct (ti_ended _ _ _ _ HT j on' s' Hj Hr Hs') as [Hv' Hno]. split; [done|]. intros r d Hk.
      apply (released_cases _ _ _ _ _ _ Hrel) in Hk as [Hk _]. by eapply Hno.
    + destruct (HX' _ _ Hj) as (-> & r & d & Hk & Hid). rewrite Hren in Hr. injection Hr as <-. split.
      * pose proof (ti_held _ _ _ _ HT _ _ _ Hk) as Hh. rewrite <-Hid. apply (ho_voted _ _ _ _ Hh).
        pose proof (ho_ren _ _ _ _ Hh) as Hr. rewrite Hid, Hren in Hr. by injection Hr as ->.
      * intros r' d' Hk'. by apply (released_cases _ _ _ _ _ _ Hrel) in Hk' as [_ ?].
Qed.
End Thread.
