(* ===== verification/ZooThread.v ===== *)
(** * What a thread does to the renames

    Every call of [apply_mutation] keeps what [ZooRename] says of a thread ([apply_item],
    [vote_item]): a request for a rename holds its files and speaks for them, other requests to a
    held file wait, and what the sides say ends the rename when both have spoken. *)

From stdpp Require Import base gmap list strings.
From Stdlib Require Import ZArith Lia.
From S2P Require Import Prelude ZooFiles ZooClient ZooRename.
Open Scope Z_scope.

(** The messages that calls are to send. *)
Definition emitted_by (c : Call) : list Mutation :=
  match c with Mutated _ _ m0 m1 => option_list m0 ++ option_list m1 | Observed _ _ => [] end.
Definition emitted (cs : list Call) : list Mutation := cs ≫= emitted_by.

Lemma emitted_app cs cs' : emitted (cs ++ cs') = emitted cs ++ emitted cs'.
Proof. apply bind_app. Qed.

(** ** How a rename ends at a file *)

Section Verdicts.
Context `{HB : Build}.

Definition cast_of (fs : FileSystem) (m : Mutation) (which : WhichPath) : outcome (FileSystem * Next * Next) :=
  match m with
  | RenameOldExists _ i _ o n d => cast_old_exists fs i o n d which
  | RenameNewEmpty _ i o n => cast_new_empty fs i o n which
  | RenameNack _ i o n due_to_old => cast_nack fs i o n which due_to_old
  | _ => Panic
  end.

(** How the rename is decided at a file: with the data that moves, or not at all. *)
Definition decided_old (fs : FileSystem) (i : Id) (o : PathBuf) (nx : Next) : list (Id * Side * Vote) :=
  match nx with
  | Nothing => []
  | NextAbort _ => [(i, SOld, None)]
  | Finish => match files fs !! key o with Some node => [(i, SOld, Some (data node))] | None => [] end
  end.
Definition decided_new (fs : FileSystem) (i : Id) (n : PathBuf) (nx : Next) : list (Id * Side * Vote) :=
  match nx with
  | Nothing => []
  | NextAbort _ => [(i, SNew, None)]
  | Finish => match files fs !! key n ≫= pending_rename with Some r => [(i, SNew, Some (r_data r))] | None => [] end
  end.

(** What happened to the files when it ended, from the files before and after: the data of a file
    that is gone; the data of a file that has other data. *)
Definition gone_with (fs fs' : FileSystem) (path : PathBuf) : Vote :=
  match files fs !! key path, files fs' !! key path with Some node, None => Some (data node) | _, _ => None end.
Definition changed_to (fs fs' : FileSystem) (path : PathBuf) : Vote :=
  match files fs' !! key path with
  | Some node => if bool_decide (data <$> files fs !! key path = Some (data node)) then None else Some (data node)
  | None => None
  end.

(** The old file is gone, with its data, or is left; a node that only stood for a file that does not
    exist does not count. *)
Definition ended_old (fs fs' : FileSystem) (i : Id) (o : PathBuf) (nx : Next) : list (Id * Side * Vote) :=
  match nx with
  | Nothing => []
  | NextAbort r => [(i, SOld, if bool_decide (old_exists r = Abort_) then None else gone_with fs fs' o)]
  | Finish => [(i, SOld, gone_with fs fs' o)]
  end.

(** The new file is there, not held any more, with its data; or nothing was changed. *)
Definition ended_new (fs fs' : FileSystem) (i : Id) (n : PathBuf) (nx : Next) : list (Id * Side * Vote) :=
  match nx with
  | Nothing => []
  | NextAbort _ => [(i, SNew, changed_to fs fs' n)]
  | Finish => [(i, SNew, match files fs' !! key n with
                         | Some node => match pending_rename node with None => Some (data node) | Some _ => None end
                         | None => None
                         end)]
  end.

(** What a message about a rename does to its files, before what waited for them is handled. *)
Definition verdicts_of (fs : FileSystem) (m : Mutation) (which : WhichPath) : list (Id * Side * Vote) :=
  match vote_of m, cast_of fs m which with
  | Some (i, _, _, (o, n)), Done (fs1, old_next, new_next) =>
      match settle_both fs1 old_next new_next o n with
      | Done (fs2, _, _) => ended_old fs1 fs2 i o old_next ++ ended_new fs1 fs2 i n new_next
      | Panic => []
      end
  | _, _ => []
  end.
End Verdicts.

Lemma ghost_trans G1 G2 G3 : extends G1 G2 -> extends G2 G3 -> extends G1 G3.
Proof. intros [] []. constructor; eauto. set_solver. Qed.

(** *** What an end does to the files *)

Section Effects.
Context `{HB : Build}.

Lemma finish_remove_gone fs o fs' ops : finish_rename_remove fs o = Done (fs', ops) -> files fs' !! key o = None.
Proof. unfold finish_rename_remove. intros E. binds. simplify_eq. apply lookup_delete_eq. Qed.

(** The new file has the data that was sent, and is no longer held; a file that is not there stays away. *)
Lemma finish_create_data fs n fs' ops r : finish_rename_create fs n = Done (fs', ops) -> files fs !! key n ≫= pending_rename = Some r ->
  (exists node, files fs' !! key n = Some node /\ data node = r_data r /\ pending_rename node = None) /\
  forall k, files fs !! k = None -> files fs' !! k = None.
Proof.
  unfold finish_rename_create. intros E Hr. apply bind_done in E as (node & En%unwrap_done & E). rewrite En in Hr. cbn in Hr.
  apply bind_done in E as (r' & Er%unwrap_done & E). rewrite Hr in Er. injection Er as <-. apply bind_done in E as (pk & _ & E).
  apply bind_done in E as (par & Ep%unwrap_done & E). injection E as <- _. cbn in Ep |- *. split.
  - destruct (decide (pk = key n)) as [->|Hne].
    + rewrite lookup_insert_eq in Ep. injection Ep as <-. rewrite lookup_insert_eq. by eexists.
    + rewrite lookup_insert_ne, lookup_insert_eq by done. by eexists.
  - intros k Hk. rewrite !lookup_insert_ne; [done|congruence|]. intros ->. destruct (decide (k = key n)) as [->|Hne]; [congruence|].
    rewrite lookup_insert_ne in Ep by done. congruence.
Qed.

(** Settling at the old file leaves what the new one has. *)
Lemma settle_old_keeps fs nx o fs' f k node r : settle fs nx (fun fs => finish_rename_remove fs o) = Done (fs', f) ->
  files fs' !! k = Some node -> pending_rename node = Some r -> files fs !! k ≫= pending_rename = Some r.
Proof.
  unfold settle. intros E Hk Hr. destruct nx as [|p|].
  - apply bind_done in E as ([fs1 ops] & E & [= <- _]). unfold finish_rename_remove, unlink in E. binds. simplify_eq. cbn in Hk.
    apply lookup_delete_Some in Hk as [Hne Hk]. match goal with H : files fs !! ?pk = Some ?par |- _ => destruct (decide (pk = k)) as [<-|Hne'] end.
    + rewrite lookup_insert_eq in Hk. injection Hk as <-. by simplify_option_eq.
    + rewrite lookup_insert_ne in Hk by done. by rewrite Hk.
  - destruct (abort fs p) as [fs1 ops] eqn:Ea. injection E as <- _. unfold abort in Ea. injection Ea as <- _.
    repeat case_bool_decide; cbn in Hk; rewrite ?lookup_delete_Some in Hk; destruct_and?; by simplify_option_eq.
  - injection E as <- _. by rewrite Hk.
Qed.

(** A rename that goes through removes the old file, and the new one has the data that was sent. *)
Lemma finished_old fs1 nxn o n fs2 f1 f2 : settle_both fs1 Finish nxn o n = Done (fs2, f1, f2) -> files fs2 !! key o = None.
Proof.
  unfold settle_both. intros Es. apply bind_done in Es as ([fsa fa] & Ea & Es). apply bind_done in Es as ([fsb fb] & Eb & [= <- _ _]). cbn in Ea.
  apply bind_done in Ea as ([fs3 ops] & Ea & [= -> _]). pose proof (finish_remove_gone _ _ _ _ Ea) as Hgone. destruct nxn as [|p|]; cbn in Eb.
  - apply bind_done in Eb as ([fs4 ops4] & Eb & [= -> _]). assert (exists r, files fsa !! key n ≫= pending_rename = Some r) as [r Hr].
    { unfold finish_rename_create in Eb. apply bind_done in Eb as (node & En%unwrap_done & Eb). apply bind_done in Eb as (r & Er%unwrap_done & _). exists r. by rewrite En. }
    by apply (finish_create_data _ _ _ _ _ Eb Hr).
  - injection Eb as <- _. repeat case_bool_decide; cbn; rewrite ?lookup_delete_None; auto.
  - by injection Eb as <- _.
Qed.

Lemma finished_new fs1 nxo o n fs2 f1 f2 r : settle_both fs1 nxo Finish o n = Done (fs2, f1, f2) -> files fs1 !! key n ≫= pending_rename = Some r ->
  exists node, files fs2 !! key n = Some node /\ data node = r_data r /\ pending_rename node = None.
Proof.
  unfold settle_both. intros Es Hr. apply bind_done in Es as ([fsa fa] & Ea & Es). apply bind_done in Es as ([fsb fb] & Eb & [= <- _ _]).
  cbn in Eb. apply bind_done in Eb as ([fs4 ops4] & Eb & [= -> _]). pose proof Eb as Eb'. unfold finish_rename_create in Eb'.
  apply bind_done in Eb' as (node & En%unwrap_done & Eb'). apply bind_done in Eb' as (r' & Er%unwrap_done & _).
  pose proof (settle_old_keeps _ _ _ _ _ _ _ _ Ea En Er) as Hr'. rewrite Hr in Hr'. injection Hr' as <-.
  apply (finish_create_data _ _ _ _ r Eb). by rewrite En.
Qed.

(** One that does not leaves every file as it is, but for nodes that stood for files. *)
Definition left_or (rs : list PendingRename) (fs fs' : FileSystem) : Prop := forall k, files fs' !! k = files fs !! k \/
  files fs' !! k = None /\ exists r, r ∈ rs /\ (k = key (r_new_path r) \/ k = key (r_old_path r) /\ old_exists r = Abort_).

Lemma delete_leaves (m : gmap Key FileNode) k0 k : base.delete k0 m !! k = m !! k \/ base.delete k0 m !! k = None /\ k = k0.
Proof. destruct (decide (k = k0)) as [->|]; [right; by rewrite lookup_delete_eq|left; by rewrite lookup_delete_ne]. Qed.

Lemma abort_leaves fs r : left_or [r] fs (abort fs r).1.
Proof.
  intros k. assert (Hin : r ∈ [r]) by (by apply list_elem_of_singleton). unfold abort. cbn [fst]. destruct (bool_decide (new_empty r <> Abort_)).
  - case_bool_decide as Ho; cbn; [|destruct (delete_leaves (files fs) (key (r_new_path r)) k) as [?|[? ->]]; eauto 8].
    destruct (delete_leaves (base.delete (key (r_new_path r)) (files fs)) (key (r_old_path r)) k) as [->|[-> ->]]; [|right; eauto 8].
    destruct (delete_leaves (files fs) (key (r_new_path r)) k) as [?|[? ->]]; eauto 8.
  - case_bool_decide as Ho; cbn; [|by left]. destruct (delete_leaves (files fs) (key (r_old_path r)) k) as [?|[? ->]]; eauto 8.
Qed.

Lemma left_trans rs rs' fs fs1 fs2 : left_or rs fs fs1 -> left_or rs' fs1 fs2 -> left_or (rs ++ rs') fs fs2.
Proof.
  intros H1 H2 k. destruct (H2 k) as [->|(Hn & r & Hr & Hk)].
  - destruct (H1 k) as [?|(Hn & r & Hr & Hk)]; [by left|right]. split; [done|]. exists r. split; [apply elem_of_app; by left|done].
  - right. split; [done|]. exists r. split; [apply elem_of_app; by right|done].
Qed.

Definition aborting (nx : Next) : list PendingRename := match nx with NextAbort r => [r] | _ => [] end.

Lemma settle_leaves fs nx fin fs' f : nx <> Finish -> settle fs nx fin = Done (fs', f) -> left_or (aborting nx) fs fs'.
Proof.
  intros Hnx E. destruct nx as [|r|]; [done| |injection E as <- _; by left]. cbn [settle aborting] in *. pose proof (abort_leaves fs r) as Hl.
  destruct (abort fs r) as [fs1 ops]. by injection E as <- _.
Qed.

Lemma left_changed rs fs fs' path : left_or rs fs fs' -> changed_to fs fs' path = None.
Proof.
  intros Hl. unfold changed_to. destruct (Hl (key path)) as [->|[-> _]]; [|done]. destruct (files fs !! key path); [|done]. by rewrite bool_decide_true.
Qed.
End Effects.

(** *** Fuel *)

Section Fuel.
Context `{HB : Build}.

Lemma fuel_request n s m w : is_part2 m = false -> apply_mutation (S n) s m w = apply_mutation 1 s m w.
Proof. intros Hp. cbn [apply_mutation]. rewrite Hp. destruct (hold _ _ _); [done|]. by destruct m. Qed.

Lemma fuel_flush n ops : forall s, Forall (fun x => is_part2 x.1 = false) (items ops) ->
  flush_with (apply_mutation (S n)) s ops = flush_with (apply_mutation 1) s ops.
Proof.
  induction ops as [|[m w|o] ops IH]; intros s Hp; [done| |by apply IH]. change (items (Mut m w :: ops)) with ((m, w) :: items ops) in Hp.
  apply Forall_cons in Hp as [Hm Hp]. cbn [flush_with]. rewrite fuel_request by done. destruct (apply_mutation 1 s m w); [|done]. by apply IH.
Qed.
End Fuel.

Section Thread.
Context `{HB : Build}.
Variable own : Key -> bool.
Variable root : PathBuf.
Hypothesis own_root : forall path, own (key path) = true -> starts_with path root = true.

Abbreviation TInv := (TInv own).
Abbreviation mine := (mine own).

(** What is known after some messages [ms] were said. *)
Record Spoke (G : Ghost) (E : list (Id * Side)) (G' : Ghost) (E' : list (Id * Side)) (ms : list Mutation) : Prop := {
  sp_extends : extends G G';
  sp_ren : ren G' = ren G;
  sp_ends : ends G' = ends G;
  sp_E : E ⊆ E';
  sp_new : forall i s, is_Some (votes G' !! (i, s)) -> is_Some (votes G !! (i, s)) \/
    (i, s) ∈ E' /\ exists on, ren G !! i = Some on /\ mine s on = true;
  sp_msgs : forall m, m ∈ ms -> exists i s v on, vote_of m = Some (i, s, v, on) /\ ren G !! i = Some on /\ votes G' !! (i, s) = Some v;
  sp_sent : forall i s, (i, s) ∈ E' -> (i, s) ∈ E \/ exists m v on, m ∈ ms /\ vote_of m = Some (i, s, v, on);
}.

Lemma spoke_nothing G E : Spoke G E G E [].
Proof. constructor; try done; auto. intros m Hm. by apply elem_of_nil in Hm. Qed.

Lemma spoke_wait m G E : Spoke G E (wait m G) E [].
Proof.
  destruct (wait_same m G) as (E1 & E2 & E3). constructor; try done; [apply wait_extends|by rewrite E2; auto| |by auto].
  intros m' Hm. by apply elem_of_nil in Hm.
Qed.

Lemma spoke_trans G1 E1 G2 E2 G3 E3 ms ms' : Spoke G1 E1 G2 E2 ms -> Spoke G2 E2 G3 E3 ms' -> Spoke G1 E1 G3 E3 (ms ++ ms').
Proof.
  intros H1 H2. constructor.
  - eapply ghost_trans; [apply H1|apply H2].
  - by rewrite (sp_ren _ _ _ _ _ H2), (sp_ren _ _ _ _ _ H1).
  - by rewrite (sp_ends _ _ _ _ _ H2), (sp_ends _ _ _ _ _ H1).
  - pose proof (sp_E _ _ _ _ _ H1). pose proof (sp_E _ _ _ _ _ H2). set_solver.
  - intros i s Hv. destruct (sp_new _ _ _ _ _ H2 i s Hv) as [Hv'|(HE & on & Hr & Hm)].
    + destruct (sp_new _ _ _ _ _ H1 i s Hv') as [?|(HE & ?)]; [by left|]. right. split; [by apply (sp_E _ _ _ _ _ H2)|done].
    + right. split; [done|]. exists on. by rewrite <-(sp_ren _ _ _ _ _ H1).
  - intros m Hm. apply elem_of_app in Hm as [Hm|Hm].
    + destruct (sp_msgs _ _ _ _ _ H1 m Hm) as (i & s & v & on & Hv & Hr & Hv'). exists i, s, v, on. split_and!; try done.
      by apply (ex_votes _ _ (sp_extends _ _ _ _ _ H2)).
    + destruct (sp_msgs _ _ _ _ _ H2 m Hm) as (i & s & v & on & Hv & Hr & Hv'). exists i, s, v, on. split_and!; try done.
      by rewrite <-(sp_ren _ _ _ _ _ H1).
  - intros i s Hi. destruct (sp_sent _ _ _ _ _ H2 i s Hi) as [Hi'|(m & v & on & Hm & Hv)].
    + destruct (sp_sent _ _ _ _ _ H1 i s Hi') as [?|(m & v & on & Hm & Hv)]; [by left|]. right. exists m, v, on. split; [|done]. apply elem_of_app. by left.
    + right. exists m, v, on. split; [|done]. apply elem_of_app. by right.
Qed.

Lemma handles fs s on w : my_root fs = root -> covers s w = mine s on ->
  match s with SOld => handle_old fs on.1 w | SNew => handle_new fs on.2 w end = mine s on.
Proof.
  intros Hr Hc. destruct (mine s on) eqn:E; destruct s; unfold handle_old, handle_new; cbn in Hc; rewrite Hc, ?andb_false_r, ?Hr; try done;
    rewrite andb_true_r; by apply own_root.
Qed.

(** *** Identifiers *)

Lemma Id_new_client ids ids' i : Id_new ids = Done (ids', i) -> CLIENT_ID ids' = CLIENT_ID ids.
Proof. unfold Id_new. intros E. apply bind_done in E as (_ & _ & E). by injection E as <- _. Qed.

Lemma part1_old_client fs ids i o n c fs' ids' m : part1_old fs ids i o n c = Done (fs', ids', m) -> CLIENT_ID ids' = CLIENT_ID ids.
Proof.
  unfold part1_old, build_nack. intros E. destruct (files fs !! key o) as [f|]; [destruct (pending_rename f); [done|]|]; binds; simplify_eq;
    by eapply Id_new_client.
Qed.

Lemma part1_new_client fs ids i o n c fs' ids' m e : part1_new fs ids i o n c = Done (fs', ids', m, e) -> CLIENT_ID ids' = CLIENT_ID ids.
Proof.
  unfold part1_new, build_nack. intros E. apply bind_done in E as ([[fs1 a] nack] & _ & E). apply bind_done in E as (fs2 & _ & E).
  destruct nack; [binds; simplify_eq; by eapply Id_new_client|]. apply bind_done in E as (pk & _ & E).
  destruct (files fs2 !! pk) as [f|]; [destruct (is_ephemeral_node f), c|]; binds; simplify_eq; try done; by eapply Id_new_client.
Qed.

Lemma part1_client fs ids i o n w c fs' ids' res m0 m1 : rename_part1 fs ids i o n w c = Done (fs', ids', res, m0, m1) -> CLIENT_ID ids' = CLIENT_ID ids.
Proof.
  unfold rename_part1. intros E. apply bind_done in E as ([[fs1 ids1] msg0] & E1 & E). apply bind_done in E as ([[[fs2 ids2] msg1] e] & E2 & E).
  injection E as _ <- _ _ _. transitivity (CLIENT_ID ids1).
  - destruct (handle_new _ _ _); [by eapply part1_new_client|by simplify_eq].
  - destruct (handle_old _ _ _); [|by simplify_eq]. apply bind_done in E1 as ([[fs3 ids3] m] & E1 & E3). simplify_eq. by eapply part1_old_client.
Qed.

(** *** A rename is asked for *)

Lemma part1_spec G E fs ids L i on w fs' ids' res m0 m1 :
  TInv G E (hview fs) ((RenamePart1 i on.1 on.2 true, w) :: L) -> my_root fs = root ->
  rename_part1 fs ids i on.1 on.2 w true = Done (fs', ids', res, m0, m1) ->
  my_root fs' = root /\ exists G' E', TInv G' E' (hview fs') L /\ Spoke G E G' E' (option_list m0 ++ option_list m1) /\ waited G' = waited G /\
    forall j s, (j, s) ∈ E' -> (j, s) ∈ E \/ j = i.
Proof.
  intros HT Hroot E1. pose proof (ti_queue _ _ _ _ _ HT) as [(_ & Hr & Hc) _]%Forall_cons. rewrite <-surjective_pairing in Hr, Hc. cbn in Hc.
  unfold rename_part1 in E1. pose proof (handles fs SOld on w Hroot (Hc SOld)) as Ho. cbn in Ho. rewrite Ho in E1.
  apply bind_done in E1 as ([[fs1 ids1] msg0] & E2 & E1).
  assert (H1 : my_root fs1 = root /\ exists vo, (mine SOld on = true -> hview fs !! key on.1 = None) /\
    hview fs1 = (if mine SOld on then <[key on.1 := (PendingRename_new i on.1 on.2 true, default [] vo)]> (hview fs) else hview fs) /\
    forall m, m ∈ option_list msg0 <-> mine SOld on = true /\ msg0 = Some m /\ vote_of m = Some (i, SOld, vo, on)).
  { destruct (mine SOld on) eqn:Em.
    - apply bind_done in E2 as ([[fs2 ids2] m] & E3 & E2). injection E2 as -> -> <-.
      destruct (part1_old_spec _ _ _ _ _ _ _ _ E3) as (Hr1 & Hn & vo & Hv & Hh). split; [congruence|]. exists vo. split_and!; try done.
      rewrite <-surjective_pairing in Hv. intros m'. cbn. rewrite list_elem_of_singleton. split; [intros ->; by split_and!|intros (_ & [= ->] & _); done].
    - injection E2 as -> -> <-. split; [done|]. exists None. split_and!; try done. cbn. intros m. split; [by intros ?%elem_of_nil|by intros (? & _)]. }
  destruct H1 as (Hr1 & vo & Hfree & Hh1 & Hm0).
  pose proof (handles fs1 SNew on w Hr1 (Hc SNew)) as Hn. cbn in Hn. rewrite Hn in E1.
  apply bind_done in E1 as ([[[fs2 ids2] msg1] refused] & E3 & E1).
  assert (H2 : my_root fs2 = root /\ exists vn dn, (mine SNew on = true -> hview fs1 !! key on.2 = None) /\
    hview fs2 = (if mine SNew on then <[key on.2 := (PendingRename_new i on.1 on.2 true, dn)]> (hview fs1) else hview fs1) /\
    forall m, m ∈ option_list msg1 <-> mine SNew on = true /\ msg1 = Some m /\ vote_of m = Some (i, SNew, vn, on)).
  { destruct (mine SNew on) eqn:Em.
    - destruct (part1_new_spec _ _ _ _ _ _ _ _ _ E3) as (Hr2 & Hf & vn & dn & msg & -> & Hv & _ & Hh). split; [congruence|]. exists vn, dn.
      split_and!; try done. rewrite <-surjective_pairing in Hv. intros m'. cbn. rewrite list_elem_of_singleton.
      split; [intros ->; by split_and!|intros (_ & [= ->] & _); done].
    - injection E3 as -> -> <- <-. split; [done|]. exists None, []. split_and!; try done. cbn. intros m. split; [by intros ?%elem_of_nil|by intros (? & _)]. }
  destruct H2 as (Hr2 & vn & dn & Hfree2 & Hh2 & Hm1). injection E1 as <- _ _ <- <-. split; [done|].
  assert (Hne : key on.1 <> key on.2).
  { intros Heq. assert (mine SOld on = mine SNew on) as Hsame by (unfold ZooRename.mine, path_of; by rewrite Heq).
    assert (mine SOld on = true) as Hm by (destruct w; [by rewrite <-(Hc SOld)|rewrite Hsame; by rewrite <-(Hc SNew)|by rewrite <-(Hc SOld)]).
    rewrite Hm in Hh1, Hsame. rewrite Hh1, <-Heq, lookup_insert_eq in Hfree2. by specialize (Hfree2 (eq_sym Hsame)). }
  set (vs := fun s => match s with SOld => vo | SNew => vn end). set (ds := fun s => match s with SOld => default [] vo | SNew => dn end).
  exists (add_votes own i on vs G), (E ++ ((fun s => (i, s)) <$> sides own on)).
  assert (Hview : hview fs2 = hold_view own i on ds (hview fs)).
  { rewrite Hh2, Hh1. unfold hold_view, sides. cbn [List.filter]. destruct (mine SOld on), (mine SNew on); cbn [foldr path_of]; try done.
    by rewrite insert_insert_ne by done. }
  split; [rewrite Hview; apply (part1_item _ _ _ _ _ _ _ w); try done|].
  - intros [] Hm; [by apply Hfree|]. cbn. pose proof (Hfree2 Hm) as Hf. rewrite Hh1 in Hf.
    destruct (mine SOld on); [by rewrite lookup_insert_ne in Hf by done|done].
  - intros d Hd. cbn in Hd. cbn. by rewrite Hd.
  - split; [|split; [done|]].
    + constructor; try done.
      * constructor; try done. intros [j s] v Hv. rewrite add_votes_lookup. case_decide as Hcase; [|done]. destruct Hcase as [-> Hs].
        rewrite (ti_fresh _ _ _ _ _ HT i on s) in Hv; [done| |done|done]. left. apply elem_of_asked. exists on.1, on.2, true, w. by apply elem_of_cons; left.
      * set_solver.
      * intros j s Hv. rewrite add_votes_lookup in Hv. case_decide as Hcase; [|by left]. destruct Hcase as [-> Hs]. right. split; [|by exists on].
        apply elem_of_app. right. apply list_elem_of_fmap. exists s. split; [done|]. by apply elem_of_sides.
      * intros m Hm. apply elem_of_app in Hm as [Hm|Hm].
        -- apply Hm0 in Hm as (Hs & _ & Hv). exists i, SOld, vo, on. split_and!; try done. rewrite add_votes_lookup, decide_True; done.
        -- apply Hm1 in Hm as (Hs & _ & Hv). exists i, SNew, vn, on. split_and!; try done. rewrite add_votes_lookup, decide_True; done.
      * intros j s Hj. apply elem_of_app in Hj as [Hj|Hj]; [by left|]. right. apply list_elem_of_fmap in Hj as (s' & [= -> ->] & Hs).
        apply elem_of_sides in Hs. destruct s'.
        -- rewrite Hs in E2. apply bind_done in E2 as ([[fs3 ids3] m] & _ & E2). injection E2 as _ _ <-.
           exists m, vo, on. split; [apply elem_of_app; left; by apply list_elem_of_singleton|]. apply Hm0. by apply list_elem_of_singleton.
        -- rewrite Hs in E3. destruct (part1_new_spec _ _ _ _ _ _ _ _ _ E3) as (_ & _ & _ & _ & msg & -> & _).
           exists msg, vn, on. split; [apply elem_of_app; right; by apply list_elem_of_singleton|]. apply Hm1. by apply list_elem_of_singleton.
    + intros j s Hj. apply elem_of_app in Hj as [Hj|Hj]; [by left|]. right. by apply list_elem_of_fmap in Hj as (s' & [= -> _] & _).
Qed.

(** *** A request *)

Definition held_up (fs : FileSystem) (m : Mutation) (w : WhichPath) : bool :=
  match hold fs (mut_path m) (Mut m w) with Some _ => true | None => false end.

Lemma apply_item fuel G E fs ids cs L m w s' : TInv G E (hview fs) ((m, w) :: L) -> my_root fs = root -> is_part2 m = false ->
  apply_mutation (S fuel) (mkSt fs ids cs) m w = Done s' ->
  my_root (fs_of s') = root /\ CLIENT_ID (ids_of s') = CLIENT_ID ids /\
  exists G' E' new, calls s' = cs ++ new /\ TInv G' E' (hview (fs_of s')) L /\ Spoke G E G' E' (emitted new) /\
    waited G' = (if held_up fs m w then waited (wait m G) else waited G) /\
    forall j s, (j, s) ∈ E' -> (j, s) ∈ E \/ asks_rename m = Some j.
Proof.
  intros HT Hroot Hp E1. cbn [apply_mutation fs_of ids_of calls] in E1. rewrite Hp in E1. unfold held_up.
  destruct (hold fs (mut_path m) (Mut m w)) as [fs1|] eqn:Eh.
  { injection E1 as <-. apply hold_some in Eh as (Hr & r & d & Hk & Hv). split; [cbn; congruence|]. split; [done|].
    exists (wait m G), E, []. cbn. rewrite app_nil_r. split; [done|]. rewrite Hv. split; [by apply park_item|]. split; [apply spoke_wait|]. auto. }
  apply hold_none in Eh.
  assert (Hq : forall fs1 c, asks_rename m = None -> emitted_by c = [] -> hview fs1 = hview fs -> my_root fs1 = my_root fs ->
    s' = call (mkSt fs ids cs) fs1 c -> my_root (fs_of s') = root /\ CLIENT_ID (ids_of s') = CLIENT_ID ids /\
    exists G' E' new, calls s' = cs ++ new /\ TInv G' E' (hview (fs_of s')) L /\ Spoke G E G' E' (emitted new) /\ waited G' = waited G /\
      forall j s, (j, s) ∈ E' -> (j, s) ∈ E \/ asks_rename m = Some j).
  { intros fs1 c Ha Hc Hv Hr ->. cbn. split; [congruence|]. split; [done|]. exists G, E, [c]. split; [done|]. rewrite Hv.
    split; [|split; [by unfold emitted; cbn; rewrite Hc; apply spoke_nothing|auto]].
    eapply drop_item; [done|done|]. intros k r d s _ _ (v & on & Hs). by destruct m. }
  destruct m as [i mode path d|i path v|i path d v|i o n c|i j mode o n d|i j o n|i j o n b]; try done; cbn [fs_of ids_of calls mut_path] in E1, Eh.
  - apply bind_done in E1 as ([fs1 res] & Ec & E1). apply bind_done in E1 as (_ & _ & E1). destruct (create_quiet _ _ _ _ _ _ Ec).
    injection E1 as E1. by refine (Hq fs1 _ eq_refl _ _ _ (eq_sym E1)).
  - apply bind_done in E1 as ([fs1 res] & Ec & E1). destruct (delete_quiet _ _ _ _ _ Eh Ec). injection E1 as E1. by refine (Hq fs1 _ eq_refl _ _ _ (eq_sym E1)).
  - apply bind_done in E1 as ([fs1 res] & Ec & E1). destruct (set_quiet _ _ _ _ _ _ Eh Ec). injection E1 as E1. by refine (Hq fs1 _ eq_refl _ _ _ (eq_sym E1)).
  - pose proof (ti_queue _ _ _ _ _ HT) as [(-> & _) _]%Forall_cons.
    apply bind_done in E1 as ([[[[fs1 ids1] res] m0] m1] & Ec & E1). injection E1 as <-. cbn.
    destruct (part1_spec G E fs ids L i (o, n) w _ _ _ _ _ HT Hroot Ec) as (Hr & G' & E' & HT' & Hsp & Hw & HE).
    split; [done|]. split; [by eapply part1_client|]. eexists G', E', _. split; [done|]. split; [done|]. split; [unfold emitted; cbn; by rewrite app_nil_r|].
    split; [done|]. intros j s Hj. destruct (HE j s Hj) as [?| ->]; auto.
Qed.

(** What waited is handled. *)
Lemma flush_items fuel ops : forall G E fs ids cs L s', TInv G E (hview fs) (items ops ++ L) -> my_root fs = root ->
  Forall (fun x => is_part2 x.1 = false) (items ops) -> (forall i, i ∈ asked (items ops) -> i ∈ waited G) ->
  flush_with (apply_mutation (S fuel)) (mkSt fs ids cs) ops = Done s' ->
  my_root (fs_of s') = root /\ CLIENT_ID (ids_of s') = CLIENT_ID ids /\
  exists G' E' new, calls s' = cs ++ new /\ TInv G' E' (hview (fs_of s')) L /\ Spoke G E G' E' (emitted new) /\ waited G' = waited G /\
    forall j s, (j, s) ∈ E' -> (j, s) ∈ E \/ j ∈ waited G.
Proof.
  induction ops as [|[m w|o] ops IH]; intros G E fs ids cs L s' HT Hroot Hp Hw E1; cbn [flush_with] in E1.
  - injection E1 as <-. cbn. split; [done|]. split; [done|]. exists G, E, []. rewrite app_nil_r. split; [done|]. split; [done|].
    split; [apply spoke_nothing|auto].
  - apply bind_done in E1 as ([fs1 ids1 cs1] & E2 & E1). change (items (Mut m w :: ops)) with ((m, w) :: items ops) in *.
    apply Forall_cons in Hp as [Hp1 Hp]. destruct (apply_item _ _ _ _ _ _ _ _ _ _ HT Hroot Hp1 E2) as (Hr & Hi & G1 & E1' & new & Ecs & HT1 & Hsp & Hw1 & HE1).
    cbn in Hr, Hi, Ecs, HT1. subst cs1.
    assert (Hww : waited G1 = waited G).
    { rewrite Hw1. destruct (held_up fs m w); [|done]. unfold wait. destruct (asks_rename m) as [i|] eqn:Ei; [|done]. cbn.
      assert (i ∈ waited G); [|set_solver]. apply Hw. rewrite asked_cons, Ei. by apply elem_of_cons; left. }
    destruct (IH G1 E1' fs1 ids1 (cs ++ new) L s' HT1 Hr Hp) as (Hr2 & Hi2 & G2 & E2' & new2 & Ecs2 & HT2 & Hsp2 & Hw2 & HE2);
      [intros i Hi'; rewrite Hww; apply Hw; by apply asked_tail|exact E1|].
    split; [done|]. split; [congruence|]. exists G2, E2', (new ++ new2). split; [by rewrite Ecs2, app_assoc|]. split; [done|].
    split; [rewrite emitted_app; by eapply spoke_trans|]. split; [congruence|]. intros j s Hj. destruct (HE2 j s Hj) as [Hj'|Hj']; [|right; congruence].
    destruct (HE1 j s Hj') as [?|Ha]; [by left|]. right. apply Hw. rewrite asked_cons, Ha. by apply elem_of_cons; left.
  - destruct (IH G E fs ids (cs ++ [handle_observation fs o]) L s' HT Hroot Hp Hw E1) as (Hr & Hi & G' & E' & new & Ecs & HT' & Hsp & Hrest).
    split; [done|]. split; [done|]. exists G', E', (handle_observation fs o :: new). split; [by rewrite Ecs, <-app_assoc|]. split; [done|]. split; [done|done].
Qed.

(** *** A side has spoken *)

Lemma state_said r r' : r_check_new r = true -> r_check_new r' = true -> (forall s, said s r = said s r') -> state r = state r'.
Proof. intros H1 H2 Hs. unfold state. pose proof (Hs SOld) as Ho. pose proof (Hs SNew) as Hn. cbn in Ho, Hn. by rewrite Ho, Hn, H1, H2. Qed.

(** The note that is made at each of the two files. *)
Record NoteOk (s : Side) (v : Vote) (on : PathBuf * PathBuf) (x : Side) (note : PendingRename -> PendingRename) : Prop := {
  nt_id : forall r, r_id (note r) = r_id r;
  nt_noted : forall r, r_paths r = on -> key on.1 <> key on.2 -> noted s v (key (path_of x on)) r (note r);
}.

Lemma note_ok_old d on : NoteOk SOld (Some d) on SOld (with_old_exists Ok).
Proof. split; [done|]. intros r <- Hne. constructor; try done. by intros []. Qed.
Lemma note_ok_moved d on : NoteOk SOld (Some d) on SNew (fun r => with_old_exists Ok (with_r_data d r)).
Proof. split; [done|]. intros r <- Hne. constructor; try done; [by intros []|]. by intros d' _ _ [= ->]. Qed.
Lemma note_ok_empty on x : NoteOk SNew (Some []) on x (with_new_empty Ok).
Proof. split; [done|]. intros r <- Hne. constructor; try done. by intros []. Qed.
Lemma note_ok_nack b on x : NoteOk (if b : bool then SOld else SNew) None on x (nack_note b).
Proof. destruct b; (split; [done|]); intros r <- Hne; constructor; try done; by intros []. Qed.

Lemma cast_cases fs m w i s v on fs1 nxo nxn : vote_of m = Some (i, s, v, on) -> (forall s, covers s w = mine s on) -> my_root fs = root ->
  cast_of fs m w = Done (fs1, nxo, nxn) ->
  (mine SOld on = true /\ hview fs !! key on.1 = None /\ fs1 = fs /\ nxo = Nothing /\ nxn = Nothing) \/
  exists fs0 no nn b, NoteOk s v on SOld no /\ NoteOk s v on SNew nn /\
    (if mine SOld on then cast fs i on.1 no b = Done (fs0, nxo) else fs0 = fs /\ nxo = Nothing) /\
    (if mine SNew on then cast fs0 i on.2 nn b = Done (fs1, nxn) else fs1 = fs0 /\ nxn = Nothing).
Proof.
  intros Hm Hc Hr E.
  assert (Hold : handle_old fs on.1 w = mine SOld on) by exact (handles fs SOld on w Hr (Hc SOld)).
  assert (Hnew : forall fs0, my_root fs0 = root -> handle_new fs0 on.2 w = mine SNew on) by (intros fs0 Hr0; exact (handles fs0 SNew on w Hr0 (Hc SNew))).
  assert (Hgo : forall no nn b, NoteOk s v on SOld no -> NoteOk s v on SNew nn ->
    ('(fs, old_next) ← (if handle_old fs on.1 w then cast fs i on.1 no b else Done (fs, Nothing));
     '(fs, new_next) ← (if handle_new fs on.2 w then cast fs i on.2 nn b else Done (fs, Nothing));
     Done (fs, old_next, new_next)) = Done (fs1, nxo, nxn) ->
    exists fs0 no nn b, NoteOk s v on SOld no /\ NoteOk s v on SNew nn /\
      (if mine SOld on then cast fs i on.1 no b = Done (fs0, nxo) else fs0 = fs /\ nxo = Nothing) /\
      (if mine SNew on then cast fs0 i on.2 nn b = Done (fs1, nxn) else fs1 = fs0 /\ nxn = Nothing)).
  { intros no nn b Ho Hn E1. apply bind_done in E1 as ([fs0 nxo'] & E1 & E2). apply bind_done in E2 as ([fs2 nxn'] & E2 & E3). injection E3 as -> -> ->.
    rewrite Hold in E1. assert (Hr0 : my_root fs0 = root).
    { destruct (mine SOld on); [apply cast_spec in E1 as [-> _]; [done|apply Ho]|by injection E1 as <- _]. }
    rewrite (Hnew fs0 Hr0) in E2. exists fs0, no, nn, b. split; [done|]. split; [done|].
    destruct (mine SOld on), (mine SNew on); split; try done; simplify_eq; done. }
  destruct m as [| | | |i' j mode o n d|i' j o n|i' j o n b]; try done; cbn in Hm; injection Hm as <- <- <- <-; cbn [cast_of fst snd] in *.
  - right. eapply Hgo; [apply note_ok_old|apply note_ok_moved|exact E].
  - unfold cast_new_empty in E. cbv zeta in E. destruct (handle_old fs o w) eqn:Eh.
    + apply bind_done in E as (file & Ef%unwrap_done & E). destruct (pending_rename file) eqn:Ep.
      * right. eapply Hgo; [apply (note_ok_empty (o, n))|apply (note_ok_empty (o, n))|exact E].
      * left. injection E as <- <- <-. rewrite <-Hold. cbn. split; [done|]. split; [|done]. rewrite hview_lookup, Ef. cbn. unfold held_node. by rewrite Ep.
    + right. eapply Hgo; [apply (note_ok_empty (o, n))|apply (note_ok_empty (o, n))|exact E].
  - right. eapply Hgo; [apply (note_ok_nack b (o, n))|apply (note_ok_nack b (o, n))|exact E].
Qed.

Definition next_of (st : CommitState) (r : PendingRename) : Next := match st with Ok => Finish | Abort_ => NextAbort r | Pending => Nothing end.

(** What [cast] does at side [x]. *)
Definition SideCast (H H1 : HView) (i : Id) (on : PathBuf * PathBuf) (x : Side) (note : PendingRename -> PendingRename) (st : CommitState) (nx : Next) : Prop :=
  if mine x on then exists r d, H !! key (path_of x on) = Some (r, d) /\ r_id r = i /\ state (note r) = Done st /\ nx = next_of st (note r) /\
    H1 !! key (path_of x on) = (if decide (st = Abort_) then None else Some (note r, d))
  else nx = Nothing.

Lemma cast_side fs i on x note b fs1 nx : (forall r, r_id (note r) = r_id r) ->
  cast fs i (path_of x on) note b = Done (fs1, nx) ->
  my_root fs1 = my_root fs /\ (forall k, k <> key (path_of x on) -> hview fs1 !! k = hview fs !! k) /\
  exists st r d, hview fs !! key (path_of x on) = Some (r, d) /\ r_id r = i /\ state (note r) = Done st /\ nx = next_of st (note r) /\
    hview fs1 !! key (path_of x on) = (if decide (st = Abort_) then None else Some (note r, d)).
Proof.
  intros Hid E. destruct (cast_spec _ _ _ _ _ _ _ Hid E) as (Hr & r & d & Hk & Hi & Hc). split; [done|].
  destruct Hc as [(Hs & -> & ->)|[(Hs & -> & ->)|(Hs & -> & ->)]];
    (split; [intros k Hne; by rewrite ?lookup_insert_ne, ?lookup_delete_ne by done|]); eexists _, r, d; (split; [done|]); (split; [done|]); (split; [done|]);
    (split; [done|]); cbn; by rewrite ?lookup_insert_eq, ?lookup_delete_eq.
Qed.

(** The facts about a file of rename [i]. *)
Lemma held_facts G E H L m w i s v on k r d : TInv G E H ((m, w) :: L) -> vote_of m = Some (i, s, v, on) -> H !! k = Some (r, d) -> r_id r = i ->
  HeldOk own G k r d /\ r_paths r = on /\ key on.1 <> key on.2 /\ exists x, mine x on = true /\ k = key (path_of x on).
Proof.
  intros HT Hm Hk Hi. pose proof (ti_held _ _ _ _ _ HT _ _ _ Hk) as Hh. split; [done|].
  pose proof (ti_queue _ _ _ _ _ HT) as [Hok _]%Forall_cons.
  assert (Hren : ren G !! i = Some on) by (unfold item_ok in Hok; cbn in Hok; destruct m; try done; cbn in Hm; simplify_eq; apply Hok).
  pose proof (ho_ren _ _ _ _ _ Hh) as Hr. rewrite Hi, Hren in Hr. injection Hr as ->. split; [done|]. split; [apply Hh|].
  destruct (ho_side _ _ _ _ _ Hh) as [x Hx]. exists x. split; [|done]. unfold ZooRename.mine. rewrite <-Hx. apply Hh.
Qed.

Lemma item_covers G E H L m w i s v on : TInv G E H ((m, w) :: L) -> vote_of m = Some (i, s, v, on) ->
  ren G !! i = Some on /\ votes G !! (i, s) = Some v /\ forall s, covers s w = mine s on.
Proof.
  intros HT Hm. pose proof (ti_queue _ _ _ _ _ HT) as [Hok _]%Forall_cons.
  unfold item_ok in Hok; cbn in Hok; destruct m; try done; cbn in Hm; simplify_eq; apply Hok.
Qed.

Lemma cast_outcome G E fs L m w i s v on fs1 nxo nxn : TInv G E (hview fs) ((m, w) :: L) -> my_root fs = root -> vote_of m = Some (i, s, v, on) ->
  cast_of fs m w = Done (fs1, nxo, nxn) ->
  (mine SOld on = true /\ hview fs !! key on.1 = None /\ fs1 = fs /\ nxo = Nothing /\ nxn = Nothing) \/
  my_root fs1 = root /\ key on.1 <> key on.2 /\ exists st no nn, NoteOk s v on SOld no /\ NoteOk s v on SNew nn /\
    SideCast (hview fs) (hview fs1) i on SOld no st nxo /\ SideCast (hview fs) (hview fs1) i on SNew nn st nxn /\
    forall k, (forall x, mine x on = true -> k <> key (path_of x on)) -> hview fs1 !! k = hview fs !! k.
Proof.
  intros HT Hr Hm E1. destruct (item_covers _ _ _ _ _ _ _ _ _ _ HT Hm) as (Hren & Hv & Hc).
  destruct (cast_cases _ _ _ _ _ _ _ _ _ _ Hm Hc Hr E1) as [?|(fs0 & no & nn & b & Hno & Hnn & Eo & En)]; [by left|]. right.
  assert (Hsome : mine SOld on = true \/ mine SNew on = true).
  { destruct w; [left; by rewrite <-(Hc SOld)|right; by rewrite <-(Hc SNew)|left; by rewrite <-(Hc SOld)]. }
  unfold SideCast. destruct (mine SOld on) eqn:Mo.
  - destruct (cast_side fs i on SOld no b fs0 nxo (nt_id _ _ _ _ _ Hno) Eo) as (Hr0 & Hf0 & st & ro & d_o & Ho & Hio & Hso & Hxo & Ho1).
    destruct (held_facts _ _ _ _ _ _ _ _ _ _ _ _ _ HT Hm Ho Hio) as (Hho & Hpo & Hne & _).
    destruct (mine SNew on) eqn:Mn.
    + destruct (cast_side fs0 i on SNew nn b fs1 nxn (nt_id _ _ _ _ _ Hnn) En) as (Hr1 & Hf1 & st' & rn & dn & Hn & Hin & Hsn & Hxn & Hn1).
      rewrite Hf0 in Hn by (cbn; congruence). destruct (held_facts _ _ _ _ _ _ _ _ _ _ _ _ _ HT Hm Hn Hin) as (Hhn & Hpn & _ & _).
      assert (Hsame : forall s, said s ro = said s rn).
      { pose proof Hpn as Hpn'. destruct on as [o n]. injection Hpn' as Hpn1 Hpn2. cbn in Hn, Ho.
        destruct (ti_both _ _ _ _ _ HT rn dn) as (r' & d' & Hk' & Hi' & Hs'); [by rewrite Hpn2|by rewrite Hpn1|].
        rewrite Hpn1, Ho in Hk'. injection Hk' as <- <-. done. }
      pose proof (nt_noted _ _ _ _ _ Hno ro Hpo Hne) as Nto. pose proof (nt_noted _ _ _ _ _ Hnn rn Hpn Hne) as Ntn.
      assert (st' = st) as ->.
      { rewrite (state_said (nn rn) (no ro)) in Hsn; [congruence|..].
        - rewrite (no_check _ _ _ _ _ Ntn). apply Hhn.
        - rewrite (no_check _ _ _ _ _ Nto). apply Hho.
        - intros s'. destruct (decide (s' = s)) as [->|Hs']; [by rewrite (no_said _ _ _ _ _ Nto), (no_said _ _ _ _ _ Ntn)|].
          by rewrite (no_other _ _ _ _ _ Nto), (no_other _ _ _ _ _ Ntn), Hsame. }
      split; [congruence|]. split; [done|]. exists st, no, nn. split; [done|]. split; [done|]. split; [|split; [by exists rn, dn|]].
      * exists ro, d_o. split_and!; try done. by rewrite Hf1 by (cbn; congruence).
      * intros k Hk. rewrite Hf1 by (by apply Hk). apply Hf0. by apply Hk.
    + destruct En as [-> ->]. split; [congruence|]. split; [done|]. exists st, no, nn. split; [done|]. split; [done|]. split; [by exists ro, d_o|]. split; [done|].
      intros k Hk. apply Hf0. by apply Hk.
  - destruct Eo as [-> ->]. destruct Hsome as [?|Mn]; [done|]. rewrite Mn in *.
    destruct (cast_side fs i on SNew nn b fs1 nxn (nt_id _ _ _ _ _ Hnn) En) as (Hr1 & Hf1 & st' & rn & dn & Hn & Hin & Hsn & Hxn & Hn1).
    destruct (held_facts _ _ _ _ _ _ _ _ _ _ _ _ _ HT Hm Hn Hin) as (Hhn & Hpn & Hne & _).
    split; [congruence|]. split; [done|]. exists st', no, nn. split; [done|]. split; [done|]. split; [done|]. split; [by exists rn, dn|].
    intros k Hk. apply Hf1. by apply Hk.
Qed.

(** Both sides have spoken: what they said, and what becomes of it. *)
Lemma decided_votes G k r r' d s v st on x : HeldOk own G k r d -> r_paths r = on -> k = key (path_of x on) -> key on.1 <> key on.2 ->
  votes G !! (r_id r, s) = Some v -> noted s v k r r' -> state r' = Done st -> st <> Pending ->
  exists vo vn, votes G !! (r_id r, SOld) = Some vo /\ votes G !! (r_id r, SNew) = Some vn /\
    verdict vo vn = (if decide (st = Abort_) then None else Some (match x with SOld => d | SNew => r_data r' end)).
Proof.
  intros Hh Hp Hk Hne Hv Hn Hst Hnp. pose proof (held_noted _ _ _ _ _ _ _ _ Hh Hn Hv) as Hh'. rewrite <-(no_id _ _ _ _ _ Hn).
  assert (Hs : forall s, said s r' <> Pending).
  { unfold state in Hst. intros [] Hs; cbn in Hs; rewrite Hs, (ho_check _ _ _ _ _ Hh') in Hst; destruct (old_exists r'), (new_empty r'); congruence. }
  destruct (ho_said _ _ _ _ _ Hh' SOld (Hs SOld)) as (vo & Hvo & Eo). destruct (ho_said _ _ _ _ _ Hh' SNew (Hs SNew)) as (vn & Hvn & En).
  exists vo, vn. split; [done|]. split; [done|]. cbn in Eo, En. unfold state in Hst. rewrite Eo, En, (ho_check _ _ _ _ _ Hh') in Hst.
  assert (Hp' : r_paths r' = on) by (rewrite (no_paths _ _ _ _ _ Hn); done).
  destruct vo as [d0|], vn as [d1|]; cbn in Hst; injection Hst as <-; cbn; try done. f_equal. destruct x; cbn.
  - symmetry. apply (ho_old_data _ _ _ _ _ Hh'); [|done]. rewrite Hk. by rewrite <-Hp'.
  - assert (Ed : votes G !! (r_id r', SOld) = Some (Some (r_data r'))); [|congruence].
    apply (ho_new_data _ _ _ _ _ Hh'); [|by rewrite Eo]. rewrite Hk. by rewrite <-Hp'.
Qed.

Lemma side_cast_noted (H H1 : HView) i on s v no nn st nxo nxn : key on.1 <> key on.2 ->
  SideCast H H1 i on SOld no st nxo -> SideCast H H1 i on SNew nn st nxn ->
  (forall k, (forall x, mine x on = true -> k <> key (path_of x on)) -> H1 !! k = H !! k) ->
  (forall k r d, H !! k = Some (r, d) -> r_id r = i -> r_paths r = on /\ exists x, mine x on = true /\ k = key (path_of x on)) ->
  NoteOk s v on SOld no -> NoteOk s v on SNew nn ->
  forall k, match H !! k with
  | None => H1 !! k = None
  | Some (r, d) => if decide (r_id r = i) then
      exists x r', mine x on = true /\ k = key (path_of x on) /\ noted s v k r r' /\ state r' = Done st /\ H1 !! k = (if decide (st = Abort_) then None else Some (r', d))
    else H1 !! k = Some (r, d)
  end.
Proof.
  intros Hne Ho Hn Hf Hfacts No Nn k.
  assert (Hside : forall x, mine x on = true -> exists note r d, NoteOk s v on x note /\ H !! key (path_of x on) = Some (r, d) /\ r_id r = i /\
    state (note r) = Done st /\ H1 !! key (path_of x on) = (if decide (st = Abort_) then None else Some (note r, d))).
  { unfold SideCast in *. intros [] Hx; rewrite Hx in *; [destruct Ho as (r & d & ? & ? & ? & _ & ?)|destruct Hn as (r & d & ? & ? & ? & _ & ?)]; by eexists _, r, d. }
  assert (Hrest : (forall x, mine x on = true -> k <> key (path_of x on)) \/ exists x, mine x on = true /\ k = key (path_of x on)).
  { destruct (mine SOld on) eqn:Mo, (mine SNew on) eqn:Mn; destruct (decide (k = key on.1)), (decide (k = key on.2));
      try (right; by exists SOld); try (right; by exists SNew); left; intros [] ?; unfold path_of; congruence. }
  destruct Hrest as [Hno|(x & Hx & ->)].
  - rewrite (Hf k Hno). destruct (H !! k) as [[r d]|] eqn:Ek; [|done]. destruct (decide (r_id r = i)) as [Hi|Hi]; [|done].
    destruct (Hfacts k r d Ek Hi) as (_ & x & Hx & ->). by destruct (Hno x Hx).
  - destruct (Hside x Hx) as (note & r & d & Nt & Hk & Hi & Hs & H1k). rewrite Hk, decide_True by done.
    exists x, (note r). split; [done|]. split; [done|]. split; [|done]. apply (nt_noted _ _ _ _ _ Nt); [|done]. by eapply Hfacts.
Qed.

(** One side is let go. *)
Lemma settle_side fs1 on x st r' d fs' f fin :
  (forall fs fs' ops, fin fs = Done (fs', ops) -> my_root fs' = my_root fs /\
     exists r d, hview fs !! key (path_of x on) = Some (r, d) /\ ops = pending_ops r /\ hview fs' = base.delete (key (path_of x on)) (hview fs)) ->
  st <> Pending -> r_paths r' = on -> hview fs1 !! key (path_of x on) = (if decide (st = Abort_) then None else Some (r', d)) ->
  (st = Abort_ -> hview fs1 !! key on.1 = None /\ hview fs1 !! key on.2 = None) ->
  settle fs1 (next_of st r') fin = Done (fs', f) ->
  my_root fs' = my_root fs1 /\ f = Some (pending_ops r') /\ hview fs' = base.delete (key (path_of x on)) (hview fs1).
Proof.
  intros Hfin Hnp Hp Hk Hab E. destruct st; [| |done].
  - apply bind_done in E as ([fs2 ops] & E1 & E). injection E as <- <-. destruct (Hfin _ _ _ E1) as (Hr & r & d1 & Hk1 & -> & Hv).
    rewrite Hk, decide_False in Hk1 by done. injection Hk1 as <- <-. done.
  - destruct (Hab eq_refl) as [H1 H2]. cbn [settle next_of] in E. destruct (abort_spec fs1 r') as (Hr & Hv & Ho). destruct (abort fs1 r') as [fs2 ops]. cbn in Hr, Hv, Ho.
    injection E as <- <-. split; [done|]. split; [by rewrite Ho|]. rewrite Hv. unfold abort_view. subst on. rewrite decide_True in Hk by done.
    rewrite (delete_id _ _ Hk). cbn in H1, H2. by repeat destruct (bool_decide _); rewrite ?(delete_id _ _ H2), ?(delete_id _ _ H1).
Qed.

Lemma vote_item G E fs L m w i s v on fs1 nxo nxn fs2 f1 f2 : TInv G E (hview fs) ((m, w) :: L) -> my_root fs = root -> vote_of m = Some (i, s, v, on) ->
  cast_of fs m w = Done (fs1, nxo, nxn) -> settle_both fs1 nxo nxn on.1 on.2 = Done (fs2, f1, f2) ->
  let X := decided_old fs1 i on.1 nxo ++ decided_new fs1 i on.2 nxn in
  let W := items (default [] f1) ++ items (default [] f2) in
  my_root fs2 = root /\ TInv (add_ends X G) E (hview fs2) (W ++ L) /\ Forall (fun x => is_part2 x.1 = false) W /\
  (forall j, j ∈ asked W -> j ∈ waited G) /\
  (forall j x ve, (j, x, ve) ∈ X -> j = i /\ mine x on = true /\ ((i, x) ∉ (ends G).*1) /\
     exists vo vn, votes G !! (i, SOld) = Some vo /\ votes G !! (i, SNew) = Some vn /\ ve = verdict vo vn) /\ NoDup X.*1.
Proof.
  intros HT Hr Hm Ec Es X W. destruct (item_covers _ _ _ _ _ _ _ _ _ _ HT Hm) as (Hren & Hv & Hc).
  assert (Hnothing : nxo = Nothing -> nxn = Nothing -> hview fs1 = hview fs1 -> my_root fs1 = root -> TInv G E (hview fs1) L ->
    my_root fs2 = root /\ TInv (add_ends X G) E (hview fs2) (W ++ L) /\ Forall (fun x => is_part2 x.1 = false) W /\
    (forall j, j ∈ asked W -> j ∈ waited G) /\
    (forall j x ve, (j, x, ve) ∈ X -> j = i /\ mine x on = true /\ ((i, x) ∉ (ends G).*1) /\
       exists vo vn, votes G !! (i, SOld) = Some vo /\ votes G !! (i, SNew) = Some vn /\ ve = verdict vo vn) /\ NoDup X.*1).
  { intros -> -> _ Hr1 HT'. unfold settle_both in Es. cbn in Es. injection Es as <- <- <-. unfold X, W. cbn. split; [done|].
    split; [unfold add_ends; rewrite app_nil_r; by destruct G|]. split; [constructor|]. split; [by intros j ?%elem_of_nil|].
    split; [by intros j x ve ?%elem_of_nil|constructor]. }
  destruct (cast_outcome _ _ _ _ _ _ _ _ _ _ _ _ _ HT Hr Hm Ec) as [(Mo & Hk & -> & -> & ->)|(Hr1 & Hne & st & no & nn & No & Nn & Co & Cn & Hf)].
  { apply Hnothing; try done. eapply drop_item; [done|by destruct m|]. intros k r d s' Hk' _ (v' & on' & Hs). cbn in Hs. rewrite Hm in Hs.
    injection Hs as Hi _ _ _. destruct (held_facts _ _ _ _ _ _ _ _ _ _ _ _ _ HT Hm Hk' (eq_sym Hi)) as (_ & Hp & _ & [] & Hx & ->); [unfold path_of in Hk'; congruence|].
    subst on. destruct (ti_both _ _ _ _ _ HT r d Hk' Mo) as (r' & d' & Hk2 & _). cbn in Hk. by rewrite Hk in Hk2. }
  assert (Hfacts : forall k r d, hview fs !! k = Some (r, d) -> r_id r = i -> r_paths r = on /\ exists x, mine x on = true /\ k = key (path_of x on)).
  { intros k r d Hk Hi. destruct (held_facts _ _ _ _ _ _ _ _ _ _ _ _ _ HT Hm Hk Hi) as (_ & ? & _ & ?). done. }
  pose proof (side_cast_noted _ _ _ _ s v _ _ _ _ _ Hne Co Cn Hf Hfacts No Nn) as Hall.
  destruct (decide (st = Pending)) as [->|Hst].
  { apply Hnothing; try done.
    - unfold SideCast in Co. destruct (mine SOld on); [by destruct Co as (? & ? & _ & _ & _ & -> & _)|done].
    - unfold SideCast in Cn. destruct (mine SNew on); [by destruct Cn as (? & ? & _ & _ & _ & -> & _)|done].
    - eapply note_item; [done|done|]. intros k. specialize (Hall k). destruct (hview fs !! k) as [[r d]|]; [|done]. case_decide as Hi; [|done].
      destruct Hall as (x & r' & _ & _ & Hn & Hs & Hk). by exists r'. }
  set (nxs := fun x => match x with SOld => nxo | SNew => nxn end).
  assert (Hx : forall x, mine x on = true -> exists r r' d, hview fs !! key (path_of x on) = Some (r, d) /\ r_id r = i /\ noted s v (key (path_of x on)) r r' /\
    state r' = Done st /\ nxs x = next_of st r' /\ hview fs1 !! key (path_of x on) = (if decide (st = Abort_) then None else Some (r', d))).
  { unfold SideCast in *. intros [] Mx; rewrite Mx in *; [destruct Co as (r & d & Hk & Hi & ? & ? & ?)|destruct Cn as (r & d & Hk & Hi & ? & ? & ?)];
      eexists r, _, d; (split; [done|]); (split; [done|]); (split; [|done]); eapply nt_noted; try done; by eapply Hfacts. }
  assert (Hnx : forall x, mine x on = false -> nxs x = Nothing) by (unfold SideCast in *; intros [] Mx; rewrite Mx in *; done).
  clear Co Cn No Nn.
  assert (Hgone : st = Abort_ -> forall x, hview fs1 !! key (path_of x on) = None).
  { intros -> x. destruct (mine x on) eqn:Mx; [by destruct (Hx x Mx) as (? & ? & ? & _ & _ & _ & _ & _ & ->)|].
    specialize (Hall (key (path_of x on))). destruct (hview fs !! key (path_of x on)) as [[r d]|] eqn:Ek; [|done].
    pose proof (ho_own _ _ _ _ _ (ti_held _ _ _ _ _ HT _ _ _ Ek)) as Hown. unfold ZooRename.mine in Mx. congruence. }
  (* what was said *)
  assert (Hsaid : exists vo vn, votes G !! (i, SOld) = Some vo /\ votes G !! (i, SNew) = Some vn /\ forall x,
    match x with SOld => decided_old fs1 i on.1 nxo | SNew => decided_new fs1 i on.2 nxn end = if mine x on then [(i, x, verdict vo vn)] else []).
  { assert (Hv' : forall x, mine x on = true -> exists vo vn, votes G !! (i, SOld) = Some vo /\ votes G !! (i, SNew) = Some vn /\
      match x with SOld => decided_old fs1 i on.1 nxo | SNew => decided_new fs1 i on.2 nxn end = [(i, x, verdict vo vn)]).
    { intros x Mx. destruct (Hx x Mx) as (r & r' & d & Hk & Hi & Hn & Hs & En & H1). rewrite <-Hi in Hv.
      destruct (decided_votes G (key (path_of x on)) r r' d s v st on x) as (vo & vn & Hvo & Hvn & Hve); try done;
        [by eapply ti_held|by eapply Hfacts|]. rewrite Hi in Hvo, Hvn. exists vo, vn. split; [done|]. split; [done|]. rewrite Hve.
      destruct st; [| |done]; destruct x; cbn in En; subst; cbn [decided_old decided_new next_of]; try done.
      - rewrite decide_False in H1 by done. unfold path_of in H1. destruct (is_held _ _ _ _ H1) as (node & -> & _ & <-). done.
      - rewrite decide_False in H1 by done. unfold path_of in H1. destruct (is_held _ _ _ _ H1) as (node & -> & Hp & _). cbn. by rewrite Hp. }
    assert (Hsome : exists x, mine x on = true) by (destruct w; [exists SOld|exists SNew|exists SOld]; by rewrite <-Hc).
    destruct Hsome as [x0 Mx0]. destruct (Hv' x0 Mx0) as (vo & vn & Hvo & Hvn & _). exists vo, vn. split; [done|]. split; [done|]. intros x.
    destruct (mine x on) eqn:Mx; [destruct (Hv' x Mx) as (vo' & vn' & ? & ? & ->); by simplify_eq|].
    pose proof (Hnx x Mx) as Hn. destruct x; cbn in Hn; by rewrite Hn. }
  destruct Hsaid as (vo & vn & Hvo & Hvn & HX).
  (* what is let go *)
  unfold settle_both in Es. apply bind_done in Es as ([fsa f1'] & Eo & Es). apply bind_done in Es as ([fsb f2'] & En & Es). injection Es as -> -> ->.
  assert (HO : my_root fsa = root /\ hview fsa = (if mine SOld on then base.delete (key on.1) (hview fs1) else hview fs1) /\
    if mine SOld on then exists r d, hview fs !! key on.1 = Some (r, d) /\ r_id r = i /\ f1 = Some (pending_ops r) else f1 = None).
  { destruct (mine SOld on) eqn:Mo.
    - destruct (Hx SOld Mo) as (r & r' & d & Hk & Hi & Hn & Hs & E1 & H1). cbn in E1. subst nxo.
      destruct (settle_side fs1 on SOld st r' d fsa f1 (fun fs => finish_rename_remove fs on.1)) as (H2 & H3 & H4); try done.
      + intros fs3 fs4 ops. apply finish_remove_spec.
      + rewrite (no_paths _ _ _ _ _ Hn). by eapply Hfacts.
      + intros Hab. split; [by apply (Hgone Hab SOld)|by apply (Hgone Hab SNew)].
      + split; [congruence|]. split; [done|]. exists r, d. split; [done|]. split; [done|]. by rewrite <-(no_ops _ _ _ _ _ Hn).
    - pose proof (Hnx SOld Mo) as E1. cbn in E1. subst nxo. cbn in Eo. by injection Eo as <- <-. }
  destruct HO as (Hra & Hva & HO).
  assert (HN : my_root fs2 = root /\ hview fs2 = (if mine SNew on then base.delete (key on.2) (hview fsa) else hview fsa) /\
    if mine SNew on then exists r d, hview fs !! key on.2 = Some (r, d) /\ r_id r = i /\ f2 = Some (pending_ops r) else f2 = None).
  { destruct (mine SNew on) eqn:Mn.
    - destruct (Hx SNew Mn) as (r & r' & d & Hk & Hi & Hn & Hs & E1 & H1). cbn in E1. subst nxn.
      destruct (settle_side fsa on SNew st r' d fs2 f2 (fun fs => finish_rename_create fs on.2)) as (H2 & H3 & H4); try done.
      + intros fs3 fs4 ops. apply finish_create_spec.
      + rewrite (no_paths _ _ _ _ _ Hn). by eapply Hfacts.
      + rewrite Hva. destruct (mine SOld on); [by rewrite lookup_delete_ne by done|done].
      + intros Hab. rewrite Hva. pose proof (Hgone Hab SOld) as G1. pose proof (Hgone Hab SNew) as G2. cbn in G1, G2.
        destruct (mine SOld on); [|done]. by rewrite lookup_delete_eq, lookup_delete_ne.
      + split; [congruence|]. split; [done|]. exists r, d. split; [done|]. split; [done|]. by rewrite <-(no_ops _ _ _ _ _ Hn).
    - pose proof (Hnx SNew Mn) as E1. cbn in E1. subst nxn. cbn in En. by injection En as <- <-. }
  destruct HN as (Hrb & Hvb & HN). split; [done|].
  assert (EX : X = (if mine SOld on then [(i, SOld, verdict vo vn)] else []) ++ (if mine SNew on then [(i, SNew, verdict vo vn)] else [])).
  { unfold X. by rewrite <-(HX SOld), <-(HX SNew). }
  assert (HinX : forall j x ve, (j, x, ve) ∈ X -> j = i /\ mine x on = true /\ ve = verdict vo vn).
  { intros j x ve. rewrite EX, elem_of_app. destruct (mine SOld on) eqn:Mo, (mine SNew on) eqn:Mn; rewrite ?list_elem_of_singleton, ?elem_of_nil;
      intros [Hj|Hj]; try done; by injection Hj as -> -> ->. }
  assert (HX1 : forall x, mine x on = true -> (i, x) ∈ X.*1).
  { intros x Mx. rewrite EX, fmap_app, elem_of_app. destruct x; rewrite Mx; [left|right]; by apply list_elem_of_singleton. }
  assert (HX2 : forall j x, (j, x) ∈ X.*1 -> j = i /\ mine x on = true).
  { intros j x Hj. apply list_elem_of_fmap in Hj as ([[j' x'] ve] & [= -> ->] & Hin). by destruct (HinX _ _ _ Hin) as (? & ? & _). }
  assert (HW : forall x, x ∈ W -> exists k r d, hview fs !! k = Some (r, d) /\ r_id r = i /\ x ∈ items (pending_ops r)).
  { intros x. unfold W. rewrite elem_of_app. intros [Hin|Hin].
    - destruct (mine SOld on); [destruct HO as (r & d & ? & ? & ->); by exists (key on.1), r, d|]. rewrite HO in Hin. by apply elem_of_nil in Hin.
    - destruct (mine SNew on); [destruct HN as (r & d & ? & ? & ->); by exists (key on.2), r, d|]. rewrite HN in Hin. by apply elem_of_nil in Hin. }
  split; [|split; [|split; [|split]]].
  - eapply release_item; [done|done| |done| | |].
    + intros k. rewrite Hvb, Hva. specialize (Hall k).
      assert (Hk : forall x, mine x on = true -> k = key (path_of x on) -> exists r d, hview fs !! k = Some (r, d) /\ r_id r = i).
      { intros x Mx ->. destruct (Hx x Mx) as (r & r' & d & ? & ? & _). by exists r, d. }
      assert (Hdel : forall h : HView, (forall k', k' = k -> (exists x, mine x on = true /\ k = key (path_of x on)) \/ h !! k' =
        match hview fs !! k with Some (r, d) => if decide (r_id r = i) then None else Some (r, d) | None => None end) ->
        (if mine SNew on then base.delete (key on.2) (if mine SOld on then base.delete (key on.1) h else h) else (if mine SOld on then base.delete (key on.1) h else h)) !! k =
        match hview fs !! k with Some (r, d) => if decide (r_id r = i) then None else Some (r, d) | None => None end).
      { intros h Hh. destruct (decide (mine SOld on = true /\ k = key on.1)) as [[Mo ->]|Ho].
        - destruct (Hk SOld Mo eq_refl) as (r & d & -> & ->). rewrite decide_True by done. rewrite Mo.
          destruct (mine SNew on); rewrite ?lookup_delete_ne by done; by rewrite lookup_delete_eq.
        - destruct (decide (mine SNew on = true /\ k = key on.2)) as [[Mn ->]|Hn].
          + destruct (Hk SNew Mn eq_refl) as (r & d & -> & ->). rewrite decide_True by done. rewrite Mn. by rewrite lookup_delete_eq.
          + destruct (Hh k eq_refl) as [(x & Mx & Hx')|<-]; [destruct x; [by destruct Ho|by destruct Hn]|].
            destruct (mine SOld on) eqn:Mo, (mine SNew on) eqn:Mn; rewrite ?lookup_delete_ne; try done; intros <-; first [by apply Ho|by apply Hn]. }
      apply Hdel. intros k' ->. destruct (hview fs !! k) as [[r d]|]; [|by right]. case_decide as Hi; [|by right].
      destruct Hall as (x & r' & Mx & Hkx & _). left. by exists x.
    + unfold W. rewrite asked_app. apply NoDup_app.
      assert (Hnd : forall k r d, hview fs !! k = Some (r, d) -> NoDup (asked (items (pending_ops r)))) by (intros k r d Hk; apply (ti_held _ _ _ _ _ HT _ _ _ Hk)).
      destruct (mine SOld on), (mine SNew on); cbn in HO, HN.
      * destruct HO as (ro & d_o & Ho & _ & ->), HN as (rn & dn & Hn & _ & ->). split; [by eapply Hnd|]. split; [|by eapply Hnd].
        intros j Hj Hj'. destruct (parked_at _ _ _ _ _ _ _ _ _ HT Ho Hj) as (on1 & Hq1 & E1). destruct (parked_at _ _ _ _ _ _ _ _ _ HT Hn Hj') as (on2 & Hq2 & E2).
        congruence.
      * destruct HO as (ro & d_o & Ho & _ & ->). rewrite HN. split; [by eapply Hnd|]. split; [by intros j _ ?%elem_of_nil|constructor].
      * destruct HN as (rn & dn & Hn & _ & ->). rewrite HO. split; [constructor|]. split; [by intros j ?%elem_of_nil|by eapply Hnd].
      * rewrite HO, HN. split; [constructor|]. split; [by intros j ?%elem_of_nil|constructor].
    + intros x r d Hk Hi. apply HX1. destruct (Hfacts _ _ _ Hk Hi) as (Hp & x' & Mx & Hkx). unfold ZooRename.mine in *. by rewrite Hkx.
    + intros j x Hj. destruct (HX2 j x Hj) as [-> Mx]. split; [done|]. destruct (Hx x Mx) as (r & r' & d & ? & ? & _). by exists r, d.
  - apply Forall_forall. intros x Hin. destruct (HW x Hin) as (k & r & d & Hk & _ & Hin'). by apply (ho_ops _ _ _ _ _ (ti_held _ _ _ _ _ HT _ _ _ Hk)).
  - intros j Hj. apply elem_of_asked in Hj as (o & n & c & w' & Hin). destruct (HW _ Hin) as (k & r & d & Hk & _ & Hin').
    apply (ti_wait _ _ _ _ _ HT). exists k, r, d. split; [done|]. apply elem_of_asked. by exists o, n, c, w'.
  - intros j x ve Hin. destruct (HinX _ _ _ Hin) as (-> & Mx & ->). split; [done|]. split; [done|]. split; [|by exists vo, vn].
    intros Hend. destruct (ti_ended _ _ _ _ _ HT i on x Hend Hren Mx) as [_ Hno]. destruct (Hx x Mx) as (r & r' & d & Hk & Hi & _). by apply (Hno _ _ Hk).
  - rewrite EX. destruct (mine SOld on), (mine SNew on); [|apply NoDup_singleton|apply NoDup_singleton|constructor].
    apply NoDup_cons. split; [|apply NoDup_singleton]. intros Hin. by apply list_elem_of_singleton in Hin.
Qed.

(** What was decided is what happens to the files. *)
Lemma held_decided G k r r' d s v : HeldOk own G k r d -> votes G !! (r_id r, s) = Some v -> noted s v k r r' -> state r' = Done Abort_ ->
  exists vo, votes G !! (r_id r, SOld) = Some vo /\ old_exists r' = commit_of vo.
Proof.
  intros Hh Hv Hn Hst. pose proof (held_noted _ _ _ _ _ _ _ _ Hh Hn Hv) as Hh'. rewrite <-(no_id _ _ _ _ _ Hn).
  apply (ho_said _ _ _ _ _ Hh' SOld). cbn. intros Ho. unfold state in Hst. rewrite Ho in Hst. by destruct (new_empty r'), (r_check_new r').
Qed.

Lemma settled G E fs L m w i s v on fs1 nxo nxn fs2 f1 f2 : TInv G E (hview fs) ((m, w) :: L) -> my_root fs = root -> vote_of m = Some (i, s, v, on) ->
  cast_of fs m w = Done (fs1, nxo, nxn) -> settle_both fs1 nxo nxn on.1 on.2 = Done (fs2, f1, f2) ->
  ended_old fs1 fs2 i on.1 nxo = decided_old fs1 i on.1 nxo /\ ended_new fs1 fs2 i on.2 nxn = decided_new fs1 i on.2 nxn.
Proof.
  intros HT Hr Hm Ec Es. destruct (item_covers _ _ _ _ _ _ _ _ _ _ HT Hm) as (Hren & Hv & _).
  destruct (cast_outcome _ _ _ _ _ _ _ _ _ _ _ _ _ HT Hr Hm Ec) as [(_ & _ & -> & -> & ->)|(_ & Hne & st & no & nn & No & Nn & Co & Cn & _)]; [done|].
  unfold SideCast in Co, Cn. destruct st.
  - assert (Hnx : nxo = (if mine SOld on then Finish else Nothing) /\ nxn = (if mine SNew on then Finish else Nothing)).
    { destruct (mine SOld on), (mine SNew on); try destruct Co as (? & ? & _ & _ & _ & -> & _); try destruct Cn as (? & ? & _ & _ & _ & -> & _); subst; done. }
    destruct Hnx as [-> ->]. split.
    + destruct (mine SOld on); [|done]. destruct Co as (r & d & _ & _ & _ & _ & H1). rewrite decide_False in H1 by done.
      destruct (is_held _ _ _ _ H1) as (node & En & _). unfold path_of in En. cbn [ended_old decided_old]. unfold gone_with. by rewrite En, (finished_old _ _ _ _ _ _ _ Es).
    + destruct (mine SNew on); [|done]. destruct Cn as (r & d & _ & _ & _ & _ & H1). rewrite decide_False in H1 by done.
      destruct (is_held _ _ _ _ H1) as (node & En & Ep & _). unfold path_of in En. cbn [ended_new decided_new]. rewrite En. cbn [mbind option_bind]. rewrite Ep.
      destruct (finished_new _ _ _ _ _ _ _ (nn r) Es) as (node' & -> & <- & ->); [by rewrite En|done].
  - assert (Hl : left_or (aborting nxo ++ aborting nxn) fs1 fs2).
    { unfold settle_both in Es. apply bind_done in Es as ([fsa fa] & Ea & Es). apply bind_done in Es as ([fsb fb] & Eb & [= <- _ _]).
      eapply left_trans; (eapply settle_leaves; [|done]).
      - destruct (mine SOld on); [destruct Co as (? & ? & _ & _ & _ & -> & _)|subst nxo]; done.
      - destruct (mine SNew on); [destruct Cn as (? & ? & _ & _ & _ & -> & _)|subst nxn]; done. }
    assert (Hold : exists vo, forall r, r ∈ aborting nxo ++ aborting nxn -> r_paths r = on /\ old_exists r = commit_of vo).
    { exists (default None (votes G !! (i, SOld))). intros r Hin. assert (Hr0 : exists x note r0 d, NoteOk s v on x note /\ hview fs !! key (path_of x on) = Some (r0, d) /\
        r_id r0 = i /\ state (note r0) = Done Abort_ /\ r = note r0).
      { apply elem_of_app in Hin as [Hin|Hin].
        - destruct (mine SOld on); [|by rewrite Co in Hin; apply elem_of_nil in Hin]. destruct Co as (r0 & d & ? & ? & ? & -> & _).
          apply list_elem_of_singleton in Hin. by exists SOld, no, r0, d.
        - destruct (mine SNew on); [|by rewrite Cn in Hin; apply elem_of_nil in Hin]. destruct Cn as (r0 & d & ? & ? & ? & -> & _).
          apply list_elem_of_singleton in Hin. by exists SNew, nn, r0, d. }
      destruct Hr0 as (x & note & r0 & d & Nt & Hk & Hi & Hs & ->). destruct (held_facts _ _ _ _ _ _ _ _ _ _ _ _ _ HT Hm Hk Hi) as (Hh & Hp & _ & _).
      pose proof (nt_noted _ _ _ _ _ Nt r0 Hp Hne) as Hn. split; [by rewrite (no_paths _ _ _ _ _ Hn)|]. rewrite <-Hi in Hv.
      destruct (held_decided _ _ _ _ _ _ _ Hh Hv Hn Hs) as (vo & Hvo & ->). rewrite Hi in Hvo. by rewrite Hvo. }
    destruct Hold as [vo Hold]. split.
    + destruct (mine SOld on); [|by rewrite Co]. destruct Co as (r0 & d & _ & _ & _ & -> & _). cbn [ended_old decided_old next_of]. do 2 f_equal.
      destruct (Hold (no r0)) as [_ Ho]; [by apply elem_of_app; left; apply list_elem_of_singleton|]. case_bool_decide as Hb; [done|].
      unfold gone_with. destruct (Hl (key on.1)) as [->|(_ & r & Hin & Hk)]; [by destruct (files fs1 !! key on.1)|].
      exfalso. destruct (Hold r Hin) as [Hp Hr']. destruct Hk as [Hk|[_ Hk]]; [|congruence]. apply Hne. rewrite Hk. by rewrite <-Hp.
    + destruct (mine SNew on); [|by rewrite Cn]. destruct Cn as (r0 & d & _ & _ & _ & -> & _). cbn [ended_new decided_new next_of]. by rewrite (left_changed _ _ _ _ Hl).
  - assert (Hnx : nxo = Nothing /\ nxn = Nothing).
    { destruct (mine SOld on), (mine SNew on); try destruct Co as (? & ? & _ & _ & _ & -> & _); try destruct Cn as (? & ? & _ & _ & _ & -> & _); subst; done. }
    by destruct Hnx as [-> ->].
Qed.

(** ** A turn of the thread *)

Lemma apply_part2 fuel st m w i s v on : vote_of m = Some (i, s, v, on) ->
  apply_mutation (S fuel) st m w =
    ('(fs1, nxo, nxn) ← cast_of (fs_of st) m w;
     res ← settle_both fs1 nxo nxn on.1 on.2;
     flush_both (apply_mutation fuel) st (mut_id m) res).
Proof.
  intros Hm. destruct m; try done; cbn in Hm; injection Hm as <- <- <- <-; cbn [apply_mutation is_part2 cast_of mut_id fst snd];
    unfold rename_old_exists, rename_new_empty, rename_nack; [destruct (cast_old_exists _ _ _ _ _ _) as [[[]]|]
    |destruct (cast_new_empty _ _ _ _ _) as [[[]]|]|destruct (cast_nack _ _ _ _ _ _) as [[[]]|]]; done.
Qed.

(** No more than two calls are ever nested. *)
Lemma fuel_enough G E fs ids cs L m w n : TInv G E (hview fs) ((m, w) :: L) -> my_root fs = root ->
  apply_mutation (S (S n)) (mkSt fs ids cs) m w = apply_mutation 2 (mkSt fs ids cs) m w.
Proof.
  intros HT Hr. destruct (vote_of m) as [[[[i s] v] on]|] eqn:Hm; [|rewrite fuel_request, (fuel_request 1); by destruct m].
  rewrite !(apply_part2 _ _ _ _ _ _ _ _ Hm). cbn [fs_of]. destruct (cast_of fs m w) as [[[fs1 nxo] nxn]|] eqn:Ec; [|done]. cbn [mbind outcome_bind].
  destruct (settle_both fs1 nxo nxn on.1 on.2) as [[[fs2 f1] f2]|] eqn:Es; [|done]. cbn [mbind outcome_bind].
  destruct (vote_item _ _ _ _ _ _ _ _ _ _ _ _ _ _ _ _ HT Hr Hm Ec Es) as (_ & _ & HW & _). apply Forall_app in HW as [H1 H2].
  unfold flush_both. rewrite fuel_flush by done. destruct (flush_with _ _ (default [] f1)); [|done]. cbn [mbind outcome_bind]. by apply fuel_flush.
Qed.

(** The renames that have to wait because of this message. *)
Definition waits_of (fs : FileSystem) (m : Mutation) (w : WhichPath) : gset Id :=
  if is_part2 m then ∅ else if held_up fs m w then match asks_rename m with Some i => {[i]} | None => ∅ end else ∅.

Lemma turn_mut G fs ids L m w s' : TInv G [] (hview fs) ((m, w) :: L) -> my_root fs = root ->
  apply_mutation 2 (mkSt fs ids []) m w = Done s' ->
  my_root (fs_of s') = root /\ CLIENT_ID (ids_of s') = CLIENT_ID ids /\
  (forall j x ve, (j, x, ve) ∈ verdicts_of fs m w -> ((j, x) ∉ (ends G).*1) /\ (exists on, ren G !! j = Some on /\ mine x on = true) /\
     exists vo vn, votes G !! (j, SOld) = Some vo /\ votes G !! (j, SNew) = Some vn /\ ve = verdict vo vn) /\
  NoDup (verdicts_of fs m w).*1 /\
  exists G' E', TInv G' E' (hview (fs_of s')) L /\ Spoke (add_ends (verdicts_of fs m w) G) [] G' E' (emitted (calls s')) /\
    waited G' = waits_of fs m w ∪ waited G /\ forall j s, (j, s) ∈ E' -> j ∈ waited G' \/ asks_rename m = Some j.
Proof.
  intros HT Hr E1. destruct (vote_of m) as [[[[i s] v] on]|] eqn:Hm.
  - assert (Hp2 : is_part2 m = true /\ asks_rename m = None) by (by destruct m). destruct Hp2 as [Hp2 Ha].
    destruct (item_covers _ _ _ _ _ _ _ _ _ _ HT Hm) as (Hren & _ & _).
    rewrite (apply_part2 _ _ _ _ _ _ _ _ Hm) in E1. cbn [fs_of] in E1. apply bind_done in E1 as ([[fs1 nxo] nxn] & Ec & E1).
    apply bind_done in E1 as ([[fs2 f1] f2] & Es & E1).
    destruct (vote_item _ _ _ _ _ _ _ _ _ _ _ _ _ _ _ _ HT Hr Hm Ec Es) as (Hr2 & HT2 & HW & Hwait & HX & Hnd).
    assert (EX : verdicts_of fs m w = decided_old fs1 i on.1 nxo ++ decided_new fs1 i on.2 nxn).
    { destruct (settled _ _ _ _ _ _ _ _ _ _ _ _ _ _ _ _ HT Hr Hm Ec Es) as [<- <-]. unfold verdicts_of. rewrite Hm, Ec. destruct on as [o n]. cbn [fst snd] in *. by rewrite Es. }
    rewrite EX. unfold flush_both in E1. apply bind_done in E1 as ([fs3 ids3 cs3] & E2 & E1).
    rewrite <-app_assoc in HT2. apply Forall_app in HW as [HW1 HW2]. unfold call in E2. cbn [ids_of calls app] in E2.
    assert (Hwait1 : forall j, j ∈ asked (items (default [] f1)) -> j ∈ waited G) by (intros j Hj; apply Hwait; rewrite asked_app; apply elem_of_app; by left).
    assert (Hwait2 : forall j, j ∈ asked (items (default [] f2)) -> j ∈ waited G) by (intros j Hj; apply Hwait; rewrite asked_app; apply elem_of_app; by right).
    destruct (flush_items 0 _ _ _ _ _ _ _ _ HT2 Hr2 HW1 Hwait1 E2) as (Hr3 & Hi3 & G3 & E3 & new3 & Ecs3 & HT3 & Hsp3 & Hw3 & HE3). cbn in Hr3, Hi3, Ecs3, HT3.
    change (waited (add_ends _ G)) with (waited G) in Hw3. rewrite <-Hw3 in Hwait2.
    destruct (flush_items 0 _ _ _ _ _ _ _ _ HT3 Hr3 HW2 Hwait2 E1) as (Hr4 & Hi4 & G4 & E4 & new4 & Ecs4 & HT4 & Hsp4 & Hw4 & HE4).
    split; [done|]. split; [congruence|]. split; [|split; [done|]].
    { intros j x ve Hin. destruct (HX j x ve Hin) as (-> & Mx & Hno & Hv). split; [done|]. split; [by exists on|done]. }
    exists G4, E4. split; [done|]. split.
    { assert (Hem : emitted (calls s') = emitted new3 ++ emitted new4) by (rewrite Ecs4, Ecs3, !emitted_app; done).
      rewrite Hem. by eapply spoke_trans. }
    split; [rewrite Hw4, Hw3; unfold waits_of; rewrite Hp2; cbn; set_solver|].
    intros j x Hj. left. destruct (HE4 j x Hj) as [Hj'|Hj']; [|by rewrite Hw4]. destruct (HE3 j x Hj') as [Hj2|Hj2]; [by apply elem_of_nil in Hj2|].
    by rewrite Hw4, Hw3.
  - assert (Hp2 : is_part2 m = false) by (by destruct m).
    destruct (apply_item _ _ _ _ _ _ _ _ _ _ HT Hr Hp2 E1) as (Hr2 & Hi & G' & E' & new & Ecs & HT' & Hsp & Hw & HE).
    assert (EX : verdicts_of fs m w = []) by (unfold verdicts_of; by rewrite Hm). rewrite EX.
    split; [done|]. split; [done|]. split; [by intros j x ve ?%elem_of_nil|]. split; [constructor|]. exists G', E'. split; [done|].
    split; [|split].
    + replace (add_ends [] G) with G by (unfold add_ends; rewrite app_nil_r; by destruct G). cbn in Ecs. by rewrite Ecs.
    + rewrite Hw. unfold waits_of. rewrite Hp2. destruct (held_up fs m w); [|set_solver]. unfold wait. destruct (asks_rename m); cbn; set_solver.
    + intros j s Hj. destruct (HE j s Hj) as [Hj'|?]; [by apply elem_of_nil in Hj'|by right].
Qed.
End Thread.
