(* ===== verification/ZooService.v ===== *)
(** * The service as a whole

    Processes with a client, a materializer and two threads each, on one log.  In every run, in
    which the identifiers of a process do not come around, a rename ends at both of its files in
    the same way ([rename_atomic]), and does end when it did not have to wait ([rename_ends]). *)

From stdpp Require Import base gmap list strings.
From Stdlib Require Import ZArith Lia.
From S2P Require Import Prelude ZooFiles ZooClient ZooRename ZooThread.
Open Scope Z_scope.

(** ** The parts of the tree *)

Record Part := mkPart { pt_name : string; pt_root : PathBuf; pt_color : Z; pt_client : Z }.

Definition roots_of (ps : list Part) : gmap string Z := list_to_map ((fun p => (pt_name p, pt_color p)) <$> ps).

(** Each part is a directory of the root, with a chain and a client of its own. *)
Definition parts_ok (ps : list Part) : Prop :=
  NoDup (pt_name <$> ps) /\ NoDup (pt_color <$> ps) /\ NoDup (pt_client <$> ps) /\
  Forall (fun p => key (pt_root p) = [RootDir; Normal (pt_name p)]) ps.

(** ** Histories *)

(** What was asked, what had to wait, and how it ended. *)
Record History := mkHistory {
  renames : gmap Id (PathBuf * PathBuf);
  had_to_wait : gset Id;
  verdicts : list (Id * Side * Vote);
}.

Section Service.
Context `{HB : Build} `{HC : Bincode}.
Variable hash : nat -> Key -> Z.
Variable parts : list Part.

Definition next_op (s : Sys) (k t : nat) : option (FileSystem * Op) :=
  p ← procs s !! k;
  fs ← threads p !! t;
  q ← to_files p !! t;
  op ← head q;
  Some (fs, op).

Definition record (s : Sys) (a : Action) (h : History) : History :=
  match a with
  | Asks k (ReqRename o n _) =>
      match procs s !! k with
      | Some p =>
          match Id_new (p_ids p) with
          | Done (_, id) => mkHistory (<[id := (o, n)]> (renames h)) (had_to_wait h) (verdicts h)
          | Panic => h
          end
      | None => h
      end
  | Works k t =>
      match next_op s k t with
      | Some (fs, OpMut m _ _ w) =>
          mkHistory (renames h) (waits_of fs m w ∪ had_to_wait h) (verdicts h ++ verdicts_of fs m w)
      | _ => h
      end
  | _ => h
  end.

(** The counter of no process has come around (after 2^64 identifiers). *)
Definition counters_grow (s s' : Sys) : Prop :=
  forall k p p', procs s !! k = Some p -> procs s' !! k = Some p' -> COUNTER (p_ids p) <= COUNTER (p_ids p').

Inductive reach : Sys -> History -> Prop :=
| reach_start ps : Forall2 (fun pt p => Client_new (pt_color pt) (pt_root pt) (roots_of parts) (pt_client pt) = Done p) parts ps ->
    reach (mkSys ∅ ps) (mkHistory ∅ ∅ [])
| reach_step s h a s' : reach s h -> sys_step hash s a = Done s' -> counters_grow s s' -> reach s' (record s a h).

(** A run, with its history. *)
Definition growing (s s' : Sys) : bool := forallb (fun x => COUNTER (p_ids x.1) <=? COUNTER (p_ids x.2)) (zip (procs s) (procs s')).

Fixpoint history_run (s : Sys) (h : History) (acts : list Action) : option (Sys * History) :=
  match acts with
  | [] => Some (s, h)
  | a :: acts =>
      match sys_step hash s a with
      | Done s' => if growing s s' then history_run s' (record s a h) acts else None
      | Panic => None
      end
  end.

Lemma growing_counters s s' : growing s s' = true -> counters_grow s s'.
Proof.
  unfold growing. intros Hall k p p' Hp Hp'. apply Z.leb_le. apply (proj1 (forallb_forall _ _) Hall (p, p')).
  apply list_elem_of_In. apply (list_elem_of_lookup_2 _ k). apply lookup_zip_Some. by split.
Qed.

Lemma history_reach acts : forall s h s' h', reach s h -> history_run s h acts = Some (s', h') -> reach s' h'.
Proof.
  induction acts as [|a acts IH]; intros s h s' h' Hr E; cbn [history_run] in E; [by injection E as <- <-|].
  destruct (sys_step hash s a) as [s1|] eqn:Es; [|done]. destruct (growing s s1) eqn:Eg; [|done]. eapply IH; [|done].
  eapply reach_step; [done|done|]. by apply growing_counters.
Qed.

(** ** What a thread is still to be given *)

Definition own (k t : nat) (kk : Key) : bool :=
  match parts !! k with
  | Some pt => bool_decide (key (pt_root pt) `prefix_of` kk) && bool_decide (Z.to_nat (hash k kk mod Z.of_nat num_file_threads) = t)
  | None => false
  end.

Definition for_thread (root : PathBuf) (h : Key -> Z) (t : nat) (m : Mutation) : option WhichPath :=
  match which_mine root m, path2 m with
  | Some Path1, _ => if bool_decide (thread_of h (mut_path m) = t) then Some Path1 else None
  | Some Path2, Some n => if bool_decide (thread_of h n = t) then Some Path2 else None
  | Some Both, Some n =>
      if bool_decide (thread_of h (mut_path m) = thread_of h n) then if bool_decide (thread_of h (mut_path m) = t) then Some Both else None
      else if bool_decide (thread_of h (mut_path m) = t) then Some Path1
      else if bool_decide (thread_of h n = t) then Some Path2 else None
  | _, _ => None
  end.

Abbreviation Located := (Item * list OrderIndex)%type.

Definition dispatch (root : PathBuf) (h : Key -> Z) (t : nat) (e : Entry) : list Located :=
  match deserialize (bytes e) with
  | Some m => match for_thread root h t m with Some w => [((m, w), locs e)] | None => [] end
  | None => []
  end.

Definition op_item (op : Op) : option Located := match op with OpMut m ls _ w => Some ((m, w), ls) | OpObs _ => None end.

(** What was given to thread [t] of a process, and what it will get from the chain. *)
Definition inbox (p : Proc) (t : nat) : list Located := omap op_item (default [] (to_files p !! t)).
Definition coming (k : nat) (p : Proc) (log : Log) (t : nat) : list Located :=
  drop (played p) (chain log (color p)) ≫= dispatch (p_root p) (hash k) t.
Definition located (k : nat) (p : Proc) (log : Log) (t : nat) : list Located := inbox p t ++ coming k p log t.
Definition queue (k : nat) (p : Proc) (log : Log) (t : nat) : list Item := (located k p log t).*1.

Lemma own_starts k t pt path : parts !! k = Some pt ->
  own k t (key path) = starts_with path (pt_root pt) && bool_decide (thread_of (hash k) path = t).
Proof. intros Hk. unfold own. by rewrite Hk. Qed.

(** A message gets to the threads that have its files. *)
Lemma for_thread_covers k t pt m n w : parts !! k = Some pt -> path2 m = Some n ->
  for_thread (pt_root pt) (hash k) t m = Some w -> forall s, covers s w = mine (own k t) s (mut_path m, n).
Proof.
  intros Hk Hn E s. unfold mine. rewrite (own_starts k t pt) by done. unfold for_thread, which_mine in E. rewrite Hn in E. cbn in E.
  destruct s; cbn [path_of fst snd]; destruct (starts_with (mut_path m) (pt_root pt)), (starts_with n (pt_root pt)); cbn in E |- *; try done;
    repeat case_bool_decide; simplify_eq; cbn; try done; naive_solver congruence.
Qed.

Lemma for_thread_none k t pt m n : parts !! k = Some pt -> path2 m = Some n ->
  for_thread (pt_root pt) (hash k) t m = None -> forall s, mine (own k t) s (mut_path m, n) = false.
Proof.
  intros Hk Hn E s. unfold mine. rewrite (own_starts k t pt) by done. unfold for_thread, which_mine in E. rewrite Hn in E. cbn in E.
  destruct s; cbn [path_of fst snd]; destruct (starts_with (mut_path m) (pt_root pt)), (starts_with n (pt_root pt)); cbn in E |- *; try done;
    repeat case_bool_decide; simplify_eq; cbn; try done; congruence.
Qed.

(** ** The log *)

Lemma chain_insert (log : Log) c es c' : chain (<[c := es]> log) c' = if decide (c' = c) then es else chain log c'.
Proof. unfold chain. case_decide as Hc; [subst; by rewrite lookup_insert_eq|by rewrite lookup_insert_ne]. Qed.

Lemma chain_fold (e : Entry) (cs : list Z) : forall log c, NoDup cs ->
  chain (foldl (fun log c => <[c := chain log c ++ [e]]> log) log cs) c = chain log c ++ (if decide (c ∈ cs) then [e] else []).
Proof.
  induction cs as [|c0 cs IH]; intros log c Hnd; cbn [foldl].
  { rewrite decide_False by (by intros ?%elem_of_nil). by rewrite app_nil_r. }
  apply NoDup_cons in Hnd as [Hc0 Hnd]. rewrite IH by done. rewrite chain_insert. destruct (decide (c = c0)) as [->|Hne].
  - rewrite (decide_False (P := c0 ∈ cs)) by done. rewrite decide_True by (by apply elem_of_cons; left). by rewrite app_nil_r.
  - f_equal. destruct (decide (c ∈ cs)); [rewrite decide_True|rewrite decide_False]; try done; rewrite elem_of_cons; [by right|by intros [?|?]].
Qed.

(** The entry that is appended to some chains. *)
Lemma chain_append (log : Log) cs b : NoDup cs -> exists e, bytes e = b /\ oi_order <$> locs e = cs /\
  forall c, chain (append log cs b) c = chain log c ++ (if decide (c ∈ cs) then [e] else []).
Proof.
  intros Hnd. unfold append. eexists. split; [|split; [|intros c; by apply chain_fold]]; [done|]. cbn. rewrite <-list_fmap_compose. apply list_fmap_id.
Qed.

(** ** The materializer *)

(** What a round leaves as it is. *)
Record kept (p p' : Proc) : Prop := {
  k_color : color p' = color p;
  k_root : p_root p' = p_root p;
  k_roots : p_roots p' = p_roots p;
  k_client : CLIENT_ID (p_ids p') = CLIENT_ID (p_ids p);
  k_threads : threads p' = threads p;
  k_len : length (to_files p') = length (to_files p);
}.

Lemma kept_refl p : kept p p.
Proof. done. Qed.
Lemma kept_trans p1 p2 p3 : kept p1 p2 -> kept p2 p3 -> kept p1 p3.
Proof. intros [] []. constructor; congruence. Qed.

Lemma send_file_inbox t op p p' : send_file t op p = Done p' ->
  kept p p' /\ played p' = played p /\ forall t', inbox p' t' = inbox p t' ++ (if decide (t' = t) then option_list (op_item op) else []).
Proof.
  unfold send_file. intros E. apply bind_done in E as (q & Eq%unwrap_done & E). injection E as <-. split; [constructor; try done; apply length_insert|].
  split; [done|]. intros t'. unfold inbox. cbn. destruct (decide (t' = t)) as [->|Hne].
  - rewrite list_lookup_insert_eq by (by eapply lookup_lt_Some). rewrite Eq. cbn. rewrite omap_app. cbn. by destruct (op_item op).
  - rewrite list_lookup_insert_ne by done. by rewrite app_nil_r.
Qed.

Lemma play_entry_inbox h p e p' : play_entry h p e = Done p' ->
  kept p p' /\ played p' = played p /\ forall t, inbox p' t = inbox p t ++ dispatch (p_root p) h t e.
Proof.
  unfold play_entry, dispatch, for_thread. intros E. apply bind_done in E as (m & Em%unwrap_done & E). rewrite Em.
  destruct (which_mine (p_root p) m) as [[]|].
  - destruct (send_file_inbox _ _ _ _ E) as (Hk & Hp & Hi). split; [by destruct Hk|]. split; [done|]. intros t. rewrite Hi. f_equal.
    destruct (decide (t = thread_of h (mut_path m))) as [->|]; [by rewrite bool_decide_true|by rewrite bool_decide_false].
  - apply bind_done in E as (n & En%unwrap_done & E). rewrite En. destruct (send_file_inbox _ _ _ _ E) as (Hk & Hp & Hi). split; [by destruct Hk|]. split; [done|].
    intros t. rewrite Hi. f_equal. destruct (decide (t = thread_of h n)) as [->|]; [by rewrite bool_decide_true|by rewrite bool_decide_false].
  - apply bind_done in E as (n & En%unwrap_done & E). rewrite En. cbn [take_waiting fst snd] in E. case_bool_decide as Hh.
    + destruct (send_file_inbox _ _ _ _ E) as (Hk & Hp & Hi). split; [by destruct Hk|]. split; [done|]. intros t. rewrite Hi. f_equal.
      destruct (decide (t = thread_of h (mut_path m))) as [->|]; [by rewrite bool_decide_true|by rewrite bool_decide_false].
    + apply bind_done in E as (p1 & E1 & E). destruct (send_file_inbox _ _ _ _ E1) as (Hk1 & Hp1 & Hi1). destruct (send_file_inbox _ _ _ _ E) as (Hk & Hp & Hi).
      split; [eapply (kept_trans p p1); [by destruct Hk1|done]|]. split; [by rewrite Hp, Hp1|]. intros t. rewrite Hi, Hi1, <-app_assoc. f_equal.
      destruct (decide (t = thread_of h (mut_path m))) as [->|Hne].
      * by rewrite decide_False, bool_decide_true.
      * rewrite (bool_decide_false (thread_of h (mut_path m) = t)) by done.
        destruct (decide (t = thread_of h n)) as [->|]; [by rewrite bool_decide_true|by rewrite bool_decide_false].
  - injection E as <-. split; [done|]. split; [done|]. intros t. by rewrite app_nil_r.
Qed.

Lemma play_log_inbox h es : forall p p', play_log h p es = Done p' ->
  kept p p' /\ played p' = (played p + length es)%nat /\ forall t, inbox p' t = inbox p t ++ (es ≫= dispatch (p_root p) h t).
Proof.
  induction es as [|e es IH]; intros p p' E; cbn [play_log] in E.
  - injection E as <-. split; [done|]. split; [cbn; lia|]. intros t. by rewrite app_nil_r.
  - apply bind_done in E as (p1 & E1 & E). destruct (play_entry_inbox _ _ _ _ E1) as (Hk1 & Hp1 & Hi1). destruct (IH _ _ E) as (Hk & Hp & Hi).
    split; [eapply kept_trans; [|done]; by destruct Hk1|]. split; [rewrite Hp, Hp1; cbn; lia|].
    intros t. rewrite Hi, Hi1, <-app_assoc. by rewrite (k_root _ _ Hk1).
Qed.

Lemma handle_observations_inbox h os : forall p p', handle_observations h p os = Done p' -> kept p p' /\ played p' = played p /\ forall t, inbox p' t = inbox p t.
Proof.
  induction os as [|o os IH]; intros p p' E; cbn [handle_observations] in E; [by injection E as <-|].
  apply bind_done in E as (p1 & E1 & E). destruct (send_file_inbox _ _ _ _ E1) as (Hk1 & Hp1 & Hi1). destruct (IH _ _ E) as (Hk & Hp & Hi).
  split; [by eapply kept_trans|]. split; [congruence|]. intros t. rewrite Hi, Hi1. cbn. by destruct (decide (t = _)); rewrite app_nil_r.
Qed.

(** What changes only the queue of the materializer and what it is waiting for. *)
Definition aside (p p' : Proc) : Prop :=
  kept p p' /\ played p' = played p /\ to_files p' = to_files p /\ p_ids p' = p_ids p.

Lemma aside_trans p1 p2 p3 : aside p1 p2 -> aside p2 p3 -> aside p1 p3.
Proof. intros (H1 & H2 & H3 & H4) (H5 & H6 & H7 & H8). split; [by eapply kept_trans|]. split_and!; congruence. Qed.

Lemma drain_message_aside p msg : aside p (drain_message p msg).1.
Proof. destruct msg; cbn; try done; by destruct (_ !! _). Qed.

Lemma drain_loop_aside msgs : forall p, aside p (drain_loop p msgs).
Proof.
  induction msgs as [|msg msgs IH]; intros p; [done|]. cbn. pose proof (drain_message_aside p msg) as Hd. destruct (drain_message p msg) as [p1 []]; cbn in Hd.
  - by eapply aside_trans.
  - by eapply aside_trans.
Qed.

Lemma turn_located k p log n p' : materializer_turn (hash k) p log n = Done p' ->
  kept p p' /\ (played p <= length (chain log (color p)) -> played p' <= length (chain log (color p)))%nat /\ forall t, located k p' log t = located k p log t.
Proof.
  intros E. assert (E' : exists p1, aside p p1 /\
    (p ← play_log (hash k) p1 (take n (drop (played p1) (chain log (color p1)))); handle_observations (hash k) p (waiting_observations p)) = Done p').
  { assert (Hgo : forall p0 first, aside p p0 -> aside p (drain_pending_ops p0 first)).
    { intros p0 first Ha. unfold drain_pending_ops. destruct first as [msg|]; eapply aside_trans; try done; [|by apply drain_loop_aside].
      eapply aside_trans; [apply (drain_message_aside p0 msg)|apply drain_loop_aside]. }
    unfold materializer_turn, handle_ops in E. destruct (from_client p) as [|msg q]; eexists; (split; [|exact E]); by apply Hgo. }
  destruct E' as (p1 & (Hk1 & Hp1 & Hf1 & _) & E2). apply bind_done in E2 as (p2 & E2 & E3).
  destruct (play_log_inbox _ _ _ _ E2) as (Hk2 & Hp2 & Hi2). destruct (handle_observations_inbox _ _ _ _ E3) as (Hk3 & Hp3 & Hi3).
  assert (Hk : kept p p') by (eapply kept_trans; [done|by eapply kept_trans]). split; [done|].
  rewrite (k_color _ _ Hk1), Hp1 in Hp2, Hi2. rewrite length_take, length_drop in Hp2. split; [rewrite Hp3, Hp2; lia|].
  intros t. unfold located, coming. rewrite Hi3, Hi2. unfold inbox at 1. rewrite Hf1. change (omap op_item (default [] (to_files p !! t))) with (inbox p t).
  rewrite (k_root _ _ Hk1), (k_root _ _ Hk), (k_color _ _ Hk), <-app_assoc. f_equal. rewrite <-bind_app. f_equal.
  set (X := drop (played p) (chain log (color p))). assert (HX : drop (played p') (chain log (color p)) = drop (length (take n X)) X).
  { unfold X. rewrite drop_drop, length_take, length_drop. f_equal. rewrite Hp3, Hp2. lia. }
  rewrite HX. rewrite length_take. destruct (decide (n <= length X)%nat); [rewrite Nat.min_l by done; by rewrite take_drop|].
  rewrite Nat.min_r by lia. rewrite take_ge, drop_all by lia. by rewrite app_nil_r.
Qed.

(** ** What the threads send *)

(** [log'] is [log] with messages [ms] added: only those, and all of them to the chains of [cs]. *)
Definition sent_to (ms : list Mutation) (cs : list Z) (log log' : Log) : Prop := forall c, exists es, chain log' c = chain log c ++ es /\
  (forall e, e ∈ es -> exists m, m ∈ ms /\ bytes e = serialize m) /\
  (c ∈ cs -> forall m, m ∈ ms -> exists e, e ∈ es /\ bytes e = serialize m).

Lemma sent_nothing cs log : sent_to [] cs log log.
Proof. intros c. exists []. rewrite app_nil_r. split; [done|]. split; [by intros e ?%elem_of_nil|by intros _ m ?%elem_of_nil]. Qed.

Lemma sent_trans ms ms' cs log1 log2 log3 : sent_to ms cs log1 log2 -> sent_to ms' cs log2 log3 -> sent_to (ms ++ ms') cs log1 log3.
Proof.
  intros H1 H2 c. destruct (H1 c) as (es & E1 & S1 & T1), (H2 c) as (es' & E2 & S2 & T2). exists (es ++ es'). split; [by rewrite E2, E1, app_assoc|]. split.
  - intros e Hin. apply elem_of_app in Hin as [Hin|Hin]; [destruct (S1 e Hin) as (m & ? & ?)|destruct (S2 e Hin) as (m & ? & ?)]; exists m; (split; [|done]);
      apply elem_of_app; auto.
  - intros Hc m Hm. apply elem_of_app in Hm as [Hm|Hm]; [destruct (T1 Hc m Hm) as (e & ? & ?)|destruct (T2 Hc m Hm) as (e & ? & ?)]; exists e; (split; [|done]);
      apply elem_of_app; auto.
Qed.

Lemma sent_one m c log : sent_to [m] [c] log (async_append log c (serialize m)).
Proof.
  intros c'. destruct (chain_append log [c] (serialize m) (NoDup_singleton c)) as (e & Hb & _ & Hc). eexists. split; [apply Hc|]. split.
  - intros e' Hin. exists m. split; [by apply list_elem_of_singleton|]. destruct (decide (c' ∈ [c])); [by apply list_elem_of_singleton in Hin as ->|by apply elem_of_nil in Hin].
  - intros Hin m' ->%list_elem_of_singleton. exists e. split; [|done]. rewrite decide_True by done. by apply list_elem_of_singleton.
Qed.

Lemma sent_fold m ls : forall log, sent_to [m] (oi_order <$> ls) log (foldl (fun log l => async_append log (oi_order l) (serialize m)) log ls) \/ ls = [].
Proof.
  induction ls as [|l ls IH]; intros log; [by right|left]. cbn [foldl fmap list_fmap]. pose proof (sent_one m (oi_order l) log) as H1.
  destruct (IH (async_append log (oi_order l) (serialize m))) as [H2| ->]; [|done].
  intros c. destruct (H1 c) as (es & E1 & S1 & T1), (H2 c) as (es' & E2 & S2 & T2). exists (es ++ es'). split; [by rewrite E2, E1, app_assoc|]. split.
  - intros e Hin. apply elem_of_app in Hin as [Hin|Hin]; auto.
  - intros Hc m' Hm. apply elem_of_cons in Hc as [->|Hc].
    + destruct (T1 ltac:(by apply list_elem_of_singleton) m' Hm) as (e & ? & ?). exists e. split; [apply elem_of_app; by left|done].
    + destruct (T2 Hc m' Hm) as (e & ? & ?). exists e. split; [apply elem_of_app; by right|done].
Qed.

Lemma send_part2_log ls log p m p' log' : send_part2 ls log p m = Done (p', log') -> aside p p' /\ sent_to [m] (oi_order <$> ls) log log'.
Proof.
  unfold send_part2. intros E. apply bind_done in E as (log1 & E1 & E). injection E as <- <-. split; [done|]. case_bool_decide as Hl.
  - apply bind_done in E1 as (_ & _ & E1). injection E1 as <-. destruct (sent_fold m ls log) as [?| ->]; [done|cbn in Hl; lia].
  - apply bind_done in E1 as (l & El%unwrap_done & E1). injection E1 as <-. destruct ls as [|l0 [|]]; cbn in Hl; [done| |lia]. injection El as ->. apply sent_one.
Qed.

Lemma on_calls_log ls cb cs : forall p log p' log', on_calls ls cb p log cs = Done (p', log') -> aside p p' /\ sent_to (emitted cs) (oi_order <$> ls) log log'.
Proof.
  induction cs as [|c cs IH]; intros p log p' log' E; cbn [on_calls] in E.
  - injection E as <- <-. split; [done|]. apply sent_nothing.
  - apply bind_done in E as ([p1 log1] & E1 & E). destruct (IH _ _ _ _ E) as [Ha Hs].
    assert (H1 : aside p p1 /\ sent_to (emitted_by c) (oi_order <$> ls) log log1).
    { destruct c as [id res m0 m1|id res]; cbn [on_call] in E1; [|injection E1 as <- <-; split; [done|apply sent_nothing]].
      apply bind_done in E1 as ([p2 log2] & E2 & E1). apply bind_done in E1 as ([p3 log3] & E3 & E1). apply bind_done in E1 as (_ & _ & E1).
      assert (H2 : aside p p2 /\ sent_to (option_list m0) (oi_order <$> ls) log log2).
      { destruct m0; [by eapply send_part2_log|]. injection E2 as <- <-. split; [done|]. apply sent_nothing. }
      assert (H3 : aside p2 p3 /\ sent_to (option_list m1) (oi_order <$> ls) log2 log3).
      { destruct m1; [by eapply send_part2_log|]. injection E3 as <- <-. split; [done|]. apply sent_nothing. }
      assert (H4 : aside p3 p1 /\ log1 = log3).
      { destruct (negb _); [by injection E1 as <- <-|]. destruct cb; by injection E1 as <- <-. }
      destruct H2 as [A2 S2], H3 as [A3 S3], H4 as [A4 ->]. split; [by eapply aside_trans; [eapply aside_trans|]|]. by eapply sent_trans. }
    destruct H1 as [A1 S1]. split; [by eapply aside_trans|]. change (emitted (c :: cs)) with (emitted_by c ++ emitted cs). by eapply sent_trans.
Qed.

(** ** The invariant *)

(** A request for a rename comes with the chains of the parts its files are in. *)
Definition locs_ok (x : Located) : Prop :=
  match x.1.1 with
  | RenamePart1 _ o n _ => forall k pt sd, parts !! k = Some pt -> starts_with (path_of sd (o, n)) (pt_root pt) = true -> pt_color pt ∈ oi_order <$> x.2
  | _ => True
  end.

Record PInv (G : Ghost) (E : list (Id * Side)) (log : Log) (k : nat) (p : Proc) (pt : Part) : Prop := {
  pi_color : color p = pt_color pt;
  pi_root : p_root p = pt_root pt;
  pi_roots : p_roots p = roots_of parts;
  pi_client : CLIENT_ID (p_ids p) = pt_client pt;
  pi_len : length (threads p) = num_file_threads /\ length (to_files p) = num_file_threads;
  pi_played : (played p <= length (chain log (color p)))%nat;
  pi_thread : forall t fs, threads p !! t = Some fs -> my_root fs = pt_root pt /\ TInv (own k t) G E (hview fs) (queue k p log t);
  pi_locs : forall t x, x ∈ located k p log t -> locs_ok x;
}.

Lemma own_root k t pt : parts !! k = Some pt -> forall path, own k t (key path) = true -> starts_with path (pt_root pt) = true.
Proof. intros Hk path. rewrite (own_starts k t pt) by done. by intros [? _]%andb_true_iff. Qed.

Lemma located_grow k p log log' es t : (played p <= length (chain log (color p)))%nat -> chain log' (color p) = chain log (color p) ++ es ->
  located k p log' t = located k p log t ++ (es ≫= dispatch (p_root p) (hash k) t).
Proof.
  intros Hp Hc. unfold located, coming. rewrite Hc, drop_app_le by done. by rewrite bind_app, app_assoc.
Qed.

(** A message about a rename that is known. *)
Definition told_of (G : Ghost) (m : Mutation) : Prop :=
  match vote_of m with Some (i, s, v, on) => ren G !! i = Some on /\ votes G !! (i, s) = Some v | None => asks_rename m = None end.

Lemma vote_path2 m i s v on : vote_of m = Some (i, s, v, on) -> path2 m = Some on.2 /\ mut_path m = on.1.
Proof. destruct m; try done; cbn; by intros [= <- <- <- <-]. Qed.

Lemma told_item G k t pt m w : parts !! k = Some pt -> told_of G m -> for_thread (pt_root pt) (hash k) t m = Some w -> item_ok (own k t) G (m, w).
Proof.
  intros Hk Ht Hw. unfold told_of in Ht. unfold item_ok. cbn [fst snd]. destruct (vote_of m) as [[[[i s] v] on]|] eqn:Hm.
  - destruct (vote_path2 _ _ _ _ _ Hm) as [Hp Ho]. destruct Ht as [Hr Hv]. pose proof (for_thread_covers k t pt m _ w Hk Hp Hw) as Hc. rewrite Ho in Hc.
    destruct m; try done; cbn in Hm; injection Hm as <- <- <- <-; by split_and!.
  - by destruct m.
Qed.

Lemma dispatch_serialized root h t e m : bytes e = serialize m ->
  dispatch root h t e = match for_thread root h t m with Some w => [((m, w), locs e)] | None => [] end.
Proof. intros Hb. unfold dispatch. by rewrite Hb, deserialize_serialize. Qed.

(** What was sent comes to the threads of a process. *)
Lemma deliver_proc G E log log' es k p pt : PInv G E log k p pt -> parts !! k = Some pt -> chain log' (color p) = chain log (color p) ++ es ->
  (forall e, e ∈ es -> exists m, told_of G m /\ bytes e = serialize m) ->
  (forall i s on x, (i, s) ∈ E -> ren G !! i = Some on -> starts_with (path_of x on) (pt_root pt) = true ->
     i ∈ waited G \/ exists e m v, e ∈ es /\ bytes e = serialize m /\ vote_of m = Some (i, s, v, on)) ->
  PInv G [] log' k p pt.
Proof.
  intros HP Hk Hc Hes HE. pose proof (fun t => located_grow k p log log' es t (pi_played _ _ _ _ _ _ HP) Hc) as Hl.
  assert (Hq : forall t, queue k p log' t = queue k p log t ++ (es ≫= dispatch (p_root p) (hash k) t).*1).
  { intros t. unfold queue. by rewrite Hl, fmap_app. }
  assert (Hin : forall t x, x ∈ (es ≫= dispatch (p_root p) (hash k) t) <-> exists e m w, e ∈ es /\ bytes e = serialize m /\
    for_thread (pt_root pt) (hash k) t m = Some w /\ x = ((m, w), locs e)).
  { intros t x. rewrite list_elem_of_bind. split.
    - intros (e & Hx & He). destruct (Hes e He) as (m & _ & Hb). rewrite (dispatch_serialized _ _ _ _ _ Hb), (pi_root _ _ _ _ _ _ HP) in Hx.
      destruct (for_thread _ _ _ m) as [w|] eqn:Ew; [|by apply elem_of_nil in Hx]. apply list_elem_of_singleton in Hx as ->. by exists e, m, w.
    - intros (e & m & w & He & Hb & Hw & ->). exists e. split; [|done]. rewrite (dispatch_serialized _ _ _ _ _ Hb), (pi_root _ _ _ _ _ _ HP), Hw.
      by apply list_elem_of_singleton. }
  assert (Htold : forall e m, e ∈ es -> bytes e = serialize m -> told_of G m).
  { intros e m He Hb. destruct (Hes e He) as (m' & Ht & Hb'). rewrite Hb in Hb'. apply (f_equal deserialize) in Hb'. rewrite !deserialize_serialize in Hb'.
    by injection Hb' as ->. }
  constructor; try apply HP.
  - rewrite Hc, length_app. pose proof (pi_played _ _ _ _ _ _ HP). lia.
  - intros t fs Hfs. destruct (pi_thread _ _ _ _ _ _ HP t fs Hfs) as [Hr HT]. split; [done|]. rewrite Hq.
    assert (Hsent : forall i s on x, (i, s) ∈ E -> ren G !! i = Some on -> mine (own k t) x on = true ->
      (exists y, y ∈ queue k p log t ++ (es ≫= dispatch (p_root p) (hash k) t).*1 /\ says i s y) \/ i ∈ waited G \/ (i, s) ∈ ([] : list (Id * Side))).
    { intros i s on x Hi Hren Mx. pose proof (own_root k t pt Hk _ Mx) as Hst.
      destruct (HE i s on x Hi Hren Hst) as [?|(e & m & v & He & Hb & Hm)]; [by auto|]. left.
      destruct (vote_path2 _ _ _ _ _ Hm) as [Hp Ho]. destruct (for_thread (pt_root pt) (hash k) t m) as [w|] eqn:Ew.
      - exists (m, w). split; [|by exists v, on]. apply elem_of_app. right. apply list_elem_of_fmap. exists ((m, w), locs e). split; [done|]. apply Hin. by exists e, m, w.
      - pose proof (for_thread_none k t pt m _ Hk Hp Ew x) as Hno. rewrite Ho, <-surjective_pairing in Hno. congruence. }
    eapply delivered; [done| | | |].
    + apply Forall_forall. intros x Hx. apply list_elem_of_fmap in Hx as (y & -> & Hy). apply Hin in Hy as (e & m & w & He & Hb & Hw & ->).
      eapply told_item; [done| |done]. by eapply Htold.
    + apply elem_of_nil_inv. intros i (o & n & c & w & Hx)%elem_of_asked. apply list_elem_of_fmap in Hx as (y & Hy' & Hy).
      apply Hin in Hy as (e & m & w' & He & Hb & Hw & ->). cbn in Hy'. injection Hy' as <- <-. by pose proof (Htold _ _ He Hb) as Ht.
    + intros kk r d s Hkk Hi. pose proof (ti_held _ _ _ _ _ HT _ _ _ Hkk) as Hh. destruct (ho_side _ _ _ _ _ Hh) as [x Hx].
      eapply (Hsent _ _ (r_paths r) x); [done|apply Hh|]. unfold mine. rewrite <-Hx. apply Hh.
    + intros i s Hi HiE. apply elem_of_asked in Hi as (o & n & c & w & Hin').
      pose proof (proj1 (Forall_forall _ _) (ti_queue _ _ _ _ _ HT) _ Hin') as (_ & Hren & Hcov). cbn in Hcov.
      assert (exists x, mine (own k t) x (o, n) = true) as [x Mx] by (destruct w; [exists SOld|exists SNew|exists SOld]; by rewrite <-Hcov).
      by eapply (Hsent _ _ (o, n) x).
  - intros t x. rewrite Hl, elem_of_app. intros [Hx|Hx]; [by eapply pi_locs|]. apply Hin in Hx as (e & m & w & He & Hb & Hw & ->).
    pose proof (Htold e m He Hb) as Ht. unfold told_of in Ht. unfold locs_ok. cbn. by destruct m.
Qed.

(** *** A rename is asked for *)

Lemma rename_proc G log log' es k p pt i o n : PInv G [] log k p pt -> parts !! k = Some pt -> chain log' (color p) = chain log (color p) ++ es ->
  ren G !! i = None -> (forall s, votes G !! (i, s) = None) -> (forall s, (i, s) ∉ (ends G).*1) ->
  (es = [] /\ forall x, starts_with (path_of x (o, n)) (pt_root pt) = false) \/
  (exists e, es = [e] /\ bytes e = serialize (RenamePart1 i o n true) /\
     forall k' pt' sd, parts !! k' = Some pt' -> starts_with (path_of sd (o, n)) (pt_root pt') = true -> pt_color pt' ∈ oi_order <$> locs e) ->
  PInv (with_ren i (o, n) G) [] log' k p pt.
Proof.
  intros HP Hk Hc Hr Hv He Hes. pose proof (fun t => located_grow k p log log' es t (pi_played _ _ _ _ _ _ HP) Hc) as Hl.
  set (X := fun t => es ≫= dispatch (p_root p) (hash k) t).
  assert (HX : forall t, (forall x, mine (own k t) x (o, n) = false) /\ X t = [] \/
    exists e w, X t = [((RenamePart1 i o n true, w), locs e)] /\ (forall x, covers x w = mine (own k t) x (o, n)) /\
      forall k' pt' sd, parts !! k' = Some pt' -> starts_with (path_of sd (o, n)) (pt_root pt') = true -> pt_color pt' ∈ oi_order <$> locs e).
  { intros t. unfold X. destruct Hes as [[-> Hno]|(e & -> & Hb & Hlocs)].
    - left. split; [|done]. intros x. destruct (mine (own k t) x (o, n)) eqn:Mx; [|done]. pose proof (own_root k t pt Hk _ Mx) as Hst. by rewrite Hno in Hst.
    - cbn [mbind list_bind]. rewrite app_nil_r, (dispatch_serialized _ _ _ _ _ Hb), (pi_root _ _ _ _ _ _ HP).
      destruct (for_thread _ _ _ _) as [w|] eqn:Ew; [right; exists e, w; split; [done|]; split; [|done]|left; split; [|done]].
      + by eapply (for_thread_covers k t pt (RenamePart1 i o n true) n).
      + by eapply (for_thread_none k t pt (RenamePart1 i o n true) n). }
  constructor; try apply HP.
  - rewrite Hc, length_app. pose proof (pi_played _ _ _ _ _ _ HP). lia.
  - intros t fs Hfs. destruct (pi_thread _ _ _ _ _ _ HP t fs Hfs) as [Hroot HT]. split; [done|]. unfold queue. rewrite Hl, fmap_app. fold (X t).
    destruct (HX t) as [[Hno ->]|(e & w & -> & Hcov & _)].
    + apply (new_rename _ _ _ _ _ _ _ []); [done|done|done|constructor| |by left|done]. intros [x Mx]. by rewrite Hno in Mx.
    + apply (new_rename _ _ _ _ _ _ _ [(RenamePart1 i o n true, w)]); [done|done|done| |done|by right|done]. constructor; [|constructor].
      split; [done|]. split; [|done]. cbn. by rewrite lookup_insert_eq.
  - intros t x. rewrite Hl, elem_of_app. fold (X t). intros [Hx|Hx]; [by eapply pi_locs|].
    destruct (HX t) as [[_ EX]|(e & w & EX & _ & Hlocs)]; rewrite EX in Hx; [by apply elem_of_nil in Hx|]. apply list_elem_of_singleton in Hx as ->. exact Hlocs.
Qed.

Hypothesis parts_good : parts_ok parts.

Lemma part_key k pt : parts !! k = Some pt -> key (pt_root pt) = [RootDir; Normal (pt_name pt)].
Proof. intros Hk. destruct parts_good as (_ & _ & _ & Hf). eapply Forall_lookup in Hf; [|done]. done. Qed.

Lemma roots_lookup k pt : parts !! k = Some pt -> roots_of parts !! pt_name pt = Some (pt_color pt).
Proof.
  intros Hk. destruct parts_good as (Hn & _ & _ & _). unfold roots_of. apply elem_of_list_to_map.
  - by rewrite <-list_fmap_compose.
  - apply list_elem_of_fmap. exists pt. split; [done|]. by eapply list_elem_of_lookup_2.
Qed.

Lemma same_part k k' pt pt' path : parts !! k = Some pt -> parts !! k' = Some pt' ->
  starts_with path (pt_root pt) = true -> starts_with path (pt_root pt') = true -> k = k'.
Proof.
  unfold starts_with. rewrite !bool_decide_eq_true. intros Hk Hk'. rewrite (part_key _ _ Hk), (part_key _ _ Hk'). intros [x Hx] [x' Hx']. rewrite Hx in Hx'.
  injection Hx' as Hn _. destruct parts_good as (Hnd & _). eapply (NoDup_lookup (pt_name <$> parts)); [done|by rewrite list_lookup_fmap, Hk|].
  rewrite list_lookup_fmap, Hk'. cbn. by rewrite Hn.
Qed.

Definition chains_of (c : Z) (other : option Z) : list Z :=
  match other with None => [c] | Some c' => if c =? c' then [c] else [Z.min c c'; Z.max c c'] end.

Lemma chains_nodup c other : NoDup (chains_of c other).
Proof.
  destruct other as [c'|]; cbn; [|apply NoDup_singleton]. destruct (Z.eqb_spec c c'); [apply NoDup_singleton|].
  apply NoDup_cons. split; [|apply NoDup_singleton]. rewrite list_elem_of_singleton. lia.
Qed.

Lemma chains_elem c other x : x ∈ chains_of c other <-> x = c \/ other = Some x.
Proof.
  destruct other as [c'|]; cbn; [|rewrite list_elem_of_singleton; naive_solver]. destruct (Z.eqb_spec c c') as [->|].
  - rewrite list_elem_of_singleton. naive_solver.
  - rewrite elem_of_cons, list_elem_of_singleton. split; [intros [->| ->]|intros [->|[= ->]]]; [destruct (Z.min_spec c c') as [[_ ->]|[_ ->]]; auto| |lia|lia].
    destruct (Z.max_spec c c') as [[_ ->]|[_ ->]]; auto.
Qed.

(** A rename goes to the chains of the parts its files are in. *)
Lemma rename_chains p k pt o n other k' pt' sd : parts !! k = Some pt -> p_root p = pt_root pt -> p_roots p = roots_of parts -> color p = pt_color pt ->
  rename_other p o n = Done other -> parts !! k' = Some pt' -> starts_with (path_of sd (o, n)) (pt_root pt') = true -> pt_color pt' ∈ chains_of (color p) other.
Proof.
  intros Hk Hr Hrs Hc E Hk' Hst. rewrite chains_elem. destruct (decide (k' = k)) as [->|Hne]; [left; congruence|]. right.
  assert (Hnot : starts_with (path_of sd (o, n)) (p_root p) = false).
  { rewrite Hr. destruct (starts_with (path_of sd (o, n)) (pt_root pt)) eqn:E1; [|done]. destruct Hne. symmetry. by eapply (same_part k k' pt pt'). }
  assert (Hroot : root_of p (path_of sd (o, n)) = Done (pt_color pt')).
  { unfold root_of. unfold starts_with in Hst. apply bool_decide_eq_true in Hst. rewrite (part_key _ _ Hk') in Hst. destruct Hst as [x Hx]. rewrite Hx. cbn.
    by rewrite Hrs, (roots_lookup _ _ Hk'). }
  unfold rename_other in E. cbv zeta in E. destruct sd; cbn [path_of fst snd] in Hnot, Hroot.
  - rewrite Hnot in E. cbn [negb] in E. apply bind_done in E as (_ & _ & E). rewrite Hroot in E. by injection E as <-.
  - rewrite Hnot in E. destruct (starts_with o (p_root p)); cbn [negb] in E; [|by apply bind_done in E as (? & ?%assert_done & _)].
    rewrite Hroot in E. by injection E as <-.
Qed.

(** *** A thread works *)

Lemma own_unique k t k' t' path : own k t (key path) = true -> own k' t' (key path) = true -> k = k' /\ t = t'.
Proof.
  intros H1 H2. destruct (parts !! k) as [pt|] eqn:Hk; [|unfold own in H1; by rewrite Hk in H1]. destruct (parts !! k') as [pt'|] eqn:Hk'; [|unfold own in H2; by rewrite Hk' in H2].
  rewrite (own_starts k t pt) in H1 by done. rewrite (own_starts k' t' pt') in H2 by done. apply andb_true_iff in H1 as [S1 T1]. apply andb_true_iff in H2 as [S2 T2].
  assert (k = k') as <- by (by eapply same_part). apply bool_decide_eq_true in T1, T2. split; congruence.
Qed.

Section Works.
Context (G : Ghost) (k t : nat) (G' : Ghost) (E' : list (Id * Side)) (X : list (Id * Side * Vote)) (ms : list Mutation).
Hypothesis spoke : Spoke (own k t) (add_ends X G) [] G' E' ms.
Hypothesis ended_here : forall j x ve, (j, x, ve) ∈ X -> exists on, ren G !! j = Some on /\ mine (own k t) x on = true.

Lemma works_extends : extends G G'.
Proof. exact (ghost_trans _ _ _ (extends_ends X G) (sp_extends _ _ _ _ _ _ spoke)). Qed.

Lemma works_elsewhere k' t' H L : (k', t') <> (k, t) -> TInv (own k' t') G [] H L -> TInv (own k' t') G' E' H L.
Proof.
  intros Hne HT. assert (Hsep : forall x on, mine (own k t) x on = true -> mine (own k' t') x on = true -> False).
  { intros x on H1 H2. destruct (own_unique _ _ _ _ _ H1 H2) as [-> ->]. done. }
  eapply elsewhere; [done|apply works_extends|apply (sp_ren _ _ _ _ _ _ spoke)|by intros x ?%elem_of_nil| | |].
  - intros i on s Hr Hs. destruct (votes G !! (i, s)) as [v|] eqn:Ev; [by apply (ex_votes _ _ works_extends)|].
    destruct (votes G' !! (i, s)) as [v|] eqn:Ev'; [|done]. exfalso. destruct (sp_new _ _ _ _ _ _ spoke i s) as [[v' Hv']|(_ & on' & Hr' & Hm)]; [by eexists| |].
    + cbn in Hv'. congruence.
    + cbn in Hr'. rewrite Hr in Hr'. injection Hr' as <-. by eapply Hsep.
  - intros i s Hv. destruct (sp_new _ _ _ _ _ _ spoke i s Hv) as [?|[? _]]; [by left|by right].
  - intros i on s Hin Hr Hs. rewrite (sp_ends _ _ _ _ _ _ spoke) in Hin. cbn in Hin. rewrite fmap_app, elem_of_app in Hin. destruct Hin as [?|Hin]; [done|]. exfalso.
    apply list_elem_of_fmap in Hin as ([[j x] ve] & [= -> ->] & Hin). destruct (ended_here _ _ _ Hin) as (on' & Hr' & Hm). rewrite Hr in Hr'. injection Hr' as <-.
    by eapply Hsep.
Qed.

Lemma works_other k' p pt log : k' <> k -> PInv G [] log k' p pt -> PInv G' E' log k' p pt.
Proof.
  intros Hne HP. constructor; try apply HP. intros t' fs Hfs. destruct (pi_thread _ _ _ _ _ _ HP t' fs Hfs) as [Hr HT]. split; [done|].
  apply works_elsewhere; [congruence|done].
Qed.

(** The process whose thread it is, before what it sent has arrived. *)
Lemma works_here p pt log fs' ids q m ls cb w fs : PInv G [] log k p pt -> threads p !! t = Some fs -> to_files p !! t = Some (OpMut m ls cb w :: q) ->
  my_root fs' = pt_root pt -> CLIENT_ID ids = CLIENT_ID (p_ids p) ->
  (forall L, queue k p log t = (m, w) :: L -> TInv (own k t) G' E' (hview fs') L) ->
  PInv G' E' log k (with_ids ids (with_threads (<[t := fs']> (threads p)) (with_to_files (<[t := q]> (to_files p)) p))) pt.
Proof.
  intros HP Hfs Hq Hr Hi HT'. set (p1 := with_ids _ _).
  assert (Hlt : (t < length (to_files p))%nat) by (by eapply lookup_lt_Some).
  assert (Hl : forall t', t' <> t -> located k p1 log t' = located k p log t').
  { intros t' Hne. unfold located, inbox. cbn. by rewrite list_lookup_insert_ne by done. }
  assert (Hlt' : located k p log t = ((m, w), ls) :: located k p1 log t).
  { unfold located, inbox. cbn. rewrite Hq, list_lookup_insert_eq by done. done. }
  constructor; try apply HP.
  - cbn. rewrite Hi. apply HP.
  - cbn. rewrite !length_insert. apply HP.
  - intros t' fs1 Hfs1. cbn in Hfs1. destruct (decide (t' = t)) as [->|Hne].
    + rewrite list_lookup_insert_eq in Hfs1 by (by eapply lookup_lt_Some). injection Hfs1 as <-. split; [done|]. apply HT'.
      unfold queue. by rewrite Hlt'.
    + rewrite list_lookup_insert_ne in Hfs1 by done. destruct (pi_thread _ _ _ _ _ _ HP t' fs1 Hfs1) as [Hr1 HT1]. split; [done|].
      apply works_elsewhere; [congruence|]. unfold queue. by rewrite Hl by done.
  - intros t' x Hx. destruct (decide (t' = t)) as [->|Hne].
    + apply (pi_locs _ _ _ _ _ _ HP t). rewrite Hlt'. by apply elem_of_cons; right.
    + apply (pi_locs _ _ _ _ _ _ HP t'). by rewrite <-Hl.
Qed.
End Works.

(** ** Every run *)

Record GInv (G : Ghost) (s : Sys) (h : History) : Prop := {
  gi_ren : ren G = renames h;
  gi_waited : waited G = had_to_wait h;
  gi_ends : ends G = verdicts h;
  gi_len : length (procs s) = length parts;
  gi_procs : forall k p pt, procs s !! k = Some p -> parts !! k = Some pt -> PInv G [] (the_log s) k p pt;
  gi_votes : forall i s, is_Some (votes G !! (i, s)) -> is_Some (ren G !! i);
  gi_ended : forall i x ve, (i, x, ve) ∈ ends G -> is_Some (ren G !! i) /\
    exists vo vn, votes G !! (i, SOld) = Some vo /\ votes G !! (i, SNew) = Some vn /\ ve = verdict vo vn;
  gi_once : NoDup (ends G).*1;
  gi_ids : forall i, is_Some (ren G !! i) -> exists k p, procs s !! k = Some p /\ client i = CLIENT_ID (p_ids p) /\ count i < COUNTER (p_ids p);
}.

Lemma proc_part G s h k p : GInv G s h -> procs s !! k = Some p -> exists pt, parts !! k = Some pt /\ PInv G [] (the_log s) k p pt.
Proof.
  intros HG Hp. assert (is_Some (parts !! k)) as [pt Hk] by (apply lookup_lt_is_Some; rewrite <-(gi_len _ _ _ HG); by eapply lookup_lt_Some).
  exists pt. split; [done|]. by eapply gi_procs.
Qed.

(** Identifiers stay below the counters. *)
Lemma ids_stay G s h k p p' log' : GInv G s h -> procs s !! k = Some p -> counters_grow s (mkSys log' (<[k := p']> (procs s))) ->
  CLIENT_ID (p_ids p') = CLIENT_ID (p_ids p) ->
  forall i, is_Some (ren G !! i) -> exists k1 p1, <[k := p']> (procs s) !! k1 = Some p1 /\ client i = CLIENT_ID (p_ids p1) /\ count i < COUNTER (p_ids p1).
Proof.
  intros HG Hp Hcnt Hcl i Hi. destruct (gi_ids _ _ _ HG i Hi) as (k1 & p1 & Hp1 & Hc & Hlt). destruct (decide (k1 = k)) as [->|Hne].
  - rewrite Hp in Hp1. injection Hp1 as <-. assert (Hp' : <[k := p']> (procs s) !! k = Some p') by (apply list_lookup_insert_eq; by eapply lookup_lt_Some).
    exists k, p'. split; [done|]. split; [congruence|]. pose proof (Hcnt k p p' Hp Hp'). lia.
  - exists k1, p1. by rewrite list_lookup_insert_ne by done.
Qed.

Lemma pinv_same G E log k p p' pt : PInv G E log k p pt -> kept p p' -> (played p' <= length (chain log (color p)))%nat ->
  (forall t, located k p' log t = located k p log t) -> PInv G E log k p' pt.
Proof.
  intros HP [K1 K2 K3 K4 K5 K6] Hp Hl. destruct HP as [P1 P2 P3 P4 P5 P6 P7 P8]. constructor; rewrite ?K1, ?K2, ?K3, ?K4, ?K5, ?K6; try done.
  - intros t fs Hfs. unfold queue. rewrite Hl. by apply P7.
  - intros t x. rewrite Hl. by apply P8.
Qed.

Lemma pinv_kept G E log k p p' pt : PInv G E log k p pt -> kept p p' -> played p' = played p -> to_files p' = to_files p -> PInv G E log k p' pt.
Proof.
  intros HP Hk Hp Hf. eapply pinv_same; [done|done|rewrite Hp; apply HP|]. intros t. unfold located, inbox, coming.
  by rewrite Hf, Hp, (k_color _ _ Hk), (k_root _ _ Hk).
Qed.

(** Steps that say nothing about a rename. *)
Lemma quiet_step G s h k p p' log' : GInv G s h -> procs s !! k = Some p -> counters_grow s (mkSys log' (<[k := p']> (procs s))) ->
  CLIENT_ID (p_ids p') = CLIENT_ID (p_ids p) -> (forall pt, parts !! k = Some pt -> PInv G [] log' k p' pt) ->
  (forall k' q pt, procs s !! k' = Some q -> parts !! k' = Some pt -> PInv G [] log' k' q pt) ->
  GInv G (mkSys log' (<[k := p']> (procs s))) h.
Proof.
  intros HG Hp Hcnt Hcl Hk Hother. assert (Hlt : (k < length (procs s))%nat) by (by eapply lookup_lt_Some). constructor; try apply HG.
  - cbn. rewrite length_insert. apply HG.
  - cbn. intros k' q pt Hq Hpt. destruct (decide (k' = k)) as [->|Hne].
    + rewrite list_lookup_insert_eq in Hq by done. injection Hq as <-. by apply Hk.
    + rewrite list_lookup_insert_ne in Hq by done. by eapply Hother.
  - by eapply ids_stay.
Qed.

Lemma plain_append G log cs m k p pt : PInv G [] log k p pt -> parts !! k = Some pt -> told_of G m -> NoDup cs ->
  PInv G [] (append log cs (serialize m)) k p pt.
Proof.
  intros HP Hk Ht Hnd. destruct (chain_append log cs (serialize m) Hnd) as (e & Hb & _ & Hc). eapply deliver_proc; [done|done|apply Hc| |].
  - intros e' He. exists m. split; [done|]. by case_decide; [apply list_elem_of_singleton in He as ->|apply elem_of_nil in He].
  - by intros i s on x ?%elem_of_nil.
Qed.

(** *** A request *)

Lemma plain_request G s h k p ids m cb id : GInv G s h -> procs s !! k = Some p -> CLIENT_ID ids = CLIENT_ID (p_ids p) -> told_of G m ->
  let '(p', log') := send_msg (with_ids ids p) (the_log s) id m cb in
  counters_grow s (mkSys log' (<[k := p']> (procs s))) -> GInv G (mkSys log' (<[k := p']> (procs s))) h.
Proof.
  intros HG Hp Hi Ht. unfold send_msg, async_append. intros Hcnt. eapply quiet_step; [done|done|done|done| |].
  - intros pt Hk. apply (pinv_kept _ _ _ _ p); [|done|done|done]. apply plain_append; [by eapply gi_procs|done|done|apply NoDup_singleton].
  - intros k' q pt Hq Hk. apply plain_append; [by eapply gi_procs|done|done|apply NoDup_singleton].
Qed.

Lemma fresh_id G s h k p : GInv G s h -> procs s !! k = Some p -> ren G !! mkId (CLIENT_ID (p_ids p)) (COUNTER (p_ids p)) = None.
Proof.
  intros HG Hp. apply eq_None_not_Some. intros Hi. destruct (gi_ids _ _ _ HG _ Hi) as (k' & p' & Hp' & Hc & Hlt). cbn in Hc, Hlt.
  destruct (proc_part _ _ _ _ _ HG Hp) as (pt & Hk & HP), (proc_part _ _ _ _ _ HG Hp') as (pt' & Hk' & HP').
  rewrite (pi_client _ _ _ _ _ _ HP), (pi_client _ _ _ _ _ _ HP') in Hc. destruct parts_good as (_ & _ & Hnd & _).
  assert (k = k') as <- by (eapply (NoDup_lookup (pt_client <$> parts)); [done|by rewrite list_lookup_fmap, Hk|rewrite list_lookup_fmap, Hk'; cbn; by rewrite Hc]).
  rewrite Hp in Hp'. injection Hp' as <-. lia.
Qed.

Lemma rename_request G s h k p ids o n other cb : GInv G s h -> procs s !! k = Some p -> CLIENT_ID ids = CLIENT_ID (p_ids p) ->
  rename_other p o n = Done other ->
  let id := mkId (CLIENT_ID (p_ids p)) (COUNTER (p_ids p)) in
  let s' := mkSys (append (the_log s) (chains_of (color p) other) (serialize (RenamePart1 id o n true))) (<[k := send (FromMut id cb) (with_ids ids p)]> (procs s)) in
  counters_grow s s' -> COUNTER (p_ids p) <> COUNTER ids ->
  GInv (with_ren id (o, n) G) s' (mkHistory (<[id := (o, n)]> (renames h)) (had_to_wait h) (verdicts h)).
Proof.
  intros HG Hp Hi Eo id s' Hcnt Hne. pose proof (fresh_id _ _ _ _ _ HG Hp) as Hfresh. fold id in Hfresh.
  destruct (proc_part _ _ _ _ _ HG Hp) as (pt & Hk & HP).
  assert (Hlt : (k < length (procs s))%nat) by (by eapply lookup_lt_Some).
  assert (Hv : forall sd, votes G !! (id, sd) = None).
  { intros sd. apply eq_None_not_Some. intros Hs. apply (gi_votes _ _ _ HG) in Hs. rewrite Hfresh in Hs. by destruct Hs. }
  assert (He : forall sd, (id, sd) ∉ (ends G).*1).
  { intros sd Hin. apply list_elem_of_fmap in Hin as ([[j x] ve] & [= <- <-] & Hin). destruct (gi_ended _ _ _ HG _ _ _ Hin) as [Hs _]. rewrite Hfresh in Hs. by destruct Hs. }
  assert (Hall : forall k' q pt', procs s !! k' = Some q -> parts !! k' = Some pt' -> PInv (with_ren id (o, n) G) [] (the_log s') k' q pt').
  { intros k' q pt' Hq Hk'. pose proof (gi_procs _ _ _ HG _ _ _ Hq Hk') as HQ.
    destruct (chain_append (the_log s) (chains_of (color p) other) (serialize (RenamePart1 id o n true)) (chains_nodup _ _)) as (e & Hb & Hlocs & Hc).
    assert (Hrc : forall k0 pt0 sd, parts !! k0 = Some pt0 -> starts_with (path_of sd (o, n)) (pt_root pt0) = true -> pt_color pt0 ∈ chains_of (color p) other).
    { intros k0 pt0 sd Hk0 Hst. eapply (rename_chains p k pt o n); try done; apply HP. }
    eapply rename_proc; [done|done|apply Hc|done|done|done|]. case_decide as Hin.
    - right. exists e. split; [done|]. split; [done|]. by rewrite Hlocs.
    - left. split; [done|]. intros x. destruct (starts_with _ _) eqn:Hst; [|done]. destruct Hin. rewrite (pi_color _ _ _ _ _ _ HQ). by eapply Hrc. }
  constructor; cbn; try apply HG.
  - by rewrite (gi_ren _ _ _ HG).
  - rewrite length_insert. apply HG.
  - intros k' q pt' Hq Hk'. destruct (decide (k' = k)) as [->|Hne'].
    + rewrite list_lookup_insert_eq in Hq by done. injection Hq as <-. apply (pinv_kept _ _ _ _ p); [by apply Hall|done|done|done].
    + rewrite list_lookup_insert_ne in Hq by done. by apply Hall.
  - intros i sd Hs. apply (gi_votes _ _ _ HG) in Hs as [on Hon]. exists on. by apply (ex_ren _ _ (extends_ren G id (o, n) Hfresh)).
  - intros i x ve Hin. destruct (gi_ended _ _ _ HG _ _ _ Hin) as [[on Hon] Hr]. split; [|done]. exists on. by apply (ex_ren _ _ (extends_ren G id (o, n) Hfresh)).
  - intros i. destruct (decide (i = id)) as [->|Hne'].
    + intros _. exists k, (send (FromMut id cb) (with_ids ids p)). rewrite list_lookup_insert_eq by done. split; [done|]. cbn. split; [done|].
      pose proof (Hcnt k p _ Hp (list_lookup_insert_eq _ _ _ Hlt)) as Hle. cbn in Hle. lia.
    + rewrite lookup_insert_ne by done. by eapply ids_stay.
Qed.

Lemma Id_new_ids ids ids' id : Id_new ids = Done (ids', id) ->
  id = mkId (CLIENT_ID ids) (COUNTER ids) /\ CLIENT_ID ids' = CLIENT_ID ids /\ COUNTER ids <> COUNTER ids'.
Proof.
  unfold Id_new. intros E. apply bind_done in E as (_ & _ & E). injection E as <- <-. split; [done|]. split; [done|]. cbn.
  intros Heq. pose proof (Z.div_mod (COUNTER ids + 1) (u64_max + 1)) as Hd. unfold u64_max in *. lia.
Qed.

Lemma asks_step G s h k r s' : GInv G s h -> sys_step hash s (Asks k r) = Done s' -> counters_grow s s' -> exists G', GInv G' s' (record s (Asks k r) h).
Proof.
  intros HG E Hcnt. cbn [sys_step] in E. apply bind_done in E as (p & Hp%unwrap_done & E). apply bind_done in E as ([p' log'] & E & [= <-]).
  unfold client_request in E. apply bind_done in E as ([ids id] & Eid & E). destruct (Id_new_ids _ _ _ Eid) as (-> & Hcl & Hne). destruct r; cbn in E.
  1-3: exists G; injection E as <- <-; eapply (plain_request G s h k p); done.
  - apply bind_done in E as (other & Eo & E). exists (with_ren (mkId (CLIENT_ID (p_ids p)) (COUNTER (p_ids p))) (old_path, new_path) G).
    cbn [record]. rewrite Hp, Eid. destruct other as [c|].
    + unfold send_multi in E. apply bind_done in E as (_ & _ & E). injection E as <- <-. eapply (rename_request G s h k p ids _ _ (Some c)); done.
    + injection E as <- <-. eapply (rename_request G s h k p ids _ _ None); done.
  - injection E as <- <-. exists G. cbn [record]. eapply quiet_step; [done|done|done|done| |by eapply gi_procs].
    intros pt Hk. apply (pinv_kept _ _ _ _ p); [by eapply gi_procs|done|done|done].
Qed.

Lemma materializes_step G s h k n s' : GInv G s h -> sys_step hash s (Materializes k n) = Done s' -> counters_grow s s' -> GInv G s' h.
Proof.
  intros HG E Hcnt. cbn [sys_step] in E. apply bind_done in E as (p & Hp%unwrap_done & E). apply bind_done in E as (p' & E & [= <-]).
  destruct (turn_located _ _ _ _ _ E) as (Hk & Hpl & Hl). eapply quiet_step; [done|done|done|apply Hk| |by eapply gi_procs].
  intros pt Hpt. pose proof (gi_procs _ _ _ HG _ _ _ Hp Hpt) as HP. eapply pinv_same; [done|done|apply Hpl, HP|done].
Qed.

(** *** What a thread does with what it is given *)

Lemma observes G log k t p pt fs o q : PInv G [] log k p pt -> threads p !! t = Some fs -> to_files p !! t = Some (OpObs o :: q) ->
  PInv G [] log k (with_threads (<[t := (observe fs o).1]> (threads p)) (with_to_files (<[t := q]> (to_files p)) p)) pt.
Proof.
  intros HP Hfs Hq. set (p1 := with_threads _ _). destruct (pi_thread _ _ _ _ _ _ HP _ _ Hfs) as [Hr HT].
  assert (Hl : forall t', located k p1 log t' = located k p log t').
  { intros t'. unfold located, inbox. cbn. destruct (decide (t' = t)) as [->|Hne]; [|by rewrite list_lookup_insert_ne by done].
    rewrite list_lookup_insert_eq by (by eapply lookup_lt_Some). by rewrite Hq. }
  constructor; try apply HP.
  - cbn. rewrite !length_insert. apply HP.
  - intros t' fs1 Hfs1. cbn in Hfs1. unfold queue. rewrite Hl. destruct (decide (t' = t)) as [->|Hne].
    + rewrite list_lookup_insert_eq in Hfs1 by (by eapply lookup_lt_Some). injection Hfs1 as <-. unfold observe. destruct (hold fs (obs_path o) (Obs o)) as [fs'|] eqn:Eh; [|done].
      destruct (hold_some _ _ _ _ Eh) as (Hr' & r & d & Hh & Hv). cbn [fst]. split; [by rewrite Hr'|]. rewrite Hv. by apply park_obs.
    + rewrite list_lookup_insert_ne in Hfs1 by done. by eapply pi_thread.
  - intros t' x. rewrite Hl. by eapply pi_locs.
Qed.

Lemma observed_sends fs o : emitted (observe fs o).2 = [].
Proof.
  unfold observe. destruct (hold _ _ _); [done|]. cbn. destruct (handle_observation fs o) eqn:E; [|done]. unfold handle_observation in E. by repeat case_match.
Qed.

Lemma sent_none cs log log' c : sent_to [] cs log log' -> chain log' c = chain log c.
Proof.
  intros Hs. destruct (Hs c) as (es & Hc & He & _). rewrite Hc. destruct es as [|e es]; [apply app_nil_r|].
  destruct (He e ltac:(by apply elem_of_cons; left)) as (m & Hm & _). by apply elem_of_nil in Hm.
Qed.

Lemma pinv_log G E log log' k p pt : PInv G E log k p pt -> chain log' (color p) = chain log (color p) -> PInv G E log' k p pt.
Proof.
  intros HP Hc. assert (Hl : forall t, located k p log' t = located k p log t) by (intros t; unfold located, coming; by rewrite Hc).
  constructor; try apply HP.
  - rewrite Hc. apply HP.
  - intros t fs Hfs. unfold queue. rewrite Hl. by eapply pi_thread.
  - intros t x. rewrite Hl. by eapply pi_locs.
Qed.

(** What a thread says gets to every process that has a file of the rename. *)
Lemma arrives G G' E' X m w ms ls log log' k t k' p pt : Spoke (own k t) (add_ends X G) [] G' E' ms -> sent_to ms (oi_order <$> ls) log log' ->
  item_ok (own k t) G (m, w) -> locs_ok ((m, w), ls) -> (forall j s, (j, s) ∈ E' -> j ∈ waited G' \/ asks_rename m = Some j) ->
  PInv G' E' log k' p pt -> parts !! k' = Some pt -> PInv G' [] log' k' p pt.
Proof.
  intros Hsp Hs Hok Hlocs HE HP Hk. destruct (Hs (color p)) as (es & Hc & He & Hall). eapply deliver_proc; [done|done|done| |].
  - intros e Hin. destruct (He e Hin) as (m' & Hm' & Hb). exists m'. split; [|done]. destruct (sp_msgs _ _ _ _ _ _ Hsp m' Hm') as (i & sd & v & on & Hvo & Hr & Hv).
    unfold told_of. rewrite Hvo. split; [|done]. by rewrite (sp_ren _ _ _ _ _ _ Hsp).
  - intros i sd on x Hin Hr Hst. destruct (HE i sd Hin) as [?|Ha]; [by left|right].
    destruct (sp_sent _ _ _ _ _ _ Hsp i sd Hin) as [Hno|(m' & v & on' & Hm' & Hvo)]; [by apply elem_of_nil in Hno|].
    destruct m; try done. cbn in Ha. injection Ha as ->. destruct Hok as (_ & Hon & _). cbn in Hon.
    rewrite (sp_ren _ _ _ _ _ _ Hsp) in Hr. cbn in Hr. rewrite Hon in Hr. injection Hr as <-.
    destruct (sp_msgs _ _ _ _ _ _ Hsp m' Hm') as (i2 & sd2 & v2 & on2 & Hvo2 & Hr2 & _). rewrite Hvo in Hvo2. injection Hvo2 as <- <- <- <-.
    cbn in Hr2. rewrite Hon in Hr2. injection Hr2 as <-.
    assert (Hcol : color p ∈ oi_order <$> ls) by (rewrite (pi_color _ _ _ _ _ _ HP); by eapply Hlocs).
    destruct (Hall Hcol m' Hm') as (e & He' & Hb). by exists e, m', v.
Qed.

Lemma mutates G s h k t p fs m ls cb w q st p' log' : GInv G s h -> procs s !! k = Some p -> threads p !! t = Some fs ->
  to_files p !! t = Some (OpMut m ls cb w :: q) -> apply_mutation 2 (mkSt fs (p_ids p) []) m w = Done st ->
  on_calls ls cb (with_ids (ids_of st) (with_threads (<[t := fs_of st]> (threads p)) (with_to_files (<[t := q]> (to_files p)) p))) (the_log s) (calls st) = Done (p', log') ->
  counters_grow s (mkSys log' (<[k := p']> (procs s))) ->
  exists G', GInv G' (mkSys log' (<[k := p']> (procs s))) (mkHistory (renames h) (waits_of fs m w ∪ had_to_wait h) (verdicts h ++ verdicts_of fs m w)).
Proof.
  intros HG Hp Hfs Hq Em Ec Hcnt. destruct (proc_part _ _ _ _ _ HG Hp) as (pt & Hk & HP). destruct (pi_thread _ _ _ _ _ _ HP _ _ Hfs) as [Hr HT].
  destruct (on_calls_log _ _ _ _ _ _ _ Ec) as [(Hkp & Hpl & Htf & Hids) Hsent]. cbn [p_ids with_ids] in Hids.
  assert (exists L, queue k p (the_log s) t = (m, w) :: L /\ ((m, w), ls) ∈ located k p (the_log s) t) as (L & HL & Hin).
  { unfold queue, located, inbox. rewrite Hq. cbn. eexists. split; [done|]. by apply elem_of_cons; left. }
  rewrite HL in HT. destruct (turn_mut (own k t) (pt_root pt) (own_root k t pt Hk) _ _ _ _ _ _ _ HT Hr Em) as (Hr' & Hi & HX & Hnd & G' & E' & HT' & Hsp & Hw & HE).
  assert (Hhere : forall j x ve, (j, x, ve) ∈ verdicts_of fs m w -> exists on, ren G !! j = Some on /\ mine (own k t) x on = true) by (intros j x ve Hj; by apply (HX j x ve)).
  pose proof (pi_locs _ _ _ _ _ _ HP _ _ Hin) as Hlocs. pose proof (ti_queue _ _ _ _ _ HT) as [Hok _]%Forall_cons.
  pose proof (works_extends G k t G' E' _ _ Hsp) as Hx.
  assert (Hren : ren G' = ren G) by apply (sp_ren _ _ _ _ _ _ Hsp). assert (Hends : ends G' = ends G ++ verdicts_of fs m w) by apply (sp_ends _ _ _ _ _ _ Hsp).
  assert (Hlt : (k < length (procs s))%nat) by (by eapply lookup_lt_Some).
  exists G'. constructor; cbn.
  - rewrite Hren. apply HG.
  - rewrite Hw. by rewrite (gi_waited _ _ _ HG).
  - rewrite Hends. by rewrite (gi_ends _ _ _ HG).
  - rewrite length_insert. apply HG.
  - intros k' p2 pt' Hp2 Hk'. destruct (decide (k' = k)) as [->|Hne].
    + rewrite list_lookup_insert_eq in Hp2 by done. injection Hp2 as <-. rewrite Hk in Hk'. injection Hk' as <-.
      eapply (pinv_kept _ _ _ _ _ p'); [|done|done|done]. eapply arrives; try done.
      apply works_here with (G := G) (X := verdicts_of fs m w) (ms := emitted (calls st)) (m := m) (ls := ls) (cb := cb) (w := w) (fs := fs); try done.
      intros L' HL'. rewrite HL in HL'. by injection HL' as <-.
    + rewrite list_lookup_insert_ne in Hp2 by done. eapply arrives; try done. eapply works_other; try done. by eapply gi_procs.
  - intros i sd Hs. rewrite Hren. destruct (sp_new _ _ _ _ _ _ Hsp i sd Hs) as [Hs'|(_ & on & Hon & _)]; [by eapply gi_votes|by exists on].
  - intros i x ve Hiv. rewrite Hends in Hiv. apply elem_of_app in Hiv as [Hiv|Hiv].
    + destruct (gi_ended _ _ _ HG _ _ _ Hiv) as (Hs & vo & vn & Hvo & Hvn & ->). rewrite Hren. split; [done|]. exists vo, vn. eauto using ex_votes.
    + destruct (HX _ _ _ Hiv) as (_ & (on & Hon & _) & vo & vn & Hvo & Hvn & ->). rewrite Hren. split; [by exists on|]. exists vo, vn. eauto using ex_votes.
  - rewrite Hends, fmap_app. apply NoDup_app. split; [apply HG|]. split; [|done]. intros [i x] Hi1 Hi2.
    apply list_elem_of_fmap in Hi2 as ([[j y] ve] & [= -> ->] & Hi2). by destruct (HX _ _ _ Hi2) as [? _].
  - rewrite Hren. eapply ids_stay; [done|done|done|]. by rewrite Hids.
Qed.

Lemma works_step G s h k t s' : GInv G s h -> sys_step hash s (Works k t) = Done s' -> counters_grow s s' -> exists G', GInv G' s' (record s (Works k t) h).
Proof.
  intros HG E Hcnt. cbn [sys_step] in E. apply bind_done in E as (p & Hp%unwrap_done & E). apply bind_done in E as ([p' log'] & E & [= <-]).
  unfold thread_turn in E. apply bind_done in E as (fs & Hfs%unwrap_done & E). apply bind_done in E as (q & Hq%unwrap_done & E).
  assert (Hn : next_op s k t = (fun op => (fs, op)) <$> head q) by (unfold next_op; rewrite Hp; cbn; rewrite Hfs; cbn; rewrite Hq; cbn; by destruct q).
  destruct (proc_part _ _ _ _ _ HG Hp) as (pt & Hk & HP). cbn [record]. rewrite Hn. destruct q as [|[m ls cb w|o] q]; cbn [head fmap option_fmap option_map].
  - injection E as <- <-. exists G. eapply quiet_step; [done|done|done|done| |by eapply gi_procs]. intros pt' Hk'. by eapply gi_procs.
  - apply bind_done in E as (st & Em & E). by eapply mutates.
  - exists G. destruct (observe fs o) as [fs' cs] eqn:Eo. destruct (on_calls_log _ _ _ _ _ _ _ E) as [(Hkp & Hpl & Htf & Hids) Hsent].
    pose proof (observed_sends fs o) as Hem. rewrite Eo in Hem. cbn [snd] in Hem. rewrite Hem in Hsent.
    eapply quiet_step; [done|done|done|by rewrite Hids| |].
    + intros pt' Hk'. rewrite Hk in Hk'. injection Hk' as <-. eapply (pinv_kept _ _ _ _ _ p'); [|done|done|done].
      eapply pinv_log; [|by eapply sent_none]. pose proof (observes _ _ _ _ _ _ _ _ _ HP Hfs Hq) as Ho. by rewrite Eo in Ho.
    + intros k' p2 pt' Hp2 Hk'. eapply pinv_log; [by eapply gi_procs|by eapply sent_none].
Qed.

(** *** The start *)

Lemma start_view root roots : hview (FileSystem_new root roots) = ∅.
Proof. unfold FileSystem_new. rewrite !hview_put. unfold is_same. cbn [held_node FileNode_new pending_rename fmap option_fmap option_map].
  assert (He : hview (mkFs root 0 ∅ roots) = ∅) by (unfold hview; cbn [files]; apply omap_empty). rewrite He. by rewrite !delete_empty.
Qed.

Lemma empty_thread o : TInv o (mkGhost ∅ ∅ ∅ []) [] ∅ [].
Proof.
  constructor; try done.
  - constructor.
  - by intros i ?%elem_of_nil.
  - by intros i (k & r & d & ? & _).
  - by intros i s ?%elem_of_nil.
  - intros [|] x L2 i s E; discriminate.
Qed.

Lemma start_proc k p pt : parts !! k = Some pt -> Client_new (pt_color pt) (pt_root pt) (roots_of parts) (pt_client pt) = Done p ->
  PInv (mkGhost ∅ ∅ ∅ []) [] ∅ k p pt.
Proof.
  intros Hk E. unfold Client_new in E. apply bind_done in E as (_ & _ & [= <-]).
  assert (Hl : forall t p, to_files p = [[]; []] -> located k p ∅ t = []).
  { intros t p Hp. unfold located, inbox, coming, chain. rewrite lookup_empty, Hp. cbn. rewrite drop_nil. by destruct t as [|[|]]. }
  constructor; try done.
  - intros t fs Hfs. apply (lookup_replicate num_file_threads) in Hfs as [-> _]. split; [done|]. unfold queue. rewrite Hl by done. rewrite start_view. apply empty_thread.
  - intros t x. rewrite Hl by done. by intros ?%elem_of_nil.
Qed.

Lemma service_inv s h : reach s h -> exists G, GInv G s h.
Proof.
  induction 1 as [ps Hps|s h a s' _ [G HG] E Hcnt].
  - exists (mkGhost ∅ ∅ ∅ []). constructor; cbn; try done.
    + symmetry. by eapply Forall2_length.
    + intros k p pt Hp Hk. eapply start_proc; [done|]. by eapply Forall2_lookup_lr in Hps.
    + by intros i s [? ?].
    + by intros i x ve ?%elem_of_nil.
    + constructor.
    + by intros i [? ?].
  - destruct a as [k r|k n|k t]; [by eapply asks_step|exists G; by eapply materializes_step|by eapply works_step].
Qed.

(** *** What follows *)


(** Every process has read its chain, and its threads have done what they were given. *)
Definition quiescent (s : Sys) : Prop :=
  forall k p, procs s !! k = Some p -> played p = length (chain (the_log s) (color p)) /\ Forall (fun q => q = []) (to_files p).

Lemma nothing_coming s k p t : quiescent s -> procs s !! k = Some p -> queue k p (the_log s) t = [].
Proof.
  intros Hq Hp. destruct (Hq k p Hp) as [Hpl Hf]. unfold queue, located, inbox, coming. rewrite Hpl, drop_all. cbn. rewrite app_nil_r.
  destruct (to_files p !! t) as [q|] eqn:E; [|done]. eapply Forall_lookup in Hf; [|done]. by subst q.
Qed.

(** The thread that has a file. *)
Lemma file_thread G s h k pt path : GInv G s h -> parts !! k = Some pt -> starts_with path (pt_root pt) = true -> quiescent s ->
  exists t fs, own k t (key path) = true /\ TInv (own k t) G [] (hview fs) [].
Proof.
  intros HG Hk Hst Hq. assert (is_Some (procs s !! k)) as [p Hp] by (apply lookup_lt_is_Some; rewrite (gi_len _ _ _ HG); by eapply lookup_lt_Some).
  pose proof (gi_procs _ _ _ HG _ _ _ Hp Hk) as HP. set (t := thread_of (hash k) path).
  assert (is_Some (threads p !! t)) as [fs Hfs].
  { apply lookup_lt_is_Some. rewrite (proj1 (pi_len _ _ _ _ _ _ HP)). unfold t, thread_of, num_file_threads.
    pose proof (Z.mod_pos_bound (hash k (key path)) 2 ltac:(lia)). change (Z.of_nat 2) with 2. lia. }
  exists t, fs. rewrite (own_starts k t pt) by done. rewrite Hst, bool_decide_true by done. split; [done|].
  destruct (pi_thread _ _ _ _ _ _ HP _ _ Hfs) as [_ HT]. by rewrite (nothing_coming s) in HT.
Qed.

Lemma open_side r : state r = Done Pending -> exists s, said s r = Pending.
Proof. unfold state. destruct (old_exists r) eqn:Eo, (new_empty r) eqn:En, (r_check_new r); intros E; try done; first [by exists SOld|by exists SNew]. Qed.

(** C11.  A rename ends.  When there is nothing left to read and to do, a rename of two files of the
    service that did not have to wait for another one has ended at both of them. *)
Theorem rename_ends s h i on : reach s h -> quiescent s -> renames h !! i = Some on -> i ∉ had_to_wait h ->
  (forall x, exists k pt, parts !! k = Some pt /\ starts_with (path_of x on) (pt_root pt) = true) ->
  forall x, exists v, (i, x, v) ∈ verdicts h.
Proof.
  intros [G HG]%service_inv Hq. rewrite <-(gi_ren _ _ _ HG), <-(gi_waited _ _ _ HG), <-(gi_ends _ _ _ HG). intros Hr Hw Hin.
  assert (Hth : forall x, exists k t fs, mine (own k t) x on = true /\ TInv (own k t) G [] (hview fs) []).
  { intros x. destruct (Hin x) as (k & pt & Hk & Hst). destruct (file_thread _ _ _ _ _ _ HG Hk Hst Hq) as (t & fs & ? & ?). by exists k, t, fs. }
  assert (Hv : forall x, is_Some (votes G !! (i, x))).
  { intros x. destruct (Hth x) as (k & t & fs & Hm & HT). destruct (ti_asked _ _ _ _ _ HT _ _ _ Hr Hm) as [?|[?%elem_of_nil|?]]; done. }
  intros x. destruct (Hth x) as (k & t & fs & Hm & HT). destruct (ti_voted _ _ _ _ _ HT _ _ _ Hr Hm (Hv x)) as [(r & d & Hh & <-)|He].
  - destruct (open_side r (ti_open _ _ _ _ _ HT _ _ _ Hh)) as [sd Hsd].
    destruct (ti_coming _ _ _ _ _ HT _ _ _ _ Hh Hsd (Hv sd)) as [(y & Hy & _)|[?|Hy]]; [by apply elem_of_nil in Hy|done|by apply elem_of_nil in Hy].
  - apply list_elem_of_fmap in He as ([[j y] v] & [= -> ->] & He). by exists v.
Qed.
End Service.
