(* ===== verification/ZooDemo.v ===== *)
(** * Runs of the service

    Renames between two threads and between two processes, with their requests, rounds and turns
    written out, and the corners of the file system. *)

From stdpp Require Import base gmap list strings countable.
From Stdlib Require Import ZArith Lia.
From S2P Require Import Prelude ZooFiles ZooClient ZooRename ZooThread ZooService.
Open Scope Z_scope.

Module ZooDemo.

(** A way to write mutations as numbers. *)
Definition Flat : Type :=
  (Id * Z * PathBuf * list Z) + (Id * PathBuf * Z) + (Id * PathBuf * list Z * Z) + (Id * PathBuf * PathBuf * bool) +
  (Id * Id * Z * PathBuf * PathBuf * list Z) + (Id * Id * PathBuf * PathBuf) + (Id * Id * PathBuf * PathBuf * bool).

Definition flat (m : Mutation) : Flat :=
  match m with
  | Create a b c d => inl (inl (inl (inl (inl (inl (a, b, c, d))))))
  | Delete a b c => inl (inl (inl (inl (inl (inr (a, b, c))))))
  | Set_ a b c d => inl (inl (inl (inl (inr (a, b, c, d)))))
  | RenamePart1 a b c d => inl (inl (inl (inr (a, b, c, d))))
  | RenameOldExists a b c d e f => inl (inl (inr (a, b, c, d, e, f)))
  | RenameNewEmpty a b c d => inl (inr (a, b, c, d))
  | RenameNack a b c d e => inr (a, b, c, d, e)
  end.
Definition unflat (x : Flat) : Mutation :=
  match x with
  | inl (inl (inl (inl (inl (inl (a, b, c, d)))))) => Create a b c d
  | inl (inl (inl (inl (inl (inr (a, b, c)))))) => Delete a b c
  | inl (inl (inl (inl (inr (a, b, c, d))))) => Set_ a b c d
  | inl (inl (inl (inr (a, b, c, d)))) => RenamePart1 a b c d
  | inl (inl (inr (a, b, c, d, e, f))) => RenameOldExists a b c d e f
  | inl (inr (a, b, c, d)) => RenameNewEmpty a b c d
  | inr (a, b, c, d, e) => RenameNack a b c d e
  end.

#[global] Instance mutation_countable_dec : EqDecision Mutation.
Proof. solve_decision. Defined.
#[global] Instance mutation_countable : Countable Mutation.
Proof. refine (inj_countable' flat unflat _). by intros []. Defined.

#[global] Instance bincode : Bincode.
Proof.
  refine {| serialize m := [Z.pos (encode m)];
            deserialize b := match b with [Z.pos p] => decode p | _ => None end |}.
  intros m. apply decode_encode.
Defined.
#[global] Existing Instance dev.

(** A file is with the thread of the last character of its name. *)
Definition hash (k : Key) : Z :=
  match List.rev k with
  | Normal s :: _ => match String.rev s with String c _ => Z.of_nat (Ascii.nat_of_ascii c) | EmptyString => 0 end
  | _ => 0
  end.

Definition two_parts : list Part := [mkPart "a" "/a/" 1 101; mkPart "b" "/b/" 2 102].
Definition two_roots : gmap string Z := roots_of two_parts.
Definition proc_of (o : outcome Proc) : Proc := match o with Done p => p | Panic => mkProc 0 "" ∅ (mkIds 0 0) [] ∅ ∅ [] [] [] 0 [] end.
Definition start : Sys := mkSys ∅ [proc_of (Client_new 1 "/a/" two_roots 101); proc_of (Client_new 2 "/b/" two_roots 102)].

Definition turns (k : nat) : list Action := [Materializes k 9; Works k 0; Works k 1; Works k 0; Works k 1].
Definition told_at (k : nat) (o : outcome Sys) : option (list Told) :=
  match o with Done s => told <$> procs s !! k | Panic => None end.
Definition run (acts : list Action) : outcome Sys := sys_run (fun _ => hash) start acts.
End ZooDemo.
Import ZooDemo.

Example keys : key "/a/" = [RootDir; Normal "a"] /\ key "/a//./b0" = [RootDir; Normal "a"; Normal "b0"] /\
  key "./x/../y" = [CurDir; Normal "x"; ParentDir; Normal "y"] /\ key "" = [] /\ key "/" = [RootDir].
Proof. vm_compute. by split_and!. Qed.

(** A file moves to the other process with its data. *)
Example rename_between_processes :
  told_at 1 (run ([Asks 0 (ReqCreate "/a/x" [1; 2] persistent 1)] ++ turns 0 ++
    [Asks 0 (ReqRename "/a/x" "/b/y" 2)] ++ turns 0 ++ turns 1 ++ turns 0 ++ turns 1 ++
    [Asks 1 (ReqObserve GetData "/b/y" false)] ++ turns 1 ++ turns 1))
  = Some [ToldSeen (mkId 102 1) (SeenData "/b/y" [1; 2] (mkStat 0 1 0))].
Proof. vm_compute. reflexivity. Qed.

(** ** Renames end at both files *)

Lemma two_parts_ok : parts_ok two_parts.
Proof. split_and!; [| | |repeat constructor]; apply (bool_decide_unpack _); vm_compute; exact I. Qed.

Lemma start_reach : reach (fun _ => hash) two_parts start (mkHistory ∅ ∅ []).
Proof. constructor. repeat constructor. Qed.

(** A rename to the other process, and one between the threads of a process that is refused. *)
Definition two_renames : list Action :=
  [Asks 0 (ReqCreate "/a/x" [1; 2] persistent 1)] ++ turns 0 ++ [Asks 0 (ReqRename "/a/x" "/b/y" 2)] ++ turns 0 ++ turns 1 ++ turns 0 ++ turns 1 ++
  [Asks 1 (ReqRename "/b/z" "/b/w" 3)] ++ turns 1 ++ turns 1 ++ turns 0.
Definition renamed : Sys * History := default (start, mkHistory ∅ ∅ []) (history_run (fun _ => hash) start (mkHistory ∅ ∅ []) two_renames).

Lemma renamed_reach : reach (fun _ => hash) two_parts renamed.1 renamed.2.
Proof.
  apply (history_reach _ _ two_renames _ _ _ _ start_reach). unfold renamed.
  destruct (history_run _ _ _ _) as [[s h]|] eqn:E; [done|]. apply (f_equal (fun o => match o with Some _ => true | None => false end)) in E. by vm_compute in E.
Qed.

Example renamed_verdicts : verdicts renamed.2 =
  [(mkId 101 1, SOld, Some [1; 2]); (mkId 101 1, SNew, Some [1; 2]); (mkId 102 1, SOld, None); (mkId 102 1, SNew, None)].
Proof. vm_compute. reflexivity. Qed.


Lemma renamed_quiescent : quiescent renamed.1.
Proof.
  assert (Hall : Forall (fun p => played p = length (chain (the_log renamed.1) (color p)) /\ Forall (fun q => q = []) (to_files p)) (procs renamed.1)).
  { apply (bool_decide_unpack _). vm_compute. exact I. }
  intros k p Hp. by eapply Forall_lookup in Hall.
Qed.

Lemma rename_ends_witness : renames renamed.2 !! mkId 101 1 = Some ("/a/x", "/b/y") /\ forall x, exists v, (mkId 101 1, x, v) ∈ verdicts renamed.2.
Proof.
  assert (Hr : renames renamed.2 !! mkId 101 1 = Some ("/a/x", "/b/y")) by (vm_compute; reflexivity). split; [exact Hr|].
  apply (rename_ends _ _ two_parts_ok _ _ _ _ renamed_reach renamed_quiescent Hr).
  - apply (bool_decide_unpack _). vm_compute. exact I.
  - intros []; [exists 0%nat|exists 1%nat]; (eexists; split; [reflexivity|vm_compute; reflexivity]).
Defined.

(** ** Corners *)

Definition answers (acts : list Action) : option (list Told) := told_at 0 (run (acts ++ turns 0 ++ turns 0 ++ turns 0)).

(** A rename of a file that does not exist is reported as done: the callback is called before the
    files have said anything, with the path of the node that stands in for the file. *)
Example rename_of_nothing_reported :
  answers [Asks 0 (ReqRename "/a/z" "/a/w" 3)] = Some [ToldVoid 3 (inl "/a/z")].
Proof. vm_compute. reflexivity. Qed.

(** What waited for a rename is handled, but its callback (3) is not called: the closure at hand then
    is that of the message that ended the rename. *)
Example held_callback_lost :
  answers [Asks 0 (ReqCreate "/a/x" [1] persistent 1); Asks 0 (ReqRename "/a/x" "/a/w" 2); Asks 0 (ReqDelete "/a/x" (-1) 3)]
  = Some [ToldPath 1 (inl ("/a/x", "/a/x")); ToldVoid 2 (inl "/a/x")].
Proof. vm_compute. reflexivity. Qed.

(** A file that exists already ends the thread, instead of an error. *)
Example create_twice_panics :
  answers [Asks 0 (ReqCreate "/a/x" [1] persistent 1); Asks 0 (ReqCreate "/a/x" [1] persistent 2)] = None.
Proof. vm_compute. reflexivity. Qed.

(** So does a file in a directory that is with the other thread. *)
Example create_in_directory_panics :
  answers [Asks 0 (ReqCreate "/a/x" [1] persistent 1); Asks 0 (ReqCreate "/a/x/y" [1] persistent 2)] = None.
Proof. vm_compute. reflexivity. Qed.

(** A rename into a directory that does not exist fails, and leaves an empty file there. *)
Example failed_rename_leaves_file :
  answers [Asks 0 (ReqCreate "/a/x" [1] persistent 1); Asks 0 (ReqRename "/a/x" "/a/q/z" 2)]
    = Some [ToldPath 1 (inl ("/a/x", "/a/x")); ToldVoid 2 (inr 593)] /\
  answers ([Asks 0 (ReqCreate "/a/x" [1] persistent 1); Asks 0 (ReqRename "/a/x" "/a/q/z" 2)] ++ turns 0 ++ turns 0 ++ turns 0 ++
       [Asks 0 (ReqObserve GetData "/a/q/z" false)])
    = Some [ToldPath 1 (inl ("/a/x", "/a/x")); ToldVoid 2 (inr 593); ToldSeen (mkId 101 4) (SeenData "/a/q/z" [] (mkStat 0 1 0))].
Proof. split; vm_compute; reflexivity. Qed.

(** The files of a directory that was renamed stay where they were, and deleting one ends the thread. *)
Example orphan_delete_panics :
  answers ([Asks 0 (ReqCreate "/a/x" [1] persistent 1); Asks 0 (ReqCreate "/a/x/z" [1] persistent 2); Asks 0 (ReqRename "/a/x" "/a/z" 3)] ++
       turns 0 ++ turns 0 ++ turns 0 ++ [Asks 0 (ReqDelete "/a/x/z" (-1) 4)]) = None.
Proof. vm_compute. reflexivity. Qed.

(** A change does not change the version, so that a second one with the same version succeeds. *)
Example version_stays :
  answers [Asks 0 (ReqCreate "/a/x" [1] persistent 1); Asks 0 (ReqSetData "/a/x" [2] 0 2); Asks 0 (ReqSetData "/a/x" [3] 0 3)]
  = Some [ToldPath 1 (inl ("/a/x", "/a/x")); ToldStat 2 (inl ("/a/x", mkStat 0 0 1)); ToldStat 3 (inl ("/a/x", mkStat 0 0 2))].
Proof. vm_compute. reflexivity. Qed.

(** A sequential file is with the thread of its base name, and not found under its own. *)
Example sequential_not_found :
  answers ([Asks 0 (ReqCreate "/a/x" [8] persistent_sequential 1); Asks 0 (ReqCreate "/a/x" [9] persistent_sequential 2)] ++ turns 0 ++
       [Asks 0 (ReqObserve GetData "/a/x1" false)])
  = Some [ToldPath 1 (inl ("/a/x0", "/a/x0")); ToldPath 2 (inl ("/a/x1", "/a/x1")); ToldSeen (mkId 101 2) (NotSeen 966)].
Proof. vm_compute. reflexivity. Qed.

(** A sequential file whose name is taken is reported as made, and its data is dropped. *)
Example sequential_drops_data :
  answers ([Asks 0 (ReqCreate "/a/z0" [1] persistent 1); Asks 0 (ReqCreate "/a/z" [9] persistent_sequential 2)] ++ turns 0 ++
       [Asks 0 (ReqObserve GetData "/a/z0" false)])
  = Some [ToldPath 1 (inl ("/a/z0", "/a/z0")); ToldPath 2 (inl ("/a/z0", "/a/z0")); ToldSeen (mkId 101 2) (SeenData "/a/z0" [1] (mkStat 0 0 0))].
Proof. vm_compute. reflexivity. Qed.

(** What the other file of a second rename says, while the first one holds the file, ends the thread. *)
Example second_rename_panics :
  answers [Asks 0 (ReqCreate "/a/x" [1] persistent 1); Asks 0 (ReqRename "/a/x" "/b/y" 2); Asks 0 (ReqRename "/a/x" "/a/u" 3)] = None.
Proof. vm_compute. reflexivity. Qed.

(** A rename that had to wait is answered only on the chain of the message that ended the wait: with
    nothing left to do, the other process holds its file for ever. *)
Definition waiting_rename : list Action :=
  [Asks 0 (ReqCreate "/a/x" [1] persistent 1); Asks 0 (ReqRename "/a/x" "/a/w" 2); Asks 0 (ReqRename "/a/x" "/b/y" 3)] ++
  turns 0 ++ turns 0 ++ turns 0 ++ turns 1 ++ turns 0 ++ turns 1.
Definition still_held (k t : nat) (path : PathBuf) (o : outcome Sys) : option bool :=
  match o with
  | Done s => (fun fs => bool_decide (is_Some (files fs !! key path ≫= pending_rename))) <$> (procs s !! k ≫= fun p => threads p !! t)
  | Panic => None
  end.
Definition idle (o : outcome Sys) : bool :=
  match o with
  | Done s => forallb (fun p => bool_decide (played p = length (chain (the_log s) (color p)) /\ Forall (fun q => q = []) (to_files p))) (procs s)
  | Panic => false
  end.
Example waiting_rename_never_ends : idle (run waiting_rename) = true /\ still_held 1 1 "/b/y" (run waiting_rename) = Some true.
Proof. split; vm_compute; reflexivity. Qed.

(** Deleting the directory a file is being renamed into ends the thread. *)
Example directory_deleted_panics :
  answers [Asks 0 (ReqCreate "/a/w" [] persistent 1); Asks 0 (ReqCreate "/a/z" [1] persistent 2); Asks 0 (ReqRename "/a/w" "/a/z/x" 3); Asks 0 (ReqDelete "/a/z" (-1) 4)] = None.
Proof. vm_compute. reflexivity. Qed.
